(* ===== verification/_CoqProject ===== *)
-Q . S2P
Prelude.v
Ordering.v
Reader.v
Wire.v
Fields.v
ServiceKeys.v
StateView.v
StateDiff.v
Records.v
Witness.v
RefineInput.v
Dependencies.v
RefineOutput.v
Accumulate.v
Ownership.v
GuestMemory.v
Crypto.v
Actions.v
ActionsV2.v
Management.v
Protocol.v
Matrix.v
Types.v
Natural.v
Codec.v
Text.v
State.v
ModelTrie.v
Overlays.v
Execution.v
Requests.v
Guest.v
Planner.v
GuestRuntime.v
GuestActions.v
GuestEntry.v
GuestTyped.v
HostGuest.v
Provider.v
WorkBuilder.v
BackendBase.v
Abi.v
AbiCorrect.v
Registry.v
Envelope.v
Database.v
BackendState.v
Selection.v
JsonValue.v
Coordinator.v
CoordinatorInvariant.v
Engine.v
EngineCorrect.v
Dispatcher.v
DispatcherCorrect.v
Gateway.v
Deployment.v
DeploymentCorrect.v
Disk.v
DiskCorrect.v
Handler.v
Http.v
HandlerCorrect.v
HandlerAnswers.v
HandlerRegistry.v
HandlerToy.v
DeploymentBackend.v
DeploymentToy.v
InMemory.v
CAlloc.v
Allocator.v
