(* ===== verification/Prelude.v ===== *)
(** * A verification development for JamScript's managed-state runtime

    ** The program

    A JamScript service keeps its state in a Merkle trie and publishes only the
    root of it on chain. Work flows through these parts:
    - a host builds a work item: it runs the actions over its full state
      ([service-runtime-state], [StateTransaction]), records which keys they
      touch and packs a storage proof of those keys into a refine input
      ([service-runtime-core], [RuntimeRefineInputV1]);
    - a guest refines it: it authenticates the actions
      ([jamscript-runtime-core], [jamscript-crypto], [ownership-core],
      [ownership-matrix]), replays them over the proof ([ProofState]) with one
      transaction per action, and emits a transition
      ([RuntimeRefineOutputV1]: receipts, new root, diff, dependencies)
      ([service-runtime-guest]); the application it runs is the one of
      [polkavm-guest-runtime], which dispatches on the descriptor of the service
      and hands the payload to a compiled script;
    - before that, the guest planner or the host's work builder
      ([service-runtime-host]) runs the same actions over what is known and asks
      for the first key it lacks;
    - the backend ([jamscript-service-backend]) queues submitted actions, takes
      batches of them in the order of their nonces, keeps the materialized
      states with their history, commits published transitions to a database
      and a log, and starts again from them; it plans and predicts the work of a
      batch, submits it to the network, follows it to the finalized chain, and
      answers JSON-RPC requests, which it reads from HTTP connections, while its
      dispatcher runs beside them;
    - an operator deploys a service with [jamscript-deployment]: it resolves the
      network, checks the built artifact, creates the service on MiniJAM over
      [curl], registers it with a backend and keeps a record; the backend's
      gateway reaches the network through the same transport;
    - accumulate checks expiry and dependencies of the transitions and moves the
      stored commitment ([minijam_accumulate], [AccumulateContext]);
      applications write raw service storage beside it, but not the runtime's
      reserved keys;
    - clients encode action arguments and stored values against the ABI types
      of the service ([jamscript-ir], [jamscript-codec]), sign actions with
      [jamscript-protocol] and try them on an in-memory runtime
      ([jamscript-runtime]);
    - the guest allocates from a heap of its own, within the budget of the
      service, for Rust and for C ([guest_allocator.rs], [allocator_abi.rs]).

    ** Conventions

    A machine integer is a [Z] with its range written out ([u32_ok],
    [U64_MAX], ...); [checked_add] and [checked_mul] fail above the bound.
    Targets are 64-bit. A byte string is a [list byte], a Rust [String] its
    UTF-8 bytes, [slice_ok] the [isize::MAX] limit every Rust allocation has.
    [result] is Rust's [Result], [let? x := m in k] its [?], and
    [bail_if c with e ;; k] an early return. Decoders are functions of the
    state-and-error monad [parser] over the source's [Reader]; a method of
    [&mut self] returns the new state beside its result. Maps and sets that are
    [BTreeMap]s in the source are [gmap]s where only lookups matter and sorted
    lists where the order is observable.

    ** Files

    Shared:
    - this file: results, machine integers, bytes and slices, their lemmas, the
      tactics [result_inv] (invert a chain of [?]), [to_prop] (guards as
      propositions, database [guards]) and [blia] (lengths, database [blen]);
    - [Ordering]: lexicographic order, stable sort, [dedup], windows, binary
      search, as executable functions with their specifications;
    - [Reader], [Wire], [Fields]: the byte readers and writers with the logic
      [parses] / [yields], and the interface [CanonicalCodec].

    [service-runtime-core/src/lib.rs]:
    - [ServiceKeys]: key classes, [ServiceKeyV1], [BackendMetadataV1], planner
      envelopes, [ManagedStateCommitmentV1];
    - [StateView], [StateDiff], [Records]: [StateViewV1], [StateDiffV1],
      [ScriptActionResultV1], [StateRecoveryV1], [StateTransitionV1],
      [RecoveryRecordV1];
    - [Witness], [RefineInput]: [StateAccessPlanV1], [ManagedStateWitnessV1],
      external witnesses, [RuntimeRefineInputV1];
    - [Dependencies], [RefineOutput]: dependency rows, receipts,
      [RuntimeRefineOutputV1] with its two decoders;
    - [Accumulate]: the trait [RawJamStorage] as a class with its contract, and
      [AccumulateContext];
    - [Execution]: [ExecutionContext]; an application is the tree [prog] of the
      context calls it makes, run over any [ManagedStateAccess].
    [service-runtime-core/src/guest_memory.rs]: [GuestMemory].

    [service-runtime-state/src/lib.rs]: [State] (the trie interface, the shared
    overlay, the abstract machine [Snapshots]), [Overlays] ([FullState],
    [StateTransaction], [ProofState]), [ModelTrie] (an instance of the trie).

    [service-runtime-guest/src/lib.rs]: [Guest] ([refine] and
    [ExternalProofStates]), [Planner] (the observed copy of the refine loop and
    [plan_owned]), [Requests] (which keys a program may ask for). [HostGuest]
    joins the host's recording to the guest's proof.

    [service-runtime-guest/src/allocator_abi.rs]: [CAlloc] (the C functions over
    any [GlobalAlloc], their contract and the abstract heap they refine);
    [service-runtime-guest/src/guest_allocator.rs]: [Allocator] (the runtime
    allocator, its growth, faults and resets, every call the guest can make).

    [polkavm-guest-runtime/src/lib.rs]: [GuestRuntime] (descriptor,
    [authenticate], script results, [DescriptorApplication]), [GuestActions]
    (what an action does to the state), [GuestEntry] (the entry points).

    [service-runtime-host/src/lib.rs]: [Provider] ([HostStateSession],
    [FullStateProvider]), [WorkBuilder] ([PlanningState],
    [AuthenticatedWorkBuilder] over the traits [FinalizedManagedStateSource] and
    [ServiceStateProvider] as classes).

    [jamscript-service-backend/src/lib.rs]:
    - [BackendBase]: errors, records, hexadecimal forms, keys of transitions;
    - [Registry]: [ServiceRegistry], [ApplicationRegistry] over the trait
      [ApplicationPlanner];
    - [Envelope]: [RecoveryEnvelopeV1] and the recovery log;
    - [Database]: [BackendDatabase] over column families;
    - [BackendState]: [BackendState], the state all requests share, its
      invariant and its step relation;
    - [Selection], [Coordinator]: [select_canonical_indices] and
      [TransactionCoordinator]; [CoordinatorInvariant] has its invariant over
      every sequence of calls;
    - [JsonValue]: [serde_json::Value] as a class with laws;
    - [Engine]: the traits [BackendNetwork] and [ArtifactStore], the
      [PvmApplication] and [BackendEngine] ([submit_actions], [status]);
      [GuestTyped] and [EngineCorrect]: what is submitted, predicted and shown;
    - [Dispatcher], [DispatcherCorrect]: the dispatcher thread,
      [dispatch_ready_batches] and [reconcile_in_flight_batches];
    - [Gateway]: [MiniJamNetworkGateway], the network over JSON-RPC;
    - [Disk], [DiskCorrect]: [DiskArtifactStore] and the registry file of
      [DiskBackendStore], over a directory whose operations may fail;
    - [Http]: [read_http_request], [handle_json] and [serve_connection];
    - [Handler]: [BackendRpcHandler] with every method of [handle];
      [HandlerCorrect] (how requests and the dispatcher share the state),
      [HandlerAnswers] (what answers mean), [HandlerRegistry] (what requests
      register), [HandlerToy] (a daemon to run them on).

    [jamscript-deployment/src/lib.rs]: [Deployment] (networks, artifacts, the
    transport [CurlJsonRpcTransport], creation, registration and records, over
    processes and files that may fail), [DeploymentCorrect] (what holds of them),
    [DeploymentBackend] (the client and the backend together), [DeploymentToy]
    (a project, a network and a backend to run it on). [Text] has the functions
    of [str] that this library and the HTTP server use.

    Authentication: [Ownership] ([ownership-core]), [Crypto]
    ([jamscript-crypto]), [Actions], [ActionsV2], [Management]
    ([jamscript-runtime-core]: wallet actions, ownership actions, service
    management), [Matrix] ([ownership-matrix]), [Protocol]
    ([jamscript-protocol], the client's side of the actions). [InMemory]
    ([jamscript-runtime]): control claims and the in-memory runtime.

    Values: [Types] ([TypeIr] and [max_encoded_len] of [jamscript-ir]), [Abi]
    (its service IR and [abi_for_language]; [AbiCorrect] what an ABI says),
    [Natural] and [Codec] ([jamscript-codec]).

    ** What the theorems show

    - Execution. [Guest.refine_correct]: a successful refine computes exactly
      what running its actions one after the other on the witnessed map
      computes. [Overlays.transaction_refines_snapshots] and
      [Overlays.proof_state_never_lies]: both overlays implement the abstract
      map with savepoints (class [SnapshotRefinement]), the guest's up to an
      explicit missing witness. [HostGuest.recorded_proof_suffices]: the proof
      the host records opens in the guest and answers every call of the same
      program; where the program deletes nothing the guest also computes the
      same root and diff.
    - The guest service. [GuestActions.guest_refine_authorized]: a refine of any
      service changes its state only by authorized actions, at the current nonce
      of their signer, within the declared namespaces;
      [GuestActions.signed_action_takes_effect_once]: nothing signed takes effect
      twice; [GuestEntry.accumulate_follows_refines]: the commitment on chain
      moves along such refines only, in time and over current dependencies.
    - Planning. [Planner.planner_requests_are_new]: each request names a key not
      yet supplied, so the loop that answers requests makes progress;
      [Planner.observer_changes_only_generic_code] and
      [Planner.planning_is_not_isolated] state where the second loop and the
      planner differ from refine.
      [WorkBuilder.built_work_correct]: what the builder returns is what running
      the actions gives; [WorkBuilder.planning_finishes]: without external services
      its rounds end, with keys that are enough.
    - Provider and backend. [Provider.provider_heads_safe] and
      [Provider.provider_recovery_exact]: canonical and recent roots stay open and
      recovery moves the head by exactly the published diff.
      [Registry.registry_bindings_immutable]: numbers and keys correspond.
      [Envelope.recovery_log_replays]: the log gives back what was appended, also
      after a torn write. [BackendState.backend_commit_exact],
      [BackendState.backend_survives_restart] and
      [BackendState.prediction_materialized_once]: a transition is committed
      whole or not at all, a restart finds the heads of the moment it stopped,
      and no prediction is committed twice.
    - Coordinator. [Selection.batch_selection_exact] and
      [CoordinatorInvariant.batch_taken_exact]: what a batch takes from a queue;
      [CoordinatorInvariant.coordinator_places_transactions] and
      [CoordinatorInvariant.lane_held_until_batch_ends]: every transaction is in
      one place, and every service has at most one batch in flight.
    - Submission. [EngineCorrect.submitted_prediction_correct] and
      [EngineCorrect.submitted_work_takes_effect]: the entry points, run on what
      the backend submits, do what it predicted, and receipts mean that they did;
      [GuestTyped.published_output_exact]: a published output is read back as it
      was, by both decoders.
      [DispatcherCorrect.submitted_at_most_once] and
      [DispatcherCorrect.failed_means_not_accepted]: a batch is sent again, or
      reported as failed, only when nothing can have been accepted or the network
      answered that its work failed.
      [EngineCorrect.receipts_only_when_canonical]: receipts are shown only when
      the finalized commitment is at the predicted root.
    - Requests. [HandlerCorrect.requests_are_sections] and
      [HandlerCorrect.daemon_moves_by_steps]: requests and dispatcher are
      interleavings of the sections and steps the theorems above are about;
      [HandlerAnswers.state_answer_exact],
      [HandlerAnswers.transaction_status_exact]: what a client is told of a
      value or a transaction is so on chain, by the predictions the backend had
      while the request ran;
      [HandlerRegistry.registrations_justified]: services are registered as the
      chain and their program have them, or with the token of the operator.
    - Deployment. [DeploymentCorrect.deployment_exact]: one call changes anything,
      and only on the network that was meant;
      [DeploymentCorrect.artifact_verified]: what is deployed is what the
      directory and its metadata describe, and no other files are read; [DeploymentCorrect.network_resolution_exact]: where
      the network and its addresses come from;
      [DeploymentCorrect.transport_outcomes_exact] and
      [DeploymentCorrect.submission_refusal_definite]: what the transport and,
      with the gateway on it, the dispatcher take for a refusal is one;
      [DeploymentBackend.registration_reaches_backend] and
      [DeploymentBackend.rpc_answers_round_trip]: a service the client reports as
      registered is registered, and the client reads what the backend answered.
    - Server and files. [Http.Http.http_request_in_pieces]: a request is the same
      in whatever pieces it arrives; [DiskCorrect.artifact_store_sound] and
      [DiskCorrect.registry_file_round_trip]: the artifact directory holds
      verified programs only and the registry file the registry it was given,
      whatever fails.
    - Formats. For each wire format the decoder accepts exactly the encodings of
      valid values ([..._exact], [..._canonical]); the two refine-output
      decoders agree, and what refine assembles can be published. For the value
      codec: round trip in both directions, the length bound, and the natural
      encoding, which is shortest but not the only text accepted.
    - ABI. [AbiCorrect.abi_exact]: an ABI determines the interface of its service,
      and its type table holds every type under a name of its own.
    - Safety. Applications cannot touch reserved keys; key classes do not
      collide; dependency checks are exact; an accepted action, management
      envelope or cross-signing proof was authorized by the named controller
      over bytes that determine it, in disjoint signing domains. The guest
      fault log never overflows its buffer.

    - Clients. [Protocol.client_guest_agree_v1] and
      [Protocol.client_guest_agree_v2]: what the client library signs, encodes
      and verifies is what the guest decodes and verifies.
      [InMemory.memory_batch_exact] and [InMemory.control_claims_history]: the
      in-memory runtime runs batches one action at a time, and a controller is
      active exactly when the history of calls says so.
    - Memory. [Allocator.guest_heap_within_budget]: the heap never leaves its
      budget and blocks never overlap; [CAlloc.c_heap_refines]: the C functions
      are a map from addresses to contents; [Allocator.allocation_loop_ends] and
      [Allocator.null_means_fault]: allocation answers, and no null is silent.

    ** Parameters and hypotheses

    Code outside the repository is a class whose instances the theorems
    quantify over: [Blake2] (with [Blake2Len]: 32-byte digests), [Trie] with
    [TrieLaws] (opening, lookups, updates and proofs of [sp_trie]; inhabited by
    [ModelTrie]), [Schnorrkel], [Ed25519Dalek], [K256], [Sha3], [UrlBase64],
    [Base64] with [Base64Laws] (the alphabet and injectivity). [RawJamStorage]
    is the trait a network implements, with [RawJamStorageLaws] inhabited by a
    map. [RocksDb] with [RocksDbLaws] (atomic batches, which may fail and then
    leave the contents as they were, and ordered iteration) and [SerdeJson] with [SerdeJsonLaws] (what is written is
    read back) stand for the database and its records, both inhabited in
    [Database]; [Json] with [JsonLaws] stands for [serde_json::Value], inhabited
    in [JsonValue]. The backend's world is [BackendNetwork] with [NetworkTyped]
    (hashes have 32 bytes) and [ChainFacts] (a block does not change: two
    questions about one context have one answer), [ArtifactStore], [Polkavm]
    (the virtual machine), [PayloadBase64] and [ErrorText]; the gateway's is
    [JsonRpcTransport], [ScaleBytes] and [JamServiceInfo]. [BuddyHeap] with
    [BuddyHeapLaws] is the buddy allocator (it hands out free aligned ranges of
    what it was given and writes only to memory it has not handed out; the C
    functions also need blocks of 32-bit sizes, [SmallBlocks], which the guest's
    allocator is shown to give) and
    [GuestPlatform] the base and the break of the heap, both inhabited in
    [Allocator]; [SchnorrkelLengths] says that keys and signatures that parse
    have 32 and 64 bytes. The deployment library and the server run on [Urls]
    (the URL parser), [Files] and [Disk] (the file system; [DiskLaws] says what
    each operation does to the files, also when it fails), [Curl] (a run of the
    process), [Sha256], [JsonTexts], [DeploymentTexts], [RecordTexts] (with
    [RecordTextsLaws]) and [RpcRequests] (texts of JSON), [Stamps] (the clock) and
    [ArtifactRoot]; those with laws are inhabited in [DiskCorrect], all that the
    witnesses need in [DeploymentToy]. [TrieLaws] treats the
    root of a trie as determining its map; apart from that no collision
    resistance or unforgeability is assumed: theorems speak of the bytes that
    are hashed and of what the verifiers answered, and where the coordinator
    names a transaction by a hash, a call is possible only when that name is
    new.

    ** Concurrency

    A request, a turn of the dispatcher and the network calls they make take
    the locks of the backend for one section at a time. [Dispatcher.world] holds
    what the locks guard, the readings of the clock and a schedule of the other
    threads' sections; [Dispatcher.yield], before every section, runs some of
    them. A theorem over every schedule is one over every interleaving. What
    other threads do is not fixed: they may change the state under the lock in
    any way ([submitted_at_most_once]) or within a relation they keep to
    ([friendly]), which the requests and the dispatcher are shown to keep to
    themselves. What the network answered to submissions and to questions about
    work, and what could be seen of the coordinator and of the backend's state, is
    kept for the theorems; nothing reads it. The backend is the one the daemon builds: with a database and a loader
    of programs, without a registry file or a registration validator; a
    poisoned lock is not an outcome.

    ** Termination

    Loops of the source are structural here: over the list, the type or the
    count they iterate. Some carry a bound of their own. Replaying a log runs
    with its length as fuel, and every frame takes bytes; the selection loop
    runs with one pass more than there are actions, and every pass but the last
    decides one ([Selection.select_loop_spec]); the allocation loop runs with
    three rounds more than there are pages left in the budget
    ([Allocator.allocation_loop_ends]); planning has the source's own
    limit of rounds, and [WorkBuilder.planning_finishes] shows when it is
    enough. The binary search runs
    with the length of the slice as fuel, more than its halving steps
    ([StateView.state_view_lookup] shows that it finds every entry); the decimal
    writer of the fault log has the ten digits of the source's array, and ten
    are enough for a [u32] ([GuestMemory.fault_log_faithful]).

    ** Not modelled

    Process and file I/O of the command line, the toolchain, the builders and the
    tools; of the backend the start of the daemon (arguments, listening socket,
    spawned threads, the limit of open connections); what [curl] sends and how a
    socket delivers bytes, beyond the results of runs and reads;
    the TypeScript parser and the text generators; the JSON forms that [serde]
    derives; cryptography, the
    trie, the database and the virtual machine themselves; [memcpy] and its
    like and the panic handler of the guest (a compiled script and the host
    functions are parameters, a trap is not an outcome). *)

From Stdlib Require Export ZArith Lia Strings.Byte.
From Stdlib Require String.
From stdpp Require Export base list gmap strings sorting.

Open Scope Z_scope.
#[export] Set Default Goal Selector "!".

(** ** Results: Rust's [Result<T, E>] and the [?] operator *)

Inductive result (T E : Type) : Type :=
| Ok (value : T)
| Err (error : E).
Arguments Ok {T E} value.
Arguments Err {T E} error.

#[global] Instance result_eq_dec `{EqDecision T, EqDecision E} : EqDecision (result T E).
Proof. solve_decision. Defined.

Definition rbind {A B E} (m : result A E) (k : A -> result B E) : result B E :=
  match m with
  | Ok a => k a
  | Err e => Err e
  end.

(** [map_err]: Rust's [Result::map_err]. *)
Definition map_err {A E F} (f : E -> F) (m : result A E) : result A F :=
  match m with
  | Ok a => Ok a
  | Err e => Err (f e)
  end.

(** [ok_or]: Rust's [Option::ok_or]. *)
Definition ok_or {A E} (o : option A) (e : E) : result A E :=
  match o with
  | Some a => Ok a
  | None => Err e
  end.

Definition is_ok {A E} (m : result A E) : bool :=
  match m with
  | Ok _ => true
  | Err _ => false
  end.

Declare Scope rust_scope.
Delimit Scope rust_scope with rust.
Notation "'let?' x ':=' m 'in' k" := (rbind m (fun x => k))
  (at level 10, x name, m at level 99, k at level 200,
   format "'[v' 'let?'  x  ':='  m  'in'  '/' k ']'") : rust_scope.
Notation "'let?' ' p ':=' m 'in' k" := (rbind m (fun x => match x with p => k end))
  (at level 10, p pattern, m at level 99, k at level 200) : rust_scope.
(** An early return: [if c { return Err(e) }] followed by the rest [k]. *)
Notation "'bail_if' c 'with' e ';;' k" := (if c then Err e else k)
  (at level 10, c at level 99, e at level 99, k at level 200,
   format "'[v' 'bail_if'  c  'with'  e  ';;'  '/' k ']'") : rust_scope.
Open Scope rust_scope.

Section ResultLemmas.
Context {A B E : Type}.
Implicit Types (m : result A E) (k : A -> result B E).

Lemma rbind_Ok m k (v : B) :
  rbind m k = Ok v <-> exists a, m = Ok a /\ k a = Ok v.
Proof. destruct m; simpl; naive_solver. Qed.

Lemma rbind_Err m k (e : E) :
  rbind m k = Err e <-> m = Err e \/ exists a, m = Ok a /\ k a = Err e.
Proof. destruct m; simpl; naive_solver. Qed.

Lemma ok_or_Ok (o : option A) (e : E) v : ok_or o e = Ok v <-> o = Some v.
Proof. destruct o; simpl; naive_solver. Qed.

Lemma ok_or_Err (o : option A) (e e' : E) : ok_or o e = Err e' <-> o = None /\ e = e'.
Proof. destruct o; simpl; naive_solver. Qed.

Lemma map_err_Ok {F} (f : E -> F) m v : map_err f m = Ok v <-> m = Ok v.
Proof. destruct m; simpl; naive_solver. Qed.

Lemma bail_if_Ok (c : bool) (e : E) (r : result A E) v :
  (bail_if c with e ;; r) = Ok v <-> c = false /\ r = Ok v.
Proof. destruct c; naive_solver. Qed.
End ResultLemmas.

(** A fallible loop [for x in l { s = f(s, x)?; }]. *)
Fixpoint rfold {S A E} (f : S -> A -> result S E) (s : S) (l : list A) : result S E :=
  match l with
  | [] => Ok s
  | x :: l' => let? s' := f s x in rfold f s' l'
  end.

(** A fallible map, [l.iter().map(f).collect::<Result<Vec<_>, _>>()]. *)
Fixpoint rmap {A B E} (f : A -> result B E) (l : list A) : result (list B) E :=
  match l with
  | [] => Ok []
  | x :: l' => let? y := f x in let? ys := rmap f l' in Ok (y :: ys)
  end.

(** Case analysis on a hypothesis that says a computation succeeded. *)
Ltac result_inv1 :=
  match goal with
  | H : rbind _ _ = Ok _ |- _ => apply rbind_Ok in H as (? & ? & ?)
  | H : ok_or _ _ = Ok _ |- _ => apply ok_or_Ok in H
  | H : map_err _ _ = Ok _ |- _ => apply map_err_Ok in H
  | H : (if ?c then Err _ else _) = Ok _ |- _ =>
      let C := fresh "Hguard" in destruct c eqn:C; [discriminate H|]
  | H : Ok _ = Ok _ |- _ => injection H as H
  | H : Err _ = Ok _ |- _ => discriminate H
  | H : Ok _ = Err _ |- _ => discriminate H
  | p : (_ * _)%type |- _ => destruct p
  | u : unit |- _ => destruct u
  end; simpl in *; simplify_eq.
Ltac result_inv := repeat result_inv1.

(** Boolean guards to propositions and back. *)
Create HintDb guards.
Ltac to_prop :=
  repeat match goal with
  | H : (_ || _) = true |- _ => apply orb_true_iff in H
  | H : (_ || _) = false |- _ => apply orb_false_iff in H as [? ?]
  | H : (_ && _) = true |- _ => apply andb_true_iff in H as [? ?]
  | H : (_ && _) = false |- _ => apply andb_false_iff in H
  | H : negb _ = true |- _ => apply negb_true_iff in H
  | H : negb _ = false |- _ => apply negb_false_iff in H
  | H : (_ <? _) = true |- _ => apply Z.ltb_lt in H
  | H : (_ <? _) = false |- _ => apply Z.ltb_ge in H
  | H : (_ <=? _) = true |- _ => apply Z.leb_le in H
  | H : (_ <=? _) = false |- _ => apply Z.leb_gt in H
  | H : (_ >? _) = true |- _ => rewrite Z.gtb_ltb in H
  | H : (_ >? _) = false |- _ => rewrite Z.gtb_ltb in H
  | H : (_ =? _) = true |- _ => apply Z.eqb_eq in H
  | H : (_ =? _) = false |- _ => apply Z.eqb_neq in H
  | H : bool_decide _ = true |- _ => apply bool_decide_eq_true in H
  | H : bool_decide _ = false |- _ => apply bool_decide_eq_false in H
  end.

Section Loops.
Context {S A B E : Type}.

Lemma rfold_app (f : S -> A -> result S E) s l1 l2 :
  rfold f s (l1 ++ l2) = let? s' := rfold f s l1 in rfold f s' l2.
Proof.
  revert s; induction l1 as [|x l1 IH]; intros s; simpl; [done|].
  destruct (f s x); simpl; auto.
Qed.

(** A property kept by every successful iteration holds at the end. *)
Lemma rfold_invariant (f : S -> A -> result S E) (I : S -> Prop) :
  (forall s x s', I s -> f s x = Ok s' -> I s') ->
  forall l s s', I s -> rfold f s l = Ok s' -> I s'.
Proof.
  intros Hstep l; induction l as [|x l IH]; intros s s' Hs Hr; simpl in Hr; result_inv; [done|].
  eauto.
Qed.

Lemma rmap_Ok (f : A -> result B E) l ys :
  rmap f l = Ok ys <-> Forall2 (fun x y => f x = Ok y) l ys.
Proof.
  revert ys; induction l as [|x l IH]; intros ys; simpl.
  - split; [intros [= <-]; constructor | by inversion 1].
  - split.
    + intros H. result_inv. constructor; [done|]. by apply IH.
    + inversion 1 as [|? y ? ys' Hxy Hl]; simplify_eq. rewrite Hxy. simpl.
      apply IH in Hl. by rewrite Hl.
Qed.

Lemma rmap_length (f : A -> result B E) l ys : rmap f l = Ok ys -> length ys = length l.
Proof. intros H%rmap_Ok%Forall2_length. done. Qed.
End Loops.

(** ** Bytes and machine integers

    A [u8] is a [byte]; [u16], [u32], [u64] and [usize] are [Z] values kept in
    their range by the operations below.  Every target of the workspace is a
    64-bit one (the guest is riscv64, the hosts are x86_64 and arm64). *)

Notation bytes := (list byte).

Definition U8_MAX : Z := 255.
Definition U16_MAX : Z := 65535.
Definition U32_MAX : Z := 4294967295.
Definition U64_MAX : Z := 18446744073709551615.
Definition USIZE_MAX : Z := U64_MAX.
(** The language bounds every slice and [Vec] of bytes by [isize::MAX]. *)
Definition ISIZE_MAX : Z := 9223372036854775807.

Definition u8_ok (z : Z) : Prop := 0 <= z <= U8_MAX.
Definition u16_ok (z : Z) : Prop := 0 <= z <= U16_MAX.
Definition u32_ok (z : Z) : Prop := 0 <= z <= U32_MAX.
Definition u64_ok (z : Z) : Prop := 0 <= z <= U64_MAX.

Definition try_from_max (max z : Z) : option Z := if z <=? max then Some z else None.
Definition u16_try_from : Z -> option Z := try_from_max U16_MAX.
Definition u32_try_from : Z -> option Z := try_from_max U32_MAX.
Definition checked_add (max a b : Z) : option Z := if a + b <=? max then Some (a + b) else None.
Definition checked_sub (a b : Z) : option Z := if b <=? a then Some (a - b) else None.
Definition checked_mul (max a b : Z) : option Z := if a * b <=? max then Some (a * b) else None.
Definition saturating_add (max a b : Z) : Z := Z.min max (a + b).
Definition saturating_sub (a b : Z) : Z := Z.max 0 (a - b).

(** [len()] of a byte slice, as a [usize]. *)
Definition blen {A} (l : list A) : Z := Z.of_nat (length l).

Definition slice_ok (b : bytes) : Prop := blen b <= ISIZE_MAX.

Definition b2z (b : byte) : Z := Z.of_N (Byte.to_N b).
Definition z2b (z : Z) : byte :=
  match Byte.of_N (Z.to_N (z mod 256)) with
  | Some b => b
  | None => x00
  end.

(** [b"..."]: the bytes of an ASCII literal. *)
Definition bstr (s : String.string) : bytes := String.list_byte_of_string s.

#[global] Instance byte_eq_dec : EqDecision byte.
Proof. intros a b. destruct (Byte.byte_eq_dec a b); [left | right]; done. Defined.

#[global] Program Instance byte_countable : Countable byte :=
  inj_countable Byte.to_N Byte.of_N _.
Next Obligation. intros b. apply Byte.of_to_N. Qed.

Lemma b2z_range b : 0 <= b2z b < 256.
Proof.
  unfold b2z. pose proof (Byte.to_N_bounded b). lia.
Qed.

Lemma b2z_inj b c : b2z b = b2z c -> b = c.
Proof.
  unfold b2z. intros H%N2Z.inj.
  pose proof (Byte.of_to_N b) as Hb. rewrite H, Byte.of_to_N in Hb. by injection Hb.
Qed.

Lemma b2z_z2b z : b2z (z2b z) = z mod 256.
Proof.
  unfold b2z, z2b. pose proof (Z.mod_pos_bound z 256 ltac:(lia)) as Hr.
  destruct (Byte.of_N (Z.to_N (z mod 256))) as [b|] eqn:Hb.
  - apply Byte.to_of_N in Hb. rewrite Hb. lia.
  - apply Byte.of_N_None_iff in Hb. lia.
Qed.

Lemma z2b_b2z b : z2b (b2z b) = b.
Proof. apply b2z_inj. rewrite b2z_z2b, Z.mod_small; [done|]. apply b2z_range. Qed.

Lemma b2z_eqb b c : (b2z b =? b2z c) = bool_decide (b = c).
Proof.
  destruct (bool_decide_reflect (b = c)) as [->|Hne]; [by rewrite Z.eqb_refl|].
  apply Z.eqb_neq. intros H. by apply Hne, b2z_inj.
Qed.

(** *** Little-endian encodings: [to_le_bytes] and [from_le_bytes] *)

Fixpoint to_le_bytes (n : nat) (z : Z) : bytes :=
  match n with
  | O => []
  | S n' => z2b z :: to_le_bytes n' (z / 256)
  end.

Fixpoint from_le_bytes (bs : bytes) : Z :=
  match bs with
  | [] => 0
  | b :: bs' => b2z b + 256 * from_le_bytes bs'
  end.

Lemma to_le_bytes_length n z : length (to_le_bytes n z) = n.
Proof. revert z; induction n; intros z; simpl; auto. Qed.

Lemma blen_to_le_bytes n z : blen (to_le_bytes n z) = Z.of_nat n.
Proof. unfold blen. by rewrite to_le_bytes_length. Qed.

Lemma from_le_bytes_range bs : 0 <= from_le_bytes bs < 256 ^ blen bs.
Proof.
  unfold blen. induction bs as [|b bs IH]; [simpl; lia|].
  cbn [from_le_bytes length]. rewrite Nat2Z.inj_succ, Z.pow_succ_r by lia.
  pose proof (b2z_range b). lia.
Qed.

Lemma from_to_le_bytes n z : from_le_bytes (to_le_bytes n z) = z mod 256 ^ Z.of_nat n.
Proof.
  revert z; induction n as [|n IH]; intros z; [simpl; by rewrite Z.mod_1_r|].
  cbn [from_le_bytes to_le_bytes]. rewrite IH, b2z_z2b, Nat2Z.inj_succ, Z.pow_succ_r by lia.
  by rewrite Z.rem_mul_r by lia.
Qed.

Lemma to_from_le_bytes bs : to_le_bytes (length bs) (from_le_bytes bs) = bs.
Proof.
  induction bs as [|b bs IH]; [done|].
  cbn [from_le_bytes to_le_bytes length]. pose proof (b2z_range b). f_equal.
  - apply b2z_inj. rewrite b2z_z2b. rewrite Z.mul_comm, Z.mod_add by lia.
    by rewrite Z.mod_small.
  - rewrite Z.mul_comm, Z.div_add, Z.div_small by lia. by rewrite Z.add_0_l.
Qed.

Lemma from_to_le_bytes_small n z :
  0 <= z < 256 ^ Z.of_nat n -> from_le_bytes (to_le_bytes n z) = z.
Proof. intros H. by rewrite from_to_le_bytes, Z.mod_small. Qed.

Lemma from_to_u32 z : u32_ok z -> from_le_bytes (to_le_bytes 4 z) = z.
Proof. intros H. apply from_to_le_bytes_small. unfold u32_ok, U32_MAX in H. simpl. lia. Qed.

Lemma from_to_u64 z : u64_ok z -> from_le_bytes (to_le_bytes 8 z) = z.
Proof. intros H. apply from_to_le_bytes_small. unfold u64_ok, U64_MAX in H. simpl. lia. Qed.

Lemma from_to_u16 z : u16_ok z -> from_le_bytes (to_le_bytes 2 z) = z.
Proof. intros H. apply from_to_le_bytes_small. unfold u16_ok, U16_MAX in H. simpl. lia. Qed.

Lemma from_le_bytes_max bs (n : Z) : blen bs = n -> from_le_bytes bs <= 256 ^ n - 1.
Proof. intros <-. pose proof (from_le_bytes_range bs). lia. Qed.

Lemma blen_nil {A} : blen (@nil A) = 0.
Proof. done. Qed.
Lemma blen_cons {A} (x : A) l : blen (x :: l) = 1 + blen l.
Proof. unfold blen. simpl. lia. Qed.
Lemma blen_app {A} (l k : list A) : blen (l ++ k) = blen l + blen k.
Proof. unfold blen. rewrite length_app. lia. Qed.
Lemma blen_nonneg {A} (l : list A) : 0 <= blen l.
Proof. unfold blen. lia. Qed.
Lemma blen_map {A B} (f : A -> B) (l : list A) : blen (map f l) = blen l.
Proof. unfold blen. by rewrite length_map. Qed.

Arguments to_le_bytes : simpl never.
Arguments from_le_bytes : simpl never.
Arguments blen : simpl never.
Arguments b2z : simpl never.
Arguments z2b : simpl never.
#[global] Opaque to_le_bytes from_le_bytes.

Create HintDb blen.
#[export] Hint Rewrite @blen_nil @blen_cons @blen_app blen_to_le_bytes @blen_map : blen.
(** Arithmetic on lengths: push [blen] to the leaves, then [lia]. *)
Ltac blia :=
  repeat match goal with
  | l : list _ |- _ =>
      lazymatch goal with
      | _ : 0 <= blen l |- _ => fail
      | _ => pose proof (blen_nonneg l)
      end
  end;
  autorewrite with blen in *; lia.

(** *** Indexing: [b[i]] and [b[lo..hi]]

    Both panic out of range in Rust; every use in the sources is guarded by a
    length test, so the default of [b_at] and the truncation of [b_slice] are
    never observed. *)

Definition b_at (b : bytes) (i : Z) : byte := nth (Z.to_nat i) b x00.
Definition b_slice (b : bytes) (lo hi : Z) : bytes :=
  take (Z.to_nat (hi - lo)) (drop (Z.to_nat lo) b).
Definition b_from (b : bytes) (lo : Z) : bytes := drop (Z.to_nat lo) b.

Lemma chop {A} (n : Z) (b : list A) :
  0 <= n <= blen b -> exists x y, b = x ++ y /\ blen x = n.
Proof.
  intros Hn. exists (take (Z.to_nat n) b), (drop (Z.to_nat n) b).
  rewrite take_drop. split; [done|]. unfold blen in *. rewrite length_take. lia.
Qed.

Lemma blen_0_inv {A} (b : list A) : blen b = 0 -> b = [].
Proof. destruct b; [done|]. rewrite blen_cons. blia. Qed.

Lemma blen_1_inv {A} (b : list A) : blen b = 1 -> exists x, b = [x].
Proof. destruct b as [|x [|y b]]; [done|eauto|]. rewrite !blen_cons. blia. Qed.

Lemma b_from_app x y lo : lo = blen x -> b_from (x ++ y) lo = y.
Proof. intros ->. unfold b_from, blen. by rewrite Nat2Z.id, drop_app_length. Qed.

Lemma b_from_skip x y lo : blen x <= lo -> b_from (x ++ y) lo = b_from y (lo - blen x).
Proof.
  intros H. unfold b_from, blen in *.
  replace (Z.to_nat lo) with (length x + Z.to_nat (lo - Z.of_nat (length x)))%nat by lia.
  by rewrite drop_app_add.
Qed.

Lemma b_slice_skip x y lo hi :
  blen x <= lo -> b_slice (x ++ y) lo hi = b_slice y (lo - blen x) (hi - blen x).
Proof.
  intros H. unfold b_slice. pose proof (b_from_skip x y lo H) as Hd. unfold b_from in Hd.
  rewrite Hd. f_equal. lia.
Qed.

Lemma b_slice_take x y lo hi : lo = 0 -> hi = blen x -> b_slice (x ++ y) lo hi = x.
Proof.
  intros -> ->. unfold b_slice, blen. rewrite Z.sub_0_r, Nat2Z.id.
  change (Z.to_nat 0) with 0%nat. by rewrite drop_0, take_app_length.
Qed.

Lemma b_slice_all x lo hi : lo = 0 -> hi = blen x -> b_slice x lo hi = x.
Proof. intros. rewrite <- (app_nil_r x) at 1. by apply b_slice_take. Qed.

(** Read the slices of a concatenation of fields of known lengths. *)
Ltac slice1 :=
  match goal with
  | |- context [b_slice (?x ++ ?y) ?lo ?hi] =>
      first [ rewrite (b_slice_take x y lo hi) by blia
            | rewrite (b_slice_skip x y lo hi) by blia ]
  | |- context [b_slice ?x ?lo ?hi] => rewrite (b_slice_all x lo hi) by blia
  | |- context [b_from (?x ++ ?y) ?lo] =>
      first [ rewrite (b_from_app x y lo) by blia | rewrite (b_from_skip x y lo) by blia ]
  end.
Ltac slices := repeat slice1.

(** ** Loops that only check: [for x in l { check(x)?; }] *)

Definition rfor {A E} (c : A -> result unit E) (l : list A) : result unit E :=
  rfold (fun _ x => c x) tt l.

Lemma rfor_Ok {A E} (c : A -> result unit E) l :
  rfor c l = Ok tt <-> Forall (fun x => c x = Ok tt) l.
Proof.
  unfold rfor. induction l as [|x l IH]; simpl.
  - split; [constructor|done].
  - rewrite Forall_cons, <- IH. destruct (c x) as [[]|]; simpl; naive_solver.
Qed.

(** A loop that appends to a buffer: [for x in l { buf = f(buf, x)?; }]. *)
Lemma rfold_append {S A E} (buf : S -> bytes) (f : S -> A -> result S E) (fmt : A -> bytes)
    (P : A -> Prop) :
  (forall s x s', f s x = Ok s' <-> P x /\ buf s' = buf s ++ fmt x) ->
  forall l s s', rfold f s l = Ok s' -> Forall P l /\ buf s' = buf s ++ concat (map fmt l).
Proof.
  intros Hf l. induction l as [|x l IH]; intros s s' H; simpl in *; result_inv.
  - by rewrite app_nil_r.
  - match goal with H : f _ _ = Ok _ |- _ => apply Hf in H as [Hx Hb] end.
    match goal with H : rfold _ _ _ = Ok _ |- _ => apply IH in H as [Hl ->] end.
    rewrite Hb, <- (assoc_L (++)). by auto.
Qed.

Lemma rfold_total {S A E} (f : S -> A -> result S E) (P : A -> Prop) :
  (forall s x, P x -> exists s', f s x = Ok s') ->
  forall l s, Forall P l -> exists s', rfold f s l = Ok s'.
Proof.
  intros Hf l. induction l as [|x l IH]; intros s Hl; simpl; [eauto|].
  apply Forall_cons in Hl as [Hx Hl]. destruct (Hf s x Hx) as [s' ->]. simpl. auto.
Qed.

Lemma concat_map_Forall2 {A} (enc : A -> bytes) (xs : list bytes) (vs : list A) (P : A -> Prop) :
  Forall2 (fun x v => x = enc v /\ P v) xs vs -> concat xs = concat (map enc vs) /\ Forall P vs.
Proof.
  induction 1 as [|x v xs vs [-> Hv] H [IH1 IH2]]; simpl; [done|]. rewrite IH1. auto.
Qed.
