(* ===== verification/Ordering.v ===== *)
(** * Ordered keys

    The parts of Rust's standard library the canonical formats rely on: the
    lexicographic order of byte strings, the stable [sort_by_key], [dedup],
    the [windows(2)] scans and [binary_search_by].  Each is written as an
    executable function and proved against the property the callers use. *)

From S2P Require Import Prelude.

(** ** Total orders with a [cmp] function (Rust's [Ord]) *)

Class TotalCmp (K : Type) := cmp : K -> K -> comparison.
Class TotalCmpLaws (K : Type) `{TotalCmp K} : Prop := {
  cmp_eq : forall a b, cmp a b = Eq <-> a = b;
  cmp_antisym : forall a b, cmp b a = CompOpp (cmp a b);
  cmp_lt_trans : forall a b c, cmp a b = Lt -> cmp b c = Lt -> cmp a c = Lt
}.

#[export] Instance Z_cmp : TotalCmp Z := Z.compare.
#[export] Instance Z_cmp_laws : TotalCmpLaws Z.
Proof.
  split; unfold cmp, Z_cmp.
  - apply Z.compare_eq_iff.
  - intros a b. apply Z.compare_antisym.
  - intros a b c. rewrite !Z.compare_lt_iff. lia.
Qed.

Fixpoint bytes_cmp (a b : bytes) : comparison :=
  match a, b with
  | [], [] => Eq
  | [], _ :: _ => Lt
  | _ :: _, [] => Gt
  | x :: a', y :: b' =>
      match Z.compare (b2z x) (b2z y) with
      | Eq => bytes_cmp a' b'
      | c => c
      end
  end.

#[export] Instance bytes_total_cmp : TotalCmp bytes := bytes_cmp.
#[export] Instance bytes_cmp_laws : TotalCmpLaws bytes.
Proof.
  split; unfold cmp, bytes_total_cmp.
  - induction a as [|x a IH]; intros [|y b]; simpl; try done.
    destruct (Z.compare_spec (b2z x) (b2z y)) as [He|Hlt|Hgt].
    + apply b2z_inj in He as ->. rewrite IH. naive_solver.
    + split; [done|]. intros [= -> _]. lia.
    + split; [done|]. intros [= -> _]. lia.
  - induction a as [|x a IH]; intros [|y b]; simpl; try done.
    rewrite (Z.compare_antisym (b2z x) (b2z y)).
    destruct (Z.compare (b2z x) (b2z y)); simpl; auto.
  - induction a as [|x a IH]; intros [|y b] [|z c]; simpl; try done.
    destruct (Z.compare_spec (b2z x) (b2z y)), (Z.compare_spec (b2z y) (b2z z)),
      (Z.compare_spec (b2z x) (b2z z)); try done; try lia; eauto.
Qed.

Section Order.
Context {K : Type} `{Kcmp : TotalCmp K} `{Klaws : !TotalCmpLaws K}.

Definition klt (a b : K) : Prop := cmp a b = Lt.
Definition kle (a b : K) : Prop := cmp a b <> Gt.
Definition kleb (a b : K) : bool := match cmp a b with Gt => false | _ => true end.
Definition keqb (a b : K) : bool := match cmp a b with Eq => true | _ => false end.
Definition kgtb (a b : K) : bool := match cmp a b with Gt => true | _ => false end.

Lemma cmp_refl a : cmp a a = Eq.
Proof. by apply cmp_eq. Qed.

Lemma keqb_spec a b : keqb a b = true <-> a = b.
Proof. unfold keqb. rewrite <- cmp_eq. destruct (cmp a b); naive_solver. Qed.

Lemma klt_irrefl a : ~ klt a a.
Proof. unfold klt. by rewrite cmp_refl. Qed.

Lemma klt_trans a b c : klt a b -> klt b c -> klt a c.
Proof. apply cmp_lt_trans. Qed.

Lemma kgt_lt a b : cmp a b = Gt <-> klt b a.
Proof. unfold klt. rewrite (cmp_antisym a b). destruct (cmp a b); naive_solver. Qed.

Lemma kle_lt_eq a b : kle a b <-> klt a b \/ a = b.
Proof. unfold kle, klt. rewrite <- cmp_eq. destruct (cmp a b); naive_solver. Qed.

Lemma kle_trans a b c : kle a b -> kle b c -> kle a c.
Proof.
  rewrite !kle_lt_eq. intros [H1|<-] [H2|<-]; auto. left. by eapply klt_trans.
Qed.

Lemma kleb_spec a b : kleb a b = true <-> kle a b.
Proof. unfold kleb, kle. destruct (cmp a b); naive_solver. Qed.

Lemma kleb_false a b : kleb a b = false <-> klt b a.
Proof. rewrite <- kgt_lt. unfold kleb. destruct (cmp a b); naive_solver. Qed.
End Order.

(** On integers the generic orders are the usual ones. *)
Lemma klt_Z (a b : Z) : klt a b <-> a < b.
Proof. apply Z.compare_lt_iff. Qed.
Lemma kle_Z (a b : Z) : kle a b <-> a <= b.
Proof. apply Z.compare_le_iff. Qed.

(** ** [sort_by_key]: a stable sort *)

Section Sort.
Context {A K : Type} `{Kcmp : TotalCmp K} `{Klaws : !TotalCmpLaws K} (key : A -> K).

Fixpoint insert_by_key (x : A) (l : list A) : list A :=
  match l with
  | [] => [x]
  | y :: l' => if kleb (key x) (key y) then x :: l else y :: insert_by_key x l'
  end.

Fixpoint sort_by_key (l : list A) : list A :=
  match l with
  | [] => []
  | x :: l' => insert_by_key x (sort_by_key l')
  end.

Definition key_sorted (l : list A) : Prop := StronglySorted (fun x y => kle (key x) (key y)) l.
Definition key_ssorted (l : list A) : Prop := StronglySorted (fun x y => klt (key x) (key y)) l.

Lemma insert_by_key_perm x l : insert_by_key x l ≡ₚ x :: l.
Proof.
  induction l as [|y l IH]; simpl; [done|].
  destruct (kleb (key x) (key y)); [done|]. rewrite IH. by constructor.
Qed.

Lemma sort_by_key_perm l : sort_by_key l ≡ₚ l.
Proof. induction l as [|x l IH]; simpl; [done|]. by rewrite insert_by_key_perm, IH. Qed.

Lemma insert_by_key_sorted x l : key_sorted l -> key_sorted (insert_by_key x l).
Proof.
  unfold key_sorted. induction 1 as [|y l Hl IH Hy]; simpl; [by repeat constructor|].
  destruct (kleb (key x) (key y)) eqn:Hxy.
  - apply kleb_spec in Hxy. constructor; [by constructor|]. constructor; [done|].
    eapply Forall_impl; [exact Hy|]. intros z Hz. by eapply kle_trans.
  - apply kleb_false in Hxy. constructor; [done|].
    rewrite insert_by_key_perm. constructor; [|done]. apply kle_lt_eq. by left.
Qed.

Lemma sort_by_key_sorted l : key_sorted (sort_by_key l).
Proof. induction l; simpl; [constructor|]. by apply insert_by_key_sorted. Qed.

Lemma insert_by_key_head x l :
  Forall (fun y => kle (key x) (key y)) l -> insert_by_key x l = x :: l.
Proof.
  destruct 1 as [|y l Hy Hl]; simpl; [done|]. apply kleb_spec in Hy. by rewrite Hy.
Qed.

Lemma sort_by_key_id l : key_sorted l -> sort_by_key l = l.
Proof.
  induction 1 as [|x l Hl IH Hx]; simpl; [done|]. rewrite IH. by apply insert_by_key_head.
Qed.

Lemma key_ssorted_sorted l : key_ssorted l -> key_sorted l.
Proof.
  induction 1 as [|x l Hl IH Hx]; constructor; [done|].
  eapply Forall_impl; [exact Hx|]. intros y Hy. apply kle_lt_eq. by left.
Qed.

Lemma key_sorted_nodup l : key_sorted l -> NoDup (map key l) -> key_ssorted l.
Proof.
  induction 1 as [|x l Hl IH Hx]; simpl; [constructor|].
  rewrite NoDup_cons. intros [Hni Hnd]. constructor; [by apply IH|].
  rewrite Forall_forall in Hx |- *. intros y Hy.
  destruct (proj1 (kle_lt_eq _ _) (Hx y Hy)) as [?|Heq]; [done|].
  destruct Hni. rewrite Heq. by apply list_elem_of_fmap_2.
Qed.

Lemma key_ssorted_nodup l : key_ssorted l -> NoDup (map key l).
Proof.
  induction 1 as [|x l Hl IH Hx]; simpl; constructor; [|done].
  intros (y & Heq & Hy)%list_elem_of_fmap_1. rewrite Forall_forall in Hx.
  specialize (Hx y Hy). rewrite Heq in Hx. by apply klt_irrefl in Hx.
Qed.

(** Two strictly sorted lists with the same elements are equal. *)
Lemma key_ssorted_perm_eq l k : key_ssorted l -> key_ssorted k -> l ≡ₚ k -> l = k.
Proof.
  intros Hl. revert k. induction Hl as [|x l Hl IH Hx]; intros k Hk Hp.
  - by apply Permutation_nil_l in Hp.
  - destruct k as [|y k]; [by apply Permutation_nil_r in Hp|].
    apply StronglySorted_inv in Hk as [Hk Hy].
    assert (x = y) as ->; [|f_equal; apply IH; [done|by eapply Permutation_cons_inv]].
    assert (x ∈ y :: k) as Hxin by (rewrite <- Hp; left).
    assert (y ∈ x :: l) as Hyin by (rewrite Hp; left).
    apply elem_of_cons in Hxin as [->|Hxin]; [done|].
    apply elem_of_cons in Hyin as [->|Hyin]; [done|].
    rewrite Forall_forall in Hx, Hy.
    exfalso. eapply klt_irrefl, klt_trans; [by apply Hx|by apply Hy].
Qed.

Lemma sort_by_key_ssorted l : NoDup (map key l) -> key_ssorted (sort_by_key l).
Proof.
  intros Hnd. apply key_sorted_nodup; [apply sort_by_key_sorted|].
  by rewrite sort_by_key_perm.
Qed.

Lemma blen_sort_by_key l : blen (sort_by_key l) = blen l.
Proof. unfold blen. by rewrite (Permutation_length (sort_by_key_perm l)). Qed.

Lemma Forall_sort_by_key (P : A -> Prop) l : Forall P (sort_by_key l) <-> Forall P l.
Proof. by rewrite sort_by_key_perm. Qed.

(** Stability: the elements of one key keep their relative order. *)
Lemma insert_by_key_filter k x l :
  List.filter (fun y => keqb (key y) k) (insert_by_key x l)
  = List.filter (fun y => keqb (key y) k) (x :: l).
Proof.
  induction l as [|y l IH]; [done|].
  cbn [insert_by_key]. destruct (kleb (key x) (key y)) eqn:Hxy; [done|].
  apply kleb_false in Hxy. cbn [List.filter] in *. rewrite IH.
  destruct (keqb (key x) k) eqn:Hx, (keqb (key y) k) eqn:Hy; try done.
  apply keqb_spec in Hx, Hy. subst. rewrite Hy in Hxy. by apply klt_irrefl in Hxy.
Qed.

Lemma sort_by_key_stable k l :
  List.filter (fun y => keqb (key y) k) (sort_by_key l)
  = List.filter (fun y => keqb (key y) k) l.
Proof.
  induction l as [|x l IH]; [done|]. cbn [sort_by_key].
  rewrite insert_by_key_filter. cbn [List.filter]. by rewrite IH.
Qed.

(** ** [for pair in l.windows(2) { .. }]

    The scan the canonical formats share: an equal pair is [dup], an
    inverted pair is [unsorted]. *)
Fixpoint check_windows {E} (dup unsorted : E) (l : list A) : result unit E :=
  match l with
  | [] => Ok tt
  | x :: l' =>
      match l' with
      | [] => Ok tt
      | y :: _ =>
          bail_if keqb (key x) (key y) with dup ;;
          bail_if kgtb (key x) (key y) with unsorted ;;
          check_windows dup unsorted l'
      end
  end.

Lemma check_windows_Ok {E} (dup unsorted : E) l :
  check_windows dup unsorted l = Ok tt <-> key_ssorted l.
Proof.
  unfold key_ssorted. induction l as [|x [|y l] IH].
  - split; [constructor|done].
  - split; [repeat constructor|done].
  - cbn [check_windows]. unfold keqb at 1, kgtb at 1.
    destruct (cmp (key x) (key y)) eqn:Hxy.
    + split; [done|]. intros [_ Hf]%StronglySorted_inv.
      apply Forall_inv in Hf. unfold klt in Hf. congruence.
    + rewrite IH. split.
      * intros H. constructor; [done|]. apply StronglySorted_inv in H as [_ Hf].
        constructor; [done|]. eapply Forall_impl; [exact Hf|].
        intros z Hz. eapply klt_trans; [exact Hxy|done].
      * by intros [? _]%StronglySorted_inv.
    + split; [done|]. intros [_ Hf]%StronglySorted_inv.
      apply Forall_inv in Hf. unfold klt in Hf. congruence.
Qed.

(** After a sort only the duplicate test can fire. *)
Lemma check_windows_sorted {E} (dup unsorted : E) l :
  key_sorted l ->
  check_windows dup unsorted l = Ok tt \/ check_windows dup unsorted l = Err dup.
Proof.
  induction 1 as [|x l Hl IH Hx]; [by left|]. destruct l as [|y l]; [by left|].
  cbn [check_windows]. apply Forall_inv in Hx. unfold kle in Hx. unfold keqb, kgtb.
  destruct (cmp (key x) (key y)); [by right|done|done].
Qed.

Lemma check_windows_sort_dup {E} (dup unsorted : E) l :
  ~ NoDup (map key l) -> check_windows dup unsorted (sort_by_key l) = Err dup.
Proof.
  intros Hnd. destruct (check_windows_sorted dup unsorted _ (sort_by_key_sorted l)) as [H|H]; [|done].
  apply check_windows_Ok, key_ssorted_nodup in H. by rewrite sort_by_key_perm in H.
Qed.

Lemma check_windows_sort_nodup {E} (dup unsorted : E) l :
  NoDup (map key l) -> check_windows dup unsorted (sort_by_key l) = Ok tt.
Proof. intros Hnd. by apply check_windows_Ok, sort_by_key_ssorted. Qed.
End Sort.

Arguments key_sorted {A K _} key l.
Arguments key_ssorted {A K _} key l.

(** ** [Vec::dedup]: drop consecutive repetitions *)

Section Dedup.
Context {K : Type} `{Kcmp : TotalCmp K} `{Klaws : !TotalCmpLaws K}.

Fixpoint dedup (l : list K) : list K :=
  match l with
  | [] => []
  | x :: l' =>
      match l' with
      | y :: _ => if keqb x y then dedup l' else x :: dedup l'
      | [] => [x]
      end
  end.

Lemma dedup_cons2 x y l :
  dedup (x :: y :: l) = if keqb x y then dedup (y :: l) else x :: dedup (y :: l).
Proof. done. Qed.

Lemma dedup_elem l k : k ∈ dedup l <-> k ∈ l.
Proof.
  induction l as [|x [|y l] IH]; [done|done|].
  rewrite dedup_cons2. destruct (keqb x y) eqn:Hxy.
  - apply keqb_spec in Hxy as ->. rewrite IH. rewrite !elem_of_cons. tauto.
  - rewrite !elem_of_cons, IH, elem_of_cons. tauto.
Qed.

Lemma dedup_Forall (P : K -> Prop) l : Forall P l -> Forall P (dedup l).
Proof. rewrite !Forall_forall. intros H x Hx. apply H. by apply dedup_elem. Qed.

Lemma dedup_ssorted l : key_sorted id l -> key_ssorted id (dedup l).
Proof.
  unfold key_sorted, key_ssorted. induction 1 as [|x l Hl IH Hx]; [constructor|].
  destruct l as [|y l]; [repeat constructor|].
  rewrite dedup_cons2. destruct (keqb x y) eqn:Hxy; [done|].
  constructor; [done|]. apply dedup_Forall.
  assert (klt x y) as Hlt.
  { apply Forall_inv in Hx. apply kle_lt_eq in Hx as [?|Heq]; [done|].
    simpl in Heq. subst. by rewrite (proj2 (keqb_spec y y)) in Hxy. }
  constructor; [done|]. apply StronglySorted_inv in Hl as [_ Hy].
  eapply Forall_impl; [exact Hy|]. intros z Hz. apply kle_lt_eq in Hz as [Hz|Hz].
  - by eapply klt_trans.
  - simpl in *. by subst.
Qed.

Lemma dedup_id l : key_ssorted id l -> dedup l = l.
Proof.
  unfold key_ssorted. induction 1 as [|x l Hl IH Hx]; [done|].
  destruct l as [|y l]; [done|]. rewrite dedup_cons2, IH. destruct (keqb x y) eqn:Hxy; [|done]. apply keqb_spec in Hxy as ->.
  apply Forall_inv in Hx. by apply klt_irrefl in Hx.
Qed.

(** [sort] then [dedup] depends only on the set of elements. *)
Lemma dedup_sort_ext l k :
  (forall x, x ∈ l <-> x ∈ k) -> dedup (sort_by_key id l) = dedup (sort_by_key id k).
Proof.
  intros Hlk. pose proof (dedup_ssorted _ (sort_by_key_sorted id l)) as Hl.
  pose proof (dedup_ssorted _ (sort_by_key_sorted id k)) as Hk.
  apply (key_ssorted_perm_eq id); [done..|]. apply NoDup_Permutation.
  - apply key_ssorted_nodup in Hl. by rewrite map_id in Hl.
  - apply key_ssorted_nodup in Hk. by rewrite map_id in Hk.
  - intros x. by rewrite !dedup_elem, !sort_by_key_perm.
Qed.

Lemma dedup_length l : (length (dedup l) <= length l)%nat.
Proof.
  induction l as [|x [|y l] IH]; [done|done|]. rewrite dedup_cons2.
  destruct (keqb x y); cbn [length] in *; lia.
Qed.
End Dedup.

(** ** [binary_search_by]

    The loop of the standard library: [size] halves, [base] moves right while
    the probe is not greater than the target. *)

Section BinarySearch.
Context {A K : Type} `{Kcmp : TotalCmp K} `{Klaws : !TotalCmpLaws K} (key : A -> K) (target : K).

Fixpoint binary_search_loop (fuel : nat) (l : list A) (base size : nat) : nat :=
  match fuel with
  | O => base
  | S fuel' =>
      if (size <=? 1)%nat then base
      else
        let half := Nat.div2 size in
        let mid := (base + half)%nat in
        let base' :=
          match l !! mid with
          | Some x => if kgtb (key x) target then base else mid
          | None => base
          end in
        binary_search_loop fuel' l base' (size - half)
  end.

Definition binary_search (l : list A) : option nat :=
  match l with
  | [] => None
  | _ =>
      let base := binary_search_loop (length l) l 0 (length l) in
      match l !! base with
      | Some x => if keqb (key x) target then Some base else None
      | None => None
      end
  end.

Lemma key_ssorted_lookup l i j x y :
  key_ssorted key l -> l !! i = Some x -> l !! j = Some y -> (i < j)%nat ->
  klt (key x) (key y).
Proof.
  intros Hs. revert i j. induction Hs as [|z l Hl IH Hz]; intros i j Hi Hj Hij; [done|].
  destruct j as [|j]; [lia|]. destruct i as [|i]; simpl in *.
  - simplify_eq. rewrite Forall_forall in Hz. apply Hz. by eapply list_elem_of_lookup_2.
  - eapply IH; eauto. lia.
Qed.

(** The window [base, base + size) keeps the target's position. *)
Lemma binary_search_loop_spec l i x :
  key_ssorted key l -> l !! i = Some x -> key x = target ->
  forall fuel base size,
    (size <= fuel)%nat -> (base <= i)%nat -> (i < base + size)%nat ->
    (base + size <= length l)%nat ->
    binary_search_loop fuel l base size = i.
Proof.
  intros Hs Hi Hx fuel. induction fuel as [|fuel IH]; intros base size Hf Hb Hw Hlen; [lia|].
  cbn [binary_search_loop]. destruct (Nat.leb_spec size 1); [lia|].
  pose proof (Nat.div2_odd size) as Hodd.
  assert (1 <= Nat.div2 size <= size - 1)%nat as Hhalf.
  { destruct (Nat.odd size); simpl in Hodd; lia. }
  set (half := Nat.div2 size) in *.
  destruct (lookup_lt_is_Some_2 l (base + half)) as [y Hy]; [lia|].
  rewrite Hy. unfold kgtb. destruct (cmp (key y) target) eqn:Hc; apply IH; try lia.
  - destruct (decide (i < base + half)%nat) as [Hlt|]; [|lia].
    exfalso. pose proof (key_ssorted_lookup _ _ _ _ _ Hs Hi Hy Hlt) as H'.
    apply cmp_eq in Hc. rewrite Hc, Hx in H'. by apply klt_irrefl in H'.
  - destruct (decide (i < base + half)%nat) as [Hlt|]; [|lia].
    exfalso. pose proof (key_ssorted_lookup _ _ _ _ _ Hs Hi Hy Hlt) as H'.
    rewrite Hx in H'. eapply klt_irrefl, klt_trans; [exact H'|exact Hc].
  - destruct (decide (i < base + half)%nat) as [Hlt|Hge]; [lia|].
    exfalso. apply kgt_lt in Hc.
    destruct (decide (i = base + half)%nat) as [->|Hne].
    + assert (x = y) as <- by congruence. rewrite Hx in Hc. by apply klt_irrefl in Hc.
    + assert (base + half < i)%nat as Hlt by lia.
      pose proof (key_ssorted_lookup _ _ _ _ _ Hs Hy Hi Hlt) as H'.
      rewrite Hx in H'. eapply klt_irrefl, klt_trans; [exact H'|exact Hc].
Qed.

Lemma binary_search_complete l i x :
  key_ssorted key l -> l !! i = Some x -> key x = target -> binary_search l = Some i.
Proof.
  intros Hs Hi Hx. pose proof (lookup_lt_Some _ _ _ Hi) as Hlt.
  unfold binary_search. destruct l as [|a l']; [done|]. set (l := a :: l') in *.
  rewrite (binary_search_loop_spec l i x Hs Hi Hx) by lia.
  rewrite Hi, Hx. by rewrite (proj2 (keqb_spec target target)).
Qed.

Lemma binary_search_sound l i :
  binary_search l = Some i -> exists x, l !! i = Some x /\ key x = target.
Proof.
  unfold binary_search. destruct l as [|a l']; [done|].
  set (base := binary_search_loop _ _ _ _).
  destruct ((a :: l') !! base) as [x|] eqn:Hx; [|done].
  destruct (keqb (key x) target) eqn:Hk; [|done]. intros [= <-].
  apply keqb_spec in Hk. eauto.
Qed.
End BinarySearch.
