(* ===== verification/Reader.v ===== *)
(** * Byte readers

    Every decoder of the workspace owns a private [Reader { bytes, offset }]
    struct with the same [take]; only the error values differ.  This file has
    the shared state-and-error monad over such a reader, and a small logic to
    prove decoders: [parses m x v] says that [m] reads exactly [x] and returns
    [v] wherever it is run (completeness), [yields m R] that whatever [m]
    returns [v] on, it consumed some [x] with [R x v] (soundness). *)

From S2P Require Import Prelude.

Record reader := Reader { rd_bytes : bytes; rd_offset : Z }.

Definition reader_new (b : bytes) : reader := Reader b 0.

Definition remaining (r : reader) : Z := saturating_sub (blen (rd_bytes r)) (rd_offset r).

(** [bytes.get(lo..hi)]. *)
Definition slice_get (b : bytes) (lo hi : Z) : option bytes :=
  if (lo <=? hi) && (hi <=? blen b)
  then Some (take (Z.to_nat (hi - lo)) (drop (Z.to_nat lo) b))
  else None.

Definition parser (E A : Type) : Type := reader -> result (A * reader) E.

#[export] Instance parser_ret E : MRet (parser E) := fun A v r => Ok (v, r).
#[export] Instance parser_bind E : MBind (parser E) :=
  fun A B k m r => let? '(v, r') := m r in k v r'.

(** [if c { return Err(e) }] inside a decoder. *)
Definition pbail {E} (c : bool) (e : E) : parser E unit :=
  fun r => bail_if c with e ;; Ok (tt, r).
(** A fallible computation that does not touch the reader. *)
Definition plift {E A} (m : result A E) : parser E A :=
  fun r => let? v := m in Ok (v, r).
Definition pfail {E A} (e : E) : parser E A := fun _ => Err e.

(** [Reader::take] with its two errors: the offset overflows, the slice is short. *)
Definition take_with {E} (ovf eof : E) (n : Z) : parser E bytes :=
  fun r =>
    let? stop := ok_or (checked_add USIZE_MAX (rd_offset r) n) ovf in
    let? v := ok_or (slice_get (rd_bytes r) (rd_offset r) stop) eof in
    Ok (v, Reader (rd_bytes r) stop).

(** [for _ in 0..n { out.push(m?) }]. *)
Fixpoint prepeat {E A} (n : nat) (m : parser E A) : parser E (list A) :=
  match n with
  | O => mret []
  | S n' => v ← m; vs ← prepeat n' m; mret (v :: vs)
  end.

(** [for _ in 0..n { s = f(s)? }]. *)
Fixpoint piter {E S} (n : nat) (f : S -> parser E S) (s : S) : parser E S :=
  match n with
  | O => mret s
  | Datatypes.S n' => s' ← f s; piter n' f s'
  end.

(** Run a decoder on a whole slice and refuse trailing bytes with [e]. *)
Definition run_to_end {E A} (e : E) (m : parser E A) (b : bytes) : result A E :=
  let? '(v, r) := m (reader_new b) in
  bail_if negb (remaining r =? 0) with e ;;
  Ok v.

(** ** The logic of readers *)

(** The reader that has consumed [pre] and has [post] left. *)
Definition at_ (pre post : bytes) : reader := Reader (pre ++ post) (blen pre).

Definition parses {E A} (m : parser E A) (x : bytes) (v : A) : Prop :=
  forall pre post, slice_ok (pre ++ x ++ post) ->
    m (at_ pre (x ++ post)) = Ok (v, at_ (pre ++ x) post).

Definition yields {E A} (m : parser E A) (R : bytes -> A -> Prop) : Prop :=
  forall pre post v r, m (at_ pre post) = Ok (v, r) ->
    exists x post', post = x ++ post' /\ r = at_ (pre ++ x) post' /\ R x v.

Section Logic.
Context {E : Type}.

Lemma parses_ret {A} (v : A) : parses (mret (M := parser E) v) [] v.
Proof. intros pre post _. rewrite app_nil_r. done. Qed.

Lemma parses_ret' {A} (v w : A) : v = w -> parses (mret (M := parser E) v) [] w.
Proof. intros ->. apply parses_ret. Qed.

Lemma parses_bind {A B} (m : parser E A) (k : A -> parser E B) x y v w :
  parses m x v -> parses (k v) y w -> parses (m ≫= k) (x ++ y) w.
Proof.
  intros Hm Hk pre post Hs. rewrite <- !(assoc_L (++)) in *.
  unfold mbind, parser_bind. rewrite Hm by done. simpl.
  rewrite Hk by (by rewrite <- (assoc_L (++))). by rewrite <- (assoc_L (++)).
Qed.

(** A step that consumes nothing. *)
Lemma parses_bind0 {A B} (m : parser E A) (k : A -> parser E B) y v w :
  parses m [] v -> parses (k v) y w -> parses (m ≫= k) y w.
Proof. intros Hm Hk. by apply (parses_bind m k [] y v w). Qed.

Lemma parses_bail (c : bool) (e : E) : c = false -> parses (pbail c e) [] tt.
Proof. intros -> pre post _. unfold pbail. by rewrite app_nil_r. Qed.

Lemma parses_lift {A} (m : result A E) v : m = Ok v -> parses (plift m) [] v.
Proof. intros -> pre post _. unfold plift. simpl. by rewrite app_nil_r. Qed.

Lemma parses_take (ovf eof : E) n x : blen x = n -> parses (take_with ovf eof n) x x.
Proof.
  intros <- pre post Hs. unfold take_with, at_, slice_ok in *.
  pose proof (blen_nonneg pre); pose proof (blen_nonneg x); pose proof (blen_nonneg post).
  rewrite !blen_app in Hs. cbn [rd_bytes rd_offset].
  unfold checked_add. destruct (Z.leb_spec (blen pre + blen x) USIZE_MAX);
    [|unfold USIZE_MAX, U64_MAX, ISIZE_MAX in *; lia].
  simpl. unfold slice_get. rewrite !blen_app.
  destruct (Z.leb_spec (blen pre) (blen pre + blen x)); [|lia].
  destruct (Z.leb_spec (blen pre + blen x) (blen pre + (blen x + blen post))); [|lia].
  simpl. replace (blen pre + blen x - blen pre) with (blen x) by lia.
  unfold blen. rewrite !Nat2Z.id, drop_app_length, take_app_length.
  by rewrite <- (assoc_L (++)).
Qed.

Lemma parses_repeat {A} (m : parser E A) (enc : A -> bytes) vs :
  (forall v, v ∈ vs -> parses m (enc v) v) ->
  parses (prepeat (length vs) m) (concat (map enc vs)) vs.
Proof.
  induction vs as [|v vs IH]; intros Hm; cbn [prepeat length map concat].
  - apply parses_ret.
  - apply parses_bind with v; [apply Hm; left|].
    rewrite <- (app_nil_r (concat _)). apply parses_bind with vs.
    + apply IH. intros w Hw. apply Hm. by right.
    + apply parses_ret.
Qed.

Lemma yields_mono {A} (m : parser E A) (R R' : bytes -> A -> Prop) :
  yields m R -> (forall x v, R x v -> R' x v) -> yields m R'.
Proof. intros Hm HR pre post v r Hr. destruct (Hm _ _ _ _ Hr) as (x & p & ? & ? & ?). eauto 10. Qed.

Lemma yields_ret {A} (v : A) (R : bytes -> A -> Prop) :
  R [] v -> yields (mret (M := parser E) v) R.
Proof.
  intros HR pre post w r [= <- <-]. exists [], post. by rewrite app_nil_r.
Qed.

(** Backward rule: the continuation is proved with what the first step consumed. *)
Lemma yields_bind {A B} (m : parser E A) (k : A -> parser E B) Q (R : bytes -> B -> Prop) :
  yields m Q ->
  (forall v x, Q x v -> yields (k v) (fun y w => R (x ++ y) w)) ->
  yields (m ≫= k) R.
Proof.
  intros Hm Hk pre post w r. unfold mbind, parser_bind. intros Hr. result_inv.
  match goal with H : m _ = Ok _ |- _ => apply Hm in H as (x & p & -> & -> & HQ) end.
  match goal with H : k _ _ = Ok _ |- _ => apply (Hk _ _ HQ) in H as (y & p' & -> & -> & HR) end.
  exists (x ++ y), p'. by rewrite !(assoc_L (++)).
Qed.

Lemma yields_bail (c : bool) (e : E) : yields (pbail c e) (fun x _ => x = [] /\ c = false).
Proof.
  intros pre post [] r. unfold pbail. destruct c; [done|]. intros [= <-].
  exists [], post. by rewrite app_nil_r.
Qed.

Lemma yields_lift {A} (m : result A E) : yields (plift m) (fun x v => x = [] /\ m = Ok v).
Proof.
  intros pre post v r. unfold plift. intros Hr. result_inv. exists [], post. by rewrite app_nil_r.
Qed.

Lemma yields_fail {A} (e : E) (R : bytes -> A -> Prop) : yields (pfail e) R.
Proof. intros pre post v r. done. Qed.

Lemma yields_take (ovf eof : E) n :
  0 <= n -> yields (take_with ovf eof n) (fun x v => v = x /\ blen x = n).
Proof.
  intros Hn pre post v r. unfold take_with, at_. cbn [rd_bytes rd_offset].
  intros Hr. result_inv. unfold checked_add in *. case_match; [|done]. simplify_eq.
  unfold slice_get in *. case_match; [|done]. simplify_eq. to_prop. rewrite blen_app in *.
  replace (blen pre + n - blen pre) with n by lia.
  rewrite (eq_refl : blen pre = Z.of_nat (length pre)), Nat2Z.id, drop_app_length.
  exists (take (Z.to_nat n) post), (drop (Z.to_nat n) post).
  assert (blen (take (Z.to_nat n) post) = n) as Hlen.
  { unfold blen in *. rewrite length_take. lia. }
  rewrite <- (assoc_L (++)), take_drop. rewrite blen_app, Hlen. done.
Qed.

Lemma yields_repeat {A} (m : parser E A) (P : bytes -> A -> Prop) n :
  yields m P ->
  yields (prepeat n m) (fun x vs => exists xs, x = concat xs /\ Forall2 P xs vs /\ length vs = n).
Proof.
  intros Hm. induction n as [|n IH]; cbn [prepeat].
  - apply yields_ret. exists []. done.
  - eapply yields_bind; [exact Hm|]. intros v x Hx.
    eapply yields_bind; [exact IH|]. intros vs y (xs & -> & Hxs & <-).
    apply yields_ret. exists (x :: xs). simpl. rewrite app_nil_r. by auto.
Qed.

Lemma yields_piter {S} (f : S -> parser E S) (P : bytes -> S -> S -> Prop) n s :
  (forall s, yields (f s) (fun x s' => P x s s')) ->
  (forall s, P [] s s) ->
  (forall x y s1 s2 s3, P x s1 s2 -> P y s2 s3 -> P (x ++ y) s1 s3) ->
  yields (piter n f s) (fun x s' => P x s s').
Proof.
  intros Hf Hr Ht. revert s. induction n as [|n IH]; intros s; cbn [piter].
  - by apply yields_ret.
  - eapply yields_bind; [apply Hf|]. intros s' x Hx.
    eapply yields_mono; [apply IH|]. intros y s'' Hy. exact (Ht _ _ _ _ _ Hx Hy).
Qed.

Lemma run_to_end_parses {A} (e : E) (m : parser E A) b v :
  parses m b v -> slice_ok b -> run_to_end e m b = Ok v.
Proof.
  intros Hm Hb. unfold run_to_end, reader_new. specialize (Hm [] []).
  rewrite !app_nil_r in Hm. simpl in Hm. unfold at_ in Hm at 1. simpl in Hm.
  change (blen (@nil byte)) with 0 in Hm. rewrite Hm by done. simpl.
  unfold remaining, at_, saturating_sub. simpl. rewrite app_nil_r.
  by rewrite Z.sub_diag.
Qed.

Lemma run_to_end_yields {A} (e : E) (m : parser E A) b v R :
  yields m R -> run_to_end e m b = Ok v -> R b v.
Proof.
  intros Hm. unfold run_to_end. intros Hr. result_inv. to_prop.
  match goal with H : m _ = Ok _ |- _ => rename H into Hrun end.
  change (reader_new b) with (at_ [] b) in Hrun.
  apply Hm in Hrun as (x & p & -> & -> & HR). simpl in *.
  unfold remaining, at_, saturating_sub in *. simpl in *. rewrite blen_app in *.
  destruct p as [|c p]; [by rewrite app_nil_r|]. rewrite blen_cons in *.
  pose proof (blen_nonneg p). lia.
Qed.
End Logic.

(** One step of a completeness proof: split the input at the next field. *)
Ltac parse_field :=
  lazymatch goal with
  | |- parses (mret _) _ _ => apply parses_ret
  | |- parses (pbail _ _ ≫= _) _ _ => eapply parses_bind0; [apply parses_bail|]
  | |- parses (plift _ ≫= _) _ _ => eapply parses_bind0; [apply parses_lift|]
  | |- parses (_ ≫= _) (_ ++ _) _ => eapply parses_bind
  end.
