(* ===== verification/Wire.v ===== *)
(** * Wire primitives of [service-runtime-core]

    [WireError], the limits, [Writer] and [Reader], and the interface
    [CanonicalCodec] that the canonical formats promise to their clients: the
    decoder is the inverse of the encoder, so no value has two encodings. *)

From S2P Require Import Prelude Ordering Reader.

Inductive WireError : Type :=
| InvalidLength
| UnexpectedEof
| InvalidEncoding
| UnsupportedVersion
| LengthOverflow
| DuplicateKey
| UnsortedKeys
| TooManyItems
| ReservedKey
| DuplicateServiceId
| UnsortedDependencies.

#[export] Instance WireError_eq_dec : EqDecision WireError.
Proof. solve_decision. Defined.

(** ** Protocol constants *)

Definition MANAGED_STATE_PROTOCOL_VERSION : byte := x01.
Definition MANAGED_STATE_LAYOUT_VERSION : byte := x01.
Definition RECOVERY_FORMAT_VERSION : byte := x01.
Definition STATE_VIEW_VERSION : byte := x01.
Definition SCRIPT_ACTION_RESULT_VERSION : byte := x01.
Definition BACKEND_METADATA_VERSION : byte := x01.
Definition BACKEND_PLANNER_VERSION : Z := 1.
Definition BACKEND_MANAGED_STATE_VERSION : Z := 1.
Definition PLANNER_NEED_STATE_VERSION : byte := x01.
Definition PLANNER_NEED_STATE_MAGIC : bytes := bstr "JSP1".
Definition PLANNER_NEED_EXTERNAL_STATE_MAGIC : bytes := bstr "JSE1".
Definition EMPTY_STATE_ROOT_V1 : bytes :=
  [x03; x17; x0a; x2e; x75; x97; xb7; xb7; xe3; xd8; x4c; x05; x39; x1d; x13; x9a;
   x62; xb1; x57; xe7; x87; x86; xd8; xc0; x82; xf2; x9d; xcf; x4c; x11; x13; x14].
Definition MANAGED_STATE_COMMITMENT_KEY_V1 : bytes := bstr ":jam-service-runtime:managed-state:v1".
Definition MANAGEMENT_VERSION_KEY_V1 : bytes := bstr "__jamscript/management/version".
Definition MANAGEMENT_INITIALIZED_KEY_V1 : bytes := bstr "__jamscript/management/initialized".
Definition MANAGEMENT_POLICY_KEY_V1 : bytes := bstr "__jamscript/management/policy".
Definition MANAGEMENT_NONCE_KEY_V1 : bytes := bstr "__jamscript/management/nonce".
Definition APPLICATION_KEY_CLASS_V1 : byte := x01.
Definition RUNTIME_KEY_CLASS_V1 : byte := x00.
Definition WALLET_AUTH_MODULE_V1 : byte := x01.
Definition MAX_RUNTIME_ACTIONS : Z := 1024.
Definition MAX_RECOVERY_CHANGES : Z := 4096.
Definition MAX_RECOVERY_BYTES : Z := 1024 * 1024.
Definition MAX_STATE_KEY_BYTES : Z := 4096.
Definition MAX_STATE_VALUE_BYTES : Z := 64 * 1024.
Definition MAX_STATE_VIEW_ENTRIES : Z := MAX_RECOVERY_CHANGES.
Definition MAX_STATE_VIEW_BYTES : Z := 1024 * 1024.
Definition MAX_SCRIPT_ACTION_RESULT_BYTES : Z := MAX_RECOVERY_BYTES.
Definition MAX_WITNESS_NODES : Z := 4096.
Definition MAX_WITNESS_NODE_BYTES : Z := 64 * 1024.
Definition MAX_WITNESS_BYTES : Z := 1024 * 1024.
Definition MAX_EXTERNAL_STATE_WITNESSES : Z := 64.
Definition MAX_EXTERNAL_WITNESS_TOTAL_BYTES : Z := 2 * 1024 * 1024.
Definition MAX_RUNTIME_ACTION_BYTES : Z := MAX_RECOVERY_BYTES.
Definition MAX_RUNTIME_ACTION_TOTAL_BYTES : Z := 4 * 1024 * 1024.
Definition MAX_PLANNER_OUTPUT_BYTES : Z := 4 + 1 + 4 + MAX_STATE_KEY_BYTES.
Definition MAX_ACCESS_PLAN_ENCODED_BYTES : Z := MAX_STATE_VIEW_BYTES.
Definition MAX_WITNESS_V1_ENCODED_BYTES : Z :=
  1 + 32 + 4 + MAX_ACCESS_PLAN_ENCODED_BYTES + 4 + (MAX_WITNESS_NODES * 4) + MAX_WITNESS_BYTES.

(** Unfold every limit, for [lia]. *)
Ltac unfold_limits :=
  unfold MAX_WITNESS_V1_ENCODED_BYTES, MAX_ACCESS_PLAN_ENCODED_BYTES, MAX_PLANNER_OUTPUT_BYTES,
    MAX_RUNTIME_ACTION_TOTAL_BYTES, MAX_RUNTIME_ACTION_BYTES, MAX_EXTERNAL_WITNESS_TOTAL_BYTES,
    MAX_EXTERNAL_STATE_WITNESSES, MAX_WITNESS_BYTES, MAX_WITNESS_NODE_BYTES, MAX_WITNESS_NODES,
    MAX_SCRIPT_ACTION_RESULT_BYTES, MAX_STATE_VIEW_BYTES, MAX_STATE_VIEW_ENTRIES,
    MAX_STATE_VALUE_BYTES, MAX_STATE_KEY_BYTES, MAX_RECOVERY_BYTES, MAX_RECOVERY_CHANGES,
    MAX_RUNTIME_ACTIONS, u8_ok, u16_ok, u32_ok, u64_ok, slice_ok, USIZE_MAX, U8_MAX, U16_MAX, U32_MAX,
    U64_MAX, ISIZE_MAX in *.

(** A [[u8; N]] value. *)
Definition array_ok (n : Z) (b : bytes) : Prop := blen b = n.

(** ** [Writer] *)

Module Writer.
Record t := mk { buf : bytes }.
Definition new : t := mk [].
Definition u8 (w : t) (value : byte) : t := mk (buf w ++ [value]).
Definition u32 (w : t) (value : Z) : t := mk (buf w ++ to_le_bytes 4 value).
Definition raw (w : t) (value : bytes) : t := mk (buf w ++ value).
Definition bytes_u32 (w : t) (value : bytes) : result t WireError :=
  let? length := ok_or (u32_try_from (blen value)) LengthOverflow in
  Ok (raw (u32 w length) value).
Definition finish (w : t) : bytes := buf w.
End Writer.

(** The length-prefixed form of a byte string. *)
Definition fmt_bytes_u32 (b : bytes) : bytes := to_le_bytes 4 (blen b) ++ b.

(** ** [Reader] *)

Module Rd.
Definition take : Z -> parser WireError bytes := take_with LengthOverflow UnexpectedEof.
Definition u8 : parser WireError byte :=
  b ← take 1; plift (ok_or (head b) UnexpectedEof).
Definition array (n : Z) : parser WireError bytes := take n.
Definition u32 : parser WireError Z := b ← array 4; mret (from_le_bytes b).
Definition u64 : parser WireError Z := b ← array 8; mret (from_le_bytes b).
Definition bytes_u32 : parser WireError bytes := n ← u32; take n.
Definition bytes_limited (maximum : Z) : parser WireError bytes :=
  n ← u32;
  pbail (n >? maximum) TooManyItems;;
  take n.
End Rd.

(** ** Writer and reader rules *)

Lemma writer_bytes_u32_Ok w b w' :
  Writer.bytes_u32 w b = Ok w' <->
  blen b <= U32_MAX /\ Writer.buf w' = Writer.buf w ++ fmt_bytes_u32 b.
Proof.
  unfold Writer.bytes_u32, u32_try_from, try_from_max, fmt_bytes_u32.
  destruct (Z.leb_spec (blen b) U32_MAX) as [Hle|Hgt]; simpl.
  - destruct w' as [b']; simpl. unfold Writer.raw, Writer.u32. simpl.
    rewrite <- (app_assoc _ _ b). split.
    + intros [= <-]. done.
    + intros [_ ->]. done.
  - split; [done|]. intros [? _]. lia.
Qed.

Lemma blen_fmt_bytes_u32 b : blen (fmt_bytes_u32 b) = 4 + blen b.
Proof. unfold fmt_bytes_u32. rewrite blen_app, blen_to_le_bytes. lia. Qed.
#[export] Hint Rewrite blen_fmt_bytes_u32 : blen.

Lemma parses_u8 b : parses Rd.u8 [b] b.
Proof.
  unfold Rd.u8. change [b] with ([b] ++ []). eapply parses_bind; [by apply parses_take|].
  by apply parses_lift.
Qed.

Lemma parses_array n b : array_ok n b -> parses (Rd.array n) b b.
Proof. apply parses_take. Qed.

Lemma parses_u32 z : u32_ok z -> parses Rd.u32 (to_le_bytes 4 z) z.
Proof.
  intros Hz. unfold Rd.u32. rewrite <- (app_nil_r (to_le_bytes 4 z)).
  eapply parses_bind; [apply parses_array; apply blen_to_le_bytes|].
  rewrite from_to_u32 by done. apply parses_ret.
Qed.

Lemma parses_u64 z : u64_ok z -> parses Rd.u64 (to_le_bytes 8 z) z.
Proof.
  intros Hz. unfold Rd.u64. rewrite <- (app_nil_r (to_le_bytes 8 z)).
  eapply parses_bind; [apply parses_array; apply blen_to_le_bytes|].
  rewrite from_to_u64 by done. apply parses_ret.
Qed.

Lemma parses_bytes_u32 b : blen b <= U32_MAX -> parses Rd.bytes_u32 (fmt_bytes_u32 b) b.
Proof.
  intros Hb. unfold Rd.bytes_u32, fmt_bytes_u32. pose proof (blen_nonneg b).
  eapply parses_bind; [apply parses_u32; by split|]. by apply parses_take.
Qed.

Lemma parses_bytes_limited maximum b :
  blen b <= maximum -> blen b <= U32_MAX -> parses (Rd.bytes_limited maximum) (fmt_bytes_u32 b) b.
Proof.
  intros Hm Hb. unfold Rd.bytes_limited, fmt_bytes_u32. pose proof (blen_nonneg b).
  eapply parses_bind; [apply parses_u32; by split|].
  eapply parses_bind0; [apply parses_bail; rewrite Z.gtb_ltb; apply Z.ltb_ge; lia|].
  by apply parses_take.
Qed.

Lemma yields_array n : 0 <= n -> yields (Rd.array n) (fun x v => v = x /\ array_ok n x).
Proof. intros Hn. by apply yields_take. Qed.

Lemma yields_u8 : yields Rd.u8 (fun x v => x = [v]).
Proof.
  unfold Rd.u8. eapply yields_bind; [by apply yields_take|]. intros v x [-> Hx].
  eapply yields_mono; [apply yields_lift|]. intros y w [-> Hh]. result_inv.
  destruct x as [|c [|d x]]; simpl in *; simplify_eq; [done|].
  rewrite !blen_cons in Hx. pose proof (blen_nonneg x). lia.
Qed.

Lemma yields_le (n : nat) z (x : bytes) :
  blen x = Z.of_nat n -> z = from_le_bytes x -> x = to_le_bytes n z /\ 0 <= z <= 256 ^ Z.of_nat n - 1.
Proof.
  intros Hx ->. split.
  - rewrite <- (to_from_le_bytes x) at 1. f_equal. unfold blen in Hx. lia.
  - pose proof (from_le_bytes_range x) as Hr. rewrite Hx in Hr. lia.
Qed.

Lemma yields_u32 : yields Rd.u32 (fun x z => x = to_le_bytes 4 z /\ u32_ok z).
Proof.
  unfold Rd.u32. eapply yields_bind; [by apply yields_array|]. intros v x [-> Hx].
  apply yields_ret. rewrite app_nil_r. destruct (yields_le 4 _ x Hx eq_refl) as [H1 H2].
  split; [done|]. unfold u32_ok, U32_MAX. simpl in H2. lia.
Qed.

Lemma yields_u64 : yields Rd.u64 (fun x z => x = to_le_bytes 8 z /\ u64_ok z).
Proof.
  unfold Rd.u64. eapply yields_bind; [by apply yields_array|]. intros v x [-> Hx].
  apply yields_ret. rewrite app_nil_r. destruct (yields_le 8 _ x Hx eq_refl) as [H1 H2].
  split; [done|]. unfold u64_ok, U64_MAX. simpl in H2. lia.
Qed.

Lemma yields_bytes_u32 : yields Rd.bytes_u32 (fun x v => x = fmt_bytes_u32 v /\ blen v <= U32_MAX).
Proof.
  unfold Rd.bytes_u32. eapply yields_bind; [apply yields_u32|]. intros n x [-> Hn].
  eapply yields_mono; [apply yields_take; apply Hn|]. intros y v [-> Hy]. subst n.
  split; [done|]. apply Hn.
Qed.

Lemma yields_bytes_limited maximum :
  yields (Rd.bytes_limited maximum)
    (fun x v => x = fmt_bytes_u32 v /\ blen v <= maximum /\ blen v <= U32_MAX).
Proof.
  unfold Rd.bytes_limited. eapply yields_bind; [apply yields_u32|]. intros n x [-> Hn].
  eapply yields_bind; [apply yields_bail|]. intros [] y [-> Hg]. to_prop.
  eapply yields_mono; [apply yields_take; apply Hn|]. intros z v [-> Hz]. subst n.
  split; [done|]. split; [lia|apply Hn].
Qed.

#[export] Hint Resolve parses_u8 parses_array parses_u32 parses_u64 parses_bytes_u32
  parses_bytes_limited : parses.
Create HintDb yields.
#[export] Hint Resolve yields_u8 yields_u32 yields_u64 yields_bytes_u32 yields_bytes_limited
  yields_bail yields_lift : yields.
#[export] Hint Extern 2 (yields (Rd.array _) _) => apply yields_array; lia : yields.

(** One step of a soundness proof. *)
Ltac yield_field :=
  lazymatch goal with
  | |- yields (mret _) _ => apply yields_ret
  | |- yields (pfail _) _ => apply yields_fail
  | |- yields (_ ≫= _) _ => eapply yields_bind; [solve [eauto with yields]|]; cbv beta
  end.

(** ** What a canonical format promises *)

Class Codec (T E : Type) := { encode_of : T -> result bytes E; decode_of : bytes -> result T E }.

(** [valid] holds of the values of the Rust type (integer ranges, array
    lengths) that are in canonical form. *)
Class CanonicalCodec (T E : Type) `{Codec T E} (valid : T -> Prop) : Prop := {
  codec_complete : forall v b,
    valid v -> encode_of v = Ok b -> slice_ok b -> decode_of b = Ok v;
  codec_sound : forall b v,
    decode_of b = Ok v -> valid v /\ encode_of v = Ok b
}.

Section CodecFacts.
Context {T E : Type} `{CC : CanonicalCodec T E valid}.

(** No two byte strings decode to one value: the format is not malleable. *)
Lemma codec_not_malleable b1 b2 v :
  decode_of b1 = Ok v -> decode_of b2 = Ok v -> b1 = b2.
Proof. intros [_ H1]%codec_sound [_ H2]%codec_sound. congruence. Qed.

Lemma codec_encode_inj v1 v2 b :
  valid v1 -> valid v2 -> slice_ok b -> encode_of v1 = Ok b -> encode_of v2 = Ok b -> v1 = v2.
Proof.
  intros V1 V2 Hb H1 H2. apply codec_complete in H1, H2; try done. congruence.
Qed.
End CodecFacts.
