(* ===== verification/Fields.v ===== *)
(** * Fields shared by the small readers

    [jamscript-runtime-core] and [ownership-matrix] have private readers with
    one error value for every short read.  Their fields are the same, so the
    reads and their rules are stated once over that error. *)

From S2P Require Import Prelude Ordering Reader Wire.

(** A reader with two errors: the offset overflows, the input is short. *)
Section Fields2.
Context {E : Type} (ovf e : E).

Definition field2_u8 : parser E byte := b ← take_with ovf e 1; mret (b_at b 0).
Definition field2_array (n : Z) : parser E bytes := take_with ovf e n.
Definition field2_le (width : nat) : parser E Z :=
  b ← take_with ovf e (Z.of_nat width); mret (from_le_bytes b).

Lemma parses_field2_u8 c : parses field2_u8 [c] c.
Proof.
  unfold field2_u8. change [c] with ([c] ++ []). eapply parses_bind; [by apply parses_take|].
  by apply parses_ret'.
Qed.

Lemma parses_field2_array n b : array_ok n b -> parses (field2_array n) b b.
Proof. apply parses_take. Qed.

Lemma parses_field2_le width z :
  0 <= z < 256 ^ Z.of_nat width -> parses (field2_le width) (to_le_bytes width z) z.
Proof.
  intros Hz. unfold field2_le. rewrite <- (app_nil_r (to_le_bytes width z)).
  eapply parses_bind; [apply parses_take, blen_to_le_bytes|].
  apply parses_ret'. by apply from_to_le_bytes_small.
Qed.

Lemma yields_field2_u8 : yields field2_u8 (fun x v => x = [v]).
Proof.
  unfold field2_u8. eapply yields_bind; [by apply yields_take|]. intros v x [-> Hx].
  apply yields_ret. rewrite app_nil_r. by apply blen_1_inv in Hx as [c ->].
Qed.

Lemma yields_field2_array n : 0 <= n -> yields (field2_array n) (fun x v => v = x /\ array_ok n x).
Proof. intros Hn. by apply yields_take. Qed.

Lemma yields_field2_le width :
  yields (field2_le width)
    (fun x z => x = to_le_bytes width z /\ 0 <= z <= 256 ^ Z.of_nat width - 1).
Proof.
  unfold field2_le. eapply yields_bind; [apply yields_take; lia|]. intros v x [-> Hx].
  apply yields_ret. rewrite app_nil_r. by apply (yields_le width _ x).
Qed.
End Fields2.

Section Fields.
Context {E : Type} (e : E).

Definition field_u8 : parser E byte := field2_u8 e e.
Definition field_array (n : Z) : parser E bytes := field2_array e e n.
Definition field_le (width : nat) : parser E Z := field2_le e e width.

Lemma parses_field_u8 c : parses field_u8 [c] c.
Proof. apply parses_field2_u8. Qed.

Lemma parses_field_array n b : array_ok n b -> parses (field_array n) b b.
Proof. apply parses_field2_array. Qed.

Lemma parses_field_le width z :
  0 <= z < 256 ^ Z.of_nat width -> parses (field_le width) (to_le_bytes width z) z.
Proof. apply parses_field2_le. Qed.

Lemma yields_field_u8 : yields field_u8 (fun x v => x = [v]).
Proof. apply yields_field2_u8. Qed.

Lemma yields_field_array n : 0 <= n -> yields (field_array n) (fun x v => v = x /\ array_ok n x).
Proof. apply yields_field2_array. Qed.

Lemma yields_field_le width :
  yields (field_le width)
    (fun x z => x = to_le_bytes width z /\ 0 <= z <= 256 ^ Z.of_nat width - 1).
Proof. apply yields_field2_le. Qed.

(** [if reader.offset != bytes.len() { return Err(e) }] after the reads. *)
Definition run_exact {A} (m : parser E A) (b : bytes) : result A E :=
  let? '(v, r) := m (reader_new b) in
  bail_if negb (rd_offset r =? blen b) with e ;;
  Ok v.

Lemma run_exact_parses {A} (m : parser E A) b v :
  parses m b v -> slice_ok b -> run_exact m b = Ok v.
Proof.
  intros Hm Hb. unfold run_exact. specialize (Hm [] []). rewrite !app_nil_r in Hm.
  change (at_ [] b) with (reader_new b) in Hm. rewrite Hm by done. simpl.
  by rewrite Z.eqb_refl.
Qed.

Lemma run_exact_yields {A} (m : parser E A) b v R :
  yields m R -> run_exact m b = Ok v -> R b v.
Proof.
  intros Hm. unfold run_exact. intros Hr. result_inv. to_prop.
  match goal with H : m _ = Ok _ |- _ => rename H into Hrun end.
  change (reader_new b) with (at_ [] b) in Hrun.
  apply Hm in Hrun as (x & p & -> & -> & HR). simpl in *. rewrite blen_app in *.
  destruct p as [|c p]; [by rewrite app_nil_r|]. rewrite blen_cons in *.
  pose proof (blen_nonneg p). lia.
Qed.
End Fields.

(** [reader.read().map_err(f)]. *)
Definition pmap_err {E F A} (f : E -> F) (m : parser E A) : parser F A :=
  fun r => map_err f (m r).

Lemma parses_map_err {E F A} (f : E -> F) (m : parser E A) x v :
  parses m x v -> parses (pmap_err f m) x v.
Proof. intros Hm pre post Hs. unfold pmap_err. by rewrite Hm. Qed.

Lemma yields_map_err {E F A} (f : E -> F) (m : parser E A) R :
  yields m R -> yields (pmap_err f m) R.
Proof. intros Hm pre post v r. unfold pmap_err. intros Hr. result_inv. by apply Hm. Qed.

#[export] Hint Resolve yields_field_u8 yields_field_le yields_field2_u8 yields_field2_le yields_map_err : yields.
#[export] Hint Extern 2 (yields (field_array _ _) _) => apply yields_field_array; lia : yields.
#[export] Hint Extern 2 (yields (field2_array _ _ _) _) => apply yields_field2_array; lia : yields.
#[export] Hint Resolve parses_field_u8 parses_field_array parses_map_err : parses.
