(* ===== verification/ServiceKeys.v ===== *)
(** * Keys, metadata, planner envelopes and the commitment

    The fixed-layout records of [service-runtime-core]: managed-state keys,
    [ServiceKeyV1], [BackendMetadataV1], the planner envelopes and
    [ManagedStateCommitmentV1]. *)

From S2P Require Import Prelude Ordering Reader Wire.

(** ** Managed-state keys *)

Module Keys.
Definition application_key_v1 (namespace canonical_user_key : bytes) : result bytes WireError :=
  let? namespace_len := ok_or (u16_try_from (blen namespace)) LengthOverflow in
  Ok ([APPLICATION_KEY_CLASS_V1] ++ to_le_bytes 2 namespace_len ++ namespace
      ++ canonical_user_key).

Definition runtime_internal_key_v1 (module : byte) (module_key : bytes) : bytes :=
  [RUNTIME_KEY_CLASS_V1] ++ [module] ++ module_key.

Definition wallet_nonce_key_v1 (account : bytes) : bytes :=
  runtime_internal_key_v1 WALLET_AUTH_MODULE_V1 account.

Definition is_reserved_service_storage_key (key : bytes) : bool :=
  bool_decide (key = MANAGED_STATE_COMMITMENT_KEY_V1)
  || bool_decide (key = MANAGEMENT_VERSION_KEY_V1)
  || bool_decide (key = MANAGEMENT_INITIALIZED_KEY_V1)
  || bool_decide (key = MANAGEMENT_POLICY_KEY_V1)
  || bool_decide (key = MANAGEMENT_NONCE_KEY_V1).

Lemma application_key_v1_Ok ns k x :
  application_key_v1 ns k = Ok x <->
  blen ns <= U16_MAX /\ x = [x01] ++ to_le_bytes 2 (blen ns) ++ ns ++ k.
Proof.
  unfold application_key_v1, u16_try_from, try_from_max, APPLICATION_KEY_CLASS_V1.
  destruct (Z.leb_spec (blen ns) U16_MAX); simpl; naive_solver lia.
Qed.

Lemma application_key_v1_inj ns k ns' k' x :
  application_key_v1 ns k = Ok x -> application_key_v1 ns' k' = Ok x -> ns' = ns /\ k' = k.
Proof.
  intros [Hns ->]%application_key_v1_Ok [Hns' Heq]%application_key_v1_Ok.
  pose proof (blen_nonneg ns); pose proof (blen_nonneg ns').
  apply app_inj_1 in Heq as [_ Heq]; [|done].
  apply app_inj_1 in Heq as [Hl Heq]; [|by rewrite !to_le_bytes_length].
  apply (f_equal from_le_bytes) in Hl. rewrite !from_to_u16 in Hl by (unfold u16_ok; lia).
  apply app_inj_1 in Heq as [-> ->]; [done|]. unfold blen in Hl. lia.
Qed.

(** The first byte of a key decides its class; reserved keys have neither. *)
Lemma reserved_key_head k :
  is_reserved_service_storage_key k = true -> head k = Some x3a \/ head k = Some x5f.
Proof.
  unfold is_reserved_service_storage_key. rewrite !orb_true_iff, !bool_decide_eq_true.
  intros [[[[-> | ->] | ->] | ->] | ->]; [by left|by right..].
Qed.

Lemma class_key_not_reserved c rest :
  c = x00 \/ c = x01 -> is_reserved_service_storage_key (c :: rest) = false.
Proof.
  intros Hc. apply not_true_iff_false. intros H%reserved_key_head. simpl in H. naive_solver.
Qed.
End Keys.

(** ** [ServiceKeyV1] *)

Module ServiceKey.
Definition decode (b : bytes) : result bytes WireError :=
  bail_if negb (blen b =? 32) with InvalidLength ;;
  Ok b.
End ServiceKey.

(** ** [BackendMetadataV1] *)

Module BackendMetadata.
Record t := mk {
  service_key : bytes;
  abi_version : Z;
  planner_version : Z;
  managed_state_version : Z
}.
Definition ENCODED_LEN : Z := 1 + 32 + 4 + 4 + 4.

Definition encode (m : t) : bytes :=
  [BACKEND_METADATA_VERSION] ++ service_key m ++ to_le_bytes 4 (abi_version m)
  ++ to_le_bytes 4 (planner_version m) ++ to_le_bytes 4 (managed_state_version m).

Definition decode (b : bytes) : result t WireError :=
  bail_if negb (blen b =? ENCODED_LEN) with InvalidLength ;;
  bail_if negb (bool_decide (b_at b 0 = BACKEND_METADATA_VERSION)) with UnsupportedVersion ;;
  let? service_key := ServiceKey.decode (b_slice b 1 33) in
  let metadata := mk service_key (from_le_bytes (b_slice b 33 37))
                    (from_le_bytes (b_slice b 37 41)) (from_le_bytes (b_slice b 41 45)) in
  bail_if negb (planner_version metadata =? BACKEND_PLANNER_VERSION)
          || negb (managed_state_version metadata =? BACKEND_MANAGED_STATE_VERSION)
    with UnsupportedVersion ;;
  Ok metadata.

Definition valid (m : t) : Prop :=
  array_ok 32 (service_key m) /\ u32_ok (abi_version m)
  /\ planner_version m = BACKEND_PLANNER_VERSION
  /\ managed_state_version m = BACKEND_MANAGED_STATE_VERSION.

#[export] Instance codec : Codec t WireError :=
  {| encode_of m := Ok (encode m); decode_of := decode |}.

Lemma backend_metadata_decode_fields k a p s :
  array_ok 32 k -> blen a = 4 -> blen p = 4 -> blen s = 4 ->
  decode ([BACKEND_METADATA_VERSION] ++ k ++ a ++ p ++ s) =
  bail_if negb (from_le_bytes p =? 1) || negb (from_le_bytes s =? 1) with UnsupportedVersion ;;
  Ok (mk k (from_le_bytes a) (from_le_bytes p) (from_le_bytes s)).
Proof.
  unfold array_ok. intros Hk Ha Hp Hs. unfold decode, ENCODED_LEN.
  replace (blen _ =? _) with true by (symmetry; apply Z.eqb_eq; blia). cbn [negb].
  cbn [b_at app nth Z.to_nat]. rewrite bool_decide_eq_true_2 by done. cbn [negb].
  change (BACKEND_METADATA_VERSION :: ?x) with ([BACKEND_METADATA_VERSION] ++ x).
  slices. unfold ServiceKey.decode. rewrite Hk. done.
Qed.

Lemma decode_split b m :
  decode b = Ok m ->
  exists k a p s, b = [BACKEND_METADATA_VERSION] ++ k ++ a ++ p ++ s
    /\ array_ok 32 k /\ blen a = 4 /\ blen p = 4 /\ blen s = 4.
Proof.
  unfold decode, ENCODED_LEN. intros H. result_inv1. result_inv1. to_prop. clear H.
  destruct (chop 1 b) as (v & b1 & -> & Hv); [blia|].
  destruct (chop 32 b1) as (k & b2 & -> & Hk); [blia|].
  destruct (chop 4 b2) as (a & b3 & -> & Ha); [blia|].
  destruct (chop 4 b3) as (p & s & -> & Hp); [blia|].
  apply blen_1_inv in Hv as [c ->]. exists k, a, p, s. simpl in *.
  split; [by f_equal|]. repeat split; try done. blia.
Qed.

#[export] Instance canonical : CanonicalCodec t WireError valid.
Proof.
  split.
  - intros m b (Hk & Ha & Hp & Hs) [= <-] _. unfold decode_of, codec, encode.
    destruct m as [k a p s]. simpl in *. subst p s.
    etransitivity; [apply backend_metadata_decode_fields; try done; apply blen_to_le_bytes|].
    by rewrite !from_to_u32 by (unfold u32_ok, U32_MAX, BACKEND_PLANNER_VERSION,
      BACKEND_MANAGED_STATE_VERSION in *; lia).
  - intros b m H. pose proof H as (k & a & p & s & -> & Hk & Ha & Hp & Hs)%decode_split.
    change (decode ([BACKEND_METADATA_VERSION] ++ k ++ a ++ p ++ s) = Ok m) in H.
    rewrite backend_metadata_decode_fields in H by done. result_inv. to_prop.
    destruct (yields_le 4 _ a Ha eq_refl) as [Ea Ra].
    destruct (yields_le 4 _ p Hp eq_refl) as [Ep _].
    destruct (yields_le 4 _ s Hs eq_refl) as [Es _].
    split; [split; [done|]; split; [unfold u32_ok, U32_MAX; simpl in Ra; simpl; lia|done]|].
    unfold encode_of, codec, encode. simpl. by rewrite <- Ea, <- Ep, <- Es.
Qed.
End BackendMetadata.

(** ** Planner envelopes *)

Module Planner.
Definition encode_planner_need_state (key : bytes) : result bytes WireError :=
  bail_if blen key >? MAX_STATE_KEY_BYTES with TooManyItems ;;
  let? length := ok_or (u32_try_from (blen key)) LengthOverflow in
  Ok (PLANNER_NEED_STATE_MAGIC ++ [PLANNER_NEED_STATE_VERSION] ++ to_le_bytes 4 length ++ key).

Definition decode_planner_need_state (b : bytes) : result bytes WireError :=
  bail_if (blen b <? 9) || (blen b >? MAX_PLANNER_OUTPUT_BYTES) with InvalidLength ;;
  bail_if negb (bool_decide (b_slice b 0 4 = PLANNER_NEED_STATE_MAGIC))
          || negb (bool_decide (b_at b 4 = PLANNER_NEED_STATE_VERSION)) with InvalidEncoding ;;
  let length := from_le_bytes (b_slice b 5 9) in
  bail_if (length >? MAX_STATE_KEY_BYTES) || negb (blen b =? 9 + length) with InvalidEncoding ;;
  Ok (b_from b 9).

Definition encode_planner_need_external_state (service_id : Z) (key : bytes)
    : result bytes WireError :=
  bail_if blen key >? MAX_STATE_KEY_BYTES with TooManyItems ;;
  let? length := ok_or (u32_try_from (blen key)) LengthOverflow in
  Ok (PLANNER_NEED_EXTERNAL_STATE_MAGIC ++ [PLANNER_NEED_STATE_VERSION]
      ++ to_le_bytes 4 service_id ++ to_le_bytes 4 length ++ key).

Definition decode_planner_need_external_state (b : bytes) : result (Z * bytes) WireError :=
  bail_if (blen b <? 13) || (blen b >? MAX_PLANNER_OUTPUT_BYTES + 4) with InvalidLength ;;
  bail_if negb (bool_decide (b_slice b 0 4 = PLANNER_NEED_EXTERNAL_STATE_MAGIC))
          || negb (bool_decide (b_at b 4 = PLANNER_NEED_STATE_VERSION)) with InvalidEncoding ;;
  let service_id := from_le_bytes (b_slice b 5 9) in
  let length := from_le_bytes (b_slice b 9 13) in
  bail_if (length >? MAX_STATE_KEY_BYTES) || negb (blen b =? 13 + length) with InvalidEncoding ;;
  Ok (service_id, b_from b 13).

Lemma encode_need_state_Ok key b :
  encode_planner_need_state key = Ok b <->
  blen key <= MAX_STATE_KEY_BYTES
  /\ b = PLANNER_NEED_STATE_MAGIC ++ [PLANNER_NEED_STATE_VERSION] ++ fmt_bytes_u32 key.
Proof.
  unfold encode_planner_need_state, u32_try_from, try_from_max, fmt_bytes_u32.
  rewrite Z.gtb_ltb. destruct (Z.ltb_spec MAX_STATE_KEY_BYTES (blen key)); simpl.
  { split; [done|]. lia. }
  destruct (Z.leb_spec (blen key) U32_MAX); [|unfold_limits; lia].
  simpl. naive_solver.
Qed.

Lemma encode_need_external_state_Ok service_id key b :
  encode_planner_need_external_state service_id key = Ok b <->
  blen key <= MAX_STATE_KEY_BYTES
  /\ b = PLANNER_NEED_EXTERNAL_STATE_MAGIC ++ [PLANNER_NEED_STATE_VERSION]
         ++ to_le_bytes 4 service_id ++ fmt_bytes_u32 key.
Proof.
  unfold encode_planner_need_external_state, u32_try_from, try_from_max, fmt_bytes_u32.
  rewrite Z.gtb_ltb. destruct (Z.ltb_spec MAX_STATE_KEY_BYTES (blen key)); simpl.
  { split; [done|]. lia. }
  destruct (Z.leb_spec (blen key) U32_MAX); [|unfold_limits; lia].
  simpl. naive_solver.
Qed.

(** The two decoders on an input cut at its field boundaries. *)
Lemma decode_need_state_fields mg v l key :
  blen mg = 4 -> blen l = 4 ->
  decode_planner_need_state (mg ++ [v] ++ l ++ key) =
  bail_if blen key >? MAX_STATE_KEY_BYTES with InvalidLength ;;
  bail_if negb (bool_decide (mg = PLANNER_NEED_STATE_MAGIC))
          || negb (bool_decide (v = PLANNER_NEED_STATE_VERSION)) with InvalidEncoding ;;
  bail_if (from_le_bytes l >? MAX_STATE_KEY_BYTES) || negb (blen key =? from_le_bytes l)
    with InvalidEncoding ;;
  Ok key.
Proof.
  intros Hm Hl. unfold decode_planner_need_state, MAX_PLANNER_OUTPUT_BYTES.
  assert (b_at (mg ++ [v] ++ l ++ key) 4 = v) as ->.
  { unfold b_at, blen in *. rewrite app_nth2 by lia.
    replace (Z.to_nat 4 - length mg)%nat with 0%nat by lia. done. }
  slices. rewrite !Z.gtb_ltb.
  replace (blen (mg ++ [v] ++ l ++ key)) with (9 + blen key) by blia.
  replace (9 + blen key <? 9) with false by (symmetry; apply Z.ltb_ge; blia).
  replace (9 + blen key =? 9 + from_le_bytes l) with (blen key =? from_le_bytes l)
    by (destruct (Z.eqb_spec (blen key) (from_le_bytes l)), (Z.eqb_spec (9 + blen key) (9 + from_le_bytes l)); lia).
  cbn [orb]. destruct (Z.ltb_spec (4 + 1 + 4 + MAX_STATE_KEY_BYTES) (9 + blen key)),
    (Z.ltb_spec MAX_STATE_KEY_BYTES (blen key)); try lia; done.
Qed.

Lemma decode_need_external_state_fields mg v s l key :
  blen mg = 4 -> blen s = 4 -> blen l = 4 ->
  decode_planner_need_external_state (mg ++ [v] ++ s ++ l ++ key) =
  bail_if blen key >? MAX_STATE_KEY_BYTES with InvalidLength ;;
  bail_if negb (bool_decide (mg = PLANNER_NEED_EXTERNAL_STATE_MAGIC))
          || negb (bool_decide (v = PLANNER_NEED_STATE_VERSION)) with InvalidEncoding ;;
  bail_if (from_le_bytes l >? MAX_STATE_KEY_BYTES) || negb (blen key =? from_le_bytes l)
    with InvalidEncoding ;;
  Ok (from_le_bytes s, key).
Proof.
  intros Hm Hs Hl. unfold decode_planner_need_external_state, MAX_PLANNER_OUTPUT_BYTES.
  assert (b_at (mg ++ [v] ++ s ++ l ++ key) 4 = v) as ->.
  { unfold b_at, blen in *. rewrite app_nth2 by lia.
    replace (Z.to_nat 4 - length mg)%nat with 0%nat by lia. done. }
  slices. rewrite !Z.gtb_ltb.
  replace (blen (mg ++ [v] ++ s ++ l ++ key)) with (13 + blen key) by blia.
  replace (13 + blen key <? 13) with false by (symmetry; apply Z.ltb_ge; blia).
  replace (13 + blen key =? 13 + from_le_bytes l) with (blen key =? from_le_bytes l)
    by (destruct (Z.eqb_spec (blen key) (from_le_bytes l)), (Z.eqb_spec (13 + blen key) (13 + from_le_bytes l)); lia).
  cbn [orb]. destruct (Z.ltb_spec (4 + 1 + 4 + MAX_STATE_KEY_BYTES + 4) (13 + blen key)),
    (Z.ltb_spec MAX_STATE_KEY_BYTES (blen key)); try lia; done.
Qed.

Lemma need_state_exact b key :
  decode_planner_need_state b = Ok key <-> encode_planner_need_state key = Ok b.
Proof.
  split.
  - intros H. assert (9 <= blen b) as Hlen.
    { unfold decode_planner_need_state in H. result_inv1. to_prop. lia. }
    destruct (chop 4 b) as (mg & b1 & -> & Hm); [blia|].
    destruct (chop 1 b1) as (v & b2 & -> & Hv); [blia|].
    destruct (chop 4 b2) as (l & k & -> & Hl); [blia|].
    apply blen_1_inv in Hv as [c ->]. rewrite decode_need_state_fields in H by done.
    result_inv. to_prop. subst. apply encode_need_state_Ok.
    split; [lia|]. unfold fmt_bytes_u32. do 3 f_equal.
    destruct (yields_le 4 (blen key) l Hl) as [-> _]; congruence.
  - intros [Hk ->]%encode_need_state_Ok. unfold fmt_bytes_u32.
    pose proof (blen_nonneg key).
    rewrite decode_need_state_fields; [|done|apply blen_to_le_bytes].
    rewrite from_to_u32 by (unfold_limits; lia). rewrite !Z.gtb_ltb.
    replace (MAX_STATE_KEY_BYTES <? blen key) with false by (symmetry; by apply Z.ltb_ge).
    rewrite Z.eqb_refl. done.
Qed.

Lemma need_external_state_exact b service_id key :
  decode_planner_need_external_state b = Ok (service_id, key)
  <-> u32_ok service_id /\ encode_planner_need_external_state service_id key = Ok b.
Proof.
  split.
  - intros H. assert (13 <= blen b) as Hlen.
    { unfold decode_planner_need_external_state in H. result_inv1. to_prop. lia. }
    destruct (chop 4 b) as (mg & b1 & -> & Hm); [blia|].
    destruct (chop 1 b1) as (v & b2 & -> & Hv); [blia|].
    destruct (chop 4 b2) as (s & b3 & -> & Hs); [blia|].
    destruct (chop 4 b3) as (l & k & -> & Hl); [blia|].
    apply blen_1_inv in Hv as [c ->]. rewrite decode_need_external_state_fields in H by done.
    result_inv. to_prop. subst.
    destruct (yields_le 4 _ s Hs eq_refl) as [Es Rs].
    split; [unfold_limits; simpl in Rs; lia|].
    apply encode_need_external_state_Ok. split; [lia|].
    rewrite <- Es. unfold fmt_bytes_u32. do 3 f_equal. f_equal.
    destruct (yields_le 4 (blen key) l Hl) as [-> _]; congruence.
  - intros [Hs [Hk ->]%encode_need_external_state_Ok]. unfold fmt_bytes_u32.
    pose proof (blen_nonneg key).
    rewrite decode_need_external_state_fields; [|done|apply blen_to_le_bytes..].
    rewrite !from_to_u32 by (unfold_limits; lia). rewrite !Z.gtb_ltb.
    replace (MAX_STATE_KEY_BYTES <? blen key) with false by (symmetry; by apply Z.ltb_ge).
    rewrite Z.eqb_refl. done.
Qed.
End Planner.

(** ** [ManagedStateCommitmentV1] *)

Module Commitment.
Record t := mk { protocol_version : byte; layout_version : byte; root : bytes }.

Definition EMPTY : t :=
  mk MANAGED_STATE_PROTOCOL_VERSION MANAGED_STATE_LAYOUT_VERSION EMPTY_STATE_ROOT_V1.
Definition new (root : bytes) : t :=
  mk MANAGED_STATE_PROTOCOL_VERSION MANAGED_STATE_LAYOUT_VERSION root.

Definition encode (c : t) : bytes := [protocol_version c] ++ [layout_version c] ++ root c.

Definition decode (b : bytes) : result t WireError :=
  bail_if negb (blen b =? 34) with InvalidLength ;;
  let value := mk (b_at b 0) (b_at b 1) (b_from b 2) in
  bail_if negb (bool_decide (protocol_version value = MANAGED_STATE_PROTOCOL_VERSION))
          || negb (bool_decide (layout_version value = MANAGED_STATE_LAYOUT_VERSION))
    with UnsupportedVersion ;;
  Ok value.

Definition valid (c : t) : Prop :=
  protocol_version c = MANAGED_STATE_PROTOCOL_VERSION
  /\ layout_version c = MANAGED_STATE_LAYOUT_VERSION /\ array_ok 32 (root c).

#[export] Instance codec : Codec t WireError :=
  {| encode_of c := Ok (encode c); decode_of := decode |}.

Lemma decode_new r : array_ok 32 r -> decode (encode (new r)) = Ok (new r).
Proof.
  unfold array_ok. intros Hr. unfold decode, encode, new. cbn [app protocol_version layout_version root].
  replace (blen _ =? 34) with true by (symmetry; apply Z.eqb_eq; blia). done.
Qed.

#[export] Instance canonical : CanonicalCodec t WireError valid.
Proof.
  split.
  - intros [p l r] b (Hp & Hl & Hr) [= <-] _. simpl in *. subst. by apply decode_new.
  - intros b c. unfold decode_of, codec, decode. intros H. result_inv. to_prop.
    destruct b as [|p [|l r]]; [done|done|]. simpl in *. unfold b_from, b_at in *. simpl in *.
    split; [split; [done|]; split; [done|]|done].
    unfold array_ok. cbn [root]. rewrite drop_0. blia.
Qed.
End Commitment.

(** ** What the fixed records guarantee *)

(** Application keys are injective in (namespace, user key), never collide
    with a runtime-internal key, and neither class can spell a reserved
    service-storage key, so the key classes of one trie are disjoint. *)
Theorem key_space_separation (ns k x : bytes) :
  Keys.application_key_v1 ns k = Ok x ->
  (forall ns' k', Keys.application_key_v1 ns' k' = Ok x -> ns' = ns /\ k' = k)
  /\ (forall module module_key,
        Keys.runtime_internal_key_v1 module module_key <> x
        /\ Keys.is_reserved_service_storage_key (Keys.runtime_internal_key_v1 module module_key) = false)
  /\ Keys.is_reserved_service_storage_key x = false.
Proof.
  intros Hx. split; [intros ns' k' H; by eapply Keys.application_key_v1_inj|].
  pose proof Hx as [_ ->]%Keys.application_key_v1_Ok. split.
  - intros m mk. split; [done|]. apply Keys.class_key_not_reserved. by left.
  - apply Keys.class_key_not_reserved. by right.
Qed.

Lemma key_space_separation_witness :
  Keys.application_key_v1 (bstr "best-score/v1") [x09; x09]
  = Ok ([x01; x0d; x00] ++ bstr "best-score/v1" ++ [x09; x09])
  /\ Keys.is_reserved_service_storage_key ([x01; x0d; x00] ++ bstr "best-score/v1" ++ [x09; x09]) = false.
Proof.
  split; [vm_compute; reflexivity|].
  exact (proj2 (proj2 (key_space_separation (bstr "best-score/v1") [x09; x09] _
    (eq_refl : Keys.application_key_v1 (bstr "best-score/v1") [x09; x09]
       = Ok ([x01; x0d; x00] ++ bstr "best-score/v1" ++ [x09; x09]))))).
Defined.

(** Both planner envelopes are exact: a byte string decodes to a request if
    and only if it is the encoding of that request, and a need-state envelope
    is never read as a need-external-state envelope. *)
Theorem planner_envelopes_exact :
  (forall b key, Planner.decode_planner_need_state b = Ok key
                 <-> Planner.encode_planner_need_state key = Ok b)
  /\ (forall b service_id key,
        Planner.decode_planner_need_external_state b = Ok (service_id, key)
        <-> u32_ok service_id
            /\ Planner.encode_planner_need_external_state service_id key = Ok b)
  /\ (forall b key r, Planner.decode_planner_need_state b = Ok key ->
        Planner.decode_planner_need_external_state b <> Ok r).
Proof.
  split; [|split].
  - exact Planner.need_state_exact.
  - exact Planner.need_external_state_exact.
  - intros b key r H1 H2. destruct r as [service_id key'].
    apply Planner.need_state_exact, Planner.encode_need_state_Ok in H1 as [_ ->].
    apply Planner.need_external_state_exact in H2 as [_ [_ Heq]%Planner.encode_need_external_state_Ok].
    by apply app_inj_1 in Heq as [Heq _].
Qed.

(** The deployed-artifact metadata and the 34-byte commitment are exact
    records: a byte string decodes to a value if and only if the value is well
    formed (array length, [u32] range, supported versions) and the bytes are
    its encoding; the commitment is always 34 bytes long. *)
Theorem fixed_records_exact :
  (forall b m, BackendMetadata.decode b = Ok m
               <-> BackendMetadata.valid m /\ b = BackendMetadata.encode m)
  /\ (forall b c, Commitment.decode b = Ok c <-> Commitment.valid c /\ b = Commitment.encode c)
  /\ (forall c, Commitment.valid c -> blen (Commitment.encode c) = 34).
Proof.
  split; [|split].
  - intros b m. split.
    + intros [? [= <-]]%(codec_sound (CanonicalCodec := BackendMetadata.canonical)). done.
    + intros [Hv ->]. apply (codec_complete (CanonicalCodec := BackendMetadata.canonical)); try done.
      destruct Hv as (Hk & _). unfold BackendMetadata.encode, array_ok in *. unfold_limits. blia.
  - intros b c. split.
    + intros [? [= <-]]%(codec_sound (CanonicalCodec := Commitment.canonical)). done.
    + intros [Hv ->]. apply (codec_complete (CanonicalCodec := Commitment.canonical)); try done.
      destruct Hv as (_ & _ & Hr). unfold Commitment.encode, array_ok in *. unfold_limits. blia.
  - intros c (_ & _ & Hr). unfold Commitment.encode, array_ok in *. blia.
Qed.
