(* ===== verification/StateView.v ===== *)
(** * Keyed entries and [StateViewV1]

    A state view is the read-only snapshot a script action receives: a sorted
    list of keys with their values, [None] for a key proven absent.  A state
    diff is the same list with [None] for a deletion; the entry format they
    share is at the top. *)

From S2P Require Import Prelude Ordering Reader Wire.

Record entry := mkEntry { key : bytes; value : option bytes }.
Notation StateViewEntryV1 := entry.
Notation StateChangeV1 := entry.

#[export] Instance entry_eq_dec : EqDecision entry.
Proof. solve_decision. Defined.

(** ** One entry on the wire *)

Definition write_entry (w : Writer.t) (e : entry) : result Writer.t WireError :=
  let? w := Writer.bytes_u32 w (key e) in
  match value e with
  | None => Ok (Writer.u8 w x00)
  | Some v => Writer.bytes_u32 (Writer.u8 w x01) v
  end.

Definition read_entry : parser WireError entry :=
  key ← Rd.bytes_limited MAX_STATE_KEY_BYTES;
  tag ← Rd.u8;
  value ← match b2z tag with
          | 0 => mret None
          | 1 => v ← Rd.bytes_limited MAX_STATE_VALUE_BYTES; mret (Some v)
          | _ => pfail InvalidEncoding
          end;
  mret (mkEntry key value).

Definition fmt_value (o : option bytes) : bytes :=
  match o with
  | None => [x00]
  | Some v => [x01] ++ fmt_bytes_u32 v
  end.
Definition fmt_entry (e : entry) : bytes := fmt_bytes_u32 (key e) ++ fmt_value (value e).

(** The limits every key and value obeys. *)
Definition entry_ok (e : entry) : Prop :=
  blen (key e) <= MAX_STATE_KEY_BYTES
  /\ match value e with Some v => blen v <= MAX_STATE_VALUE_BYTES | None => True end.

Definition entry_writable (e : entry) : Prop :=
  blen (key e) <= U32_MAX /\ match value e with Some v => blen v <= U32_MAX | None => True end.

Lemma entry_ok_writable e : entry_ok e -> entry_writable e.
Proof. intros [Hk Hv]. split; [unfold_limits; lia|]. destruct (value e); [unfold_limits; lia|done]. Qed.

Lemma write_entry_Ok w e w' :
  write_entry w e = Ok w' <-> entry_writable e /\ Writer.buf w' = Writer.buf w ++ fmt_entry e.
Proof.
  unfold write_entry, fmt_entry, entry_writable, fmt_value. destruct e as [k [v|]]; cbn [key value].
  - split.
    + intros H. result_inv. rewrite !writer_bytes_u32_Ok in *. destruct_and!. simpl in *.
      split; [done|]. match goal with H : Writer.buf w' = _ |- _ => rewrite H end.
      match goal with H : Writer.buf _ = Writer.buf w ++ _ |- _ => rewrite H end.
      by rewrite <- !(app_assoc (Writer.buf w)), <- !(app_assoc (fmt_bytes_u32 k)).
    + intros ((Hk & Hv) & Hb). set (w1 := Writer.mk (Writer.buf w ++ fmt_bytes_u32 k)).
      assert (Writer.bytes_u32 w k = Ok w1) as -> by (by apply writer_bytes_u32_Ok).
      simpl. apply writer_bytes_u32_Ok. split; [done|]. rewrite Hb. simpl.
      by rewrite <- !(app_assoc (Writer.buf w)), <- !(app_assoc (fmt_bytes_u32 k)).
  - split.
    + intros H. result_inv. rewrite !writer_bytes_u32_Ok in *. destruct_and!. simpl in *.
      split; [done|]. match goal with H : Writer.buf _ = Writer.buf w ++ _ |- _ => rewrite H end.
      by rewrite (assoc_L (++)).
    + intros ((Hk & _) & Hb). set (w1 := Writer.mk (Writer.buf w ++ fmt_bytes_u32 k)).
      assert (Writer.bytes_u32 w k = Ok w1) as -> by (by apply writer_bytes_u32_Ok).
      simpl. f_equal. destruct w' as [b]. simpl in *. subst b. unfold Writer.u8, w1. simpl.
      by rewrite (assoc_L (++)).
Qed.

Lemma parses_entry e : entry_ok e -> parses read_entry (fmt_entry e) e.
Proof.
  intros He. pose proof (entry_ok_writable e He) as [Wk Wv]. destruct He as [Hk Hv].
  unfold read_entry, fmt_entry. parse_field; [by apply parses_bytes_limited|].
  destruct e as [k [v|]]; simpl in *.
  - change (x01 :: fmt_bytes_u32 v) with ([x01] ++ fmt_bytes_u32 v).
    parse_field; [apply parses_u8|]. rewrite <- (app_nil_r (fmt_bytes_u32 v)).
    parse_field; [|apply parses_ret]. change (b2z x01) with 1. cbv iota.
    rewrite <- (app_nil_r (fmt_bytes_u32 v)).
    parse_field; [by apply parses_bytes_limited|apply parses_ret].
  - change [x00] with ([x00] ++ []). parse_field; [apply parses_u8|].
    change (b2z x00) with 0. cbv iota.
    eapply parses_bind0; [apply parses_ret|apply parses_ret].
Qed.

(** The values of a tag byte a decoder accepts. *)
Lemma tag_0 t : b2z t = 0 -> t = x00.
Proof. intros H. by apply b2z_inj. Qed.
Lemma tag_1 t : b2z t = 1 -> t = x01.
Proof. intros H. by apply b2z_inj. Qed.

Lemma yields_entry : yields read_entry (fun x e => x = fmt_entry e /\ entry_ok e).
Proof.
  unfold read_entry. yield_field. intros k x (-> & Hk & _).
  yield_field. intros t y ->.
  apply yields_bind with (Q := fun z o => [t] ++ z = fmt_value o
    /\ match o with Some v => blen v <= MAX_STATE_VALUE_BYTES | None => True end).
  - destruct (b2z t) as [|[| |]|] eqn:Ht; try apply yields_fail.
    + apply yields_ret. by apply tag_0 in Ht as ->.
    + apply tag_1 in Ht as ->. yield_field. intros v z (-> & Hv & _). apply yields_ret.
      by rewrite app_nil_r.
  - intros o z [Hz Ho]. apply yields_ret. rewrite !app_nil_r. unfold fmt_entry, entry_ok. cbn [key value].
    by rewrite Hz.
Qed.
#[export] Hint Resolve yields_entry : yields.

Lemma parses_entries es :
  Forall entry_ok es -> parses (prepeat (length es) read_entry) (concat (map fmt_entry es)) es.
Proof.
  intros Hes. apply parses_repeat. intros e He. apply parses_entry. by eapply Forall_forall.
Qed.

Lemma yields_entries n :
  yields (prepeat n read_entry)
    (fun x es => x = concat (map fmt_entry es) /\ Forall entry_ok es /\ length es = n).
Proof.
  eapply yields_mono; [apply yields_repeat, yields_entry|].
  intros x es (xs & -> & H & Hn). apply concat_map_Forall2 in H as [-> H]. done.
Qed.
#[export] Hint Resolve yields_entries : yields.

Lemma write_entries w es w' :
  rfold write_entry w es = Ok w' ->
  Writer.buf w' = Writer.buf w ++ concat (map fmt_entry es).
Proof.
  intros H. by apply (rfold_append Writer.buf write_entry fmt_entry entry_writable write_entry_Ok) in H
    as [_ ?].
Qed.

Lemma write_entries_total w es :
  Forall entry_ok es ->
  exists w', rfold write_entry w es = Ok w'
    /\ Writer.buf w' = Writer.buf w ++ concat (map fmt_entry es).
Proof.
  intros Hes. destruct (rfold_total write_entry entry_ok) with (l := es) (s := w) as [w' Hw']; [|done|].
  - intros s e He. exists (Writer.mk (Writer.buf s ++ fmt_entry e)).
    apply write_entry_Ok. split; [by apply entry_ok_writable|done].
  - exists w'. split; [done|]. by apply write_entries.
Qed.

(** A counted list of entries behind a version byte. *)
Definition fmt_entries (version : byte) (es : list entry) : bytes :=
  [version] ++ to_le_bytes 4 (blen es) ++ concat (map fmt_entry es).

(** ** [StateViewV1] *)

Module StateView.
Record t := mk { version : byte; entries : list StateViewEntryV1 }.

Definition default : t := mk STATE_VIEW_VERSION [].

Definition check_limits (e : entry) : result unit WireError :=
  bail_if (blen (key e) >? MAX_STATE_KEY_BYTES)
          || match value e with Some v => blen v >? MAX_STATE_VALUE_BYTES | None => false end
    with TooManyItems ;;
  Ok tt.

Definition validate_canonical (view : t) : result unit WireError :=
  bail_if negb (bool_decide (version view = STATE_VIEW_VERSION)) with UnsupportedVersion ;;
  bail_if blen (entries view) >? MAX_STATE_VIEW_ENTRIES with TooManyItems ;;
  let? _ := rfor check_limits (entries view) in
  check_windows key DuplicateKey UnsortedKeys (entries view).

Definition from_entries (es : list entry) : result t WireError :=
  let view := mk STATE_VIEW_VERSION (sort_by_key key es) in
  let? _ := validate_canonical view in
  Ok view.

(** [get]: [None] when the key is not part of the view, [Some None] when it
    was proven absent. *)
Definition get (view : t) (k : bytes) : option (option bytes) :=
  match binary_search key k (entries view) with
  | Some index => value <$> (entries view) !! index
  | None => None
  end.

Definition encode (view : t) : result bytes WireError :=
  let? _ := validate_canonical view in
  let w := Writer.u8 Writer.new (version view) in
  let? count := ok_or (u32_try_from (blen (entries view))) LengthOverflow in
  let w := Writer.u32 w count in
  let? w := rfold write_entry w (entries view) in
  let encoded := Writer.finish w in
  bail_if blen encoded >? MAX_STATE_VIEW_BYTES with TooManyItems ;;
  Ok encoded.

Definition parse : parser WireError t :=
  version ← Rd.u8;
  pbail (negb (bool_decide (version = STATE_VIEW_VERSION))) UnsupportedVersion;;
  count ← Rd.u32;
  pbail (count >? MAX_STATE_VIEW_ENTRIES) TooManyItems;;
  entries ← prepeat (Z.to_nat count) read_entry;
  mret (mk version entries).

Definition decode (b : bytes) : result t WireError :=
  bail_if blen b >? MAX_STATE_VIEW_BYTES with TooManyItems ;;
  let? view := run_to_end InvalidEncoding parse b in
  let? _ := validate_canonical view in
  Ok view.

(** *** Specification *)

Definition canonical (view : t) : Prop :=
  version view = STATE_VIEW_VERSION /\ blen (entries view) <= MAX_STATE_VIEW_ENTRIES
  /\ Forall entry_ok (entries view) /\ key_ssorted key (entries view).

Lemma state_view_check_limits_Ok e : check_limits e = Ok tt <-> entry_ok e.
Proof.
  unfold check_limits, entry_ok. rewrite bail_if_Ok, orb_false_iff, !Z.gtb_ltb, Z.ltb_ge.
  destruct (value e); [rewrite Z.gtb_ltb, Z.ltb_ge|]; naive_solver.
Qed.

Lemma state_view_validate_canonical_Ok view : validate_canonical view = Ok tt <-> canonical view.
Proof.
  unfold validate_canonical, canonical. rewrite !bail_if_Ok.
  rewrite negb_false_iff, bool_decide_eq_true, Z.gtb_ltb, Z.ltb_ge.
  rewrite <- (check_windows_Ok key DuplicateKey UnsortedKeys).
  assert (Forall entry_ok (entries view) <-> rfor check_limits (entries view) = Ok tt) as ->.
  { rewrite rfor_Ok. apply Forall_iff. intros e. by rewrite state_view_check_limits_Ok. }
  destruct (rfor check_limits (entries view)) as [[]|]; simpl; naive_solver.
Qed.

Definition fmt (view : t) : bytes := fmt_entries (version view) (entries view).

Lemma state_view_encode_Ok view b :
  encode view = Ok b <-> canonical view /\ b = fmt view /\ blen b <= MAX_STATE_VIEW_BYTES.
Proof.
  unfold encode. split.
  - intros H. result_inv. to_prop.
    match goal with H : validate_canonical _ = _ |- _ => apply state_view_validate_canonical_Ok in H end.
    unfold u32_try_from, try_from_max in *. case_match; simplify_eq.
    match goal with H : rfold _ _ _ = Ok _ |- _ => apply write_entries in H end.
    simpl in *. split; [done|]. unfold Writer.finish in *.
    match goal with H : Writer.buf _ = _ |- _ => rewrite H in * end.
    split; [|lia]. unfold fmt, fmt_entries. done.
  - intros (Hc & -> & Hlen). pose proof Hc as (_ & Hn & Hes & _).
    apply state_view_validate_canonical_Ok in Hc as ->. simpl.
    unfold u32_try_from, try_from_max.
    destruct (Z.leb_spec (blen (entries view)) U32_MAX); [|unfold_limits; lia]. simpl.
    destruct (write_entries_total (Writer.u32 (Writer.u8 Writer.new (version view))
      (blen (entries view))) _ Hes) as (w' & -> & Hw). simpl.
    unfold Writer.finish. rewrite Hw. simpl in *.
    change (version view :: _ ++ _) with (fmt view). rewrite Z.gtb_ltb. by rewrite (proj2 (Z.ltb_ge _ _) Hlen).
Qed.

Lemma state_view_parses_parse view : canonical view -> parses parse (fmt view) view.
Proof.
  intros (Hv & Hn & Hes & _). unfold parse, fmt, fmt_entries.
  pose proof (blen_nonneg (entries view)).
  parse_field; [apply parses_u8|].
  parse_field; [by rewrite bool_decide_eq_true_2|].
  parse_field; [apply parses_u32; unfold_limits; lia|].
  parse_field; [rewrite Z.gtb_ltb; by apply Z.ltb_ge|].
  rewrite <- (app_nil_r (concat _)). unfold blen at 1. rewrite Nat2Z.id.
  parse_field; [by apply parses_entries|].
  destruct view; apply parses_ret.
Qed.

Lemma state_view_yields_parse : yields parse (fun x view => x = fmt view).
Proof.
  unfold parse. yield_field. intros v x ->. yield_field. intros [] x [-> Hv]. to_prop.
  yield_field. intros n x [-> Hn]. yield_field. intros [] x [-> Hc]. to_prop.
  yield_field. intros es x (-> & Hes & Hlen). apply yields_ret.
  rewrite !app_nil_r. unfold fmt, fmt_entries. simpl. unfold blen. rewrite Hlen, Z2Nat.id; [done|].
  apply Hn.
Qed.

Lemma state_view_decode_iff b view : slice_ok b -> (decode b = Ok view <-> encode view = Ok b).
Proof.
  intros Hb. rewrite state_view_encode_Ok. unfold decode. split.
  - intros H. result_inv. to_prop.
    match goal with H : validate_canonical _ = _ |- _ => apply state_view_validate_canonical_Ok in H end.
    match goal with H : run_to_end _ _ _ = _ |- _ => apply (run_to_end_yields _ _ _ _ _ state_view_yields_parse) in H end.
    split; [done|]. split; [done|lia].
  - intros (Hc & -> & Hlen). rewrite Z.gtb_ltb, (proj2 (Z.ltb_ge _ _) Hlen).
    rewrite (run_to_end_parses _ _ _ view) by (try done; by apply state_view_parses_parse). simpl.
    by apply state_view_validate_canonical_Ok in Hc as ->.
Qed.

Lemma get_spec view k v :
  key_ssorted key (entries view) ->
  get view k = Some v <-> mkEntry k v ∈ entries view.
Proof.
  intros Hs. unfold get. split.
  - destruct (binary_search key k (entries view)) as [i|] eqn:Hb; [|done].
    apply binary_search_sound in Hb as ([k' v'] & Hi & Hk). rewrite Hi. simpl in *.
    intros [= <-]. subst k'. by eapply list_elem_of_lookup_2.
  - intros (i & Hi)%list_elem_of_lookup_1.
    rewrite (binary_search_complete key k _ i (mkEntry k v)) by done. by rewrite Hi.
Qed.

Lemma from_entries_canonical es view :
  from_entries es = Ok view -> canonical view /\ entries view = sort_by_key key es.
Proof.
  unfold from_entries. intros H. result_inv.
  by match goal with H : validate_canonical _ = _ |- _ => apply state_view_validate_canonical_Ok in H end.
Qed.
End StateView.

(** The state-view decoder accepts exactly the canonical encodings: on every
    byte slice, decoding returns a view if and only if encoding that view
    returns those bytes (so trailing bytes, unknown tags, unsorted or repeated
    keys and over-limit entries are all refused, and no view has two
    encodings). *)
Theorem state_view_codec_exact (b : bytes) (view : StateView.t) :
  slice_ok b -> (StateView.decode b = Ok view <-> StateView.encode view = Ok b).
Proof. apply StateView.state_view_decode_iff. Qed.

Definition sample_view : StateView.t :=
  StateView.mk x01 [mkEntry [x01; x02] (Some [x07]); mkEntry [x01; x03] None].

Lemma state_view_codec_exact_witness :
  exists b, StateView.encode sample_view = Ok b /\ StateView.decode b = Ok sample_view.
Proof.
  exists ([x01; x02; x00; x00; x00] ++ [x02; x00; x00; x00; x01; x02; x01; x01; x00; x00; x00; x07]
          ++ [x02; x00; x00; x00; x01; x03; x00]).
  split; [vm_compute; reflexivity|].
  apply state_view_codec_exact; [vm_compute; discriminate|vm_compute; reflexivity].
Defined.

(** Building a view from entries within the limits either fails with
    [DuplicateKey], when a key is repeated, or returns a view in which [get]
    (a binary search) finds exactly the given entries: [Some v] if and only if
    the pair was supplied, whatever the order of the input. *)
Theorem state_view_lookup (es : list entry) :
  Forall entry_ok es -> blen es <= MAX_STATE_VIEW_ENTRIES ->
  (NoDup (map key es) ->
     exists view, StateView.from_entries es = Ok view
       /\ forall k v, StateView.get view k = Some v <-> mkEntry k v ∈ es)
  /\ (~ NoDup (map key es) -> StateView.from_entries es = Err DuplicateKey).
Proof.
  intros Hes Hn. split.
  - intros Hnd. set (view := StateView.mk STATE_VIEW_VERSION (sort_by_key key es)).
    assert (StateView.canonical view) as Hc.
    { split; [done|]. split; [cbn; by rewrite blen_sort_by_key|].
      split; [by apply Forall_sort_by_key|by apply sort_by_key_ssorted]. }
    exists view. split.
    + unfold StateView.from_entries. fold view. by apply StateView.state_view_validate_canonical_Ok in Hc as ->.
    + intros k v. rewrite StateView.get_spec by apply Hc. simpl. by rewrite sort_by_key_perm.
  - intros Hnd. unfold StateView.from_entries, StateView.validate_canonical.
    cbn [StateView.entries StateView.version]. rewrite bool_decide_eq_true_2 by done. cbn [negb].
    rewrite blen_sort_by_key, Z.gtb_ltb, (proj2 (Z.ltb_ge _ _) Hn).
    assert (rfor StateView.check_limits (sort_by_key key es) = Ok tt) as ->.
    { apply rfor_Ok, Forall_sort_by_key. eapply Forall_impl; [exact Hes|].
      intros e He. by apply StateView.state_view_check_limits_Ok. }
    simpl. by rewrite check_windows_sort_dup.
Qed.

Lemma state_view_lookup_witness :
  exists view,
    StateView.from_entries [mkEntry [x01; x03] None; mkEntry [x01; x02] (Some [x07])] = Ok view
    /\ forall k v, StateView.get view k = Some v
         <-> mkEntry k v ∈ [mkEntry [x01; x03] None; mkEntry [x01; x02] (Some [x07])].
Proof.
  apply state_view_lookup.
  - repeat constructor; vm_compute; discriminate.
  - vm_compute; discriminate.
  - apply NoDup_cons. split; [|apply NoDup_singleton]. intros H%list_elem_of_singleton. discriminate.
Defined.
