(* ===== verification/StateDiff.v ===== *)
(** * State diffs

    [StateDiffV1] of [service-runtime-core]: the changes of a transition, their
    limits, canonical order, codec and hash. *)

From S2P Require Import Prelude Ordering Reader Wire ServiceKeys StateView.

(** The hash function is a third-party crate: a parameter with its output
    length. *)
Class Blake2 := blake2_256 : bytes -> bytes.
Class Blake2Len `{Blake2} : Prop := blake2_256_len : forall b, array_ok 32 (blake2_256 b).

(** ** [StateDiffV1] *)

Module StateDiff.
Record t := mk { changes : list StateChangeV1 }.

#[global] Instance eq_dec : EqDecision t.
Proof. solve_decision. Defined.

Definition check_limits (change : entry) : result unit WireError :=
  bail_if Keys.is_reserved_service_storage_key (key change) with ReservedKey ;;
  bail_if blen (key change) >? MAX_STATE_KEY_BYTES with TooManyItems ;;
  bail_if match value change with Some v => blen v >? MAX_STATE_VALUE_BYTES | None => false end
    with TooManyItems ;;
  Ok tt.

Definition validate_limits (d : t) : result unit WireError :=
  bail_if blen (changes d) >? MAX_RECOVERY_CHANGES with TooManyItems ;;
  rfor check_limits (changes d).

Definition validate_canonical (d : t) : result unit WireError :=
  let? _ := validate_limits d in
  check_windows key DuplicateKey UnsortedKeys (changes d).

(** [canonicalize] mutates in place: the new value and its verdict. *)
Definition canonicalize (d : t) : result t WireError :=
  let sorted := mk (sort_by_key key (changes d)) in
  let? _ := validate_canonical sorted in
  Ok sorted.

Definition encode_canonical_checked (d : t) : result bytes WireError :=
  let? _ := validate_canonical d in
  let? count := ok_or (u32_try_from (blen (changes d))) LengthOverflow in
  let w := Writer.u32 (Writer.u8 Writer.new MANAGED_STATE_PROTOCOL_VERSION) count in
  let? w := rfold write_entry w (changes d) in
  Ok (Writer.finish w).

Definition encode (d : t) : result bytes WireError :=
  let? _ := validate_limits d in
  let? canonical := canonicalize d in
  encode_canonical_checked canonical.

Definition parse : parser WireError t :=
  version ← Rd.u8;
  pbail (negb (bool_decide (version = MANAGED_STATE_PROTOCOL_VERSION))) UnsupportedVersion;;
  count ← Rd.u32;
  pbail (count >? MAX_RECOVERY_CHANGES) TooManyItems;;
  changes ← prepeat (Z.to_nat count) read_entry;
  mret (mk changes).

Definition decode (b : bytes) : result t WireError :=
  let? diff := run_to_end InvalidEncoding parse b in
  let? _ := validate_limits diff in
  let? sorted := canonicalize diff in
  bail_if negb (bool_decide (sorted = diff)) with UnsortedKeys ;;
  Ok diff.

Definition hash `{Blake2} (d : t) : result bytes WireError :=
  let? b := encode d in Ok (blake2_256 b).

(** *** Specification *)

Definition change_ok (e : entry) : Prop :=
  entry_ok e /\ Keys.is_reserved_service_storage_key (key e) = false.
Definition limits (d : t) : Prop :=
  blen (changes d) <= MAX_RECOVERY_CHANGES /\ Forall change_ok (changes d).
Definition canonical (d : t) : Prop := limits d /\ key_ssorted key (changes d).
Definition sorted (d : t) : t := mk (sort_by_key key (changes d)).
Definition fmt (d : t) : bytes := fmt_entries MANAGED_STATE_PROTOCOL_VERSION (changes d).

Lemma state_diff_check_limits_Ok e : check_limits e = Ok tt <-> change_ok e.
Proof.
  unfold check_limits, change_ok, entry_ok. rewrite !bail_if_Ok, !Z.gtb_ltb, Z.ltb_ge.
  destruct (value e); [rewrite Z.gtb_ltb, Z.ltb_ge|]; naive_solver.
Qed.

Lemma validate_limits_Ok d : validate_limits d = Ok tt <-> limits d.
Proof.
  unfold validate_limits, limits. rewrite bail_if_Ok, Z.gtb_ltb, Z.ltb_ge, rfor_Ok.
  assert (Forall (fun e => check_limits e = Ok tt) (changes d) <-> Forall change_ok (changes d)) as ->;
    [apply Forall_iff; intros e; apply state_diff_check_limits_Ok|done].
Qed.

Lemma state_diff_validate_canonical_Ok d : validate_canonical d = Ok tt <-> canonical d.
Proof.
  unfold validate_canonical, canonical. rewrite <- validate_limits_Ok.
  rewrite <- (check_windows_Ok key DuplicateKey UnsortedKeys).
  destruct (validate_limits d) as [[]|]; simpl; naive_solver.
Qed.

Lemma limits_perm d d' : changes d ≡ₚ changes d' -> limits d <-> limits d'.
Proof. intros Hp. unfold limits, blen. by rewrite Hp. Qed.

Lemma limits_sorted d : limits (sorted d) <-> limits d.
Proof. apply limits_perm. simpl. apply sort_by_key_perm. Qed.

Lemma canonical_sorted_id d : canonical d -> sorted d = d.
Proof.
  intros [_ Hs]. destruct d as [cs]. unfold sorted. simpl in *. f_equal.
  by apply sort_by_key_id, key_ssorted_sorted.
Qed.

Lemma sorted_perm d d' :
  NoDup (map key (changes d)) -> changes d' ≡ₚ changes d -> sorted d' = sorted d.
Proof.
  intros Hnd Hp. unfold sorted. f_equal. apply (key_ssorted_perm_eq key).
  - apply sort_by_key_ssorted. by rewrite Hp.
  - by apply sort_by_key_ssorted.
  - by rewrite !sort_by_key_perm.
Qed.

Lemma sorted_canonical d : limits d -> NoDup (map key (changes d)) -> canonical (sorted d).
Proof. intros Hl Hnd. split; [by apply limits_sorted|by apply sort_by_key_ssorted]. Qed.

Lemma state_diff_canonicalize_Ok d d' :
  canonicalize d = Ok d' <-> limits d /\ NoDup (map key (changes d)) /\ d' = sorted d.
Proof.
  unfold canonicalize. fold (sorted d). split.
  - intros H. result_inv.
    match goal with H : validate_canonical _ = _ |- _ => apply state_diff_validate_canonical_Ok in H as [Hl Hs] end.
    split; [by apply limits_sorted|]. split; [|done].
    apply key_ssorted_nodup in Hs. simpl in Hs. by rewrite sort_by_key_perm in Hs.
  - intros (Hl & Hnd & ->).
    by rewrite (proj2 (state_diff_validate_canonical_Ok (sorted d)) (sorted_canonical d Hl Hnd)).
Qed.

(** A repeated key is reported as such, whatever the order of the changes. *)
Lemma canonicalize_dup d :
  limits d -> ~ NoDup (map key (changes d)) -> canonicalize d = Err DuplicateKey.
Proof.
  intros Hl Hnd. unfold canonicalize, validate_canonical. fold (sorted d).
  apply limits_sorted, validate_limits_Ok in Hl as ->. simpl. by rewrite check_windows_sort_dup.
Qed.

Lemma encode_canonical_checked_Ok d b :
  encode_canonical_checked d = Ok b <-> canonical d /\ b = fmt d.
Proof.
  unfold encode_canonical_checked. split.
  - intros H. result_inv.
    match goal with H : validate_canonical _ = _ |- _ => apply state_diff_validate_canonical_Ok in H end.
    unfold u32_try_from, try_from_max in *. case_match; simplify_eq.
    match goal with H : rfold _ _ _ = Ok _ |- _ => apply write_entries in H as Hw end.
    split; [done|]. unfold Writer.finish. rewrite Hw. done.
  - intros [Hc ->]. pose proof Hc as [[Hn Hes] _].
    apply state_diff_validate_canonical_Ok in Hc as ->. simpl.
    unfold u32_try_from, try_from_max.
    destruct (Z.leb_spec (blen (changes d)) U32_MAX); [|unfold_limits; lia]. simpl.
    assert (Forall entry_ok (changes d)) as Hes' by (eapply Forall_impl; [exact Hes|]; by intros ? []).
    destruct (write_entries_total (Writer.u32 (Writer.u8 Writer.new MANAGED_STATE_PROTOCOL_VERSION)
      (blen (changes d))) _ Hes') as (w' & -> & Hw). simpl.
    unfold Writer.finish. by rewrite Hw.
Qed.

Lemma state_diff_encode_Ok d b :
  encode d = Ok b <-> limits d /\ NoDup (map key (changes d)) /\ b = fmt (sorted d).
Proof.
  unfold encode. split.
  - intros H. result_inv.
    match goal with H : canonicalize _ = _ |- _ => apply state_diff_canonicalize_Ok in H as (Hl & Hnd & ->) end.
    match goal with H : encode_canonical_checked _ = _ |- _ =>
      apply encode_canonical_checked_Ok in H as [_ ->] end. done.
  - intros (Hl & Hnd & ->). pose proof Hl as ->%validate_limits_Ok. simpl.
    rewrite (proj2 (state_diff_canonicalize_Ok d (sorted d))) by done. simpl.
    apply encode_canonical_checked_Ok. split; [by apply sorted_canonical|done].
Qed.

Lemma encode_canonical d : canonical d -> encode d = Ok (fmt d).
Proof.
  intros Hc. pose proof Hc as [Hl Hs]. apply state_diff_encode_Ok. split; [done|].
  split; [by apply key_ssorted_nodup|]. by rewrite canonical_sorted_id.
Qed.

Lemma state_diff_parses_parse d : canonical d -> parses parse (fmt d) d.
Proof.
  intros [[Hn Hes] _]. unfold parse, fmt, fmt_entries.
  pose proof (blen_nonneg (changes d)).
  parse_field; [apply parses_u8|]. parse_field; [by rewrite bool_decide_eq_true_2|].
  parse_field; [apply parses_u32; unfold_limits; lia|].
  parse_field; [rewrite Z.gtb_ltb; by apply Z.ltb_ge|].
  rewrite <- (app_nil_r (concat _)). unfold blen at 1. rewrite Nat2Z.id.
  parse_field; [apply parses_entries; eapply Forall_impl; [exact Hes|]; by intros ? []|].
  destruct d; apply parses_ret.
Qed.

Lemma state_diff_yields_parse : yields parse (fun x d => x = fmt d).
Proof.
  unfold parse. yield_field. intros v x ->. yield_field. intros [] x [-> Hv]. to_prop.
  yield_field. intros n x [-> Hn]. yield_field. intros [] x [-> Hc]. to_prop.
  yield_field. intros es x (-> & Hes & Hlen). apply yields_ret. subst v.
  rewrite !app_nil_r. unfold fmt, fmt_entries. simpl. unfold blen. rewrite Hlen, Z2Nat.id; [done|].
  apply Hn.
Qed.

Lemma state_diff_decode_sound b d : decode b = Ok d -> canonical d /\ b = fmt d.
Proof.
  unfold decode. intros H. result_inv. to_prop. subst.
  match goal with H : canonicalize _ = _ |- _ => apply state_diff_canonicalize_Ok in H as (Hl & Hnd & Hd) end.
  match goal with H : run_to_end _ _ _ = _ |- _ => apply (run_to_end_yields _ _ _ _ _ state_diff_yields_parse) in H end.
  split; [|done]. rewrite Hd. by apply sorted_canonical.
Qed.
Lemma state_diff_decode_Ok b d : slice_ok b -> (decode b = Ok d <-> canonical d /\ b = fmt d).
Proof.
  intros Hb. split; [apply state_diff_decode_sound|].
  - intros [Hc ->]. unfold decode. rewrite (run_to_end_parses _ _ _ d) by (try done; by apply state_diff_parses_parse).
    pose proof Hc as [Hl Hs]. simpl. pose proof Hl as ->%validate_limits_Ok. simpl.
    assert (canonicalize d = Ok d) as ->.
    { apply state_diff_canonicalize_Ok. split; [done|]. split; [by apply key_ssorted_nodup|].
      by rewrite canonical_sorted_id. }
    simpl. by rewrite bool_decide_eq_true_2.
Qed.
End StateDiff.

(** The diff format is canonical.  Encoding a diff within the limits and
    with distinct keys gives bytes that decode to the same changes sorted by
    key; it does not depend on the order of the changes; a repeated key is
    reported as [DuplicateKey]; and whatever decodes re-encodes to the bytes it
    came from, so a diff hash commits to exactly one set of changes. *)
Theorem state_diff_canonical (d : StateDiff.t) :
  StateDiff.limits d ->
  (~ NoDup (map key (StateDiff.changes d)) -> StateDiff.encode d = Err DuplicateKey)
  /\ (NoDup (map key (StateDiff.changes d)) ->
      exists b, StateDiff.encode d = Ok b
        /\ (slice_ok b -> StateDiff.decode b = Ok (StateDiff.mk (sort_by_key key (StateDiff.changes d))))
        /\ (forall d', StateDiff.changes d' ≡ₚ StateDiff.changes d -> StateDiff.encode d' = Ok b)
        /\ (forall b' d', StateDiff.decode b' = Ok d' -> StateDiff.encode d' = Ok b')).
Proof.
  intros Hl. split.
  - intros Hnd. unfold StateDiff.encode. pose proof Hl as ->%StateDiff.validate_limits_Ok.
    cbn [rbind]. by rewrite StateDiff.canonicalize_dup.
  - intros Hnd. exists (StateDiff.fmt (StateDiff.sorted d)). split; [by apply StateDiff.state_diff_encode_Ok|].
    split; [|split].
    + intros Hb. apply StateDiff.state_diff_decode_Ok; [done|]. split; [by apply StateDiff.sorted_canonical|done].
    + intros d' Hp. apply StateDiff.state_diff_encode_Ok. split; [by apply (StateDiff.limits_perm d)|].
      split; [by rewrite Hp|]. by rewrite (StateDiff.sorted_perm d d').
    + intros b' d' [Hc ->]%StateDiff.state_diff_decode_sound. by apply StateDiff.encode_canonical.
Qed.

Definition sample_diff : StateDiff.t :=
  StateDiff.mk [mkEntry [x01; x09] None; mkEntry [x01; x02] (Some [x07])].

Lemma state_diff_canonical_witness :
  exists b, StateDiff.encode sample_diff = Ok b
    /\ StateDiff.decode b = Ok (StateDiff.mk [mkEntry [x01; x02] (Some [x07]); mkEntry [x01; x09] None]).
Proof.
  destruct (state_diff_canonical sample_diff) as [_ H].
  - apply StateDiff.validate_limits_Ok. vm_compute. reflexivity.
  - destruct H as (b & Hb & Hd & _).
    + apply NoDup_cons. split; [|apply NoDup_singleton]. intros H%list_elem_of_singleton. discriminate.
    + exists b. split; [exact Hb|].
      rewrite Hd; [vm_compute; reflexivity|]. vm_compute in Hb. injection Hb as <-. vm_compute. discriminate.
Defined.
