(* ===== verification/Records.v ===== *)
(** * Records that carry a diff

    [ScriptActionResultV1] (what a script action returns to the runtime),
    [StateRecoveryV1] (the payload published with a transition),
    [RecoveryRecordV1] and [StateTransitionV1] of [service-runtime-core]. *)

From S2P Require Import Prelude Ordering Reader Wire ServiceKeys StateView StateDiff.

Lemma writer_bytes_u32_eq w b :
  blen b <= U32_MAX ->
  Writer.bytes_u32 w b = Ok (Writer.mk (Writer.buf w ++ fmt_bytes_u32 b)).
Proof. intros H. by apply writer_bytes_u32_Ok. Qed.

Lemma gtb_false a b : a <= b -> (a >? b) = false.
Proof. rewrite Z.gtb_ltb. apply Z.ltb_ge. Qed.

(** ** [ScriptActionResultV1] *)

Module ScriptActionResult.
Definition KIND_APPLIED : byte := x00.
Definition KIND_ABORT : byte := x01.
Definition KIND_NEED_STATE : byte := x02.
Definition KIND_FATAL : byte := x03.
Definition MAX_APPLICATION_ABORT_CODE : Z := 16777215.
Definition MIN_FATAL_ERROR_CODE : Z := 2147483648.

Inductive t :=
| Applied (diff : StateDiff.t)
| Abort (code : Z)
| NeedState (key : bytes)
| Fatal (code : Z).

Definition is_application_key (k : bytes) : bool :=
  bool_decide (head k = Some APPLICATION_KEY_CLASS_V1).

Definition validate_application_diff (diff : StateDiff.t) : result unit WireError :=
  let? _ := StateDiff.validate_canonical diff in
  bail_if existsb (fun change => negb (is_application_key (key change))) (StateDiff.changes diff)
    with ReservedKey ;;
  Ok tt.

Definition abort_code_ok (code : Z) : bool := (1 <=? code) && (code <=? MAX_APPLICATION_ABORT_CODE).

Definition encode_body (w : Writer.t) (r : t) : result Writer.t WireError :=
  match r with
  | Applied diff =>
      let? _ := validate_application_diff diff in
      let w := Writer.u8 w KIND_APPLIED in
      let? d := StateDiff.encode diff in
      Writer.bytes_u32 w d
  | Abort code =>
      if abort_code_ok code then Ok (Writer.u32 (Writer.u8 w KIND_ABORT) code)
      else Err InvalidEncoding
  | NeedState key =>
      if blen key <=? MAX_STATE_KEY_BYTES then Writer.bytes_u32 (Writer.u8 w KIND_NEED_STATE) key
      else Err InvalidEncoding
  | Fatal code =>
      if MIN_FATAL_ERROR_CODE <=? code then Ok (Writer.u32 (Writer.u8 w KIND_FATAL) code)
      else Err InvalidEncoding
  end.

Definition encode (r : t) : result bytes WireError :=
  let? w := encode_body (Writer.u8 Writer.new SCRIPT_ACTION_RESULT_VERSION) r in
  let encoded := Writer.finish w in
  bail_if blen encoded >? MAX_SCRIPT_ACTION_RESULT_BYTES with TooManyItems ;;
  Ok encoded.

Definition parse_body (kind : byte) : parser WireError t :=
  if bool_decide (kind = KIND_APPLIED) then
    d ← Rd.bytes_limited MAX_RECOVERY_BYTES;
    diff ← plift (StateDiff.decode d);
    plift (validate_application_diff diff);;
    mret (Applied diff)
  else if bool_decide (kind = KIND_ABORT) then
    code ← Rd.u32;
    pbail (negb (abort_code_ok code)) InvalidEncoding;;
    mret (Abort code)
  else if bool_decide (kind = KIND_NEED_STATE) then
    key ← Rd.bytes_limited MAX_STATE_KEY_BYTES;
    mret (NeedState key)
  else if bool_decide (kind = KIND_FATAL) then
    code ← Rd.u32;
    pbail (code <? MIN_FATAL_ERROR_CODE) InvalidEncoding;;
    mret (Fatal code)
  else pfail InvalidEncoding.

Definition parse : parser WireError t :=
  version ← Rd.u8;
  pbail (negb (bool_decide (version = SCRIPT_ACTION_RESULT_VERSION))) UnsupportedVersion;;
  kind ← Rd.u8;
  parse_body kind.

Definition decode (b : bytes) : result t WireError :=
  bail_if blen b >? MAX_SCRIPT_ACTION_RESULT_BYTES with TooManyItems ;;
  run_to_end InvalidEncoding parse b.

(** *** Specification *)

Definition application_diff (d : StateDiff.t) : Prop :=
  StateDiff.canonical d /\ Forall (fun c => head (key c) = Some APPLICATION_KEY_CLASS_V1) (StateDiff.changes d).

Definition valid (r : t) : Prop :=
  match r with
  | Applied d => application_diff d
  | Abort code => 1 <= code <= MAX_APPLICATION_ABORT_CODE
  | NeedState k => blen k <= MAX_STATE_KEY_BYTES
  | Fatal code => MIN_FATAL_ERROR_CODE <= code <= U32_MAX
  end.

Definition fmt_body (r : t) : bytes :=
  match r with
  | Applied d => [KIND_APPLIED] ++ fmt_bytes_u32 (StateDiff.fmt d)
  | Abort code => [KIND_ABORT] ++ to_le_bytes 4 code
  | NeedState k => [KIND_NEED_STATE] ++ fmt_bytes_u32 k
  | Fatal code => [KIND_FATAL] ++ to_le_bytes 4 code
  end.
Definition fmt (r : t) : bytes := [SCRIPT_ACTION_RESULT_VERSION] ++ fmt_body r.

Lemma validate_application_diff_Ok d : validate_application_diff d = Ok tt <-> application_diff d.
Proof.
  unfold validate_application_diff, application_diff. rewrite <- StateDiff.state_diff_validate_canonical_Ok.
  assert (existsb (fun c => negb (is_application_key (key c))) (StateDiff.changes d) = false <->
    Forall (fun c => head (key c) = Some APPLICATION_KEY_CLASS_V1) (StateDiff.changes d)) as <-.
  { induction (StateDiff.changes d) as [|c cs IH]; simpl; [by split|].
    rewrite orb_false_iff, IH, Forall_cons. unfold is_application_key.
    by rewrite negb_false_iff, bool_decide_eq_true. }
  destruct (StateDiff.validate_canonical d) as [[]|]; simpl; [|naive_solver].
  rewrite bail_if_Ok. naive_solver.
Qed.

(** A type-correct result: its codes fit a [u32]. *)
Definition typed (r : t) : Prop :=
  match r with Abort code | Fatal code => u32_ok code | _ => True end.

Lemma encode_body_valid w r w' :
  encode_body w r = Ok w' -> typed r -> valid r /\ Writer.buf w' = Writer.buf w ++ fmt_body r.
Proof.
  destruct r as [d|code|k|code]; simpl; intros H Ht.
  - result_inv.
    match goal with H : validate_application_diff _ = _ |- _ => apply validate_application_diff_Ok in H as Hv end.
    pose proof Hv as [Hc _].
    rewrite (StateDiff.encode_canonical d Hc) in *. simplify_eq.
    match goal with H : Writer.bytes_u32 _ _ = _ |- _ => apply writer_bytes_u32_Ok in H as [_ ->] end.
    simpl. by rewrite <- (assoc_L (++)).
  - unfold abort_code_ok in H. case_match; result_inv. to_prop. simpl.
    split; [lia|]. by rewrite <- (assoc_L (++)).
  - case_match; result_inv. apply writer_bytes_u32_Ok in H as [_ ->]. to_prop.
    split; [done|]. simpl. by rewrite <- (assoc_L (++)).
  - case_match; result_inv. to_prop. unfold u32_ok in Ht. split; [lia|].
    simpl. by rewrite <- (assoc_L (++)).
Qed.

Lemma encode_body_total w r :
  valid r -> blen (fmt_body r) <= U32_MAX ->
  encode_body w r = Ok (Writer.mk (Writer.buf w ++ fmt_body r)).
Proof.
  destruct r as [d|code|k|code]; simpl; intros Hv Hlen.
  - pose proof Hv as [Hc _]. apply validate_application_diff_Ok in Hv as ->. simpl.
    rewrite StateDiff.encode_canonical by done. simpl.
    rewrite blen_cons, blen_fmt_bytes_u32 in Hlen.
    rewrite writer_bytes_u32_eq by lia. simpl. by rewrite <- (assoc_L (++)).
  - unfold abort_code_ok. rewrite (proj2 (Z.leb_le _ _)), (proj2 (Z.leb_le _ _)) by lia. simpl.
    unfold Writer.u8, Writer.u32. simpl. by rewrite <- (assoc_L (++)).
  - rewrite (proj2 (Z.leb_le _ _)) by lia. rewrite writer_bytes_u32_eq by (unfold_limits; lia).
    simpl. by rewrite <- (assoc_L (++)).
  - rewrite (proj2 (Z.leb_le _ _)) by lia. unfold Writer.u8, Writer.u32. simpl.
    by rewrite <- (assoc_L (++)).
Qed.

Lemma script_action_result_encode_Ok r b :
  typed r ->
  encode r = Ok b <-> valid r /\ b = fmt r /\ blen b <= MAX_SCRIPT_ACTION_RESULT_BYTES.
Proof.
  intros Ht. unfold encode, Writer.finish. split.
  - intros H. result_inv. to_prop.
    match goal with H : encode_body _ _ = _ |- _ => apply encode_body_valid in H as [Hv Hw]; [|done] end.
    rewrite Hw in *. split; [done|]. split; [done|lia].
  - intros (Hv & -> & Hlen). unfold fmt in Hlen. rewrite blen_app in Hlen.
    rewrite encode_body_total; [|done|unfold_limits; simpl in *; change (blen [_]) with 1 in Hlen; lia].
    simpl. change (SCRIPT_ACTION_RESULT_VERSION :: ?x) with ([SCRIPT_ACTION_RESULT_VERSION] ++ x).
    rewrite blen_app, gtb_false by done. done.
Qed.

Lemma script_action_result_parses_parse r :
  valid r -> blen (fmt r) <= MAX_SCRIPT_ACTION_RESULT_BYTES -> parses parse (fmt r) r.
Proof.
  intros Hv Hlen. unfold parse, fmt in *. rewrite blen_app in Hlen. change (blen [_]) with 1 in Hlen.
  parse_field; [apply parses_u8|]. parse_field; [done|].
  unfold parse_body. destruct r as [d|code|k|code]; cbn [fmt_body valid] in *;
    (parse_field; [apply parses_u8|]); cbn [bool_decide decide_rel decide].
  all: rewrite blen_app in Hlen; change (blen [_]) with 1 in Hlen.
  - rewrite bool_decide_eq_true_2 by done. rewrite blen_fmt_bytes_u32 in Hlen.
    rewrite <- (app_nil_r (fmt_bytes_u32 _)).
    parse_field; [apply parses_bytes_limited; unfold_limits; lia|].
    pose proof Hv as [Hc _].
    parse_field; [apply StateDiff.state_diff_decode_Ok; [unfold_limits; lia|done]|].
    parse_field; [by apply validate_application_diff_Ok|]. apply parses_ret.
  - rewrite bool_decide_eq_false_2, bool_decide_eq_true_2 by done.
    rewrite <- (app_nil_r (to_le_bytes _ _)).
    unfold MAX_APPLICATION_ABORT_CODE in Hv.
    parse_field; [apply parses_u32; unfold_limits; lia|].
    parse_field; [|apply parses_ret]. unfold abort_code_ok, MAX_APPLICATION_ABORT_CODE.
    by rewrite (proj2 (Z.leb_le _ _)), (proj2 (Z.leb_le _ _)) by lia.
  - rewrite !bool_decide_eq_false_2, bool_decide_eq_true_2 by done.
    rewrite <- (app_nil_r (fmt_bytes_u32 _)).
    parse_field; [apply parses_bytes_limited; unfold_limits; lia|]. apply parses_ret.
  - rewrite !bool_decide_eq_false_2, bool_decide_eq_true_2 by done.
    rewrite <- (app_nil_r (to_le_bytes _ _)). unfold MIN_FATAL_ERROR_CODE in *.
    parse_field; [apply parses_u32; unfold_limits; lia|].
    parse_field; [apply Z.ltb_ge; lia|]. apply parses_ret.
Qed.

Lemma yields_parse_body kind :
  yields (parse_body kind) (fun x r => [kind] ++ x = fmt_body r /\ valid r).
Proof.
  unfold parse_body.
  destruct (bool_decide_reflect (kind = KIND_APPLIED)) as [->|_].
  { yield_field. intros d x (-> & _ & _). yield_field. intros diff x [-> Hd].
    yield_field. intros [] x [-> Hv]. apply yields_ret. rewrite !app_nil_r.
    apply StateDiff.state_diff_decode_sound in Hd as [_ ->]. by apply validate_application_diff_Ok in Hv. }
  destruct (bool_decide_reflect (kind = KIND_ABORT)) as [->|_].
  { yield_field. intros c x [-> Hc]. yield_field. intros [] x [-> Hg]. apply yields_ret.
    rewrite !app_nil_r. unfold abort_code_ok in Hg. to_prop. done. }
  destruct (bool_decide_reflect (kind = KIND_NEED_STATE)) as [->|_].
  { yield_field. intros k x (-> & Hk & _). apply yields_ret. by rewrite !app_nil_r. }
  destruct (bool_decide_reflect (kind = KIND_FATAL)) as [->|_]; [|apply yields_fail].
  yield_field. intros c x [-> Hc]. yield_field. intros [] x [-> Hg]. apply yields_ret.
  rewrite !app_nil_r. to_prop. simpl. unfold u32_ok in Hc. split; [done|lia].
Qed.
#[export] Hint Resolve yields_parse_body : yields.

Lemma script_action_result_yields_parse : yields parse (fun x r => x = fmt r /\ valid r).
Proof.
  unfold parse. yield_field. intros v x ->. yield_field. intros [] x [-> Hv]. to_prop. subst v.
  yield_field. intros kind x ->. eapply yields_mono; [apply yields_parse_body|].
  intros x r [Hx Hr]. unfold fmt. by rewrite <- Hx.
Qed.

Lemma valid_typed r : valid r -> typed r.
Proof.
  destruct r; simpl; try done; unfold u32_ok, MAX_APPLICATION_ABORT_CODE, MIN_FATAL_ERROR_CODE, U32_MAX; lia.
Qed.

Lemma script_action_result_decode_iff b r : decode b = Ok r <-> typed r /\ encode r = Ok b.
Proof.
  split.
  - intros H. unfold decode in H. result_inv. to_prop.
    apply (run_to_end_yields _ _ _ _ _ script_action_result_yields_parse) in H as [-> Hr].
    pose proof (valid_typed r Hr). split; [done|]. apply script_action_result_encode_Ok; [done|]. split; [done|]. split; [done|lia].
  - intros [Ht (Hv & -> & Hlen)%script_action_result_encode_Ok]; [|done]. unfold decode. rewrite gtb_false by done.
    apply run_to_end_parses; [by apply script_action_result_parses_parse|unfold_limits; lia].
Qed.
End ScriptActionResult.

(** ** [StateRecoveryV1] *)

Module StateRecovery.
Record t := mk { version : byte; diff : StateDiff.t }.

Definition new (d : StateDiff.t) : result t WireError :=
  let? _ := StateDiff.validate_limits d in
  let? d := StateDiff.canonicalize d in
  Ok (mk RECOVERY_FORMAT_VERSION d).

Definition encode (r : t) : result bytes WireError :=
  bail_if negb (bool_decide (version r = RECOVERY_FORMAT_VERSION)) with UnsupportedVersion ;;
  let? d := StateDiff.encode_canonical_checked (diff r) in
  let w := Writer.u8 Writer.new (version r) in
  let? w := Writer.bytes_u32 w d in
  let encoded := Writer.finish w in
  bail_if blen encoded >? MAX_RECOVERY_BYTES with TooManyItems ;;
  Ok encoded.

Definition parse : parser WireError t :=
  version ← Rd.u8;
  pbail (negb (bool_decide (version = RECOVERY_FORMAT_VERSION))) UnsupportedVersion;;
  d ← Rd.bytes_limited MAX_RECOVERY_BYTES;
  diff ← plift (StateDiff.decode d);
  mret (mk version diff).

Definition decode (b : bytes) : result t WireError :=
  bail_if blen b >? MAX_RECOVERY_BYTES with TooManyItems ;;
  run_to_end InvalidEncoding parse b.

Definition commitment `{Blake2} (r : t) : result bytes WireError :=
  let? b := encode r in Ok (blake2_256 b).

Definition fmt (r : t) : bytes := [version r] ++ fmt_bytes_u32 (StateDiff.fmt (diff r)).
Definition valid (r : t) : Prop :=
  version r = RECOVERY_FORMAT_VERSION /\ StateDiff.canonical (diff r).

Lemma state_recovery_new_Ok d r :
  new d = Ok r <->
  StateDiff.limits d /\ NoDup (map key (StateDiff.changes d))
  /\ r = mk RECOVERY_FORMAT_VERSION (StateDiff.sorted d).
Proof.
  unfold new. split.
  - intros H. result_inv.
    match goal with H : StateDiff.canonicalize _ = _ |- _ =>
      apply StateDiff.state_diff_canonicalize_Ok in H as (? & ? & ->) end. done.
  - intros (Hl & Hnd & ->). pose proof Hl as ->%StateDiff.validate_limits_Ok. simpl.
    by rewrite (proj2 (StateDiff.state_diff_canonicalize_Ok d (StateDiff.sorted d))).
Qed.

Lemma state_recovery_encode_Ok r b :
  encode r = Ok b <-> valid r /\ b = fmt r /\ blen b <= MAX_RECOVERY_BYTES.
Proof.
  unfold encode, Writer.finish, valid. split.
  - intros H. result_inv. to_prop.
    match goal with H : StateDiff.encode_canonical_checked _ = _ |- _ =>
      apply StateDiff.encode_canonical_checked_Ok in H as [Hc ->] end.
    match goal with H : Writer.bytes_u32 _ _ = _ |- _ => apply writer_bytes_u32_Ok in H as [_ Hw] end.
    rewrite Hw in *. split; [done|]. split; [done|lia].
  - intros ([Hv Hc] & -> & Hlen). rewrite bool_decide_eq_true_2 by done. cbn [negb].
    rewrite (proj2 (StateDiff.encode_canonical_checked_Ok _ _)) by done. cbn [rbind].
    rewrite writer_bytes_u32_eq.
    + simpl. rewrite gtb_false; [done|]. exact Hlen.
    + unfold fmt in Hlen. rewrite blen_app, blen_fmt_bytes_u32 in Hlen. pose proof (blen_nonneg [version r]).
      unfold_limits. lia.
Qed.

Lemma state_recovery_decode_iff b r : decode b = Ok r <-> encode r = Ok b.
Proof.
  rewrite state_recovery_encode_Ok. unfold decode. split.
  - intros H. result_inv. to_prop.
    assert (yields parse (fun x r => x = fmt r /\ valid r)) as Hy.
    { unfold parse. yield_field. intros v x ->. yield_field. intros [] x [-> Hv]. to_prop.
      yield_field. intros d x (-> & _ & _). yield_field. intros df x [-> Hd].
      apply StateDiff.state_diff_decode_sound in Hd as [Hc ->]. apply yields_ret. by rewrite !app_nil_r. }
    apply (run_to_end_yields _ _ _ _ _ Hy) in H as [-> Hr]. split; [done|]. split; [done|lia].
  - intros ([Hv Hc] & -> & Hlen). rewrite gtb_false by done.
    apply run_to_end_parses; [|unfold_limits; lia]. unfold parse, fmt in *.
    rewrite blen_app, blen_fmt_bytes_u32 in Hlen. pose proof (blen_nonneg [version r]).
    parse_field; [apply parses_u8|]. parse_field; [by rewrite bool_decide_eq_true_2|].
    rewrite <- (app_nil_r (fmt_bytes_u32 _)).
    parse_field; [apply parses_bytes_limited; unfold_limits; lia|].
    parse_field; [apply StateDiff.state_diff_decode_Ok; [unfold_limits; lia|done]|]. destruct r. apply parses_ret.
Qed.
End StateRecovery.

(** ** [StateTransitionV1] *)

Module StateTransition.
Record t := mk { version : byte; parent_root : bytes; new_root : bytes; diff_hash : bytes }.

Definition encode (s : t) : bytes :=
  [version s] ++ parent_root s ++ new_root s ++ diff_hash s.

Definition decode (b : bytes) : result t WireError :=
  bail_if negb (blen b =? 97) with InvalidLength ;;
  bail_if negb (bool_decide (b_at b 0 = MANAGED_STATE_PROTOCOL_VERSION)) with UnsupportedVersion ;;
  Ok (mk (b_at b 0) (b_slice b 1 33) (b_slice b 33 65) (b_from b 65)).

Definition valid (s : t) : Prop :=
  version s = MANAGED_STATE_PROTOCOL_VERSION /\ array_ok 32 (parent_root s)
  /\ array_ok 32 (new_root s) /\ array_ok 32 (diff_hash s).

Lemma state_transition_decode_iff b s : decode b = Ok s <-> valid s /\ b = encode s.
Proof.
  assert (forall v p n h, array_ok 32 p -> array_ok 32 n -> array_ok 32 h ->
    decode ([v] ++ p ++ n ++ h) =
    bail_if negb (bool_decide (v = MANAGED_STATE_PROTOCOL_VERSION)) with UnsupportedVersion ;;
    Ok (mk v p n h)) as Hf.
  { unfold array_ok. intros v p n h Hp Hn Hh. unfold decode.
    replace (blen _ =? _) with true by (symmetry; apply Z.eqb_eq; blia). cbn [negb].
    cbn [b_at app nth Z.to_nat]. change (v :: ?x) with ([v] ++ x). slices.
    done. }
  split.
  - intros H. assert (blen b = 97) as Hb.
    { clear Hf. unfold decode in H. result_inv1. by to_prop. }
    destruct (chop 1 b) as (v & b1 & -> & Hv); [blia|].
    destruct (chop 32 b1) as (p & b2 & -> & Hp); [blia|].
    destruct (chop 32 b2) as (n & h & -> & Hn); [blia|].
    apply blen_1_inv in Hv as [c ->]. rewrite Hf in H; [|unfold array_ok; blia..].
    result_inv. to_prop. subst c. split; [|done]. repeat split; try done. unfold array_ok. simpl. blia.
  - intros [(Hv & Hp & Hn & Hh) ->]. unfold encode. rewrite Hf by done. rewrite Hv. by destruct s; simpl in *; subst.
Qed.
End StateTransition.

(** ** [RecoveryRecordV1] *)

Module RecoveryRecord.
Record t := mk {
  version : byte; service_key : bytes; parent_root : bytes; new_root : bytes;
  code_hash : bytes; state_delta : StateDiff.t
}.

Definition encode (r : t) : result bytes WireError :=
  let w := Writer.u8 Writer.new (version r) in
  let w := Writer.raw w (service_key r) in
  let w := Writer.raw w (parent_root r) in
  let w := Writer.raw w (new_root r) in
  let w := Writer.raw w (code_hash r) in
  let? d := StateDiff.encode (state_delta r) in
  let? w := Writer.bytes_u32 w d in
  Ok (Writer.finish w).

Definition parse : parser WireError t :=
  version ← Rd.u8;
  pbail (negb (bool_decide (version = RECOVERY_FORMAT_VERSION))) UnsupportedVersion;;
  service_key ← Rd.array 32;
  parent_root ← Rd.array 32;
  new_root ← Rd.array 32;
  code_hash ← Rd.array 32;
  d ← Rd.bytes_u32;
  state_delta ← plift (StateDiff.decode d);
  mret (mk version service_key parent_root new_root code_hash state_delta).

Definition decode (b : bytes) : result t WireError := run_to_end InvalidEncoding parse b.

Definition valid (r : t) : Prop :=
  version r = RECOVERY_FORMAT_VERSION /\ array_ok 32 (service_key r) /\ array_ok 32 (parent_root r)
  /\ array_ok 32 (new_root r) /\ array_ok 32 (code_hash r) /\ StateDiff.canonical (state_delta r).

Definition fmt (r : t) : bytes :=
  [version r] ++ service_key r ++ parent_root r ++ new_root r ++ code_hash r
  ++ fmt_bytes_u32 (StateDiff.fmt (state_delta r)).

Lemma recovery_record_encode_Ok r b :
  valid r -> encode r = Ok b <-> b = fmt r /\ blen (StateDiff.fmt (state_delta r)) <= U32_MAX.
Proof.
  intros (_ & _ & _ & _ & _ & Hc). unfold encode, Writer.finish.
  rewrite StateDiff.encode_canonical by done. cbn [rbind]. split.
  - intros H. result_inv.
    match goal with H : Writer.bytes_u32 _ _ = _ |- _ => apply writer_bytes_u32_Ok in H as [Hl ->] end.
    split; [|done]. unfold fmt. simpl. by rewrite <- !(assoc_L (++)).
  - intros [-> Hl]. rewrite writer_bytes_u32_eq by done. simpl. unfold fmt. by rewrite <- !(assoc_L (++)).
Qed.

Lemma recovery_record_decode_iff b r : slice_ok b -> (decode b = Ok r <-> valid r /\ encode r = Ok b).
Proof.
  intros Hb. unfold decode. split.
  - assert (yields parse (fun x r => x = fmt r /\ valid r /\ blen (StateDiff.fmt (state_delta r)) <= U32_MAX))
      as Hy.
    { unfold parse. yield_field. intros v x ->. yield_field. intros [] x [-> Hv]. to_prop.
      yield_field. intros ? sk [-> Hsk]. yield_field. intros ? p [-> Hp]. yield_field. intros ? n [-> Hn].
      yield_field. intros ? c [-> Hc]. yield_field. intros d x (-> & Hd). yield_field. intros df x [-> Hdd].
      apply StateDiff.state_diff_decode_sound in Hdd as [Hcan ->]. apply yields_ret. by rewrite !app_nil_r. }
    intros (-> & Hv & Hl)%(run_to_end_yields _ _ _ _ _ Hy). split; [done|]. by apply recovery_record_encode_Ok.
  - intros [Hv [-> Hl]%recovery_record_encode_Ok]; [|done]. apply run_to_end_parses; [|done].
    destruct Hv as (Hv & Hsk & Hp & Hn & Hch & Hc). unfold parse, fmt in *.
    parse_field; [apply parses_u8|]. parse_field; [by rewrite bool_decide_eq_true_2|].
    do 4 (parse_field; [by apply parses_array|]). rewrite <- (app_nil_r (fmt_bytes_u32 _)).
    parse_field; [by apply parses_bytes_u32|].
    parse_field; [apply StateDiff.state_diff_decode_Ok; [unfold_limits; lia|done]|].
    destruct r; apply parses_ret.
Qed.
End RecoveryRecord.

(** Script action results and recovery payloads are canonical: on every
    byte string, the decoder returns a value exactly when the (type-correct)
    value encodes to that string.  In particular an [Applied] result carries
    only application-class keys, abort codes are in [1, 0xffffff], fatal codes
    have the top bit set, and nothing follows the record. *)
Theorem action_result_and_recovery_exact :
  (forall b r, ScriptActionResult.decode b = Ok r
     <-> ScriptActionResult.typed r /\ ScriptActionResult.encode r = Ok b)
  /\ (forall b r, ScriptActionResult.decode b = Ok r -> ScriptActionResult.valid r)
  /\ (forall b r, StateRecovery.decode b = Ok r <-> StateRecovery.encode r = Ok b)
  /\ (forall b s, StateTransition.decode b = Ok s
     <-> StateTransition.valid s /\ b = StateTransition.encode s).
Proof.
  split; [apply ScriptActionResult.script_action_result_decode_iff|]. split; [|split].
  - intros b r [Ht (Hv & _ & _)%ScriptActionResult.script_action_result_encode_Ok]%ScriptActionResult.script_action_result_decode_iff; done.
  - apply StateRecovery.state_recovery_decode_iff.
  - apply StateTransition.state_transition_decode_iff.
Qed.

(** Recovery records round-trip: for a slice, decoding gives a record
    exactly when the record is valid (version 1, 32-byte fields, canonical
    delta) and encodes to the slice. *)
Theorem recovery_record_exact (b : bytes) (r : RecoveryRecord.t) :
  slice_ok b ->
  (RecoveryRecord.decode b = Ok r <-> RecoveryRecord.valid r /\ RecoveryRecord.encode r = Ok b).
Proof. apply RecoveryRecord.recovery_record_decode_iff. Qed.

Definition sample_record : RecoveryRecord.t :=
  RecoveryRecord.mk x01 (repeat x0a 32) (repeat x0b 32) (repeat x0c 32) (repeat x0d 32)
    (StateDiff.mk [mkEntry [x01; x02] (Some [x07]); mkEntry [x01; x09] None]).

Lemma recovery_record_exact_witness :
  exists b, RecoveryRecord.decode b = Ok sample_record.
Proof.
  destruct (RecoveryRecord.encode sample_record) as [b|] eqn:Hb; [|vm_compute in Hb; discriminate].
  exists b. apply recovery_record_exact.
  - vm_compute in Hb. injection Hb as <-. vm_compute. discriminate.
  - split; [|exact Hb]. repeat split; try reflexivity.
    + vm_compute. discriminate.
    + repeat constructor; vm_compute; congruence.
    + repeat constructor.
Defined.
