(* ===== verification/Witness.v ===== *)
(** * Access plans and witnesses

    [StateAccessPlanV1] and [ManagedStateWitnessV1] of [service-runtime-core]:
    the keys an invocation may read, and the trie nodes that prove them. *)

From S2P Require Import Prelude Ordering Reader Wire ServiceKeys StateView StateDiff Records.

(** ** Byte-string lists under a byte budget

Proof nodes and actions are lists of byte strings with a limit per item
and a limit on their sum, kept in a running total. *)

Definition total_len (l : list bytes) : Z := blen (concat l).

Lemma total_len_cons x l : total_len (x :: l) = blen x + total_len l.
Proof. unfold total_len. simpl. by rewrite blen_app. Qed.
Lemma total_len_nonneg l : 0 <= total_len l.
Proof. apply blen_nonneg. Qed.

Definition within_budget (per max : Z) (l : list bytes) : Prop :=
  Forall (fun x => blen x <= per) l /\ total_len l <= max.

Definition fmt_items (l : list bytes) : bytes := concat (map fmt_bytes_u32 l).

Lemma blen_fmt_items l : blen (fmt_items l) = 4 * blen l + total_len l.
Proof.
  unfold fmt_items. induction l as [|x l IH]; simpl; [done|].
  rewrite blen_app, blen_fmt_bytes_u32, IH, blen_cons, total_len_cons. lia.
Qed.

(** The encoder's loop: the item limit, the running total and its limit. *)
Definition write_budgeted (per max : Z) (st : Writer.t * Z) (item : bytes)
    : result (Writer.t * Z) WireError :=
  bail_if blen item >? per with TooManyItems ;;
  let? total := ok_or (checked_add USIZE_MAX st.2 (blen item)) LengthOverflow in
  bail_if total >? max with TooManyItems ;;
  let? w := Writer.bytes_u32 st.1 item in
  Ok (w, total).

Lemma write_budgeted_loop per max l : forall w total w' total',
  rfold (write_budgeted per max) (w, total) l = Ok (w', total') ->
  total <= max ->
  Forall (fun x => blen x <= per) l /\ total' = total + total_len l /\ total' <= max
  /\ Writer.buf w' = Writer.buf w ++ fmt_items l.
Proof.
  induction l as [|x l IH]; intros w total w' total' H Hm; simpl in H.
  - result_inv. unfold total_len. simpl. change (blen []) with 0. rewrite app_nil_r. repeat split; [constructor|lia|lia].
  - unfold write_budgeted at 1 in H. result_inv. to_prop.
    unfold checked_add in *. case_match; simplify_eq. to_prop.
    match goal with H : Writer.bytes_u32 _ _ = _ |- _ => apply writer_bytes_u32_Ok in H as [_ Hw] end.
    match goal with H : rfold _ _ _ = _ |- _ => apply IH in H as (Hl & -> & Ht & Hb); [|lia] end.
    rewrite total_len_cons. split; [constructor; [lia|done]|]. split; [lia|]. split; [lia|].
    rewrite Hb, Hw. unfold fmt_items. simpl. by rewrite <- (assoc_L (++)).
Qed.

Lemma write_budgeted_total per max l : forall w total,
  per <= U32_MAX -> 0 <= total -> max <= ISIZE_MAX ->
  Forall (fun x => blen x <= per) l -> total + total_len l <= max ->
  rfold (write_budgeted per max) (w, total) l
    = Ok (Writer.mk (Writer.buf w ++ fmt_items l), total + total_len l).
Proof.
  induction l as [|x l IH]; intros w total Hp H0 Hmax Hl Ht; simpl.
  - unfold total_len. simpl. change (blen []) with 0. rewrite app_nil_r, Z.add_0_r. by destruct w.
  - apply Forall_cons in Hl as [Hx Hl]. rewrite total_len_cons in Ht.
    pose proof (total_len_nonneg l). pose proof (blen_nonneg x).
    unfold write_budgeted at 1. rewrite gtb_false by done. cbn [fst snd].
    unfold checked_add. rewrite (proj2 (Z.leb_le _ _)) by (unfold_limits; lia). cbn [ok_or rbind].
    rewrite gtb_false by lia. rewrite writer_bytes_u32_eq by lia. cbn [rbind].
    rewrite IH; [|lia..|done|lia]. simpl. rewrite total_len_cons. unfold fmt_items. simpl.
    rewrite <- (assoc_L (++)). do 2 f_equal. lia.
Qed.

(** The decoders' loops collect items and a total with some reader [f]. *)
Section BudgetLoop.
Context (per max : Z) (f : Z * list bytes -> parser WireError (Z * list bytes)).

Lemma yields_budget_loop :
  (forall s, 0 <= s.1 <= max -> yields (f s) (fun x s' => exists item,
     s' = (s.1 + blen item, s.2 ++ [item]) /\ x = fmt_bytes_u32 item
     /\ blen item <= per /\ s.1 + blen item <= max)) ->
  forall n s, 0 <= s.1 <= max ->
  yields (piter n f s) (fun x s' => exists items,
    length items = n /\ s' = (s.1 + total_len items, s.2 ++ items) /\ x = fmt_items items
    /\ Forall (fun i => blen i <= per) items /\ s.1 + total_len items <= max).
Proof.
  intros Hf n. induction n as [|n IH]; intros s Hs; cbn [piter].
  - apply yields_ret. exists []. unfold total_len. simpl. change (blen []) with 0.
    rewrite app_nil_r, Z.add_0_r. destruct s. simpl in *. repeat split; [constructor|lia].
  - eapply yields_bind; [by apply Hf|]. intros s' x (item & -> & -> & Hi & Ht).
    pose proof (blen_nonneg item).
    eapply yields_mono; [apply IH; simpl; lia|].
    intros y s'' (items & <- & -> & -> & Hl & Hm). simpl in *. exists (item :: items).
    rewrite total_len_cons. simpl. split; [done|]. split; [|split; [|split]].
    + rewrite <- (assoc_L (++)). simpl. f_equal. lia.
    + done.
    + by constructor.
    + lia.
Qed.

Lemma parses_budget_loop :
  (forall s item, 0 <= s.1 -> blen item <= per -> s.1 + blen item <= max ->
     parses (f s) (fmt_bytes_u32 item) (s.1 + blen item, s.2 ++ [item])) ->
  forall items s, 0 <= s.1 -> Forall (fun i => blen i <= per) items -> s.1 + total_len items <= max ->
  parses (piter (length items) f s) (fmt_items items) (s.1 + total_len items, s.2 ++ items).
Proof.
  intros Hf items. induction items as [|i items IH]; intros s H0 Hl Ht; cbn [piter length].
  - unfold total_len, fmt_items. simpl. change (blen []) with 0. rewrite app_nil_r, Z.add_0_r.
    destruct s. apply parses_ret.
  - apply Forall_cons in Hl as [Hi Hl]. rewrite total_len_cons in *.
    pose proof (total_len_nonneg items). pose proof (blen_nonneg i).
    unfold fmt_items. simpl. eapply parses_bind; [apply Hf; lia|].
    replace (s.1 + (blen i + total_len items), s.2 ++ i :: items)
      with ((s.1 + blen i) + total_len items, (s.2 ++ [i]) ++ items)
      by (f_equal; [lia|by rewrite <- (assoc_L (++))]).
    apply (IH (s.1 + blen i, s.2 ++ [i])); simpl; [lia|done|lia].
Qed.
End BudgetLoop.

(** ** [StateAccessPlanV1] *)

Module AccessPlan.
Record t := mk { version : byte; keys : list bytes }.

Definition from_keys (ks : list bytes) : result t WireError :=
  let keys := dedup (sort_by_key id ks) in
  bail_if (blen keys >? MAX_RECOVERY_CHANGES)
          || existsb (fun key => blen key >? MAX_STATE_KEY_BYTES) keys
    with TooManyItems ;;
  Ok (mk MANAGED_STATE_PROTOCOL_VERSION keys).

Definition for_wallet (sender : bytes) (application_keys : list bytes) : result t WireError :=
  let nonce_key := Keys.wallet_nonce_key_v1 sender in
  from_keys (nonce_key :: application_keys).

Definition for_public (application_keys : list bytes) : result t WireError :=
  from_keys application_keys.

Definition write_key (w : Writer.t) (key : bytes) : result Writer.t WireError :=
  bail_if blen key >? MAX_STATE_KEY_BYTES with TooManyItems ;;
  Writer.bytes_u32 w key.

Definition encode (p : t) : result bytes WireError :=
  bail_if negb (bool_decide (version p = MANAGED_STATE_PROTOCOL_VERSION))
          || (blen (keys p) >? MAX_RECOVERY_CHANGES)
    with TooManyItems ;;
  let w := Writer.u8 Writer.new (version p) in
  let w := Writer.u32 w (blen (keys p)) in
  let? w := rfold write_key w (keys p) in
  Ok (Writer.finish w).

Definition parse : parser WireError t :=
  version ← Rd.u8;
  pbail (negb (bool_decide (version = MANAGED_STATE_PROTOCOL_VERSION))) UnsupportedVersion;;
  count ← Rd.u32;
  pbail (count >? MAX_RECOVERY_CHANGES) TooManyItems;;
  keys ← prepeat (Z.to_nat count) (Rd.bytes_limited MAX_STATE_KEY_BYTES);
  mret (mk version keys).

Definition decode (b : bytes) : result t WireError :=
  let? plan := run_to_end InvalidEncoding parse b in
  let? canonical := from_keys (keys plan) in
  bail_if negb (bool_decide (keys canonical = keys plan)) with UnsortedKeys ;;
  Ok plan.

(** *** Specification *)

Definition keys_ok (ks : list bytes) : Prop :=
  blen ks <= MAX_RECOVERY_CHANGES /\ Forall (fun k => blen k <= MAX_STATE_KEY_BYTES) ks.
Definition valid (p : t) : Prop :=
  version p = MANAGED_STATE_PROTOCOL_VERSION /\ keys_ok (keys p) /\ key_ssorted id (keys p).
Definition fmt (p : t) : bytes :=
  [version p] ++ to_le_bytes 4 (blen (keys p)) ++ concat (map fmt_bytes_u32 (keys p)).

Lemma from_keys_Ok ks p :
  from_keys ks = Ok p <->
  p = mk MANAGED_STATE_PROTOCOL_VERSION (dedup (sort_by_key id ks))
  /\ keys_ok (dedup (sort_by_key id ks)).
Proof.
  unfold from_keys, keys_ok. rewrite bail_if_Ok, orb_false_iff, Z.gtb_ltb, Z.ltb_ge.
  assert (forall l, existsb (fun key : bytes => blen key >? MAX_STATE_KEY_BYTES) l = false <->
    Forall (fun k => blen k <= MAX_STATE_KEY_BYTES) l) as ->.
  { intros l. induction l as [|k l IH]; simpl; [by split|].
    by rewrite orb_false_iff, IH, Forall_cons, Z.gtb_ltb, Z.ltb_ge. }
  naive_solver.
Qed.

Lemma from_keys_valid ks p : from_keys ks = Ok p -> valid p.
Proof.
  intros [-> Hk]%from_keys_Ok. split; [done|]. split; [done|].
  apply dedup_ssorted, sort_by_key_sorted.
Qed.

Lemma from_keys_canonical ks :
  keys_ok ks -> key_ssorted id ks -> from_keys ks = Ok (mk MANAGED_STATE_PROTOCOL_VERSION ks).
Proof.
  intros Hk Hs. assert (dedup (sort_by_key id ks) = ks) as Hd.
  { rewrite sort_by_key_id by (by apply key_ssorted_sorted). by apply dedup_id. }
  apply from_keys_Ok. by rewrite Hd.
Qed.

Lemma write_key_Ok w k w' :
  write_key w k = Ok w' <->
  blen k <= MAX_STATE_KEY_BYTES /\ Writer.buf w' = Writer.buf w ++ fmt_bytes_u32 k.
Proof.
  unfold write_key. rewrite bail_if_Ok, writer_bytes_u32_Ok, Z.gtb_ltb, Z.ltb_ge.
  unfold_limits. naive_solver lia.
Qed.

Lemma access_plan_encode_Ok p b :
  encode p = Ok b <->
  version p = MANAGED_STATE_PROTOCOL_VERSION /\ keys_ok (keys p) /\ b = fmt p.
Proof.
  unfold encode, Writer.finish, keys_ok. split.
  - intros H. result_inv. to_prop.
    match goal with H : rfold _ _ _ = _ |- _ =>
      apply (rfold_append _ _ _ _ write_key_Ok) in H as [Hk Hw] end.
    split; [done|]. split; [split; [lia|done]|]. by rewrite Hw.
  - intros (Hv & (Hn & Hk) & ->). rewrite bool_decide_eq_true_2, gtb_false by done. cbn [negb orb].
    set (w := Writer.u32 _ _).
    destruct (rfold_total write_key (fun k => blen k <= MAX_STATE_KEY_BYTES)) with (l := keys p) (s := w)
      as [w' Hw']; [|done|].
    { intros s k Hs. exists (Writer.mk (Writer.buf s ++ fmt_bytes_u32 k)). by apply write_key_Ok. }
    rewrite Hw'. apply (rfold_append _ _ _ _ write_key_Ok) in Hw' as [_ Hw']. simpl.
    by rewrite Hw'.
Qed.

Lemma parses_keys ks :
  Forall (fun k => blen k <= MAX_STATE_KEY_BYTES) ks ->
  parses (prepeat (length ks) (Rd.bytes_limited MAX_STATE_KEY_BYTES)) (concat (map fmt_bytes_u32 ks)) ks.
Proof.
  intros Hk. apply parses_repeat. intros k Hin. rewrite Forall_forall in Hk. specialize (Hk _ Hin).
  apply parses_bytes_limited; unfold_limits; lia.
Qed.

Lemma yields_keys n :
  yields (prepeat n (Rd.bytes_limited MAX_STATE_KEY_BYTES))
    (fun x ks => x = concat (map fmt_bytes_u32 ks) /\ length ks = n).
Proof.
  eapply yields_mono; [apply yields_repeat, yields_bytes_limited|].
  intros x ks (xs & -> & H & Hn). by apply concat_map_Forall2 in H as [-> _].
Qed.

Lemma fmt_slice p : keys_ok (keys p) -> slice_ok (fmt p).
Proof.
  intros [Hn Hk]. unfold fmt, slice_ok. rewrite !blen_app, blen_to_le_bytes, blen_cons, blen_nil.
  assert (forall ks, Forall (fun k => blen k <= MAX_STATE_KEY_BYTES) ks ->
    blen (concat (map fmt_bytes_u32 ks)) <= (4 + MAX_STATE_KEY_BYTES) * blen ks) as Hc.
  { intros ks. induction 1 as [|k ks H _ IH]; simpl; [done|].
    rewrite blen_app, blen_cons, blen_fmt_bytes_u32. lia. }
  specialize (Hc _ Hk). unfold_limits. lia.
Qed.

Lemma access_plan_yields_parse :
  yields parse (fun x p => x = fmt p /\ version p = MANAGED_STATE_PROTOCOL_VERSION).
Proof.
  unfold parse. yield_field. intros v x ->. yield_field. intros [] x [-> Hv]. to_prop.
  yield_field. intros n x [-> Hn]. yield_field. intros [] x [-> Hc].
  eapply yields_bind; [apply yields_keys|]. intros ks x (-> & Hlen). apply yields_ret.
  rewrite !app_nil_r. unfold fmt. simpl. unfold blen. rewrite Hlen, Z2Nat.id; [done|]. apply Hn.
Qed.

Lemma access_plan_decode_sound b p : decode b = Ok p -> valid p /\ encode p = Ok b.
Proof.
  intros H. unfold decode in H. result_inv. to_prop.
  match goal with H : run_to_end _ _ _ = _ |- _ =>
    apply (run_to_end_yields _ _ _ _ _ access_plan_yields_parse) in H as [-> Hv] end.
  match goal with H : from_keys _ = _, Heq : keys _ = keys p |- _ =>
    apply from_keys_valid in H as (_ & Hk & Hs); rewrite Heq in Hk, Hs end.
  by rewrite access_plan_encode_Ok.
Qed.

Lemma access_plan_decode_iff b p : slice_ok b -> (decode b = Ok p <-> valid p /\ encode p = Ok b).
Proof.
  intros Hb. split; [apply access_plan_decode_sound|].
  rewrite access_plan_encode_Ok. unfold decode.
  intros [(Hv & [Hn Hk] & Hs) (_ & _ & ->)].
  rewrite (run_to_end_parses _ _ _ p); [|clear Hb|done].
  - cbn [rbind]. rewrite from_keys_canonical by done. simpl. by rewrite bool_decide_eq_true_2.
  - unfold parse, fmt. pose proof (blen_nonneg (keys p)).
    parse_field; [apply parses_u8|]. parse_field; [by rewrite bool_decide_eq_true_2|].
    parse_field; [apply parses_u32; unfold_limits; lia|]. parse_field; [by apply gtb_false|].
    rewrite <- (app_nil_r (concat _)). unfold blen at 1. rewrite Nat2Z.id.
    parse_field; [by apply parses_keys|]. apply parses_ret'. by destruct p.
Qed.
End AccessPlan.

(** ** [ManagedStateWitnessV1] *)

Module StateWitness.
Record t := mk {
  version : byte; parent_root : bytes; access_plan : AccessPlan.t; storage_proof : list bytes
}.
Definition VERSION : byte := x01.

Definition encode (s : t) : result bytes WireError :=
  bail_if negb (bool_decide (version s = VERSION)) || (blen (storage_proof s) >? MAX_WITNESS_NODES)
    with UnsupportedVersion ;;
  let? plan := AccessPlan.encode (access_plan s) in
  bail_if blen plan >? MAX_ACCESS_PLAN_ENCODED_BYTES with TooManyItems ;;
  let w := Writer.u8 Writer.new (version s) in
  let w := Writer.raw w (parent_root s) in
  let? w := Writer.bytes_u32 w plan in
  let? count := ok_or (u32_try_from (blen (storage_proof s))) LengthOverflow in
  let w := Writer.u32 w count in
  let? '(w, _) := rfold (write_budgeted MAX_WITNESS_NODE_BYTES MAX_WITNESS_BYTES) (w, 0) (storage_proof s) in
  Ok (Writer.finish w).

Definition read_node (st : Z * list bytes) : parser WireError (Z * list bytes) :=
  remaining ← plift (ok_or (checked_sub MAX_WITNESS_BYTES st.1) TooManyItems);
  node ← Rd.bytes_limited (Z.min remaining MAX_WITNESS_NODE_BYTES);
  total ← plift (ok_or (checked_add USIZE_MAX st.1 (blen node)) LengthOverflow);
  mret (total, st.2 ++ [node]).

Definition parse : parser WireError t :=
  version ← Rd.u8;
  pbail (negb (bool_decide (version = VERSION))) UnsupportedVersion;;
  parent_root ← Rd.array 32;
  plan ← Rd.bytes_limited MAX_ACCESS_PLAN_ENCODED_BYTES;
  access_plan ← plift (AccessPlan.decode plan);
  count ← Rd.u32;
  pbail (count >? MAX_WITNESS_NODES) TooManyItems;;
  st ← piter (Z.to_nat count) read_node (0, []);
  mret (mk version parent_root access_plan st.2).

Definition decode (b : bytes) : result t WireError :=
  bail_if blen b >? MAX_WITNESS_V1_ENCODED_BYTES with TooManyItems ;;
  run_to_end InvalidEncoding parse b.

(** *** Specification *)

Definition valid (s : t) : Prop :=
  version s = VERSION /\ array_ok 32 (parent_root s) /\ AccessPlan.valid (access_plan s).
Definition proof_ok (s : t) : Prop :=
  blen (storage_proof s) <= MAX_WITNESS_NODES
  /\ within_budget MAX_WITNESS_NODE_BYTES MAX_WITNESS_BYTES (storage_proof s).
Definition fmt (s : t) : bytes :=
  [version s] ++ parent_root s ++ fmt_bytes_u32 (AccessPlan.fmt (access_plan s))
  ++ to_le_bytes 4 (blen (storage_proof s)) ++ fmt_items (storage_proof s).

Lemma state_witness_encode_Ok s b :
  valid s ->
  encode s = Ok b <->
  proof_ok s /\ blen (AccessPlan.fmt (access_plan s)) <= MAX_ACCESS_PLAN_ENCODED_BYTES /\ b = fmt s.
Proof.
  intros (Hv & Hp & Hav & Hak & Has). unfold encode, Writer.finish, proof_ok, within_budget.
  rewrite bool_decide_eq_true_2 by done. cbn [negb orb].
  rewrite (proj2 (AccessPlan.access_plan_encode_Ok (access_plan s) _)) by done. cbn [rbind]. split.
  - intros H. result_inv. to_prop.
    match goal with H : Writer.bytes_u32 _ _ = _ |- _ => apply writer_bytes_u32_Ok in H as [Hl Hw] end.
    unfold u32_try_from, try_from_max in *. case_match; simplify_eq.
    match goal with H : rfold _ _ _ = _ |- _ =>
      apply write_budgeted_loop in H as (Hn & -> & Ht & Hb); [|unfold_limits; lia] end.
    rewrite Hb. simpl. rewrite Hw. unfold fmt. simpl. split; [split; [lia|split; [done|lia]]|].
    split; [lia|]. by rewrite <- !(assoc_L (++)).
  - intros ((Hn & Hper & Htot) & Hpl & ->). rewrite !gtb_false by done.
    rewrite writer_bytes_u32_eq by (unfold_limits; lia). cbn [rbind].
    unfold u32_try_from, try_from_max. rewrite (proj2 (Z.leb_le _ _)) by (unfold_limits; lia).
    cbn [ok_or rbind]. rewrite write_budgeted_total; [|unfold_limits; lia..|done|unfold_limits; lia].
    simpl. unfold fmt. by rewrite <- !(assoc_L (++)).
Qed.

(** What the encoder produces is within the decoder's size limit. *)
Lemma encode_len s b :
  array_ok 32 (parent_root s) -> encode s = Ok b -> blen b <= MAX_WITNESS_V1_ENCODED_BYTES.
Proof.
  unfold encode, array_ok. intros Hp H. result_inv. to_prop.
  match goal with H : Writer.bytes_u32 _ _ = _ |- _ => apply writer_bytes_u32_Ok in H as [Hl Hw] end.
  match goal with H : rfold _ _ _ = _ |- _ =>
    apply write_budgeted_loop in H as (Hn & -> & Ht & Hb); [|unfold_limits; lia] end.
  unfold Writer.finish. rewrite Hb. simpl. rewrite Hw. simpl. rewrite blen_cons, !blen_app.
  rewrite blen_fmt_bytes_u32, blen_to_le_bytes, blen_fmt_items. unfold_limits. lia.
Qed.

Lemma yields_read_node s :
  0 <= s.1 <= MAX_WITNESS_BYTES ->
  yields (read_node s) (fun x s' => exists item,
     s' = (s.1 + blen item, s.2 ++ [item]) /\ x = fmt_bytes_u32 item
     /\ blen item <= MAX_WITNESS_NODE_BYTES /\ s.1 + blen item <= MAX_WITNESS_BYTES).
Proof.
  intros Hs. unfold read_node. yield_field. intros r x [-> Hr]. result_inv.
  unfold checked_sub in Hr. case_match; simplify_eq.
  yield_field. intros node x (-> & Hn & _). yield_field. intros t x [-> Ht]. result_inv.
  unfold checked_add in Ht. case_match; simplify_eq. apply yields_ret. exists node.
  rewrite !app_nil_r. split; [done|]. split; [done|]. lia.
Qed.

Lemma parses_read_node s item :
  0 <= s.1 -> blen item <= MAX_WITNESS_NODE_BYTES -> s.1 + blen item <= MAX_WITNESS_BYTES ->
  parses (read_node s) (fmt_bytes_u32 item) (s.1 + blen item, s.2 ++ [item]).
Proof.
  intros H0 Hi Ht. unfold read_node. pose proof (blen_nonneg item).
  parse_field; [unfold checked_sub; by rewrite (proj2 (Z.leb_le _ _)) by lia|].
  rewrite <- (app_nil_r (fmt_bytes_u32 item)).
  parse_field; [apply parses_bytes_limited; [lia|unfold_limits; lia]|].
  parse_field; [unfold checked_add; rewrite (proj2 (Z.leb_le _ _)) by (unfold_limits; lia); done|].
  apply parses_ret.
Qed.

Lemma state_witness_yields_parse :
  yields parse (fun x s => x = fmt s /\ valid s /\ proof_ok s
    /\ blen (AccessPlan.fmt (access_plan s)) <= MAX_ACCESS_PLAN_ENCODED_BYTES).
Proof.
  unfold parse. yield_field. intros v x ->. yield_field. intros [] x [-> Hv]. to_prop.
  yield_field. intros ? p [-> Hp]. yield_field. intros pl x (-> & Hpl & _).
  yield_field. intros plan x [-> [Hval Henc]%AccessPlan.access_plan_decode_sound].
  apply AccessPlan.access_plan_encode_Ok in Henc as (_ & _ & ->).
  yield_field. intros n x [-> Hn]. yield_field. intros [] x [-> Hc]. to_prop.
  eapply yields_bind; [apply (yields_budget_loop MAX_WITNESS_NODE_BYTES MAX_WITNESS_BYTES);
    [apply yields_read_node|unfold_limits; simpl; lia]|].
  intros s x (items & Hlen & -> & -> & Hper & Htot). apply yields_ret.
  rewrite !app_nil_r. unfold fmt, valid, proof_ok, within_budget, blen in *. simpl in *.
  rewrite Hlen, Z2Nat.id by apply Hn. repeat split; try done; apply Hval.
Qed.

Lemma state_witness_decode_iff b s : decode b = Ok s <-> valid s /\ encode s = Ok b.
Proof.
  unfold decode. split.
  - intros H. result_inv. apply (run_to_end_yields _ _ _ _ _ state_witness_yields_parse) in H as (-> & Hv & Hp & Hl).
    split; [done|]. by apply state_witness_encode_Ok.
  - intros [Hval Henc]. pose proof (encode_len s b (proj1 (proj2 Hval)) Henc) as Hlen.
    rewrite gtb_false by done.
    apply state_witness_encode_Ok in Henc as ((Hn & Hper & Htot) & Hpl & ->); [|done].
    destruct Hval as (Hv & Hp & Hav). apply run_to_end_parses; [|unfold_limits; lia].
    unfold parse, fmt. pose proof (blen_nonneg (storage_proof s)).
    parse_field; [apply parses_u8|]. parse_field; [by rewrite bool_decide_eq_true_2|].
    parse_field; [by apply parses_array|].
    parse_field; [apply parses_bytes_limited; unfold_limits; lia|].
    parse_field; [apply AccessPlan.access_plan_decode_iff; [unfold_limits; lia|]; split; [done|];
      apply AccessPlan.access_plan_encode_Ok; split; [apply Hav|]; split; [apply Hav|done]|].
    parse_field; [apply parses_u32; unfold_limits; lia|]. parse_field; [by apply gtb_false|].
    rewrite <- (app_nil_r (fmt_items _)). unfold blen at 1. rewrite Nat2Z.id.
    parse_field; [apply (parses_budget_loop MAX_WITNESS_NODE_BYTES MAX_WITNESS_BYTES);
      [apply parses_read_node|simpl; lia|done|simpl; lia]|].
    apply parses_ret'. by destruct s.
Qed.
End StateWitness.
