(* ===== verification/RefineInput.v ===== *)
(** * External witnesses and [RuntimeRefineInputV1]

    The input of a refine invocation: the managed-state witness of the service,
    the witnesses of the other services it reads, and the actions. *)

From S2P Require Import Prelude Ordering Reader Wire ServiceKeys StateView StateDiff Records Witness.

(** ** [ExternalStateWitnessV1] *)

Module ExternalWitness.
Record t := mk { service_id : Z; managed_state : StateWitness.t }.

(** One iteration of [encode_external_witnesses]: the writer, the previous
    service id and the running total. *)
Definition write_external (st : Writer.t * option Z * Z) (x : t)
    : result (Writer.t * option Z * Z) WireError :=
  let '(w, previous, total) := st in
  bail_if bool_decide (previous = Some (service_id x)) with DuplicateServiceId ;;
  let previous := Some (service_id x) in
  let? encoded := StateWitness.encode (managed_state x) in
  let? total := ok_or (checked_add USIZE_MAX total (blen encoded)) LengthOverflow in
  bail_if total >? MAX_EXTERNAL_WITNESS_TOTAL_BYTES with TooManyItems ;;
  let w := Writer.u32 w (service_id x) in
  let? w := Writer.bytes_u32 w encoded in
  Ok (w, previous, total).

Definition encode_external_witnesses (witnesses : list t) : result bytes WireError :=
  bail_if blen witnesses >? MAX_EXTERNAL_STATE_WITNESSES with TooManyItems ;;
  let ordered := sort_by_key service_id witnesses in
  let? count := ok_or (u32_try_from (blen ordered)) LengthOverflow in
  let w := Writer.u32 Writer.new count in
  let? '(w, _, _) := rfold write_external (w, None, 0) ordered in
  let encoded := Writer.finish w in
  bail_if blen encoded >? MAX_EXTERNAL_WITNESS_TOTAL_BYTES with TooManyItems ;;
  Ok encoded.

Definition read_external (st : option Z * list t) : parser WireError (option Z * list t) :=
  service_id ← Rd.u32;
  pbail (match st.1 with Some previous => service_id <=? previous | None => false end)
    (if bool_decide (st.1 = Some service_id) then DuplicateServiceId else UnsortedDependencies);;
  w ← Rd.bytes_limited MAX_WITNESS_V1_ENCODED_BYTES;
  managed_state ← plift (StateWitness.decode w);
  mret (Some service_id, st.2 ++ [mk service_id managed_state]).

Definition parse : parser WireError (list t) :=
  count ← Rd.u32;
  pbail (count >? MAX_EXTERNAL_STATE_WITNESSES) TooManyItems;;
  st ← piter (Z.to_nat count) read_external (None, []);
  mret st.2.

Definition decode_external_witnesses (b : bytes) : result (list t) WireError :=
  run_to_end InvalidEncoding parse b.

(** *** Specification *)

Definition item_ok (x : t) : Prop := u32_ok (service_id x) /\ StateWitness.valid (managed_state x).
Definition valid (l : list t) : Prop := Forall item_ok l /\ key_ssorted service_id l.
Definition encodable (x : t) : Prop :=
  StateWitness.proof_ok (managed_state x)
  /\ blen (AccessPlan.fmt (StateWitness.access_plan (managed_state x))) <= MAX_ACCESS_PLAN_ENCODED_BYTES.
Definition fmt_item (x : t) : bytes :=
  to_le_bytes 4 (service_id x) ++ fmt_bytes_u32 (StateWitness.fmt (managed_state x)).
Definition fmt (l : list t) : bytes := to_le_bytes 4 (blen l) ++ concat (map fmt_item l).

Lemma encodable_encode x :
  item_ok x -> encodable x <-> StateWitness.encode (managed_state x) = Ok (StateWitness.fmt (managed_state x)).
Proof.
  intros [_ Hv]. unfold encodable. rewrite StateWitness.state_witness_encode_Ok by done. naive_solver.
Qed.

Lemma encodable_len x :
  item_ok x -> encodable x -> blen (StateWitness.fmt (managed_state x)) <= MAX_WITNESS_V1_ENCODED_BYTES.
Proof.
  intros Hi He. pose proof Hi as [_ (_ & Hr & _)].
  eapply StateWitness.encode_len; [done|]. by apply encodable_encode.
Qed.

Lemma write_externals l : forall st st',
  Forall item_ok l -> rfold write_external st l = Ok st' ->
  Writer.buf st'.1.1 = Writer.buf st.1.1 ++ concat (map fmt_item l) /\ Forall encodable l.
Proof.
  induction l as [|x l IH]; intros [[w prev] total] st' Hl H; simpl in H.
  - result_inv. simpl. by rewrite app_nil_r.
  - apply Forall_cons in Hl as [Hx Hl]. result_inv. to_prop.
    match goal with H : StateWitness.encode _ = _ |- _ => pose proof H as Henc end.
    apply StateWitness.state_witness_encode_Ok in Henc as (Hp & Hpl & ->); [|apply Hx].
    match goal with H : Writer.bytes_u32 _ _ = _ |- _ => apply writer_bytes_u32_Ok in H as [_ Hw] end.
    match goal with H : rfold _ _ _ = _ |- _ => apply IH in H as [Hb He]; [|done] end.
    simpl in *. rewrite Hb, Hw. split; [|constructor; [split; done|done]].
    unfold fmt_item. by rewrite <- !(assoc_L (++)).
Qed.

Lemma blen_fmt_item x :
  blen (fmt_item x) = 8 + blen (StateWitness.fmt (managed_state x)).
Proof. unfold fmt_item. autorewrite with blen. lia. Qed.

Lemma write_externals_total l : forall w prev total,
  Forall item_ok l -> Forall encodable l -> key_ssorted service_id l ->
  match prev with Some p => Forall (fun x => p < service_id x) l | None => True end ->
  0 <= total -> total + blen (concat (map fmt_item l)) <= MAX_EXTERNAL_WITNESS_TOTAL_BYTES ->
  exists st', rfold write_external (w, prev, total) l = Ok st'.
Proof.
  induction l as [|x l IH]; intros w prev total Hi He Hs Hp H0 Ht; simpl; [eauto|].
  apply Forall_cons in Hi as [Hx Hi]. apply Forall_cons in He as [Hex He].
  apply StronglySorted_inv in Hs as [Hs Hlt].
  simpl in Ht. rewrite blen_app, blen_fmt_item in Ht.
  pose proof (blen_nonneg (concat (map fmt_item l))).
  pose proof (blen_nonneg (StateWitness.fmt (managed_state x))).
  rewrite bool_decide_eq_false_2.
  2: { destruct prev as [p|]; [|done]. apply Forall_cons in Hp as [Hp _]. intros [= ->]. lia. }
  apply encodable_encode in Hex as ->; [|done]. cbn [rbind].
  unfold checked_add. rewrite (proj2 (Z.leb_le _ _)) by (unfold_limits; lia). cbn [ok_or rbind].
  rewrite gtb_false by lia. rewrite writer_bytes_u32_eq by (unfold_limits; lia). cbn [rbind].
  apply IH; try done; lia.
Qed.

Lemma external_witness_encode_Ok l b :
  valid l ->
  encode_external_witnesses l = Ok b <->
  blen l <= MAX_EXTERNAL_STATE_WITNESSES /\ Forall encodable l /\ b = fmt l
  /\ blen b <= MAX_EXTERNAL_WITNESS_TOTAL_BYTES.
Proof.
  intros [Hi Hs]. unfold encode_external_witnesses, Writer.finish.
  rewrite sort_by_key_id by (by apply key_ssorted_sorted). split.
  - intros H. result_inv. to_prop. unfold u32_try_from, try_from_max in *. case_match; simplify_eq.
    match goal with H : rfold _ _ _ = _ |- _ => apply write_externals in H as [Hw He]; [|done] end.
    simpl in *. rewrite Hw in *. split; [lia|]. split; [done|]. split; [done|lia].
  - intros (Hn & He & -> & Hlen). rewrite gtb_false by done.
    unfold u32_try_from, try_from_max. rewrite (proj2 (Z.leb_le _ _)) by (unfold_limits; lia).
    cbn [ok_or rbind].
    set (w0 := Writer.u32 Writer.new (blen l)).
    unfold fmt in Hlen. rewrite blen_app, blen_to_le_bytes in Hlen.
    destruct (write_externals_total l w0 None 0) as [[[w' p'] t'] Hst]; try done; [lia|].
    rewrite Hst. apply write_externals in Hst as [Hw _]; [|done]. simpl in *. rewrite Hw. simpl.
    rewrite gtb_false; [done|]. rewrite blen_app, blen_to_le_bytes. lia.
Qed.

Definition after (prev : option Z) (l : list t) : Prop :=
  match prev with Some p => Forall (fun x => p < service_id x) l | None => True end.

Lemma yields_read_loop n : forall s,
  yields (piter n read_external s) (fun x s' => exists l,
    length l = n /\ s'.2 = s.2 ++ l /\ x = concat (map fmt_item l) /\ Forall item_ok l
    /\ Forall encodable l /\ key_ssorted service_id l /\ after s.1 l).
Proof.
  induction n as [|n IH]; intros s; cbn [piter].
  - apply yields_ret. exists []. simpl. rewrite app_nil_r. unfold after.
    repeat split; try constructor. by destruct s.1.
  - eapply yields_bind with (Q := fun x s' => exists i,
      s' = (Some (service_id i), s.2 ++ [i]) /\ x = fmt_item i /\ item_ok i /\ encodable i
      /\ match s.1 with Some p => p < service_id i | None => True end).
    + unfold read_external. yield_field. intros sid x [-> Hsid]. yield_field. intros [] x [-> Hg].
      yield_field. intros wb x (-> & _ & _). yield_field. intros ms x [-> [Hv Henc]%StateWitness.state_witness_decode_iff].
      apply StateWitness.state_witness_encode_Ok in Henc as (Hp & Hpl & ->); [|done].
      apply yields_ret. exists (mk sid ms). rewrite !app_nil_r. split; [done|]. split; [done|].
      split; [done|]. split; [done|]. destruct s.1; [|done]. to_prop. done.
    + intros s' x (i & -> & -> & Hi & He & Hlt). eapply yields_mono; [apply IH|].
      intros y s'' (l & <- & Hs'' & -> & Hl & Hel & Hs & Ha). cbn [fst snd after] in *.
      exists (i :: l). rewrite Hs'', <- (assoc_L (++)). split; [done|]. split; [done|].
      split; [done|]. split; [by constructor|]. split; [by constructor|]. split.
      * constructor; [done|]. eapply Forall_impl; [exact Ha|]. done.
      * unfold after. destruct s.1; [|done]. constructor; [done|].
        eapply Forall_impl; [exact Ha|]. simpl. lia.
Qed.

Lemma parses_read_loop l : forall s,
  Forall item_ok l -> Forall encodable l -> key_ssorted service_id l -> after s.1 l ->
  exists p, parses (piter (length l) read_external s) (concat (map fmt_item l)) (p, s.2 ++ l).
Proof.
  induction l as [|x l IH]; intros s Hi He Hs Ha; cbn [piter length].
  - exists s.1. simpl. rewrite app_nil_r. destruct s. apply parses_ret.
  - apply Forall_cons in Hi as [Hx Hi]. apply Forall_cons in He as [Hex He].
    apply StronglySorted_inv in Hs as [Hs Hlt].
    destruct (IH (Some (service_id x), s.2 ++ [x])) as [p Hp]; try done.
    exists p. simpl. eapply parses_bind.
    2: { simpl in Hp. rewrite <- (assoc_L (++)) in Hp. exact Hp. }
    pose proof (encodable_len x Hx Hex) as Hlen.
    unfold read_external, fmt_item. parse_field; [apply parses_u32, Hx|].
    parse_field.
    { destruct s.1; [|done]. unfold after in Ha. apply Forall_cons in Ha as [? _].
      apply Z.leb_gt. lia. }
    rewrite <- (app_nil_r (fmt_bytes_u32 _)).
    parse_field; [apply parses_bytes_limited; unfold_limits; lia|].
    parse_field; [apply StateWitness.state_witness_decode_iff; split; [apply Hx|by apply encodable_encode]|].
    apply parses_ret'. by destruct x.
Qed.

Lemma external_witness_decode_iff l b :
  blen b <= MAX_EXTERNAL_WITNESS_TOTAL_BYTES ->
  (decode_external_witnesses b = Ok l <-> valid l /\ encode_external_witnesses l = Ok b).
Proof.
  intros Hb. unfold decode_external_witnesses. split.
  - assert (yields parse (fun x l => x = fmt l /\ valid l /\ Forall encodable l
      /\ blen l <= MAX_EXTERNAL_STATE_WITNESSES)) as Hy.
    { unfold parse. yield_field. intros n x [-> Hn]. yield_field. intros [] x [-> Hc]. to_prop.
      eapply yields_bind; [apply yields_read_loop|].
      intros s x (k & Hlen & -> & -> & Hk & He & Hs & _). apply yields_ret. rewrite !app_nil_r.
      unfold fmt, valid, blen in *. simpl. rewrite Hlen, Z2Nat.id by apply Hn. done. }
    intros (-> & Hv & He & Hn)%(run_to_end_yields _ _ _ _ _ Hy). split; [done|].
    by apply external_witness_encode_Ok.
  - intros [Hv (Hn & He & -> & Hlen)%external_witness_encode_Ok]; [|done].
    apply run_to_end_parses; [|unfold_limits; lia]. unfold parse, fmt.
    pose proof (blen_nonneg l). destruct Hv as [Hi Hs].
    parse_field; [apply parses_u32; unfold_limits; lia|]. parse_field; [by apply gtb_false|].
    destruct (parses_read_loop l (None, [])) as [p Hp]; try done.
    rewrite <- (app_nil_r (concat _)). unfold blen at 1. rewrite Nat2Z.id.
    parse_field; [exact Hp|]. apply parses_ret.
Qed.

(** Encoding sorts, so a permutation of a valid list encodes alike. *)
Lemma encode_sorted l :
  NoDup (map service_id l) ->
  encode_external_witnesses l = encode_external_witnesses (sort_by_key service_id l).
Proof.
  intros Hnd. unfold encode_external_witnesses.
  rewrite (sort_by_key_id service_id (sort_by_key service_id l)) by apply sort_by_key_sorted.
  by rewrite blen_sort_by_key.
Qed.

End ExternalWitness.

(** ** [RuntimeRefineInputV1] *)

Module RefineInput.
Record t := mk {
  version : byte; managed_state : StateWitness.t;
  external_state : list ExternalWitness.t; actions : list bytes
}.
Definition VERSION : byte := x01.

Definition encode (i : t) : result bytes WireError :=
  bail_if negb (bool_decide (version i = VERSION)) || (blen (actions i) >? MAX_RUNTIME_ACTIONS)
    with UnsupportedVersion ;;
  let? witness := StateWitness.encode (managed_state i) in
  let? external_state := ExternalWitness.encode_external_witnesses (external_state i) in
  let w := Writer.u8 Writer.new (version i) in
  let? w := Writer.bytes_u32 w witness in
  let? w := Writer.bytes_u32 w external_state in
  let? count := ok_or (u32_try_from (blen (actions i))) LengthOverflow in
  let w := Writer.u32 w count in
  let? '(w, _) := rfold (write_budgeted MAX_RUNTIME_ACTION_BYTES MAX_RUNTIME_ACTION_TOTAL_BYTES)
                    (w, 0) (actions i) in
  Ok (Writer.finish w).

Definition read_action (st : Z * list bytes) : parser WireError (Z * list bytes) :=
  action ← Rd.bytes_limited MAX_RUNTIME_ACTION_BYTES;
  total ← plift (ok_or (checked_add USIZE_MAX st.1 (blen action)) LengthOverflow);
  pbail (total >? MAX_RUNTIME_ACTION_TOTAL_BYTES) TooManyItems;;
  mret (total, st.2 ++ [action]).

Definition parse : parser WireError t :=
  version ← Rd.u8;
  pbail (negb (bool_decide (version = VERSION))) UnsupportedVersion;;
  w ← Rd.bytes_limited MAX_WITNESS_V1_ENCODED_BYTES;
  managed_state ← plift (StateWitness.decode w);
  e ← Rd.bytes_limited MAX_EXTERNAL_WITNESS_TOTAL_BYTES;
  external_state ← plift (ExternalWitness.decode_external_witnesses e);
  count ← Rd.u32;
  pbail (count >? MAX_RUNTIME_ACTIONS) TooManyItems;;
  st ← piter (Z.to_nat count) read_action (0, []);
  mret (mk version managed_state external_state st.2).

Definition decode (b : bytes) : result t WireError := run_to_end InvalidEncoding parse b.

(** *** Specification *)

Definition valid (i : t) : Prop :=
  version i = VERSION /\ StateWitness.valid (managed_state i) /\ ExternalWitness.valid (external_state i).
Definition actions_ok (i : t) : Prop :=
  blen (actions i) <= MAX_RUNTIME_ACTIONS
  /\ within_budget MAX_RUNTIME_ACTION_BYTES MAX_RUNTIME_ACTION_TOTAL_BYTES (actions i).
Definition fmt (i : t) (wit ext : bytes) : bytes :=
  [version i] ++ fmt_bytes_u32 wit ++ fmt_bytes_u32 ext
  ++ to_le_bytes 4 (blen (actions i)) ++ fmt_items (actions i).

Lemma refine_input_encode_Ok i b :
  encode i = Ok b <->
  version i = VERSION /\ actions_ok i /\ exists wit ext,
    StateWitness.encode (managed_state i) = Ok wit
    /\ ExternalWitness.encode_external_witnesses (external_state i) = Ok ext
    /\ blen wit <= U32_MAX /\ blen ext <= U32_MAX /\ b = fmt i wit ext.
Proof.
  unfold encode, Writer.finish, actions_ok, within_budget. split.
  - intros H. result_inv. to_prop.
    unfold u32_try_from, try_from_max in *. case_match; simplify_eq.
    match goal with H : rfold _ _ _ = _ |- _ =>
      apply write_budgeted_loop in H as (Hn & -> & Ht & Hb); [|unfold_limits; lia] end.
    repeat match goal with H : Writer.bytes_u32 _ _ = _ |- _ =>
      apply writer_bytes_u32_Ok in H as [? ?Hw] end.
    simpl in *. split; [done|]. split; [split; [lia|split; [done|lia]]|].
    eexists _, _. do 4 (split; [done|]). rewrite Hb, Hw, Hw0. unfold fmt.
    by rewrite <- !(assoc_L (++)).
  - intros (Hv & (Hn & Hper & Htot) & wit & ext & -> & -> & Hwit & Hext & ->).
    rewrite bool_decide_eq_true_2 by done. cbn [negb orb]. rewrite gtb_false by done.
    cbn [rbind]. rewrite writer_bytes_u32_eq by done. cbn [rbind].
    rewrite writer_bytes_u32_eq by done. cbn [rbind].
    unfold u32_try_from, try_from_max. rewrite (proj2 (Z.leb_le _ _)) by (unfold_limits; lia).
    cbn [ok_or rbind]. rewrite write_budgeted_total; [|unfold_limits; lia..|done|unfold_limits; lia].
    simpl. unfold fmt. by rewrite <- !(assoc_L (++)).
Qed.

Lemma yields_read_action s :
  0 <= s.1 <= MAX_RUNTIME_ACTION_TOTAL_BYTES ->
  yields (read_action s) (fun x s' => exists item,
     s' = (s.1 + blen item, s.2 ++ [item]) /\ x = fmt_bytes_u32 item
     /\ blen item <= MAX_RUNTIME_ACTION_BYTES /\ s.1 + blen item <= MAX_RUNTIME_ACTION_TOTAL_BYTES).
Proof.
  intros Hs. unfold read_action. yield_field. intros a x (-> & Ha & _).
  yield_field. intros t x [-> Ht]. result_inv. unfold checked_add in Ht. case_match; simplify_eq.
  yield_field. intros [] x [-> Hg]. to_prop. apply yields_ret. exists a. rewrite !app_nil_r.
  repeat split; lia.
Qed.

Lemma parses_read_action s item :
  0 <= s.1 -> blen item <= MAX_RUNTIME_ACTION_BYTES -> s.1 + blen item <= MAX_RUNTIME_ACTION_TOTAL_BYTES ->
  parses (read_action s) (fmt_bytes_u32 item) (s.1 + blen item, s.2 ++ [item]).
Proof.
  intros H0 Hi Ht. unfold read_action. pose proof (blen_nonneg item).
  rewrite <- (app_nil_r (fmt_bytes_u32 item)).
  parse_field; [apply parses_bytes_limited; unfold_limits; lia|].
  parse_field; [unfold checked_add; rewrite (proj2 (Z.leb_le _ _)) by (unfold_limits; lia); done|].
  parse_field; [apply gtb_false; lia|]. apply parses_ret.
Qed.

Lemma refine_input_yields_parse : yields parse (fun x i => valid i /\ encode i = Ok x).
Proof.
  unfold parse. yield_field. intros v x ->. yield_field. intros [] x [-> Hv]. to_prop.
  yield_field. intros wb x (-> & Hwb & Hwb'). yield_field. intros ms x [-> [Hms Hmse]%StateWitness.state_witness_decode_iff].
  yield_field. intros eb x (-> & Heb & Heb').
  yield_field. intros ext x [-> [He Hee]%ExternalWitness.external_witness_decode_iff]; [|done].
  yield_field. intros n x [-> Hn]. yield_field. intros [] x [-> Hc]. to_prop.
  eapply yields_bind; [apply (yields_budget_loop MAX_RUNTIME_ACTION_BYTES MAX_RUNTIME_ACTION_TOTAL_BYTES);
    [apply yields_read_action|unfold_limits; simpl; lia]|].
  intros s x (items & Hlen & -> & -> & Hper & Htot). apply yields_ret.
  rewrite !app_nil_r. split; [done|]. apply refine_input_encode_Ok. split; [done|].
  unfold actions_ok, within_budget, fmt, blen in *. simpl in *. rewrite Hlen, Z2Nat.id by apply Hn.
  split; [done|]. eexists wb, eb. done.
Qed.

Lemma refine_input_decode_iff b i : slice_ok b -> (decode b = Ok i <-> valid i /\ encode i = Ok b).
Proof.
  intros Hb. unfold decode. split; [exact (run_to_end_yields _ _ _ _ _ refine_input_yields_parse)|].
  intros [(Hv & Hw & He) (_ & (Hn & Hper & Htot) & wit & ext & Hwit & Hext & Hl1 & Hl2 & ->)%refine_input_encode_Ok].
  pose proof (StateWitness.encode_len _ _ (proj1 (proj2 Hw)) Hwit).
  assert (blen ext <= MAX_EXTERNAL_WITNESS_TOTAL_BYTES) by (apply ExternalWitness.external_witness_encode_Ok in Hext as (_ & _ & _ & ?); done).
  apply run_to_end_parses; [|done]. unfold parse, fmt. pose proof (blen_nonneg (actions i)).
  parse_field; [apply parses_u8|]. parse_field; [by rewrite bool_decide_eq_true_2|].
  parse_field; [by apply parses_bytes_limited|].
  parse_field; [by apply StateWitness.state_witness_decode_iff|].
  parse_field; [by apply parses_bytes_limited|].
  parse_field; [by apply ExternalWitness.external_witness_decode_iff|].
  parse_field; [apply parses_u32; unfold_limits; lia|]. parse_field; [by apply gtb_false|].
  rewrite <- (app_nil_r (fmt_items _)). unfold blen at 1. rewrite Nat2Z.id.
  parse_field; [apply (parses_budget_loop MAX_RUNTIME_ACTION_BYTES MAX_RUNTIME_ACTION_TOTAL_BYTES);
    [apply parses_read_action|simpl; lia|done|simpl; lia]|].
  apply parses_ret'. by destruct i.
Qed.

(** The input the decoder sees: the external witnesses in service order. *)
Definition ordered (i : t) : t :=
  mk (version i) (managed_state i) (sort_by_key ExternalWitness.service_id (external_state i)) (actions i).

Lemma encode_ordered i :
  NoDup (map ExternalWitness.service_id (external_state i)) -> encode (ordered i) = encode i.
Proof.
  intros Hnd. unfold encode, ordered. simpl. by rewrite (ExternalWitness.encode_sorted (external_state i)).
Qed.
End RefineInput.

(** An access plan built from keys is the sorted set of those keys: on
    success it is in canonical form, contains a key exactly when the key was
    supplied (for a wallet plan also the sender's nonce key), and its encoding
    decodes to itself. *)
Theorem access_plan_is_key_set (sender : bytes) (ks : list bytes) (p : AccessPlan.t) :
  AccessPlan.for_wallet sender ks = Ok p ->
  AccessPlan.valid p
  /\ (forall k, k ∈ AccessPlan.keys p <-> k = Keys.wallet_nonce_key_v1 sender \/ k ∈ ks)
  /\ (forall ks', (forall k, k ∈ ks' <-> k = Keys.wallet_nonce_key_v1 sender \/ k ∈ ks) ->
      AccessPlan.for_public ks' = Ok p)
  /\ exists b, AccessPlan.encode p = Ok b /\ AccessPlan.decode b = Ok p.
Proof.
  unfold AccessPlan.for_wallet, AccessPlan.for_public. intros H.
  pose proof (AccessPlan.from_keys_valid _ _ H) as Hv.
  pose proof H as [Hp Hk]%AccessPlan.from_keys_Ok.
  split; [done|]. split; [|split].
  - intros k. rewrite Hp. cbn [AccessPlan.keys]. by rewrite dedup_elem, sort_by_key_perm, elem_of_cons.
  - intros ks' Hset. assert (dedup (sort_by_key id ks') = AccessPlan.keys p) as Hd.
    { rewrite Hp. apply dedup_sort_ext. intros k. by rewrite Hset, elem_of_cons. }
    apply AccessPlan.from_keys_Ok. rewrite Hd. split; [|apply Hv].
    destruct Hv as [Hver _]. destruct p; simpl in *. congruence.
  - exists (AccessPlan.fmt p). assert (AccessPlan.encode p = Ok (AccessPlan.fmt p)) as He.
    { apply AccessPlan.access_plan_encode_Ok. split; [apply Hv|]. split; [apply Hv|done]. }
    split; [done|]. apply AccessPlan.access_plan_decode_iff; [|done]. apply AccessPlan.fmt_slice, Hv.
Qed.

Lemma access_plan_is_key_set_witness :
  exists p, AccessPlan.for_wallet (repeat x07 32) [[x01; x02]; [x01]; [x01; x02]] = Ok p
    /\ AccessPlan.valid p.
Proof.
  eexists. split; [vm_compute; reflexivity|].
  eapply (access_plan_is_key_set (repeat x07 32) [[x01; x02]; [x01]; [x01; x02]]).
  vm_compute. reflexivity.
Defined.

(** C33: every witness, external witness list and refine input that encodes is
    accepted by its decoder and comes back unchanged, external witnesses in
    service order; and the decoder accepts nothing else, for values of the
    Rust types ([valid]).  The encoders' budgets therefore fit the decoders'. *)
Theorem refine_input_exact (b : bytes) (i : RefineInput.t) :
  slice_ok b ->
  (RefineInput.decode b = Ok i <-> RefineInput.valid i /\ RefineInput.encode i = Ok b)
  /\ (RefineInput.version i = RefineInput.VERSION ->
      StateWitness.valid (RefineInput.managed_state i) ->
      Forall ExternalWitness.item_ok (RefineInput.external_state i) ->
      NoDup (map ExternalWitness.service_id (RefineInput.external_state i)) ->
      RefineInput.encode i = Ok b -> RefineInput.decode b = Ok (RefineInput.ordered i)).
Proof.
  intros Hb. split; [by apply RefineInput.refine_input_decode_iff|]. intros Hv Hw He Hnd Henc.
  apply RefineInput.refine_input_decode_iff; [done|]. rewrite RefineInput.encode_ordered by done. split; [|done].
  split; [done|]. split; [done|]. split; [by apply Forall_sort_by_key|by apply sort_by_key_ssorted].
Qed.

Definition sample_witness : StateWitness.t :=
  StateWitness.mk x01 (repeat x0b 32) (AccessPlan.mk x01 [[x01; x02]; [x01; x03]]) [[xaa; xbb]; [xcc]].
Definition sample_input : RefineInput.t :=
  RefineInput.mk x01 sample_witness
    [ExternalWitness.mk 9 sample_witness; ExternalWitness.mk 4 sample_witness] [[x01]; [x02; x03]].

Lemma refine_input_exact_witness :
  exists b, RefineInput.encode sample_input = Ok b
    /\ RefineInput.decode b = Ok (RefineInput.ordered sample_input).
Proof.
  destruct (RefineInput.encode sample_input) as [b|] eqn:Hb; [|vm_compute in Hb; discriminate].
  exists b. split; [reflexivity|].
  assert (StateWitness.valid sample_witness) as Hw.
  { repeat split; try reflexivity; try (vm_compute; discriminate); repeat constructor;
      vm_compute; discriminate. }
  apply refine_input_exact; try exact Hb; try exact Hw; try reflexivity.
  - vm_compute in Hb. injection Hb as <-. vm_compute. discriminate.
  - repeat constructor; try exact Hw; vm_compute; discriminate.
  - apply NoDup_cons. split; [|apply NoDup_singleton]. intros H%list_elem_of_singleton. discriminate.
Defined.
