(* ===== verification/Dependencies.v ===== *)
(** * External dependencies

    [ExternalStateDependencyV1] and the two functions that keep a list of them
    canonical: one row per service, in service order, with a single root. *)

From S2P Require Import Prelude Ordering Reader Wire.

Module Dependency.
Record t := mk { service_id : Z; state_root : bytes }.

#[global] Instance eq_dec : EqDecision t.
Proof. solve_decision. Defined.

(** One iteration of [canonicalize_dependencies]. *)
Definition push (canonical : list t) (dependency : t) : result (list t) WireError :=
  match last canonical with
  | Some previous =>
      if service_id previous =? service_id dependency then
        bail_if negb (bool_decide (state_root previous = state_root dependency)) with DuplicateServiceId ;;
        Ok canonical
      else Ok (canonical ++ [dependency])
  | None => Ok (canonical ++ [dependency])
  end.

Definition canonicalize_dependencies (dependencies : list t) : result (list t) WireError :=
  rfold push [] (sort_by_key service_id dependencies).

(** One iteration of [decode_dependencies]: the previous id and the list. *)
Definition read_dependency (st : option Z * list t) : parser WireError (option Z * list t) :=
  service_id ← Rd.u32;
  pbail (match st.1 with Some previous => service_id <? previous | None => false end)
    UnsortedDependencies;;
  state_root ← Rd.array 32;
  let dependency := mk service_id state_root in
  match last st.2 with
  | Some existing =>
      if Dependency.service_id existing =? service_id then
        pbail (negb (bool_decide (Dependency.state_root existing = state_root))) DuplicateServiceId;;
        mret st
      else mret (Some service_id, st.2 ++ [dependency])
  | None => mret (Some service_id, st.2 ++ [dependency])
  end.

Definition decode_dependencies : parser WireError (list t) :=
  count ← Rd.u32;
  pbail (count >? MAX_EXTERNAL_STATE_WITNESSES) TooManyItems;;
  st ← piter (Z.to_nat count) read_dependency (None, []);
  mret st.2.

(** *** Specification *)

Definition ok (d : t) : Prop := u32_ok (service_id d) /\ array_ok 32 (state_root d).
(** No service has two roots. *)
Definition consistent (l : list t) : Prop :=
  forall d e, d ∈ l -> e ∈ l -> service_id d = service_id e -> d = e.
Definition fmt (d : t) : bytes := to_le_bytes 4 (service_id d) ++ state_root d.

Lemma key_ssorted_consistent l : key_ssorted service_id l -> consistent l.
Proof.
  intros Hs d e Hd He Heq. apply list_elem_of_lookup_1 in Hd as [i Hi], He as [j Hj].
  destruct (Nat.lt_trichotomy i j) as [Hij|[->|Hij]]; [|congruence|].
  - pose proof (key_ssorted_lookup service_id _ _ _ _ _ Hs Hi Hj Hij) as Hlt.
    rewrite Heq in Hlt. by apply klt_irrefl in Hlt.
  - pose proof (key_ssorted_lookup service_id _ _ _ _ _ Hs Hj Hi Hij) as Hlt.
    rewrite Heq in Hlt. by apply klt_irrefl in Hlt.
Qed.

(** The loop invariant: [acc] is strictly sorted and lies below the rest. *)
Definition below (acc rest : list t) : Prop :=
  key_ssorted service_id acc
  /\ forall a r, a ∈ acc -> r ∈ rest -> service_id a <= service_id r.

Lemma below_snoc acc d rest :
  below acc (d :: rest) -> key_sorted service_id (d :: rest) ->
  (forall a, a ∈ acc -> service_id a <> service_id d) -> below (acc ++ [d]) rest.
Proof.
  intros [Hs Hle] Hr Hne. apply StronglySorted_cons in Hr as [Hd _]. rewrite Forall_forall in Hd. split.
  - apply StronglySorted_app. split; [|split; [done|repeat constructor]].
    intros a d' Ha ->%list_elem_of_singleton. specialize (Hle a d Ha ltac:(left)).
    specialize (Hne a Ha). apply (proj2 (klt_Z _ _)). lia.
  - intros a r [Ha| ->%list_elem_of_singleton]%elem_of_app Hin; [apply Hle; [done|by right]|].
    specialize (Hd r Hin). by apply (proj1 (kle_Z _ _)).
Qed.

(** When the last service id is not [d]'s, none is. *)
Lemma below_last_ne acc d rest previous :
  below acc (d :: rest) -> last acc = Some previous -> service_id previous <> service_id d ->
  forall a, a ∈ acc -> service_id a <> service_id d.
Proof.
  intros [Hs Hle] (acc' & ->)%last_Some Hne a Ha.
  apply elem_of_app in Ha as [Ha| ->%list_elem_of_singleton]; [|done].
  pose proof (StronglySorted_app_1_elem_of _ _ _ a previous Hs Ha ltac:(set_solver)) as Hlt.
  apply (proj1 (klt_Z _ _)) in Hlt.
  pose proof (Hle previous d ltac:(set_solver) ltac:(left)). lia.
Qed.

Lemma below_drop acc d rest : below acc (d :: rest) -> below acc rest.
Proof. intros [Hs Hle]. split; [done|]. intros a r Ha Hr. apply Hle; [done|by right]. Qed.

Lemma push_below acc d rest acc' :
  below acc (d :: rest) -> key_sorted service_id (d :: rest) -> push acc d = Ok acc' ->
  below acc' rest /\ forall e, e ∈ acc' <-> e ∈ acc \/ e = d.
Proof.
  intros Hb Hs. unfold push. destruct (last acc) as [p|] eqn:Hl.
  - destruct (Z.eqb_spec (service_id p) (service_id d)) as [Heq|Hne]; intros H; result_inv.
    + to_prop. split; [by eapply below_drop|]. apply last_Some in Hl as [l ->].
      destruct p, d. simpl in *. subst. set_solver.
    + split; [|set_solver]. apply below_snoc; [done..|]. by eapply below_last_ne.
  - apply last_None in Hl as ->. intros [= <-]. split; [|set_solver].
    apply (below_snoc []); [done..|]. set_solver.
Qed.

Lemma push_consistent acc d : consistent (acc ++ [d]) -> exists acc', push acc d = Ok acc'.
Proof.
  intros Hc. unfold push. destruct (last acc) as [p|] eqn:Hl; [|eauto].
  destruct (Z.eqb_spec (service_id p) (service_id d)) as [Heq|]; [|eauto].
  apply last_Some in Hl as [l ->]. rewrite (Hc p d); [|set_solver..|done].
  rewrite bool_decide_eq_true_2 by done. eauto.
Qed.

Lemma push_loop rest : forall acc,
  below acc rest -> key_sorted service_id rest ->
  (forall l, rfold push acc rest = Ok l ->
     key_ssorted service_id l /\ forall e, e ∈ l <-> e ∈ acc \/ e ∈ rest)
  /\ (consistent (acc ++ rest) -> exists l, rfold push acc rest = Ok l).
Proof.
  induction rest as [|d rest IH]; intros acc Hb Hs; simpl.
  - split; [|eauto]. intros l [= <-]. split; [apply Hb|set_solver].
  - pose proof Hs as [_ Hs']%StronglySorted_cons. split.
    + intros l H. result_inv.
      match goal with H : push _ _ = _ |- _ =>
        destruct (push_below _ _ _ _ Hb Hs H) as [Hb' Hin] end.
      match goal with H : rfold _ _ _ = _ |- _ => apply (IH _ Hb' Hs') in H as [Hl Hel] end.
      split; [done|]. intros e. rewrite Hel, Hin, elem_of_cons. tauto.
    + intros Hc. destruct (push_consistent acc d) as [acc' Hp].
      { assert (forall x, x ∈ acc ++ [d] -> x ∈ acc ++ d :: rest) as Hsub.
        { intros x. rewrite !elem_of_app, !elem_of_cons, elem_of_nil. tauto. }
        intros x y Hx Hy. by apply Hc; apply Hsub. }
      rewrite Hp. simpl. destruct (push_below _ _ _ _ Hb Hs Hp) as [Hb' Hin].
      assert (forall x, x ∈ acc' ++ rest -> x ∈ acc ++ d :: rest) as Hsub.
      { intros x. rewrite !elem_of_app, elem_of_cons, Hin. tauto. }
      apply (IH _ Hb' Hs'). intros x y Hx Hy. by apply Hc; apply Hsub.
Qed.

Lemma dependency_canonicalize_Ok deps l :
  canonicalize_dependencies deps = Ok l <->
  key_ssorted service_id l /\ forall d, d ∈ l <-> d ∈ deps.
Proof.
  unfold canonicalize_dependencies.
  assert (below [] (sort_by_key service_id deps)) as Hb by (split; [constructor|set_solver]).
  destruct (push_loop _ [] Hb (sort_by_key_sorted service_id deps)) as [Hok Hex].
  assert (forall l, rfold push [] (sort_by_key service_id deps) = Ok l ->
    key_ssorted service_id l /\ forall d, d ∈ l <-> d ∈ deps) as Hok'.
  { intros k [Hs Hk]%Hok. split; [done|]. intros d. rewrite Hk, sort_by_key_perm. set_solver. }
  split; [apply Hok'|]. intros [Hs Hel]. destruct Hex as [k Hk].
  { simpl. intros d e. rewrite sort_by_key_perm, <- !Hel. by apply key_ssorted_consistent. }
  rewrite Hk. f_equal. apply Hok' in Hk as [Hks Hkel].
  apply (key_ssorted_perm_eq service_id); [done..|]. apply NoDup_Permutation.
  - by eapply NoDup_fmap_1, (key_ssorted_nodup service_id).
  - by eapply NoDup_fmap_1, (key_ssorted_nodup service_id).
  - intros d. by rewrite Hkel, Hel.
Qed.

Lemma canonicalize_total deps :
  consistent deps -> exists l, canonicalize_dependencies deps = Ok l.
Proof.
  intros Hc. unfold canonicalize_dependencies.
  apply push_loop; [split; [constructor|set_solver]|apply sort_by_key_sorted|].
  simpl. intros d e. rewrite sort_by_key_perm. apply Hc.
Qed.

Lemma canonicalize_Err deps e :
  canonicalize_dependencies deps = Err e -> e = DuplicateServiceId.
Proof.
  unfold canonicalize_dependencies. generalize (sort_by_key service_id deps) (@nil t).
  intros l. induction l as [|d l IH]; intros acc H; simpl in H; [done|].
  apply rbind_Err in H as [H|(acc' & _ & H)]; [|by eapply IH].
  unfold push in H. repeat case_match; congruence.
Qed.

(** *** The decoder *)

Definition sorted_state (st : option Z * list t) : Prop :=
  key_ssorted service_id st.2 /\ Forall ok st.2
  /\ st.1 = option_map service_id (last st.2).

Lemma sorted_state_snoc st d :
  sorted_state st -> ok d ->
  match last st.2 with Some p => service_id p < service_id d | None => True end ->
  sorted_state (Some (service_id d), st.2 ++ [d]).
Proof.
  intros (Hs & Hok & Hlast) Hd Hlt. unfold sorted_state. cbn [fst snd].
  rewrite last_snoc. split; [|split; [|done]].
  - apply StronglySorted_app. split; [|split; [done|repeat constructor]].
    intros a d' Ha ->%list_elem_of_singleton. destruct (last st.2) as [p|] eqn:Hl.
    + apply last_Some in Hl as [l Hl]. rewrite Hl in *. apply (proj2 (klt_Z _ _)).
      apply elem_of_app in Ha as [Ha| ->%list_elem_of_singleton]; [|done].
      pose proof (StronglySorted_app_1_elem_of _ _ _ a p Hs Ha ltac:(set_solver)) as Hap.
      apply (proj1 (klt_Z _ _)) in Hap. lia.
    + apply last_None in Hl. rewrite Hl in Ha. set_solver.
  - apply Forall_app. split; [done|by constructor].
Qed.

Lemma yields_read_dependency st :
  sorted_state st -> yields (read_dependency st) (fun _ st' => sorted_state st').
Proof.
  intros Hst. pose proof Hst as (Hs & Hok & Hlast). unfold read_dependency.
  yield_field. intros sid x [-> Hsid]. yield_field. intros [] x [-> Hg].
  yield_field. intros ? root [-> Hroot].
  destruct (last st.2) as [p|] eqn:Hl.
  - rewrite Hlast in Hg. simpl in Hg. to_prop.
    destruct (Z.eqb_spec (service_id p) sid) as [Heq|Hne].
    + yield_field. intros [] x [-> _]. by apply yields_ret.
    + apply yields_ret. apply (sorted_state_snoc st (mk sid root)); [done..|].
      rewrite Hl. simpl. lia.
  - apply yields_ret. apply (sorted_state_snoc st (mk sid root)); [done..|]. by rewrite Hl.
Qed.

Lemma yields_loop n : forall st,
  sorted_state st -> yields (piter n read_dependency st) (fun _ st' => sorted_state st').
Proof.
  induction n as [|n IH]; intros st Hst; cbn [piter]; [by apply yields_ret|].
  eapply yields_bind; [by apply yields_read_dependency|]. intros st' x Hst'. by apply IH.
Qed.

(** Whatever decodes is canonical: sorted, one row per service. *)
Lemma yields_decode :
  yields decode_dependencies (fun _ l => key_ssorted service_id l /\ Forall ok l).
Proof.
  unfold decode_dependencies. yield_field. intros n x [-> Hn]. yield_field. intros [] x [-> Hc].
  eapply yields_bind; [apply yields_loop; repeat split; constructor|].
  intros st x (Hs & Hok & _). by apply yields_ret.
Qed.

Lemma parses_loop l : forall st,
  sorted_state st -> key_ssorted service_id (st.2 ++ l) -> Forall ok l ->
  exists p, parses (piter (length l) read_dependency st) (concat (map fmt l)) (p, st.2 ++ l).
Proof.
  induction l as [|d l IH]; intros st Hst Hs Hok; cbn [piter length].
  - exists st.1. simpl. rewrite app_nil_r. destruct st. apply parses_ret.
  - apply Forall_cons in Hok as [Hd Hok].
    assert (match last st.2 with Some p => service_id p < service_id d | None => True end) as Hlt.
    { destruct (last st.2) as [p|] eqn:Hl; [|done].
      assert (p ∈ st.2) as Hp by (by apply last_Some_elem_of).
      pose proof (StronglySorted_app_1_elem_of _ _ _ p d Hs Hp ltac:(left)) as H.
      by apply (proj1 (klt_Z _ _)) in H. }
    destruct (IH (Some (service_id d), st.2 ++ [d])) as [p Hp]; [by apply sorted_state_snoc| |done|].
    { simpl. by rewrite <- (assoc_L (++)). }
    exists p. simpl. eapply parses_bind.
    2: { simpl in Hp. rewrite <- (assoc_L (++)) in Hp. exact Hp. }
    destruct Hst as (_ & _ & Hlast). destruct Hd as [Hid Hroot].
    unfold read_dependency, fmt. parse_field; [by apply parses_u32|].
    parse_field. { rewrite Hlast. destruct (last st.2); [|done]. simpl. apply Z.ltb_ge. lia. }
    rewrite <- (app_nil_r (state_root d)). parse_field; [by apply parses_array|].
    destruct (last st.2) as [q|]; [rewrite (proj2 (Z.eqb_neq _ _)) by lia|];
      apply parses_ret'; by destruct d.
Qed.

Lemma parses_decode l :
  key_ssorted service_id l -> Forall ok l -> blen l <= MAX_EXTERNAL_STATE_WITNESSES ->
  parses decode_dependencies (to_le_bytes 4 (blen l) ++ concat (map fmt l)) l.
Proof.
  intros Hs Hok Hn. unfold decode_dependencies. pose proof (blen_nonneg l).
  parse_field; [apply parses_u32; unfold_limits; lia|]. parse_field; [rewrite Z.gtb_ltb; by apply Z.ltb_ge|].
  destruct (parses_loop l (None, [])) as [p Hp]; [repeat split; constructor|done..|].
  rewrite <- (app_nil_r (concat _)). unfold blen at 1. rewrite Nat2Z.id.
  parse_field; [exact Hp|]. apply parses_ret.
Qed.
End Dependency.

(** Canonicalizing external dependencies succeeds exactly when no service is
    listed with two different roots; the result then has the same rows, one
    per service, in strictly increasing service order, and does not depend on
    the order or repetition of the input; otherwise the error is
    [DuplicateServiceId]. *)
Theorem dependencies_canonical (deps : list Dependency.t) :
  (Dependency.consistent deps ->
     exists l, Dependency.canonicalize_dependencies deps = Ok l
       /\ key_ssorted Dependency.service_id l /\ (forall d, d ∈ l <-> d ∈ deps)
       /\ (forall deps', (forall d, d ∈ deps' <-> d ∈ deps) ->
             Dependency.canonicalize_dependencies deps' = Ok l))
  /\ (~ Dependency.consistent deps ->
      Dependency.canonicalize_dependencies deps = Err DuplicateServiceId).
Proof.
  split.
  - intros Hc. destruct (Dependency.canonicalize_total deps Hc) as [l Hl]. exists l.
    pose proof Hl as [Hs Hel]%Dependency.dependency_canonicalize_Ok. split; [done|]. split; [done|]. split; [done|].
    intros deps' Heq. apply Dependency.dependency_canonicalize_Ok. split; [done|]. intros d. by rewrite Heq.
  - intros Hc. destruct (Dependency.canonicalize_dependencies deps) as [l|e] eqn:He.
    + exfalso. apply Hc. apply Dependency.dependency_canonicalize_Ok in He as [Hs Hel].
      intros d e. rewrite <- !Hel. by apply Dependency.key_ssorted_consistent.
    + f_equal. by eapply Dependency.canonicalize_Err.
Qed.
