(* ===== verification/RefineOutput.v ===== *)
(** * [RuntimeRefineOutputV1]

    The output of refine: the transition with its receipts and its recovery
    payload.  Two decoders read it: [decode] (hosts, which need the payload)
    and [decode_transition_header] (accumulate, which does not). *)

From S2P Require Import Prelude Ordering Reader Wire ServiceKeys StateView StateDiff Records Witness Dependencies.

Inductive ActionStatus := StApplied | StFailed | StRejected.

Definition status_byte (s : ActionStatus) : byte :=
  match s with StApplied => x00 | StFailed => x01 | StRejected => x02 end.

Module Receipt.
Record t := mk { action_hash : bytes; status : ActionStatus; error_code : option Z }.

Definition write (w : Writer.t) (receipt : t) : Writer.t :=
  let w := Writer.raw w (action_hash receipt) in
  let w := Writer.u8 w (status_byte (status receipt)) in
  match error_code receipt with
  | Some error => Writer.u32 (Writer.u8 w x01) error
  | None => Writer.u8 w x00
  end.

Definition read : parser WireError t :=
  action_hash ← Rd.array 32;
  s ← Rd.u8;
  status ← match b2z s with
           | 0 => mret StApplied
           | 1 => mret StFailed
           | 2 => mret StRejected
           | _ => pfail InvalidEncoding
           end;
  e ← Rd.u8;
  error_code ← match b2z e with
               | 0 => mret None
               | 1 => c ← Rd.u32; mret (Some c)
               | _ => pfail InvalidEncoding
               end;
  mret (mk action_hash status error_code).

(** What [decode_transition_header] does with a receipt. *)
Definition skip : parser WireError unit :=
  Rd.array 32;;
  status ← Rd.u8;
  pbail (b2z status >? b2z (status_byte StRejected)) InvalidEncoding;;
  e ← Rd.u8;
  match b2z e with
  | 0 => mret tt
  | 1 => Rd.u32;; mret tt
  | _ => pfail InvalidEncoding
  end.

Definition ok (r : t) : Prop :=
  array_ok 32 (action_hash r) /\ match error_code r with Some c => u32_ok c | None => True end.
Definition fmt_code (o : option Z) : bytes :=
  match o with Some c => [x01] ++ to_le_bytes 4 c | None => [x00] end.
Definition fmt (r : t) : bytes :=
  action_hash r ++ [status_byte (status r)] ++ fmt_code (error_code r).

Lemma write_buf w r : Writer.buf (write w r) = Writer.buf w ++ fmt r.
Proof.
  unfold write, fmt, fmt_code. destruct (error_code r); simpl; by rewrite <- !(assoc_L (++)).
Qed.

Lemma write_all_buf l : forall w,
  Writer.buf (fold_left write l w) = Writer.buf w ++ concat (map fmt l).
Proof.
  induction l as [|r l IH]; intros w; simpl; [by rewrite app_nil_r|].
  rewrite IH, write_buf. by rewrite <- (assoc_L (++)).
Qed.

Lemma blen_fmt_le l : Forall ok l -> blen (concat (map fmt l)) <= 38 * blen l.
Proof.
  induction 1 as [|r l [Hh _] _ IH]; simpl; [done|]. unfold array_ok in Hh.
  assert (blen (fmt r) <= 38).
  { unfold fmt, fmt_code. destruct (error_code r); autorewrite with blen; lia. }
  rewrite blen_app, blen_cons. lia.
Qed.

Lemma parses_read r : ok r -> parses read (fmt r) r.
Proof.
  intros [Hh Hc]. unfold read, fmt. parse_field; [by apply parses_array|].
  parse_field; [apply parses_u8|].
  apply parses_bind0 with (v := status r).
  { destruct (status r); apply parses_ret. }
  destruct r as [h s [c|]]; cbn [error_code fmt_code status] in *.
  - parse_field; [apply parses_u8|]. change (b2z x01) with 1. cbv iota.
    rewrite <- (app_nil_r (to_le_bytes 4 c)). parse_field; [|apply parses_ret].
    rewrite <- (app_nil_r (to_le_bytes 4 c)). parse_field; [by apply parses_u32|apply parses_ret].
  - rewrite <- (app_nil_r [x00]). parse_field; [apply parses_u8|].
    change (b2z x00) with 0. cbv iota. eapply parses_bind0; apply parses_ret.
Qed.

Lemma yields_read : yields read (fun _ r => ok r).
Proof.
  unfold read. yield_field. intros ? h [-> Hh]. yield_field. intros s x ->.
  apply yields_bind with (Q := fun _ _ => True).
  { destruct (b2z s) as [|[[]|[]|]|]; try apply yields_fail; by apply yields_ret. }
  intros st x _. yield_field. intros e y ->.
  apply yields_bind with (Q := fun _ o => match o with Some c => u32_ok c | None => True end).
  { destruct (b2z e) as [|[| |]|]; try apply yields_fail; [by apply yields_ret|].
    yield_field. intros c z [-> Hc]. by apply yields_ret. }
  intros o z Ho. by apply yields_ret.
Qed.

(** Skipping a receipt is reading it and forgetting the value, errors included. *)
Lemma skip_read rd :
  skip rd = match read rd with Ok (_, rd') => Ok (tt, rd') | Err e => Err e end.
Proof.
  unfold skip, read, mbind, parser_bind, pbail, pfail, mret, parser_ret.
  destruct (Rd.array 32 rd) as [[h r1]|]; simpl; [|done].
  destruct (Rd.u8 r1) as [[s r2]|]; simpl; [|done].
  pose proof (b2z_range s) as Hs. change (b2z x02) with 2.
  destruct (Z.gtb_spec (b2z s) 2) as [Hgt|Hle].
  - simpl. destruct (b2z s) as [|[[]|[]|]|]; simpl; try done; lia.
  - assert (b2z s = 0 \/ b2z s = 1 \/ b2z s = 2) as Hc by lia.
    destruct Hc as [-> |[-> | ->]]; simpl;
      (destruct (Rd.u8 r2) as [[e r3]|]; simpl; [|done];
       destruct (b2z e) as [|[| |]|]; simpl; try done;
       destruct (Rd.u32 r3) as [[c r4]|]; simpl; done).
Qed.

Lemma skip_read_loop n : forall rd,
  piter n (fun _ => skip) tt rd
  = match prepeat n read rd with Ok (_, rd') => Ok (tt, rd') | Err e => Err e end.
Proof.
  induction n as [|n IH]; intros rd; [done|]. cbn [piter prepeat].
  unfold mbind at 1 2, parser_bind at 1 2. rewrite skip_read.
  destruct (read rd) as [[r rd1]|]; simpl; [|done]. rewrite IH.
  unfold mbind, parser_bind. destruct (prepeat n read rd1) as [[rs rd2]|]; done.
Qed.
End Receipt.

Module RefineOutput.
Record t := mk {
  version : byte; parent_root : bytes; new_root : bytes;
  external_dependencies : list Dependency.t; transition_valid_until : option Z;
  receipts : list Receipt.t; recovery_commitment : bytes; recovery_payload : bytes
}.

(** [RuntimeRefineTransitionHeaderV1]. *)
Record header := mkHeader {
  h_version : byte; h_parent_root : bytes; h_new_root : bytes;
  h_external_dependencies : list Dependency.t; h_transition_valid_until : option Z;
  h_recovery_commitment : bytes
}.

Section WithHash.
Context `{Hash : Blake2}.

Definition from_diff_with_dependencies_and_validity (parent_root new_root : bytes)
    (receipts : list Receipt.t) (diff : StateDiff.t) (external_dependencies : list Dependency.t)
    (transition_valid_until : option Z) : result t WireError :=
  let? external_dependencies := Dependency.canonicalize_dependencies external_dependencies in
  bail_if blen external_dependencies >? MAX_EXTERNAL_STATE_WITNESSES with TooManyItems ;;
  let? recovery := StateRecovery.new diff in
  let? recovery_payload := StateRecovery.encode recovery in
  let recovery_commitment := blake2_256 recovery_payload in
  Ok (mk MANAGED_STATE_PROTOCOL_VERSION parent_root new_root external_dependencies
        transition_valid_until receipts recovery_commitment recovery_payload).

Definition from_diff_with_validity (parent_root new_root : bytes) (receipts : list Receipt.t)
    (diff : StateDiff.t) (transition_valid_until : option Z) : result t WireError :=
  from_diff_with_dependencies_and_validity parent_root new_root receipts diff [] transition_valid_until.

Definition from_diff (parent_root new_root : bytes) (receipts : list Receipt.t)
    (diff : StateDiff.t) : result t WireError :=
  from_diff_with_validity parent_root new_root receipts diff None.

Definition write_dependency (w : Writer.t) (d : Dependency.t) : Writer.t :=
  Writer.raw (Writer.u32 w (Dependency.service_id d)) (Dependency.state_root d).

Definition write_validity (w : Writer.t) (o : option Z) : Writer.t :=
  match o with
  | Some valid_until => Writer.raw (Writer.u8 w x01) (to_le_bytes 8 valid_until)
  | None => Writer.u8 w x00
  end.

Definition encode (o : t) : result bytes WireError :=
  bail_if negb (bool_decide (version o = MANAGED_STATE_PROTOCOL_VERSION))
          || (blen (receipts o) >? MAX_RUNTIME_ACTIONS)
          || (blen (recovery_payload o) >? MAX_RECOVERY_BYTES)
    with TooManyItems ;;
  let w := Writer.u8 Writer.new (version o) in
  let w := Writer.raw w (parent_root o) in
  let w := Writer.raw w (new_root o) in
  let? dependencies := Dependency.canonicalize_dependencies (external_dependencies o) in
  bail_if blen dependencies >? MAX_EXTERNAL_STATE_WITNESSES with TooManyItems ;;
  let? count := ok_or (u32_try_from (blen dependencies)) LengthOverflow in
  let w := Writer.u32 w count in
  let w := fold_left write_dependency dependencies w in
  let w := write_validity w (transition_valid_until o) in
  let w := Writer.raw w (recovery_commitment o) in
  let w := Writer.u32 w (blen (receipts o)) in
  let w := fold_left Receipt.write (receipts o) w in
  let? w := Writer.bytes_u32 w (recovery_payload o) in
  Ok (Writer.finish w).

Definition read_validity : parser WireError (option Z) :=
  tag ← Rd.u8;
  match b2z tag with
  | 0 => mret None
  | 1 => v ← Rd.u64; mret (Some v)
  | _ => pfail InvalidEncoding
  end.

Definition parse_header : parser WireError header :=
  version ← Rd.u8;
  pbail (negb (bool_decide (version = MANAGED_STATE_PROTOCOL_VERSION))) UnsupportedVersion;;
  parent_root ← Rd.array 32;
  new_root ← Rd.array 32;
  external_dependencies ← Dependency.decode_dependencies;
  transition_valid_until ← read_validity;
  recovery_commitment ← Rd.array 32;
  count ← Rd.u32;
  pbail (count >? MAX_RUNTIME_ACTIONS) TooManyItems;;
  piter (Z.to_nat count) (fun _ => Receipt.skip) tt;;
  Rd.bytes_limited MAX_RECOVERY_BYTES;;
  mret (mkHeader version parent_root new_root external_dependencies transition_valid_until
          recovery_commitment).

Definition decode_transition_header (b : bytes) : result header WireError :=
  run_to_end InvalidEncoding parse_header b.

Definition parse : parser WireError t :=
  version ← Rd.u8;
  pbail (negb (bool_decide (version = MANAGED_STATE_PROTOCOL_VERSION))) UnsupportedVersion;;
  parent_root ← Rd.array 32;
  new_root ← Rd.array 32;
  external_dependencies ← Dependency.decode_dependencies;
  transition_valid_until ← read_validity;
  recovery_commitment ← Rd.array 32;
  count ← Rd.u32;
  pbail (count >? MAX_RUNTIME_ACTIONS) TooManyItems;;
  receipts ← prepeat (Z.to_nat count) Receipt.read;
  recovery_payload ← Rd.bytes_limited MAX_RECOVERY_BYTES;
  mret (mk version parent_root new_root external_dependencies transition_valid_until receipts
          recovery_commitment recovery_payload).

Definition decode (b : bytes) : result t WireError :=
  bail_if blen b >? MAX_RECOVERY_BYTES + 128 * MAX_RUNTIME_ACTIONS with TooManyItems ;;
  let? output := run_to_end InvalidEncoding parse b in
  bail_if negb (bool_decide (blake2_256 (recovery_payload output) = recovery_commitment output))
    with InvalidEncoding ;;
  let? _ := StateRecovery.decode (recovery_payload output) in
  Ok output.

(** *** Specification *)

Definition header_of (o : t) : header :=
  mkHeader (version o) (parent_root o) (new_root o) (external_dependencies o)
    (transition_valid_until o) (recovery_commitment o).

(** A value of the Rust type. *)
Definition typed (o : t) : Prop :=
  array_ok 32 (parent_root o) /\ array_ok 32 (new_root o) /\ array_ok 32 (recovery_commitment o)
  /\ Forall Dependency.ok (external_dependencies o) /\ Forall Receipt.ok (receipts o)
  /\ match transition_valid_until o with Some v => u64_ok v | None => True end.

(** The payload is a recovery record and the commitment is its hash. *)
Definition committed (o : t) : Prop :=
  recovery_commitment o = blake2_256 (recovery_payload o)
  /\ exists r, StateRecovery.decode (recovery_payload o) = Ok r.

Definition with_dependencies (o : t) (deps : list Dependency.t) : t :=
  mk (version o) (parent_root o) (new_root o) deps (transition_valid_until o) (receipts o)
    (recovery_commitment o) (recovery_payload o).

Definition fmt_validity (o : option Z) : bytes :=
  match o with Some v => [x01] ++ to_le_bytes 8 v | None => [x00] end.

Definition fmt (o : t) (deps : list Dependency.t) : bytes :=
  [version o] ++ parent_root o ++ new_root o
  ++ (to_le_bytes 4 (blen deps) ++ concat (map Dependency.fmt deps))
  ++ fmt_validity (transition_valid_until o) ++ recovery_commitment o
  ++ to_le_bytes 4 (blen (receipts o)) ++ concat (map Receipt.fmt (receipts o))
  ++ fmt_bytes_u32 (recovery_payload o).

Lemma write_dependencies_buf l : forall w,
  Writer.buf (fold_left write_dependency l w) = Writer.buf w ++ concat (map Dependency.fmt l).
Proof.
  induction l as [|d l IH]; intros w; simpl; [by rewrite app_nil_r|].
  rewrite IH. simpl. unfold Dependency.fmt. by rewrite <- !(assoc_L (++)).
Qed.

Lemma write_validity_buf w o : Writer.buf (write_validity w o) = Writer.buf w ++ fmt_validity o.
Proof. destruct o; simpl; by rewrite <- ?(assoc_L (++)). Qed.

Lemma refine_output_encode_Ok o b :
  encode o = Ok b <->
  version o = MANAGED_STATE_PROTOCOL_VERSION /\ blen (receipts o) <= MAX_RUNTIME_ACTIONS
  /\ blen (recovery_payload o) <= MAX_RECOVERY_BYTES
  /\ exists deps, Dependency.canonicalize_dependencies (external_dependencies o) = Ok deps
    /\ blen deps <= MAX_EXTERNAL_STATE_WITNESSES /\ b = fmt o deps.
Proof.
  assert (forall w deps w', Writer.buf w = [version o] ++ parent_root o ++ new_root o ->
    Writer.bytes_u32 (fold_left Receipt.write (receipts o)
      (Writer.u32 (Writer.raw (write_validity (fold_left write_dependency deps
        (Writer.u32 w (blen deps))) (transition_valid_until o)) (recovery_commitment o))
        (blen (receipts o)))) (recovery_payload o) = Ok w' <->
    blen (recovery_payload o) <= U32_MAX /\ Writer.buf w' = fmt o deps) as Hw.
  { intros w deps w' Hb. rewrite writer_bytes_u32_Ok, Receipt.write_all_buf. simpl.
    rewrite write_validity_buf, write_dependencies_buf. simpl. rewrite Hb. unfold fmt.
    by rewrite <- !(assoc_L (++)). }
  unfold encode, Writer.finish. split.
  - intros H. repeat (result_inv1; cbn [Writer.buf] in * ). to_prop.
    unfold u32_try_from, try_from_max in *. case_match; simplify_eq.
    match goal with H : Writer.bytes_u32 _ _ = _ |- _ => apply Hw in H as [_ ->]; [|done] end.
    split; [done|]. split; [lia|]. split; [lia|]. eexists. split; [done|]. split; [lia|done].
  - intros (Hv & Hr & Hp & deps & Hdeps & Hn & ->).
    rewrite bool_decide_eq_true_2 by done. rewrite !gtb_false by done. cbn [negb orb].
    rewrite Hdeps. cbn [rbind]. rewrite gtb_false by done.
    unfold u32_try_from, try_from_max. rewrite (proj2 (Z.leb_le _ _)) by (unfold_limits; lia).
    cbn [ok_or rbind].
    assert (forall w, Writer.buf w = [version o] ++ parent_root o ++ new_root o ->
      _ = Ok (Writer.mk (fmt o deps))) as Hw'
      by (intros w Hb; apply (Hw w deps (Writer.mk (fmt o deps)) Hb); split; [unfold_limits; lia|done]).
    by rewrite Hw'.
Qed.

Lemma blen_fmt o deps :
  typed o -> Forall Dependency.ok deps -> blen deps <= MAX_EXTERNAL_STATE_WITNESSES ->
  blen (receipts o) <= MAX_RUNTIME_ACTIONS -> blen (recovery_payload o) <= MAX_RECOVERY_BYTES ->
  blen (fmt o deps) <= MAX_RECOVERY_BYTES + 64 * MAX_RUNTIME_ACTIONS.
Proof.
  intros (Hp & Hn & Hc & _ & Hr & _) Hd Hdn Hrn Hpl. unfold array_ok in *.
  pose proof (Receipt.blen_fmt_le _ Hr).
  assert (blen (concat (map Dependency.fmt deps)) = 36 * blen deps) as Hdl.
  { clear Hdn. induction Hd as [|d ds [_ Hroot] _ IH]; simpl; [done|].
    unfold array_ok in Hroot. rewrite blen_app, blen_cons, IH. unfold Dependency.fmt.
    autorewrite with blen. lia. }
  assert (blen (fmt_validity (transition_valid_until o)) <= 9) as Hv.
  { destruct (transition_valid_until o); simpl; autorewrite with blen; lia. }
  unfold fmt. autorewrite with blen. rewrite Hdl. unfold_limits. lia.
Qed.

Lemma parses_validity o :
  match o with Some v => u64_ok v | None => True end -> parses read_validity (fmt_validity o) o.
Proof.
  intros Ho. unfold read_validity. destruct o as [v|]; cbn [fmt_validity].
  - parse_field; [apply parses_u8|]. change (b2z x01) with 1. cbv iota.
    rewrite <- (app_nil_r (to_le_bytes 8 v)). parse_field; [by apply parses_u64|apply parses_ret].
  - rewrite <- (app_nil_r [x00]). parse_field; [apply parses_u8|]. apply parses_ret.
Qed.

Lemma yields_validity :
  yields read_validity (fun _ o => match o with Some v => u64_ok v | None => True end).
Proof.
  unfold read_validity. yield_field. intros t x ->.
  destruct (b2z t) as [|[| |]|]; try apply yields_fail; [by apply yields_ret|].
  yield_field. intros v y [-> Hv]. by apply yields_ret.
Qed.

Lemma refine_output_parses_parse o deps :
  version o = MANAGED_STATE_PROTOCOL_VERSION -> typed o -> Forall Dependency.ok deps ->
  key_ssorted Dependency.service_id deps -> blen deps <= MAX_EXTERNAL_STATE_WITNESSES ->
  blen (receipts o) <= MAX_RUNTIME_ACTIONS -> blen (recovery_payload o) <= MAX_RECOVERY_BYTES ->
  parses parse (fmt o deps) (with_dependencies o deps).
Proof.
  intros Hv (Hp & Hn & Hc & _ & Hr & Hvu) Hd Hds Hdn Hrn Hpl. unfold parse, fmt.
  pose proof (blen_nonneg (receipts o)).
  parse_field; [apply parses_u8|]. parse_field; [by rewrite bool_decide_eq_true_2|].
  parse_field; [by apply parses_array|]. parse_field; [by apply parses_array|].
  parse_field; [by apply Dependency.parses_decode|].
  parse_field; [by apply parses_validity|]. parse_field; [by apply parses_array|].
  parse_field; [apply parses_u32; unfold_limits; lia|]. parse_field; [by apply gtb_false|].
  unfold blen at 1. rewrite Nat2Z.id.
  parse_field; [apply parses_repeat; intros r Hin; apply Receipt.parses_read; by eapply Forall_forall|].
  rewrite <- (app_nil_r (fmt_bytes_u32 _)).
  parse_field; [apply parses_bytes_limited; unfold_limits; lia|]. apply parses_ret.
Qed.

Lemma refine_output_yields_parse :
  yields parse (fun _ o => typed o /\ key_ssorted Dependency.service_id (external_dependencies o)
    /\ version o = MANAGED_STATE_PROTOCOL_VERSION
    /\ blen (recovery_payload o) <= MAX_RECOVERY_BYTES).
Proof.
  unfold parse. yield_field. intros v x ->. yield_field. intros [] x [-> Hv]. to_prop.
  yield_field. intros ? p [-> Hp]. yield_field. intros ? n [-> Hn].
  eapply yields_bind; [apply Dependency.yields_decode|]. intros deps x1 [Hs Hok].
  eapply yields_bind; [apply yields_validity|]. intros vu x2 Hvu.
  yield_field. intros ? c [-> Hc]. yield_field. intros k x3 [-> Hk]. yield_field. intros [] x4 [-> Hk'].
  eapply yields_bind; [apply yields_repeat, Receipt.yields_read|].
  intros rs x5 (xs & -> & Hrs & _). yield_field. intros pl x6 (-> & Hpl & _). apply yields_ret.
  unfold typed. simpl. repeat split; try done.
  clear -Hrs. induction Hrs; by constructor.
Qed.

(** The header decoder runs the full decoder's reader and forgets the receipts
    and the payload. *)
Lemma parse_header_eq rd :
  parse_header rd = match parse rd with Ok (o, rd') => Ok (header_of o, rd') | Err e => Err e end.
Proof.
  unfold parse_header, parse, mbind, parser_bind, pbail, mret, parser_ret.
  repeat match goal with
  | |- context [rbind (?p ?r) _] =>
      lazymatch p with
      | piter _ _ _ => rewrite Receipt.skip_read_loop
      | _ => let v := fresh "v" in let r' := fresh "r" in destruct (p r) as [[v r']|]; simpl; [|done]
      end
  | |- context [if ?c then Err _ else _] => destruct c; simpl; [done|]
  end.
  all: done.
Qed.

Lemma decode_transition_header_eq b :
  decode_transition_header b = let? o := run_to_end InvalidEncoding parse b in Ok (header_of o).
Proof.
  unfold decode_transition_header, run_to_end. rewrite parse_header_eq.
  destruct (parse (reader_new b)) as [[o rd]|]; simpl; [|done]. by case_match.
Qed.

Lemma refine_output_decode_Ok b o :
  decode b = Ok o <->
  blen b <= MAX_RECOVERY_BYTES + 128 * MAX_RUNTIME_ACTIONS
  /\ run_to_end InvalidEncoding parse b = Ok o /\ committed o.
Proof.
  unfold decode, committed. split.
  - intros H. result_inv. to_prop. split; [lia|]. split; [done|]. split; [done|]. eauto.
  - intros (Hl & Hr & Hc & r & Hrec). rewrite gtb_false by done. rewrite Hr. cbn [rbind].
    rewrite bool_decide_eq_true_2 by done. cbn [negb]. by rewrite Hrec.
Qed.

(** The round trip of a committed, well-typed output. *)
Lemma refine_output_decode_encode o b :
  typed o -> committed o -> encode o = Ok b ->
  exists deps, Dependency.canonicalize_dependencies (external_dependencies o) = Ok deps
    /\ decode b = Ok (with_dependencies o deps).
Proof.
  intros Ht Hc (Hv & Hr & Hp & deps & Hdeps & Hn & ->)%refine_output_encode_Ok. exists deps. split; [done|].
  pose proof Hdeps as [Hs Hel]%Dependency.dependency_canonicalize_Ok.
  assert (Forall Dependency.ok deps) as Hok.
  { apply Forall_forall. intros d Hd%Hel. destruct Ht as (_ & _ & _ & Hd' & _).
    by eapply Forall_forall in Hd'. }
  pose proof (blen_fmt o deps Ht Hok Hn Hr Hp). apply refine_output_decode_Ok.
  split; [unfold_limits; lia|]. split; [|done]. apply run_to_end_parses; [by apply refine_output_parses_parse|unfold_limits; lia].
Qed.
End WithHash.
End RefineOutput.

(** Whatever refine assembles from a diff can be published: if the output is
    built from well-typed parts with at most [MAX_RUNTIME_ACTIONS] receipts,
    it encodes, the full decoder (with its own size limit, hash check and
    recovery check) returns exactly that output, the header decoder returns
    its header, and the payload carries the diff in canonical order. *)
Theorem refine_output_publishable `{Blake2} `{!Blake2Len}
    parent new (receipts : list Receipt.t) (diff : StateDiff.t) (deps : list Dependency.t) valid_until
    (o : RefineOutput.t) :
  array_ok 32 parent -> array_ok 32 new -> Forall Receipt.ok receipts -> Forall Dependency.ok deps ->
  match valid_until with Some v => u64_ok v | None => True end ->
  blen receipts <= MAX_RUNTIME_ACTIONS ->
  RefineOutput.from_diff_with_dependencies_and_validity parent new receipts diff deps valid_until = Ok o ->
  exists b, RefineOutput.encode o = Ok b
    /\ RefineOutput.decode b = Ok o
    /\ RefineOutput.decode_transition_header b = Ok (RefineOutput.header_of o)
    /\ StateRecovery.decode (RefineOutput.recovery_payload o)
       = Ok (StateRecovery.mk RECOVERY_FORMAT_VERSION (StateDiff.sorted diff)).
Proof.
  intros Hp Hn Hr Hd Hv Hrn Hf. unfold RefineOutput.from_diff_with_dependencies_and_validity in Hf.
  result_inv. to_prop.
  match goal with H : Dependency.canonicalize_dependencies _ = _ |- _ =>
    pose proof H as [Hs Hel]%Dependency.dependency_canonicalize_Ok end.
  match goal with H : StateRecovery.new _ = _ |- _ => apply StateRecovery.state_recovery_new_Ok in H as (Hl & Hnd & ->) end.
  match goal with H : StateRecovery.encode _ = Ok ?p |- _ =>
    pose proof H as (_ & _ & Hplen)%StateRecovery.state_recovery_encode_Ok; apply StateRecovery.state_recovery_decode_iff in H as Hrec;
    rename p into payload end.
  match goal with |- context [RefineOutput.mk ?a ?b ?c ?d ?e ?f ?g ?h] =>
    set (o := RefineOutput.mk a b c d e f g h) end.
  match goal with H : _ = Ok ?l, Hs : key_ssorted _ ?l |- _ => rename l into cdeps end.
  assert (Forall Dependency.ok cdeps) as Hdok.
  { apply Forall_forall. intros d Hin%Hel. by eapply Forall_forall in Hd. }
  assert (RefineOutput.typed o) as Hty.
  { repeat split; try done. simpl. apply blake2_256_len. }
  assert (RefineOutput.committed o) as Hc by (split; [done|]; eauto).
  assert (Dependency.canonicalize_dependencies cdeps = Ok cdeps) as Hcc by (by apply Dependency.dependency_canonicalize_Ok).
  assert (RefineOutput.encode o = Ok (RefineOutput.fmt o cdeps)) as He.
  { apply RefineOutput.refine_output_encode_Ok. split; [done|]. split; [done|]. split; [done|].
    exists cdeps. split; [done|]. split; [lia|done]. }
  destruct (RefineOutput.refine_output_decode_encode o _ Hty Hc He) as (cd & Hcd & Hdec).
  simpl in Hcd. rewrite Hcc in Hcd. injection Hcd as <-.
  exists (RefineOutput.fmt o cdeps). split; [done|]. split; [exact Hdec|].
  split; [|done]. rewrite RefineOutput.decode_transition_header_eq.
  by apply RefineOutput.refine_output_decode_Ok in Hdec as (_ & -> & _).
Qed.

(** A stand-in hash of the right length, for concrete instances. *)
Definition zero_hash : Blake2 := fun _ => repeat x00 32.

Lemma refine_output_publishable_witness :
  exists o b, RefineOutput.encode o = Ok b
    /\ @RefineOutput.decode zero_hash b = Ok o /\ blen b = 221.
Proof.
  destruct (@RefineOutput.from_diff_with_dependencies_and_validity zero_hash
    (repeat x0a 32) (repeat x0b 32) [Receipt.mk (repeat x0c 32) StFailed (Some 7)] sample_diff
    [Dependency.mk 3 (repeat x0d 32)] (Some 99)) as [o|] eqn:Ho; [|vm_compute in Ho; discriminate].
  assert (exists b, RefineOutput.encode o = Ok b /\ @RefineOutput.decode zero_hash b = Ok o
    /\ RefineOutput.decode_transition_header b = Ok (RefineOutput.header_of o)
    /\ StateRecovery.decode (RefineOutput.recovery_payload o)
       = Ok (StateRecovery.mk RECOVERY_FORMAT_VERSION (StateDiff.sorted sample_diff))) as (b & Hb & Hd & _).
  { eapply (@refine_output_publishable zero_hash ltac:(intros b; reflexivity)); [..|exact Ho].
    - reflexivity.
    - reflexivity.
    - constructor; [|constructor]. split; [reflexivity|]. vm_compute. split; discriminate.
    - constructor; [|constructor]. split; [|reflexivity]. vm_compute. split; discriminate.
    - vm_compute. split; discriminate.
    - vm_compute. discriminate. }
  exists o, b. split; [exact Hb|]. split; [exact Hd|]. clear Hd.
  vm_compute in Ho. injection Ho as <-. vm_compute in Hb. injection Hb as <-. vm_compute. reflexivity.
Defined.

(** The two decoders of a refine output agree.  The header decoder returns
    the header of what the full decoder reads; whenever the header decoder
    accepts, there is an output with that header whose dependencies are
    canonical and which the full decoder accepts too, provided the slice is
    within its size limit and the commitment is the hash of a recovery record. *)
Theorem refine_output_decoders_agree `{Blake2} (b : bytes) :
  (forall o, RefineOutput.decode b = Ok o ->
     RefineOutput.decode_transition_header b = Ok (RefineOutput.header_of o)
     /\ RefineOutput.committed o)
  /\ (forall h, RefineOutput.decode_transition_header b = Ok h ->
     exists o, h = RefineOutput.header_of o /\ RefineOutput.typed o
       /\ key_ssorted Dependency.service_id (RefineOutput.h_external_dependencies h)
       /\ (blen b <= MAX_RECOVERY_BYTES + 128 * MAX_RUNTIME_ACTIONS -> RefineOutput.committed o ->
           RefineOutput.decode b = Ok o)).
Proof.
  split.
  - intros o (_ & Hp & Hc)%RefineOutput.refine_output_decode_Ok. split; [|done].
    by rewrite RefineOutput.decode_transition_header_eq, Hp.
  - intros h Hh. rewrite RefineOutput.decode_transition_header_eq in Hh. result_inv.
    match goal with Hr : run_to_end _ _ _ = Ok ?o |- _ => exists o; split; [done|];
      pose proof (run_to_end_yields _ _ _ _ _ RefineOutput.refine_output_yields_parse Hr) as (Ht & Hs & _ & _) end.
    split; [done|]. split; [done|]. intros Hl Hc. by apply RefineOutput.refine_output_decode_Ok.
Qed.
