(* ===== verification/Accumulate.v ===== *)
(** * The accumulate side: [RawJamStorage] and [AccumulateContext]

    Accumulate sees the service's raw storage through [AccumulateContext],
    which refuses the runtime's reserved keys to the application and owns the
    managed-state commitment. *)

From S2P Require Import Prelude Ordering Reader Wire ServiceKeys Dependencies.

Inductive RawJamError := Host | RawReservedKey.

(** ** The [RawJamStorage] trait

    Every method takes [&mut self]: a state transformer with a result. *)

Definition storage_m (S A : Type) : Type := S -> result A RawJamError * S.

Class RawJamStorage (S : Type) := {
  raw_read : bytes -> storage_m S (option bytes);
  raw_read_service : Z -> bytes -> storage_m S (option bytes);
  raw_write : bytes -> bytes -> storage_m S unit;
  raw_delete : bytes -> storage_m S unit
}.

(** The documented contract of an implementation: reads report the contents (of
    the service, or of the named service) and change nothing, successful
    writes and deletes change one key, failed calls change nothing. *)
Class RawJamStorageLaws (S : Type) `{RawJamStorage S} := {
  contents : S -> gmap bytes bytes;
  service_contents : S -> Z -> bytes -> option bytes;
  raw_read_ok : forall s k,
    contents (raw_read k s).2 = contents s
    /\ forall v, (raw_read k s).1 = Ok v -> v = contents s !! k;
  raw_read_service_ok : forall s id k,
    contents (raw_read_service id k s).2 = contents s
    /\ service_contents (raw_read_service id k s).2 = service_contents s
    /\ forall v, (raw_read_service id k s).1 = Ok v -> v = service_contents s id k;
  raw_write_ok : forall s k v,
    contents (raw_write k v s).2
    = match (raw_write k v s).1 with Ok _ => <[k := v]> (contents s) | Err _ => contents s end;
  raw_delete_ok : forall s k,
    contents (raw_delete k s).2
    = match (raw_delete k s).1 with Ok _ => delete k (contents s) | Err _ => contents s end
}.

Module Accumulate.
Section Context_.
Context {S : Type} `{RawJamStorage S}.

Definition read (key : bytes) : storage_m S (option bytes) := raw_read key.
Definition read_service (service_id : Z) (key : bytes) : storage_m S (option bytes) :=
  raw_read_service service_id key.

Definition read_service_commitment (service_id : Z) : storage_m S (option bytes) := fun s =>
  match read_service service_id MANAGED_STATE_COMMITMENT_KEY_V1 s with
  | (Err e, s) => (Err e, s)
  | (Ok None, s) => (Ok None, s)
  | (Ok (Some b), s) =>
      (map_err (fun _ => Host)
         (let? commitment := Commitment.decode b in Ok (Some (Commitment.root commitment))), s)
  end.

Fixpoint external_dependencies_match (dependencies : list Dependency.t) : storage_m S bool := fun s =>
  match dependencies with
  | [] => (Ok true, s)
  | dependency :: rest =>
      match read_service_commitment (Dependency.service_id dependency) s with
      | (Err e, s) => (Err e, s)
      | (Ok root, s) =>
          if bool_decide (root = Some (Dependency.state_root dependency))
          then external_dependencies_match rest s
          else (Ok false, s)
      end
  end.

Definition write (key value : bytes) : storage_m S unit := fun s =>
  if Keys.is_reserved_service_storage_key key then (Err RawReservedKey, s)
  else raw_write key value s.

Definition delete (key : bytes) : storage_m S unit := fun s =>
  if Keys.is_reserved_service_storage_key key then (Err RawReservedKey, s)
  else raw_delete key s.

Definition commit_managed_state (root : bytes) : storage_m S unit := fun s =>
  let commitment := Commitment.encode (Commitment.new root) in
  raw_write MANAGED_STATE_COMMITMENT_KEY_V1 commitment s.

(** What an application can do with the context, errors ignored or not. *)
Inductive call := CRead (k : bytes) | CReadService (id : Z) (k : bytes)
  | CWrite (k v : bytes) | CDelete (k : bytes).
Definition step (s : S) (c : call) : S :=
  match c with
  | CRead k => (read k s).2
  | CReadService id k => (read_service id k s).2
  | CWrite k v => (write k v s).2
  | CDelete k => (delete k s).2
  end.

Context `{!RawJamStorageLaws S}.

Lemma step_reserved s c k :
  Keys.is_reserved_service_storage_key k = true -> contents (step s c) !! k = contents s !! k.
Proof.
  intros Hk. destruct c as [k'|id k'|k' v|k']; simpl; unfold read, read_service.
  - by rewrite (proj1 (raw_read_ok s k')).
  - by rewrite (proj1 (raw_read_service_ok s id k')).
  - unfold write. destruct (Keys.is_reserved_service_storage_key k') eqn:Hk'; [done|].
    rewrite raw_write_ok. case_match; [|done]. apply lookup_insert_ne. congruence.
  - unfold delete. destruct (Keys.is_reserved_service_storage_key k') eqn:Hk'; [done|].
    rewrite raw_delete_ok. case_match; [|done]. apply lookup_delete_ne. congruence.
Qed.

(** The root another service has committed, as accumulate decodes it. *)
Definition committed_root (s : S) (id : Z) : result (option bytes) RawJamError :=
  match service_contents s id MANAGED_STATE_COMMITMENT_KEY_V1 with
  | None => Ok None
  | Some b => map_err (fun _ => Host) (let? c := Commitment.decode b in Ok (Some (Commitment.root c)))
  end.

Lemma read_service_commitment_ok s id v s' :
  read_service_commitment id s = (Ok v, s') ->
  committed_root s id = Ok v /\ service_contents s' = service_contents s /\ contents s' = contents s.
Proof.
  unfold read_service_commitment, committed_root, read_service.
  destruct (raw_read_service_ok s id MANAGED_STATE_COMMITMENT_KEY_V1) as (Hc & Hs & Hv).
  destruct (raw_read_service id MANAGED_STATE_COMMITMENT_KEY_V1 s) as [[[b|]|e] s1]; simpl in *; [| |done].
  - rewrite <- (Hv _ eq_refl). intros [= Hm <-]. done.
  - rewrite <- (Hv _ eq_refl). intros [= <- <-]. done.
Qed.

Lemma external_dependencies_match_ok deps : forall s r s',
  external_dependencies_match deps s = (Ok r, s') ->
  contents s' = contents s
  /\ (r = true <-> Forall (fun d =>
        committed_root s (Dependency.service_id d) = Ok (Some (Dependency.state_root d))) deps).
Proof.
  induction deps as [|d deps IH]; intros s r s' Hm; simpl in Hm.
  - injection Hm as <- <-. split; [done|]. split; [constructor|done].
  - destruct (read_service_commitment (Dependency.service_id d) s) as [[v|e] s1] eqn:Hr; [|done].
    apply read_service_commitment_ok in Hr as (Hroot & Hs1 & Hc1).
    destruct (bool_decide_reflect (v = Some (Dependency.state_root d))) as [->|Hne].
    + apply IH in Hm as [Hc Hf]. split; [congruence|]. rewrite Hf, Forall_cons.
      unfold committed_root in *. rewrite Hs1. naive_solver.
    + injection Hm as <- <-. split; [done|]. split; [done|].
      intros [Hd _]%Forall_cons. congruence.
Qed.

(** A committed root is what every reader of the service's key decodes. *)
Lemma commit_managed_state_ok s root s' :
  array_ok 32 root -> commit_managed_state root s = (Ok tt, s') ->
  exists b, contents s' = <[MANAGED_STATE_COMMITMENT_KEY_V1 := b]> (contents s)
    /\ Commitment.decode b = Ok (Commitment.new root).
Proof.
  intros Hroot Hc. unfold commit_managed_state in Hc.
  exists (Commitment.encode (Commitment.new root)). split.
  - pose proof (raw_write_ok s MANAGED_STATE_COMMITMENT_KEY_V1 (Commitment.encode (Commitment.new root))) as Hw.
    by rewrite Hc in Hw.
  - by apply Commitment.decode_new.
Qed.
End Context_.
End Accumulate.

(** A one-service store as a map, with the other services' commitments aside:
    an instance of the contract. *)
Record map_store := MapStore { own : gmap bytes bytes; others : Z -> bytes -> option bytes }.
#[export] Instance map_store_ops : RawJamStorage map_store := {|
  raw_read k s := (Ok (own s !! k), s);
  raw_read_service id k s := (Ok (others s id k), s);
  raw_write k v s := (Ok tt, MapStore (<[k := v]> (own s)) (others s));
  raw_delete k s := (Ok tt, MapStore (delete k (own s)) (others s))
|}.
#[export] Program Instance map_store_laws : RawJamStorageLaws map_store :=
  {| contents := own; service_contents := others |}.
Solve All Obligations with naive_solver.

(** Applications cannot touch the runtime's keys during accumulate.  For any
    storage that honours the contract and any sequence of context calls, the
    entry of every reserved key (the managed-state commitment and the
    management keys) is what it was before; only [commit_managed_state]
    replaces the commitment, and what it stores decodes to the given root. *)
Theorem reserved_keys_protected {S} `{RawJamStorageLaws S} (s : S) (calls : list Accumulate.call) k :
  Keys.is_reserved_service_storage_key k = true ->
  contents (fold_left Accumulate.step calls s) !! k = contents s !! k
  /\ forall root s', array_ok 32 root -> Accumulate.commit_managed_state root s = (Ok tt, s') ->
     exists b, contents s' = <[MANAGED_STATE_COMMITMENT_KEY_V1 := b]> (contents s)
       /\ Commitment.decode b = Ok (Commitment.new root).
Proof.
  intros Hk. split.
  - revert s. induction calls as [|c calls IH]; intros s; simpl; [done|].
    rewrite IH. by apply Accumulate.step_reserved.
  - apply Accumulate.commit_managed_state_ok.
Qed.

Definition sample_store : map_store :=
  MapStore (<[MANAGED_STATE_COMMITMENT_KEY_V1 := [x01]]> ∅)
    (fun id k => if id =? 7 then Some (Commitment.encode (Commitment.new (repeat x0a 32))) else None).

Lemma reserved_keys_protected_witness :
  contents (fold_left Accumulate.step
    [Accumulate.CWrite MANAGED_STATE_COMMITMENT_KEY_V1 [x02]; Accumulate.CDelete [x01]] sample_store)
    !! MANAGED_STATE_COMMITMENT_KEY_V1 = Some [x01].
Proof.
  destruct (reserved_keys_protected sample_store
    [Accumulate.CWrite MANAGED_STATE_COMMITMENT_KEY_V1 [x02]; Accumulate.CDelete [x01]]
    MANAGED_STATE_COMMITMENT_KEY_V1) as [H _]; [vm_compute; reflexivity|].
  rewrite H. vm_compute. reflexivity.
Defined.

(** When the dependency check returns, it says [true] exactly when every
    listed service's stored commitment decodes to the root the transition was
    refined against, and it changes nothing. *)
Theorem dependency_check_exact {S} `{RawJamStorageLaws S} (s s' : S) (deps : list Dependency.t) r :
  Accumulate.external_dependencies_match deps s = (Ok r, s') ->
  contents s' = contents s
  /\ (r = true <-> Forall (fun d =>
        Accumulate.committed_root s (Dependency.service_id d) = Ok (Some (Dependency.state_root d))) deps).
Proof. apply Accumulate.external_dependencies_match_ok. Qed.

Lemma dependency_check_exact_witness :
  Accumulate.external_dependencies_match
    [Dependency.mk 7 (repeat x0a 32); Dependency.mk 8 (repeat x0a 32)] sample_store = (Ok false, sample_store)
  /\ Accumulate.external_dependencies_match [Dependency.mk 7 (repeat x0a 32)] sample_store
     = (Ok true, sample_store)
  /\ Forall (fun d => Accumulate.committed_root sample_store (Dependency.service_id d)
       = Ok (Some (Dependency.state_root d))) [Dependency.mk 7 (repeat x0a 32)].
Proof.
  split; [vm_compute; reflexivity|]. split; [vm_compute; reflexivity|].
  apply (dependency_check_exact sample_store sample_store [Dependency.mk 7 (repeat x0a 32)] true);
    [vm_compute; reflexivity|reflexivity].
Defined.
