(* ===== verification/Ownership.v ===== *)
(** * [ownership-core]: versioned ownership identities *)

From S2P Require Import Prelude Ordering Reader Wire StateDiff.

Definition OWNERSHIP_VERSION_V1 : byte := x01.
Definition MAX_OWNERSHIP_BYTES : Z := 4096.
Definition OWNERSHIP_KEY_DOMAIN_V1 : bytes := bstr "OWNERSHIP_ABSTRACTION_KEY_V1".

Inductive OwnershipKind :=
| Ed25519Key
| Sr25519Key
| Secp256k1Key
| Secp256k1Keccak20
| MulticryptoAccount32.

#[export] Instance OwnershipKind_eq_dec : EqDecision OwnershipKind.
Proof. solve_decision. Defined.

Inductive OwnershipError :=
| InvalidVersion
| UnsupportedKind (kind : byte)
| InvalidPublicLength
| InvalidPublicValue
| InvalidOwnershipEncoding
| TooLarge.

Definition kind_u8 (kind : OwnershipKind) : byte :=
  match kind with
  | Ed25519Key => x00
  | Sr25519Key => x01
  | Secp256k1Key => x02
  | Secp256k1Keccak20 => x03
  | MulticryptoAccount32 => x04
  end.

Definition kind_try_from (v : byte) : result OwnershipKind OwnershipError :=
  match b2z v with
  | 0 => Ok Ed25519Key
  | 1 => Ok Sr25519Key
  | 2 => Ok Secp256k1Key
  | 3 => Ok Secp256k1Keccak20
  | 4 => Ok MulticryptoAccount32
  | _ => Err (UnsupportedKind v)
  end.

Definition public_len (kind : OwnershipKind) : Z :=
  match kind with
  | Ed25519Key | Sr25519Key | MulticryptoAccount32 => 32
  | Secp256k1Key => 33
  | Secp256k1Keccak20 => 20
  end.

Module Ownership.
Record t := mk { version : byte; kind : OwnershipKind; public : bytes }.

#[global] Instance eq_dec : EqDecision t.
Proof. solve_decision. Defined.

Definition validate (o : t) : result unit OwnershipError :=
  bail_if negb (bool_decide (version o = OWNERSHIP_VERSION_V1)) with InvalidVersion ;;
  bail_if negb (blen (public o) =? public_len (kind o)) with InvalidPublicLength ;;
  bail_if bool_decide (kind o = Secp256k1Key)
          && negb (bool_decide (head (public o) = Some x02) || bool_decide (head (public o) = Some x03))
    with InvalidPublicValue ;;
  Ok tt.

Definition new (kind : OwnershipKind) (public : bytes) : result t OwnershipError :=
  let ownership := mk OWNERSHIP_VERSION_V1 kind public in
  let? _ := validate ownership in
  Ok ownership.

Definition encode (o : t) : result bytes OwnershipError :=
  let? _ := validate o in
  let? length := ok_or (u16_try_from (blen (public o))) TooLarge in
  let encoded := [version o] ++ [kind_u8 (kind o)] ++ to_le_bytes 2 length ++ public o in
  bail_if blen encoded >? MAX_OWNERSHIP_BYTES with TooLarge ;;
  Ok encoded.

Definition decode (b : bytes) : result t OwnershipError :=
  bail_if (blen b >? MAX_OWNERSHIP_BYTES) || (blen b <? 4)
    with (if blen b >? MAX_OWNERSHIP_BYTES then TooLarge else InvalidOwnershipEncoding) ;;
  let version := b_at b 0 in
  bail_if negb (bool_decide (version = OWNERSHIP_VERSION_V1)) with InvalidVersion ;;
  let? kind := kind_try_from (b_at b 1) in
  let length := from_le_bytes (b_slice b 2 4) in
  bail_if negb (length =? public_len kind) || negb (blen b =? 4 + length) with InvalidOwnershipEncoding ;;
  new kind (b_from b 4).

Definition key_preimage (canonical : bytes) : bytes := OWNERSHIP_KEY_DOMAIN_V1 ++ canonical.

Definition key `{Blake2} (o : t) : result bytes OwnershipError :=
  let? canonical := encode o in
  Ok (blake2_256 (key_preimage canonical)).

(** *** Specification *)

Definition valid (o : t) : Prop :=
  version o = OWNERSHIP_VERSION_V1 /\ blen (public o) = public_len (kind o)
  /\ (kind o = Secp256k1Key -> head (public o) = Some x02 \/ head (public o) = Some x03).

Lemma validate_Ok o : validate o = Ok tt <-> valid o.
Proof.
  unfold validate, valid. rewrite !bail_if_Ok, !negb_false_iff, bool_decide_eq_true, Z.eqb_eq.
  rewrite andb_false_iff, negb_false_iff, orb_true_iff, bool_decide_eq_false, !bool_decide_eq_true.
  destruct (decide (kind o = Secp256k1Key)); naive_solver.
Qed.

Lemma ownership_new_Ok k p o : new k p = Ok o <-> o = mk OWNERSHIP_VERSION_V1 k p /\ valid o.
Proof.
  unfold new. split.
  - intros H. result_inv. split; [done|]. by apply validate_Ok.
  - intros [-> Hv]. by apply validate_Ok in Hv as ->.
Qed.

Lemma public_len_range k : 20 <= public_len k <= 33.
Proof. destruct k; simpl; lia. Qed.

Definition fmt (o : t) : bytes :=
  [version o] ++ [kind_u8 (kind o)] ++ to_le_bytes 2 (blen (public o)) ++ public o.

Lemma ownership_encode_Ok o b : encode o = Ok b <-> valid o /\ b = fmt o.
Proof.
  unfold encode. split.
  - intros H. result_inv. unfold u16_try_from, try_from_max in *. case_match; simplify_eq.
    match goal with H : validate _ = _ |- _ => apply validate_Ok in H end. done.
  - intros [Hv ->]. pose proof Hv as (_ & Hl & _). pose proof (public_len_range (kind o)).
    apply validate_Ok in Hv as ->. cbn [rbind]. unfold u16_try_from, try_from_max.
    rewrite (proj2 (Z.leb_le _ _)) by (unfold U16_MAX; lia). cbn [ok_or rbind].
    rewrite Z.gtb_ltb, (proj2 (Z.ltb_ge _ _)); [done|].
    unfold MAX_OWNERSHIP_BYTES. autorewrite with blen. lia.
Qed.

Lemma kind_roundtrip k : kind_try_from (kind_u8 k) = Ok k.
Proof. by destruct k. Qed.

Lemma kind_try_from_Ok v k : kind_try_from v = Ok k -> v = kind_u8 k.
Proof.
  unfold kind_try_from. intros H. apply b2z_inj.
  destruct (b2z v) as [|[[[]|[]|]|[[]|[]|]|]|]; try discriminate; by injection H as <-.
Qed.

Lemma ownership_decode_fields v k l p :
  blen l = 2 -> 4 + blen p <= MAX_OWNERSHIP_BYTES ->
  decode ([v] ++ [k] ++ l ++ p) =
  bail_if negb (bool_decide (v = OWNERSHIP_VERSION_V1)) with InvalidVersion ;;
  let? kind := kind_try_from k in
  bail_if negb (from_le_bytes l =? public_len kind) || negb (4 + blen p =? 4 + from_le_bytes l)
    with InvalidOwnershipEncoding ;;
  new kind p.
Proof.
  intros Hl Hp. unfold decode.
  assert (blen ([v] ++ [k] ++ l ++ p) = 4 + blen p) as Hlen by (autorewrite with blen; lia).
  rewrite Hlen. pose proof (blen_nonneg p).
  rewrite Z.gtb_ltb, (proj2 (Z.ltb_ge _ _)) by lia. rewrite (proj2 (Z.ltb_ge (4 + blen p) 4)) by lia.
  cbn [orb]. change (b_at ([v] ++ [k] ++ l ++ p) 0) with v. change (b_at ([v] ++ [k] ++ l ++ p) 1) with k.
  assert (b_slice ([v] ++ [k] ++ l ++ p) 2 4 = l) as -> by (slices; done).
  assert (b_from ([v] ++ [k] ++ l ++ p) 4 = p) as ->; [|done].
  rewrite !b_from_skip by blia. unfold b_from. replace (Z.to_nat _) with 0%nat; [done|].
  rewrite Hl. done.
Qed.

Lemma ownership_decode_iff b o : decode b = Ok o <-> valid o /\ encode o = Ok b.
Proof.
  rewrite ownership_encode_Ok. split.
  - intros H. assert (4 <= blen b <= MAX_OWNERSHIP_BYTES) as Hb.
    { unfold decode in H. case_match eqn:Hg; [by case_match|]. to_prop. lia. }
    destruct (chop 1 b) as (v & b1 & -> & Hv); [blia|]. apply blen_1_inv in Hv as [v' ->].
    destruct (chop 1 b1) as (k & b2 & -> & Hk); [blia|]. apply blen_1_inv in Hk as [k' ->].
    destruct (chop 2 b2) as (l & p & -> & Hl); [blia|].
    rewrite ownership_decode_fields in H; [|done|autorewrite with blen in Hb; lia].
    result_inv1. apply rbind_Ok in H as (kind & Hkind & H). result_inv1. to_prop.
    apply ownership_new_Ok in H as [-> Hval]. apply kind_try_from_Ok in Hkind as ->.
    split; [done|]. split; [done|]. unfold fmt. cbn [version public Ownership.kind].
    destruct (yields_le 2 _ l Hl eq_refl) as [Hle _]. rewrite Hle at 1.
    replace (from_le_bytes l) with (blen p) by lia. by subst v'.
  - intros (Hv & _ & ->). unfold fmt. destruct o as [v k p]. pose proof Hv as (Hver & Hl & _).
    cbn [version kind public] in *. subst v. pose proof (public_len_range k).
    rewrite ownership_decode_fields; [|apply blen_to_le_bytes|unfold MAX_OWNERSHIP_BYTES; lia].
    rewrite bool_decide_eq_true_2 by done. cbn [negb]. rewrite kind_roundtrip. cbn [rbind].
    rewrite from_to_u16 by (unfold u16_ok, U16_MAX; lia). rewrite Hl, !Z.eqb_refl. cbn [negb orb].
    by apply ownership_new_Ok.
Qed.

(** Distinct ownerships have distinct key preimages. *)
Lemma preimage_inj o o' b b' :
  encode o = Ok b -> encode o' = Ok b' -> key_preimage b = key_preimage b' -> o = o'.
Proof.
  intros Ho Ho' Heq. unfold key_preimage in Heq. apply (inj (app _)) in Heq as ->.
  pose proof Ho as [Hv _]%ownership_encode_Ok. pose proof Ho' as [Hv' _]%ownership_encode_Ok.
  assert (decode b' = Ok o) as H1 by (by apply ownership_decode_iff).
  assert (decode b' = Ok o') as H2 by (by apply ownership_decode_iff). congruence.
Qed.
End Ownership.

(** Ownership identities have one encoding: on every byte string, decoding
    returns an ownership exactly when it is valid and encodes to that string;
    every valid ownership encodes; and two ownerships with the same domain
    separated key preimage are the same, so the 32-byte ownership key
    identifies kind and public value up to hash collisions. *)
Theorem ownership_codec_exact :
  (forall b o, Ownership.decode b = Ok o <-> Ownership.valid o /\ Ownership.encode o = Ok b)
  /\ (forall o, Ownership.valid o -> exists b, Ownership.encode o = Ok b)
  /\ (forall o o' b b', Ownership.encode o = Ok b -> Ownership.encode o' = Ok b' ->
        Ownership.key_preimage b = Ownership.key_preimage b' -> o = o').
Proof.
  split; [apply Ownership.ownership_decode_iff|]. split; [|apply Ownership.preimage_inj].
  intros o Hv. exists (Ownership.fmt o). by apply Ownership.ownership_encode_Ok.
Qed.
