(* ===== verification/GuestMemory.v ===== *)
(** * Guest memory budgets and fault records

    [guest_memory.rs] of [service-runtime-core]: the heap budget a build
    declares, the fixed-width record a faulting guest leaves behind, and the
    text form it logs without allocating. *)

From S2P Require Import Prelude Ordering Reader Wire.

Definition GUEST_MEMORY_PAGE_BYTES : Z := 4096.
Definition DEFAULT_GUEST_HEAP_INITIAL_BYTES : Z := 1024 * 1024.
Definition DEFAULT_GUEST_HEAP_MAX_BYTES : Z := 16 * 1024 * 1024.
Definition GUEST_HEAP_PLATFORM_MAX_BYTES : Z := 64 * 1024 * 1024.

(** [u32::is_multiple_of] for a nonzero argument. *)
Definition is_multiple_of (a b : Z) : bool := a mod b =? 0.
(** [u32::is_power_of_two]. *)
Definition is_power_of_two (a : Z) : bool := (0 <? a) && (a =? 2 ^ Z.log2 a).

Lemma is_power_of_two_spec a : is_power_of_two a = true <-> exists k, 0 <= k /\ a = 2 ^ k.
Proof.
  unfold is_power_of_two. split.
  - intros H. to_prop. exists (Z.log2 a). split; [apply Z.log2_nonneg|done].
  - intros (k & Hk & ->). rewrite Z.log2_pow2, Z.eqb_refl, andb_true_r by done.
    apply Z.ltb_lt. by apply Z.pow_pos_nonneg.
Qed.

(** ** [GuestMemoryBudgetV1] *)

Module Budget.
Record t := mk { heap_initial_bytes : Z; heap_max_bytes : Z }.

Inductive error :=
| InitialMustBePositive
| MaximumMustBePositive
| InitialNotPageAligned (initial : Z)
| MaximumNotPageAligned (maximum : Z)
| InitialExceedsMaximum (initial maximum : Z)
| MaximumExceedsPlatform (maximum platform_maximum : Z).

Definition DEFAULT : t := mk DEFAULT_GUEST_HEAP_INITIAL_BYTES DEFAULT_GUEST_HEAP_MAX_BYTES.

Definition validate (b : t) : result t error :=
  bail_if heap_initial_bytes b =? 0 with InitialMustBePositive ;;
  bail_if heap_max_bytes b =? 0 with MaximumMustBePositive ;;
  bail_if negb (is_multiple_of (heap_initial_bytes b) GUEST_MEMORY_PAGE_BYTES)
    with InitialNotPageAligned (heap_initial_bytes b) ;;
  bail_if negb (is_multiple_of (heap_max_bytes b) GUEST_MEMORY_PAGE_BYTES)
    with MaximumNotPageAligned (heap_max_bytes b) ;;
  bail_if heap_initial_bytes b >? heap_max_bytes b
    with InitialExceedsMaximum (heap_initial_bytes b) (heap_max_bytes b) ;;
  bail_if heap_max_bytes b >? GUEST_HEAP_PLATFORM_MAX_BYTES
    with MaximumExceedsPlatform (heap_max_bytes b) GUEST_HEAP_PLATFORM_MAX_BYTES ;;
  Ok b.

(** A budget counted in whole pages. *)
Definition in_pages (b : t) (initial maximum : Z) : Prop :=
  heap_initial_bytes b = initial * GUEST_MEMORY_PAGE_BYTES /\
  heap_max_bytes b = maximum * GUEST_MEMORY_PAGE_BYTES /\
  1 <= initial <= maximum /\ maximum <= 16384.

Lemma is_multiple_of_page a :
  is_multiple_of a GUEST_MEMORY_PAGE_BYTES = true -> a = a / 4096 * 4096.
Proof. unfold is_multiple_of, GUEST_MEMORY_PAGE_BYTES. intros H. to_prop.
  pose proof (Z.div_mod a 4096 ltac:(lia)). lia.
Qed.

Lemma validate_Ok_in_pages b b' :
  u32_ok (heap_initial_bytes b) -> u32_ok (heap_max_bytes b) ->
  validate b = Ok b' <-> b' = b /\ exists initial maximum, in_pages b initial maximum.
Proof.
  unfold u32_ok, in_pages. intros Hi Hm. unfold validate. split.
  - intros H. result_inv. split; [done|].
    repeat match goal with H : negb (is_multiple_of _ _) = false |- _ =>
      apply negb_false_iff, is_multiple_of_page in H end.
    exists (heap_initial_bytes b' / 4096), (heap_max_bytes b' / 4096).
    unfold GUEST_MEMORY_PAGE_BYTES, GUEST_HEAP_PLATFORM_MAX_BYTES in *. to_prop. lia.
  - intros (-> & i & m & Hii & Hmm & Him & Hp). unfold is_multiple_of, GUEST_MEMORY_PAGE_BYTES in *.
    rewrite Hii, Hmm, !Z_mod_mult, !Z.gtb_ltb. simpl.
    unfold GUEST_HEAP_PLATFORM_MAX_BYTES. repeat case_match; to_prop; try lia. done.
Qed.
End Budget.

(** ** [GuestFaultRecordV1] *)

Definition GUEST_FAULT_MAGIC_V1 : bytes := bstr "JSGF".
Definition GUEST_FAULT_RECORD_VERSION_V1 : Z := 1.
Definition GUEST_FAULT_RECORD_V1_LEN : Z := 44.
Definition GUEST_FAULT_LOG_MESSAGE_CAPACITY_V1 : Z := 256.

Inductive GuestFaultCode :=
| HeapLimitExceeded | MemoryGrowFailed | MemoryAllocationFailed | Panic | MemoryConfigInvalid | FaultAbort.

Definition fault_code_from_u32 (value : Z) : option GuestFaultCode :=
  match value with
  | 1 => Some HeapLimitExceeded
  | 2 => Some MemoryGrowFailed
  | 3 => Some MemoryAllocationFailed
  | 4 => Some Panic
  | 5 => Some MemoryConfigInvalid
  | 6 => Some FaultAbort
  | _ => None
  end.

Inductive GuestFaultStage := Invocation | Plan | Refine.

Definition fault_stage_from_u32 (value : Z) : option GuestFaultStage :=
  match value with
  | 0 => Some Invocation
  | 1 => Some Plan
  | 2 => Some Refine
  | _ => None
  end.

Definition fault_code_as_str (code : GuestFaultCode) : bytes :=
  match code with
  | HeapLimitExceeded => bstr "GUEST_HEAP_LIMIT_EXCEEDED"
  | MemoryGrowFailed => bstr "GUEST_MEMORY_GROW_FAILED"
  | MemoryAllocationFailed => bstr "GUEST_MEMORY_ALLOCATION_FAILED"
  | Panic => bstr "GUEST_PANIC"
  | MemoryConfigInvalid => bstr "GUEST_MEMORY_CONFIG_INVALID"
  | FaultAbort => bstr "GUEST_ABORT"
  end.

Definition fault_stage_as_str (stage : GuestFaultStage) : bytes :=
  match stage with
  | Invocation => bstr "invocation"
  | Plan => bstr "plan"
  | Refine => bstr "refine"
  end.

Inductive GuestFaultRecordError :=
| FaultInvalidLength (length : Z)
| FaultInvalidMagic
| FaultUnsupportedVersion (version : Z)
| UnknownCode (code : Z)
| UnknownStage (stage : Z)
| InvalidAlignment (alignment : Z)
| InconsistentFields.

Module FaultRecord.
Record t := mk {
  magic : bytes;
  version : Z;
  length : Z;
  code : Z;
  stage : Z;
  requested_bytes : Z;
  alignment : Z;
  heap_committed_bytes : Z;
  heap_max_bytes : Z;
  live_requested_bytes : Z;
  high_water_requested_bytes : Z;
  cumulative_requested_bytes : Z
}.

Definition EMPTY : t :=
  mk GUEST_FAULT_MAGIC_V1 GUEST_FAULT_RECORD_VERSION_V1 GUEST_FAULT_RECORD_V1_LEN 0 0 0 0 0 0 0 0 0.

(** The [[u32; 9]] array of [encode], in its order. *)
Definition fields (r : t) : list Z :=
  [code r; stage r; requested_bytes r; alignment r; heap_committed_bytes r; heap_max_bytes r;
   live_requested_bytes r; high_water_requested_bytes r; cumulative_requested_bytes r].

Definition encode (r : t) : bytes :=
  magic r ++ to_le_bytes 2 (version r) ++ to_le_bytes 2 (length r) ++
  concat (map (to_le_bytes 4) (fields r)).

Definition validate (r : t) : result unit GuestFaultRecordError :=
  bail_if negb (bool_decide (magic r = GUEST_FAULT_MAGIC_V1)) with FaultInvalidMagic ;;
  bail_if negb (version r =? GUEST_FAULT_RECORD_VERSION_V1)
    with FaultUnsupportedVersion (version r) ;;
  bail_if negb (length r =? GUEST_FAULT_RECORD_V1_LEN) with FaultInvalidLength (length r) ;;
  bail_if negb (code r =? 0) && bool_decide (fault_code_from_u32 (code r) = None)
    with UnknownCode (code r) ;;
  bail_if bool_decide (fault_stage_from_u32 (stage r) = None) with UnknownStage (stage r) ;;
  bail_if (heap_committed_bytes r >? heap_max_bytes r)
      || (heap_max_bytes r >? GUEST_HEAP_PLATFORM_MAX_BYTES)
      || (live_requested_bytes r >? high_water_requested_bytes r)
      || (high_water_requested_bytes r >? cumulative_requested_bytes r)
    with InconsistentFields ;;
  bail_if negb (alignment r =? 0) && negb (is_power_of_two (alignment r))
    with InvalidAlignment (alignment r) ;;
  Ok tt.

Definition u32_at (b : bytes) (index : Z) : Z :=
  let start := 8 + index * 4 in from_le_bytes (b_slice b start (start + 4)).

Definition decode (b : bytes) : result t GuestFaultRecordError :=
  bail_if negb (blen b =? GUEST_FAULT_RECORD_V1_LEN) with FaultInvalidLength (blen b) ;;
  let magic := b_slice b 0 4 in
  let version := from_le_bytes (b_slice b 4 6) in
  let length := from_le_bytes (b_slice b 6 8) in
  bail_if negb (bool_decide (magic = GUEST_FAULT_MAGIC_V1)) with FaultInvalidMagic ;;
  bail_if negb (version =? GUEST_FAULT_RECORD_VERSION_V1) with FaultUnsupportedVersion version ;;
  bail_if negb (length =? GUEST_FAULT_RECORD_V1_LEN) with FaultInvalidLength length ;;
  let record :=
    mk magic version length (u32_at b 0) (u32_at b 1) (u32_at b 2) (u32_at b 3) (u32_at b 4)
      (u32_at b 5) (u32_at b 6) (u32_at b 7) (u32_at b 8) in
  let? _ := validate record in
  Ok record.
End FaultRecord.

(** ** The log line *)

Module FaultLog.
Import FaultRecord.

(** [GuestFaultLogWriter]: a fixed buffer and the bytes written so far.  A
    failed write leaves the writer unusable, so it is not returned. *)
Record writer := Wr { output : bytes; offset : Z }.

Definition put_bytes (w : writer) (b : bytes) : option writer :=
  stop ← checked_add USIZE_MAX (offset w) (blen b);
  target ← slice_get (output w) (offset w) stop;
  Some (Wr (b_slice (output w) 0 (offset w) ++ b ++ b_from (output w) stop) stop).

(** The [loop] of [number], least significant digit first; its array has
    room for ten digits. *)
Fixpoint reversed_digits (room : nat) (value : Z) : bytes :=
  match room with
  | O => []
  | S room' =>
      z2b (48 + value mod 10) ::
      (if value / 10 =? 0 then [] else reversed_digits room' (value / 10))
  end.

Fixpoint put_each (w : writer) (b : bytes) : option writer :=
  match b with
  | [] => Some w
  | c :: b' => w' ← put_bytes w [c]; put_each w' b'
  end.

Definition number (w : writer) (value : Z) : option writer :=
  put_each w (rev (reversed_digits 10 value)).

(** The literal and the field of each pair of calls. *)
Definition parts (r : t) : list (bytes * Z) :=
  [(bstr "JSGF;v=1;code=", code r); (bstr ";stage=", stage r); (bstr ";req=", requested_bytes r);
   (bstr ";align=", alignment r); (bstr ";committed=", heap_committed_bytes r);
   (bstr ";max=", heap_max_bytes r);
   (bstr ";allocator_live_requested=", live_requested_bytes r);
   (bstr ";allocator_high_water_requested=", high_water_requested_bytes r);
   (bstr ";allocator_cumulative_requested=", cumulative_requested_bytes r)].

Fixpoint put_parts (w : writer) (ps : list (bytes * Z)) : option writer :=
  match ps with
  | [] => Some w
  | (lit, v) :: ps' => w1 ← put_bytes w lit; w2 ← number w1 v; put_parts w2 ps'
  end.

Definition write_log_message_v1 (r : t) (out : bytes) : option (Z * bytes) :=
  w ← put_parts (Wr out 0) (parts r);
  Some (offset w, output w).
End FaultLog.

(** ** The record format is exact *)

Section RecordFormat.
Import FaultRecord.

Definition fields_ok (r : t) : Prop := Forall u32_ok (fields r).

Lemma validate_header r :
  validate r = Ok tt ->
  magic r = GUEST_FAULT_MAGIC_V1 /\ version r = GUEST_FAULT_RECORD_VERSION_V1 /\
  length r = GUEST_FAULT_RECORD_V1_LEN.
Proof. unfold validate. intros H. result_inv. to_prop. done. Qed.

(** Nine 4-byte words. *)
Lemma nine_words (b : bytes) :
  blen b = 36 ->
  exists ws, b = concat ws /\ List.length ws = 9%nat /\ Forall (fun w => blen w = 4) ws.
Proof.
  assert (forall n (c : bytes), blen c = 4 * Z.of_nat n ->
    exists ws, c = concat ws /\ List.length ws = n /\ Forall (fun w => blen w = 4) ws) as Hn.
  { induction n as [|n IH]; intros c Hc.
    - exists []. rewrite (blen_0_inv c); [done|]. lia.
    - destruct (chop 4 c) as (w & c' & -> & Hw); [lia|].
      destruct (IH c') as (ws & -> & <- & Hws); [blia|].
      exists (w :: ws). auto. }
  intros Hb. by apply (Hn 9%nat).
Qed.

Lemma u32_word w : blen w = 4 -> to_le_bytes 4 (from_le_bytes w) = w /\ u32_ok (from_le_bytes w).
Proof.
  intros Hw. destruct (yields_le 4 _ w Hw eq_refl) as [H1 H2]. split; [done|].
  unfold u32_ok, U32_MAX. simpl in H2. lia.
Qed.

Lemma u16_word w : blen w = 2 -> to_le_bytes 2 (from_le_bytes w) = w.
Proof. intros Hw. symmetry. by apply (yields_le 2). Qed.

Lemma decode_encode r : fields_ok r -> validate r = Ok tt -> decode (encode r) = Ok r.
Proof.
  intros Hf Hv. destruct (validate_header r Hv) as (Hm & Hver & Hl).
  unfold fields_ok, fields in Hf.
  repeat match goal with H : Forall _ (_ :: _) |- _ => apply Forall_cons in H as [? H] end.
  destruct r as [m ver len]. cbn [magic version length code stage requested_bytes alignment
    heap_committed_bytes heap_max_bytes live_requested_bytes high_water_requested_bytes
    cumulative_requested_bytes] in *. subst.
  assert (blen GUEST_FAULT_MAGIC_V1 = 4) as Hm4 by done.
  unfold decode, encode, u32_at, fields.
  cbn [magic version length code stage requested_bytes alignment
    heap_committed_bytes heap_max_bytes live_requested_bytes high_water_requested_bytes
    cumulative_requested_bytes map concat].
  rewrite !blen_app, !blen_to_le_bytes, Hm4. change (blen (@nil byte)) with 0. cbn [Z.of_nat].
  cbn -[b_slice GUEST_FAULT_MAGIC_V1 validate]. slices.
  rewrite !from_to_u16 by done. rewrite !from_to_u32 by done.
  rewrite bool_decide_eq_true_2 by done. cbn -[validate rbind].
  apply rbind_Ok. by exists tt.
Qed.
End RecordFormat.

(** A guest fault record has one encoding: the decoder accepts exactly the
    44-byte encodings of records whose fields are [u32] values and which pass
    [validate]. *)
Theorem fault_record_exact b r :
  FaultRecord.decode b = Ok r <->
  b = FaultRecord.encode r /\ fields_ok r /\ FaultRecord.validate r = Ok tt.
Proof.
  split; [|intros (-> & Hf & Hv); by apply decode_encode].
  unfold FaultRecord.decode. intros H.
  apply bail_if_Ok in H as [Hlen H]. to_prop. unfold GUEST_FAULT_RECORD_V1_LEN in Hlen.
  destruct (chop 4 b) as (m & c & -> & Hm); [lia|]. rewrite blen_app in Hlen.
  destruct (chop 2 c) as (ver & d & -> & Hver); [lia|]. rewrite blen_app in Hlen.
  destruct (chop 2 d) as (len & e & -> & Hl); [lia|]. rewrite blen_app in Hlen.
  destruct (nine_words e) as (ws & -> & Hn & Hws); [lia|].
  do 9 (destruct ws as [|? ws]; [discriminate Hn|]). destruct ws; [|discriminate Hn]. clear Hn.
  repeat match goal with H : Forall _ (_ :: _) |- _ => apply Forall_cons in H as [? H] end.
  revert H. unfold FaultRecord.u32_at. cbn [concat]. slices.
  intros H. repeat (apply bail_if_Ok in H as [_ H]).
  apply rbind_Ok in H as ([] & Hv & [= <-]). split; [|split; [|exact Hv]].
  - unfold FaultRecord.encode, FaultRecord.fields. simpl.
    rewrite !u16_word by done. 
    repeat match goal with Hw : blen ?w = 4 |- context [to_le_bytes 4 (from_le_bytes ?w)] =>
      rewrite (proj1 (u32_word w Hw)) end.
    done.
  - unfold fields_ok, FaultRecord.fields. simpl. repeat (constructor; [by apply u32_word|]). constructor.
Qed.

(** A heap budget is accepted exactly when it is a positive number of whole
    pages, initial at most maximum at most the 16384 pages of the platform
    limit; an accepted budget is returned unchanged. *)
Theorem budget_valid_in_pages b b' :
  u32_ok (Budget.heap_initial_bytes b) -> u32_ok (Budget.heap_max_bytes b) ->
  Budget.validate b = Ok b' <-> b' = b /\ exists initial maximum, Budget.in_pages b initial maximum.
Proof. apply Budget.validate_Ok_in_pages. Qed.

Lemma budget_valid_in_pages_witness :
  Budget.validate Budget.DEFAULT = Ok Budget.DEFAULT /\
  exists initial maximum, Budget.in_pages Budget.DEFAULT initial maximum.
Proof.
  assert (Budget.validate Budget.DEFAULT = Ok Budget.DEFAULT) as H by reflexivity.
  split; [exact H|].
  refine (proj2 (proj1 (budget_valid_in_pages Budget.DEFAULT Budget.DEFAULT _ _) H));
    unfold u32_ok, U32_MAX; simpl; unfold DEFAULT_GUEST_HEAP_MAX_BYTES, DEFAULT_GUEST_HEAP_INITIAL_BYTES; lia.
Defined.

(** ** What the log line says *)

Section LogLine.
Import FaultRecord FaultLog.

Definition decimal (value : Z) : bytes := rev (reversed_digits 10 value).
Definition part_text (p : bytes * Z) : bytes := p.1 ++ decimal p.2.
Definition message (r : t) : bytes := concat (map part_text (parts r)).

(** A writer that has filled [d] of a buffer whose rest is [rest]. *)
Definition filled (d rest : bytes) : writer := Wr (d ++ rest) (blen d).

Lemma put_bytes_filled d rest b :
  slice_ok (d ++ rest) ->
  put_bytes (filled d rest) b =
    if blen b <=? blen rest then Some (filled (d ++ b) (b_from rest (blen b))) else None.
Proof.
  unfold slice_ok. intros Hs. unfold put_bytes, filled, checked_add. cbn [offset output].
  assert (0 <= blen d /\ 0 <= blen rest /\ 0 <= blen b) as (H1 & H2 & H3)
    by (split; [|split]; apply blen_nonneg).
  rewrite blen_app in Hs.
  destruct (Z.leb_spec (blen b) (blen rest)) as [Hle|Hgt].
  - destruct (Z.leb_spec (blen d + blen b) USIZE_MAX) as [_|Hov];
      [|unfold USIZE_MAX, U64_MAX, ISIZE_MAX in *; lia].
    simpl. unfold slice_get. rewrite blen_app.
    replace ((blen d <=? blen d + blen b) && (blen d + blen b <=? blen d + blen rest)) with true
      by (symmetry; apply andb_true_iff; split; apply Z.leb_le; lia).
    simpl. rewrite b_slice_take by done.
    rewrite b_from_skip by lia. replace (blen d + blen b - blen d) with (blen b) by lia.
    by rewrite blen_app, (assoc_L (++)).
  - destruct (Z.leb_spec (blen d + blen b) USIZE_MAX) as [_|_]; [|done]. simpl.
    unfold slice_get. rewrite blen_app.
    replace (blen d + blen b <=? blen d + blen rest) with false by (symmetry; apply Z.leb_gt; lia).
    by rewrite andb_false_r.
Qed.

Lemma b_from_all b lo : lo = blen b -> b_from b lo = [].
Proof. intros ->. rewrite <- (app_nil_r b) at 1. by apply b_from_app. Qed.

Lemma b_from_b_from b x y : 0 <= x -> 0 <= y -> b_from (b_from b x) y = b_from b (x + y).
Proof. intros. unfold b_from. rewrite drop_drop. f_equal. lia. Qed.

Lemma blen_b_from (b : bytes) lo : 0 <= lo <= blen b -> blen (b_from b lo) = blen b - lo.
Proof. intros. unfold b_from, blen in *. rewrite length_drop. lia. Qed.

(** Every call appends its text or fails, and what remains of the buffer is
    untouched. *)
Definition appends (f : writer -> option writer) (text : bytes) : Prop :=
  forall d rest, slice_ok (d ++ rest) ->
    f (filled d rest) =
      if blen text <=? blen rest then Some (filled (d ++ text) (b_from rest (blen text))) else None.

Lemma slice_ok_step d rest text :
  slice_ok (d ++ rest) -> blen text <= blen rest ->
  slice_ok ((d ++ text) ++ b_from rest (blen text)).
Proof.
  unfold slice_ok. intros Hs Hle. pose proof (blen_nonneg text).
  rewrite !blen_app, blen_b_from by done. rewrite blen_app in Hs. lia.
Qed.

Lemma appends_nil : appends Some [].
Proof.
  intros d rest _. change (blen (@nil byte)) with 0. pose proof (blen_nonneg rest).
  destruct (Z.leb_spec 0 (blen rest)); [|lia]. by rewrite app_nil_r.
Qed.

Lemma appends_seq f g s u :
  appends f s -> appends g u -> appends (fun w => w' ← f w; g w') (s ++ u).
Proof.
  intros Hf Hg d rest Hs. rewrite Hf by done. rewrite blen_app.
  pose proof (blen_nonneg s); pose proof (blen_nonneg u).
  destruct (Z.leb_spec (blen s) (blen rest)) as [Hle|Hgt]; simpl.
  - rewrite Hg by (by apply slice_ok_step). rewrite blen_b_from by lia.
    rewrite b_from_b_from by done. rewrite <- (assoc_L (++)).
    destruct (Z.leb_spec (blen u) (blen rest - blen s)), (Z.leb_spec (blen s + blen u) (blen rest));
      done || lia.
  - destruct (Z.leb_spec (blen s + blen u) (blen rest)); done || lia.
Qed.

Lemma appends_put_bytes b : appends (fun w => put_bytes w b) b.
Proof. intros d rest Hs. by apply put_bytes_filled. Qed.

Lemma appends_put_each b : appends (fun w => put_each w b) b.
Proof.
  induction b as [|c b IH]; [apply appends_nil|]. change (c :: b) with ([c] ++ b) at 2.
  exact (appends_seq _ _ [c] b (appends_put_bytes [c]) IH).
Qed.

Lemma appends_put_parts ps : appends (fun w => put_parts w ps) (concat (map part_text ps)).
Proof.
  induction ps as [|[lit v] ps IH]; [apply appends_nil|]. simpl. unfold part_text at 1. simpl.
  rewrite <- (assoc_L (++)).
  exact (appends_seq _ _ lit _ (appends_put_bytes lit)
    (appends_seq _ _ _ _ (appends_put_each (decimal v)) IH)).
Qed.

Lemma write_log_message_eq r out :
  slice_ok out ->
  write_log_message_v1 r out =
    if blen (message r) <=? blen out
    then Some (blen (message r), message r ++ b_from out (blen (message r))) else None.
Proof.
  intros Hs. unfold write_log_message_v1. pose proof (appends_put_parts (parts r) [] out Hs) as Hp.
  change (filled [] out) with (Wr out 0) in Hp. cbv beta in Hp. rewrite Hp.
  fold (message r). simpl. destruct (blen (message r) <=? blen out); done.
Qed.

Lemma write_log_message_prefix r out n buffer :
  slice_ok out -> write_log_message_v1 r out = Some (n, buffer) -> b_slice buffer 0 n = message r.
Proof.
  intros Hs. rewrite write_log_message_eq by done. generalize (message r). intros line H.
  case_match; [|done]. injection H as <- <-. by apply b_slice_take.
Qed.
End LogLine.

Section Decimal.
Import FaultLog.

Definition is_digit (c : byte) : Prop := 48 <= b2z c <= 57.

Lemma digit_z v : b2z (z2b (48 + v mod 10)) = 48 + v mod 10.
Proof. rewrite b2z_z2b. pose proof (Z.mod_pos_bound v 10 ltac:(lia)). apply Z.mod_small. lia. Qed.

Lemma reversed_digits_digits n v : Forall is_digit (reversed_digits n v).
Proof.
  revert v. induction n as [|n IH]; intros v; simpl; constructor.
  - unfold is_digit. rewrite digit_z. pose proof (Z.mod_pos_bound v 10 ltac:(lia)). lia.
  - case_match; [constructor|apply IH].
Qed.

Lemma reversed_digits_length n v : (length (reversed_digits n v) <= n)%nat.
Proof.
  revert v. induction n as [|n IH]; intros v; simpl; [lia|].
  specialize (IH (v / 10)). case_match; simpl; lia.
Qed.

(** The value of a digit string, least significant digit first. *)
Fixpoint digits_value (ds : bytes) : Z :=
  match ds with
  | [] => 0
  | c :: ds' => (b2z c - 48) + 10 * digits_value ds'
  end.

Lemma digits_value_reversed n v : 0 <= v < 10 ^ Z.of_nat n -> digits_value (reversed_digits n v) = v.
Proof.
  revert v. induction n as [|n IH]; intros v Hv; [simpl in *; lia|].
  rewrite Nat2Z.inj_succ, Z.pow_succ_r in Hv by lia.
  cbn [reversed_digits digits_value]. rewrite digit_z.
  pose proof (Z.div_mod v 10 ltac:(lia)) as Hdm.
  destruct (Z.eqb_spec (v / 10) 0) as [H0|Hne]; [simpl; lia|].
  rewrite IH; [lia|]. split; [apply Z.div_pos; lia|apply Z.div_lt_upper_bound; lia].
Qed.

Lemma decimal_inj v w : u32_ok v -> u32_ok w -> decimal v = decimal w -> v = w.
Proof.
  unfold decimal, u32_ok, U32_MAX. intros Hv Hw H.
  apply (f_equal (fun l => digits_value (rev l))) in H. rewrite !rev_involutive in H.
  rewrite !digits_value_reversed in H; [done|simpl; lia..].
Qed.

Lemma decimal_digits v : Forall is_digit (decimal v).
Proof. unfold decimal. apply Forall_rev, reversed_digits_digits. Qed.

Lemma decimal_length v : blen (decimal v) <= 10.
Proof. unfold decimal, blen. rewrite length_rev. pose proof (reversed_digits_length 10 v). lia. Qed.

(** A digit string ends where the first non-digit is. *)
Definition stops (s : bytes) : Prop := match s with [] => True | c :: _ => ~ is_digit c end.

Lemma digits_split a b s u :
  Forall is_digit a -> Forall is_digit b -> stops s -> stops u -> a ++ s = b ++ u -> a = b /\ s = u.
Proof.
  intros Ha. revert b. induction Ha as [|c a Hc Ha IH]; intros b Hb Hs Hu Heq.
  - destruct Hb as [|d b Hd Hb]; [done|]. simpl in Heq. subst s. by destruct Hs.
  - destruct Hb as [|d b Hd Hb]; simpl in Heq; [subst u; by destruct Hu|].
    injection Heq as -> Heq. destruct (IH b Hb Hs Hu Heq) as [-> ->]. done.
Qed.

Lemma parts_text_inj (lits : list bytes) vs ws :
  length vs = length lits -> length ws = length lits ->
  Forall (fun l => stops l /\ l <> []) lits -> Forall u32_ok vs -> Forall u32_ok ws ->
  concat (map part_text (zip lits vs)) = concat (map part_text (zip lits ws)) -> vs = ws.
Proof.
  intros Hv Hw Hl. revert vs ws Hv Hw. induction Hl as [|lit lits [Hlit Hne] Hl IH].
  - intros [|] [|]; done.
  - intros [|v vs] [|w ws] [= Hlv] [= Hlw] Hvs Hws Heq; [].
    apply Forall_cons in Hvs as [Hv Hvs]. apply Forall_cons in Hws as [Hw Hws].
    cbn [zip zip_with map concat] in Heq. unfold part_text in Heq at 1 3. simpl in Heq.
    rewrite <- !(assoc_L (++)) in Heq. apply (inj (app lit)) in Heq.
    assert (forall us, stops (concat (map part_text (zip lits us)))) as Hst.
    { intros us. destruct Hl as [|[|c l] lits' [H1 H2] _]; [done..|]. by destruct us. }
    destruct (digits_split _ _ _ _ (decimal_digits v) (decimal_digits w) (Hst vs) (Hst ws) Heq)
      as [Hd Hrest].
    apply decimal_inj in Hd; [|done..]. subst. f_equal. by apply IH.
Qed.

Definition literals (r : FaultRecord.t) : list bytes := map fst (parts r).

Lemma parts_zip r : parts r = zip (literals FaultRecord.EMPTY) (FaultRecord.fields r).
Proof. done. Qed.

Lemma literals_stop : Forall (fun l => stops l /\ l <> []) (literals FaultRecord.EMPTY).
Proof.
  unfold literals. cbn [map parts fst].
  repeat (constructor; [split; [vm_compute; intros [? ?]; congruence|done]|]). constructor.
Qed.

Lemma message_inj r r' :
  fields_ok r -> fields_ok r' -> message r = message r' -> FaultRecord.fields r = FaultRecord.fields r'.
Proof.
  unfold message. rewrite !parts_zip. intros Hr Hr'.
  by apply parts_text_inj; [| |apply literals_stop|..].
Qed.

Lemma message_length r : blen (message r) <= GUEST_FAULT_LOG_MESSAGE_CAPACITY_V1.
Proof.
  unfold message, parts, part_text. cbn [map concat fst snd]. rewrite !blen_app.
  repeat match goal with |- context [blen (decimal ?v)] =>
    pose proof (decimal_length v); generalize dependent (blen (decimal v)); intros end.
  unfold GUEST_FAULT_LOG_MESSAGE_CAPACITY_V1.
  repeat match goal with |- context [blen (bstr ?s)] =>
    let n := eval vm_compute in (blen (bstr s)) in change (blen (bstr s)) with n end.
  change (blen (@nil byte)) with 0. lia.
Qed.
End Decimal.

(** The log line of a guest fault always fits the 256-byte stack buffer, is
    written once at its start with the rest of the buffer untouched, and
    determines every field: a record whose line is the same has the same
    fields.  A buffer shorter than the line is refused, never truncated. *)
Theorem fault_log_faithful r out :
  fields_ok r -> slice_ok out ->
  exists line,
    blen line <= GUEST_FAULT_LOG_MESSAGE_CAPACITY_V1 /\
    FaultLog.write_log_message_v1 r out =
      (if blen line <=? blen out then Some (blen line, line ++ b_from out (blen line)) else None) /\
    forall r' out' n buffer,
      fields_ok r' -> slice_ok out' -> FaultLog.write_log_message_v1 r' out' = Some (n, buffer) ->
      b_slice buffer 0 n = line -> FaultRecord.fields r' = FaultRecord.fields r.
Proof.
  intros Hf Hs. exists (message r). split; [apply message_length|].
  split; [by apply write_log_message_eq|]. intros r' out' n buffer Hf' Hs' Hw Hline.
  apply write_log_message_prefix in Hw; [|done]. rewrite Hw in Hline. by apply message_inj.
Qed.

Lemma fault_log_faithful_witness :
  fields_ok FaultRecord.EMPTY /\ slice_ok (repeat x00 256) /\
  exists line,
    blen line <= 256 /\
    FaultLog.write_log_message_v1 FaultRecord.EMPTY (repeat x00 256) =
      (if blen line <=? blen (repeat x00 256)
       then Some (blen line, line ++ b_from (repeat x00 256) (blen line)) else None).
Proof.
  assert (fields_ok FaultRecord.EMPTY) as H1.
  { unfold fields_ok, FaultRecord.fields.
    repeat (apply Forall_cons_2; [unfold u32_ok, U32_MAX; simpl; lia|]). apply Forall_nil_2. }
  assert (slice_ok (repeat x00 256)) as H2 by (vm_compute; discriminate).
  split; [exact H1|]. split; [exact H2|].
  destruct (fault_log_faithful FaultRecord.EMPTY (repeat x00 256) H1 H2) as (line & H3 & H4 & _).
  exists line. split; [exact H3|exact H4].
Defined.
