(* ===== verification/Crypto.v ===== *)
(** * [jamscript-crypto]: which signature authorizes which ownership

    The curve and hash crates (schnorrkel, ed25519-dalek, k256, sha3, blake2)
    are parameters, a class per crate with the functions the source calls; the
    wrappers, the message wrapping and the dispatch on the ownership kind are
    the source's. *)

From S2P Require Import Prelude Ordering Reader Wire StateDiff Ownership.

Class Schnorrkel := {
  sr_public : Type;
  sr_public_from_bytes : bytes -> option sr_public;
  sr_public_to_bytes : sr_public -> bytes;
  sr_signature : Type;
  sr_signature_from_bytes : bytes -> option sr_signature;
  (** [public.verify(signing_context(context).bytes(message), signature)]. *)
  sr_verify : sr_public -> bytes -> bytes -> sr_signature -> bool
}.

Class Ed25519Dalek := {
  ed_key : Type;
  ed_key_from_bytes : bytes -> option ed_key;
  ed_signature : Type;
  ed_signature_from_slice : bytes -> option ed_signature;
  ed_verify : ed_key -> bytes -> ed_signature -> bool
}.

Class K256 := {
  ecdsa_signature : Type;
  ecdsa_try_from : bytes -> option ecdsa_signature;
  (** [normalize_s().is_some()]. *)
  ecdsa_high_s : ecdsa_signature -> bool;
  recovery_id : Type;
  recovery_id_try_from : byte -> option recovery_id;
  ecdsa_key : Type;
  recover_from_prehash : bytes -> ecdsa_signature -> recovery_id -> option ecdsa_key;
  (** [to_encoded_point(true)]. *)
  ecdsa_compressed : ecdsa_key -> bytes;
  k256_public : Type;
  k256_from_sec1_bytes : bytes -> option k256_public;
  (** [to_encoded_point(false)]. *)
  k256_uncompressed : k256_public -> bytes
}.

(** [Keccak256::digest]. *)
Class Sha3 := keccak256 : bytes -> bytes.

Inductive CryptoError :=
| InvalidPublicKey
| InvalidSignature
| VerificationFailed
| InvalidEd25519PublicKey
| InvalidEd25519Signature
| Ed25519VerificationFailed
| InvalidEcdsaSignature
| EcdsaRecoveryFailed
| UnsupportedOwnershipKind
| InvalidPolkadotAuthorization
| PolkadotAddressMismatch
| EvmHighS
| EvmAddressMismatch.

Definition SR25519_CONTEXT : bytes := bstr "substrate".

Section Verifiers.
Context `{Schnorrkel} `{Ed25519Dalek} `{K256} `{Sha3} `{Blake2}.

Definition derive_address (public_key : bytes) : result bytes CryptoError :=
  let? public := ok_or (sr_public_from_bytes public_key) InvalidPublicKey in
  Ok (sr_public_to_bytes public).

Definition verify_sr25519 (public_key signature message : bytes) : result bytes CryptoError :=
  let? public := ok_or (sr_public_from_bytes public_key) InvalidPublicKey in
  let? signature := ok_or (sr_signature_from_bytes signature) InvalidSignature in
  bail_if negb (sr_verify public SR25519_CONTEXT message signature) with VerificationFailed ;;
  Ok (sr_public_to_bytes public).

Definition verify_ed25519 (public_key signature message : bytes) : result bytes CryptoError :=
  bail_if negb (blen public_key =? 32) with InvalidEd25519PublicKey ;;
  let? key := ok_or (ed_key_from_bytes public_key) InvalidEd25519PublicKey in
  let? signature := ok_or (ed_signature_from_slice signature) InvalidEd25519Signature in
  bail_if negb (ed_verify key message signature) with Ed25519VerificationFailed ;;
  Ok public_key.

Definition recovery_of (v : byte) : result recovery_id CryptoError :=
  if bool_decide (v = x00) || bool_decide (v = x01) then
    ok_or (recovery_id_try_from v) InvalidEcdsaSignature
  else if bool_decide (v = x1b) || bool_decide (v = x1c) then
    ok_or (recovery_id_try_from (z2b (b2z v - 27))) InvalidEcdsaSignature
  else Err InvalidEcdsaSignature.

Definition recover_secp256k1 (digest signature : bytes) : result bytes CryptoError :=
  bail_if negb (blen signature =? 65) with InvalidEcdsaSignature ;;
  let? ecdsa := ok_or (ecdsa_try_from (b_slice signature 0 64)) InvalidEcdsaSignature in
  bail_if ecdsa_high_s ecdsa with EvmHighS ;;
  let? recovery := recovery_of (b_at signature 64) in
  let? key := ok_or (recover_from_prehash digest ecdsa recovery) EcdsaRecoveryFailed in
  let encoded := ecdsa_compressed key in
  bail_if negb (blen encoded =? 33) with EcdsaRecoveryFailed ;;
  Ok encoded.

Definition evm_action_digest (network_domain commitment : bytes) : bytes :=
  let domain_type := keccak256 (bstr "EIP712Domain(string name,string version,bytes32 salt)") in
  let name := keccak256 (bstr "JamScript") in
  let version := keccak256 (bstr "1") in
  let domain_separator := keccak256 (domain_type ++ name ++ version ++ network_domain) in
  let action_type := keccak256 (bstr "JamScriptAction(bytes32 commitment)") in
  let struct_hash := keccak256 (action_type ++ commitment) in
  keccak256 ([x19; x01] ++ domain_separator ++ struct_hash).

(** The last 20 bytes of the hash of the uncompressed point, the shared part
    of [verify_evm_ownership] and [verify_ownership]. *)
Definition evm_address (recovered : bytes) : result bytes CryptoError :=
  let? key := ok_or (k256_from_sec1_bytes recovered) EcdsaRecoveryFailed in
  Ok (b_from (keccak256 (b_from (k256_uncompressed key) 1)) 12).

Definition verify_evm_ownership (ownership : Ownership.t) (signature network_domain commitment : bytes)
    : result unit CryptoError :=
  bail_if negb (bool_decide (Ownership.kind ownership = Secp256k1Keccak20))
    with UnsupportedOwnershipKind ;;
  let digest := evm_action_digest network_domain commitment in
  let? recovered := recover_secp256k1 digest signature in
  let? address := evm_address recovered in
  bail_if negb (bool_decide (address = Ownership.public ownership)) with EvmAddressMismatch ;;
  Ok tt.

Definition polkadot_sign_raw_message (message : bytes) : bytes :=
  bstr "<Bytes>" ++ message ++ bstr "</Bytes>".

(** The loop of scheme 2 over the two candidates. *)
Fixpoint try_candidates (public signature : bytes) (recovered_any : bool)
    (recovery_error : option CryptoError) (candidates : list bytes) : result unit CryptoError :=
  match candidates with
  | [] =>
      match recovered_any, recovery_error with
      | false, Some error => Err error
      | _, _ => Err PolkadotAddressMismatch
      end
  | candidate :: rest =>
      match recover_secp256k1 (blake2_256 candidate) signature with
      | Ok recovered =>
          if bool_decide (blake2_256 recovered = public) then Ok tt
          else try_candidates public signature true recovery_error rest
      | Err error =>
          let first := match recovery_error with Some e => Some e | None => Some error end in
          try_candidates public signature recovered_any first rest
      end
  end.

Definition verify_polkadot_ownership (ownership : Ownership.t) (authorization_proof message : bytes)
    : result unit CryptoError :=
  let public := Ownership.public ownership in
  bail_if negb (bool_decide (Ownership.kind ownership = MulticryptoAccount32))
      || negb (blen public =? 32) || (blen authorization_proof =? 0)
    with InvalidPolkadotAuthorization ;;
  let scheme := b_at authorization_proof 0 in
  let signature := b_from authorization_proof 1 in
  let wrapped := polkadot_sign_raw_message message in
  if bool_decide (scheme = x00) then
    bail_if negb (blen signature =? 64) with InvalidPolkadotAuthorization ;;
    bail_if negb (is_ok (verify_ed25519 public signature message))
        && negb (is_ok (verify_ed25519 public signature wrapped))
      with InvalidPolkadotAuthorization ;;
    Ok tt
  else if bool_decide (scheme = x01) then
    bail_if negb (blen signature =? 64) with InvalidPolkadotAuthorization ;;
    bail_if negb (is_ok (verify_sr25519 public signature message))
        && negb (is_ok (verify_sr25519 public signature wrapped))
      with InvalidPolkadotAuthorization ;;
    Ok tt
  else if bool_decide (scheme = x02) then
    bail_if negb (blen signature =? 65) with InvalidPolkadotAuthorization ;;
    try_candidates public signature false None [message; wrapped]
  else Err InvalidPolkadotAuthorization.

Definition verify_ownership (ownership : Ownership.t) (signature message : bytes)
    : result unit CryptoError :=
  let public := Ownership.public ownership in
  let? _ := map_err (fun _ => UnsupportedOwnershipKind) (Ownership.validate ownership) in
  match Ownership.kind ownership with
  | Ed25519Key => let? _ := verify_ed25519 public signature message in Ok tt
  | Sr25519Key => let? _ := verify_sr25519 public signature message in Ok tt
  | Secp256k1Key =>
      let? recovered := recover_secp256k1 (blake2_256 message) signature in
      bail_if negb (bool_decide (recovered = public)) with EcdsaRecoveryFailed ;;
      Ok tt
  | Secp256k1Keccak20 =>
      let? recovered := recover_secp256k1 (blake2_256 message) signature in
      let? address := evm_address recovered in
      bail_if negb (bool_decide (address = public)) with EcdsaRecoveryFailed ;;
      Ok tt
  | MulticryptoAccount32 => verify_polkadot_ownership ownership signature message
  end.
End Verifiers.

(** ** What an authorization proof proves *)

Section Authorization.
Context `{Schnorrkel} `{Ed25519Dalek} `{K256} `{Sha3} `{Blake2}.
Implicit Types (o : Ownership.t) (proof sig m : bytes).

(** The two byte strings a Polkadot wallet may have signed for [m]. *)
Definition wallet_message (m said : bytes) : Prop := said = m \/ said = polkadot_sign_raw_message m.

(** An ownership accepts a proof over a message when the key it names signed
    the message, or, for a multi-scheme account, when a key of the scheme its
    first byte selects signed the message or its wallet wrapping. *)
Inductive authorized : Ownership.t -> bytes -> bytes -> Prop :=
| auth_ed25519 o proof m :
    Ownership.kind o = Ed25519Key -> is_ok (verify_ed25519 (Ownership.public o) proof m) = true ->
    authorized o proof m
| auth_sr25519 o proof m :
    Ownership.kind o = Sr25519Key -> is_ok (verify_sr25519 (Ownership.public o) proof m) = true ->
    authorized o proof m
| auth_secp256k1 o proof m :
    Ownership.kind o = Secp256k1Key ->
    recover_secp256k1 (blake2_256 m) proof = Ok (Ownership.public o) ->
    authorized o proof m
| auth_keccak20 o proof m key :
    Ownership.kind o = Secp256k1Keccak20 ->
    recover_secp256k1 (blake2_256 m) proof = Ok key -> evm_address key = Ok (Ownership.public o) ->
    authorized o proof m
| auth_account_ed25519 o sig m said :
    Ownership.kind o = MulticryptoAccount32 -> wallet_message m said -> blen sig = 64 ->
    is_ok (verify_ed25519 (Ownership.public o) sig said) = true -> authorized o (x00 :: sig) m
| auth_account_sr25519 o sig m said :
    Ownership.kind o = MulticryptoAccount32 -> wallet_message m said -> blen sig = 64 ->
    is_ok (verify_sr25519 (Ownership.public o) sig said) = true -> authorized o (x01 :: sig) m
| auth_account_secp256k1 o sig m said key :
    Ownership.kind o = MulticryptoAccount32 -> wallet_message m said ->
    recover_secp256k1 (blake2_256 said) sig = Ok key -> blake2_256 key = Ownership.public o ->
    authorized o (x02 :: sig) m.

Lemma recover_length digest sig key : recover_secp256k1 digest sig = Ok key -> blen sig = 65.
Proof. unfold recover_secp256k1. intros Hr. result_inv. by to_prop. Qed.

Lemma try_candidates_Ok public sig any err cs :
  try_candidates public sig any err cs = Ok tt <->
  exists c key, c ∈ cs /\ recover_secp256k1 (blake2_256 c) sig = Ok key /\ blake2_256 key = public.
Proof.
  revert any err. induction cs as [|c cs IH]; intros any err; simpl.
  - split; [destruct any, err; discriminate|]. intros (c & key & Hc%elem_of_nil & _). done.
  - destruct (recover_secp256k1 (blake2_256 c) sig) as [key|e] eqn:Hr.
    + case_bool_decide as Hk.
      * split; [|done]. intros _. exists c, key. split; [left|]. done.
      * rewrite IH. setoid_rewrite elem_of_cons. split; [intros (c' & key' & ? & ?); by exists c', key'; auto|].
        intros (c' & key' & [->|?] & ? & ?); [congruence|eauto].
    + rewrite IH. setoid_rewrite elem_of_cons. split; [intros (c' & key' & ? & ?); by exists c', key'; auto|].
      intros (c' & key' & [->|?] & ? & ?); [congruence|eauto].
Qed.

Lemma either_verifier (v : bytes -> bool) m :
  negb (v m) && negb (v (polkadot_sign_raw_message m)) = false <->
  exists said, wallet_message m said /\ v said = true.
Proof.
  unfold wallet_message. rewrite andb_false_iff, !negb_false_iff. naive_solver.
Qed.

Lemma verify_polkadot_Ok o proof m :
  Ownership.kind o = MulticryptoAccount32 -> blen (Ownership.public o) = 32 ->
  verify_polkadot_ownership o proof m = Ok tt <-> authorized o proof m.
Proof.
  intros Hk Hl. unfold verify_polkadot_ownership. rewrite Hk, Hl.
  rewrite bool_decide_eq_true_2 by done. cbn [negb orb Z.eqb Pos.eqb].
  destruct proof as [|scheme sig].
  { simpl. split; [done|]. inversion 1; congruence. }
  rewrite blen_cons. destruct (Z.eqb_spec (1 + blen sig) 0); [pose proof (blen_nonneg sig); lia|].
  change (b_at (scheme :: sig) 0) with scheme. change (b_from (scheme :: sig) 1) with sig.
  repeat case_bool_decide; subst; rewrite ?bail_if_Ok, ?negb_false_iff, ?Z.eqb_eq.
  - rewrite (either_verifier (fun s => is_ok (verify_ed25519 (Ownership.public o) sig s))).
    split; [intros (? & (said & ? & ?) & _); by eapply auth_account_ed25519|].
    inversion 1; simplify_eq; naive_solver congruence.
  - rewrite (either_verifier (fun s => is_ok (verify_sr25519 (Ownership.public o) sig s))).
    split; [intros (? & (said & ? & ?) & _); by eapply auth_account_sr25519|].
    inversion 1; simplify_eq; naive_solver congruence.
  - rewrite try_candidates_Ok. setoid_rewrite elem_of_cons. setoid_rewrite list_elem_of_singleton.
    split.
    + intros (_ & said & key & Hs & ? & ?). by eapply auth_account_secp256k1.
    + inversion 1; simplify_eq; try congruence. split; [by eapply recover_length|]. naive_solver.
  - split; [done|]. inversion 1; simplify_eq; congruence.
Qed.

Lemma rbind_tt {A} (r : result A CryptoError) : (let? _ := r in Ok tt) = Ok tt <-> is_ok r = true.
Proof. by destruct r. Qed.

(** [if r? == p { Ok(()) } else { Err(e) }]. *)
Lemma rbind_check (r : result bytes CryptoError) (p : bytes) e :
  (let? x := r in bail_if negb (bool_decide (x = p)) with e ;; Ok tt) = Ok tt <-> r = Ok p.
Proof. destruct r as [x|]; simpl; [|naive_solver]. case_bool_decide; naive_solver. Qed.

Lemma verify_ownership_Ok o proof m :
  verify_ownership o proof m = Ok tt <-> Ownership.valid o /\ authorized o proof m.
Proof.
  unfold verify_ownership. rewrite <- Ownership.validate_Ok.
  destruct (Ownership.validate o) as [[]|] eqn:Hv; [|naive_solver]. cbn [map_err rbind].
  apply Ownership.validate_Ok in Hv as (_ & Hl & _).
  destruct (Ownership.kind o) eqn:Hk.
  - rewrite rbind_tt. split; [intros; split; [done|by apply auth_ed25519]|].
    intros [_ Ha]. inversion Ha; congruence.
  - rewrite rbind_tt. split; [intros; split; [done|by apply auth_sr25519]|].
    intros [_ Ha]. inversion Ha; congruence.
  - rewrite rbind_check. split; [intros; split; [done|by apply auth_secp256k1]|].
    intros [_ Ha]. inversion Ha; congruence.
  - rewrite rbind_Ok. split.
    + intros (key & Hr & He%rbind_check). split; [done|by eapply auth_keccak20].
    + intros [_ Ha]. inversion Ha as [| | |? ? ? key ? Hr He| | |]; try congruence.
      exists key. split; [done|by apply rbind_check].
  - rewrite (verify_polkadot_Ok o proof m Hk Hl). naive_solver.
Qed.
End Authorization.

Section Authorizes.
Context `{Schnorrkel} `{Ed25519Dalek} `{K256} `{Sha3} `{Blake2}.

Lemma verify_evm_Ok o proof network commitment :
  verify_evm_ownership o proof network commitment = Ok tt <->
  Ownership.kind o = Secp256k1Keccak20 /\
  exists key, recover_secp256k1 (evm_action_digest network commitment) proof = Ok key /\
    evm_address key = Ok (Ownership.public o).
Proof.
  unfold verify_evm_ownership. rewrite bail_if_Ok, negb_false_iff, bool_decide_eq_true, rbind_Ok.
  setoid_rewrite rbind_check. done.
Qed.

(** A proof by key recovery names the ownership it authorizes. *)
Lemma recovered_unique o o' proof m :
  Ownership.valid o -> Ownership.valid o' -> Ownership.kind o = Ownership.kind o' ->
  Ownership.kind o = Secp256k1Key \/ Ownership.kind o = Secp256k1Keccak20 ->
  authorized o proof m -> authorized o' proof m -> o = o'.
Proof.
  intros (Hv & _) (Hv' & _) Hk Hkind Ha Ha'. destruct o as [v k p], o' as [v' k' p'].
  cbn [Ownership.version Ownership.kind Ownership.public] in *. subst v v' k'. f_equal.
  destruct Hkind as [-> | ->]; inversion Ha; simplify_eq/=; inversion Ha'; simplify_eq/=; congruence.
Qed.
End Authorizes.

(** Ownership authorization is exact. [verify_ownership] succeeds exactly
    for valid ownerships whose key, in the scheme of their kind, signed the
    message (or its wallet wrapping, for multi-scheme accounts);
    [verify_evm_ownership] exactly when the recovered key of the EIP-712 digest
    has the ownership's address; and a proof by key recovery authorizes at most
    one ownership of its kind. *)
Theorem ownership_authorization_exact
    `{Schnorrkel} `{Ed25519Dalek} `{K256} `{Sha3} `{Blake2} (o : Ownership.t) (proof m : bytes) :
  (verify_ownership o proof m = Ok tt <-> Ownership.valid o /\ authorized o proof m)
  /\ (forall network commitment,
        verify_evm_ownership o proof network commitment = Ok tt <->
        Ownership.kind o = Secp256k1Keccak20 /\
        exists key, recover_secp256k1 (evm_action_digest network commitment) proof = Ok key /\
          evm_address key = Ok (Ownership.public o))
  /\ (forall o', verify_ownership o proof m = Ok tt -> verify_ownership o' proof m = Ok tt ->
        Ownership.kind o = Ownership.kind o' ->
        Ownership.kind o = Secp256k1Key \/ Ownership.kind o = Secp256k1Keccak20 -> o = o').
Proof.
  split; [apply verify_ownership_Ok|]. split; [intros; apply verify_evm_Ok|].
  intros o' [Hv Ha]%verify_ownership_Ok [Hv' Ha']%verify_ownership_Ok.
  intros. by eapply recovered_unique.
Qed.
