(* ===== verification/Actions.v ===== *)
(** * [jamscript-runtime-core]: signed actions and refined results

    [RuntimeError], the crate's reader, the wallet-signed action of version 1,
    the refined-action record and the nonce keys. *)

From S2P Require Import Prelude Ordering Reader Wire Fields ServiceKeys StateDiff Ownership Crypto.

Definition MAX_ACTION_BYTES : Z := 1048576.
Definition MAX_RESULT_BYTES : Z := 1048576.
Definition ACTION_DOMAIN_V1 : bytes := bstr "JAMSCRIPT_ACTION_V1".
Definition OWNERSHIP_NONCE_SCHEMA_V1 : bytes := bstr "__jamscript/runtime/ownership/nonces/".
Definition ACTION_COMMITMENT_DOMAIN_V2 : bytes := bstr "JAMSCRIPT_ACTION_V2".
Definition MAX_AUTHORIZATION_PROOF_BYTES : Z := 65536.
Definition MANAGEMENT_DOMAIN_V1 : bytes := bstr "jamscript/management/v1".

Inductive RuntimeError :=
| InvalidEnvelope | RtUnsupportedVersion | WrongNetwork | WrongService | UnknownAction
| PayloadTooLarge | PayloadHashMismatch | RtInvalidSignature | Expired | NonceMismatch
| UnsupportedSigner | OutputTooLarge | RtInvalidOwnershipEncoding | InvalidOwnershipAuthorization
| OwnershipNonceMismatch | ControlClaimNotFound | InvalidControlClaim | ControlClaimRevoked
| ControlClaimAlreadyExists | ControlSubjectMismatch | ControllerMismatch
| ControlAlreadyInitialized | PolkadotInvalidSignature | EvmInvalidSignature
| RtEvmAddressMismatch | MatrixInvalidMasterProof | MatrixInvalidSelfSigningProof
| MatrixInvalidDeviceProof | MatrixDeviceNotCrossSigned | MatrixBootstrapAlreadyCompleted
| MatrixUnsupportedDeviceProfile | ActAsUnsupported.

(** [RuntimeError::code]; 12 and 13 are not used. *)
Definition code (error : RuntimeError) : Z :=
  match error with
  | InvalidEnvelope => 1 | RtUnsupportedVersion => 2 | WrongNetwork => 3 | WrongService => 4
  | UnknownAction => 5 | PayloadTooLarge => 6 | PayloadHashMismatch => 7 | RtInvalidSignature => 8
  | Expired => 9 | NonceMismatch => 10 | UnsupportedSigner => 11 | OutputTooLarge => 14
  | RtInvalidOwnershipEncoding => 15 | InvalidOwnershipAuthorization => 16
  | OwnershipNonceMismatch => 17 | ControlClaimNotFound => 18 | InvalidControlClaim => 19
  | ControlClaimRevoked => 20 | ControlClaimAlreadyExists => 21 | ControlSubjectMismatch => 22
  | ControllerMismatch => 23 | ControlAlreadyInitialized => 24 | PolkadotInvalidSignature => 25
  | EvmInvalidSignature => 26 | RtEvmAddressMismatch => 27 | MatrixInvalidMasterProof => 28
  | MatrixInvalidSelfSigningProof => 29 | MatrixInvalidDeviceProof => 30
  | MatrixDeviceNotCrossSigned => 31 | MatrixBootstrapAlreadyCompleted => 32
  | MatrixUnsupportedDeviceProfile => 33 | ActAsUnsupported => 34
  end.

(** ** The reader of the crate *)

Module RtRd.
Definition take : Z -> parser RuntimeError bytes := take_with InvalidEnvelope InvalidEnvelope.
Definition u8 : parser RuntimeError byte := field_u8 InvalidEnvelope.
Definition u32 : parser RuntimeError Z := field_le InvalidEnvelope 4.
Definition u64 : parser RuntimeError Z := field_le InvalidEnvelope 8.
Definition array (n : Z) : parser RuntimeError bytes := field_array InvalidEnvelope n.
Definition bytes_u8 : parser RuntimeError bytes := length ← u8; take (b2z length).
Definition bytes_u16 : parser RuntimeError bytes := length ← field_le InvalidEnvelope 2; take length.
Definition bytes_u32_limited (limit : Z) : parser RuntimeError bytes :=
  length ← u32;
  pbail (length >? limit) PayloadTooLarge;;
  take length.
Definition bytes_u32 : parser RuntimeError bytes :=
  length ← u32;
  pbail (length >? MAX_ACTION_BYTES) PayloadTooLarge;;
  take length.

Lemma rt_rd_yields_u32 : yields u32 (fun x z => x = to_le_bytes 4 z /\ u32_ok z).
Proof.
  eapply yields_mono; [apply yields_field_le|]. intros x z [-> Hz]. split; [done|].
  unfold u32_ok, U32_MAX. simpl in Hz. lia.
Qed.

Lemma rt_rd_yields_u64 : yields u64 (fun x z => x = to_le_bytes 8 z /\ u64_ok z).
Proof.
  eapply yields_mono; [apply yields_field_le|]. intros x z [-> Hz]. split; [done|].
  unfold u64_ok, U64_MAX. simpl in Hz. lia.
Qed.

Lemma rt_rd_parses_u32 z : u32_ok z -> parses u32 (to_le_bytes 4 z) z.
Proof. intros Hz. apply parses_field_le. unfold u32_ok, U32_MAX in Hz. simpl. lia. Qed.

Lemma rt_rd_parses_u64 z : u64_ok z -> parses u64 (to_le_bytes 8 z) z.
Proof. intros Hz. apply parses_field_le. unfold u64_ok, U64_MAX in Hz. simpl. lia. Qed.

Definition fmt_bytes_u8 (b : bytes) : bytes := [z2b (blen b)] ++ b.
Definition fmt_bytes_u16 (b : bytes) : bytes := to_le_bytes 2 (blen b) ++ b.

Lemma parses_bytes_u8 b : blen b < 256 -> parses bytes_u8 (fmt_bytes_u8 b) b.
Proof.
  intros Hb. unfold bytes_u8, fmt_bytes_u8. pose proof (blen_nonneg b).
  eapply parses_bind; [apply parses_field_u8|]. apply parses_take.
  by rewrite b2z_z2b, Z.mod_small.
Qed.

Lemma parses_bytes_u16 b : blen b <= U16_MAX -> parses bytes_u16 (fmt_bytes_u16 b) b.
Proof.
  intros Hb. unfold bytes_u16, fmt_bytes_u16. pose proof (blen_nonneg b).
  eapply parses_bind; [apply parses_field_le; unfold U16_MAX in Hb; simpl; lia|]. by apply parses_take.
Qed.

Lemma parses_bytes_u32_limited limit b :
  blen b <= limit -> blen b <= U32_MAX -> parses (bytes_u32_limited limit) (fmt_bytes_u32 b) b.
Proof.
  intros Hl Hb. unfold bytes_u32_limited, fmt_bytes_u32. pose proof (blen_nonneg b).
  eapply parses_bind; [apply rt_rd_parses_u32; by split|].
  eapply parses_bind0; [apply parses_bail; rewrite Z.gtb_ltb; apply Z.ltb_ge; lia|].
  by apply parses_take.
Qed.

Lemma yields_bytes_u8 : yields bytes_u8 (fun x v => x = fmt_bytes_u8 v /\ blen v < 256).
Proof.
  unfold bytes_u8. eapply yields_bind; [apply yields_field_u8|]. intros n x ->.
  pose proof (b2z_range n).
  eapply yields_mono; [apply yields_take; lia|]. intros y v [-> Hy].
  unfold fmt_bytes_u8. rewrite Hy, z2b_b2z. split; [done|lia].
Qed.

Lemma yields_bytes_u16 : yields bytes_u16 (fun x v => x = fmt_bytes_u16 v /\ blen v <= U16_MAX).
Proof.
  unfold bytes_u16. eapply yields_bind; [apply yields_field_le|]. intros n x [-> Hn].
  eapply yields_mono; [apply yields_take; lia|]. intros y v [-> Hy]. subst n. split; [done|].
  unfold U16_MAX. simpl in Hn. lia.
Qed.

Lemma yields_bytes_u32_limited limit :
  yields (bytes_u32_limited limit)
    (fun x v => x = fmt_bytes_u32 v /\ blen v <= limit /\ blen v <= U32_MAX).
Proof.
  unfold bytes_u32_limited. eapply yields_bind; [apply rt_rd_yields_u32|]. intros n x [-> Hn].
  eapply yields_bind; [apply yields_bail|]. intros [] y [-> Hg]. to_prop.
  eapply yields_mono; [apply yields_take; apply Hn|]. intros z v [-> Hz]. subst n.
  split; [done|]. split; [lia|apply Hn].
Qed.
End RtRd.

#[export] Hint Resolve RtRd.rt_rd_yields_u32 RtRd.rt_rd_yields_u64 RtRd.yields_bytes_u8 RtRd.yields_bytes_u16
  RtRd.yields_bytes_u32_limited : yields.
#[export] Hint Extern 2 (yields RtRd.u8 _) => apply yields_field_u8 : yields.
#[export] Hint Extern 2 (yields (RtRd.array _) _) => apply yields_field_array; lia : yields.
#[export] Hint Extern 2 (yields RtRd.bytes_u32 _) => apply RtRd.yields_bytes_u32_limited : yields.

(** ** [SignedActionV1] *)

Module ActionV1.
Record t := mk {
  version : byte;
  network_domain : bytes;
  service_key : bytes;
  action_selector : bytes;
  signer_scheme : byte;
  public_key : bytes;
  nonce : Z;
  valid_until : Z;
  payload_hash : bytes;
  signature : bytes;
  payload : bytes;
  encoded : bytes
}.

(** [VerifiedAction]. *)
Record verified := Verified {
  v_sender : bytes;
  v_action_hash : bytes;
  v_action_selector : bytes;
  v_nonce : Z;
  v_valid_until : Z;
  v_payload : bytes
}.

Definition parse (b : bytes) : parser RuntimeError t :=
  version ← RtRd.u8;
  pbail (negb (bool_decide (version = x01))) RtUnsupportedVersion;;
  network_domain ← RtRd.array 32;
  service_key ← RtRd.array 32;
  action_selector ← RtRd.array 8;
  signer_scheme ← RtRd.u8;
  public_key ← RtRd.bytes_u8;
  nonce ← RtRd.u64;
  valid_until ← RtRd.u64;
  payload_hash ← RtRd.array 32;
  signature ← RtRd.bytes_u8;
  payload ← RtRd.bytes_u32;
  mret (mk version network_domain service_key action_selector signer_scheme public_key nonce
          valid_until payload_hash signature payload b).

Definition decode_signed_action_v1 (b : bytes) : result t RuntimeError :=
  bail_if blen b >? MAX_ACTION_BYTES with PayloadTooLarge ;;
  let? v := run_exact InvalidEnvelope (parse b) b in
  bail_if (blen (public_key v) >? 32) || (blen (signature v) >? 64) with InvalidEnvelope ;;
  Ok v.

(** The bytes [signing_digest_v1] hashes. *)
Definition signing_preimage (a : t) : bytes :=
  ACTION_DOMAIN_V1 ++ [version a] ++ network_domain a ++ service_key a ++ action_selector a ++
  [signer_scheme a] ++ to_le_bytes 8 (nonce a) ++ to_le_bytes 8 (valid_until a) ++ payload_hash a.

Section Verify.
Context `{Schnorrkel} `{Blake2}.

Definition signing_digest_v1 (a : t) : bytes := blake2_256 (signing_preimage a).

Definition verify_signed_action_v1 (a : t)
    (expected_network_domain expected_service_key expected_action_selector : bytes)
    : result verified RuntimeError :=
  bail_if negb (bool_decide (version a = x01)) with RtUnsupportedVersion ;;
  bail_if negb (bool_decide (network_domain a = expected_network_domain)) with WrongNetwork ;;
  bail_if negb (bool_decide (service_key a = expected_service_key)) with WrongService ;;
  bail_if negb (bool_decide (action_selector a = expected_action_selector)) with UnknownAction ;;
  bail_if negb (bool_decide (signer_scheme a = x00)) with UnsupportedSigner ;;
  bail_if negb (blen (public_key a) =? 32) || negb (blen (signature a) =? 64)
    with RtInvalidSignature ;;
  bail_if negb (bool_decide (blake2_256 (payload a) = payload_hash a)) with PayloadHashMismatch ;;
  let digest := signing_digest_v1 a in
  let? sender := map_err (fun _ => RtInvalidSignature)
    (verify_sr25519 (public_key a) (signature a) digest) in
  Ok (Verified sender (blake2_256 (encoded a)) (action_selector a) (nonce a) (valid_until a)
        (payload a)).
End Verify.

(** *** The envelope format *)

Definition fmt (a : t) : bytes :=
  [version a] ++ network_domain a ++ service_key a ++ action_selector a ++ [signer_scheme a] ++
  RtRd.fmt_bytes_u8 (public_key a) ++ to_le_bytes 8 (nonce a) ++ to_le_bytes 8 (valid_until a) ++
  payload_hash a ++ RtRd.fmt_bytes_u8 (signature a) ++ fmt_bytes_u32 (payload a).

Definition wf (a : t) : Prop :=
  version a = x01 /\ array_ok 32 (network_domain a) /\ array_ok 32 (service_key a) /\
  array_ok 8 (action_selector a) /\ blen (public_key a) <= 32 /\ u64_ok (nonce a) /\
  u64_ok (valid_until a) /\ array_ok 32 (payload_hash a) /\ blen (signature a) <= 64 /\
  blen (fmt a) <= MAX_ACTION_BYTES.

Lemma action_v1_yields_parse b :
  yields (parse b) (fun x a => x = fmt a /\ encoded a = b /\ version a = x01 /\
    array_ok 32 (network_domain a) /\ array_ok 32 (service_key a) /\ array_ok 8 (action_selector a) /\
    u64_ok (nonce a) /\ u64_ok (valid_until a) /\ array_ok 32 (payload_hash a)).
Proof.
  unfold parse. yield_field. intros ver x ->. yield_field. intros [] y [-> Hver]. to_prop.
  yield_field. intros nd xnd [-> Hnd]. yield_field. intros sk xsk [-> Hsk].
  yield_field. intros sel xsel [-> Hsel]. yield_field. intros sch x ->.
  yield_field. intros pk x [-> _]. yield_field. intros n x [-> Hn]. yield_field. intros vu x [-> Hvu].
  yield_field. intros ph xph [-> Hph]. yield_field. intros sg x [-> _]. yield_field.
  intros pl x [-> _]. apply yields_ret. unfold fmt. simpl. rewrite app_nil_r. done.
Qed.

Lemma action_v1_parses_parse a : wf a -> encoded a = fmt a -> parses (parse (encoded a)) (fmt a) a.
Proof.
  intros (Hver & Hnd & Hsk & Hsel & Hpk & Hn & Hvu & Hph & Hsg & Hlen) Henc. unfold parse.
  assert (blen (payload a) <= MAX_ACTION_BYTES) as Hpl.
  { unfold fmt in Hlen. rewrite !blen_app, blen_fmt_bytes_u32 in Hlen.
    pose proof (blen_nonneg (public_key a)). pose proof (blen_nonneg (signature a)).
    unfold RtRd.fmt_bytes_u8 in Hlen. rewrite !blen_app, !blen_to_le_bytes, !blen_cons in Hlen.
    pose proof (blen_nonneg (network_domain a)). pose proof (blen_nonneg (service_key a)).
    pose proof (blen_nonneg (action_selector a)). pose proof (blen_nonneg (payload_hash a)).
    pose proof (blen_nonneg (@nil byte)). lia. }
  unfold fmt. parse_field; [apply parses_field_u8|].
  parse_field; [by rewrite Hver|]. do 3 (parse_field; [by apply parses_field_array|]).
  parse_field; [apply parses_field_u8|]. parse_field; [apply RtRd.parses_bytes_u8; lia|].
  do 2 (parse_field; [by apply RtRd.rt_rd_parses_u64|]). parse_field; [by apply parses_field_array|].
  parse_field; [apply RtRd.parses_bytes_u8; lia|]. rewrite <- (app_nil_r (fmt_bytes_u32 _)).
  parse_field.
  { apply RtRd.parses_bytes_u32_limited; [done|]. unfold MAX_ACTION_BYTES, U32_MAX in *. lia. }
  apply parses_ret'. by destruct a.
Qed.

Lemma action_v1_decode_iff b a : decode_signed_action_v1 b = Ok a <-> wf a /\ encoded a = b /\ b = fmt a.
Proof.
  unfold decode_signed_action_v1. split.
  - intros Hd. apply bail_if_Ok in Hd as [Hlen Hd]. apply rbind_Ok in Hd as (v & Hrun & Hd).
    apply bail_if_Ok in Hd as [Hg [= ->]]. apply (run_exact_yields _ _ _ _ _ (action_v1_yields_parse b)) in Hrun.
    destruct Hrun as (-> & He & Hver & Hnd & Hsk & Hsel & Hn & Hvu & Hph). to_prop. 
    split; [|done]. unfold wf. repeat split; done || lia || apply Hn || apply Hvu.
  - intros (Hwf & He & ->). pose proof Hwf as (_ & _ & _ & _ & Hpk & _ & _ & _ & Hsg & Hlen).
    rewrite Z.gtb_ltb, (proj2 (Z.ltb_ge _ _)) by done. rewrite <- He at 1.
    rewrite (run_exact_parses _ _ _ a); [|by apply action_v1_parses_parse|].
    + simpl. rewrite !Z.gtb_ltb, !(proj2 (Z.ltb_ge _ _)) by done. done.
    + unfold slice_ok, ISIZE_MAX, MAX_ACTION_BYTES in *. lia.
Qed.
End ActionV1.

(** ** The refined-action record *)

Module Refined.
  (** [RefinedActionView]. *)
Record t := mk {
  action_selector : bytes;
  sender : bytes;
  nonce : Z;
  valid_until : Z;
  action_hash : bytes;
  outcome : bytes
}.

(** The copies into [output], one after the other. *)
Definition encode_refined_action (action : ActionV1.verified) (res output : bytes)
    : result (Z * bytes) RuntimeError :=
  bail_if blen res >? MAX_RESULT_BYTES with OutputTooLarge ;;
  let required := 1 + 8 + 32 + 8 + 8 + 32 + 4 + blen res in
  bail_if required >? blen output with OutputTooLarge ;;
  Ok (required,
      [x01] ++ ActionV1.v_action_selector action ++ ActionV1.v_sender action ++
      to_le_bytes 8 (ActionV1.v_nonce action) ++ to_le_bytes 8 (ActionV1.v_valid_until action) ++
      ActionV1.v_action_hash action ++ to_le_bytes 4 (blen res) ++ res ++ b_from output required).

Definition parse : parser RuntimeError t :=
  version ← RtRd.u8;
  pbail (negb (bool_decide (version = x01))) RtUnsupportedVersion;;
  action_selector ← RtRd.array 8;
  sender ← RtRd.array 32;
  nonce ← RtRd.u64;
  valid_until ← RtRd.u64;
  action_hash ← RtRd.array 32;
  outcome ← RtRd.bytes_u32;
  mret (mk action_selector sender nonce valid_until action_hash outcome).

Definition decode_refined_action (b : bytes) : result t RuntimeError :=
  run_exact InvalidEnvelope parse b.

Definition fmt (r : t) : bytes :=
  [x01] ++ action_selector r ++ sender r ++ to_le_bytes 8 (nonce r) ++
  to_le_bytes 8 (valid_until r) ++ action_hash r ++ fmt_bytes_u32 (outcome r).

Definition wf (r : t) : Prop :=
  array_ok 8 (action_selector r) /\ array_ok 32 (sender r) /\ u64_ok (nonce r) /\
  u64_ok (valid_until r) /\ array_ok 32 (action_hash r) /\ blen (outcome r) <= MAX_ACTION_BYTES.

Lemma refined_fmt_length r : wf r -> blen (fmt r) = 93 + blen (outcome r).
Proof.
  intros (H1 & H2 & _ & _ & H3 & _). unfold fmt, array_ok in *.
  rewrite !blen_app, !blen_to_le_bytes, blen_fmt_bytes_u32, H1, H2, H3, blen_cons. simpl.
  change (blen (@nil byte)) with 0. lia.
Qed.

Lemma refined_yields_parse : yields parse (fun x r => x = fmt r /\ wf r).
Proof.
  unfold parse. yield_field. intros ver x ->. yield_field. intros [] y [-> Hver]. to_prop. subst ver.
  yield_field. intros sel xsel [-> Hsel]. yield_field. intros snd xsnd [-> Hsnd].
  yield_field. intros n x [-> Hn]. yield_field. intros vu x [-> Hvu].
  yield_field. intros ah xah [-> Hah]. yield_field. intros out x (-> & Hout & _).
  apply yields_ret. unfold fmt, wf. simpl. rewrite app_nil_r. done.
Qed.

Lemma refined_parses_parse r : wf r -> parses parse (fmt r) r.
Proof.
  intros (Hsel & Hsnd & Hn & Hvu & Hah & Hout). unfold parse, fmt.
  parse_field; [apply parses_field_u8|]. parse_field; [done|].
  do 2 (parse_field; [by apply parses_field_array|]). do 2 (parse_field; [by apply RtRd.rt_rd_parses_u64|]).
  parse_field; [by apply parses_field_array|]. rewrite <- (app_nil_r (fmt_bytes_u32 _)). parse_field.
  { apply RtRd.parses_bytes_u32_limited; [done|]. unfold MAX_ACTION_BYTES, U32_MAX in *. lia. }
  apply parses_ret'. by destruct r.
Qed.

Lemma refined_decode_iff b r : decode_refined_action b = Ok r <-> wf r /\ b = fmt r.
Proof.
  unfold decode_refined_action. split.
  - intros Hd. by apply (run_exact_yields _ _ _ _ _ refined_yields_parse) in Hd as [-> Hwf].
  - intros [Hwf ->]. apply run_exact_parses; [by apply refined_parses_parse|].
    pose proof (refined_fmt_length r Hwf). destruct Hwf as (_ & _ & _ & _ & _ & Ho).
    unfold slice_ok, ISIZE_MAX, MAX_ACTION_BYTES in *. lia.
Qed.
End Refined.

(** The view a refined record of a verified action shows. *)
Definition refined_view (a : ActionV1.verified) (res : bytes) : Refined.t :=
  Refined.mk (ActionV1.v_action_selector a) (ActionV1.v_sender a) (ActionV1.v_nonce a)
    (ActionV1.v_valid_until a) (ActionV1.v_action_hash a) res.

(** ** Expiry and state keys *)

Definition check_expiry (valid_until authoritative_tick : Z) : result unit RuntimeError :=
  if authoritative_tick >? valid_until then Err Expired else Ok tt.

(** [state_key]: [None] is the panic of [expect]. *)
Definition state_key (service_id : Z) (schema key : bytes) : option bytes :=
  match Keys.application_key_v1 schema key with
  | Ok k => Some k
  | Err _ => None
  end.

Definition nonce_key (account : bytes) : bytes := Keys.wallet_nonce_key_v1 account.

Definition ownership_nonce_key `{Blake2} (owner : Ownership.t) : result bytes RuntimeError :=
  let? key := map_err (fun _ => RtInvalidOwnershipEncoding) (Ownership.key owner) in
  Ok ([RUNTIME_KEY_CLASS_V1] ++ [WALLET_AUTH_MODULE_V1] ++ OWNERSHIP_NONCE_SCHEMA_V1 ++ key).

Definition management_key (suffix : bytes) : bytes := bstr "__jamscript/management/" ++ suffix.

(** ** Signed bytes determine the action *)

(** Two concatenations whose first parts have equal [blen] agree on both parts. *)
Lemma app_blen_inj (a b s u : bytes) : blen a = blen b -> a ++ s = b ++ u -> a = b /\ s = u.
Proof. intros Hl Heq. apply app_inj_1 in Heq; [done|]. unfold blen in Hl. lia. Qed.

Lemma u64_bytes_inj a b : u64_ok a -> u64_ok b -> to_le_bytes 8 a = to_le_bytes 8 b -> a = b.
Proof. intros Ha Hb Heq. apply (f_equal from_le_bytes) in Heq. by rewrite !from_to_u64 in Heq. Qed.

(** Split an equation of two concatenations at a field of fixed width. *)
Ltac split_field H Hx :=
  apply app_blen_inj in H as [Hx H];
    [|by unfold array_ok in *; rewrite ?blen_to_le_bytes; try congruence].

Lemma signing_preimage_inj a a' :
  ActionV1.wf a -> ActionV1.wf a' -> ActionV1.signing_preimage a = ActionV1.signing_preimage a' ->
  ActionV1.network_domain a = ActionV1.network_domain a' /\
  ActionV1.service_key a = ActionV1.service_key a' /\
  ActionV1.action_selector a = ActionV1.action_selector a' /\
  ActionV1.nonce a = ActionV1.nonce a' /\ ActionV1.valid_until a = ActionV1.valid_until a' /\
  ActionV1.payload_hash a = ActionV1.payload_hash a'.
Proof.
  intros (_ & Hnd & Hsk & Hsel & _ & Hn & Hvu & Hph & _) (_ & Hnd' & Hsk' & Hsel' & _ & Hn' & Hvu' & Hph' & _).
  unfold ActionV1.signing_preimage. intros Heq.
  split_field Heq H1. split_field Heq H2. split_field Heq H3. split_field Heq H4. split_field Heq H5.
  split_field Heq H6. split_field Heq H7. split_field Heq H8.
  apply u64_bytes_inj in H7, H8; done.
Qed.

Lemma verify_v1_Ok `{Schnorrkel} `{Blake2} a nd sk sel v :
  ActionV1.verify_signed_action_v1 a nd sk sel = Ok v ->
  ActionV1.network_domain a = nd /\ ActionV1.service_key a = sk /\ ActionV1.action_selector a = sel /\
  blake2_256 (ActionV1.payload a) = ActionV1.payload_hash a /\
  verify_sr25519 (ActionV1.public_key a) (ActionV1.signature a)
    (blake2_256 (ActionV1.signing_preimage a)) = Ok (ActionV1.v_sender v) /\
  v = ActionV1.Verified (ActionV1.v_sender v) (blake2_256 (ActionV1.encoded a)) sel (ActionV1.nonce a)
        (ActionV1.valid_until a) (ActionV1.payload a).
Proof.
  unfold ActionV1.verify_signed_action_v1. intros Hv.
  repeat (apply bail_if_Ok in Hv as [? Hv]). cbv zeta in Hv.
  apply rbind_Ok in Hv as (sender & Hs%map_err_Ok & [= <-]). to_prop. subst. done.
Qed.

(** A wallet action means one thing. The envelope decoder accepts exactly
    the canonical bytes of well-formed actions; a verified action names the
    expected network, service and selector, its payload has the signed hash and
    its sender verifies on the digest of the signed fields; and if the signed
    bytes of two verified actions are equal, they agree on network, service,
    selector, nonce, expiry and payload hash, so no signature carries over to
    another action. *)
Theorem action_v1_authentic `{Schnorrkel} `{Blake2} b a nd sk sel v :
  ActionV1.decode_signed_action_v1 b = Ok a ->
  ActionV1.verify_signed_action_v1 a nd sk sel = Ok v ->
  b = ActionV1.fmt a /\ ActionV1.v_action_hash v = blake2_256 b /\
  ActionV1.v_action_selector v = sel /\ ActionV1.v_payload v = ActionV1.payload a /\
  (exists key, verify_sr25519 (ActionV1.public_key a) (ActionV1.signature a)
     (blake2_256 (ActionV1.signing_preimage a)) = Ok key /\ ActionV1.v_sender v = key) /\
  forall b' a' nd' sk' sel' v',
    ActionV1.decode_signed_action_v1 b' = Ok a' ->
    ActionV1.verify_signed_action_v1 a' nd' sk' sel' = Ok v' ->
    ActionV1.signing_preimage a' = ActionV1.signing_preimage a ->
    nd' = nd /\ sk' = sk /\ sel' = sel /\ ActionV1.v_nonce v' = ActionV1.v_nonce v /\
    ActionV1.v_valid_until v' = ActionV1.v_valid_until v /\
    blake2_256 (ActionV1.v_payload v') = blake2_256 (ActionV1.v_payload v).
Proof.
  intros (Hwf & He & Hb)%ActionV1.action_v1_decode_iff (Hnd & Hsk & Hsel & Hp & Hsig & ->)%verify_v1_Ok. simpl.
  split; [done|]. split; [by rewrite He|]. do 2 (split; [done|]). split; [by eauto|].
  intros b' a' nd' sk' sel' v' (Hwf' & _ & _)%ActionV1.action_v1_decode_iff
    (Hnd' & Hsk' & Hsel' & Hp' & _ & ->)%verify_v1_Ok Heq. simpl.
  destruct (signing_preimage_inj _ _ Hwf' Hwf Heq) as (? & ? & ? & ? & ? & ?). 
  repeat split; congruence.
Qed.

(** The refined-action record round-trips: writing the result of a verified
    action succeeds exactly when the result is within its limit and the record
    fits the buffer, leaves the rest of the buffer untouched, and the decoder,
    which accepts exactly the canonical records, reads back every field. *)
Theorem refined_action_exact a res output :
  Refined.wf (refined_view a res) ->
  (blen (Refined.fmt (refined_view a res)) <= blen output ->
   exists n out, Refined.encode_refined_action a res output = Ok (n, out) /\
     Refined.decode_refined_action (b_slice out 0 n) = Ok (refined_view a res) /\
     b_from out n = b_from output n /\ blen out = blen output) /\
  (blen output < blen (Refined.fmt (refined_view a res)) ->
   Refined.encode_refined_action a res output = Err OutputTooLarge) /\
  (forall b r, Refined.decode_refined_action b = Ok r <-> Refined.wf r /\ b = Refined.fmt r).
Proof.
  intros Hwf. pose proof (Refined.refined_fmt_length _ Hwf) as Hlen. simpl in Hlen.
  unfold Refined.encode_refined_action.
  assert (blen res <= MAX_RESULT_BYTES) as Hr by apply Hwf. pose proof (blen_nonneg res).
  rewrite Z.gtb_ltb, (proj2 (Z.ltb_ge _ _)) by done.
  replace (1 + 8 + 32 + 8 + 8 + 32 + 4 + blen res) with (blen (Refined.fmt (refined_view a res))) by lia.
  split; [|split; [|intros; apply Refined.refined_decode_iff]].
  - intros Hfit. rewrite Z.gtb_ltb, (proj2 (Z.ltb_ge _ _)) by done. do 2 eexists. split; [reflexivity|].
    set (rest := b_from output _).
    replace ([x01] ++ _) with (Refined.fmt (refined_view a res) ++ rest)
      by (unfold Refined.fmt, refined_view, fmt_bytes_u32; simpl; by rewrite <- !(assoc_L (++))).
    rewrite b_slice_take, b_from_app by done. split; [by apply Refined.refined_decode_iff|]. split; [done|].
    subst rest. rewrite blen_app. unfold b_from, blen in *. rewrite length_drop. lia.
  - intros Hsmall. by rewrite Z.gtb_ltb, (proj2 (Z.ltb_lt _ _)).
Qed.

(** ** Concrete crates for the examples *)

Module Toy.
  (** A scheme in which every 32-byte string is a key and a signature of [m] is
      the first 64 bytes of the key followed by [m]. *)
Definition tag (key m : bytes) : bytes := take 64 (key ++ m ++ repeat x00 64).

#[global] Instance schnorrkel : Schnorrkel := {|
  sr_public := bytes;
  sr_public_from_bytes b := if blen b =? 32 then Some b else None;
  sr_public_to_bytes k := k;
  sr_signature := bytes;
  sr_signature_from_bytes b := if blen b =? 64 then Some b else None;
  sr_verify k _ m s := bool_decide (s = tag k m)
|}.

#[global] Instance blake2 : Blake2 := fun b => take 32 (rev b ++ repeat x00 32).

#[global] Instance blake2_len : Blake2Len.
Proof.
  intros b. unfold array_ok, blake2_256, blake2, blen.
  rewrite length_take, length_app, length_rev, repeat_length. lia.
Qed.

Definition key : bytes := repeat x05 32.
Definition domain : bytes := repeat x01 32.
Definition service : bytes := repeat x02 32.
Definition selector : bytes := repeat x03 8.
Definition payload : bytes := [x2a].

Definition unsigned (signature : bytes) : ActionV1.t :=
  ActionV1.mk x01 domain service selector x00 key 7 100 (blake2_256 payload) signature payload [].
Definition action : ActionV1.t :=
  let a := unsigned (tag key (blake2_256 (ActionV1.signing_preimage (unsigned [])))) in
  ActionV1.mk x01 domain service selector x00 key 7 100 (blake2_256 payload)
    (ActionV1.signature a) payload (ActionV1.fmt a).
End Toy.

Lemma action_v1_authentic_witness :
  exists v, ActionV1.decode_signed_action_v1 (ActionV1.fmt Toy.action) = Ok Toy.action /\
    ActionV1.verify_signed_action_v1 Toy.action Toy.domain Toy.service Toy.selector = Ok v /\
    ActionV1.v_payload v = [x2a].
Proof.
  assert (ActionV1.decode_signed_action_v1 (ActionV1.fmt Toy.action) = Ok Toy.action) as H1
    by (vm_compute; reflexivity).
  destruct (ActionV1.verify_signed_action_v1 Toy.action Toy.domain Toy.service Toy.selector)
    as [v|e] eqn:H2; [|vm_compute in H2; discriminate H2].
  exists v. split; [exact H1|]. split; [reflexivity|].
  destruct (action_v1_authentic _ _ _ _ _ _ H1 H2) as (_ & _ & _ & Hp & _). exact Hp.
Defined.

Lemma refined_action_exact_witness :
  let a := ActionV1.Verified Toy.key Toy.service Toy.selector 7 100 [] in
  Refined.wf (refined_view a [x01]) /\ blen (Refined.fmt (refined_view a [x01])) <= blen (repeat x00 100) /\
  exists n out, Refined.encode_refined_action a [x01] (repeat x00 100) = Ok (n, out) /\
    Refined.decode_refined_action (b_slice out 0 n) = Ok (refined_view a [x01]).
Proof.
  intros a.
  assert (Refined.wf (refined_view a [x01])) as H1
    by (unfold Refined.wf, array_ok, u64_ok; vm_compute; repeat split; discriminate).
  assert (blen (Refined.fmt (refined_view a [x01])) <= blen (repeat x00 100)) as H2
    by (vm_compute; discriminate).
  split; [exact H1|]. split; [exact H2|].
  destruct (proj1 (refined_action_exact a [x01] (repeat x00 100) H1) H2) as (n & out & H3 & H4 & _).
  exists n, out. split; [exact H3|exact H4].
Defined.

(** Nonce storage never collides. The nonce key of an ownership differs
    from the nonce key of every wallet, from every application state key and
    from every reserved service key; two ownerships share a nonce key exactly
    when they have the same 32-byte ownership key. *)
Theorem nonce_keys_separate `{Blake2Len} o k :
  ownership_nonce_key o = Ok k ->
  (forall account, array_ok 32 account -> k <> nonce_key account) /\
  (forall service_id schema user_key, state_key service_id schema user_key <> Some k) /\
  Keys.is_reserved_service_storage_key k = false /\
  (forall o' k', ownership_nonce_key o' = Ok k' -> (k' = k <-> Ownership.key o' = Ownership.key o)).
Proof.
  assert (forall o k, ownership_nonce_key o = Ok k -> exists h, Ownership.key o = Ok h /\ array_ok 32 h /\
    k = [x00] ++ [x01] ++ OWNERSHIP_NONCE_SCHEMA_V1 ++ h) as Hinv.
  { unfold ownership_nonce_key. intros o' k' Hk. apply rbind_Ok in Hk as (h & Hh%map_err_Ok & [= <-]).
    exists h. split; [done|]. split; [|done]. unfold Ownership.key in Hh.
    apply rbind_Ok in Hh as (c & _ & [= <-]). apply blake2_256_len. }
  intros (h & Hh & Hlen & ->)%Hinv. split; [|split; [|split]].
  - intros account Ha Heq. apply (f_equal (@blen byte)) in Heq.
    unfold nonce_key, Keys.wallet_nonce_key_v1, Keys.runtime_internal_key_v1, array_ok in *.
    rewrite !blen_app, Hlen, Ha in Heq. done.
  - intros sid schema uk Heq. unfold state_key in Heq. case_match eqn:Hk; [|done].
    apply Keys.application_key_v1_Ok in Hk as [_ ->]. done.
  - done.
  - intros o' k' (h' & Hh' & _ & ->)%Hinv. rewrite Hh, Hh'. split.
    + intros Heq. do 3 apply (inj (app _)) in Heq. by subst.
    + by intros [= ->].
Qed.

Lemma nonce_keys_separate_witness :
  exists k, ownership_nonce_key (Ownership.mk x01 Ed25519Key Toy.key) = Ok k /\
    Keys.is_reserved_service_storage_key k = false.
Proof.
  destruct (ownership_nonce_key (Ownership.mk x01 Ed25519Key Toy.key)) as [k|e] eqn:Hk;
    [|vm_compute in Hk; discriminate Hk].
  exists k. split; [reflexivity|].
  destruct (nonce_keys_separate _ _ Hk) as (_ & _ & Hr & _). exact Hr.
Defined.
