(* ===== verification/ActionsV2.v ===== *)
(** * [jamscript-runtime-core]: ownership-authorized actions (version 2) *)

From S2P Require Import Prelude Ordering Reader Wire Fields ServiceKeys StateDiff Ownership Crypto Actions.

(** [URL_SAFE_NO_PAD.encode] of the base64 crate. *)
Class UrlBase64 := url_base64 : bytes -> bytes.

Definition decode_ownership (b : bytes) : result Ownership.t RuntimeError :=
  bail_if blen b >? 4096 with RtInvalidOwnershipEncoding ;;
  map_err (fun _ => RtInvalidOwnershipEncoding) (Ownership.decode b).

Definition map_ownership_auth_error (error : CryptoError) : RuntimeError :=
  match error with
  | EvmAddressMismatch => RtEvmAddressMismatch
  | EvmHighS | InvalidEcdsaSignature | EcdsaRecoveryFailed => EvmInvalidSignature
  | InvalidPolkadotAuthorization | PolkadotAddressMismatch => PolkadotInvalidSignature
  | _ => InvalidOwnershipAuthorization
  end.

Module ActionV2.
Record t := mk {
  version : byte;
  network_domain : bytes;
  service_key : bytes;
  action_selector : bytes;
  controller : Ownership.t;
  act_as : option Ownership.t;
  nonce : Z;
  valid_until : Z;
  payload_hash : bytes;
  authorization_proof : bytes;
  payload : bytes;
  encoded : bytes
}.

(** [VerifiedOwnershipAction]. *)
Record verified := Verified {
  v_owner : Ownership.t;
  v_controller : Ownership.t;
  v_action_hash : bytes;
  v_action_selector : bytes;
  v_nonce : Z;
  v_valid_until : Z;
  v_payload : bytes
}.

Definition read_ownership : parser RuntimeError Ownership.t :=
  b ← RtRd.bytes_u16;
  plift (map_err (fun _ => RtInvalidOwnershipEncoding) (Ownership.decode b)).

Definition read_act_as : parser RuntimeError (option Ownership.t) :=
  flag ← RtRd.u8;
  if bool_decide (flag = x00) then mret None
  else if bool_decide (flag = x01) then owner ← read_ownership; mret (Some owner)
  else pfail InvalidEnvelope.

Definition parse (b : bytes) : parser RuntimeError t :=
  version ← RtRd.u8;
  pbail (negb (bool_decide (version = x02))) RtUnsupportedVersion;;
  network_domain ← RtRd.array 32;
  service_key ← RtRd.array 32;
  action_selector ← RtRd.array 8;
  controller ← read_ownership;
  act_as ← read_act_as;
  nonce ← RtRd.u64;
  valid_until ← RtRd.u64;
  payload_hash ← RtRd.array 32;
  authorization_proof ← RtRd.bytes_u32_limited MAX_AUTHORIZATION_PROOF_BYTES;
  payload ← RtRd.bytes_u32;
  mret (mk version network_domain service_key action_selector controller act_as nonce valid_until
          payload_hash authorization_proof payload b).

Definition decode_signed_action_v2 (b : bytes) : result t RuntimeError :=
  bail_if blen b >? MAX_ACTION_BYTES with PayloadTooLarge ;;
  run_exact InvalidEnvelope (parse b) b.

Definition encode_act_as (o : option Ownership.t) : result bytes RuntimeError :=
  match o with
  | Some owner =>
      let? e := map_err (fun _ => RtInvalidOwnershipEncoding) (Ownership.encode owner) in
      Ok ([x01] ++ e)
  | None => Ok [x00]
  end.

(** The bytes hashed into the action commitment. *)
Definition commitment_preimage (a : t) : result bytes RuntimeError :=
  let? controller := map_err (fun _ => RtInvalidOwnershipEncoding) (Ownership.encode (controller a)) in
  let? act_as := encode_act_as (act_as a) in
  Ok (ACTION_COMMITMENT_DOMAIN_V2 ++ network_domain a ++ service_key a ++ action_selector a ++
      controller ++ act_as ++ to_le_bytes 8 (nonce a) ++ to_le_bytes 8 (valid_until a) ++
      payload_hash a).

Section Verify.
Context `{Schnorrkel} `{Ed25519Dalek} `{K256} `{Sha3} `{Blake2} `{UrlBase64}.

Definition action_message (commitment : bytes) : bytes :=
  bstr "JAMSCRIPT_ACTION_V2:" ++ url_base64 commitment.

Definition verify_authorization (a : t) (commitment : bytes) : result unit RuntimeError :=
  map_err map_ownership_auth_error
    match Ownership.kind (controller a) with
    | Secp256k1Keccak20 =>
        verify_evm_ownership (controller a) (authorization_proof a) (network_domain a) commitment
    | MulticryptoAccount32 =>
        verify_polkadot_ownership (controller a) (authorization_proof a) (action_message commitment)
    | _ => verify_ownership (controller a) (authorization_proof a) (action_message commitment)
    end.

Definition verify_signed_action_v2 (a : t)
    (expected_network_domain expected_service_key expected_action_selector : bytes)
    (expected_nonce : option Z) : result verified RuntimeError :=
  bail_if negb (bool_decide (network_domain a = expected_network_domain)) with WrongNetwork ;;
  bail_if negb (bool_decide (service_key a = expected_service_key)) with WrongService ;;
  bail_if negb (bool_decide (action_selector a = expected_action_selector)) with UnknownAction ;;
  bail_if negb (bool_decide (blake2_256 (payload a) = payload_hash a)) with PayloadHashMismatch ;;
  bail_if match expected_nonce with Some expected => negb (nonce a =? expected) | None => false end
    with OwnershipNonceMismatch ;;
  bail_if match act_as a with Some _ => true | None => false end with ActAsUnsupported ;;
  bail_if (blen (authorization_proof a) =? 0) with InvalidOwnershipAuthorization ;;
  let? preimage := commitment_preimage a in
  let commitment := blake2_256 preimage in
  let? _ := verify_authorization a commitment in
  Ok (Verified (controller a) (controller a) (blake2_256 (encoded a)) (action_selector a) (nonce a)
        (valid_until a) (payload a)).
End Verify.

(** *** The envelope format *)

Definition fmt_act_as (o : option Ownership.t) : bytes :=
  match o with
  | Some owner => [x01] ++ RtRd.fmt_bytes_u16 (Ownership.fmt owner)
  | None => [x00]
  end.

Definition fmt (a : t) : bytes :=
  [version a] ++ network_domain a ++ service_key a ++ action_selector a ++
  RtRd.fmt_bytes_u16 (Ownership.fmt (controller a)) ++ fmt_act_as (act_as a) ++
  to_le_bytes 8 (nonce a) ++ to_le_bytes 8 (valid_until a) ++ payload_hash a ++
  fmt_bytes_u32 (authorization_proof a) ++ fmt_bytes_u32 (payload a).

Definition wf_fields (a : t) : Prop :=
  version a = x02 /\ array_ok 32 (network_domain a) /\ array_ok 32 (service_key a) /\
  array_ok 8 (action_selector a) /\ Ownership.valid (controller a) /\
  (forall owner, act_as a = Some owner -> Ownership.valid owner) /\ u64_ok (nonce a) /\
  u64_ok (valid_until a) /\ array_ok 32 (payload_hash a) /\
  blen (authorization_proof a) <= MAX_AUTHORIZATION_PROOF_BYTES.

Definition wf (a : t) : Prop := wf_fields a /\ blen (fmt a) <= MAX_ACTION_BYTES.

Lemma fmt_ownership_length o : Ownership.valid o -> 24 <= blen (Ownership.fmt o) <= 37.
Proof.
  intros (_ & Hl & _). pose proof (Ownership.public_len_range (Ownership.kind o)).
  unfold Ownership.fmt. autorewrite with blen. lia.
Qed.

Lemma yields_read_ownership :
  yields read_ownership (fun x o => x = RtRd.fmt_bytes_u16 (Ownership.fmt o) /\ Ownership.valid o).
Proof.
  unfold read_ownership. yield_field. intros b x [-> _].
  eapply yields_mono; [apply yields_lift|]. intros y o [-> Hd%map_err_Ok].
  apply Ownership.ownership_decode_iff in Hd as [Hv He]. apply Ownership.ownership_encode_Ok in He as [_ ->].
  by rewrite app_nil_r.
Qed.

Lemma parses_read_ownership o :
  Ownership.valid o -> parses read_ownership (RtRd.fmt_bytes_u16 (Ownership.fmt o)) o.
Proof.
  intros Hv. unfold read_ownership. rewrite <- (app_nil_r (RtRd.fmt_bytes_u16 _)).
  pose proof (fmt_ownership_length o Hv).
  eapply parses_bind; [apply RtRd.parses_bytes_u16; unfold U16_MAX; lia|]. apply parses_lift.
  apply map_err_Ok, Ownership.ownership_decode_iff. split; [done|]. by apply Ownership.ownership_encode_Ok.
Qed.

Lemma yields_read_act_as :
  yields read_act_as (fun x o => x = fmt_act_as o /\ forall w, o = Some w -> Ownership.valid w).
Proof.
  unfold read_act_as. yield_field. intros flag x ->. repeat case_bool_decide; subst.
  - by apply yields_ret.
  - eapply yields_bind; [apply yields_read_ownership|]. intros o x [-> Hv]. apply yields_ret.
    rewrite app_nil_r. split; [done|]. by intros w [= <-].
  - apply yields_fail.
Qed.

Lemma parses_read_act_as o :
  (forall w, o = Some w -> Ownership.valid w) -> parses read_act_as (fmt_act_as o) o.
Proof.
  intros Hv. unfold read_act_as. destruct o as [w|]; simpl.
  - eapply (parses_bind _ _ [x01]); [apply parses_field_u8|]. simpl.
    rewrite <- (app_nil_r (RtRd.fmt_bytes_u16 _)).
    eapply parses_bind; [by apply parses_read_ownership, Hv|]. apply parses_ret.
  - eapply (parses_bind _ _ [x00] []); [apply parses_field_u8|]. apply parses_ret.
Qed.

#[local] Hint Resolve yields_read_ownership yields_read_act_as : yields.

Lemma action_v2_yields_parse b :
  yields (parse b) (fun x a => x = fmt a /\ encoded a = b /\ wf_fields a).
Proof.
  unfold parse. yield_field. intros ver x ->. yield_field. intros [] y [-> Hver]. to_prop.
  yield_field. intros nd xnd [-> Hnd]. yield_field. intros sk xsk [-> Hsk].
  yield_field. intros sel xsel [-> Hsel]. yield_field. intros c x [-> Hc].
  yield_field. intros aa x [-> Haa]. yield_field. intros n x [-> Hn]. yield_field. intros vu x [-> Hvu].
  yield_field. intros ph xph [-> Hph]. yield_field. intros pr x (-> & Hpr & _). yield_field.
  intros pl x [-> _]. apply yields_ret. unfold fmt, wf_fields. simpl. rewrite app_nil_r. done.
Qed.

Lemma payload_bound a : blen (fmt a) <= MAX_ACTION_BYTES -> blen (payload a) <= MAX_ACTION_BYTES.
Proof.
  unfold fmt. rewrite !blen_app, !blen_fmt_bytes_u32.
  repeat match goal with |- context [blen ?x] =>
    lazymatch goal with _ : 0 <= blen x |- _ => fail | _ => pose proof (blen_nonneg x) end end.
  lia.
Qed.

Lemma action_v2_parses_parse a : wf a -> parses (parse (encoded a)) (fmt a) a.
Proof.
  intros [(Hver & Hnd & Hsk & Hsel & Hc & Haa & Hn & Hvu & Hph & Hpr) Hpl%payload_bound].
  unfold parse, fmt. parse_field; [apply parses_field_u8|].
  parse_field; [by rewrite Hver|]. do 3 (parse_field; [by apply parses_field_array|]).
  parse_field; [by apply parses_read_ownership|]. parse_field; [by apply parses_read_act_as|].
  do 2 (parse_field; [by apply RtRd.rt_rd_parses_u64|]). parse_field; [by apply parses_field_array|].
  parse_field.
  { apply RtRd.parses_bytes_u32_limited; [done|]. unfold MAX_AUTHORIZATION_PROOF_BYTES, U32_MAX in *. lia. }
  rewrite <- (app_nil_r (fmt_bytes_u32 (payload a))). parse_field.
  { apply RtRd.parses_bytes_u32_limited; [done|]. unfold MAX_ACTION_BYTES, U32_MAX in *. lia. }
  apply parses_ret'. by destruct a.
Qed.

Lemma action_v2_decode_iff b a : decode_signed_action_v2 b = Ok a <-> wf a /\ encoded a = b /\ b = fmt a.
Proof.
  unfold decode_signed_action_v2, wf. rewrite bail_if_Ok, Z.gtb_ltb, Z.ltb_ge. split.
  - intros [Hlen Hrun]. apply (run_exact_yields _ _ _ _ _ (action_v2_yields_parse b)) in Hrun as (-> & He & Hw).
    done.
  - intros ([Hw Hlen] & He & ->). split; [done|]. rewrite <- He at 1.
    apply run_exact_parses; [by apply action_v2_parses_parse|].
    unfold slice_ok, ISIZE_MAX, MAX_ACTION_BYTES in *. lia.
Qed.
End ActionV2.

(** ** Signed bytes determine the action *)

Lemma ownership_fmt_prefix o o' s u :
  Ownership.valid o -> Ownership.valid o' -> Ownership.fmt o ++ s = Ownership.fmt o' ++ u ->
  o = o' /\ s = u.
Proof.
  intros (Hv & Hl & _) (Hv' & Hl' & _) Heq. unfold Ownership.fmt in Heq.
  rewrite <- !(assoc_L (++)) in Heq. split_field Heq H1. split_field Heq H2.
  injection H2 as H2. apply (f_equal kind_try_from) in H2. rewrite !Ownership.kind_roundtrip in H2.
  injection H2 as H2. split_field Heq H3. apply app_blen_inj in Heq as [Hp ->]; [|congruence].
  split; [|done]. destruct o, o'. simpl in *. congruence.
Qed.

Lemma commitment_preimage_Ok a p :
  ActionV2.act_as a = None -> ActionV2.commitment_preimage a = Ok p ->
  p = ACTION_COMMITMENT_DOMAIN_V2 ++ ActionV2.network_domain a ++ ActionV2.service_key a ++
      ActionV2.action_selector a ++ Ownership.fmt (ActionV2.controller a) ++ [x00] ++
      to_le_bytes 8 (ActionV2.nonce a) ++ to_le_bytes 8 (ActionV2.valid_until a) ++
      ActionV2.payload_hash a.
Proof.
  intros Ha. unfold ActionV2.commitment_preimage. rewrite Ha. cbn [ActionV2.encode_act_as rbind].
  intros Hp. apply rbind_Ok in Hp as (c & Hc%map_err_Ok & [= <-]).
  by apply Ownership.ownership_encode_Ok in Hc as [_ ->].
Qed.

Lemma commitment_preimage_inj a a' p :
  ActionV2.wf_fields a -> ActionV2.wf_fields a' -> ActionV2.act_as a = None -> ActionV2.act_as a' = None ->
  ActionV2.commitment_preimage a = Ok p -> ActionV2.commitment_preimage a' = Ok p ->
  ActionV2.network_domain a = ActionV2.network_domain a' /\
  ActionV2.service_key a = ActionV2.service_key a' /\
  ActionV2.action_selector a = ActionV2.action_selector a' /\
  ActionV2.controller a = ActionV2.controller a' /\
  ActionV2.nonce a = ActionV2.nonce a' /\ ActionV2.valid_until a = ActionV2.valid_until a' /\
  ActionV2.payload_hash a = ActionV2.payload_hash a'.
Proof.
  intros (_ & Hnd & Hsk & Hsel & Hc & _ & Hn & Hvu & Hph & _)
    (_ & Hnd' & Hsk' & Hsel' & Hc' & _ & Hn' & Hvu' & Hph' & _) Ha Ha'.
  intros Hp%commitment_preimage_Ok Hp'%commitment_preimage_Ok; [|done..]. rewrite Hp in Hp'.
  rename Hp' into Heq. clear Hp Ha Ha'.
  split_field Heq H1. split_field Heq H2. split_field Heq H3. split_field Heq H4.
  apply ownership_fmt_prefix in Heq as [H5 Heq]; [|done..].
  split_field Heq H6. split_field Heq H7. split_field Heq H8.
  apply u64_bytes_inj in H7, H8; done.
Qed.

Section VerifiedV2.
Context `{Schnorrkel} `{Ed25519Dalek} `{K256} `{Sha3} `{Blake2} `{UrlBase64}.

(** What authorizes a commitment: an EVM signature of its typed-data digest,
    or a signature of the printed commitment for every other kind. *)
Definition commits (o : Ownership.t) (proof network commitment : bytes) : Prop :=
  match Ownership.kind o with
  | Secp256k1Keccak20 =>
      exists key, recover_secp256k1 (evm_action_digest network commitment) proof = Ok key /\
        evm_address key = Ok (Ownership.public o)
  | _ => authorized o proof (ActionV2.action_message commitment)
  end.

Lemma verify_authorization_Ok a commitment :
  Ownership.valid (ActionV2.controller a) ->
  ActionV2.verify_authorization a commitment = Ok tt <->
  commits (ActionV2.controller a) (ActionV2.authorization_proof a) (ActionV2.network_domain a) commitment.
Proof.
  intros Hv. unfold ActionV2.verify_authorization, commits. rewrite map_err_Ok.
  destruct (Ownership.kind (ActionV2.controller a)) eqn:Hk;
    try (rewrite verify_ownership_Ok; naive_solver).
  - rewrite verify_evm_Ok. naive_solver.
  - apply verify_polkadot_Ok; [done|]. destruct Hv as (_ & Hl & _). by rewrite Hl, Hk.
Qed.

Lemma verify_v2_Ok a nd sk sel nonce v :
  ActionV2.wf_fields a ->
  ActionV2.verify_signed_action_v2 a nd sk sel nonce = Ok v ->
  ActionV2.network_domain a = nd /\ ActionV2.service_key a = sk /\ ActionV2.action_selector a = sel /\
  blake2_256 (ActionV2.payload a) = ActionV2.payload_hash a /\
  (forall n, nonce = Some n -> ActionV2.nonce a = n) /\ ActionV2.act_as a = None /\
  (exists p, ActionV2.commitment_preimage a = Ok p /\
     commits (ActionV2.controller a) (ActionV2.authorization_proof a) nd (blake2_256 p)) /\
  v = ActionV2.Verified (ActionV2.controller a) (ActionV2.controller a)
        (blake2_256 (ActionV2.encoded a)) sel (ActionV2.nonce a) (ActionV2.valid_until a)
        (ActionV2.payload a).
Proof.
  intros Hw. unfold ActionV2.verify_signed_action_v2. intros Hv.
  do 4 (apply bail_if_Ok in Hv as [? Hv]). apply bail_if_Ok in Hv as [Hn Hv].
  apply bail_if_Ok in Hv as [Ha Hv]. apply bail_if_Ok in Hv as [_ Hv].
  apply rbind_Ok in Hv as (p & Hp & Hv). apply rbind_Ok in Hv as ([] & Hauth & [= <-]).
  apply verify_authorization_Ok in Hauth; [|by destruct Hw as (_ & _ & _ & _ & ? & _)]. to_prop. subst.
  split; [done|]. do 3 (split; [done|]). split.
  { intros n ->. by to_prop. }
  split; [by destruct (ActionV2.act_as a)|]. by eauto.
Qed.
End VerifiedV2.

(** C38: An ownership-authorized action means one thing. The version-2 decoder
    accepts exactly the canonical bytes of well-formed actions; a verified
    action names the expected network, service, selector and nonce, acts for
    nobody else, and its controller authorized the commitment to its fields;
    and when the committed bytes of two verified actions are equal they agree
    on network, service, selector, controller, nonce, expiry and payload hash,
    so an authorization carries over to no other action. *)
Theorem action_v2_authentic `{Schnorrkel} `{Ed25519Dalek} `{K256} `{Sha3} `{Blake2} `{UrlBase64}
    b a nd sk sel nonce v :
  ActionV2.decode_signed_action_v2 b = Ok a ->
  ActionV2.verify_signed_action_v2 a nd sk sel nonce = Ok v ->
  b = ActionV2.fmt a /\ ActionV2.v_action_hash v = blake2_256 b /\
  ActionV2.v_owner v = ActionV2.controller a /\ Ownership.valid (ActionV2.v_owner v) /\
  (forall n, nonce = Some n -> ActionV2.v_nonce v = n) /\
  exists preimage, ActionV2.commitment_preimage a = Ok preimage /\
    commits (ActionV2.v_owner v) (ActionV2.authorization_proof a) nd (blake2_256 preimage) /\
    forall b' a' nd' sk' sel' nonce' v',
      ActionV2.decode_signed_action_v2 b' = Ok a' ->
      ActionV2.verify_signed_action_v2 a' nd' sk' sel' nonce' = Ok v' ->
      ActionV2.commitment_preimage a' = Ok preimage ->
      nd' = nd /\ sk' = sk /\ sel' = sel /\ ActionV2.v_owner v' = ActionV2.v_owner v /\
      ActionV2.v_nonce v' = ActionV2.v_nonce v /\ ActionV2.v_valid_until v' = ActionV2.v_valid_until v /\
      blake2_256 (ActionV2.v_payload v') = blake2_256 (ActionV2.v_payload v).
Proof.
  intros ([Hw Hl] & He & Hb)%ActionV2.action_v2_decode_iff Hv. apply verify_v2_Ok in Hv; [|done].
  destruct Hv as (Hnd & Hsk & Hsel & Hp & Hn & Ha & (p & Hpre & Hc) & ->). simpl.
  split; [done|]. split; [by rewrite He|]. split; [done|].
  split; [by destruct Hw as (_ & _ & _ & _ & ? & _)|]. split; [done|].
  exists p. split; [done|]. split; [done|].
  intros b' a' nd' sk' sel' nonce' v' ([Hw' _] & _ & _)%ActionV2.action_v2_decode_iff Hv' Hpre'.
  apply verify_v2_Ok in Hv'; [|done].
  destruct Hv' as (Hnd' & Hsk' & Hsel' & Hp' & _ & Ha' & _ & ->). simpl.
  destruct (commitment_preimage_inj a' a p) as (? & ? & ? & ? & ? & ? & ?); [done..|].
  repeat split; congruence.
Qed.

(** ** Concrete crates for the example *)

Module ToyV2.
#[global] Instance dalek : Ed25519Dalek := {|
  ed_key := bytes;
  ed_key_from_bytes b := Some b;
  ed_signature := bytes;
  ed_signature_from_slice b := if blen b =? 64 then Some b else None;
  ed_verify k m s := bool_decide (s = Toy.tag k m)
|}.
#[global] Instance k256 : K256 := {|
  ecdsa_signature := bytes;
  ecdsa_try_from b := Some b;
  ecdsa_high_s _ := false;
  recovery_id := byte;
  recovery_id_try_from v := Some v;
  ecdsa_key := bytes;
  recover_from_prehash _ s _ := Some (take 33 s);
  ecdsa_compressed k := k;
  k256_public := bytes;
  k256_from_sec1_bytes b := Some b;
  k256_uncompressed k := k
|}.
#[global] Instance sha3 : Sha3 := fun b => take 32 (b ++ repeat x00 32).
#[global] Instance url : UrlBase64 := fun b => b.

Definition with_proof (proof encoded : bytes) : ActionV2.t :=
  ActionV2.mk x02 Toy.domain Toy.service Toy.selector (Ownership.mk x01 Ed25519Key Toy.key) None 7 100
    (blake2_256 Toy.payload) proof Toy.payload encoded.
Definition proof : bytes :=
  match ActionV2.commitment_preimage (with_proof [] []) with
  | Ok p => Toy.tag Toy.key (ActionV2.action_message (blake2_256 p))
  | Err _ => []
  end.
Definition action : ActionV2.t := with_proof proof (ActionV2.fmt (with_proof proof [])).
End ToyV2.

Lemma action_v2_authentic_witness :
  exists v, ActionV2.decode_signed_action_v2 (ActionV2.fmt ToyV2.action) = Ok ToyV2.action /\
    ActionV2.verify_signed_action_v2 ToyV2.action Toy.domain Toy.service Toy.selector (Some 7) = Ok v /\
    Ownership.valid (ActionV2.v_owner v).
Proof.
  assert (ActionV2.decode_signed_action_v2 (ActionV2.fmt ToyV2.action) = Ok ToyV2.action) as H1
    by (vm_compute; reflexivity).
  destruct (ActionV2.verify_signed_action_v2 ToyV2.action Toy.domain Toy.service Toy.selector (Some 7))
    as [v|e] eqn:H2; [|vm_compute in H2; discriminate H2].
  exists v. split; [exact H1|]. split; [reflexivity|].
  destruct (action_v2_authentic _ _ _ _ _ _ _ H1 H2) as (_ & _ & _ & Hv & _). exact Hv.
Defined.
