(* ===== verification/Management.v ===== *)
(** * [jamscript-runtime-core]: service management

    The management policy, the actions it authorizes and the signed envelope
    that carries them. *)

From S2P Require Import Prelude Ordering Reader Wire Fields ServiceKeys StateDiff Ownership Crypto Actions ActionsV2.

Inductive ManagementError :=
| MgInvalidEncoding | WrongInstance | WrongNonce | MgImmutable | Unauthorized | MgInvalidSignature.

Module Policy.
Inductive t := Immutable | Key (account : bytes).

Definition encoded_len (p : t) : Z := match p with Immutable => 1 | Key _ => 33 end.

Definition encode_into (p : t) (out : bytes) : bytes :=
  match p with
  | Immutable => out ++ [x00]
  | Key account => out ++ [x01] ++ account
  end.

Definition decode (input : bytes) : result t ManagementError :=
  match input with
  | [] => Err MgInvalidEncoding
  | tag :: account =>
      if bool_decide (tag = x00) && (blen account =? 0) then Ok Immutable
      else if bool_decide (tag = x01) && (blen account =? 32) then Ok (Key account)
      else Err MgInvalidEncoding
  end.

Definition wf (p : t) : Prop := match p with Immutable => True | Key account => array_ok 32 account end.

Lemma policy_encode_into_app p out : encode_into p out = out ++ encode_into p [].
Proof. by destruct p. Qed.

Lemma policy_decode_iff b p : decode b = Ok p <-> wf p /\ b = encode_into p [].
Proof.
  unfold decode. split.
  - destruct b as [|tag account]; [done|]. repeat case_match; intros [= <-]; to_prop; subst.
    + match goal with Hl : blen _ = 0 |- _ => by apply blen_0_inv in Hl as -> end.
    + done.
  - intros [Hw ->]. destruct p as [|account]; [done|]. simpl. by rewrite Hw.
Qed.
End Policy.

Module MgAction.
Inductive t :=
| UpgradeCode (code_hash : bytes) (code_len min_item_gas min_memo_gas : Z)
| SetPolicy (new_policy : Policy.t).

Definition encode_into (a : t) (out : bytes) : bytes :=
  match a with
  | UpgradeCode code_hash code_len min_item_gas min_memo_gas =>
      out ++ [x00] ++ code_hash ++ to_le_bytes 4 code_len ++ to_le_bytes 8 min_item_gas ++
      to_le_bytes 8 min_memo_gas
  | SetPolicy new_policy => Policy.encode_into new_policy (out ++ [x01])
  end.

Notation mg := (pmap_err (fun _ : RuntimeError => MgInvalidEncoding)).

Definition parse_policy : parser ManagementError Policy.t :=
  tag ← mg RtRd.u8;
  if bool_decide (tag = x00) then mret Policy.Immutable
  else if bool_decide (tag = x01) then account ← mg (RtRd.array 32); mret (Policy.Key account)
  else pfail MgInvalidEncoding.

Definition parse : parser ManagementError t :=
  tag ← mg RtRd.u8;
  if bool_decide (tag = x00) then
    code_hash ← mg (RtRd.array 32);
    code_len ← mg RtRd.u32;
    min_item_gas ← mg RtRd.u64;
    min_memo_gas ← mg RtRd.u64;
    mret (UpgradeCode code_hash code_len min_item_gas min_memo_gas)
  else if bool_decide (tag = x01) then
    policy ← parse_policy;
    mret (SetPolicy policy)
  else pfail MgInvalidEncoding.

Definition decode (input : bytes) : result t ManagementError := run_exact MgInvalidEncoding parse input.

Definition wf (a : t) : Prop :=
  match a with
  | UpgradeCode code_hash code_len min_item_gas min_memo_gas =>
      array_ok 32 code_hash /\ u32_ok code_len /\ u64_ok min_item_gas /\ u64_ok min_memo_gas
  | SetPolicy p => Policy.wf p
  end.

Definition fmt (a : t) : bytes := encode_into a [].

Lemma mg_action_encode_into_app a out : encode_into a out = out ++ fmt a.
Proof.
  unfold fmt. destruct a; simpl; [done|]. rewrite (Policy.policy_encode_into_app _ (out ++ _)).
  rewrite (Policy.policy_encode_into_app _ [x01]). by rewrite <- (assoc_L (++)).
Qed.

Lemma fmt_SetPolicy p : fmt (SetPolicy p) = [x01] ++ Policy.encode_into p [].
Proof. unfold fmt. simpl. by rewrite Policy.policy_encode_into_app. Qed.

(** The length [ManagementEnvelopeV1::decode] computes from the tags. *)
Definition length (a : t) : Z :=
  match a with
  | UpgradeCode _ _ _ _ => 1 + 32 + 4 + 8 + 8
  | SetPolicy Policy.Immutable => 2
  | SetPolicy (Policy.Key _) => 2 + 32
  end.

Lemma mg_action_fmt_length a : wf a -> blen (fmt a) = length a.
Proof.
  destruct a as [h ? ? ?|[|account]]; unfold fmt, wf, array_ok; simpl; [intros [Hh _]| |intros Hh];
    autorewrite with blen; rewrite ?Hh; done.
Qed.

Lemma yields_policy : yields parse_policy (fun x p => x = Policy.encode_into p [] /\ Policy.wf p).
Proof.
  unfold parse_policy. yield_field. intros tag x ->. repeat case_bool_decide; subst.
  - by apply yields_ret.
  - yield_field. intros account x [-> Hx]. apply yields_ret. rewrite app_nil_r. done.
  - apply yields_fail.
Qed.

Lemma mg_action_yields_parse : yields parse (fun x a => x = fmt a /\ wf a).
Proof.
  unfold parse. yield_field. intros tag x ->. repeat case_bool_decide; subst.
  - yield_field. intros h xh [-> Hh]. yield_field. intros l x [-> Hl].
    yield_field. intros g x [-> Hg]. yield_field. intros m x [-> Hm]. apply yields_ret.
    rewrite app_nil_r. done.
  - eapply yields_bind; [apply yields_policy|]. intros p x [-> Hp]. apply yields_ret.
    rewrite app_nil_r, fmt_SetPolicy. done.
  - apply yields_fail.
Qed.

Lemma parses_policy p : Policy.wf p -> parses parse_policy (Policy.encode_into p []) p.
Proof.
  intros Hp. unfold parse_policy. destruct p as [|account]; simpl.
  - eapply (parses_bind _ _ [x00] []); [apply parses_map_err, parses_field_u8|]. apply parses_ret.
  - eapply (parses_bind _ _ [x01]); [apply parses_map_err, parses_field_u8|]. simpl.
    rewrite <- (app_nil_r account) at 1.
    eapply parses_bind; [by apply parses_map_err, parses_field_array|]. apply parses_ret.
Qed.

Lemma mg_action_parses_parse a : wf a -> parses parse (fmt a) a.
Proof.
  intros Hw. unfold parse. destruct a as [h l g m|p].
  - destruct Hw as (Hh & Hl & Hg & Hm). unfold fmt. simpl.
    eapply (parses_bind _ _ [x00]); [apply parses_map_err, parses_field_u8|]. simpl.
    parse_field; [by apply parses_map_err, parses_field_array|].
    parse_field; [by apply parses_map_err, RtRd.rt_rd_parses_u32|].
    parse_field; [by apply parses_map_err, RtRd.rt_rd_parses_u64|].
    rewrite <- (app_nil_r (to_le_bytes 8 m)).
    parse_field; [by apply parses_map_err, RtRd.rt_rd_parses_u64|]. apply parses_ret.
  - rewrite fmt_SetPolicy.
    eapply parses_bind; [apply parses_map_err, parses_field_u8|]. simpl.
    rewrite <- (app_nil_r (Policy.encode_into p [])).
    eapply parses_bind; [by apply parses_policy|]. apply parses_ret.
Qed.

Lemma mg_action_decode_iff b a : decode b = Ok a <-> wf a /\ b = fmt a.
Proof.
  unfold decode. split.
  - intros Hd. by apply (run_exact_yields _ _ _ _ _ mg_action_yields_parse) in Hd as [-> Hw].
  - intros [Hw ->]. apply run_exact_parses; [by apply mg_action_parses_parse|].
    unfold slice_ok. rewrite mg_action_fmt_length by done. unfold ISIZE_MAX. destruct a as [|[|]]; simpl; lia.
Qed.
End MgAction.

Module Envelope.
Record t := mk {
  instance_id : bytes;
  nonce : Z;
  action : MgAction.t;
  signer : bytes;
  signature : bytes
}.

Definition encode_unsigned (e : t) (out : bytes) : bytes :=
  MgAction.encode_into (action e) (out ++ instance_id e ++ to_le_bytes 8 (nonce e)) ++ signer e.

Definition encode (e : t) (out : bytes) : bytes := encode_unsigned e out ++ signature e.

(** [action_len] in [decode], from the tags at offsets 40 and 41. *)
Definition action_len (b : bytes) : result Z ManagementError :=
  match b !! 40%nat with
  | Some x00 => Ok (1 + 32 + 4 + 8 + 8)
  | Some x01 =>
      match b !! 41%nat with
      | Some x00 => Ok 2
      | Some x01 => Ok (2 + 32)
      | _ => Err MgInvalidEncoding
      end
  | _ => Err MgInvalidEncoding
  end.

Definition decode (b : bytes) : result t ManagementError :=
  bail_if blen b <? 32 + 8 + 1 + 32 + 64 with MgInvalidEncoding ;;
  let instance_id := b_slice b 0 32 in
  let nonce := from_le_bytes (b_slice b 32 40) in
  let action_start := 40 in
  let? action_len := action_len b in
  let signer_start := action_start + action_len in
  let signature_start := signer_start + 32 in
  bail_if negb (blen b =? signature_start + 64) with MgInvalidEncoding ;;
  let? action := MgAction.decode (b_slice b action_start signer_start) in
  let signer := b_slice b signer_start signature_start in
  Ok (mk instance_id nonce action signer (b_from b signature_start)).

(** The bytes [signing_digest] hashes. *)
Definition signing_preimage (e : t) (genesis_hash : bytes) : bytes :=
  MgAction.encode_into (action e)
    (MANAGEMENT_DOMAIN_V1 ++ genesis_hash ++ instance_id e ++ to_le_bytes 8 (nonce e)).

Section Verify.
Context `{Schnorrkel} `{Blake2}.

Definition signing_digest (e : t) (genesis_hash : bytes) : bytes :=
  blake2_256 (signing_preimage e genesis_hash).

Definition verify (e : t) (genesis_hash expected_instance : bytes) (expected_nonce : Z)
    (policy : Policy.t) : result unit ManagementError :=
  bail_if negb (bool_decide (instance_id e = expected_instance)) with WrongInstance ;;
  bail_if negb (nonce e =? expected_nonce) with WrongNonce ;;
  match policy with
  | Policy.Immutable => Err MgImmutable
  | Policy.Key account =>
      bail_if negb (bool_decide (signer e = account)) with Unauthorized ;;
      bail_if negb (blen (signature e) =? 64) with MgInvalidSignature ;;
      let? _ := map_err (fun _ => MgInvalidSignature)
        (verify_sr25519 (signer e) (signature e) (signing_digest e genesis_hash)) in
      Ok tt
  end.

Definition verify_signed_management_action (b genesis_hash expected_instance : bytes)
    (expected_nonce : Z) (policy : Policy.t) : result MgAction.t ManagementError :=
  let? envelope := decode b in
  let? _ := verify envelope genesis_hash expected_instance expected_nonce policy in
  Ok (action envelope).
End Verify.

(** *** The envelope format *)

Definition wf (e : t) : Prop :=
  array_ok 32 (instance_id e) /\ u64_ok (nonce e) /\ MgAction.wf (action e) /\
  array_ok 32 (signer e) /\ array_ok 64 (signature e).

Definition fmt (e : t) : bytes :=
  instance_id e ++ to_le_bytes 8 (nonce e) ++ MgAction.fmt (action e) ++ signer e ++ signature e.

Lemma encode_fmt e : encode e [] = fmt e.
Proof.
  unfold encode, encode_unsigned, fmt. rewrite MgAction.mg_action_encode_into_app. simpl.
  by rewrite <- !(assoc_L (++)).
Qed.

(** The tags at offset 40 of a concatenation. *)
Lemma lookup_after (h c : bytes) i : blen h = 40 -> (h ++ c) !! (40 + i)%nat = c !! i.
Proof.
  intros Hh. rewrite lookup_app_r; unfold blen in Hh; [|lia]. f_equal. lia.
Qed.

Lemma action_len_fmt h a c :
  blen h = 40 -> MgAction.wf a -> action_len (h ++ MgAction.fmt a ++ c) = Ok (MgAction.length a).
Proof.
  intros Hh Hw. unfold action_len. rewrite (lookup_after h _ 0), (lookup_after h _ 1) by done.
  destruct a as [code_hash l g m|p].
  - done.
  - rewrite MgAction.fmt_SetPolicy. by destruct p.
Qed.

Lemma action_len_range b n : action_len b = Ok n -> n = 53 \/ n = 2 \/ n = 34.
Proof. unfold action_len. intros Hn. repeat case_match; simplify_eq; auto. Qed.

Lemma decode_fmt e : wf e -> decode (fmt e) = Ok e.
Proof.
  intros (Hi & Hn & Ha & Hs & Hg). unfold decode, fmt, array_ok in *.
  pose proof (MgAction.mg_action_fmt_length _ Ha) as Hl.
  assert (2 <= MgAction.length (action e)) by (destruct (action e) as [|[|]]; simpl; lia).
  assert (blen (instance_id e ++ to_le_bytes 8 (nonce e) ++ MgAction.fmt (action e) ++ signer e ++
    signature e) = 136 + MgAction.length (action e)) as Hlen.
  { rewrite !blen_app, blen_to_le_bytes, Hi, Hl, Hs, Hg. lia. }
  rewrite Hlen. rewrite (proj2 (Z.ltb_ge _ _)) by lia.
  assert (action_len (instance_id e ++ to_le_bytes 8 (nonce e) ++ MgAction.fmt (action e) ++
    signer e ++ signature e) = Ok (MgAction.length (action e))) as ->.
  { rewrite (assoc_L (++)). apply action_len_fmt; [|done].
    rewrite blen_app, blen_to_le_bytes, Hi. done. }
  cbn [rbind]. rewrite (proj2 (Z.eqb_eq _ _)) by lia. cbn [negb].
  slices. rewrite (proj2 (MgAction.mg_action_decode_iff _ _) (conj Ha eq_refl)). cbn [rbind].
  rewrite from_to_u64 by done. by destruct e.
Qed.

Lemma decode_inv b e : decode b = Ok e -> wf e /\ b = fmt e.
Proof.
  unfold decode. intros Hd. apply bail_if_Ok in Hd as [Hb Hd]. cbv zeta in Hd.
  apply rbind_Ok in Hd as (n & Hn%action_len_range & Hd). apply bail_if_Ok in Hd as [Hlen Hd].
  apply rbind_Ok in Hd as (a & Ha%MgAction.mg_action_decode_iff & [= <-]). to_prop.
  destruct Ha as [Hw Hfmt].
  destruct (chop 32 b) as (i & c & -> & Hi); [lia|]. rewrite blen_app in Hlen.
  destruct (chop 8 c) as (nn & d & -> & Hnn); [lia|]. rewrite blen_app in Hlen.
  destruct (chop n d) as (ab & f & -> & Hab); [lia|]. rewrite blen_app in Hlen.
  destruct (chop 32 f) as (s & g & -> & Hs); [lia|]. rewrite blen_app in Hlen.
  revert Hfmt. slices. intros ->. unfold wf, fmt, array_ok. simpl.
  destruct (yields_le 8 _ nn Hnn eq_refl) as [Hle Hr]. rewrite <- Hle. simpl in Hr.
  unfold u64_ok, U64_MAX. repeat split; done || lia.
Qed.

Lemma envelope_decode_iff b e : decode b = Ok e <-> wf e /\ b = fmt e.
Proof. split; [apply decode_inv|]. intros [Hw ->]. by apply decode_fmt. Qed.
End Envelope.

(** Service management is authorized exactly by its policy. The bytes
    accepted under a policy are the one canonical envelope of the returned
    action for the expected instance and nonce, from the account the policy
    names, with a signature that verifies on the domain-separated digest; under
    the immutable policy no bytes are accepted. *)
Theorem management_authorized_exactly `{Schnorrkel} `{Blake2} b genesis inst nonce policy a :
  Envelope.verify_signed_management_action b genesis inst nonce policy = Ok a <->
  exists account signature,
    let e := Envelope.mk inst nonce a account signature in
    policy = Policy.Key account /\ Envelope.wf e /\ b = Envelope.encode e [] /\
    is_ok (verify_sr25519 account signature (Envelope.signing_digest e genesis)) = true.
Proof.
  unfold Envelope.verify_signed_management_action. split.
  - intros Hv. apply rbind_Ok in Hv as (e & [Hw Hb]%Envelope.envelope_decode_iff & Hv).
    apply rbind_Ok in Hv as ([] & Hv & [= <-]). unfold Envelope.verify in Hv.
    apply bail_if_Ok in Hv as [Hi Hv]. apply bail_if_Ok in Hv as [Hn Hv].
    destruct policy as [|account]; [done|].
    apply bail_if_Ok in Hv as [Hs Hv]. apply bail_if_Ok in Hv as [Hg Hv].
    apply rbind_Ok in Hv as (k & Hk%map_err_Ok & _). to_prop. subst.
    exists (Envelope.signer e), (Envelope.signature e). destruct e as [i n a s g].
    cbn [Envelope.instance_id Envelope.nonce Envelope.action Envelope.signer Envelope.signature] in *.
    rewrite Envelope.encode_fmt, Hk. done.
  - intros (account & sig & -> & Hw & -> & Hk). rewrite Envelope.encode_fmt, Envelope.decode_fmt by done.
    cbn [rbind]. unfold Envelope.verify. simpl. rewrite !bool_decide_eq_true_2, Z.eqb_refl by done. simpl.
    destruct Hw as (_ & _ & _ & _ & Hg). simpl in Hg. rewrite Hg. simpl.
    destruct (verify_sr25519 _ _ _); done.
Qed.

(** ** The three signing domains *)

Lemma literal_app_neq (l l' x y : bytes) n :
  (n <= length l)%nat -> (n <= length l')%nat -> take n l <> take n l' -> l ++ x <> l' ++ y.
Proof. intros Hl Hl' Hne Heq. apply Hne. apply (f_equal (take n)) in Heq. by rewrite !take_app_le in Heq. Qed.

Lemma mg_fmt_inj a a' : MgAction.wf a -> MgAction.wf a' -> MgAction.fmt a = MgAction.fmt a' -> a = a'.
Proof.
  intros Hw Hw' Heq. assert (MgAction.decode (MgAction.fmt a) = Ok a) as H1 by (by apply MgAction.mg_action_decode_iff).
  assert (MgAction.decode (MgAction.fmt a') = Ok a') as H2 by (by apply MgAction.mg_action_decode_iff).
  rewrite Heq in H1. congruence.
Qed.

(** The digests of the three kinds of signed messages never mix, up to hash
    collisions: wallet actions, ownership commitments and management actions
    hash preimages of disjoint domains, and a management preimage determines
    chain, instance, nonce and action. *)
Theorem signing_domains_disjoint (e : Envelope.t) (genesis : bytes) :
  (forall a, Envelope.signing_preimage e genesis <> ActionV1.signing_preimage a) /\
  (forall a, ActionV2.commitment_preimage a <> Ok (Envelope.signing_preimage e genesis)) /\
  (forall a a', ActionV2.commitment_preimage a <> Ok (ActionV1.signing_preimage a')) /\
  (forall e' genesis', Envelope.wf e -> Envelope.wf e' -> array_ok 32 genesis -> array_ok 32 genesis' ->
     Envelope.signing_preimage e' genesis' = Envelope.signing_preimage e genesis ->
     genesis' = genesis /\ Envelope.instance_id e' = Envelope.instance_id e /\
     Envelope.nonce e' = Envelope.nonce e /\ Envelope.action e' = Envelope.action e).
Proof.
  assert (forall a p, ActionV2.commitment_preimage a = Ok p ->
    exists rest, p = ACTION_COMMITMENT_DOMAIN_V2 ++ rest) as H2.
  { intros a p. unfold ActionV2.commitment_preimage. intros Hp.
    apply rbind_Ok in Hp as (? & _ & Hp). apply rbind_Ok in Hp as (? & _ & [= <-]). eauto. }
  unfold Envelope.signing_preimage. rewrite MgAction.mg_action_encode_into_app. rewrite <- !(assoc_L (++)).
  split; [|split; [|split]].
  - intros a. unfold ActionV1.signing_preimage. by apply (literal_app_neq _ _ _ _ 1); simpl; try lia.
  - intros a (rest & Hp)%H2. revert Hp. by apply (literal_app_neq _ _ _ _ 1); simpl; try lia.
  - intros a a' (rest & Hp)%H2. revert Hp. unfold ActionV1.signing_preimage.
    by apply (literal_app_neq _ _ _ _ 19); simpl; try lia.
  - intros e' genesis' (Hi & Hn & Ha & _) (Hi' & Hn' & Ha' & _) Hg Hg'.
    rewrite MgAction.mg_action_encode_into_app, <- !(assoc_L (++)). intros Heq.
    split_field Heq E1. split_field Heq E2. split_field Heq E3. split_field Heq E4.
    apply u64_bytes_inj in E4; [|done..]. apply mg_fmt_inj in Heq; done.
Qed.
