(* ===== verification/Protocol.v ===== *)
(** * [jamscript-protocol]: signed actions as clients make them

    The client library has its own copy of both action formats: it builds,
    hashes, encodes, decodes and verifies them. The guest has another copy
    ([Actions], [ActionsV2]); this file models the client's and shows on which
    bytes the two agree. *)

From S2P Require Import Prelude Ordering Reader Wire Fields ServiceKeys StateDiff Ownership Crypto Actions ActionsV2.

Definition MAX_PAYLOAD_BYTES : Z := 1048576.
Definition MAX_PUBLIC_KEY_BYTES : Z := 32.
Definition MAX_SIGNATURE_BYTES : Z := 64.
Definition SIGNED_ACTION_VERSION_V1 : byte := x01.
Definition SIGNED_ACTION_VERSION_V2 : byte := x02.

Inductive SignerScheme := Sr25519 | Ed25519 | Ecdsa.

#[export] Instance SignerScheme_eq_dec : EqDecision SignerScheme.
Proof. solve_decision. Defined.

Definition scheme_u8 (s : SignerScheme) : byte :=
  match s with Sr25519 => x00 | Ed25519 => x01 | Ecdsa => x02 end.

Inductive ProtocolError :=
| PE_InvalidEnvelope (message : bytes)
| PE_UnsupportedVersion (version : byte)
| PE_WrongNetwork | PE_WrongService | PE_UnknownAction | PE_PayloadTooLarge
| PE_PayloadHashMismatch | PE_InvalidSignature | PE_Expired
| PE_NonceMismatch (expected actual : Z)
| PE_UnsupportedSigner (scheme : SignerScheme)
| PE_Crypto (error : CryptoError)
| PE_InvalidOwnershipEncoding | PE_UnsupportedOwnershipKind | PE_InvalidOwnershipPublicValue
| PE_InvalidOwnershipAuthorization
| PE_OwnershipNonceMismatch (expected actual : Z)
| PE_ControlClaimNotFound | PE_InvalidControlClaim | PE_ControlClaimRevoked
| PE_ControlClaimAlreadyExists | PE_ControlSubjectMismatch | PE_ControllerMismatch
| PE_ControlAlreadyInitialized | PE_PolkadotInvalidSignature | PE_EvmInvalidSignature
| PE_EvmAddressMismatch | PE_ActAsUnsupported.

(** [ProtocolError::code]. *)
Definition protocol_code (error : ProtocolError) : Z :=
  match error with
  | PE_InvalidEnvelope _ => 1 | PE_UnsupportedVersion _ => 2 | PE_WrongNetwork => 3
  | PE_WrongService => 4 | PE_UnknownAction => 5 | PE_PayloadTooLarge => 6
  | PE_PayloadHashMismatch => 7 | PE_InvalidSignature | PE_Crypto _ => 8 | PE_Expired => 9
  | PE_NonceMismatch _ _ => 10 | PE_UnsupportedSigner _ => 11
  | PE_InvalidOwnershipEncoding | PE_UnsupportedOwnershipKind | PE_InvalidOwnershipPublicValue => 15
  | PE_InvalidOwnershipAuthorization => 16 | PE_OwnershipNonceMismatch _ _ => 17
  | PE_ControlClaimNotFound => 18 | PE_InvalidControlClaim => 19 | PE_ControlClaimRevoked => 20
  | PE_ControlClaimAlreadyExists => 21 | PE_ControlSubjectMismatch => 22 | PE_ControllerMismatch => 23
  | PE_ControlAlreadyInitialized => 24 | PE_PolkadotInvalidSignature => 25
  | PE_EvmInvalidSignature => 26 | PE_EvmAddressMismatch => 27 | PE_ActAsUnsupported => 34
  end.

Definition from_ownership_error (error : OwnershipError) : ProtocolError :=
  match error with
  | InvalidVersion | InvalidOwnershipEncoding => PE_InvalidOwnershipEncoding
  | UnsupportedKind _ => PE_UnsupportedOwnershipKind
  | InvalidPublicLength => PE_InvalidOwnershipEncoding
  | InvalidPublicValue => PE_InvalidOwnershipPublicValue
  | TooLarge => PE_InvalidOwnershipEncoding
  end.

(** [map_ownership_auth_error]. *)
Definition protocol_auth_error (error : CryptoError) : ProtocolError :=
  match error with
  | EvmAddressMismatch => PE_EvmAddressMismatch
  | EvmHighS | InvalidEcdsaSignature | EcdsaRecoveryFailed => PE_EvmInvalidSignature
  | InvalidPolkadotAuthorization | PolkadotAddressMismatch => PE_PolkadotInvalidSignature
  | _ => PE_InvalidOwnershipAuthorization
  end.

Definition scheme_try_from (value : byte) : result SignerScheme ProtocolError :=
  match b2z value with
  | 0 => Ok Sr25519
  | 1 => Ok Ed25519
  | 2 => Ok Ecdsa
  | _ => Err (PE_InvalidEnvelope (bstr "unknown signer scheme"))
  end.

Definition ensure_payload_length (length : Z) : result unit ProtocolError :=
  if length >? MAX_PAYLOAD_BYTES then Err PE_PayloadTooLarge else Ok tt.

Definition ensure_payload (payload : bytes) : result unit ProtocolError :=
  if blen payload >? MAX_PAYLOAD_BYTES then Err PE_PayloadTooLarge else Ok tt.

(** ** [Reader] *)

Module PtRd.
Definition overflow : ProtocolError := PE_InvalidEnvelope (bstr "length overflow").
Definition truncated : ProtocolError := PE_InvalidEnvelope (bstr "truncated envelope").

Definition take : Z -> parser ProtocolError bytes := take_with overflow truncated.
Definition u8 : parser ProtocolError byte := field2_u8 overflow truncated.
Definition u32 : parser ProtocolError Z := field2_le overflow truncated 4.
Definition u64 : parser ProtocolError Z := field2_le overflow truncated 8.
Definition array (n : Z) : parser ProtocolError bytes := field2_array overflow truncated n.
Definition bytes_u8 : parser ProtocolError bytes := length ← u8; take (b2z length).
Definition bytes_u16 : parser ProtocolError bytes := length ← field2_le overflow truncated 2; take length.
Definition bytes_u32_limited (limit : Z) : parser ProtocolError bytes :=
  length ← u32;
  pbail (length >? limit) PE_InvalidOwnershipAuthorization;;
  take length.
Definition bytes_u32 : parser ProtocolError bytes :=
  length ← u32;
  plift (ensure_payload_length length);;
  take length.

Lemma pt_yields_u32 : yields u32 (fun x z => x = to_le_bytes 4 z /\ u32_ok z).
Proof.
  eapply yields_mono; [apply yields_field2_le|]. intros x z [-> Hz]. split; [done|].
  unfold u32_ok, U32_MAX. simpl in Hz. lia.
Qed.

Lemma pt_yields_u64 : yields u64 (fun x z => x = to_le_bytes 8 z /\ u64_ok z).
Proof.
  eapply yields_mono; [apply yields_field2_le|]. intros x z [-> Hz]. split; [done|].
  unfold u64_ok, U64_MAX. simpl in Hz. lia.
Qed.

Lemma pt_parses_u64 z : u64_ok z -> parses u64 (to_le_bytes 8 z) z.
Proof. intros Hz. apply parses_field2_le. unfold u64_ok, U64_MAX in Hz. simpl. lia. Qed.

Lemma pt_parses_u32 z : u32_ok z -> parses u32 (to_le_bytes 4 z) z.
Proof. intros Hz. apply parses_field2_le. unfold u32_ok, U32_MAX in Hz. simpl. lia. Qed.

Lemma pt_parses_bytes_u8 b : blen b < 256 -> parses bytes_u8 (RtRd.fmt_bytes_u8 b) b.
Proof.
  intros Hb. pose proof (blen_nonneg b).
  eapply parses_bind; [apply parses_field2_u8|]. apply parses_take. by rewrite b2z_z2b, Z.mod_small.
Qed.

Lemma pt_parses_bytes_u16 b : blen b <= U16_MAX -> parses bytes_u16 (RtRd.fmt_bytes_u16 b) b.
Proof.
  intros Hb. pose proof (blen_nonneg b).
  eapply parses_bind; [apply parses_field2_le; unfold U16_MAX in Hb; simpl; lia|]. by apply parses_take.
Qed.

Lemma pt_parses_limited limit b :
  blen b <= limit -> limit <= U32_MAX -> parses (bytes_u32_limited limit) (fmt_bytes_u32 b) b.
Proof.
  intros Hl Hm. pose proof (blen_nonneg b). unfold bytes_u32_limited, fmt_bytes_u32.
  eapply parses_bind; [apply pt_parses_u32; split; lia|].
  eapply parses_bind0; [apply parses_bail; rewrite Z.gtb_ltb; apply Z.ltb_ge; lia|]. by apply parses_take.
Qed.

Lemma ensure_payload_length_Ok n : ensure_payload_length n = Ok tt <-> n <= MAX_PAYLOAD_BYTES.
Proof. unfold ensure_payload_length. rewrite Z.gtb_ltb. destruct (Z.ltb_spec MAX_PAYLOAD_BYTES n); naive_solver lia. Qed.

Lemma pt_parses_bytes_u32 b : blen b <= MAX_PAYLOAD_BYTES -> parses bytes_u32 (fmt_bytes_u32 b) b.
Proof.
  intros Hl. pose proof (blen_nonneg b). unfold bytes_u32, fmt_bytes_u32.
  eapply parses_bind; [apply pt_parses_u32; split; unfold MAX_PAYLOAD_BYTES, U32_MAX in *; lia|].
  eapply parses_bind0; [by apply parses_lift, ensure_payload_length_Ok|]. by apply parses_take.
Qed.

Lemma pt_yields_bytes_u8 : yields bytes_u8 (fun x v => x = RtRd.fmt_bytes_u8 v /\ blen v < 256).
Proof.
  eapply yields_bind; [apply yields_field2_u8|]. intros n x ->. pose proof (b2z_range n).
  eapply yields_mono; [apply yields_take; lia|]. intros y v [-> Hy].
  unfold RtRd.fmt_bytes_u8. rewrite Hy, z2b_b2z. split; [done|lia].
Qed.

Lemma pt_yields_bytes_u16 : yields bytes_u16 (fun x v => x = RtRd.fmt_bytes_u16 v /\ blen v <= U16_MAX).
Proof.
  eapply yields_bind; [apply yields_field2_le|]. intros n x [-> Hn].
  eapply yields_mono; [apply yields_take; lia|]. intros y v [-> Hy]. subst n. split; [done|].
  unfold U16_MAX. simpl in Hn. lia.
Qed.

Lemma pt_yields_limited limit :
  yields (bytes_u32_limited limit) (fun x v => x = fmt_bytes_u32 v /\ blen v <= limit).
Proof.
  eapply yields_bind; [apply pt_yields_u32|]. intros n x [-> Hn].
  eapply yields_bind; [apply yields_bail|]. intros [] y [-> Hg]. to_prop.
  eapply yields_mono; [apply yields_take; apply Hn|]. intros z v [-> Hz]. subst n. split; [done|lia].
Qed.

Lemma pt_yields_bytes_u32 :
  yields bytes_u32 (fun x v => x = fmt_bytes_u32 v /\ blen v <= MAX_PAYLOAD_BYTES).
Proof.
  eapply yields_bind; [apply pt_yields_u32|]. intros n x [-> Hn].
  eapply yields_bind; [apply yields_lift|]. intros [] y [-> Hg%ensure_payload_length_Ok].
  eapply yields_mono; [apply yields_take; apply Hn|]. intros z v [-> Hz]. by subst n.
Qed.
End PtRd.

#[export] Hint Resolve PtRd.pt_yields_u32 PtRd.pt_yields_u64 PtRd.pt_yields_bytes_u8 PtRd.pt_yields_bytes_u16
  PtRd.pt_yields_limited PtRd.pt_yields_bytes_u32 : yields.
#[export] Hint Extern 2 (yields PtRd.u8 _) => apply yields_field2_u8 : yields.
#[export] Hint Extern 2 (yields (PtRd.array _) _) => apply yields_field2_array; lia : yields.

(** [ServiceKeyV1::decode(reader.take(32)?)]. *)
Definition read_service_key : parser ProtocolError bytes :=
  b ← PtRd.take 32;
  plift (map_err (fun _ => PE_InvalidEnvelope (bstr "invalid service key")) (ServiceKey.decode b)).

Lemma yields_read_service_key : yields read_service_key (fun x v => v = x /\ array_ok 32 x).
Proof.
  eapply yields_bind; [apply yields_take; lia|]. intros v x [-> Hx].
  eapply yields_mono; [apply yields_lift|]. intros y w [-> Hw%map_err_Ok].
  unfold ServiceKey.decode in Hw. rewrite app_nil_r. apply bail_if_Ok in Hw as [_ [= ->]]. done.
Qed.

Lemma parses_read_service_key b : array_ok 32 b -> parses read_service_key b b.
Proof.
  intros Hb. unfold read_service_key. rewrite <- (app_nil_r b) at 1.
  eapply parses_bind; [by apply parses_take|]. apply parses_lift. unfold ServiceKey.decode.
  unfold array_ok in Hb. by rewrite Hb.
Qed.
#[export] Hint Resolve yields_read_service_key : yields.

(** ** [SignedActionV1] *)

Module SignedActionV1.
Record t := mk {
  version : byte;
  network_domain : bytes;
  service_key : bytes;
  action_selector : bytes;
  signer_scheme : SignerScheme;
  public_key : bytes;
  nonce : Z;
  valid_until : Z;
  payload_hash : bytes;
  signature : bytes;
  payload : bytes
}.

(** [VerifyContextV1]. *)
Record context := mkContext {
  c_network_domain : bytes;
  c_service_key : bytes;
  c_action_selector : bytes;
  c_current_tick : Z;
  c_expected_nonce : option Z
}.

(** [VerifiedAction]. *)
Record verified := Verified {
  sender : bytes;
  v_action_hash : bytes;
  v_nonce : Z;
  v_payload : bytes
}.

Definition validate_shape_v1 (a : t) : result unit ProtocolError :=
  bail_if blen (public_key a) >? MAX_PUBLIC_KEY_BYTES
    with PE_InvalidEnvelope (bstr "public key is too large") ;;
  bail_if blen (signature a) >? MAX_SIGNATURE_BYTES
    with PE_InvalidEnvelope (bstr "signature is too large") ;;
  ensure_payload (payload a).

Definition signing_preimage (a : t) : bytes :=
  ACTION_DOMAIN_V1 ++ [version a] ++ network_domain a ++ service_key a ++ action_selector a ++
  [scheme_u8 (signer_scheme a)] ++ to_le_bytes 8 (nonce a) ++ to_le_bytes 8 (valid_until a) ++
  payload_hash a.

Definition encode (a : t) : result bytes ProtocolError :=
  let? _ := validate_shape_v1 a in
  Ok ([version a] ++ network_domain a ++ service_key a ++ action_selector a ++
      [scheme_u8 (signer_scheme a)] ++ [z2b (blen (public_key a))] ++ public_key a ++
      to_le_bytes 8 (nonce a) ++ to_le_bytes 8 (valid_until a) ++ payload_hash a ++
      [z2b (blen (signature a))] ++ signature a ++ to_le_bytes 4 (blen (payload a)) ++ payload a).

Definition parse : parser ProtocolError t :=
  version ← PtRd.u8;
  pbail (negb (bool_decide (version = SIGNED_ACTION_VERSION_V1))) (PE_UnsupportedVersion version);;
  network_domain ← PtRd.array 32;
  service_key ← read_service_key;
  action_selector ← PtRd.array 8;
  scheme ← PtRd.u8;
  signer_scheme ← plift (scheme_try_from scheme);
  public_key ← PtRd.bytes_u8;
  nonce ← PtRd.u64;
  valid_until ← PtRd.u64;
  payload_hash ← PtRd.array 32;
  signature ← PtRd.bytes_u8;
  payload ← PtRd.bytes_u32;
  mret (mk version network_domain service_key action_selector signer_scheme public_key nonce
          valid_until payload_hash signature payload).

Definition decode (b : bytes) : result t ProtocolError :=
  let? action := run_exact (PE_InvalidEnvelope (bstr "trailing bytes")) parse b in
  let? _ := validate_shape_v1 action in
  Ok action.

Section Hash.
Context `{Schnorrkel} `{Blake2}.

Definition unsigned (network_domain service_key action_selector public_key : bytes)
    (nonce valid_until : Z) (payload : bytes) : result t ProtocolError :=
  let? _ := ensure_payload payload in
  Ok (mk SIGNED_ACTION_VERSION_V1 network_domain service_key action_selector Sr25519 public_key nonce
        valid_until (blake2_256 payload) [] payload).

Definition signing_digest (a : t) : bytes := blake2_256 (signing_preimage a).

Definition action_hash (a : t) : result bytes ProtocolError :=
  let? b := encode a in Ok (blake2_256 b).

Definition verify (a : t) (c : context) : result verified ProtocolError :=
  let? _ := validate_shape_v1 a in
  bail_if negb (bool_decide (version a = SIGNED_ACTION_VERSION_V1)) with PE_UnsupportedVersion (version a) ;;
  bail_if negb (bool_decide (network_domain a = c_network_domain c)) with PE_WrongNetwork ;;
  bail_if negb (bool_decide (service_key a = c_service_key c)) with PE_WrongService ;;
  bail_if negb (bool_decide (action_selector a = c_action_selector c)) with PE_UnknownAction ;;
  bail_if c_current_tick c >? valid_until a with PE_Expired ;;
  let? _ := match c_expected_nonce c with
            | Some expected_nonce =>
                bail_if negb (nonce a =? expected_nonce) with PE_NonceMismatch expected_nonce (nonce a) ;;
                Ok tt
            | None => Ok tt
            end in
  bail_if negb (bool_decide (blake2_256 (payload a) = payload_hash a)) with PE_PayloadHashMismatch ;;
  bail_if negb (bool_decide (signer_scheme a = Sr25519)) with PE_UnsupportedSigner (signer_scheme a) ;;
  let? sender := map_err PE_Crypto (verify_sr25519 (public_key a) (signature a) (signing_digest a)) in
  let? action_hash := action_hash a in
  Ok (Verified sender action_hash (nonce a) (payload a)).
End Hash.

(** *** Against the guest's copy *)

(** The action as the guest reads it from the bytes [b]. *)
Definition guest (a : t) (b : bytes) : ActionV1.t :=
  ActionV1.mk (version a) (network_domain a) (service_key a) (action_selector a)
    (scheme_u8 (signer_scheme a)) (public_key a) (nonce a) (valid_until a) (payload_hash a)
    (signature a) (payload a) b.

Definition fmt (a : t) : bytes := ActionV1.fmt (guest a []).

Definition wf (a : t) : Prop :=
  version a = x01 /\ array_ok 32 (network_domain a) /\ array_ok 32 (service_key a) /\
  array_ok 8 (action_selector a) /\ blen (public_key a) <= 32 /\ u64_ok (nonce a) /\
  u64_ok (valid_until a) /\ array_ok 32 (payload_hash a) /\ blen (signature a) <= 64 /\
  blen (payload a) <= MAX_PAYLOAD_BYTES.

Lemma shape_v1_Ok a :
  validate_shape_v1 a = Ok tt <->
  blen (public_key a) <= 32 /\ blen (signature a) <= 64 /\ blen (payload a) <= MAX_PAYLOAD_BYTES.
Proof.
  unfold validate_shape_v1, ensure_payload, MAX_PUBLIC_KEY_BYTES, MAX_SIGNATURE_BYTES.
  rewrite !bail_if_Ok, !Z.gtb_ltb, !Z.ltb_ge. naive_solver.
Qed.

Lemma encode_v1_Ok a b :
  encode a = Ok b <->
  (blen (public_key a) <= 32 /\ blen (signature a) <= 64 /\ blen (payload a) <= MAX_PAYLOAD_BYTES) /\ b = fmt a.
Proof.
  unfold encode. rewrite <- shape_v1_Ok. rewrite rbind_Ok. split.
  - intros ([] & Hs & [= <-]). split; [done|]. unfold fmt, ActionV1.fmt, RtRd.fmt_bytes_u8, fmt_bytes_u32. by rewrite <- !(assoc_L (++)).
  - intros [Hs ->]. exists tt. split; [done|]. unfold fmt, ActionV1.fmt, RtRd.fmt_bytes_u8, fmt_bytes_u32. by rewrite <- !(assoc_L (++)).
Qed.

Lemma scheme_try_from_Ok v s : scheme_try_from v = Ok s <-> v = scheme_u8 s.
Proof.
  split; [|intros ->; by destruct s]. unfold scheme_try_from. intros H. apply b2z_inj.
  destruct (b2z v) as [|[[[]|[]|]|[[]|[]|]|]|]; try discriminate; by injection H as <-.
Qed.

Lemma yields_parse_v1 : yields parse (fun x a => x = fmt a /\ version a = x01 /\
    array_ok 32 (network_domain a) /\ array_ok 32 (service_key a) /\ array_ok 8 (action_selector a) /\
    u64_ok (nonce a) /\ u64_ok (valid_until a) /\ array_ok 32 (payload_hash a)).
Proof.
  unfold parse. yield_field. intros ver x ->. yield_field. intros [] y [-> Hver]. to_prop.
  yield_field. intros nd xnd [-> Hnd]. yield_field. intros sk xsk [-> Hsk].
  yield_field. intros sel xsel [-> Hsel]. yield_field. intros sch x ->.
  eapply yields_bind; [apply yields_lift|]. intros s x [-> Hs%scheme_try_from_Ok]. subst sch.
  yield_field. intros pk x [-> _]. yield_field. intros n x [-> Hn]. yield_field. intros vu x [-> Hvu].
  yield_field. intros ph xph [-> Hph]. yield_field. intros sg x [-> _]. yield_field.
  intros pl x [-> _]. apply yields_ret. unfold fmt, ActionV1.fmt. simpl. rewrite app_nil_r. done.
Qed.

Lemma parses_parse_v1 a : wf a -> parses parse (fmt a) a.
Proof.
  intros (Hver & Hnd & Hsk & Hsel & Hpk & Hn & Hvu & Hph & Hsg & Hpl). unfold parse, fmt, ActionV1.fmt, guest.
  cbn [ActionV1.version ActionV1.network_domain ActionV1.service_key ActionV1.action_selector ActionV1.signer_scheme
    ActionV1.public_key ActionV1.nonce ActionV1.valid_until ActionV1.payload_hash ActionV1.signature ActionV1.payload].
  parse_field; [apply parses_field2_u8|]. parse_field; [by rewrite Hver|].
  parse_field; [by apply parses_field2_array|]. parse_field; [by apply parses_read_service_key|].
  parse_field; [by apply parses_field2_array|]. parse_field; [apply parses_field2_u8|].
  parse_field; [by apply scheme_try_from_Ok|]. parse_field; [apply PtRd.pt_parses_bytes_u8; lia|].
  do 2 (parse_field; [by apply PtRd.pt_parses_u64|]). parse_field; [by apply parses_field2_array|].
  parse_field; [apply PtRd.pt_parses_bytes_u8; lia|]. rewrite <- (app_nil_r (fmt_bytes_u32 _)).
  parse_field; [by apply PtRd.pt_parses_bytes_u32|]. apply parses_ret'. by destruct a.
Qed.

Lemma fmt_v1_slice_ok a : wf a -> slice_ok (fmt a).
Proof.
  intros (Hver & Hnd & Hsk & Hsel & Hpk & Hn & Hvu & Hph & Hsg & Hpl).
  unfold fmt, ActionV1.fmt, RtRd.fmt_bytes_u8, slice_ok, ISIZE_MAX, MAX_PAYLOAD_BYTES, array_ok in *.
  simpl. autorewrite with blen. lia.
Qed.

Lemma decode_v1_iff b a : decode b = Ok a <-> wf a /\ b = fmt a.
Proof.
  unfold decode. split.
  - intros Hd. apply rbind_Ok in Hd as (v & Hrun & Hd). apply rbind_Ok in Hd as ([] & Hs%shape_v1_Ok & [= ->]).
    apply (run_exact_yields _ _ _ _ _ yields_parse_v1) in Hrun.
    destruct Hrun as (-> & Hver & Hnd & Hsk & Hsel & Hn & Hvu & Hph). split; [|done]. unfold wf. naive_solver.
  - intros [Hwf ->]. rewrite (run_exact_parses _ _ _ a); [|by apply parses_parse_v1|by apply fmt_v1_slice_ok].
    cbn [rbind]. assert (validate_shape_v1 a = Ok tt) as -> by (apply shape_v1_Ok; unfold wf in Hwf; naive_solver). done.
Qed.
End SignedActionV1.

(** schnorrkel's documented lengths: keys are 32 bytes, signatures 64. *)
Class SchnorrkelLengths `{Schnorrkel} := {
  sr_public_length : forall b k, sr_public_from_bytes b = Some k -> blen b = 32;
  sr_signature_length : forall b s, sr_signature_from_bytes b = Some s -> blen b = 64
}.

Lemma verify_sr25519_lengths `{SchnorrkelLengths} pk sig m sender :
  verify_sr25519 pk sig m = Ok sender -> blen pk = 32 /\ blen sig = 64.
Proof.
  unfold verify_sr25519. intros Hv.
  destruct (sr_public_from_bytes pk) as [k|] eqn:Hk; [|discriminate Hv].
  destruct (sr_signature_from_bytes sig) as [s|] eqn:Hs; [|discriminate Hv].
  split; [by eapply sr_public_length|by eapply sr_signature_length].
Qed.

Section GuestV1.
Import SignedActionV1.

(** A client's action in the bytes the guest gets: the guest reads the same
    fields, unless the envelope is longer than it accepts. *)
Lemma guest_decode_v1 a :
  wf a -> ActionV1.decode_signed_action_v1 (fmt a) =
    if blen (fmt a) >? MAX_ACTION_BYTES then Err PayloadTooLarge else Ok (guest a (fmt a)).
Proof.
  intros Hw. destruct (Z.gtb_spec (blen (fmt a)) MAX_ACTION_BYTES) as [Hl|Hl].
  - unfold ActionV1.decode_signed_action_v1. rewrite Z.gtb_ltb. by rewrite (proj2 (Z.ltb_lt _ _) Hl).
  - apply ActionV1.action_v1_decode_iff. destruct Hw as (? & ? & ? & ? & ? & ? & ? & ? & ? & ?).
    unfold ActionV1.wf. done.
Qed.

Lemma guest_decoded_v1 b g :
  ActionV1.decode_signed_action_v1 b = Ok g -> ActionV1.signer_scheme g = x00 ->
  exists a, wf a /\ b = fmt a /\ g = guest a b /\ signer_scheme a = Sr25519.
Proof.
  intros (Hw & He & Hb)%ActionV1.action_v1_decode_iff Hs.
  exists (mk (ActionV1.version g) (ActionV1.network_domain g) (ActionV1.service_key g) (ActionV1.action_selector g)
    Sr25519 (ActionV1.public_key g) (ActionV1.nonce g) (ActionV1.valid_until g) (ActionV1.payload_hash g)
    (ActionV1.signature g) (ActionV1.payload g)).
  assert (blen (ActionV1.payload g) <= MAX_PAYLOAD_BYTES) as Hpl.
  { destruct Hw as (_ & _ & _ & _ & _ & _ & _ & _ & _ & Hl). unfold ActionV1.fmt, RtRd.fmt_bytes_u8 in Hl.
    autorewrite with blen in Hl. unfold MAX_ACTION_BYTES, MAX_PAYLOAD_BYTES in *.
    pose proof (blen_nonneg (ActionV1.network_domain g)). pose proof (blen_nonneg (ActionV1.service_key g)).
    pose proof (blen_nonneg (ActionV1.action_selector g)). pose proof (blen_nonneg (ActionV1.public_key g)).
    pose proof (blen_nonneg (ActionV1.payload_hash g)). pose proof (blen_nonneg (ActionV1.signature g)). lia. }
  split; [|split; [|split; [|done]]].
  - destruct Hw as (? & ? & ? & ? & ? & ? & ? & ? & ? & _). unfold wf. done.
  - rewrite Hb. unfold fmt, guest, ActionV1.fmt. cbn. by rewrite Hs.
  - destruct g. cbn in *. by subst.
Qed.
End GuestV1.

Section AgreeV1.
Context `{SchnorrkelLengths} `{Blake2}.

(** What [verify] checks of a well-formed action. *)
Lemma client_verify_v1_iff a c v :
  SignedActionV1.wf a ->
  SignedActionV1.verify a c = Ok v <->
  (SignedActionV1.network_domain a = SignedActionV1.c_network_domain c
   /\ SignedActionV1.service_key a = SignedActionV1.c_service_key c
   /\ SignedActionV1.action_selector a = SignedActionV1.c_action_selector c
   /\ SignedActionV1.c_current_tick c <= SignedActionV1.valid_until a
   /\ (forall n, SignedActionV1.c_expected_nonce c = Some n -> SignedActionV1.nonce a = n)
   /\ blake2_256 (SignedActionV1.payload a) = SignedActionV1.payload_hash a
   /\ SignedActionV1.signer_scheme a = Sr25519)
  /\ exists sender, verify_sr25519 (SignedActionV1.public_key a) (SignedActionV1.signature a)
       (SignedActionV1.signing_digest a) = Ok sender
     /\ v = SignedActionV1.Verified sender (blake2_256 (SignedActionV1.fmt a)) (SignedActionV1.nonce a)
              (SignedActionV1.payload a).
Proof.
  intros Hw. assert (SignedActionV1.validate_shape_v1 a = Ok tt) as Hs
    by (apply SignedActionV1.shape_v1_Ok; unfold SignedActionV1.wf in Hw; naive_solver).
  assert (SignedActionV1.encode a = Ok (SignedActionV1.fmt a)) as He
    by (apply SignedActionV1.encode_v1_Ok; split; [by apply SignedActionV1.shape_v1_Ok|done]).
  destruct Hw as (Hver & _). unfold SignedActionV1.verify, SignedActionV1.action_hash. rewrite Hs, He. cbn [rbind].
  rewrite Hver. rewrite !bail_if_Ok, !negb_false_iff, !bool_decide_eq_true, Z.gtb_ltb, Z.ltb_ge.
  destruct (SignedActionV1.c_expected_nonce c) as [n|]; [destruct (Z.eqb_spec (SignedActionV1.nonce a) n)|];
    cbn [negb rbind]; rewrite ?bail_if_Ok, ?negb_false_iff, ?bool_decide_eq_true, ?rbind_Ok;
    repeat setoid_rewrite map_err_Ok; naive_solver.
Qed.

(** What the guest checks of the same action. *)
Lemma guest_verify_v1_iff a nd sk sel g :
  SignedActionV1.wf a ->
  ActionV1.verify_signed_action_v1 (SignedActionV1.guest a (SignedActionV1.fmt a)) nd sk sel = Ok g <->
  (SignedActionV1.network_domain a = nd /\ SignedActionV1.service_key a = sk /\ SignedActionV1.action_selector a = sel
   /\ blake2_256 (SignedActionV1.payload a) = SignedActionV1.payload_hash a
   /\ SignedActionV1.signer_scheme a = Sr25519)
  /\ exists sender, verify_sr25519 (SignedActionV1.public_key a) (SignedActionV1.signature a)
       (SignedActionV1.signing_digest a) = Ok sender
     /\ g = ActionV1.Verified sender (blake2_256 (SignedActionV1.fmt a)) sel (SignedActionV1.nonce a)
              (SignedActionV1.valid_until a) (SignedActionV1.payload a).
Proof.
  intros (Hver & _). unfold ActionV1.verify_signed_action_v1. cbn.
  assert (scheme_u8 (SignedActionV1.signer_scheme a) = x00 <-> SignedActionV1.signer_scheme a = Sr25519) as Hs
    by (destruct (SignedActionV1.signer_scheme a); naive_solver).
  rewrite !bail_if_Ok, !negb_false_iff, !bool_decide_eq_true, Hs, orb_false_iff, !negb_false_iff, !Z.eqb_eq, rbind_Ok.
  setoid_rewrite map_err_Ok. split.
  - intros (_ & ? & ? & ? & ? & _ & ? & sender & Hv & [= <-]). split; [done|]. exists sender. split; [exact Hv|]. by subst.
  - intros ((? & ? & ? & ? & ?) & sender & Hv & ->). pose proof (verify_sr25519_lengths _ _ _ _ Hv) as [? ?].
    subst. repeat (split; [done|]). exists sender. split; [exact Hv|done].
Qed.
End AgreeV1.

(** C39: client and guest mean the same wallet actions. Every well-formed action
    encodes; the client's decoder returns it, and so does the guest's, field by
    field, unless the envelope is longer than the guest accepts (the client
    bounds only the payload). And on every byte string the guest accepts by
    length, the client verifies it in a context exactly when the guest verifies
    it for that network, service and action, the tick is not past the expiry and
    the expected nonce, if one is given, is the action's; both then name the
    same sender, hash, nonce and payload. *)
Theorem client_guest_agree_v1 `{SchnorrkelLengths} `{Blake2} :
  (forall a, SignedActionV1.wf a -> exists b,
     SignedActionV1.encode a = Ok b /\ SignedActionV1.decode b = Ok a
     /\ ActionV1.decode_signed_action_v1 b =
          if blen b >? MAX_ACTION_BYTES then Err PayloadTooLarge else Ok (SignedActionV1.guest a b))
  /\ (forall b c v, blen b <= MAX_ACTION_BYTES ->
       (let? a := SignedActionV1.decode b in SignedActionV1.verify a c) = Ok v <->
       exists a g, ActionV1.decode_signed_action_v1 b = Ok a
         /\ ActionV1.verify_signed_action_v1 a (SignedActionV1.c_network_domain c) (SignedActionV1.c_service_key c)
              (SignedActionV1.c_action_selector c) = Ok g
         /\ SignedActionV1.c_current_tick c <= ActionV1.v_valid_until g
         /\ (forall n, SignedActionV1.c_expected_nonce c = Some n -> ActionV1.v_nonce g = n)
         /\ v = SignedActionV1.Verified (ActionV1.v_sender g) (ActionV1.v_action_hash g) (ActionV1.v_nonce g)
                  (ActionV1.v_payload g)).
Proof.
  split.
  - intros a Hw. exists (SignedActionV1.fmt a). split; [|split; [by apply SignedActionV1.decode_v1_iff|by apply guest_decode_v1]].
    apply SignedActionV1.encode_v1_Ok. unfold SignedActionV1.wf in Hw. naive_solver.
  - intros b c v Hb. rewrite rbind_Ok. split.
    + intros (a & [Hw ->]%SignedActionV1.decode_v1_iff & Hv). apply client_verify_v1_iff in Hv as ((? & ? & ? & ? & Hn & ? & ?) & s & Hs & ->); [|done].
      eexists _, _. split; [|split; [apply guest_verify_v1_iff; [done|split; [done|by exists s]]|done]].
      rewrite guest_decode_v1 by done. by rewrite Z.gtb_ltb, (proj2 (Z.ltb_ge _ _) Hb).
    + intros (a' & g & Hd & Hv & Ht & Hn & ->).
      assert (ActionV1.signer_scheme a' = x00) as Hs.
      { unfold ActionV1.verify_signed_action_v1 in Hv. do 4 apply bail_if_Ok in Hv as [_ Hv].
        apply bail_if_Ok in Hv as [Hg _]. by to_prop. }
      destruct (guest_decoded_v1 b a' Hd Hs) as (a & Hw & -> & -> & _). exists a.
      split; [by apply SignedActionV1.decode_v1_iff|]. apply guest_verify_v1_iff in Hv as ((? & ? & ? & ? & ?) & s & Hsig & ->); [|done].
      apply client_verify_v1_iff; [done|]. split; [done|]. by exists s.
Qed.

(** ** [SignedActionV2] *)

Module SignedActionV2.
Record t := mk {
  version : byte;
  network_domain : bytes;
  service_key : bytes;
  action_selector : bytes;
  controller : Ownership.t;
  act_as : option Ownership.t;
  nonce : Z;
  valid_until : Z;
  payload_hash : bytes;
  authorization_proof : bytes;
  payload : bytes
}.

(** [VerifyContextV2]. *)
Record context := mkContext {
  c_network_domain : bytes;
  c_service_key : bytes;
  c_action_selector : bytes;
  c_current_tick : Z;
  c_expected_nonce : option Z
}.

(** [VerifiedOwnershipAction]. *)
Record verified := Verified {
  owner : Ownership.t;
  v_controller : Ownership.t;
  v_action_hash : bytes;
  v_action_selector : bytes;
  v_nonce : Z;
  v_valid_until : Z;
  v_payload : bytes
}.

(** [owner.validate()] of an optional owner. *)
Definition validate_act_as (act_as : option Ownership.t) : result unit ProtocolError :=
  match act_as with
  | Some owner => map_err from_ownership_error (Ownership.validate owner)
  | None => Ok tt
  end.

Definition validate_shape_v2 (a : t) : result unit ProtocolError :=
  bail_if negb (bool_decide (version a = SIGNED_ACTION_VERSION_V2)) with PE_UnsupportedVersion (version a) ;;
  let? _ := map_err from_ownership_error (Ownership.validate (controller a)) in
  let? _ := validate_act_as (act_as a) in
  bail_if blen (authorization_proof a) >? MAX_AUTHORIZATION_PROOF_BYTES with PE_InvalidOwnershipAuthorization ;;
  ensure_payload (payload a).

Definition preimage_act_as (act_as : option Ownership.t) : result bytes ProtocolError :=
  match act_as with
  | Some owner => let? e := map_err from_ownership_error (Ownership.encode owner) in Ok ([x01] ++ e)
  | None => Ok [x00]
  end.

(** The bytes [action_commitment] hashes. *)
Definition commitment_preimage (a : t) : result bytes ProtocolError :=
  let? _ := validate_shape_v2 a in
  let? controller := map_err from_ownership_error (Ownership.encode (controller a)) in
  let? act_as := preimage_act_as (act_as a) in
  Ok (ACTION_COMMITMENT_DOMAIN_V2 ++ network_domain a ++ service_key a ++ action_selector a ++
      controller ++ act_as ++ to_le_bytes 8 (nonce a) ++ to_le_bytes 8 (valid_until a) ++ payload_hash a).

Definition encoded_act_as (act_as : option Ownership.t) : result (option bytes) ProtocolError :=
  match act_as with
  | Some owner => let? e := map_err from_ownership_error (Ownership.encode owner) in Ok (Some e)
  | None => Ok None
  end.

Definition encode (a : t) : result bytes ProtocolError :=
  let? _ := validate_shape_v2 a in
  let? controller := map_err from_ownership_error (Ownership.encode (controller a)) in
  let? act_as := encoded_act_as (act_as a) in
  Ok ([version a] ++ network_domain a ++ service_key a ++ action_selector a ++
      to_le_bytes 2 (blen controller) ++ controller ++
      match act_as with
      | Some owner => [x01] ++ to_le_bytes 2 (blen owner) ++ owner
      | None => [x00]
      end ++
      to_le_bytes 8 (nonce a) ++ to_le_bytes 8 (valid_until a) ++ payload_hash a ++
      to_le_bytes 4 (blen (authorization_proof a)) ++ authorization_proof a ++
      to_le_bytes 4 (blen (payload a)) ++ payload a).

Definition read_ownership : parser ProtocolError Ownership.t :=
  b ← PtRd.bytes_u16;
  plift (map_err from_ownership_error (Ownership.decode b)).

Definition read_act_as : parser ProtocolError (option Ownership.t) :=
  flag ← PtRd.u8;
  if bool_decide (flag = x00) then mret None
  else if bool_decide (flag = x01) then owner ← read_ownership; mret (Some owner)
  else pfail (PE_InvalidEnvelope (bstr "invalid act_as flag")).

Definition parse : parser ProtocolError t :=
  version ← PtRd.u8;
  pbail (negb (bool_decide (version = SIGNED_ACTION_VERSION_V2))) (PE_UnsupportedVersion version);;
  network_domain ← PtRd.array 32;
  service_key ← read_service_key;
  action_selector ← PtRd.array 8;
  controller ← read_ownership;
  act_as ← read_act_as;
  nonce ← PtRd.u64;
  valid_until ← PtRd.u64;
  payload_hash ← PtRd.array 32;
  authorization_proof ← PtRd.bytes_u32_limited MAX_AUTHORIZATION_PROOF_BYTES;
  payload ← PtRd.bytes_u32;
  mret (mk version network_domain service_key action_selector controller act_as nonce valid_until
          payload_hash authorization_proof payload).

Definition decode (b : bytes) : result t ProtocolError :=
  let? action := run_exact (PE_InvalidEnvelope (bstr "trailing envelope bytes")) parse b in
  let? _ := validate_shape_v2 action in
  Ok action.

Section Verify.
Context `{Schnorrkel} `{Ed25519Dalek} `{K256} `{Sha3} `{Blake2} `{UrlBase64}.

Definition unsigned (network_domain service_key action_selector : bytes) (controller : Ownership.t)
    (act_as : option Ownership.t) (nonce valid_until : Z) (payload : bytes) : result t ProtocolError :=
  let? _ := ensure_payload payload in
  let? _ := map_err from_ownership_error (Ownership.validate controller) in
  let? _ := validate_act_as act_as in
  Ok (mk SIGNED_ACTION_VERSION_V2 network_domain service_key action_selector controller act_as nonce
        valid_until (blake2_256 payload) [] payload).

Definition action_commitment (a : t) : result bytes ProtocolError :=
  let? p := commitment_preimage a in Ok (blake2_256 p).

Definition action_hash (a : t) : result bytes ProtocolError :=
  let? b := encode a in Ok (blake2_256 b).

Definition signing_message (a : t) : result bytes ProtocolError :=
  let? commitment := action_commitment a in
  Ok (bstr "JAMSCRIPT_ACTION_V2:" ++ url_base64 commitment).

Definition verify_controller (a : t) (signing_message : bytes) : result unit ProtocolError :=
  match Ownership.kind (controller a) with
  | Secp256k1Keccak20 =>
      let? commitment := action_commitment a in
      map_err protocol_auth_error
        (verify_evm_ownership (controller a) (authorization_proof a) (network_domain a) commitment)
  | MulticryptoAccount32 =>
      map_err protocol_auth_error
        (verify_polkadot_ownership (controller a) (authorization_proof a) signing_message)
  | _ => map_err protocol_auth_error (verify_ownership (controller a) (authorization_proof a) signing_message)
  end.

Definition verify (a : t) (c : context) : result verified ProtocolError :=
  let? _ := validate_shape_v2 a in
  bail_if negb (bool_decide (network_domain a = c_network_domain c)) with PE_WrongNetwork ;;
  bail_if negb (bool_decide (service_key a = c_service_key c)) with PE_WrongService ;;
  bail_if negb (bool_decide (action_selector a = c_action_selector c)) with PE_UnknownAction ;;
  bail_if c_current_tick c >? valid_until a with PE_Expired ;;
  let? _ := match c_expected_nonce c with
            | Some expected_nonce =>
                bail_if negb (nonce a =? expected_nonce)
                  with PE_OwnershipNonceMismatch expected_nonce (nonce a) ;;
                Ok tt
            | None => Ok tt
            end in
  bail_if negb (bool_decide (blake2_256 (payload a) = payload_hash a)) with PE_PayloadHashMismatch ;;
  bail_if match act_as a with Some _ => true | None => false end with PE_ActAsUnsupported ;;
  bail_if bool_decide (authorization_proof a = []) with PE_InvalidOwnershipAuthorization ;;
  let? signing_message := signing_message a in
  let? _ := verify_controller a signing_message in
  let? action_hash := action_hash a in
  Ok (Verified (default (controller a) (act_as a)) (controller a) action_hash (action_selector a) (nonce a)
        (valid_until a) (payload a)).
End Verify.

(** *** Against the guest's copy *)

Definition guest (a : t) (b : bytes) : ActionV2.t :=
  ActionV2.mk (version a) (network_domain a) (service_key a) (action_selector a) (controller a) (act_as a)
    (nonce a) (valid_until a) (payload_hash a) (authorization_proof a) (payload a) b.

(** The client's fields of what the guest read. *)
Definition of_guest (g : ActionV2.t) : t :=
  mk (ActionV2.version g) (ActionV2.network_domain g) (ActionV2.service_key g) (ActionV2.action_selector g)
    (ActionV2.controller g) (ActionV2.act_as g) (ActionV2.nonce g) (ActionV2.valid_until g)
    (ActionV2.payload_hash g) (ActionV2.authorization_proof g) (ActionV2.payload g).

Definition fmt (a : t) : bytes := ActionV2.fmt (guest a []).

Definition wf (a : t) : Prop := ActionV2.wf_fields (guest a []) /\ blen (payload a) <= MAX_PAYLOAD_BYTES.

Lemma validate_act_as_Ok o : validate_act_as o = Ok tt <-> forall w, o = Some w -> Ownership.valid w.
Proof.
  unfold validate_act_as. destruct o as [w|]; [|naive_solver].
  rewrite map_err_Ok, Ownership.validate_Ok. naive_solver.
Qed.

Lemma rbind_unit {E B} (m : result unit E) (k : unit -> result B E) v : rbind m k = Ok v <-> m = Ok tt /\ k tt = Ok v.
Proof. destruct m as [[]|e]; simpl; naive_solver. Qed.

Lemma shape_v2_Ok a :
  validate_shape_v2 a = Ok tt <->
  version a = x02 /\ Ownership.valid (controller a) /\ (forall w, act_as a = Some w -> Ownership.valid w)
  /\ blen (authorization_proof a) <= MAX_AUTHORIZATION_PROOF_BYTES /\ blen (payload a) <= MAX_PAYLOAD_BYTES.
Proof.
  unfold validate_shape_v2, ensure_payload. rewrite bail_if_Ok, negb_false_iff, bool_decide_eq_true.
  rewrite !rbind_unit, map_err_Ok, Ownership.validate_Ok, validate_act_as_Ok, bail_if_Ok, !Z.gtb_ltb, Z.ltb_ge.
  destruct (Z.ltb_spec MAX_PAYLOAD_BYTES (blen (payload a))); naive_solver lia.
Qed.

Lemma wf_shape_v2 a : wf a -> validate_shape_v2 a = Ok tt.
Proof. intros [(? & _ & _ & _ & ? & ? & _ & _ & _ & ?) ?]. by apply shape_v2_Ok. Qed.

Lemma ownership_encodes o : Ownership.valid o -> Ownership.encode o = Ok (Ownership.fmt o).
Proof. intros Hv. by apply Ownership.ownership_encode_Ok. Qed.

Lemma encode_v2_wf a : wf a -> encode a = Ok (fmt a).
Proof.
  intros Hw. unfold encode. rewrite (wf_shape_v2 a Hw). destruct Hw as [(_ & _ & _ & _ & Hc & Ha & _) _].
  cbn [rbind guest ActionV2.controller ActionV2.act_as] in *. rewrite (ownership_encodes _ Hc). cbn [map_err rbind].
  unfold fmt, ActionV2.fmt, ActionV2.fmt_act_as, RtRd.fmt_bytes_u16, fmt_bytes_u32, guest.
  destruct (act_as a) as [w|] eqn:Hw; cbn [encoded_act_as ActionV2.act_as].
  - rewrite (ownership_encodes w (Ha w eq_refl)). cbn [map_err rbind]. by rewrite <- !(assoc_L (++)).
  - cbn [rbind]. by rewrite <- !(assoc_L (++)).
Qed.

Lemma yields_read_ownership_pt :
  yields read_ownership (fun x o => x = RtRd.fmt_bytes_u16 (Ownership.fmt o) /\ Ownership.valid o).
Proof.
  unfold read_ownership. yield_field. intros b x [-> _].
  eapply yields_mono; [apply yields_lift|]. intros y o [-> Hd%map_err_Ok].
  apply Ownership.ownership_decode_iff in Hd as [Hv He]. apply Ownership.ownership_encode_Ok in He as [_ ->].
  by rewrite app_nil_r.
Qed.

Lemma parses_read_ownership_pt o :
  Ownership.valid o -> parses read_ownership (RtRd.fmt_bytes_u16 (Ownership.fmt o)) o.
Proof.
  intros Hv. unfold read_ownership. rewrite <- (app_nil_r (RtRd.fmt_bytes_u16 _)).
  pose proof (ActionV2.fmt_ownership_length o Hv).
  eapply parses_bind; [apply PtRd.pt_parses_bytes_u16; unfold U16_MAX; lia|]. apply parses_lift.
  apply map_err_Ok, Ownership.ownership_decode_iff. split; [done|]. by apply ownership_encodes.
Qed.

Lemma yields_read_act_as_pt :
  yields read_act_as (fun x o => x = ActionV2.fmt_act_as o /\ forall w, o = Some w -> Ownership.valid w).
Proof.
  unfold read_act_as. yield_field. intros flag x ->. repeat case_bool_decide; subst.
  - by apply yields_ret.
  - eapply yields_bind; [apply yields_read_ownership_pt|]. intros o x [-> Hv]. apply yields_ret.
    rewrite app_nil_r. split; [done|]. by intros w [= <-].
  - apply yields_fail.
Qed.

Lemma parses_read_act_as_pt o :
  (forall w, o = Some w -> Ownership.valid w) -> parses read_act_as (ActionV2.fmt_act_as o) o.
Proof.
  intros Hv. unfold read_act_as. destruct o as [w|]; simpl.
  - eapply (parses_bind _ _ [x01]); [apply parses_field2_u8|]. simpl. rewrite <- (app_nil_r (RtRd.fmt_bytes_u16 _)).
    eapply parses_bind; [by apply parses_read_ownership_pt, Hv|]. apply parses_ret.
  - eapply (parses_bind _ _ [x00] []); [apply parses_field2_u8|]. apply parses_ret.
Qed.

#[local] Hint Resolve yields_read_ownership_pt yields_read_act_as_pt : yields.

Ltac guest_fields :=
  unfold guest in *;
  cbn [ActionV2.version ActionV2.network_domain ActionV2.service_key ActionV2.action_selector ActionV2.controller
    ActionV2.act_as ActionV2.nonce ActionV2.valid_until ActionV2.payload_hash ActionV2.authorization_proof
    ActionV2.payload] in *.

Lemma yields_parse_v2 : yields parse (fun x a => x = fmt a /\ ActionV2.wf_fields (guest a [])).
Proof.
  unfold parse. yield_field. intros ver x ->. yield_field. intros [] y [-> Hver]. to_prop.
  yield_field. intros nd xnd [-> Hnd]. yield_field. intros sk xsk [-> Hsk].
  yield_field. intros sel xsel [-> Hsel]. yield_field. intros c x [-> Hc].
  yield_field. intros aa x [-> Haa]. yield_field. intros n x [-> Hn]. yield_field. intros vu x [-> Hvu].
  yield_field. intros ph xph [-> Hph]. yield_field. intros pr x [-> Hpr]. yield_field.
  intros pl x [-> _]. apply yields_ret. unfold fmt, ActionV2.fmt, ActionV2.wf_fields. simpl.
  rewrite app_nil_r. done.
Qed.

Lemma parses_parse_v2 a : wf a -> parses parse (fmt a) a.
Proof.
  intros [(Hver & Hnd & Hsk & Hsel & Hc & Haa & Hn & Hvu & Hph & Hpr) Hpl].
  unfold parse, fmt, ActionV2.fmt, guest in *.
  guest_fields.
  parse_field; [apply parses_field2_u8|]. parse_field; [by rewrite Hver|].
  parse_field; [by apply parses_field2_array|]. parse_field; [by apply parses_read_service_key|].
  parse_field; [by apply parses_field2_array|].
  parse_field; [by apply parses_read_ownership_pt|]. parse_field; [by apply parses_read_act_as_pt|].
  do 2 (parse_field; [by apply PtRd.pt_parses_u64|]). parse_field; [by apply parses_field2_array|].
  parse_field; [by apply PtRd.pt_parses_limited|].
  rewrite <- (app_nil_r (fmt_bytes_u32 (payload a))).
  parse_field; [by apply PtRd.pt_parses_bytes_u32|]. apply parses_ret'. by destruct a.
Qed.

Lemma fmt_v2_slice_ok a : wf a -> slice_ok (fmt a).
Proof.
  intros [(Hver & Hnd & Hsk & Hsel & Hc & Haa & Hn & Hvu & Hph & Hpr) Hpl].
  guest_fields. assert (blen (ActionV2.fmt_act_as (act_as a)) <= 40) as Hl.
  { unfold ActionV2.fmt_act_as, RtRd.fmt_bytes_u16. destruct (act_as a) as [w|]; autorewrite with blen; [|lia].
    pose proof (ActionV2.fmt_ownership_length w (Haa w eq_refl)). lia. }
  pose proof (ActionV2.fmt_ownership_length _ Hc).
  unfold fmt, ActionV2.fmt, RtRd.fmt_bytes_u16, slice_ok, ISIZE_MAX, MAX_PAYLOAD_BYTES, MAX_AUTHORIZATION_PROOF_BYTES,
    array_ok in *. guest_fields. autorewrite with blen. lia.
Qed.

Lemma decode_v2_iff b a : decode b = Ok a <-> wf a /\ b = fmt a.
Proof.
  unfold decode. split.
  - intros Hd. apply rbind_Ok in Hd as (v & Hrun & Hd). apply rbind_Ok in Hd as ([] & Hs%shape_v2_Ok & [= ->]).
    apply (run_exact_yields _ _ _ _ _ yields_parse_v2) in Hrun as [-> Hw]. split; [|done]. unfold wf. naive_solver.
  - intros [Hwf ->]. rewrite (run_exact_parses _ _ _ a); [|by apply parses_parse_v2|by apply fmt_v2_slice_ok].
    cbn [rbind]. by rewrite wf_shape_v2.
Qed.
End SignedActionV2.

Lemma guest_decode_v2 a :
  SignedActionV2.wf a -> ActionV2.decode_signed_action_v2 (SignedActionV2.fmt a) =
    if blen (SignedActionV2.fmt a) >? MAX_ACTION_BYTES then Err PayloadTooLarge
    else Ok (SignedActionV2.guest a (SignedActionV2.fmt a)).
Proof.
  intros [Hw _]. destruct (Z.gtb_spec (blen (SignedActionV2.fmt a)) MAX_ACTION_BYTES) as [Hl|Hl].
  - unfold ActionV2.decode_signed_action_v2. rewrite Z.gtb_ltb. by rewrite (proj2 (Z.ltb_lt _ _) Hl).
  - apply ActionV2.action_v2_decode_iff. done.
Qed.

Lemma guest_decoded_v2 b g :
  ActionV2.decode_signed_action_v2 b = Ok g ->
  exists a, SignedActionV2.wf a /\ b = SignedActionV2.fmt a /\ g = SignedActionV2.guest a b.
Proof.
  intros ([Hw Hl] & He & Hb)%ActionV2.action_v2_decode_iff. exists (SignedActionV2.of_guest g).
  split; [split; [done|]|].
  - by apply ActionV2.payload_bound in Hl.
  - split; [done|]. destruct g. cbn in *. by subst.
Qed.

Section AgreeV2.
Context `{Schnorrkel} `{Ed25519Dalek} `{K256} `{Sha3} `{Blake2} `{UrlBase64}.

Lemma commitment_v2_agree a b :
  SignedActionV2.wf a -> exists p, SignedActionV2.commitment_preimage a = Ok p
    /\ ActionV2.commitment_preimage (SignedActionV2.guest a b) = Ok p.
Proof.
  intros Hw. pose proof (SignedActionV2.wf_shape_v2 a Hw) as Hs. destruct Hw as [(_ & _ & _ & _ & Hc & Ha & _) _].
  unfold SignedActionV2.commitment_preimage, ActionV2.commitment_preimage. rewrite Hs.
  unfold SignedActionV2.guest in *.
  cbn [rbind ActionV2.controller ActionV2.act_as ActionV2.network_domain ActionV2.service_key ActionV2.action_selector
    ActionV2.nonce ActionV2.valid_until ActionV2.payload_hash] in *.
  rewrite (SignedActionV2.ownership_encodes _ Hc). cbn [map_err rbind].
  destruct (SignedActionV2.act_as a) as [w|]; cbn [SignedActionV2.preimage_act_as ActionV2.encode_act_as].
  - rewrite (SignedActionV2.ownership_encodes w (Ha w eq_refl)). cbn [map_err rbind]. by eexists.
  - cbn [rbind]. by eexists.
Qed.

Lemma authorization_v2_agree a b p :
  SignedActionV2.commitment_preimage a = Ok p ->
  (let? m := SignedActionV2.signing_message a in SignedActionV2.verify_controller a m) = Ok tt <->
  ActionV2.verify_authorization (SignedActionV2.guest a b) (blake2_256 p) = Ok tt.
Proof.
  intros Hp. unfold SignedActionV2.signing_message, SignedActionV2.verify_controller,
    SignedActionV2.action_commitment, ActionV2.verify_authorization. rewrite Hp. cbn [rbind SignedActionV2.guest ActionV2.controller
      ActionV2.authorization_proof ActionV2.network_domain].
  by destruct (Ownership.kind (SignedActionV2.controller a)); rewrite !map_err_Ok.
Qed.

Lemma client_verify_v2_iff a c v p :
  SignedActionV2.wf a -> SignedActionV2.commitment_preimage a = Ok p ->
  SignedActionV2.verify a c = Ok v <->
  (SignedActionV2.network_domain a = SignedActionV2.c_network_domain c
   /\ SignedActionV2.service_key a = SignedActionV2.c_service_key c
   /\ SignedActionV2.action_selector a = SignedActionV2.c_action_selector c
   /\ SignedActionV2.c_current_tick c <= SignedActionV2.valid_until a
   /\ (forall n, SignedActionV2.c_expected_nonce c = Some n -> SignedActionV2.nonce a = n)
   /\ blake2_256 (SignedActionV2.payload a) = SignedActionV2.payload_hash a
   /\ SignedActionV2.act_as a = None /\ SignedActionV2.authorization_proof a <> [])
  /\ (let? m := SignedActionV2.signing_message a in SignedActionV2.verify_controller a m) = Ok tt
  /\ v = SignedActionV2.Verified (SignedActionV2.controller a) (SignedActionV2.controller a)
           (blake2_256 (SignedActionV2.fmt a)) (SignedActionV2.action_selector a) (SignedActionV2.nonce a)
           (SignedActionV2.valid_until a) (SignedActionV2.payload a).
Proof.
  intros Hw Hp. unfold SignedActionV2.verify, SignedActionV2.action_hash, SignedActionV2.signing_message,
    SignedActionV2.action_commitment.
  rewrite (SignedActionV2.wf_shape_v2 a Hw), (SignedActionV2.encode_v2_wf a Hw), Hp. cbn [rbind].
  rewrite !bail_if_Ok, !negb_false_iff, !bool_decide_eq_true, Z.gtb_ltb, Z.ltb_ge.
  destruct (SignedActionV2.act_as a) as [w|];
  (destruct (SignedActionV2.c_expected_nonce c) as [n|]; [destruct (Z.eqb_spec (SignedActionV2.nonce a) n)|]);
    cbn [negb rbind]; rewrite ?bail_if_Ok, ?negb_false_iff, ?bool_decide_eq_true, ?bool_decide_eq_false, ?SignedActionV2.rbind_unit;
    naive_solver.
Qed.

Lemma guest_verify_v2_iff a nd sk sel nonce g p :
  ActionV2.commitment_preimage (SignedActionV2.guest a (SignedActionV2.fmt a)) = Ok p ->
  ActionV2.verify_signed_action_v2 (SignedActionV2.guest a (SignedActionV2.fmt a)) nd sk sel nonce = Ok g <->
  (SignedActionV2.network_domain a = nd /\ SignedActionV2.service_key a = sk /\ SignedActionV2.action_selector a = sel
   /\ (forall n, nonce = Some n -> SignedActionV2.nonce a = n)
   /\ blake2_256 (SignedActionV2.payload a) = SignedActionV2.payload_hash a
   /\ SignedActionV2.act_as a = None /\ SignedActionV2.authorization_proof a <> [])
  /\ ActionV2.verify_authorization (SignedActionV2.guest a (SignedActionV2.fmt a)) (blake2_256 p) = Ok tt
  /\ g = ActionV2.Verified (SignedActionV2.controller a) (SignedActionV2.controller a)
           (blake2_256 (SignedActionV2.fmt a)) (SignedActionV2.action_selector a) (SignedActionV2.nonce a)
           (SignedActionV2.valid_until a) (SignedActionV2.payload a).
Proof.
  intros Hp. unfold ActionV2.verify_signed_action_v2. rewrite Hp.
  assert (blen (SignedActionV2.authorization_proof a) =? 0 = false <-> SignedActionV2.authorization_proof a <> []) as Hpr.
  { rewrite Z.eqb_neq. destruct (SignedActionV2.authorization_proof a); [done|]. rewrite blen_cons.
    pose proof (blen_nonneg l). naive_solver lia. }
  cbn [rbind]. cbv zeta. set (auth := ActionV2.verify_authorization _ _). clearbody auth.
  cbn [SignedActionV2.guest ActionV2.network_domain ActionV2.service_key ActionV2.action_selector ActionV2.payload
    ActionV2.payload_hash ActionV2.nonce ActionV2.act_as ActionV2.authorization_proof ActionV2.controller ActionV2.encoded
    ActionV2.valid_until].
  rewrite !bail_if_Ok, !negb_false_iff, !bool_decide_eq_true, Hpr, SignedActionV2.rbind_unit.
  destruct nonce as [n|]; [rewrite negb_false_iff, Z.eqb_eq|]; destruct (SignedActionV2.act_as a); naive_solver.
Qed.
End AgreeV2.

(** Client and guest mean the same ownership actions. Every well-formed
    action encodes; the client's decoder returns it, and so does the guest's,
    field by field, unless the envelope is longer than the guest accepts. And
    on every byte string the guest accepts by length, the client verifies it in a
    context exactly when the guest verifies it for that network, service, action
    and expected nonce and the tick is not past the expiry; both then name the
    same owner, controller, hash, selector, nonce, expiry and payload. *)
Theorem client_guest_agree_v2 `{Schnorrkel} `{Ed25519Dalek} `{K256} `{Sha3} `{Blake2} `{UrlBase64} :
  (forall a, SignedActionV2.wf a -> exists b,
     SignedActionV2.encode a = Ok b /\ SignedActionV2.decode b = Ok a
     /\ ActionV2.decode_signed_action_v2 b =
          if blen b >? MAX_ACTION_BYTES then Err PayloadTooLarge else Ok (SignedActionV2.guest a b))
  /\ (forall b c v, blen b <= MAX_ACTION_BYTES ->
       (let? a := SignedActionV2.decode b in SignedActionV2.verify a c) = Ok v <->
       exists a g, ActionV2.decode_signed_action_v2 b = Ok a
         /\ ActionV2.verify_signed_action_v2 a (SignedActionV2.c_network_domain c) (SignedActionV2.c_service_key c)
              (SignedActionV2.c_action_selector c) (SignedActionV2.c_expected_nonce c) = Ok g
         /\ SignedActionV2.c_current_tick c <= ActionV2.v_valid_until g
         /\ v = SignedActionV2.Verified (ActionV2.v_owner g) (ActionV2.v_controller g) (ActionV2.v_action_hash g)
                  (ActionV2.v_action_selector g) (ActionV2.v_nonce g) (ActionV2.v_valid_until g)
                  (ActionV2.v_payload g)).
Proof.
  split.
  - intros a Hw. exists (SignedActionV2.fmt a). split; [by apply SignedActionV2.encode_v2_wf|].
    split; [by apply SignedActionV2.decode_v2_iff|by apply guest_decode_v2].
  - intros b c v Hb. rewrite rbind_Ok. split.
    + intros (a & [Hw ->]%SignedActionV2.decode_v2_iff & Hv).
      destruct (commitment_v2_agree a (SignedActionV2.fmt a) Hw) as (p & Hp & Hp').
      apply (client_verify_v2_iff a c v p Hw Hp) in Hv as ((? & ? & ? & ? & Hn & ? & ? & ?) & Hs & ->).
      eexists _, _. split; [|split; [apply (guest_verify_v2_iff a _ _ _ _ _ p Hp'); split; [done|split; [by apply authorization_v2_agree|done]]|done]].
      rewrite guest_decode_v2 by done. by rewrite Z.gtb_ltb, (proj2 (Z.ltb_ge _ _) Hb).
    + intros (g' & g & Hd & Hv & Ht & ->). destruct (guest_decoded_v2 b g' Hd) as (a & Hw & -> & ->). exists a.
      split; [by apply SignedActionV2.decode_v2_iff|].
      destruct (commitment_v2_agree a (SignedActionV2.fmt a) Hw) as (p & Hp & Hp').
      apply (guest_verify_v2_iff a _ _ _ _ _ p Hp') in Hv as ((? & ? & ? & ? & ? & ? & ?) & Hs & ->).
      apply (client_verify_v2_iff a c _ p Hw Hp). split; [done|]. split; [by eapply authorization_v2_agree|done].
Qed.

(** ** Concrete actions for the example *)

Module ProtocolToy.
#[global] Instance lengths : SchnorrkelLengths (H := Toy.schnorrkel).
Proof.
  split; intros b k Hk; cbn in Hk.
  - destruct (Z.eqb_spec (blen b) 32); [done|discriminate Hk].
  - destruct (Z.eqb_spec (blen b) 64); [done|discriminate Hk].
Qed.

Definition action : SignedActionV1.t :=
  SignedActionV1.mk x01 Toy.domain Toy.service Toy.selector Sr25519 Toy.key 7 100 (blake2_256 Toy.payload)
    (ActionV1.signature Toy.action) Toy.payload.
Definition context : SignedActionV1.context :=
  SignedActionV1.mkContext Toy.domain Toy.service Toy.selector 50 (Some 7).
Definition encoded : bytes := SignedActionV1.fmt action.
End ProtocolToy.

Lemma client_guest_agree_v1_witness :
  exists v, (let? a := SignedActionV1.decode ProtocolToy.encoded in SignedActionV1.verify a ProtocolToy.context) = Ok v
    /\ SignedActionV1.sender v = Toy.key.
Proof.
  destruct client_guest_agree_v1 as [_ Hagree].
  destruct (ActionV1.verify_signed_action_v1 Toy.action Toy.domain Toy.service Toy.selector) as [g|e] eqn:Hg;
    [|vm_compute in Hg; discriminate Hg].
  exists (SignedActionV1.Verified (ActionV1.v_sender g) (ActionV1.v_action_hash g) (ActionV1.v_nonce g) (ActionV1.v_payload g)).
  split; [|vm_compute in Hg; injection Hg as <-; reflexivity].
  apply Hagree; [vm_compute; discriminate|].
  exists Toy.action, g. split; [vm_compute; reflexivity|]. split; [exact Hg|].
  vm_compute in Hg. injection Hg as <-. split; [vm_compute; discriminate|]. split; [|reflexivity].
  intros n Hn. injection Hn as <-. reflexivity.
Defined.
