(* ===== verification/Matrix.v ===== *)
(** * [ownership-matrix]: Matrix cross-signing proofs

    The claim that a Matrix master key controls a device key: its binary
    codec, the two canonical JSON objects whose signatures it carries, and
    their verification.  A Rust [String] is modelled by its UTF-8 bytes. *)

From S2P Require Import Prelude Ordering Reader Wire Fields StateDiff Ownership Crypto Actions.

Inductive MatrixProofError := InvalidMatrixProof | MatrixProofVerificationFailed.

Definition MAX_MATRIX_TEXT_BYTES : Z := 255.
Definition MAX_MATRIX_ALGORITHMS : Z := 8.
Definition MAX_MATRIX_ALGORITHM_BYTES : Z := 128.

(** [STANDARD_NO_PAD.encode] of the base64 crate. *)
Class Base64 := base64 : bytes -> bytes.

Definition quote : byte := x22.
Definition backslash : byte := x5c.
Definition is_ascii (text : bytes) : bool := forallb (fun c => b2z c <? 128) text.
(** [byte < 0x20 || byte == quote || byte == backslash]. *)
Definition needs_escape (c : byte) : bool :=
  (b2z c <? 32) || bool_decide (c = quote) || bool_decide (c = backslash).

Module MxRd.
Definition take : Z -> parser MatrixProofError bytes := take_with InvalidMatrixProof InvalidMatrixProof.
Definition u8 : parser MatrixProofError byte := field_u8 InvalidMatrixProof.
Definition array (n : Z) : parser MatrixProofError bytes := field_array InvalidMatrixProof n.
(** [String::from_utf8] does not fail on ASCII bytes. *)
Definition text_bounded (max : Z) : parser MatrixProofError bytes :=
  length ← field_le InvalidMatrixProof 2;
  pbail (length >? max) InvalidMatrixProof;;
  b ← take length;
  pbail (negb (is_ascii b)) InvalidMatrixProof;;
  pbail (existsb needs_escape b) InvalidMatrixProof;;
  mret b.
Definition text : parser MatrixProofError bytes := text_bounded MAX_MATRIX_TEXT_BYTES.
End MxRd.

Definition put_text_bounded (output value : bytes) (max : Z) : result bytes MatrixProofError :=
  bail_if (blen value >? max) || (blen value >? U16_MAX) || negb (is_ascii value)
      || existsb needs_escape value
    with InvalidMatrixProof ;;
  Ok (output ++ to_le_bytes 2 (blen value) ++ value).
Definition put_text (output value : bytes) : result bytes MatrixProofError :=
  put_text_bounded output value MAX_MATRIX_TEXT_BYTES.

Definition quoted (s : bytes) : bytes := [quote] ++ s ++ [quote].

Definition format_matrix_self_object (user_id key : bytes) : bytes :=
  bstr "{" ++ quoted (bstr "keys") ++ bstr ":{" ++ quoted (bstr "ed25519:" ++ key) ++ bstr ":" ++
  quoted key ++ bstr "}," ++ quoted (bstr "usage") ++ bstr ":[" ++ quoted (bstr "self_signing") ++
  bstr "]," ++ quoted (bstr "user_id") ++ bstr ":" ++ quoted user_id ++ bstr "}".

(** [values.iter().map(quoted).collect().join(",")]. *)
Fixpoint join_quoted (values : list bytes) : bytes :=
  match values with
  | [] => []
  | [v] => quoted v
  | v :: rest => quoted v ++ bstr "," ++ join_quoted rest
  end.

Definition format_matrix_device_object (user_id device_id : bytes) (algorithms : list bytes)
    (curve ed : bytes) : bytes :=
  bstr "{" ++ quoted (bstr "algorithms") ++ bstr ":[" ++ join_quoted algorithms ++ bstr "]," ++
  quoted (bstr "device_id") ++ bstr ":" ++ quoted device_id ++ bstr "," ++
  quoted (bstr "keys") ++ bstr ":{" ++ quoted (bstr "curve25519:" ++ device_id) ++ bstr ":" ++
  quoted curve ++ bstr "," ++ quoted (bstr "ed25519:" ++ device_id) ++ bstr ":" ++ quoted ed ++
  bstr "}," ++ quoted (bstr "user_id") ++ bstr ":" ++ quoted user_id ++ bstr "}".

Module Claim.
Record t := mk {
  user_id : bytes;
  self_signing_public_key : bytes;
  master_signature : bytes;
  device_id : bytes;
  algorithms : list bytes;
  device_curve25519_key : bytes;
  device_ed25519_key : bytes;
  self_signing_signature : bytes
}.

Definition parse : parser MatrixProofError t :=
  version ← MxRd.u8;
  pbail (negb (bool_decide (version = x01))) InvalidMatrixProof;;
  user_id ← MxRd.text;
  self_signing_public_key ← MxRd.array 32;
  master_signature ← MxRd.array 64;
  device_id ← MxRd.text;
  count ← MxRd.u8;
  pbail (b2z count >? MAX_MATRIX_ALGORITHMS) InvalidMatrixProof;;
  algorithms ← prepeat (Z.to_nat (b2z count)) (MxRd.text_bounded MAX_MATRIX_ALGORITHM_BYTES);
  device_curve25519_key ← MxRd.array 32;
  device_ed25519_key ← MxRd.array 32;
  self_signing_signature ← MxRd.array 64;
  mret (mk user_id self_signing_public_key master_signature device_id algorithms
          device_curve25519_key device_ed25519_key self_signing_signature).

Definition decode (b : bytes) : result t MatrixProofError := run_exact InvalidMatrixProof parse b.

Definition encode (c : t) : result bytes MatrixProofError :=
  bail_if (blen (user_id c) >? MAX_MATRIX_TEXT_BYTES) || (blen (device_id c) >? MAX_MATRIX_TEXT_BYTES)
      || (blen (algorithms c) >? MAX_MATRIX_ALGORITHMS)
      || existsb (fun value => blen value >? MAX_MATRIX_ALGORITHM_BYTES) (algorithms c)
      || negb (is_ascii (user_id c)) || negb (is_ascii (device_id c))
      || existsb (fun value => negb (is_ascii value)) (algorithms c)
    with InvalidMatrixProof ;;
  let output := [x01] in
  let? output := put_text output (user_id c) in
  let output := output ++ self_signing_public_key c in
  let output := output ++ master_signature c in
  let? output := put_text output (device_id c) in
  let output := output ++ [z2b (blen (algorithms c))] in
  let? output := rfold (fun out algorithm =>
    put_text_bounded out algorithm MAX_MATRIX_ALGORITHM_BYTES) output (algorithms c) in
  let output := output ++ device_curve25519_key c in
  let output := output ++ device_ed25519_key c in
  let output := output ++ self_signing_signature c in
  Ok output.

Section Verify.
Context `{Base64} `{Ed25519Dalek}.

Definition canonical_self_signing_object (c : t) : result bytes MatrixProofError :=
  let key := base64 (self_signing_public_key c) in
  Ok (format_matrix_self_object (user_id c) key).

Definition canonical_device_keys_object (c : t) : result bytes MatrixProofError :=
  let curve := base64 (device_curve25519_key c) in
  let ed := base64 (device_ed25519_key c) in
  bail_if negb (is_ascii (user_id c)) || negb (is_ascii (device_id c))
      || existsb (fun value => negb (is_ascii value)) (algorithms c)
    with InvalidMatrixProof ;;
  Ok (format_matrix_device_object (user_id c) (device_id c) (algorithms c) curve ed).

Definition verify (c : t) (master_public_key : bytes) : result unit MatrixProofError :=
  let? self_object := canonical_self_signing_object c in
  let? _ := map_err (fun _ => MatrixProofVerificationFailed)
    (verify_ed25519 master_public_key (master_signature c) self_object) in
  let? device_object := canonical_device_keys_object c in
  let? _ := map_err (fun _ => MatrixProofVerificationFailed)
    (verify_ed25519 (self_signing_public_key c) (self_signing_signature c) device_object) in
  Ok tt.

Definition verify_for (c : t) (master_public_key expected_device_public_key : bytes)
    : result unit MatrixProofError :=
  let? _ := verify c master_public_key in
  bail_if negb (bool_decide (device_ed25519_key c = expected_device_public_key))
    with MatrixProofVerificationFailed ;;
  Ok tt.

Definition verify_matrix_cross_signing (subject_public_key controller_public_key proof : bytes)
    : bool :=
  if negb (blen subject_public_key =? 32) then false
  else if negb (blen controller_public_key =? 32) then false
  else match decode proof with
       | Ok decoded => is_ok (verify_for decoded subject_public_key controller_public_key)
       | Err _ => false
       end.
End Verify.
End Claim.

(** ** The codec *)

Section Codec.
Import Claim.

Definition text_ok (max : Z) (v : bytes) : Prop :=
  blen v <= max /\ is_ascii v = true /\ existsb needs_escape v = false.
Definition fmt_text (v : bytes) : bytes := to_le_bytes 2 (blen v) ++ v.

Definition texts_ok (c : t) : Prop :=
  text_ok MAX_MATRIX_TEXT_BYTES (user_id c) /\ text_ok MAX_MATRIX_TEXT_BYTES (device_id c) /\
  blen (algorithms c) <= MAX_MATRIX_ALGORITHMS /\
  Forall (text_ok MAX_MATRIX_ALGORITHM_BYTES) (algorithms c).

Definition arrays_ok (c : t) : Prop :=
  array_ok 32 (self_signing_public_key c) /\ array_ok 64 (master_signature c) /\
  array_ok 32 (device_curve25519_key c) /\ array_ok 32 (device_ed25519_key c) /\
  array_ok 64 (self_signing_signature c).

Definition claim_fmt (c : t) : bytes :=
  [x01] ++ fmt_text (user_id c) ++ self_signing_public_key c ++ master_signature c ++
  fmt_text (device_id c) ++ [z2b (blen (algorithms c))] ++ concat (map fmt_text (algorithms c)) ++
  device_curve25519_key c ++ device_ed25519_key c ++ self_signing_signature c.

Lemma put_text_bounded_Ok out v max out' :
  max <= U16_MAX ->
  put_text_bounded out v max = Ok out' <-> text_ok max v /\ out' = out ++ fmt_text v.
Proof.
  intros Hm. unfold put_text_bounded, text_ok. rewrite bail_if_Ok, !orb_false_iff, !Z.gtb_ltb, !Z.ltb_ge,
    negb_false_iff. naive_solver lia.
Qed.

Lemma put_text_eq out v :
  text_ok MAX_MATRIX_TEXT_BYTES v ->
  put_text_bounded out v MAX_MATRIX_TEXT_BYTES = Ok (out ++ fmt_text v).
Proof. intros Hv. by apply put_text_bounded_Ok. Qed.

Lemma put_all_Ok out vs out' :
  rfold (fun out v => put_text_bounded out v MAX_MATRIX_ALGORITHM_BYTES) out vs = Ok out' <->
  Forall (text_ok MAX_MATRIX_ALGORITHM_BYTES) vs /\ out' = out ++ concat (map fmt_text vs).
Proof.
  revert out. induction vs as [|v vs IH]; intros out; simpl.
  - rewrite app_nil_r. naive_solver.
  - rewrite rbind_Ok, Forall_cons. setoid_rewrite IH. split.
    + intros (o & [Hv ->]%put_text_bounded_Ok & Hvs & ->); [|done]. by rewrite <- (assoc_L (++)).
    + intros [[Hv Hvs] ->]. exists (out ++ fmt_text v). rewrite (assoc_L (++)).
      split; [by apply put_text_bounded_Ok|done].
Qed.

Lemma existsb_Forall {A} (p : A -> bool) l : existsb p l = false <-> Forall (fun x => p x = false) l.
Proof. induction l as [|x l IH]; simpl; [done|]. by rewrite orb_false_iff, Forall_cons, IH. Qed.

Lemma encode_Ok c b : encode c = Ok b <-> texts_ok c /\ b = claim_fmt c.
Proof.
  unfold encode, texts_ok. split.
  - intros He. apply bail_if_Ok in He as [Hg He]. cbv zeta in He.
    apply rbind_Ok in He as (o1 & [Hu ->]%put_text_bounded_Ok & He); [|done].
    apply rbind_Ok in He as (o2 & [Hd ->]%put_text_bounded_Ok & He); [|done].
    apply rbind_Ok in He as (o3 & [Ha ->]%put_all_Ok & [= <-]). to_prop.
    unfold claim_fmt. rewrite <- !(assoc_L (++)). done.
  - intros ((Hu & Hd & Hn & Ha) & ->). 
    assert (existsb (fun value => blen value >? MAX_MATRIX_ALGORITHM_BYTES) (algorithms c) = false) as ->.
    { apply existsb_Forall. eapply Forall_impl; [exact Ha|]. intros v [Hv _].
      rewrite Z.gtb_ltb. by apply Z.ltb_ge. }
    assert (existsb (fun value => negb (is_ascii value)) (algorithms c) = false) as ->.
    { apply existsb_Forall. eapply Forall_impl; [exact Ha|]. intros v (_ & Hv & _). simpl. by rewrite Hv. }
    pose proof Hu as (Hu1 & -> & _). pose proof Hd as (Hd1 & -> & _).
    rewrite !Z.gtb_ltb, !(proj2 (Z.ltb_ge _ _)) by done. simpl.
    unfold put_text. rewrite !put_text_eq by done. cbn [rbind]. rewrite put_text_eq by done.
    cbn [rbind]. rewrite (proj2 (put_all_Ok _ _ _) (conj Ha eq_refl)). cbn [rbind]. unfold claim_fmt. rewrite <- !(assoc_L (++)). done.
Qed.

Lemma yields_text max :
  yields (MxRd.text_bounded max) (fun x v => x = fmt_text v /\ text_ok max v).
Proof.
  unfold MxRd.text_bounded. yield_field. intros n x [-> Hn]. yield_field. intros [] y [-> Hg]. to_prop.
  eapply yields_bind; [apply yields_take; lia|]. intros b z [-> Hz]. subst n.
  yield_field. intros [] y [-> Ha]. yield_field. intros [] y [-> He]. apply yields_ret.
  rewrite app_nil_r. to_prop. unfold text_ok. repeat split; done || lia.
Qed.

Lemma parses_text max v :
  max <= U16_MAX -> text_ok max v -> parses (MxRd.text_bounded max) (fmt_text v) v.
Proof.
  intros Hm (Hl & Ha & He). unfold MxRd.text_bounded, fmt_text. pose proof (blen_nonneg v).
  parse_field; [apply parses_field_le; unfold U16_MAX in *; simpl; lia|].
  parse_field; [rewrite Z.gtb_ltb; by apply Z.ltb_ge|].
  rewrite <- (app_nil_r v) at 2. parse_field; [by apply parses_take|].
  parse_field; [by rewrite Ha|]. parse_field; [done|]. apply parses_ret.
Qed.

#[local] Hint Resolve yields_text : yields.
#[local] Hint Extern 2 (yields MxRd.text _) => apply yields_text : yields.
#[local] Hint Extern 2 (yields MxRd.u8 _) => apply yields_field_u8 : yields.
#[local] Hint Extern 2 (yields (MxRd.array _) _) => apply yields_field_array; lia : yields.
#[local] Hint Resolve yields_repeat : yields.

Lemma yields_claim : yields parse (fun x c => x = claim_fmt c /\ texts_ok c /\ arrays_ok c).
Proof.
  unfold parse. yield_field. intros ver x ->. yield_field. intros [] y [-> Hver]. to_prop. subst ver.
  yield_field. intros u x [-> Hu]. yield_field. intros k xk [-> Hk]. yield_field. intros ms xms [-> Hms].
  yield_field. intros d x [-> Hd]. yield_field. intros n x ->. yield_field. intros [] y [-> Hn]. to_prop.
  eapply yields_bind; [apply yields_repeat, yields_text|]. intros algs x (xs & -> & Hxs & Hlen).
  apply concat_map_Forall2 in Hxs as [-> Halgs].
  yield_field. intros cu xcu [-> Hcu]. yield_field. intros ed xed [-> Hed].
  yield_field. intros ss xss [-> Hss]. apply yields_ret.
  assert (blen algs = b2z n) as Hb by (pose proof (b2z_range n); unfold blen; rewrite Hlen; lia).
  unfold claim_fmt, texts_ok, arrays_ok. simpl. rewrite Hb, z2b_b2z, app_nil_r.
  split; [done|]. split; [|done]. by split; [|split; [|split; [lia|]]].
Qed.

Lemma parses_claim c : texts_ok c -> arrays_ok c -> parses parse (claim_fmt c) c.
Proof.
  intros (Hu & Hd & Hn & Ha) (Hk & Hms & Hcu & Hed & Hss). unfold parse, claim_fmt.
  assert (b2z (z2b (blen (algorithms c))) = blen (algorithms c)) as Hb.
  { rewrite b2z_z2b. apply Z.mod_small. unfold MAX_MATRIX_ALGORITHMS in Hn.
    pose proof (blen_nonneg (algorithms c)). lia. }
  parse_field; [apply parses_field_u8|]. parse_field; [done|]. parse_field; [by apply parses_text|].
  do 2 (parse_field; [by apply parses_field_array|]). parse_field; [by apply parses_text|].
  parse_field; [apply parses_field_u8|]. rewrite Hb.
  parse_field; [rewrite Z.gtb_ltb; by apply Z.ltb_ge|].
  parse_field.
  { replace (Z.to_nat (blen (algorithms c))) with (length (algorithms c)) by (unfold blen; lia).
    apply parses_repeat. intros v Hv. apply parses_text; [done|].
    by apply (proj1 (Forall_forall _ _) Ha). }
  do 2 (parse_field; [by apply parses_field_array|]).
  rewrite <- (app_nil_r (self_signing_signature c)). parse_field; [by apply parses_field_array|].
  apply parses_ret'. by destruct c.
Qed.

Lemma claim_slice_ok c : texts_ok c -> arrays_ok c -> slice_ok (claim_fmt c).
Proof.
  intros (Hu & Hd & Hn & Ha) (Hk & Hms & Hcu & Hed & Hss).
  assert (blen (concat (map fmt_text (algorithms c))) <= 130 * blen (algorithms c)) as Hc.
  { clear Hn. induction Ha as [|v vs [Hv _] Ha IH]; [done|]. cbn [map concat].
    rewrite blen_app, blen_cons. unfold fmt_text at 1. rewrite blen_app, blen_to_le_bytes.
    unfold MAX_MATRIX_ALGORITHM_BYTES in Hv. lia. }
  destruct Hu as [Hu _], Hd as [Hd _]. unfold slice_ok, claim_fmt, array_ok in *. unfold fmt_text at 1 2.
  rewrite !blen_app, !blen_to_le_bytes, !blen_cons, Hk, Hms, Hcu, Hed, Hss.
  change (blen (@nil byte)) with 0.
  unfold MAX_MATRIX_TEXT_BYTES, MAX_MATRIX_ALGORITHMS, ISIZE_MAX in *. lia.
Qed.

Lemma claim_decode_iff b c : decode b = Ok c <-> arrays_ok c /\ encode c = Ok b.
Proof.
  rewrite encode_Ok. unfold decode. split.
  - intros Hd. apply (run_exact_yields _ _ _ _ _ yields_claim) in Hd as (-> & Ht & Ha). done.
  - intros (Ha & Ht & ->). apply run_exact_parses; [by apply parses_claim|by apply claim_slice_ok].
Qed.
End Codec.

(** ** The signed objects say what the claim says *)

(** The documented alphabet of the encoding has no quote, and an encoding of a
    32-byte key determines the key. *)
Class Base64Laws `{Base64} : Prop := {
  base64_quote_free : forall b, quote ∉ base64 b;
  base64_inj : forall x y, array_ok 32 x -> array_ok 32 y -> base64 x = base64 y -> x = y
}.

Section Objects.
Definition quote_free (s : bytes) : Prop := quote ∉ s.

Lemma quote_free_app s u : quote_free s -> quote_free u -> quote_free (s ++ u).
Proof. unfold quote_free. intros Hs Hu [|]%elem_of_app; auto. Qed.

Lemma literal_quote_free s : forallb (fun c => negb (bool_decide (c = quote))) s = true -> quote_free s.
Proof.
  unfold quote_free. induction s as [|c s IH]; simpl; [intros _; apply not_elem_of_nil|].
  intros H. to_prop. apply not_elem_of_cons. auto.
Qed.

Lemma text_ok_quote_free max v : text_ok max v -> quote_free v.
Proof.
  intros (_ & _ & He). apply literal_quote_free. revert He.
  induction v as [|c v IH]; simpl; [done|]. unfold needs_escape at 1. intros H. to_prop.
  rewrite IH by done. by rewrite bool_decide_eq_false_2.
Qed.

(** A quoted text ends at its first quote. *)
Lemma quoted_prefix x y s u :
  quote_free x -> quote_free y -> quoted x ++ s = quoted y ++ u -> x = y /\ s = u.
Proof.
  unfold quoted, quote_free. rewrite <- !(assoc_L (++)). intros Hx Hy Heq.
  apply (inj (app _)) in Heq. revert y Hy Heq. induction x as [|c x IH]; intros [|d y] Hy Heq; simpl in *.
  - by injection Heq.
  - injection Heq as Hd _. destruct Hy. rewrite <- Hd. left.
  - injection Heq as Hc _. destruct Hx. rewrite <- Hc. left.
  - injection Heq as -> Heq. apply not_elem_of_cons in Hx as [_ Hx]. apply not_elem_of_cons in Hy as [_ Hy].
    destruct (IH Hx y Hy Heq) as [-> ->]. done.
Qed.

(** The quoted list ends at its closing bracket. *)
Lemma join_quoted_prefix vs ws s u :
  Forall quote_free vs -> Forall quote_free ws ->
  join_quoted vs ++ bstr "]," ++ s = join_quoted ws ++ bstr "]," ++ u -> vs = ws /\ s = u.
Proof.
  intros Hvs. revert ws. induction Hvs as [|v vs Hv Hvs IH]; intros ws Hws Heq.
  - destruct Hws as [|w [|] Hw Hws]; [|done..]. by do 2 apply (inj (app _)) in Heq.
  - destruct Hws as [|w ws Hw Hws]; [by destruct vs|].
    assert (exists r, join_quoted (v :: vs) = quoted v ++ r /\
      r = match vs with [] => [] | _ => bstr "," ++ join_quoted vs end) as (r & Hr' & Hr)
      by (destruct vs; eexists; split; try reflexivity; by rewrite app_nil_r).
    assert (exists q, join_quoted (w :: ws) = quoted w ++ q /\
      q = match ws with [] => [] | _ => bstr "," ++ join_quoted ws end) as (q & Hq' & Hq)
      by (destruct ws; eexists; split; try reflexivity; by rewrite app_nil_r).
    rewrite Hr', Hq', <- !(assoc_L (++)) in Heq. apply quoted_prefix in Heq as [-> Heq]; [|done..].
    subst r q. destruct vs as [|v' vs], ws as [|w' ws]; [by do 2 apply (inj (app _)) in Heq|done..|].
    rewrite <- !(assoc_L (++)) in Heq. apply (inj (app _)) in Heq.
    destruct (IH _ Hws Heq) as [-> ->]. done.
Qed.

Lemma self_object_inj u k u' k' :
  quote_free u -> quote_free k -> quote_free u' -> quote_free k' ->
  format_matrix_self_object u k = format_matrix_self_object u' k' -> u = u' /\ k = k'.
Proof.
  unfold format_matrix_self_object. intros Hu Hk Hu' Hk' Heq. do 3 apply (inj (app _)) in Heq.
  apply quoted_prefix in Heq as [Hkk Heq]; [|by apply quote_free_app; [apply literal_quote_free|]..].
  apply (inj (app _)) in Hkk as ->. do 9 apply (inj (app _)) in Heq.
  apply quoted_prefix in Heq as [-> _]; done.
Qed.

Lemma device_object_inj u d algs cu ed u' d' algs' cu' ed' :
  quote_free u -> quote_free d -> Forall quote_free algs -> quote_free cu -> quote_free ed ->
  quote_free u' -> quote_free d' -> Forall quote_free algs' -> quote_free cu' -> quote_free ed' ->
  format_matrix_device_object u d algs cu ed = format_matrix_device_object u' d' algs' cu' ed' ->
  u = u' /\ d = d' /\ algs = algs' /\ cu = cu' /\ ed = ed'.
Proof.
  unfold format_matrix_device_object. intros Hu Hd Ha Hc He Hu' Hd' Ha' Hc' He' Heq.
  do 3 apply (inj (app _)) in Heq. apply join_quoted_prefix in Heq as [-> Heq]; [|done..].
  do 2 apply (inj (app _)) in Heq. apply quoted_prefix in Heq as [-> Heq]; [|done..].
  do 5 apply (inj (app _)) in Heq. apply quoted_prefix in Heq as [-> Heq]; [|done..].
  do 3 apply (inj (app _)) in Heq. apply quoted_prefix in Heq as [-> Heq]; [|done..].
  do 3 apply (inj (app _)) in Heq. apply quoted_prefix in Heq as [-> _]; done.
Qed.
End Objects.

Section CrossSigning.
Context `{Base64Laws} `{Ed25519Dalek}.

Definition self_object (c : Claim.t) : bytes :=
  format_matrix_self_object (Claim.user_id c) (base64 (Claim.self_signing_public_key c)).
Definition device_object (c : Claim.t) : bytes :=
  format_matrix_device_object (Claim.user_id c) (Claim.device_id c) (Claim.algorithms c)
    (base64 (Claim.device_curve25519_key c)) (base64 (Claim.device_ed25519_key c)).

Lemma device_keys_object_Ok c :
  texts_ok c -> Claim.canonical_device_keys_object c = Ok (device_object c).
Proof.
  intros ((_ & Hu & _) & (_ & Hd & _) & _ & Ha). unfold Claim.canonical_device_keys_object.
  rewrite Hu, Hd. cbn [negb orb].
  assert (existsb (fun value => negb (is_ascii value)) (Claim.algorithms c) = false) as ->; [|done].
  apply existsb_Forall. eapply Forall_impl; [exact Ha|]. intros v (_ & Hv & _). simpl. by rewrite Hv.
Qed.

Lemma verify_for_Ok c master device :
  texts_ok c ->
  is_ok (Claim.verify_for c master device) = true <->
  is_ok (verify_ed25519 master (Claim.master_signature c) (self_object c)) = true /\
  is_ok (verify_ed25519 (Claim.self_signing_public_key c) (Claim.self_signing_signature c)
           (device_object c)) = true /\
  Claim.device_ed25519_key c = device.
Proof.
  intros Ht. unfold Claim.verify_for, Claim.verify. rewrite device_keys_object_Ok by done.
  unfold Claim.canonical_self_signing_object. cbn [rbind]. fold (self_object c).
  destruct (verify_ed25519 master _ _) as [?|?]; simpl; [|naive_solver].
  destruct (verify_ed25519 (Claim.self_signing_public_key c) _ _) as [?|?]; simpl; [|naive_solver].
  case_bool_decide; simpl; naive_solver.
Qed.

Lemma claim_quote_free c :
  texts_ok c ->
  quote_free (Claim.user_id c) /\ quote_free (Claim.device_id c) /\
  Forall quote_free (Claim.algorithms c).
Proof.
  intros (Hu & Hd & _ & Ha).
  split; [by eapply text_ok_quote_free|]. split; [by eapply text_ok_quote_free|].
  eapply Forall_impl; [exact Ha|]. intros v Hv. by eapply text_ok_quote_free.
Qed.

Lemma objects_determine c c' :
  texts_ok c -> arrays_ok c -> texts_ok c' -> arrays_ok c' ->
  (self_object c' = self_object c ->
   Claim.user_id c' = Claim.user_id c /\
   Claim.self_signing_public_key c' = Claim.self_signing_public_key c) /\
  (device_object c' = device_object c ->
   Claim.user_id c' = Claim.user_id c /\ Claim.device_id c' = Claim.device_id c /\
   Claim.algorithms c' = Claim.algorithms c /\
   Claim.device_curve25519_key c' = Claim.device_curve25519_key c /\
   Claim.device_ed25519_key c' = Claim.device_ed25519_key c).
Proof.
  intros (Hu & Hd & Ha)%claim_quote_free (Hk & _ & Hc & He & _)
    (Hu' & Hd' & Ha')%claim_quote_free (Hk' & _ & Hc' & He' & _).
  split; intros Heq.
  - destruct (self_object_inj _ _ _ _ Hu' (base64_quote_free _) Hu (base64_quote_free _) Heq)
      as [E1 E2%base64_inj]; auto.
  - destruct (device_object_inj _ _ _ _ _ _ _ _ _ _ Hu' Hd' Ha' (base64_quote_free _)
      (base64_quote_free _) Hu Hd Ha (base64_quote_free _) (base64_quote_free _) Heq)
      as (E1 & E2 & E3 & E4%base64_inj & E5%base64_inj); auto.
Qed.
End CrossSigning.

(** Matrix claims have one encoding: the decoder accepts exactly the
    encodings of claims with 32-byte keys and 64-byte signatures, and the
    encoder accepts exactly the claims whose texts are printable ASCII without
    quotes or backslashes and within their limits. *)
Theorem matrix_claim_exact b c :
  (Claim.decode b = Ok c <-> arrays_ok c /\ Claim.encode c = Ok b) /\
  (texts_ok c <-> exists e, Claim.encode c = Ok e).
Proof.
  split; [apply claim_decode_iff|]. split.
  - intros Ht. exists (claim_fmt c). by apply encode_Ok.
  - by intros (e & [Ht _]%encode_Ok).
Qed.

(** C40: Matrix cross-signing is checked as claimed. A proof is accepted for a
    master and a device key exactly when it decodes to a claim in which the
    master key signed the self-signing object and that self-signing key signed
    the device object of the same user that names the device key; and the
    signed objects are unambiguous: no other decodable claim has the same
    self-signing object with another user or key, or the same device object
    with another user, device, algorithm list or key. *)
Theorem matrix_cross_signing_exact `{Base64Laws} `{Ed25519Dalek} master device proof :
  Claim.verify_matrix_cross_signing master device proof = true <->
  array_ok 32 master /\ array_ok 32 device /\
  exists c, Claim.decode proof = Ok c /\ Claim.device_ed25519_key c = device /\
    is_ok (verify_ed25519 master (Claim.master_signature c) (self_object c)) = true /\
    is_ok (verify_ed25519 (Claim.self_signing_public_key c) (Claim.self_signing_signature c)
             (device_object c)) = true /\
    (forall proof' c', Claim.decode proof' = Ok c' ->
       (self_object c' = self_object c ->
        Claim.user_id c' = Claim.user_id c /\
        Claim.self_signing_public_key c' = Claim.self_signing_public_key c) /\
       (device_object c' = device_object c ->
        Claim.user_id c' = Claim.user_id c /\ Claim.device_id c' = Claim.device_id c /\
        Claim.algorithms c' = Claim.algorithms c /\
        Claim.device_curve25519_key c' = Claim.device_curve25519_key c /\
        Claim.device_ed25519_key c' = Claim.device_ed25519_key c)).
Proof.
  unfold Claim.verify_matrix_cross_signing, array_ok.
  destruct (Z.eqb_spec (blen master) 32) as [Hm|Hm]; simpl; [|naive_solver].
  destruct (Z.eqb_spec (blen device) 32) as [Hd|Hd]; simpl; [|naive_solver].
  destruct (Claim.decode proof) as [c|e] eqn:Hdec; [|naive_solver].
  pose proof Hdec as [Ha [Ht _]%encode_Ok]%claim_decode_iff. rewrite verify_for_Ok by done. split.
  - intros (Hs & Hs' & Hk). split; [done|]. split; [done|]. exists c. do 4 (split; [done|]).
    intros proof' c' [Ha' [Ht' _]%encode_Ok]%claim_decode_iff. by apply objects_determine.
  - intros (_ & _ & c' & [= <-] & Hk & Hs & Hs' & _). done.
Qed.

(** ** A concrete encoding and a concrete claim *)

Module ToyMatrix.
  (** Two letters per byte. *)
Definition letters (b : byte) : bytes := [z2b (65 + b2z b / 16); z2b (65 + b2z b mod 16)].
#[global] Instance base64_letters : Base64 := fun b => concat (map letters b).

Lemma letter_z n : 0 <= n < 16 -> b2z (z2b (65 + n)) = 65 + n.
Proof. intros Hn. rewrite b2z_z2b. apply Z.mod_small. lia. Qed.

Lemma nibbles b : 0 <= b2z b / 16 < 16 /\ 0 <= b2z b mod 16 < 16.
Proof.
  pose proof (b2z_range b). split; [|by apply Z.mod_pos_bound].
  split; [apply Z.div_pos; lia|apply Z.div_lt_upper_bound; lia].
Qed.

#[global] Instance base64_letters_laws : Base64Laws.
Proof.
  split.
  - intros b. unfold base64, base64_letters. induction b as [|c b IH]; [apply not_elem_of_nil|].
    destruct (nibbles c) as [H1 H2]. cbn [map concat letters app].
    assert (forall n, 0 <= n < 16 -> quote <> z2b (65 + n)) as Hq.
    { intros n Hn Heq. apply (f_equal b2z) in Heq. rewrite letter_z in Heq by done.
      change (b2z quote) with 34 in Heq. lia. }
    apply not_elem_of_cons. split; [by apply Hq|]. apply not_elem_of_cons. split; [by apply Hq|done].
  - unfold base64, base64_letters. intros x y _ _. revert y.
    induction x as [|c x IH]; intros [|d y]; [done..|]. cbn [map concat letters app].
    intros [= E1 E2 E3]. destruct (nibbles c), (nibbles d).
    apply (f_equal b2z) in E1, E2. rewrite !letter_z in E1, E2 by done.
    f_equal; [|by apply IH]. apply b2z_inj.
    rewrite (Z.div_mod (b2z c) 16), (Z.div_mod (b2z d) 16) by lia. lia.
Qed.

(** Signatures of [m] under [key]: the key and a checksum of the message. *)
Definition sign (key m : bytes) : bytes := take 64 (key ++ rev m ++ repeat x00 64).
#[global] Instance dalek : Ed25519Dalek := {|
  ed_key := bytes;
  ed_key_from_bytes b := Some b;
  ed_signature := bytes;
  ed_signature_from_slice b := if blen b =? 64 then Some b else None;
  ed_verify k m s := bool_decide (s = sign k m)
|}.

Definition master : bytes := repeat x01 32.
Definition self_key : bytes := repeat x02 32.
Definition device : bytes := repeat x03 32.
Definition with_signatures (s1 s2 : bytes) : Claim.t :=
  Claim.mk (bstr "@a:b") self_key s1 (bstr "DEV") [bstr "m.olm"; bstr "m.megolm"] (repeat x04 32) device s2.
Definition claim : Claim.t :=
  let c := with_signatures [] [] in
  with_signatures (sign master (self_object c)) (sign self_key (device_object c)).
Definition proof : bytes := match Claim.encode claim with Ok b => b | Err _ => [] end.
End ToyMatrix.

Lemma matrix_cross_signing_exact_witness :
  Claim.verify_matrix_cross_signing ToyMatrix.master ToyMatrix.device ToyMatrix.proof = true /\
  exists c, Claim.decode ToyMatrix.proof = Ok c /\ Claim.device_ed25519_key c = ToyMatrix.device.
Proof.
  assert (Claim.verify_matrix_cross_signing ToyMatrix.master ToyMatrix.device ToyMatrix.proof = true) as Hv
    by (vm_compute; reflexivity).
  split; [exact Hv|].
  destruct (proj1 (matrix_cross_signing_exact _ _ _) Hv) as (_ & _ & c & Hd & Hk & _).
  exists c. split; [exact Hd|exact Hk].
Defined.
