(* ===== verification/Types.v ===== *)
(** * [jamscript-ir]: the ABI types and their maximal encoded length *)

From S2P Require Import Prelude Ordering Reader Wire.

(** [FieldIr] and [VariantIr], over the type of their payload. *)
Record FieldIr (T : Type) := mkField { f_name : bytes; f_ty : T }.
Arguments mkField {T} f_name f_ty.
Arguments f_name {T} _.
Arguments f_ty {T} _.

Record VariantIr (T : Type) := mkVariant { v_name : bytes; v_index : byte; v_ty : T }.
Arguments mkVariant {T} v_name v_index v_ty.
Arguments v_name {T} _.
Arguments v_index {T} _.
Arguments v_ty {T} _.

Inductive TypeIr :=
| TUnit | TU8 | TU16 | TU64 | TU32 | TU128 | TI8 | TI16 | TI32 | TI64 | TI128
| TBool | TAddress | TOwnership
| TFixedBytes (len : Z)
| TBytes (max : Z)
| TString (max : Z)
| TFixedArray (item : TypeIr) (len : Z)
| TArray (item : TypeIr) (max : Z)
| TOption (item : TypeIr)
| TTuple (items : list TypeIr)
| TRecord (fields : list (FieldIr TypeIr))
| TEnum (variants : list (VariantIr TypeIr))
| TResult (ok err : TypeIr)
| TUnsupported (name : bytes).

(** Induction over a type and, through the lists, the types it is built from. *)
Section TypeInd.
Context (P : TypeIr -> Prop).
Context (Hleaf : forall t, match t with
  | TFixedArray _ _ | TArray _ _ | TOption _ | TTuple _ | TRecord _ | TEnum _ | TResult _ _ => True
  | _ => P t end).
Context (Hfixed : forall item len, P item -> P (TFixedArray item len)).
Context (Harray : forall item max, P item -> P (TArray item max)).
Context (Hoption : forall item, P item -> P (TOption item)).
Context (Htuple : forall items, Forall P items -> P (TTuple items)).
Context (Hrecord : forall fields, Forall (fun f => P (f_ty f)) fields -> P (TRecord fields)).
Context (Henum : forall variants, Forall (fun v => P (v_ty v)) variants -> P (TEnum variants)).
Context (Hresult : forall ok err, P ok -> P err -> P (TResult ok err)).

Fixpoint type_ind (t : TypeIr) : P t :=
  match t with
  | TFixedArray item len => Hfixed item len (type_ind item)
  | TArray item max => Harray item max (type_ind item)
  | TOption item => Hoption item (type_ind item)
  | TTuple items =>
      Htuple items ((fix go l : Forall P l :=
        match l with
        | [] => Forall_nil_2 _
        | t :: l' => Forall_cons_2 _ _ _ (type_ind t) (go l')
        end) items)
  | TRecord fields =>
      Hrecord fields ((fix go l : Forall (fun f => P (f_ty f)) l :=
        match l with
        | [] => Forall_nil_2 _
        | mkField n t :: l' => Forall_cons_2 (fun f => P (f_ty f)) (mkField n t) _ (type_ind t) (go l')
        end) fields)
  | TEnum variants =>
      Henum variants ((fix go l : Forall (fun v => P (v_ty v)) l :=
        match l with
        | [] => Forall_nil_2 _
        | mkVariant n i t :: l' =>
            Forall_cons_2 (fun v => P (v_ty v)) (mkVariant n i t) _ (type_ind t) (go l')
        end) variants)
  | TResult ok err => Hresult ok err (type_ind ok) (type_ind err)
  | t => Hleaf t
  end.
End TypeInd.

(** ** [TypeIr::max_encoded_len] *)

(** The two errors, and the arithmetic overflow of the two additions that are
    not checked (a panic where overflow checks are on). *)
Inductive LenError := LenOverflow | LenUnsupported | LenPanic.

Definition len_add (left right : Z) : result Z LenError := ok_or (checked_add USIZE_MAX left right) LenOverflow.
Definition len_mul (left right : Z) : result Z LenError := ok_or (checked_mul USIZE_MAX left right) LenOverflow.
(** [1 + x] on [usize]. *)
Definition plain_succ (x : Z) : result Z LenError := ok_or (checked_add USIZE_MAX 1 x) LenPanic.

(** [64 - value.leading_zeros()] for a [u64]. *)
Definition bit_length (value : Z) : Z := if value =? 0 then 0 else Z.log2 value + 1.

(** [compact_len] of a [u128]: above [u64] the two halves are counted, each of
    them a [u64]. *)
Definition compact_len_u64 (value : Z) : Z :=
  if value <? Z.shiftl 1 56 then 1 + (if value =? 0 then 0 else (bit_length value - 1) / 7) else 9.
Definition compact_len (value : Z) : Z :=
  if value <=? U64_MAX then compact_len_u64 value
  else compact_len_u64 (Z.land value U64_MAX) + compact_len_u64 (Z.shiftr value 64).

(** The folds over the parts of a composite type. *)
Definition sum_len {A} (len : A -> result Z LenError) :=
  fix go (total : Z) (parts : list A) : result Z LenError :=
    match parts with
    | [] => Ok total
    | part :: rest =>
        let? n := len part in
        let? total := len_add total n in
        go total rest
    end.

Definition largest_variant (len : TypeIr -> result Z LenError) :=
  fix go (max : Z) (variants : list (VariantIr TypeIr)) : result Z LenError :=
    match variants with
    | [] => Ok max
    | mkVariant _ _ t :: rest =>
        let? n := len t in
        let? one := plain_succ n in
        go (Z.max max one) rest
    end.

Fixpoint max_encoded_len (ty : TypeIr) : result Z LenError :=
  match ty with
  | TUnit => Ok 0
  | TU8 | TI8 | TBool => Ok 1
  | TU16 | TI16 => Ok 2
  | TU32 | TI32 => Ok 4
  | TU64 | TI64 => Ok 8
  | TU128 | TI128 => Ok 16
  | TAddress => Ok 32
  | TOwnership => Ok 4096
  | TFixedBytes len => Ok len
  | TBytes max | TString max => len_add (compact_len max) max
  | TFixedArray item len => let? n := max_encoded_len item in len_mul n len
  | TArray item max =>
      let? n := max_encoded_len item in
      let? body := len_mul n max in
      len_add (compact_len max) body
  | TOption item => let? n := max_encoded_len item in len_add 1 n
  | TTuple items => sum_len max_encoded_len 0 items
  | TRecord fields => sum_len (fun field => max_encoded_len (f_ty field)) 0 fields
  | TEnum variants => largest_variant max_encoded_len 1 variants
  | TResult ok err =>
      let? a := max_encoded_len ok in
      let? b := max_encoded_len err in
      plain_succ (Z.max a b)
  | TUnsupported _ => Err LenUnsupported
  end.
