(* ===== verification/Natural.v ===== *)
(** * [jamscript-codec]: the general natural encoding

    A [u64] is one byte below [2^7]; with [e] extra bytes, [e] leading ones in
    the first byte announce them and its low bits carry the top of the value;
    from [2^56] on the first byte is [0xff] and eight bytes follow. *)

From S2P Require Import Prelude Ordering Reader Wire Fields Types.

Inductive CodecError :=
| TypeMismatch (what : bytes)
| CdUnexpectedEof
| TrailingBytes
| InvalidBool
| InvalidUtf8
| InvalidVariant
| CdInvalidLength
| OutOfRange
| BoundExceeded
| UnsupportedType.

Definition encode_natural_u64 (value : Z) : bytes :=
  if value <? Z.shiftl 1 7 then [z2b value]
  else if value <? Z.shiftl 1 56 then
    let extra := (bit_length value - 1) / 7 in
    [z2b (Z.lor (256 - Z.shiftl 1 (8 - extra)) (Z.shiftr value (8 * extra)))]
      ++ b_slice (to_le_bytes 8 value) 0 extra
  else [xff] ++ to_le_bytes 8 value.

Definition encode_natural (value : Z) : bytes := encode_natural_u64 value.

(** [u8::leading_ones]. *)
Fixpoint ones_below (n : nat) (z : Z) : Z :=
  match n with
  | O => 0
  | S n' => if Z.testbit z (Z.of_nat n') then 1 + ones_below n' z else 0
  end.
Definition leading_ones (b : byte) : Z := ones_below 8 (b2z b).

Module CdRd.
Definition take : Z -> parser CodecError bytes := take_with CdInvalidLength CdUnexpectedEof.
Definition u8 : parser CodecError byte := b ← take 1; mret (b_at b 0).
Definition natural : parser CodecError Z :=
  first ← u8;
  if b2z first <? 128 then mret (b2z first)
  else
    let extra := leading_ones first in
    if extra =? 8 then b ← take 8; mret (from_le_bytes b)
    else
      low ← take extra;
      mret (Z.lor (from_le_bytes low)
              (Z.shiftl (Z.land (b2z first) (Z.shiftr 127 extra)) (8 * extra))).
End CdRd.

(** ** Bits *)

Lemma lor_shiftl_add a b n : 0 <= n -> 0 <= a < 2 ^ n -> Z.lor a (Z.shiftl b n) = a + b * 2 ^ n.
Proof.
  intros Hn Ha. rewrite <- Z.shiftl_mul_pow2 by done.
  rewrite Z.add_nocarry_lxor; [symmetry; apply Z.lxor_lor|]; apply Z.bits_inj'; intros i Hi;
    rewrite Z.land_spec, Z.bits_0, Z.shiftl_spec by done.
  all: destruct (Z.lt_ge_cases i n); [by rewrite (Z.testbit_neg_r b), andb_false_r by lia|].
  all: rewrite <- (Z.mod_small a (2 ^ n)) by done; by rewrite Z.mod_pow2_bits_high.
Qed.

(** The first byte of an encoding with [e] extra bytes and top bits [hi]. *)
Definition first_byte (e hi : Z) : byte := z2b (Z.lor (256 - Z.shiftl 1 (8 - e)) hi).

Definition first_byte_ok (e hi : Z) : bool :=
  (128 <=? b2z (first_byte e hi)) && (leading_ones (first_byte e hi) =? e)
  && (Z.land (b2z (first_byte e hi)) (Z.shiftr 127 e) =? hi).

Lemma first_bytes_ok :
  forallb (fun e => forallb (fun hi =>
    first_byte_ok (Z.of_nat e) (Z.of_nat hi)) (seq 0 (2 ^ (7 - e)))) (seq 1 7) = true.
Proof. vm_compute. reflexivity. Qed.

Lemma first_byte_spec e hi :
  1 <= e <= 7 -> 0 <= hi < 2 ^ (7 - e) ->
  128 <= b2z (first_byte e hi) /\ leading_ones (first_byte e hi) = e /\
  Z.land (b2z (first_byte e hi)) (Z.shiftr 127 e) = hi.
Proof.
  intros He Hhi. pose proof first_bytes_ok as H. rewrite forallb_forall in H.
  specialize (H (Z.to_nat e)). rewrite forallb_forall in H.
  assert (first_byte_ok e hi = true) as Hok.
  { rewrite <- (Z2Nat.id e), <- (Z2Nat.id hi) by lia. apply H.
    - apply in_seq. lia.
    - apply in_seq. split; [lia|]. simpl. apply Nat2Z.inj_lt. rewrite Nat2Z.inj_pow.
      rewrite Z2Nat.id by lia. replace (Z.of_nat (7 - Z.to_nat e)) with (7 - e) by lia. simpl. lia. }
  unfold first_byte_ok in Hok. to_prop. auto.
Qed.

(** Every first byte with a leading one is such a byte, or [0xff]. *)
Lemma first_byte_cover b :
  128 <= b2z b -> leading_ones b = 8 /\ b = xff \/
  exists e hi, 1 <= e <= 7 /\ 0 <= hi < 2 ^ (7 - e) /\ b = first_byte e hi.
Proof.
  assert (forallb (fun n => let b := z2b (Z.of_nat n) in
    bool_decide (b = xff) && (leading_ones b =? 8)
    || (let e := leading_ones b in let hi := Z.land (b2z b) (Z.shiftr 127 e) in
        (1 <=? e) && (e <=? 7) && (0 <=? hi) && (hi <? 2 ^ (7 - e)) && bool_decide (b = first_byte e hi)))
    (seq 128 128) = true) as H by (vm_compute; reflexivity).
  intros Hb. pose proof (b2z_range b). rewrite forallb_forall in H.
  specialize (H (Z.to_nat (b2z b))). cbv zeta in H. rewrite Z2Nat.id, z2b_b2z in H by lia.
  assert (In (Z.to_nat (b2z b)) (seq 128 128)) as Hin by (apply in_seq; lia).
  specialize (H Hin). apply orb_true_iff in H as [H|H]; to_prop; [left; done|right].
  exists (leading_ones b), (Z.land (b2z b) (Z.shiftr 127 (leading_ones b))). done.
Qed.

(** ** Encoding and reading *)

Lemma to_le_bytes_slice n e v :
  0 <= e <= Z.of_nat n -> b_slice (to_le_bytes n v) 0 e = to_le_bytes (Z.to_nat e) v.
Proof.
  intros He. unfold b_slice. rewrite Z.sub_0_r. change (Z.to_nat 0) with 0%nat. rewrite drop_0.
  assert (Z.to_nat e <= n)%nat as Hle by lia. revert v Hle. generalize (Z.to_nat e) as k.
  clear He. induction n as [|n IH]; intros k v Hk.
  - by replace k with 0%nat by lia.
  - destruct k as [|k]; [done|]. transitivity (z2b v :: take k (to_le_bytes n (v / 256))); [done|].
    rewrite IH by lia. done.
Qed.

(** The form of an encoding with extra bytes. *)
Definition extra_of (v : Z) : Z := Z.log2 v / 7.

Lemma extra_range v : 2 ^ 7 <= v < 2 ^ 56 -> 1 <= extra_of v <= 7 /\ 0 <= v / 2 ^ (8 * extra_of v) < 2 ^ (7 - extra_of v).
Proof.
  intros Hv. unfold extra_of. assert (7 <= Z.log2 v < 56) as Hl.
  { split; [apply Z.log2_le_pow2; lia|apply Z.log2_lt_pow2; lia]. }
  pose proof (Z.div_mod (Z.log2 v) 7 ltac:(lia)). pose proof (Z.mod_pos_bound (Z.log2 v) 7 ltac:(lia)).
  set (e := Z.log2 v / 7) in *. split; [lia|].
  assert (0 < 2 ^ (8 * e)) by (apply Z.pow_pos_nonneg; lia). split; [apply Z.div_pos; lia|].
  apply Z.div_lt_upper_bound; [done|]. rewrite <- Z.pow_add_r by lia.
  replace (8 * e + (7 - e)) with (7 * e + 7) by lia.
  pose proof (Z.log2_spec v ltac:(lia)) as [_ Hs].
  eapply Z.lt_le_trans; [exact Hs|]. apply Z.pow_le_mono_r; lia.
Qed.

Lemma encode_natural_extra v :
  2 ^ 7 <= v < 2 ^ 56 ->
  encode_natural v = first_byte (extra_of v) (v / 2 ^ (8 * extra_of v)) :: to_le_bytes (Z.to_nat (extra_of v)) v.
Proof.
  intros Hv. destruct (extra_range v Hv) as [He _]. unfold encode_natural, encode_natural_u64.
  rewrite !Z.shiftl_mul_pow2 by lia.
  rewrite (proj2 (Z.ltb_ge _ _)), (proj2 (Z.ltb_lt _ _)) by lia.
  unfold bit_length. rewrite (proj2 (Z.eqb_neq _ _)) by lia. rewrite Z.add_simpl_r.
  fold (extra_of v). rewrite Z.shiftr_div_pow2 by lia. rewrite to_le_bytes_slice by lia. done.
Qed.

Lemma encode_natural_small v : v < 2 ^ 7 -> encode_natural v = [z2b v].
Proof.
  intros Hv. unfold encode_natural, encode_natural_u64. rewrite Z.shiftl_mul_pow2 by lia.
  by rewrite (proj2 (Z.ltb_lt _ _)) by lia.
Qed.

Lemma encode_natural_big v : 2 ^ 56 <= v -> encode_natural v = [xff] ++ to_le_bytes 8 v.
Proof.
  intros Hv. unfold encode_natural, encode_natural_u64. rewrite !Z.shiftl_mul_pow2 by lia.
  rewrite !(proj2 (Z.ltb_ge _ _)) by lia. done.
Qed.

Lemma encode_natural_length v :
  0 <= v -> blen (encode_natural v) = if v <? 2 ^ 56 then 1 + (if v <? 2 ^ 7 then 0 else extra_of v) else 9.
Proof.
  intros Hv. destruct (Z.ltb_spec v (2 ^ 56)); [destruct (Z.ltb_spec v (2 ^ 7))|].
  - by rewrite encode_natural_small.
  - rewrite encode_natural_extra by lia. rewrite blen_cons, blen_to_le_bytes.
    destruct (extra_range v) as [? _]; [lia|]. lia.
  - by rewrite encode_natural_big.
Qed.

Lemma parses_cd_u8 b : parses CdRd.u8 [b] b.
Proof.
  unfold CdRd.u8. change [b] with ([b] ++ []). eapply parses_bind; [by apply parses_take|].
  by apply parses_ret'.
Qed.

Lemma yields_cd_u8 : yields CdRd.u8 (fun x v => x = [v]).
Proof.
  unfold CdRd.u8. eapply yields_bind; [by apply yields_take|]. intros v x [-> Hx].
  apply yields_ret. rewrite app_nil_r. by apply blen_1_inv in Hx as [c ->].
Qed.

Lemma natural_extra_value e low hi :
  0 <= e -> blen low = e ->
  Z.lor (from_le_bytes low) (Z.shiftl hi (8 * e)) = from_le_bytes low + hi * 2 ^ (8 * e).
Proof.
  intros He Hl. apply lor_shiftl_add; [lia|]. pose proof (from_le_bytes_range low) as Hr.
  rewrite Hl in Hr. change 256 with (2 ^ 8) in Hr. by rewrite <- Z.pow_mul_r in Hr by lia.
Qed.

Lemma parses_natural v : u64_ok v -> parses CdRd.natural (encode_natural v) v.
Proof.
  unfold u64_ok, U64_MAX. intros Hv. unfold CdRd.natural.
  destruct (Z.lt_ge_cases v (2 ^ 7)) as [Hs|Hs]; [|destruct (Z.lt_ge_cases v (2 ^ 56)) as [Hm|Hb]].
  - rewrite encode_natural_small by done. eapply (parses_bind _ _ [_] []); [apply parses_cd_u8|].
    rewrite b2z_z2b, Z.mod_small by lia. rewrite (proj2 (Z.ltb_lt _ _)) by lia. apply parses_ret.
  - rewrite encode_natural_extra by lia. destruct (extra_range v) as [He Hhi]; [lia|].
    destruct (first_byte_spec _ _ He Hhi) as (H1 & H2 & H3).
    eapply (parses_bind _ _ [_]); [apply parses_cd_u8|]. rewrite (proj2 (Z.ltb_ge _ _)) by lia. cbv zeta.
    rewrite H2, H3. rewrite (proj2 (Z.eqb_neq _ _)) by lia.
    rewrite <- (app_nil_r (to_le_bytes _ _)).
    eapply parses_bind; [apply parses_take; rewrite blen_to_le_bytes; lia|]. apply parses_ret'.
    rewrite natural_extra_value by (rewrite ?blen_to_le_bytes; lia).
    rewrite from_to_le_bytes, Z2Nat.id by lia. change 256 with (2 ^ 8). rewrite <- Z.pow_mul_r by lia.
    pose proof (Z.div_mod v (2 ^ (8 * extra_of v))) as Hdm. 
    assert (2 ^ (8 * extra_of v) <> 0) by (apply Z.pow_nonzero; lia). lia.
  - rewrite encode_natural_big by done. eapply parses_bind; [apply parses_cd_u8|].
    simpl. rewrite <- (app_nil_r (to_le_bytes 8 v)).
    eapply parses_bind; [by apply parses_take|]. apply parses_ret'. by apply from_to_u64.
Qed.

(** What the reader accepts for a value is never shorter than its encoding. *)
Lemma yields_natural :
  yields CdRd.natural (fun x v => u64_ok v /\ blen (encode_natural v) <= blen x).
Proof.
  unfold CdRd.natural. eapply yields_bind; [apply yields_cd_u8|]. intros first x ->.
  pose proof (b2z_range first) as Hf. destruct (Z.ltb_spec (b2z first) 128) as [Hs|Hs].
  { apply yields_ret. rewrite encode_natural_small by (simpl; lia). unfold u64_ok, U64_MAX. split; [lia|done]. }
  cbv zeta. destruct (first_byte_cover first Hs) as [[H8 ->]|(e & hi & He & Hhi & ->)].
  - rewrite H8. simpl. eapply yields_bind; [by apply yields_take|]. intros v y [-> Hy].
    apply yields_ret. rewrite app_nil_r. pose proof (from_le_bytes_range y) as Hr. rewrite Hy in Hr.
    split; [unfold u64_ok, U64_MAX; simpl in Hr; lia|]. rewrite encode_natural_length by lia.
    rewrite blen_cons, Hy. destruct (Z.ltb_spec (from_le_bytes y) (2 ^ 56)); [|lia].
    destruct (Z.ltb_spec (from_le_bytes y) (2 ^ 7)); [lia|].
    destruct (extra_range (from_le_bytes y)) as [? _]; lia.
  - destruct (first_byte_spec e hi He Hhi) as (_ & -> & ->). rewrite (proj2 (Z.eqb_neq _ _)) by lia.
    eapply yields_bind; [apply yields_take; lia|]. intros low y [-> Hy]. apply yields_ret.
    rewrite app_nil_r, natural_extra_value by lia.
    pose proof (from_le_bytes_range y) as Hr. rewrite Hy in Hr. change 256 with (2 ^ 8) in Hr.
    rewrite <- Z.pow_mul_r in Hr by lia.
    set (v := from_le_bytes y + hi * 2 ^ (8 * e)).
    assert (0 <= v < 2 ^ (7 * e + 7)) as Hv.
    { replace (7 * e + 7) with ((7 - e) + 8 * e) by lia. rewrite Z.pow_add_r by lia.
      assert (hi + 1 <= 2 ^ (7 - e)) by lia. subst v. nia. }
    assert (v < 2 ^ 56) as Hv56.
    { eapply Z.lt_le_trans; [apply Hv|]. apply Z.pow_le_mono_r; lia. }
    split; [unfold u64_ok, U64_MAX; lia|]. rewrite encode_natural_length by lia.
    rewrite (proj2 (Z.ltb_lt _ _)) by done. assert (blen ([first_byte e hi] ++ y) = 1 + e) as -> by (by rewrite blen_app, Hy).
    destruct (Z.ltb_spec v (2 ^ 7)); [lia|]. unfold extra_of.
    assert (Z.log2 v < 7 * e + 7) by (apply Z.log2_lt_pow2; lia).
    assert (Z.log2 v / 7 < e + 1) by (apply Z.div_lt_upper_bound; lia). lia.
Qed.

(** The general natural encoding of a [u64] is read back, whatever follows
    it, and it is the shortest text the reader takes for that value. It is not
    the only one: [80 00] is read as zero too. *)
Theorem natural_shortest v (Hv : u64_ok v) :
  (forall post, slice_ok (encode_natural v ++ post) ->
     CdRd.natural (reader_new (encode_natural v ++ post)) = Ok (v, at_ (encode_natural v) post)) /\
  (forall b r, CdRd.natural (reader_new b) = Ok (v, r) ->
     exists x post, b = x ++ post /\ r = at_ x post /\ blen (encode_natural v) <= blen x) /\
  blen (encode_natural v) <= 9 /\
  CdRd.natural (reader_new [x80; x00]) = Ok (0, at_ [x80; x00] []).
Proof.
  split_and!.
  - intros post Hp. by apply (parses_natural v Hv [] post).
  - intros b r Hr. change (reader_new b) with (at_ [] b) in Hr.
    apply yields_natural in Hr as (x & post & -> & -> & _ & Hl). by exists x, post.
  - unfold u64_ok in Hv. rewrite encode_natural_length by lia. destruct (Z.ltb_spec v (2 ^ 56)); [|lia].
    destruct (Z.ltb_spec v (2 ^ 7)); [lia|]. destruct (extra_range v) as [? _]; lia.
  - vm_compute. reflexivity.
Qed.

Lemma natural_shortest_witness :
  encode_natural 300 = [x81; x2c] /\
  CdRd.natural (reader_new ([x81; x2c] ++ [xff])) = Ok (300, at_ [x81; x2c] [xff]).
Proof.
  assert (u64_ok 300) as Hv by (unfold u64_ok, U64_MAX; lia).
  split; [vm_compute; reflexivity|].
  apply (proj1 (natural_shortest 300 Hv) [xff]). vm_compute. discriminate.
Defined.
