(* ===== verification/Codec.v ===== *)
(** * [jamscript-codec]: values against their ABI types

    [Value], [encode] and [decode] for every type, proved inverse to each other
    and within the length [Types.max_encoded_len] computes. *)

From S2P Require Import Prelude Ordering Reader Wire Fields StateDiff Ownership Types Natural.

(** A Rust [String] is its UTF-8 bytes; [Box] is transparent. *)
Inductive Value :=
| VUnit
| VBool (b : bool)
| VUnsigned (z : Z)
| VSigned (z : Z)
| VBytes (b : bytes)
| VOwnership (o : Ownership.t)
| VString (s : bytes)
| VArray (vs : list Value)
| VTuple (vs : list Value)
| VRecord (fs : list (FieldIr Value))
| VOption (v : option Value)
| VEnum (index : byte) (v : Value)
| VResult (v : Value + Value).

(** [String::from_utf8]: well-formed UTF-8 (no overlong forms, no surrogates,
    nothing above U+10FFFF). *)
Definition is_cont (c : byte) : bool := (128 <=? b2z c) && (b2z c <=? 191).
Definition between (lo hi : Z) (c : byte) : bool := (lo <=? b2z c) && (b2z c <=? hi).
Fixpoint utf8_valid (s : bytes) : bool :=
  match s with
  | [] => true
  | c :: s1 =>
      if b2z c <? 128 then utf8_valid s1
      else if between 194 223 c then
        match s1 with d :: s2 => is_cont d && utf8_valid s2 | _ => false end
      else if between 224 239 c then
        match s1 with
        | d :: e :: s3 =>
            (if b2z c =? 224 then between 160 191 d
             else if b2z c =? 237 then between 128 159 d else is_cont d)
            && is_cont e && utf8_valid s3
        | _ => false
        end
      else if between 240 244 c then
        match s1 with
        | d :: e :: f :: s4 =>
            (if b2z c =? 240 then between 144 191 d
             else if b2z c =? 244 then between 128 143 d else is_cont d)
            && is_cont e && is_cont f && utf8_valid s4
        | _ => false
        end
      else false
  end.

(** ** [encode] *)

Definition U128_MAX : Z := 2 ^ 128 - 1.

Definition push_unsigned (out : bytes) (value max : Z) (width : nat) : result bytes CodecError :=
  bail_if value >? max with OutOfRange ;;
  Ok (out ++ b_slice (to_le_bytes 16 value) 0 (Z.of_nat width)).

(** [to_le_bytes] of a negative [i128] is that of its two's complement. *)
Definition push_signed (out : bytes) (value min max : Z) (width : nat) : result bytes CodecError :=
  bail_if (value <? min) || (value >? max) with OutOfRange ;;
  Ok (out ++ b_slice (to_le_bytes 16 (value mod 2 ^ 128)) 0 (Z.of_nat width)).

Definition signed_min (bits : Z) : Z := - 2 ^ (bits - 1).
Definition signed_max (bits : Z) : Z := 2 ^ (bits - 1) - 1.
(** [encode_natural(u64::try_from(len)?)]. *)
Definition push_len (out : bytes) (len : Z) : result bytes CodecError :=
  let? n := ok_or (try_from_max U64_MAX len) OutOfRange in
  Ok (out ++ encode_natural n).

Definition mismatch : CodecError := TypeMismatch (bstr "value").

(** The loops of [encode_into] over the parts of a composite type. *)
Definition encode_items (enc : TypeIr -> Value -> bytes -> result bytes CodecError) :=
  fix go (items : list TypeIr) (vs : list Value) (out : bytes) : result bytes CodecError :=
    match items, vs with
    | item :: items', v :: vs' => let? out := enc item v out in go items' vs' out
    | _, _ => Ok out
    end.

Definition encode_fields (enc : TypeIr -> Value -> bytes -> result bytes CodecError) :=
  fix go (fields : list (FieldIr TypeIr)) (vs : list (FieldIr Value)) (out : bytes) : result bytes CodecError :=
    match fields, vs with
    | mkField name t :: fields', mkField name' v :: vs' =>
        bail_if negb (bool_decide (name = name')) with TypeMismatch (bstr "record field order") ;;
        let? out := enc t v out in
        go fields' vs' out
    | _, _ => Ok out
    end.

Definition encode_variant (enc : TypeIr -> Value -> bytes -> result bytes CodecError)
    (index : byte) (v : Value) (out : bytes) :=
  fix go (variants : list (VariantIr TypeIr)) : result bytes CodecError :=
    match variants with
    | [] => Err InvalidVariant
    | mkVariant _ i t :: variants' =>
        if bool_decide (i = index) then enc t v (out ++ [index]) else go variants'
    end.

Fixpoint encode_into (ty : TypeIr) (value : Value) (out : bytes) {struct ty} : result bytes CodecError :=
  match ty, value with
  | TUnit, VUnit => Ok out
  | TBool, VBool b => Ok (out ++ [if b then x01 else x00])
  | TU8, VUnsigned v => push_unsigned out v U8_MAX 1
  | TU16, VUnsigned v => push_unsigned out v U16_MAX 2
  | TU32, VUnsigned v => push_unsigned out v U32_MAX 4
  | TU64, VUnsigned v => push_unsigned out v U64_MAX 8
  | TU128, VUnsigned v => push_unsigned out v U128_MAX 16
  | TI8, VSigned v => push_signed out v (signed_min 8) (signed_max 8) 1
  | TI16, VSigned v => push_signed out v (signed_min 16) (signed_max 16) 2
  | TI32, VSigned v => push_signed out v (signed_min 32) (signed_max 32) 4
  | TI64, VSigned v => push_signed out v (signed_min 64) (signed_max 64) 8
  | TI128, VSigned v => push_signed out v (signed_min 128) (signed_max 128) 16
  | TAddress, VBytes b => if blen b =? 32 then Ok (out ++ b) else Err CdInvalidLength
  | TOwnership, VOwnership o =>
      let? e := map_err (fun _ => CdInvalidLength) (Ownership.encode o) in
      Ok (out ++ e)
  | TFixedBytes len, VBytes b => if blen b =? len then Ok (out ++ b) else Err CdInvalidLength
  | TBytes max, VBytes b =>
      bail_if blen b >? max with BoundExceeded ;;
      let? out := push_len out (blen b) in
      Ok (out ++ b)
  | TString max, VString s =>
      bail_if blen s >? max with BoundExceeded ;;
      let? out := push_len out (blen s) in
      Ok (out ++ s)
  | TFixedArray item len, VArray vs =>
      if blen vs =? len then rfold (fun out v => encode_into item v out) out vs else Err mismatch
  | TArray item max, VArray vs =>
      bail_if blen vs >? max with BoundExceeded ;;
      let? out := push_len out (blen vs) in
      rfold (fun out v => encode_into item v out) out vs
  | TOption item, VOption None => Ok (out ++ [x00])
  | TOption item, VOption (Some v) => encode_into item v (out ++ [x01])
  | TTuple items, VTuple vs =>
      if blen items =? blen vs then
        encode_items encode_into items vs out
      else Err mismatch
  | TRecord fields, VRecord vs =>
      if blen fields =? blen vs then
        encode_fields encode_into fields vs out
      else Err mismatch
  | TEnum variants, VEnum index v => encode_variant encode_into index v out variants
  | TResult ok err, VResult (inl v) => encode_into ok v (out ++ [x00])
  | TResult ok err, VResult (inr v) => encode_into err v (out ++ [x01])
  | TUnsupported _, _ => Err UnsupportedType
  | _, _ => Err mismatch
  end.

Definition encode (ty : TypeIr) (value : Value) : result bytes CodecError := encode_into ty value [].

(** ** [decode] *)

Definition take_unsigned (width : nat) : parser CodecError Value :=
  b ← CdRd.take (Z.of_nat width); mret (VUnsigned (from_le_bytes b)).

(** [iN::from_le_bytes]: the two's complement of the bytes. *)
Definition signed_of (width : nat) (z : Z) : Z :=
  if z <? 2 ^ (8 * Z.of_nat width - 1) then z else z - 2 ^ (8 * Z.of_nat width).
Definition take_signed (width : nat) : parser CodecError Value :=
  b ← CdRd.take (Z.of_nat width); mret (VSigned (signed_of width (from_le_bytes b))).

(** The bytes of the four reads are those from [start] to the final offset. *)
Definition take_ownership : parser CodecError Value :=
  version ← CdRd.u8;
  kind ← CdRd.u8;
  prefix ← CdRd.take 2;
  public ← CdRd.take (from_le_bytes prefix);
  o ← plift (map_err (fun _ => CdInvalidLength)
        (Ownership.decode ([version] ++ [kind] ++ prefix ++ public)));
  mret (VOwnership o).

Definition take_bounded (max : Z) : parser CodecError bytes :=
  len ← CdRd.natural;
  pbail (len >? max) BoundExceeded;;
  CdRd.take len.

(** The loops of [decode_from] over the parts of a composite type. *)
Definition decode_items (dec : TypeIr -> parser CodecError Value) :=
  fix go (items : list TypeIr) : parser CodecError (list Value) :=
    match items with
    | [] => mret []
    | item :: items' => v ← dec item; vs ← go items'; mret (v :: vs)
    end.

Definition decode_fields (dec : TypeIr -> parser CodecError Value) :=
  fix go (fields : list (FieldIr TypeIr)) : parser CodecError (list (FieldIr Value)) :=
    match fields with
    | [] => mret []
    | mkField name t :: fields' => v ← dec t; vs ← go fields'; mret (mkField name v :: vs)
    end.

Definition decode_variant (dec : TypeIr -> parser CodecError Value) (index : byte) :=
  fix go (variants : list (VariantIr TypeIr)) : parser CodecError Value :=
    match variants with
    | [] => pfail InvalidVariant
    | mkVariant _ i t :: variants' =>
        if bool_decide (i = index) then v ← dec t; mret (VEnum index v) else go variants'
    end.

Fixpoint decode_from (ty : TypeIr) : parser CodecError Value :=
  match ty with
  | TUnit => mret VUnit
  | TBool =>
      b ← CdRd.u8;
      if bool_decide (b = x00) then mret (VBool false)
      else if bool_decide (b = x01) then mret (VBool true)
      else pfail InvalidBool
  | TU8 => take_unsigned 1
  | TU16 => take_unsigned 2
  | TU32 => take_unsigned 4
  | TU64 => take_unsigned 8
  | TU128 => take_unsigned 16
  | TI8 => take_signed 1
  | TI16 => take_signed 2
  | TI32 => take_signed 4
  | TI64 => take_signed 8
  | TI128 => take_signed 16
  | TAddress => b ← CdRd.take 32; mret (VBytes b)
  | TOwnership => take_ownership
  | TFixedBytes len => b ← CdRd.take len; mret (VBytes b)
  | TBytes max => b ← take_bounded max; mret (VBytes b)
  | TString max =>
      b ← take_bounded max;
      pbail (negb (utf8_valid b)) InvalidUtf8;;
      mret (VString b)
  | TFixedArray item len => vs ← prepeat (Z.to_nat len) (decode_from item); mret (VArray vs)
  | TArray item max =>
      len ← CdRd.natural;
      pbail (len >? max) BoundExceeded;;
      vs ← prepeat (Z.to_nat len) (decode_from item);
      mret (VArray vs)
  | TOption item =>
      b ← CdRd.u8;
      if bool_decide (b = x00) then mret (VOption None)
      else if bool_decide (b = x01) then v ← decode_from item; mret (VOption (Some v))
      else pfail InvalidVariant
  | TTuple items => vs ← decode_items decode_from items; mret (VTuple vs)
  | TRecord fields => vs ← decode_fields decode_from fields; mret (VRecord vs)
  | TEnum variants => index ← CdRd.u8; decode_variant decode_from index variants
  | TResult ok err =>
      b ← CdRd.u8;
      if bool_decide (b = x00) then v ← decode_from ok; mret (VResult (inl v))
      else if bool_decide (b = x01) then v ← decode_from err; mret (VResult (inr v))
      else pfail InvalidVariant
  | TUnsupported _ => pfail UnsupportedType
  end.

Definition decode (ty : TypeIr) (b : bytes) : result Value CodecError :=
  run_exact TrailingBytes (decode_from ty) b.

(** ** Numbers *)

(** The ranges a Rust [Value] has by its types. *)
Fixpoint rust_value (v : Value) : Prop :=
  match v with
  | VUnsigned z => 0 <= z <= U128_MAX
  | VSigned z => signed_min 128 <= z <= signed_max 128
  | VString s => utf8_valid s = true
  | VArray vs | VTuple vs => fold_right (fun v acc => rust_value v /\ acc) True vs
  | VRecord fs => fold_right (fun f acc => rust_value (f_ty f) /\ acc) True fs
  | VOption (Some v) | VEnum _ v | VResult (inl v) | VResult (inr v) => rust_value v
  | _ => True
  end.

Lemma fold_right_Forall {A} (P : A -> Prop) l :
  fold_right (fun v acc => P v /\ acc) True l <-> Forall P l.
Proof. induction l as [|x l IH]; simpl; [by split|]. by rewrite Forall_cons, IH. Qed.

(** What encoding a value of a type appends, and that the decoder reads it. *)
Definition reads_back (ty : TypeIr) (v : Value) (out o : bytes) : Prop :=
  exists x, o = out ++ x /\ parses (decode_from ty) x v.

Lemma pow_256 (w : nat) : 256 ^ Z.of_nat w = 2 ^ (8 * Z.of_nat w).
Proof. change 256 with (2 ^ 8). by rewrite <- Z.pow_mul_r by lia. Qed.

Lemma push_unsigned_Ok out v max w o :
  (w <= 16)%nat -> max = 256 ^ Z.of_nat w - 1 ->
  push_unsigned out v max w = Ok o <-> v <= max /\ o = out ++ to_le_bytes w v.
Proof.
  intros Hw ->. unfold push_unsigned. rewrite bail_if_Ok, Z.gtb_ltb, Z.ltb_ge.
  rewrite to_le_bytes_slice by lia. rewrite Nat2Z.id. naive_solver.
Qed.

Lemma to_le_bytes_mod (w n : nat) z :
  (w <= n)%nat -> to_le_bytes w (z mod 2 ^ (8 * Z.of_nat n)) = to_le_bytes w z.
Proof.
  intros Hw. assert (forall a, to_le_bytes w a = to_le_bytes w (a mod 256 ^ Z.of_nat w)) as Hm.
  { intros a. rewrite <- (from_to_le_bytes w a).
    rewrite <- (to_from_le_bytes (to_le_bytes w a)) at 1. by rewrite to_le_bytes_length. }
  rewrite (Hm (z mod _)), (Hm z). f_equal. rewrite pow_256.
  replace (2 ^ (8 * Z.of_nat n)) with (2 ^ (8 * Z.of_nat w) * 2 ^ (8 * Z.of_nat (n - w)))
    by (rewrite <- Z.pow_add_r by lia; f_equal; lia).
  assert (2 ^ (8 * Z.of_nat w) <> 0) by (apply Z.pow_nonzero; lia).
  rewrite Z.rem_mul_r by (done || apply Z.pow_pos_nonneg; lia).
  rewrite (Z.mul_comm (2 ^ _) (_ mod _)), Z.mod_add by done. by rewrite Z.mod_mod by done.
Qed.

Lemma push_signed_Ok out v w o :
  (w <= 16)%nat ->
  push_signed out v (signed_min (8 * Z.of_nat w)) (signed_max (8 * Z.of_nat w)) w = Ok o <->
  signed_min (8 * Z.of_nat w) <= v <= signed_max (8 * Z.of_nat w) /\ o = out ++ to_le_bytes w v.
Proof.
  intros Hw. unfold push_signed. rewrite bail_if_Ok, orb_false_iff, Z.gtb_ltb, !Z.ltb_ge.
  rewrite to_le_bytes_slice by lia. rewrite Nat2Z.id.
  change (2 ^ 128) with (2 ^ (8 * Z.of_nat 16)). rewrite to_le_bytes_mod by done. naive_solver.
Qed.

Lemma parses_unsigned w v :
  0 <= v <= 256 ^ Z.of_nat w - 1 -> parses (take_unsigned w) (to_le_bytes w v) (VUnsigned v).
Proof.
  intros Hv. unfold take_unsigned. rewrite <- (app_nil_r (to_le_bytes w v)).
  eapply parses_bind; [apply parses_take, blen_to_le_bytes|]. apply parses_ret'.
  by rewrite from_to_le_bytes_small by lia.
Qed.

Lemma signed_of_mod (w : nat) v :
  (1 <= w)%nat -> signed_min (8 * Z.of_nat w) <= v <= signed_max (8 * Z.of_nat w) ->
  signed_of w (v mod 2 ^ (8 * Z.of_nat w)) = v.
Proof.
  unfold signed_min, signed_max, signed_of. intros Hw Hv.
  set (n := 8 * Z.of_nat w) in *. assert (2 ^ n = 2 * 2 ^ (n - 1)) as Hp.
  { rewrite <- Z.pow_succ_r by lia. f_equal. lia. }
  assert (0 < 2 ^ (n - 1)) by (apply Z.pow_pos_nonneg; lia).
  destruct (Z.lt_ge_cases v 0).
  - replace (v mod 2 ^ n) with (v + 2 ^ n)
      by (symmetry; rewrite <- (Z.mod_add v 1 (2 ^ n)) by lia; rewrite Z.mul_1_l; apply Z.mod_small; lia).
    rewrite (proj2 (Z.ltb_ge _ _)) by lia. lia.
  - rewrite Z.mod_small by lia. by rewrite (proj2 (Z.ltb_lt _ _)) by lia.
Qed.

Lemma parses_signed w v :
  (1 <= w)%nat -> signed_min (8 * Z.of_nat w) <= v <= signed_max (8 * Z.of_nat w) ->
  parses (take_signed w) (to_le_bytes w v) (VSigned v).
Proof.
  intros Hw Hv. unfold take_signed. rewrite <- (app_nil_r (to_le_bytes w v)).
  eapply parses_bind; [apply parses_take, blen_to_le_bytes|]. apply parses_ret'.
  rewrite from_to_le_bytes, pow_256. by rewrite signed_of_mod.
Qed.

(** The signed value of [w] bytes is in range and has those bytes. *)
Lemma signed_of_bytes w b :
  (1 <= w)%nat -> blen b = Z.of_nat w ->
  signed_min (8 * Z.of_nat w) <= signed_of w (from_le_bytes b) <= signed_max (8 * Z.of_nat w) /\
  to_le_bytes w (signed_of w (from_le_bytes b)) = b.
Proof.
  intros Hw Hb. pose proof (from_le_bytes_range b) as Hr. rewrite Hb, pow_256 in Hr.
  destruct (yields_le w _ b Hb eq_refl) as [Hle _].
  unfold signed_of, signed_min, signed_max. set (n := 8 * Z.of_nat w) in *.
  assert (2 ^ n = 2 * 2 ^ (n - 1)) as Hp by (rewrite <- Z.pow_succ_r by lia; f_equal; lia).
  destruct (Z.ltb_spec (from_le_bytes b) (2 ^ (n - 1))).
  - split; [lia|done].
  - split; [lia|]. rewrite <- (to_le_bytes_mod w w) by done.
    replace ((from_le_bytes b - 2 ^ n) mod 2 ^ (8 * Z.of_nat w)) with (from_le_bytes b); [done|].
    fold n. rewrite <- (Z.mod_add _ 1) by lia. rewrite Z.mul_1_l, Z.sub_add. symmetry. by apply Z.mod_small.
Qed.

(** ** Whatever is encoded is read back *)

Lemma push_len_Ok out n o :
  push_len out n = Ok o <-> n <= U64_MAX /\ o = out ++ encode_natural n.
Proof.
  unfold push_len, try_from_max. destruct (Z.leb_spec n U64_MAX); simpl; naive_solver lia.
Qed.

Lemma parses_bounded max b :
  blen b <= max -> blen b <= U64_MAX -> parses (take_bounded max) (encode_natural (blen b) ++ b) b.
Proof.
  intros Hm Hb. unfold take_bounded. pose proof (blen_nonneg b).
  parse_field; [by apply parses_natural|]. parse_field; [rewrite Z.gtb_ltb; by apply Z.ltb_ge|].
  by apply parses_take.
Qed.

(** A read that wraps its value in a constructor. *)
Lemma parses_wrap {A B} (m : parser CodecError A) (f : A -> B) x a b :
  parses m x a -> b = f a -> parses (v ← m; mret (f v)) x b.
Proof.
  intros Hm ->. rewrite <- (app_nil_r x). eapply parses_bind; [exact Hm|]. apply parses_ret.
Qed.

Section ReadBack.
Definition all_read_back (ty : TypeIr) : Prop :=
  forall v out o, rust_value v -> encode_into ty v out = Ok o -> reads_back ty v out o.

Lemma elements_read_back item vs : forall out o,
  all_read_back item -> Forall rust_value vs ->
  rfold (fun out v => encode_into item v out) out vs = Ok o ->
  exists x, o = out ++ x /\ parses (prepeat (length vs) (decode_from item)) x vs.
Proof.
  induction vs as [|v vs IH]; intros out o Hi Hvs He; cbn [rfold length prepeat] in *.
  - injection He as <-. exists []. rewrite app_nil_r. split; [done|apply parses_ret].
  - apply Forall_cons in Hvs as [Hv Hvs]. apply rbind_Ok in He as (o1 & He1 & He2).
    destruct (Hi v out o1 Hv He1) as (x & -> & Hx).
    destruct (IH _ _ Hi Hvs He2) as (y & -> & Hy).
    exists (x ++ y). rewrite (assoc_L (++)). split; [done|].
    eapply parses_bind; [exact Hx|]. by apply parses_wrap with vs.
Qed.

Lemma items_read_back items vs : forall out o,
  Forall all_read_back items -> Forall rust_value vs -> blen items = blen vs ->
  encode_items encode_into items vs out = Ok o ->
  exists x, o = out ++ x /\ parses (decode_items decode_from items) x vs.
Proof.
  revert vs. induction items as [|item items IH]; intros [|v vs] out o Hi Hvs Hlen He; simpl in He.
  - injection He as <-. exists []. rewrite app_nil_r. split; [done|apply parses_ret].
  - exfalso. blia.
  - exfalso. blia.
  - rewrite !blen_cons in Hlen. apply Forall_cons in Hvs as [Hv Hvs]. apply Forall_cons in Hi as [Hit Hi].
    apply rbind_Ok in He as (o1 & He1 & He2). destruct (Hit v out o1 Hv He1) as (x & -> & Hx).
    destruct (IH vs _ _ Hi Hvs ltac:(lia) He2) as (y & -> & Hy).
    exists (x ++ y). rewrite (assoc_L (++)). split; [done|]. simpl.
    eapply parses_bind; [exact Hx|]. by apply parses_wrap with vs.
Qed.

Lemma fields_read_back fields vs : forall out o,
  Forall (fun f => all_read_back (f_ty f)) fields -> Forall (fun f => rust_value (f_ty f)) vs ->
  blen fields = blen vs -> encode_fields encode_into fields vs out = Ok o ->
  exists x, o = out ++ x /\ parses (decode_fields decode_from fields) x vs.
Proof.
  revert vs. induction fields as [|[n t] fields IH]; intros [|[n' v] vs] out o Hi Hvs Hlen He; simpl in He.
  - injection He as <-. exists []. rewrite app_nil_r. split; [done|apply parses_ret].
  - exfalso. blia.
  - exfalso. blia.
  - rewrite !blen_cons in Hlen. apply Forall_cons in Hvs as [Hv Hvs]. apply Forall_cons in Hi as [Hit Hi].
    apply bail_if_Ok in He as [Hn He]. to_prop. subst n'.
    apply rbind_Ok in He as (o1 & He1 & He2). destruct (Hit v out o1 Hv He1) as (x & -> & Hx).
    destruct (IH vs _ _ Hi Hvs ltac:(lia) He2) as (y & -> & Hy).
    exists (x ++ y). rewrite (assoc_L (++)). split; [done|]. simpl.
    eapply parses_bind; [exact Hx|]. by apply parses_wrap with vs.
Qed.

Lemma variant_read_back variants index v out o :
  Forall (fun w => all_read_back (v_ty w)) variants -> rust_value v ->
  encode_variant encode_into index v out variants = Ok o ->
  exists x, o = (out ++ [index]) ++ x /\ parses (decode_variant decode_from index variants) x (VEnum index v).
Proof.
  intros Hi Hv. induction Hi as [|[n i t] variants Ht Hi IH]; intros He; simpl in *; [done|].
  case_bool_decide as Hidx; [|by apply IH].
  destruct (Ht v _ _ Hv He) as (x & -> & Hx). exists x. split; [done|]. by apply parses_wrap with v.
Qed.
End ReadBack.

Lemma parses_ownership o :
  Ownership.valid o -> parses take_ownership (Ownership.fmt o) (VOwnership o).
Proof.
  intros Hv. pose proof Hv as (_ & Hl & _). pose proof (Ownership.public_len_range (Ownership.kind o)).
  unfold take_ownership, Ownership.fmt. parse_field; [apply parses_cd_u8|]. parse_field; [apply parses_cd_u8|].
  parse_field; [apply parses_take, blen_to_le_bytes|].
  rewrite from_to_u16 by (unfold u16_ok, U16_MAX; lia). rewrite <- (app_nil_r (Ownership.public o)) at 2.
  parse_field; [by apply parses_take|]. eapply parses_bind0; [apply parses_lift|apply parses_ret].
  apply map_err_Ok, Ownership.ownership_decode_iff. split; [done|]. by apply Ownership.ownership_encode_Ok.
Qed.

Lemma unsigned_read_back ty w max v out o :
  decode_from ty = take_unsigned w -> (w <= 16)%nat -> max = 256 ^ Z.of_nat w - 1 -> 0 <= v ->
  push_unsigned out v max w = Ok o -> reads_back ty (VUnsigned v) out o.
Proof.
  intros Hty Hw Hmax Hv He. apply push_unsigned_Ok in He as [Hle ->]; [|done..].
  eexists. split; [done|]. rewrite Hty. apply parses_unsigned. lia.
Qed.

Lemma signed_read_back ty w bits v out o :
  decode_from ty = take_signed w -> (1 <= w <= 16)%nat -> bits = 8 * Z.of_nat w ->
  push_signed out v (signed_min bits) (signed_max bits) w = Ok o ->
  reads_back ty (VSigned v) out o.
Proof.
  intros Hty Hw -> He. apply push_signed_Ok in He as [Hle ->]; [|lia].
  eexists. split; [done|]. rewrite Hty. apply parses_signed; [lia|done].
Qed.

(** The numeric leaves, by their width. *)
Ltac unsigned_leaf w max Hv He :=
  apply (unsigned_read_back _ w max); [reflexivity|lia|vm_compute; reflexivity|apply Hv|exact He].
Ltac signed_leaf w bits He := apply (signed_read_back _ w bits); [reflexivity|lia|vm_compute; reflexivity|exact He].

Lemma leaf_read_back ty :
  match ty with
  | TFixedArray _ _ | TArray _ _ | TOption _ | TTuple _ | TRecord _ | TEnum _ | TResult _ _ => True
  | _ => all_read_back ty
  end.
Proof.
  destruct ty as [| | | | | | | | | | | | | |len|max|max|item len|item max|item|items|fields|variants|ok err|name];
    try done; intros v out o Hv He; destruct v; cbn [encode_into] in He; try discriminate He;
    try unsigned_leaf 1%nat U8_MAX Hv He; try unsigned_leaf 2%nat U16_MAX Hv He; try unsigned_leaf 4%nat U32_MAX Hv He;
    try unsigned_leaf 8%nat U64_MAX Hv He; try unsigned_leaf 16%nat U128_MAX Hv He; try signed_leaf 1%nat 8 He;
    try signed_leaf 2%nat 16 He; try signed_leaf 4%nat 32 He; try signed_leaf 8%nat 64 He; try signed_leaf 16%nat 128 He.
  - injection He as <-. exists []. rewrite app_nil_r. split; [done|apply parses_ret].
  - injection He as <-. eexists. split; [done|]. simpl.
    rewrite <- (app_nil_r [_]). eapply parses_bind; [apply parses_cd_u8|]. destruct b; apply parses_ret.
  - destruct (Z.eqb_spec (blen b) 32); [|done]. injection He as <-. eexists. split; [done|].
    apply parses_wrap with b; [by apply parses_take|done].
  - apply rbind_Ok in He as (e & He%map_err_Ok & [= <-]). apply Ownership.ownership_encode_Ok in He as [Hval ->].
    eexists. split; [done|]. by apply parses_ownership.
  - destruct (Z.eqb_spec (blen b) len); [|done]. injection He as <-. eexists. split; [done|].
    apply parses_wrap with b; [by apply parses_take|done].
  - apply bail_if_Ok in He as [Hg He]. apply rbind_Ok in He as (o1 & [Hl ->]%push_len_Ok & [= <-]). to_prop.
    eexists. rewrite <- (assoc_L (++)). split; [done|]. apply parses_wrap with b; [|done].
    by apply parses_bounded.
  - apply bail_if_Ok in He as [Hg He]. apply rbind_Ok in He as (o1 & [Hl ->]%push_len_Ok & [= <-]). to_prop.
    eexists. rewrite <- (assoc_L (++)). split; [done|]. simpl. rewrite <- (app_nil_r (_ ++ s)).
    eapply parses_bind; [by apply parses_bounded|]. simpl in Hv. rewrite Hv. apply parses_ret.
Qed.

Lemma fixed_array_read_back item len : all_read_back item -> all_read_back (TFixedArray item len).
Proof.
  intros IH v out o Hv He. destruct v; simpl in He; try discriminate He.
  destruct (Z.eqb_spec (blen vs) len) as [Hl|]; [|done]. simpl in Hv. rewrite fold_right_Forall in Hv.
  destruct (elements_read_back _ _ _ _ IH Hv He) as (x & -> & Hx). exists x. split; [done|].
  simpl. apply parses_wrap with vs; [|done].
  by replace (Z.to_nat len) with (length vs) by (unfold blen in Hl; lia).
Qed.

Lemma array_read_back item max : all_read_back item -> all_read_back (TArray item max).
Proof.
  intros IH v out o Hv He. destruct v; simpl in He; try discriminate He.
  apply bail_if_Ok in He as [Hg He]. apply rbind_Ok in He as (o1 & [Hl ->]%push_len_Ok & He). to_prop.
  simpl in Hv. rewrite fold_right_Forall in Hv.
  destruct (elements_read_back _ _ _ _ IH Hv He) as (x & -> & Hx). rewrite <- (assoc_L (++)).
  eexists. split; [done|]. simpl. pose proof (blen_nonneg vs).
  parse_field; [by apply parses_natural|]. parse_field; [rewrite Z.gtb_ltb; by apply Z.ltb_ge|].
  apply parses_wrap with vs; [|done]. by replace (Z.to_nat (blen vs)) with (length vs) by (unfold blen; lia).
Qed.

(** A tag byte, then the payload. *)
Lemma tagged_read_back item v out tag o :
  all_read_back item -> rust_value v -> encode_into item v (out ++ [tag]) = Ok o ->
  exists x, o = out ++ [tag] ++ x /\ parses (decode_from item) x v.
Proof.
  intros IH Hv He. destruct (IH v _ _ Hv He) as (x & -> & Hx). exists x. by rewrite <- (assoc_L (++)).
Qed.

Lemma option_read_back item : all_read_back item -> all_read_back (TOption item).
Proof.
  intros IH v out o Hv He. destruct v as [| | | | | | | | | |[v|]| |]; simpl in He; try discriminate He.
  - destruct (tagged_read_back _ v _ _ _ IH Hv He) as (x & -> & Hx). eexists. split; [done|]. simpl.
    eapply (parses_bind _ _ [x01]); [apply parses_cd_u8|]. by apply parses_wrap with v.
  - injection He as <-. eexists. split; [done|]. simpl. rewrite <- (app_nil_r [_]).
    eapply parses_bind; [apply parses_cd_u8|]. apply parses_ret.
Qed.

Lemma result_read_back ok err : all_read_back ok -> all_read_back err -> all_read_back (TResult ok err).
Proof.
  intros IHo IHe v out o Hv He. destruct v as [| | | | | | | | | | | |[v|v]]; simpl in He; try discriminate He.
  - destruct (tagged_read_back _ v _ _ _ IHo Hv He) as (x & -> & Hx). eexists. split; [done|]. simpl.
    eapply (parses_bind _ _ [x00]); [apply parses_cd_u8|]. by apply parses_wrap with v.
  - destruct (tagged_read_back _ v _ _ _ IHe Hv He) as (x & -> & Hx). eexists. split; [done|]. simpl.
    eapply (parses_bind _ _ [x01]); [apply parses_cd_u8|]. by apply parses_wrap with v.
Qed.

Lemma encoded_read_back ty : all_read_back ty.
Proof.
  revert ty. apply type_ind; [apply leaf_read_back|apply fixed_array_read_back|apply array_read_back
    |apply option_read_back| | | |apply result_read_back].
  - intros items IH v out o Hv He. destruct v; simpl in He; try discriminate He.
    destruct (Z.eqb_spec (blen items) (blen vs)); [|done]. simpl in Hv. rewrite fold_right_Forall in Hv.
    destruct (items_read_back items vs out o) as (x & -> & Hx); [done..|]. exists x. split; [done|].
    by apply parses_wrap with vs.
  - intros fields IH v out o Hv He. destruct v; simpl in He; try discriminate He.
    destruct (Z.eqb_spec (blen fields) (blen fs)); [|done]. simpl in Hv.
    rewrite (fold_right_Forall (fun f => rust_value (f_ty f))) in Hv.
    destruct (fields_read_back fields fs out o) as (x & -> & Hx); [done..|]. exists x. split; [done|].
    by apply parses_wrap with fs.
  - intros variants IH v out o Hv He. destruct v; simpl in He; try discriminate He.
    destruct (variant_read_back variants index v out o) as (x & -> & Hx); [done..|].
    rewrite <- (assoc_L (++)). eexists. split; [done|]. simpl.
    eapply (parses_bind _ _ [index]); [apply parses_cd_u8|done].
Qed.

(** ** Whatever is read can be encoded *)

(** The lengths and bounds of a Rust [TypeIr] are [u32] values. *)
Fixpoint wf_type (ty : TypeIr) : Prop :=
  match ty with
  | TFixedBytes n | TBytes n | TString n => u32_ok n
  | TFixedArray item n | TArray item n => u32_ok n /\ wf_type item
  | TOption item => wf_type item
  | TTuple items => fold_right (fun t acc => wf_type t /\ acc) True items
  | TRecord fields => fold_right (fun f acc => wf_type (f_ty f) /\ acc) True fields
  | TEnum variants => fold_right (fun w acc => wf_type (v_ty w) /\ acc) True variants
  | TResult ok err => wf_type ok /\ wf_type err
  | _ => True
  end.

(** [f] appends a text no longer than [x]. *)
Definition appends_within (f : bytes -> result bytes CodecError) (x : bytes) : Prop :=
  exists y, (forall out, f out = Ok (out ++ y)) /\ blen y <= blen x.

Definition reencodes (ty : TypeIr) (x : bytes) (v : Value) : Prop :=
  rust_value v /\ appends_within (encode_into ty v) x.
Definition all_reencode (ty : TypeIr) : Prop := wf_type ty -> yields (decode_from ty) (reencodes ty).

Lemma appends_within_seq (f g : bytes -> result bytes CodecError) x y :
  appends_within f x -> appends_within g y ->
  appends_within (fun out => let? o := f out in g o) (x ++ y).
Proof.
  intros (a & Hf & Ha) (b & Hg & Hb). exists (a ++ b). split.
  - intros out. rewrite Hf. simpl. rewrite Hg. by rewrite (assoc_L (++)).
  - rewrite !blen_app. lia.
Qed.

Lemma appends_within_ext (f g : bytes -> result bytes CodecError) x :
  (forall out, f out = g out) -> appends_within f x -> appends_within g x.
Proof. intros Hfg (y & Hy & Hl). exists y. split; [|done]. intros out. by rewrite <- Hfg. Qed.

Lemma appends_within_tag (f : bytes -> result bytes CodecError) x tag :
  appends_within f x -> appends_within (fun out => f (out ++ [tag])) ([tag] ++ x).
Proof.
  intros (y & Hy & Hl). exists ([tag] ++ y). split.
  - intros out. rewrite Hy. by rewrite <- (assoc_L (++)).
  - rewrite !blen_app. lia.
Qed.

Lemma yields_bounded max :
  0 <= max ->
  yields (take_bounded max) (fun x b => blen b <= max /\ blen b <= U64_MAX /\
    blen (encode_natural (blen b)) + blen b <= blen x).
Proof.
  intros Hm. unfold take_bounded. eapply yields_bind; [apply yields_natural|]. intros n x [Hn Hx].
  yield_field. intros [] y [-> Hg]. to_prop. unfold u64_ok in Hn.
  eapply yields_mono; [apply yields_take; lia|]. intros z b [-> Hz]. rewrite Hz, blen_app. simpl. lia.
Qed.

Lemma bounded_appends max b x :
  blen b <= max -> blen b <= U64_MAX -> blen (encode_natural (blen b)) + blen b <= blen x ->
  appends_within (fun out => bail_if blen b >? max with BoundExceeded ;;
                             let? out := push_len out (blen b) in Ok (out ++ b)) x.
Proof.
  intros Hm Hb Hx. exists (encode_natural (blen b) ++ b). split; [|by rewrite blen_app].
  intros out. rewrite Z.gtb_ltb, (proj2 (Z.ltb_ge _ _)) by done.
  rewrite (proj2 (push_len_Ok out (blen b) _) (conj Hb eq_refl)). simpl. by rewrite <- (assoc_L (++)).
Qed.

Lemma yields_wrap {A} (m : parser CodecError A) (f : A -> Value) P (R : bytes -> Value -> Prop) :
  yields m P -> (forall x a, P x a -> R x (f a)) -> yields (a ← m; mret (f a)) R.
Proof.
  intros Hm HR. eapply yields_bind; [exact Hm|]. intros a x Hx. apply yields_ret.
  rewrite app_nil_r. by apply HR.
Qed.

Lemma unsigned_reencodes ty w max :
  decode_from ty = take_unsigned w -> (w <= 16)%nat -> max = 256 ^ Z.of_nat w - 1 ->
  (forall z out, encode_into ty (VUnsigned z) out = push_unsigned out z max w) ->
  yields (decode_from ty) (reencodes ty).
Proof.
  intros Hty Hw Hmax He. rewrite Hty. unfold take_unsigned. eapply yields_bind; [apply yields_take; lia|].
  intros b x [-> Hx]. apply yields_ret. rewrite app_nil_r.
  destruct (yields_le w _ x Hx eq_refl) as [Hle Hr]. split.
  - simpl. split; [lia|]. assert (256 ^ Z.of_nat w <= 256 ^ 16) by (apply Z.pow_le_mono_r; lia).
    unfold U128_MAX. change (2 ^ 128) with (256 ^ 16). lia.
  - exists x. split; [|done]. intros out. rewrite He. apply push_unsigned_Ok; [done..|].
    rewrite <- Hle. split; [lia|done].
Qed.

Lemma signed_reencodes ty w bits :
  decode_from ty = take_signed w -> (1 <= w <= 16)%nat -> bits = 8 * Z.of_nat w ->
  (forall z out, encode_into ty (VSigned z) out = push_signed out z (signed_min bits) (signed_max bits) w) ->
  yields (decode_from ty) (reencodes ty).
Proof.
  intros Hty Hw -> He. rewrite Hty. unfold take_signed. eapply yields_bind; [apply yields_take; lia|].
  intros b x [-> Hx]. apply yields_ret. rewrite app_nil_r.
  destruct (signed_of_bytes w x) as [Hr Hb]; [lia|done|]. split.
  - simpl. unfold signed_min, signed_max in *.
    assert (2 ^ (8 * Z.of_nat w - 1) <= 2 ^ (128 - 1)) by (apply Z.pow_le_mono_r; lia). lia.
  - exists x. split; [|done]. intros out. rewrite He. apply push_signed_Ok; [lia|]. by rewrite Hb.
Qed.

Lemma yields_ownership : yields take_ownership (reencodes TOwnership).
Proof.
  unfold take_ownership. eapply yields_bind; [apply yields_cd_u8|]. intros v x ->.
  eapply yields_bind; [apply yields_cd_u8|]. intros k x ->.
  eapply yields_bind; [by apply yields_take|]. intros p xp [-> Hp].
  pose proof (from_le_bytes_range xp) as Hr.
  eapply yields_bind; [apply yields_take; lia|]. intros b xb [-> Hb].
  eapply yields_bind; [apply yields_lift|]. intros o y [-> Ho%map_err_Ok]. apply yields_ret.
  rewrite app_nil_r. split; [done|]. apply Ownership.ownership_decode_iff in Ho as [_ He].
  exists ([v] ++ [k] ++ xp ++ xb). split; [|done]. intros out. simpl. by rewrite He.
Qed.

(** The numeric leaves, by their width. *)
Ltac unsigned_leaf' w max :=
  apply (unsigned_reencodes _ w max); [reflexivity|lia|vm_compute; reflexivity|reflexivity].
Ltac signed_leaf' w bits :=
  apply (signed_reencodes _ w bits); [reflexivity|lia|vm_compute; reflexivity|reflexivity].

(** A fixed number of raw bytes. *)
Lemma yields_fixed_bytes ty n :
  0 <= n -> decode_from ty = (b ← CdRd.take n; mret (VBytes b)) ->
  (forall b out, encode_into ty (VBytes b) out = if blen b =? n then Ok (out ++ b) else Err CdInvalidLength) ->
  yields (decode_from ty) (reencodes ty).
Proof.
  intros Hn -> He. eapply yields_wrap; [by apply yields_take|]. intros x b [-> Hb]. split; [done|].
  exists x. split; [|done]. intros out. by rewrite He, Hb, Z.eqb_refl.
Qed.

Lemma leaf_reencodes ty :
  match ty with
  | TFixedArray _ _ | TArray _ _ | TOption _ | TTuple _ | TRecord _ | TEnum _ | TResult _ _ => True
  | _ => all_reencode ty
  end.
Proof.
  destruct ty as [| | | | | | | | | | | | | |len|max|max|item len|item max|item|items|fields|variants|ok err|name];
    try done; intros Hwf.
  - apply yields_ret. split; [done|]. exists []. split; [|done]. intros out. simpl. by rewrite app_nil_r.
  - unsigned_leaf' 1%nat U8_MAX.
  - unsigned_leaf' 2%nat U16_MAX.
  - unsigned_leaf' 8%nat U64_MAX.
  - unsigned_leaf' 4%nat U32_MAX.
  - unsigned_leaf' 16%nat U128_MAX.
  - signed_leaf' 1%nat 8.
  - signed_leaf' 2%nat 16.
  - signed_leaf' 4%nat 32.
  - signed_leaf' 8%nat 64.
  - signed_leaf' 16%nat 128.
  - simpl. eapply yields_bind; [apply yields_cd_u8|]. intros b x ->.
    repeat case_bool_decide; subst; [apply yields_ret..|apply yields_fail].
    + split; [done|]. exists [x00]. done.
    + split; [done|]. exists [x01]. done.
  - by apply (yields_fixed_bytes TAddress 32).
  - apply yields_ownership.
  - apply (yields_fixed_bytes (TFixedBytes len) len); [apply Hwf|done|done].
  - eapply yields_wrap; [apply yields_bounded, Hwf|]. intros x b (H1 & H2 & H3). split; [done|].
    by apply bounded_appends.
  - simpl. eapply yields_bind; [apply yields_bounded, Hwf|]. intros b x (H1 & H2 & H3).
    yield_field. intros [] y [-> Hu]. to_prop. apply yields_ret. rewrite app_nil_r. split; [done|].
    by apply bounded_appends.
Qed.

(** The elements of an array. *)
Lemma elements_reencode item xs vs :
  Forall2 (reencodes item) xs vs ->
  Forall rust_value vs /\
  appends_within (fun out => rfold (fun out v => encode_into item v out) out vs) (concat xs).
Proof.
  induction 1 as [|x v xs vs [Hv Hx] H [IHv IHx]]; simpl.
  - split; [done|]. exists []. split; [|done]. intros out. by rewrite app_nil_r.
  - split; [by constructor|]. by apply appends_within_seq.
Qed.

Lemma array_reencodes item max : all_reencode item -> all_reencode (TArray item max).
Proof.
  intros IH [Hm Hwf]. simpl. eapply yields_bind; [apply yields_natural|]. intros n x [Hn Hx].
  yield_field. intros [] y [-> Hg]. to_prop.
  eapply yields_wrap; [apply yields_repeat, (IH Hwf)|]. intros z vs (xs & -> & Hxs & Hlen).
  destruct (elements_reencode _ _ _ Hxs) as [Hvs Ha].
  assert (blen vs = n) as Hbl by (unfold blen, u64_ok in *; lia).
  split; [by apply fold_right_Forall|]. rewrite (assoc_L (++)), app_nil_r. eapply appends_within_ext.
  2: { apply appends_within_seq; [|exact Ha]. exists (encode_natural n). split; [|exact Hx].
       intros out. apply (push_len_Ok out n). split; [apply Hn|done]. }
  intros out. simpl. rewrite Hbl, Z.gtb_ltb, (proj2 (Z.ltb_ge _ _)) by done. done.
Qed.

Lemma fixed_array_reencodes item len : all_reencode item -> all_reencode (TFixedArray item len).
Proof.
  intros IH [Hm Hwf]. simpl. eapply yields_wrap; [apply yields_repeat, (IH Hwf)|].
  intros z vs (xs & -> & Hxs & Hlen). destruct (elements_reencode _ _ _ Hxs) as [Hvs Ha].
  split; [by apply fold_right_Forall|]. eapply appends_within_ext; [|exact Ha]. intros out. simpl.
  unfold u32_ok in Hm. by rewrite (proj2 (Z.eqb_eq _ _)) by (unfold blen; lia).
Qed.

Lemma option_reencodes item : all_reencode item -> all_reencode (TOption item).
Proof.
  intros IH Hwf. simpl. eapply yields_bind; [apply yields_cd_u8|]. intros b x ->.
  repeat case_bool_decide; subst; [apply yields_ret| |apply yields_fail].
  - split; [done|]. exists [x00]. done.
  - eapply yields_wrap; [apply IH, Hwf|]. intros y v [Hv Ha]. split; [done|]. by apply appends_within_tag.
Qed.

Lemma result_reencodes ok err : all_reencode ok -> all_reencode err -> all_reencode (TResult ok err).
Proof.
  intros IHo IHe [Hwo Hwe]. simpl. eapply yields_bind; [apply yields_cd_u8|]. intros b x ->.
  repeat case_bool_decide; subst; [| |apply yields_fail].
  - eapply yields_wrap; [apply IHo, Hwo|]. intros y v [Hv Ha]. split; [done|]. by apply appends_within_tag.
  - eapply yields_wrap; [apply IHe, Hwe|]. intros y v [Hv Ha]. split; [done|]. by apply appends_within_tag.
Qed.

Lemma items_reencode items :
  Forall all_reencode items -> Forall wf_type items ->
  yields (decode_items decode_from items) (fun x vs => Forall rust_value vs /\ blen items = blen vs /\
    appends_within (encode_items encode_into items vs) x).
Proof.
  intros Hi. induction Hi as [|item items Ht Hi IH]; intros Hwf; simpl.
  - apply yields_ret. split; [done|]. split; [done|]. exists []. split; [|done]. intros out. by rewrite app_nil_r.
  - apply Forall_cons in Hwf as [Hw Hwf]. eapply yields_bind; [apply Ht, Hw|]. intros v x [Hv Hx].
    eapply yields_bind; [apply IH, Hwf|]. intros vs y (Hvs & Hlen & Hy). apply yields_ret. rewrite app_nil_r.
    split; [by constructor|]. rewrite !blen_cons, Hlen. split; [done|]. by apply appends_within_seq.
Qed.

Lemma fields_reencode fields :
  Forall (fun f => all_reencode (f_ty f)) fields -> Forall (fun f => wf_type (f_ty f)) fields ->
  yields (decode_fields decode_from fields) (fun x vs => Forall (fun f => rust_value (f_ty f)) vs /\
    blen fields = blen vs /\ appends_within (encode_fields encode_into fields vs) x).
Proof.
  intros Hi. induction Hi as [|[n t] fields Ht Hi IH]; intros Hwf; simpl.
  - apply yields_ret. split; [done|]. split; [done|]. exists []. split; [|done]. intros out. by rewrite app_nil_r.
  - apply Forall_cons in Hwf as [Hw Hwf]. eapply yields_bind; [apply Ht, Hw|]. intros v x [Hv Hx].
    eapply yields_bind; [apply IH, Hwf|]. intros vs y (Hvs & Hlen & Hy). apply yields_ret. rewrite app_nil_r.
    split; [by constructor|]. rewrite !blen_cons, Hlen. split; [done|].
    eapply appends_within_ext; [|exact (appends_within_seq _ _ _ _ Hx Hy)].
    intros out. by rewrite bool_decide_eq_true_2.
Qed.

Lemma variant_reencodes index variants :
  Forall (fun w => all_reencode (v_ty w)) variants -> Forall (fun w => wf_type (v_ty w)) variants ->
  yields (decode_variant decode_from index variants) (fun x v => exists w, v = VEnum index w /\ rust_value w /\
    appends_within (fun out => encode_variant encode_into index w out variants) ([index] ++ x)).
Proof.
  intros Hi. induction Hi as [|[n i t] variants Ht Hi IH]; intros Hwf; simpl; [apply yields_fail|].
  apply Forall_cons in Hwf as [Hw Hwf]. case_bool_decide; [|by apply IH].
  eapply yields_wrap; [apply Ht, Hw|]. intros x v [Hv Ha]. exists v. split; [done|]. split; [done|].
  by apply appends_within_tag.
Qed.

Lemma decoded_reencodes ty : all_reencode ty.
Proof.
  revert ty. apply type_ind; [apply leaf_reencodes|apply fixed_array_reencodes|apply array_reencodes
    |apply option_reencodes| | | |apply result_reencodes].
  - intros items IH Hwf. apply (fold_right_Forall wf_type) in Hwf. simpl.
    eapply yields_wrap; [by apply items_reencode|]. intros x vs (Hvs & Hlen & Ha).
    split; [by apply fold_right_Forall|]. eapply appends_within_ext; [|exact Ha]. intros out. simpl.
    by rewrite Hlen, Z.eqb_refl.
  - intros fields IH Hwf. apply (fold_right_Forall (fun f => wf_type (f_ty f))) in Hwf. simpl.
    eapply yields_wrap; [by apply fields_reencode|]. intros x vs (Hvs & Hlen & Ha).
    split; [by apply (fold_right_Forall (fun f => rust_value (f_ty f)))|].
    eapply appends_within_ext; [|exact Ha]. intros out. simpl. by rewrite Hlen, Z.eqb_refl.
  - intros variants IH Hwf. apply (fold_right_Forall (fun w => wf_type (v_ty w))) in Hwf. simpl.
    eapply yields_bind; [apply yields_cd_u8|]. intros index x ->.
    eapply yields_mono; [by apply variant_reencodes|]. intros y v (w & -> & Hw & Ha). done.
Qed.

(** ** No encoding is longer than [max_encoded_len] *)

Lemma len_add_Ok a b n : len_add a b = Ok n -> n = a + b.
Proof. unfold len_add, checked_add. case_match; simpl; congruence. Qed.
Lemma len_mul_Ok a b n : len_mul a b = Ok n -> n = a * b.
Proof. unfold len_mul, checked_mul. case_match; simpl; congruence. Qed.
Lemma plain_succ_Ok x n : plain_succ x = Ok n -> n = 1 + x.
Proof. unfold plain_succ, checked_add. case_match; simpl; congruence. Qed.

Lemma compact_len_natural len max :
  0 <= len <= max -> max <= U32_MAX -> 1 <= blen (encode_natural len) <= compact_len max.
Proof.
  unfold U32_MAX. intros Hl Hm. rewrite encode_natural_length by lia. unfold compact_len.
  rewrite (proj2 (Z.leb_le max U64_MAX)) by (unfold U64_MAX; lia). unfold compact_len_u64.
  change (Z.shiftl 1 56) with (2 ^ 56). rewrite !(proj2 (Z.ltb_lt _ (2 ^ 56))) by lia.
  assert (0 <= Z.log2 max / 7) as Hnn by (apply Z.div_pos; [apply Z.log2_nonneg|lia]).
  unfold bit_length, extra_of. destruct (Z.ltb_spec len (2 ^ 7)).
  - split; [lia|]. destruct (max =? 0); [lia|]. rewrite Z.add_simpl_r. lia.
  - rewrite (proj2 (Z.eqb_neq max 0)) by lia. rewrite Z.add_simpl_r.
    assert (Z.log2 len / 7 <= Z.log2 max / 7) by (apply Z.div_le_mono; [lia|apply Z.log2_le_mono; lia]).
    assert (0 <= Z.log2 len / 7) by (apply Z.div_pos; [apply Z.log2_nonneg|lia]). lia.
Qed.

Definition len_nonneg (ty : TypeIr) : Prop := wf_type ty -> forall n, max_encoded_len ty = Ok n -> 0 <= n.

Lemma sum_len_nonneg {A} (len : A -> result Z LenError) parts : forall total n,
  Forall (fun p => forall n, len p = Ok n -> 0 <= n) parts -> 0 <= total ->
  sum_len len total parts = Ok n -> total <= n.
Proof.
  induction parts as [|p parts IH]; intros total n Hp Ht Hn; simpl in Hn; [injection Hn as <-; lia|].
  apply Forall_cons in Hp as [Hp Hps]. apply rbind_Ok in Hn as (a & Ha & Hn).
  apply rbind_Ok in Hn as (b & Hb%len_add_Ok & Hn). apply Hp in Ha. apply IH in Hn; [lia|done|lia].
Qed.

Lemma largest_variant_le variants : forall max n,
  largest_variant max_encoded_len max variants = Ok n ->
  max <= n /\ Forall (fun w => forall k, max_encoded_len (v_ty w) = Ok k -> 1 + k <= n) variants.
Proof.
  induction variants as [|[nm i t] variants IH]; intros max n Hn; simpl in Hn.
  - injection Hn as <-. split; [lia|constructor].
  - apply rbind_Ok in Hn as (a & Ha & Hn). apply rbind_Ok in Hn as (b & Hb%plain_succ_Ok & Hn).
    apply IH in Hn as [Hm Hv]. split; [lia|]. constructor; [|done]. simpl. intros k Hk.
    rewrite Ha in Hk. injection Hk as <-. lia.
Qed.

Lemma max_len_nonneg ty : len_nonneg ty.
Proof.
  assert (forall m b, u32_ok m -> len_add (compact_len m) m = Ok b -> 0 <= b) as Hc.
  { unfold u32_ok. intros m b Hm ->%len_add_Ok. pose proof (compact_len_natural 0 m). lia. }
  revert ty. apply type_ind.
  - intros ty. destruct ty; try done; intros Hw n Hn; simpl in Hn; try (injection Hn as <-; simpl; try lia);
      try (by eapply Hc; [|exact Hn]; apply Hw). apply Hw.
  - intros item len IH [Hl Hw] n Hn. simpl in Hn. apply rbind_Ok in Hn as (a & Ha & Hn%len_mul_Ok).
    apply (IH Hw) in Ha. unfold u32_ok in Hl. nia.
  - intros item max IH [Hl Hw] n Hn. simpl in Hn. apply rbind_Ok in Hn as (a & Ha & Hn).
    apply rbind_Ok in Hn as (b & Hb%len_mul_Ok & Hn%len_add_Ok). apply (IH Hw) in Ha. unfold u32_ok in Hl.
    destruct (compact_len_natural 0 max) as [Hz _]; [lia..|].
    pose proof (proj2 (compact_len_natural 0 max ltac:(lia) ltac:(lia))). nia.
  - intros item IH Hw n Hn. simpl in Hn. apply rbind_Ok in Hn as (a & Ha & Hn%len_add_Ok).
    apply (IH Hw) in Ha. lia.
  - intros items IH Hw n Hn. apply (fold_right_Forall wf_type) in Hw. simpl in Hn.
    eapply sum_len_nonneg in Hn; [done| |lia]. rewrite Forall_forall in *.
    intros t Ht k. by apply IH, Hw.
  - intros fields IH Hw n Hn. apply (fold_right_Forall (fun f => wf_type (f_ty f))) in Hw. simpl in Hn.
    eapply sum_len_nonneg in Hn; [done| |lia]. rewrite Forall_forall in *.
    intros t Ht k. by apply IH, Hw.
  - intros variants IH Hw n Hn. simpl in Hn. apply largest_variant_le in Hn as [Hn _]. lia.
  - intros ok err IHo IHe [Hwo Hwe] n Hn. simpl in Hn. apply rbind_Ok in Hn as (a & Ha & Hn).
    apply rbind_Ok in Hn as (b & Hb & Hn%plain_succ_Ok). apply (IHo Hwo) in Ha. lia.
Qed.

(** [f] appends at most [n] bytes. *)
Definition grows_by (n : Z) (out o : bytes) : Prop := exists x, o = out ++ x /\ blen x <= n.

Lemma grows_by_app out x n : blen x <= n -> grows_by n out (out ++ x).
Proof. intros Hx. by exists x. Qed.

Lemma grows_by_trans a b out o p : grows_by a out o -> grows_by b o p -> grows_by (a + b) out p.
Proof.
  intros (x & -> & Hx) (y & -> & Hy). exists (x ++ y). rewrite (assoc_L (++)), blen_app. split; [done|lia].
Qed.

Lemma grows_by_le a b out o : grows_by a out o -> a <= b -> grows_by b out o.
Proof. intros (x & -> & Hx) Hab. exists x. split; [done|lia]. Qed.

Definition all_bounded (ty : TypeIr) : Prop :=
  wf_type ty -> forall v out o n,
    encode_into ty v out = Ok o -> max_encoded_len ty = Ok n -> grows_by n out o.

Lemma unsigned_bounded out v max w o n :
  (w <= 16)%nat -> push_unsigned out v max w = Ok o -> Z.of_nat w <= n -> grows_by n out o.
Proof.
  unfold push_unsigned. intros Hw Ho Hn. apply bail_if_Ok in Ho as [_ [= <-]]. apply grows_by_app.
  rewrite to_le_bytes_slice, blen_to_le_bytes by lia. lia.
Qed.

Lemma signed_bounded out v min max w o n :
  (w <= 16)%nat -> push_signed out v min max w = Ok o -> Z.of_nat w <= n -> grows_by n out o.
Proof.
  unfold push_signed. intros Hw Ho Hn. apply bail_if_Ok in Ho as [_ [= <-]]. apply grows_by_app.
  rewrite to_le_bytes_slice, blen_to_le_bytes by lia. lia.
Qed.

Lemma bytes_bounded out b max o n :
  u32_ok max ->
  (bail_if blen b >? max with BoundExceeded ;; let? out := push_len out (blen b) in Ok (out ++ b)) = Ok o ->
  len_add (compact_len max) max = Ok n -> grows_by n out o.
Proof.
  unfold u32_ok. intros Hm He ->%len_add_Ok. apply bail_if_Ok in He as [Hg He]. to_prop.
  apply rbind_Ok in He as (o1 & [_ ->]%push_len_Ok & [= <-]). rewrite <- (assoc_L (++)).
  apply grows_by_app. rewrite blen_app. pose proof (blen_nonneg b).
  pose proof (compact_len_natural (blen b) max). lia.
Qed.

Lemma leaf_bounded ty :
  match ty with
  | TFixedArray _ _ | TArray _ _ | TOption _ | TTuple _ | TRecord _ | TEnum _ | TResult _ _ => True
  | _ => all_bounded ty
  end.
Proof.
  destruct ty as [| | | | | | | | | | | | | |len|max|max|item len|item max|item|items|fields|variants|ok err|name];
    try done; intros Hw v out o n He Hn; destruct v; cbn [encode_into] in He; try discriminate He;
    cbn [max_encoded_len] in Hn; try (injection Hn as <-);
    try (eapply unsigned_bounded; [|exact He|]; simpl; lia); try (eapply signed_bounded; [|exact He|]; simpl; lia);
    try (by eapply bytes_bounded; [apply Hw|exact He|exact Hn]).
  - injection He as <-. exists []. rewrite app_nil_r. done.
  - injection He as <-. by apply grows_by_app.
  - destruct (Z.eqb_spec (blen b) 32); [|done]. injection He as <-. apply grows_by_app. lia.
  - apply rbind_Ok in He as (e & He%map_err_Ok & [= <-]).
    apply Ownership.ownership_encode_Ok in He as [(_ & Hl & _) ->]. apply grows_by_app.
    pose proof (Ownership.public_len_range (Ownership.kind o0)). unfold Ownership.fmt.
    autorewrite with blen. lia.
  - destruct (Z.eqb_spec (blen b) len); [|done]. injection He as <-. apply grows_by_app. lia.
Qed.

Lemma elements_bounded item k vs : forall out o,
  all_bounded item -> wf_type item -> max_encoded_len item = Ok k ->
  rfold (fun out v => encode_into item v out) out vs = Ok o -> grows_by (k * blen vs) out o.
Proof.
  induction vs as [|v vs IH]; intros out o Hi Hw Hk He; simpl in He.
  - injection He as <-. rewrite <- (app_nil_r out) at 2. apply grows_by_app.
    change (blen (@nil Value)) with 0. change (blen (@nil byte)) with 0. lia.
  - apply rbind_Ok in He as (o1 & H1 & H2). rewrite blen_cons. 
    replace (k * (1 + blen vs)) with (k + k * blen vs) by lia.
    eapply grows_by_trans; [by eapply Hi|]. by apply IH.
Qed.

Lemma items_bounded items : forall vs out o total n,
  Forall all_bounded items -> Forall wf_type items ->
  encode_items encode_into items vs out = Ok o -> sum_len max_encoded_len total items = Ok n ->
  grows_by (n - total) out o.
Proof.
  induction items as [|item items IH]; intros vs out o total n Hi Hw He Hn.
  - injection Hn as <-. destruct vs; injection He as <-; rewrite <- (app_nil_r out) at 2; apply grows_by_app;
      change (blen (@nil byte)) with 0; lia.
  - apply Forall_cons in Hi as [Ht Hi]. apply Forall_cons in Hw as [Hwt Hw]. simpl in Hn.
    apply rbind_Ok in Hn as (k & Hk & Hn). apply rbind_Ok in Hn as (t' & ->%len_add_Ok & Hn).
    pose proof (max_len_nonneg item Hwt k Hk).
    assert (total + k <= n) as Hle.
    { clear He. revert Hn. generalize (total + k). intros a Ha. clear -Ha Hw.
      revert a Ha. induction Hw as [|t ts Hwt Hw IH]; intros a Ha; simpl in Ha; [injection Ha as <-; lia|].
      apply rbind_Ok in Ha as (b & Hb & Ha). apply rbind_Ok in Ha as (c & ->%len_add_Ok & Ha).
      apply IH in Ha. pose proof (max_len_nonneg t Hwt b Hb). lia. }
    destruct vs as [|v vs]; simpl in He.
    + injection He as <-. rewrite <- (app_nil_r out) at 2. apply grows_by_app.
      change (blen (@nil byte)) with 0. lia.
    + apply rbind_Ok in He as (o1 & H1 & H2). replace (n - total) with (k + (n - (total + k))) by lia.
      eapply grows_by_trans; [by eapply Ht|]. by eapply IH.
Qed.

Lemma fields_as_items fields : forall vs out o,
  encode_fields encode_into fields vs out = Ok o ->
  encode_items encode_into (map f_ty fields) (map f_ty vs) out = Ok o.
Proof.
  induction fields as [|[n t] fields IH]; intros [|[n' v] vs] out o He; simpl in *; try done.
  apply bail_if_Ok in He as [_ He]. apply rbind_Ok in He as (o1 & -> & He). simpl. by apply IH.
Qed.

Lemma sum_len_map {A B} (f : A -> B) (len : B -> result Z LenError) parts : forall total,
  sum_len (fun p => len (f p)) total parts = sum_len len total (map f parts).
Proof.
  induction parts as [|p parts IH]; intros total; simpl; [done|].
  destruct (len (f p)); simpl; [|done]. destruct (len_add total value); simpl; [apply IH|done].
Qed.

Lemma variant_bounded index v out o n variants :
  Forall (fun w => all_bounded (v_ty w)) variants -> Forall (fun w => wf_type (v_ty w)) variants ->
  Forall (fun w => exists k, max_encoded_len (v_ty w) = Ok k /\ 1 + k <= n) variants ->
  encode_variant encode_into index v out variants = Ok o -> grows_by n out o.
Proof.
  intros Hi. induction Hi as [|[nm i t] variants Ht Hi IH]; intros Hw Hn He; simpl in *; [done|].
  apply Forall_cons in Hw as [Hwt Hw]. apply Forall_cons in Hn as [(k & Hk & Hle) Hn].
  case_bool_decide; [|by apply IH]. eapply grows_by_le; [|exact Hle].
  eapply grows_by_trans; [by apply (grows_by_app out [index] 1)|]. by eapply Ht.
Qed.

Lemma largest_variant_defined variants : forall max n,
  largest_variant max_encoded_len max variants = Ok n ->
  Forall (fun w => exists k, max_encoded_len (v_ty w) = Ok k) variants.
Proof.
  induction variants as [|[nm i t] variants IH]; intros max n Hn; simpl in Hn; [constructor|].
  apply rbind_Ok in Hn as (a & Ha & Hn). apply rbind_Ok in Hn as (b & Hb & Hn).
  constructor; [by exists a|by eapply IH].
Qed.

Lemma tagged_bounded item v out tag o k :
  all_bounded item -> wf_type item -> max_encoded_len item = Ok k ->
  encode_into item v (out ++ [tag]) = Ok o -> grows_by (1 + k) out o.
Proof.
  intros Hi Hw Hk He. eapply grows_by_trans; [by apply (grows_by_app out [tag] 1)|]. by eapply Hi.
Qed.

Lemma array_bounded item max : all_bounded item -> all_bounded (TArray item max).
Proof.
  intros IH [Hm Hw] v out o n He Hn. simpl in Hn. destruct v; simpl in He; try discriminate He.
  apply rbind_Ok in Hn as (k & Hk & Hn). apply rbind_Ok in Hn as (b & ->%len_mul_Ok & ->%len_add_Ok).
  apply bail_if_Ok in He as [Hg He]. to_prop. apply rbind_Ok in He as (o1 & [_ ->]%push_len_Ok & He).
  unfold u32_ok in Hm. pose proof (blen_nonneg vs). pose proof (max_len_nonneg item Hw k Hk).
  destruct (compact_len_natural (blen vs) max) as [_ Hc]; [lia..|].
  eapply grows_by_trans; [by apply grows_by_app|].
  eapply grows_by_le; [by eapply elements_bounded|]. nia.
Qed.

Lemma composite_bounded ty : all_bounded ty.
Proof.
  revert ty. apply type_ind; [apply leaf_bounded| |apply array_bounded| | | | |].
  - intros item len IH [Hl Hw] v out o n He Hn. simpl in Hn. apply rbind_Ok in Hn as (k & Hk & ->%len_mul_Ok).
    destruct v; simpl in He; try discriminate He. destruct (Z.eqb_spec (blen vs) len) as [<-|]; [|done].
    by eapply elements_bounded.
  - intros item IH Hw v out o n He Hn. simpl in Hn. apply rbind_Ok in Hn as (k & Hk & ->%len_add_Ok).
    pose proof (max_len_nonneg item Hw k Hk).
    destruct v as [| | | | | | | | | |[v|]| |]; simpl in He; try discriminate He; [by eapply tagged_bounded|].
    injection He as <-. apply grows_by_app. change (blen [x00]) with 1. lia.
  - intros items IH Hw v out o n He Hn. apply (fold_right_Forall wf_type) in Hw.
    destruct v; simpl in He; try discriminate He. destruct (blen items =? blen vs); [|done].
    replace n with (n - 0) by lia. by eapply items_bounded.
  - intros fields IH Hw v out o n He Hn. apply (fold_right_Forall (fun f => wf_type (f_ty f))) in Hw.
    destruct v; simpl in He; try discriminate He. destruct (blen fields =? blen fs); [|done].
    apply fields_as_items in He. simpl in Hn. rewrite (sum_len_map f_ty) in Hn.
    replace n with (n - 0) by lia. eapply items_bounded; [by apply Forall_map|by apply Forall_map|done|done].
  - intros variants IH Hw v out o n He Hn. apply (fold_right_Forall (fun w => wf_type (v_ty w))) in Hw.
    destruct v; simpl in He; try discriminate He. simpl in Hn.
    pose proof (largest_variant_defined _ _ _ Hn) as Hd. apply largest_variant_le in Hn as [_ Hle].
    eapply variant_bounded; [exact IH|exact Hw| |exact He]. rewrite Forall_forall in *.
    intros w Hin. destruct (Hd w Hin) as [k Hk]. eauto.
  - intros ok err IHo IHe [Hwo Hwe] v out o n He Hn. simpl in Hn. apply rbind_Ok in Hn as (a & Ha & Hn).
    apply rbind_Ok in Hn as (b & Hb & ->%plain_succ_Ok).
    destruct v as [| | | | | | | | | | | |[v|v]]; simpl in He; try discriminate He.
    + eapply grows_by_le; [eapply (tagged_bounded ok); eauto|lia].
    + eapply grows_by_le; [eapply (tagged_bounded err); eauto|lia].
Qed.

(** C35: encoding and decoding are inverse on values. Whatever [encode] produces
    for a value of a type, [decode] reads back as that value and nothing is left
    over; whatever [decode] accepts is a value that can be encoded again, in at
    most as many bytes, and its encoding decodes to it. *)
Theorem codec_round_trip ty (Hw : wf_type ty) :
  (forall v b, rust_value v -> encode ty v = Ok b -> slice_ok b -> decode ty b = Ok v) /\
  (forall v b, decode ty b = Ok v -> slice_ok b ->
     rust_value v /\ exists b', encode ty v = Ok b' /\ blen b' <= blen b /\ decode ty b' = Ok v).
Proof.
  assert (forall v b, rust_value v -> encode ty v = Ok b -> slice_ok b -> decode ty b = Ok v) as Hf.
  { intros v b Hv He Hb. apply encoded_read_back in He as (x & -> & Hx); [|done].
    by apply run_exact_parses. }
  split; [exact Hf|]. intros v b Hd Hb. apply (run_exact_yields _ _ _ _ _ (decoded_reencodes ty Hw)) in Hd.
  destruct Hd as [Hv (y & Hy & Hle)]. split; [done|]. exists y.
  assert (encode ty v = Ok y) as He by apply (Hy []). split; [done|]. split; [done|].
  apply Hf; [done|done|]. unfold slice_ok in *. lia.
Qed.

Definition sample_type : TypeIr :=
  TRecord [mkField (bstr "id") TU32; mkField (bstr "tags") (TArray (TOption (TString 4)) 3)].
Definition sample_value : Value :=
  VRecord [mkField (bstr "id") (VUnsigned 258);
           mkField (bstr "tags") (VArray [VOption None; VOption (Some (VString (bstr "ab")))])].

Lemma codec_round_trip_witness :
  encode sample_type sample_value = Ok [x02; x01; x00; x00; x02; x00; x01; x02; x61; x62] /\
  decode sample_type [x02; x01; x00; x00; x02; x00; x01; x02; x61; x62] = Ok sample_value /\
  exists b', encode sample_type sample_value = Ok b' /\ blen b' <= 11 /\ decode sample_type b' = Ok sample_value.
Proof.
  assert (wf_type sample_type) as Hw by (vm_compute; repeat split; discriminate).
  split; [vm_compute; reflexivity|]. split.
  - apply (proj1 (codec_round_trip sample_type Hw) sample_value); vm_compute; repeat split; discriminate.
  - apply (proj2 (codec_round_trip sample_type Hw) sample_value
      [x02; x01; x00; x00; x80; x02; x00; x01; x02; x61; x62]); vm_compute; [reflexivity|discriminate].
Defined.

(** C36: no value of a type is encoded in more bytes than the [max_encoded_len]
    of the type, where that length is defined. *)
Theorem encoding_within_max_len ty (Hw : wf_type ty) v b n :
  encode ty v = Ok b -> max_encoded_len ty = Ok n -> blen b <= n.
Proof. intros He Hn. by destruct (composite_bounded ty Hw v [] b n He Hn) as (x & -> & Hx). Qed.

Lemma encoding_within_max_len_witness :
  max_encoded_len sample_type = Ok 23 /\
  blen [x02; x01; x00; x00; x02; x00; x01; x02; x61; x62] <= 23.
Proof.
  assert (wf_type sample_type) as Hw by (vm_compute; repeat split; discriminate).
  split; [vm_compute; reflexivity|].
  apply (encoding_within_max_len sample_type Hw sample_value); vm_compute; reflexivity.
Defined.
