(* ===== verification/Text.v ===== *)
(** * Text

    The functions of [str] the library and the server use, on the UTF-8 bytes of
    the text: characters, [from_utf8_lossy], trimming, searching, splitting and
    the parsing of decimal numbers. *)

From S2P Require Import Prelude Codec.

(** ** Characters *)

Definition second_of_three (c d : byte) : bool :=
  if b2z c =? 224 then between 160 191 d else if b2z c =? 237 then between 128 159 d else is_cont d.
Definition second_of_four (c d : byte) : bool :=
  if b2z c =? 240 then between 144 191 d else if b2z c =? 244 then between 128 143 d else is_cont d.

(** The characters of a byte string; [None] is a longest piece that begins a
    character and does not end it, or a byte that begins none. *)
Fixpoint utf8_chunks (s : bytes) : list (option bytes) :=
  match s with
  | [] => []
  | c :: s1 =>
      if b2z c <? 128 then Some [c] :: utf8_chunks s1
      else if between 194 223 c then
        match s1 with
        | d :: s2 => if is_cont d then Some [c; d] :: utf8_chunks s2 else None :: utf8_chunks s1
        | [] => [None]
        end
      else if between 224 239 c then
        match s1 with
        | d :: s2 =>
            if second_of_three c d then
              match s2 with
              | e :: s3 => if is_cont e then Some [c; d; e] :: utf8_chunks s3 else None :: utf8_chunks s2
              | [] => [None]
              end
            else None :: utf8_chunks s1
        | [] => [None]
        end
      else if between 240 244 c then
        match s1 with
        | d :: s2 =>
            if second_of_four c d then
              match s2 with
              | e :: s3 =>
                  if is_cont e then
                    match s3 with
                    | f :: s4 => if is_cont f then Some [c; d; e; f] :: utf8_chunks s4 else None :: utf8_chunks s3
                    | [] => [None]
                    end
                  else None :: utf8_chunks s2
              | [] => [None]
              end
            else None :: utf8_chunks s1
        | [] => [None]
        end
      else None :: utf8_chunks s1
  end.

(** [String::from_utf8_lossy]. *)
Definition REPLACEMENT : bytes := [xef; xbf; xbd].
Definition lossy (s : bytes) : bytes := concat (map (default REPLACEMENT) (utf8_chunks s)).

(** The characters of a string, each as its bytes. *)
Definition chars (s : bytes) : list bytes := omap id (utf8_chunks s).

(** [char as u32]. *)
Definition code_point (char : bytes) : Z :=
  match char with
  | [c] => b2z c
  | [c; d] => (b2z c - 192) * 64 + (b2z d - 128)
  | [c; d; e] => (b2z c - 224) * 4096 + (b2z d - 128) * 64 + (b2z e - 128)
  | [c; d; e; f] => (b2z c - 240) * 262144 + (b2z d - 128) * 4096 + (b2z e - 128) * 64 + (b2z f - 128)
  | _ => 0
  end.

(** [char::is_whitespace]: the characters with the property White_Space. *)
Definition is_whitespace (char : bytes) : bool :=
  let c := code_point char in
  ((9 <=? c) && (c <=? 13)) || (c =? 32) || (c =? 133) || (c =? 160) || (c =? 5760) || ((8192 <=? c) && (c <=? 8202))
  || (c =? 8232) || (c =? 8233) || (c =? 8239) || (c =? 8287) || (c =? 12288).

(** [char::is_control]: the general category Cc. *)
Definition is_control (char : bytes) : bool :=
  let c := code_point char in (c <=? 31) || ((127 <=? c) && (c <=? 159)).

(** [char::is_ascii_alphanumeric]. *)
Definition is_ascii_alphanumeric (char : bytes) : bool :=
  let c := code_point char in ((48 <=? c) && (c <=? 57)) || ((65 <=? c) && (c <=? 90)) || ((97 <=? c) && (c <=? 122)).

(** ** Trimming and splitting *)

Fixpoint drop_while {A} (p : A -> bool) (l : list A) : list A :=
  match l with
  | [] => []
  | x :: l' => if p x then drop_while p l' else l
  end.

(** [str::trim]. *)
Definition trim (s : bytes) : bytes := concat (rev (drop_while is_whitespace (rev (drop_while is_whitespace (chars s))))).

(** [str::split_whitespace]. *)
Fixpoint words (word : list bytes) (l : list bytes) : list bytes :=
  match l with
  | [] => if bool_decide (word = []) then [] else [concat (rev word)]
  | c :: l' =>
      if is_whitespace c
      then (if bool_decide (word = []) then [] else [concat (rev word)]) ++ words [] l'
      else words (c :: word) l'
  end.
Definition split_whitespace (s : bytes) : list bytes := words [] (chars s).

(** Whether [s] begins with [pattern], and the rest. *)
Fixpoint strip_prefix (pattern s : bytes) : option bytes :=
  match pattern, s with
  | [], _ => Some s
  | p :: pattern', c :: s' => if bool_decide (p = c) then strip_prefix pattern' s' else None
  | _ :: _, [] => None
  end.

(** [str::split_once] at a substring, which is searched for from the left. *)
Fixpoint split_once (pattern s : bytes) : option (bytes * bytes) :=
  match strip_prefix pattern s with
  | Some rest => Some ([], rest)
  | None =>
      match s with
      | [] => None
      | c :: s' => '(before, rest) ← split_once pattern s'; Some (c :: before, rest)
      end
  end.

(** [str::contains]. *)
Definition contains (pattern s : bytes) : bool := bool_decide (is_Some (split_once pattern s)).

(** [str::rsplit_once]: at the last occurrence. *)
Fixpoint rsplit_once (pattern s : bytes) : option (bytes * bytes) :=
  match s with
  | [] => match strip_prefix pattern s with Some rest => Some ([], rest) | None => None end
  | c :: s' =>
      match rsplit_once pattern s' with
      | Some (before, rest) => Some (c :: before, rest)
      | None => match strip_prefix pattern s with Some rest => Some ([], rest) | None => None end
      end
  end.

(** [str::split] and [str::replace] with a pattern that is not empty; every
    occurrence takes some of the text, so its length is fuel enough. *)
Fixpoint split_fuel (fuel : nat) (pattern s : bytes) : list bytes :=
  match fuel with
  | O => [s]
  | S fuel' =>
      match split_once pattern s with
      | Some (before, rest) => before :: split_fuel fuel' pattern rest
      | None => [s]
      end
  end.
Definition split_on (pattern s : bytes) : list bytes := split_fuel (length s) pattern s.

Fixpoint join (separator : bytes) (l : list bytes) : bytes :=
  match l with
  | [] => []
  | [x] => x
  | x :: l' => x ++ separator ++ join separator l'
  end.

(** [str::replace]; the empty pattern is found between all characters. *)
Definition replace (pattern with_ s : bytes) : bytes :=
  if bool_decide (pattern = []) then with_ ++ concat (map (fun c => c ++ with_) (chars s)) else join with_ (split_on pattern s).

(** [str::eq_ignore_ascii_case]. *)
Definition ascii_lower (c : byte) : byte := if between 65 90 c then z2b (b2z c + 32) else c.
Definition eq_ignore_ascii_case (a b : bytes) : bool := bool_decide (map ascii_lower a = map ascii_lower b).

(** ** Numbers *)

(** [text.parse()] for an unsigned type with the greatest value [max]. *)
Fixpoint digits (max acc : Z) (text : bytes) : option Z :=
  match text with
  | [] => Some acc
  | c :: rest =>
      if between 48 57 c
      then shifted ← checked_mul max acc 10; next ← checked_add max shifted (b2z c - 48); digits max next rest
      else None
  end.
Definition parse_unsigned (max : Z) (text : bytes) : option Z :=
  match text with
  | [] => None
  | x2b :: c :: rest => digits max 0 (c :: rest)
  | _ => digits max 0 text
  end.
