(* ===== verification/State.v ===== *)
(** * Managed state with nested transactions ([service-runtime-state])

    [FullState] (the host's whole trie), [StateTransaction] (an overlay over
    it) and [ProofState] (the guest's overlay over a storage proof).  The trie
    itself is the third-party [sp_trie]: a parameter [Trie] with the laws
    [TrieLaws].  Both overlays are proved against one abstract machine,
    [Snapshots]: a map with a stack of saved maps. *)

From S2P Require Import Prelude Ordering Reader Wire ServiceKeys StateView StateDiff.

Inductive StateError :=
| SE_InvalidRoot
| SE_MissingWitness
| SE_InvalidProof
| SE_Backend
| SE_Unsupported
| SE_ReservedKey.

Inductive StateAccessError :=
| SA_MissingWitness
| SA_InvalidProof
| SA_Backend
| SA_ReservedKey
| SA_NeedState (key : bytes)
| SA_NeedExternalState (service_id : Z) (key : bytes)
| SA_Rejected (code : Z)
| SA_ApplicationFailed (code : Z).

#[export] Instance StateAccessError_eq_dec : EqDecision StateAccessError.
Proof. solve_decision. Defined.

Definition state_access_error (error : StateError) : StateAccessError :=
  match error with
  | SE_MissingWitness => SA_MissingWitness
  | SE_InvalidProof => SA_InvalidProof
  | SE_ReservedKey => SA_ReservedKey
  | _ => SA_Backend
  end.

(** ** The [ManagedStateAccess] trait *)

Definition access (S A : Type) : Type := S -> result A StateAccessError * S.

Class ManagedStateAccess (S : Type) := {
  ms_get : bytes -> access S (option bytes);
  ms_set : bytes -> bytes -> access S unit;
  ms_delete : bytes -> access S unit;
  ms_begin : access S unit;
  ms_commit : access S unit;
  ms_rollback : access S unit
}.

(** ** The trie: [MemoryDB], [TrieDB], [TrieDBMut] and [StorageProof] *)

Class Trie := {
  trie_db : Type;
  trie_mut : Type;
  db_default : trie_db;
  (** [StorageProof::into_memory_db] *)
  proof_into_db : list bytes -> trie_db;
  (** [TrieLayout::trie_root] of no pairs *)
  empty_state_root : bytes;
  (** [TrieDB::get]; [None] is an error (a missing node) *)
  trie_get : trie_db -> bytes -> bytes -> option (option bytes);
  (** [TrieDBMutBuilder::new(..).build()]: an empty trie over the database *)
  trie_new : trie_db -> trie_mut;
  (** [TrieDBMutBuilder::from_existing(..).build()] *)
  trie_open : trie_db -> bytes -> trie_mut;
  mut_insert : trie_mut -> bytes -> bytes -> option trie_mut;
  mut_remove : trie_mut -> bytes -> option trie_mut;
  (** dropping a [TrieDBMut] commits it *)
  mut_commit : trie_mut -> trie_db * bytes;
  (** the nodes a [Recorder] sees while the keys are read *)
  recorded_nodes : trie_db -> bytes -> list bytes -> list bytes
}.

Notation kv := (gmap bytes bytes).
(** A write set: [Some v] is a write, [None] a deletion. *)
Notation layer := (gmap bytes (option bytes)).

(** What the sources rely on: a root stands for the contents of a map; a
    complete database answers every read; whatever a proof answers is right;
    a recorded proof answers the recorded keys, and the read of the empty key
    when that key is absent; updates compute the root of the updated map; an
    insertion needs the nodes on the path of its key only (a removal can need
    a sibling node, so nothing is said of removals from a proof). *)
Class TrieLaws `{Trie} := {
  root_of : kv -> bytes;
  complete : trie_db -> kv -> Prop;
  (** an open trie whose contents are the given map *)
  mut_view : trie_mut -> kv -> Prop;
  mut_complete : trie_mut -> kv -> Prop;
  (** an open trie that has the nodes on the path of the key *)
  on_path : trie_mut -> bytes -> Prop;
  empty_root : empty_state_root = root_of ∅;
  (** the layout's empty root is the constant the protocol fixes *)
  empty_root_v1 : empty_state_root = EMPTY_STATE_ROOT_V1;
  default_complete : complete db_default ∅;
  get_complete : forall db m k, complete db m -> trie_get db (root_of m) k = Some (m !! k);
  get_proof_sound : forall nodes m k v,
    trie_get (proof_into_db nodes) (root_of m) k = Some v -> v = m !! k;
  recorded_complete : forall db m keys k, complete db m -> k ∈ keys ->
    trie_get (proof_into_db (recorded_nodes db (root_of m) keys)) (root_of m) k = Some (m !! k);
  recorded_opens : forall db m keys, complete db m -> keys <> [] -> m !! [] = None ->
    trie_get (proof_into_db (recorded_nodes db (root_of m) keys)) (root_of m) [] = Some None;
  recorded_on_path : forall db m keys k, complete db m -> k ∈ keys ->
    on_path (trie_open (proof_into_db (recorded_nodes db (root_of m) keys)) (root_of m)) k;
  insert_on_path : forall t k v, on_path t k ->
    exists t', mut_insert t k v = Some t' /\ forall j, on_path t j -> on_path t' j;
  open_view : forall nodes m, mut_view (trie_open (proof_into_db nodes) (root_of m)) m;
  new_complete : mut_complete (trie_new db_default) ∅;
  open_complete : forall db m, complete db m -> mut_complete (trie_open db (root_of m)) m;
  complete_view : forall t m, mut_complete t m -> mut_view t m;
  insert_view : forall t m k v t', mut_view t m -> mut_insert t k v = Some t' -> mut_view t' (<[k := v]> m);
  remove_view : forall t m k t', mut_view t m -> mut_remove t k = Some t' -> mut_view t' (delete k m);
  insert_complete : forall t m k v, mut_complete t m ->
    exists t', mut_insert t k v = Some t' /\ mut_complete t' (<[k := v]> m);
  remove_complete : forall t m k, mut_complete t m ->
    exists t', mut_remove t k = Some t' /\ mut_complete t' (delete k m);
  commit_root : forall t m, mut_view t m -> (mut_commit t).2 = root_of m;
  commit_complete : forall t m, mut_complete t m -> complete (mut_commit t).1 m
}.

(** ** Write sets *)

(** The map a write set turns [m] into. *)
Definition apply_layer (w : layer) (m : kv) : kv :=
  merge (fun o v => match o with Some x => x | None => v end) w m.

Lemma lookup_apply_layer w m k :
  apply_layer w m !! k = match w !! k with Some x => x | None => m !! k end.
Proof. unfold apply_layer. rewrite lookup_merge. unfold diag_None. by destruct (w !! k), (m !! k). Qed.

Lemma apply_layer_empty m : apply_layer ∅ m = m.
Proof. apply map_eq. intros k. by rewrite lookup_apply_layer, lookup_empty. Qed.

Lemma apply_layer_union w w' m : apply_layer (w ∪ w') m = apply_layer w (apply_layer w' m).
Proof.
  apply map_eq. intros k. rewrite !lookup_apply_layer, lookup_union.
  destruct (w !! k) as [x|], (w' !! k) as [y|]; done.
Qed.

Lemma apply_layer_insert k x w m :
  apply_layer (<[k := x]> w) m = match x with Some v => <[k := v]> (apply_layer w m)
                                            | None => delete k (apply_layer w m) end.
Proof.
  apply map_eq. intros j. rewrite lookup_apply_layer. destruct (decide (j = k)) as [->|Hne].
  - rewrite lookup_insert_eq. destruct x; [by rewrite lookup_insert_eq|by rewrite lookup_delete_eq].
  - rewrite lookup_insert_ne by done. rewrite <- lookup_apply_layer.
    destruct x; [by rewrite lookup_insert_ne|by rewrite lookup_delete_ne].
Qed.

(** [BTreeMap] iteration: the entries in key order, as state changes. *)
Definition layer_changes (w : layer) : list StateChangeV1 :=
  map (fun p => mkEntry p.1 p.2) (sort_by_key fst (map_to_list w)).

Lemma layer_changes_keys w : map key (layer_changes w) = map fst (sort_by_key fst (map_to_list w)).
Proof. unfold layer_changes. rewrite map_map. done. Qed.

Lemma map_to_list_nodup (w : layer) : NoDup (map fst (map_to_list w)).
Proof. apply (NoDup_fst_map_to_list w). Qed.

Lemma StronglySorted_map {A B} (f : A -> B) (R : B -> B -> Prop) l :
  StronglySorted (fun x y => R (f x) (f y)) l <-> StronglySorted R (map f l).
Proof.
  induction l as [|x l IH]; simpl; [split; constructor|].
  rewrite !StronglySorted_cons, IH, Forall_map. done.
Qed.

Lemma layer_changes_ssorted w : key_ssorted key (layer_changes w).
Proof.
  unfold layer_changes, key_ssorted.
  apply (StronglySorted_map (fun p : bytes * option bytes => mkEntry p.1 p.2)
    (fun x y => klt (key x) (key y))). simpl.
  apply sort_by_key_ssorted, map_to_list_nodup.
Qed.

Lemma elem_of_layer_changes w k x : mkEntry k x ∈ layer_changes w <-> w !! k = Some x.
Proof.
  unfold layer_changes. rewrite <- elem_of_map_to_list. split.
  - intros ([k' x'] & [= -> ->] & Hin)%list_elem_of_fmap_1. by rewrite sort_by_key_perm in Hin.
  - intros Hin. apply (list_elem_of_fmap_2 (fun p : bytes * option bytes => mkEntry p.1 p.2) _ (k, x)).
    by rewrite sort_by_key_perm.
Qed.

(** Applying changes one after the other. *)
Definition apply_change (m : kv) (c : StateChangeV1) : kv :=
  match value c with Some v => <[key c := v]> m | None => delete (key c) m end.
Definition apply_changes (cs : list StateChangeV1) (m : kv) : kv := fold_left apply_change cs m.

Lemma lookup_apply_changes_ne cs k : forall m,
  k ∉ map key cs -> apply_changes cs m !! k = m !! k.
Proof.
  induction cs as [|c cs IH]; intros m Hk; simpl; [done|].
  simpl in Hk. apply not_elem_of_cons in Hk as [Hne Hk]. unfold apply_changes in IH.
  rewrite IH by done. unfold apply_change.
  destruct (value c); [by rewrite lookup_insert_ne|by rewrite lookup_delete_ne].
Qed.

Lemma lookup_apply_changes cs k x : forall m,
  NoDup (map key cs) -> mkEntry k x ∈ cs -> apply_changes cs m !! k = x.
Proof.
  induction cs as [|c cs IH]; intros m Hnd Hin; [by apply elem_of_nil in Hin|].
  simpl in *. apply NoDup_cons in Hnd as [Hc Hnd]. apply elem_of_cons in Hin as [<-|Hin].
  - unfold apply_changes in *. simpl. change (fold_left apply_change cs ?m) with (apply_changes cs m).
    rewrite lookup_apply_changes_ne by done. unfold apply_change. simpl.
    destruct x; [by rewrite lookup_insert_eq|by rewrite lookup_delete_eq].
  - by apply IH.
Qed.

(** The sorted changes of a write set do to a map what the write set does. *)
Lemma apply_layer_changes w m : apply_changes (layer_changes w) m = apply_layer w m.
Proof.
  apply map_eq. intros k. rewrite lookup_apply_layer. destruct (w !! k) as [x|] eqn:Hw.
  - apply lookup_apply_changes; [|by apply elem_of_layer_changes].
    apply key_ssorted_nodup, layer_changes_ssorted.
  - apply lookup_apply_changes_ne. intros ([k' x] & -> & Hin)%list_elem_of_fmap_1.
    apply elem_of_layer_changes in Hin. simpl in Hw. congruence.
Qed.

(** ** The overlay both state types keep

    [transactions] lists the open transactions, innermost first. *)

Module Overlay.
Record t := mk { writes : layer; transactions : list layer }.

Definition new : t := mk ∅ [].

Definition begin_transaction (o : t) : t := mk (writes o) (∅ :: transactions o).

Definition commit_transaction (o : t) : result unit StateError * t :=
  match transactions o with
  | [] => (Err SE_Backend, o)
  | changes :: parent :: rest => (Ok tt, mk (writes o) ((changes ∪ parent) :: rest))
  | [changes] => (Ok tt, mk (changes ∪ writes o) [])
  end.

Definition rollback_transaction (o : t) : result unit StateError * t :=
  match transactions o with
  | [] => (Err SE_Backend, o)
  | _ :: rest => (Ok tt, mk (writes o) rest)
  end.

(** The innermost transaction that mentions the key decides. *)
Fixpoint first_value (ts : list layer) (key : bytes) : option (option bytes) :=
  match ts with
  | [] => None
  | transaction :: ts' =>
      match transaction !! key with
      | Some value => Some value
      | None => first_value ts' key
      end
  end.
Definition overlay_value (o : t) (key : bytes) : option (option bytes) :=
  match first_value (transactions o) key with
  | Some value => Some value
  | None => writes o !! key
  end.

(** [self.transactions.last_mut().unwrap_or(&mut self.writes).insert(..)]. *)
Definition put (o : t) (key : bytes) (x : option bytes) : t :=
  match transactions o with
  | [] => mk (<[key := x]> (writes o)) []
  | top :: rest => mk (writes o) (<[key := x]> top :: rest)
  end.

(** *** The map the overlay shows over a base *)

Definition view (base : kv) (writes : layer) (ts : list layer) : kv :=
  foldr apply_layer (apply_layer writes base) ts.
Fixpoint saved (base : kv) (writes : layer) (ts : list layer) : list kv :=
  match ts with
  | [] => []
  | _ :: ts' => view base writes ts' :: saved base writes ts'
  end.

Lemma view_lookup base o k :
  view base (writes o) (transactions o) !! k
  = match overlay_value o k with Some x => x | None => base !! k end.
Proof.
  unfold overlay_value, view. induction (transactions o) as [|t ts IH]; simpl.
  - apply lookup_apply_layer.
  - rewrite lookup_apply_layer. destruct (t !! k); [done|apply IH].
Qed.

Lemma view_put base o k x :
  view base (writes (put o k x)) (transactions (put o k x))
  = match x with Some v => <[k := v]> (view base (writes o) (transactions o))
            | None => delete k (view base (writes o) (transactions o)) end.
Proof. unfold put, view. destruct (transactions o); simpl; apply apply_layer_insert. Qed.

Lemma saved_put base o k x :
  saved base (writes (put o k x)) (transactions (put o k x)) = saved base (writes o) (transactions o).
Proof. unfold put. by destruct (transactions o). Qed.
End Overlay.

(** ** The abstract machine: a map and the maps saved by open transactions *)

Module Snapshots.
Record t := mk { current : kv; saved : list kv }.

Definition get (k : bytes) : access t (option bytes) := fun s => (Ok (current s !! k), s).
Definition update (k : bytes) (x : option bytes) : access t unit := fun s =>
  if Keys.is_reserved_service_storage_key k then (Err SA_ReservedKey, s)
  else (Ok tt, mk (match x with Some v => <[k := v]> (current s) | None => delete k (current s) end)
                 (saved s)).
Definition begin_ : access t unit := fun s => (Ok tt, mk (current s) (current s :: saved s)).
Definition commit : access t unit := fun s =>
  match saved s with
  | [] => (Err SA_Backend, s)
  | _ :: rest => (Ok tt, mk (current s) rest)
  end.
Definition rollback : access t unit := fun s =>
  match saved s with
  | [] => (Err SA_Backend, s)
  | m :: rest => (Ok tt, mk m rest)
  end.

#[global] Instance snapshots_access : ManagedStateAccess t := {|
  ms_get := get;
  ms_set k v := update k (Some v);
  ms_delete k := update k None;
  ms_begin := begin_;
  ms_commit := commit;
  ms_rollback := rollback
|}.

(** The snapshots an overlay stands for. *)
Definition of_overlay (base : kv) (o : Overlay.t) : t :=
  mk (Overlay.view base (Overlay.writes o) (Overlay.transactions o))
     (Overlay.saved base (Overlay.writes o) (Overlay.transactions o)).

Lemma of_overlay_begin base o :
  of_overlay base (Overlay.begin_transaction o) = (begin_ (of_overlay base o)).2.
Proof. unfold of_overlay, begin_, Overlay.begin_transaction. simpl. by rewrite apply_layer_empty. Qed.

Lemma of_overlay_commit base o :
  match Overlay.commit_transaction o with
  | (Ok _, o') => commit (of_overlay base o) = (Ok tt, of_overlay base o')
  | (Err _, o') => o' = o /\ commit (of_overlay base o) = (Err SA_Backend, of_overlay base o)
  end.
Proof.
  unfold Overlay.commit_transaction, commit, of_overlay. destruct (Overlay.transactions o) as [|t [|t' ts]] eqn:Ht;
    simpl; rewrite ?Ht; simpl; [done| |].
  - by rewrite apply_layer_union.
  - by rewrite apply_layer_union.
Qed.

Lemma of_overlay_rollback base o :
  match Overlay.rollback_transaction o with
  | (Ok _, o') => rollback (of_overlay base o) = (Ok tt, of_overlay base o')
  | (Err _, o') => o' = o /\ rollback (of_overlay base o) = (Err SA_Backend, of_overlay base o)
  end.
Proof.
  unfold Overlay.rollback_transaction, rollback, of_overlay. destruct (Overlay.transactions o) eqn:Ht;
    simpl; rewrite ?Ht; done.
Qed.

Lemma of_overlay_put base o k x :
  Keys.is_reserved_service_storage_key k = false ->
  update k x (of_overlay base o) = (Ok tt, of_overlay base (Overlay.put o k x)).
Proof.
  intros Hk. unfold update, of_overlay. rewrite Hk. rewrite Overlay.view_put, Overlay.saved_put. done.
Qed.

Lemma of_overlay_get base o k :
  (get k (of_overlay base o)).1
  = Ok match Overlay.overlay_value o k with Some x => x | None => base !! k end.
Proof. unfold get, of_overlay. simpl. by rewrite Overlay.view_lookup. Qed.
End Snapshots.
