(* ===== verification/ModelTrie.v ===== *)
(** * A model of the trie

    An instance of [Trie] that satisfies [TrieLaws], so that the theorems about
    proofs apply to concrete states: a root is an encoding of the whole map, a
    storage proof is the list of keys it covers. *)

From S2P Require Import Prelude Ordering Reader Wire StateView StateDiff State.

(** The number of a map, in at least 31 bytes and followed by [0xff], so that
    it is never the root of the empty map; small maps have 32-byte roots. *)
Definition number_bytes (p : positive) : bytes :=
  to_le_bytes (Z.to_nat (Z.max 31 (Z.log2 (Z.pos p) / 8 + 1))) (Z.pos p) ++ [xff].
Definition bytes_number (b : bytes) : positive := Z.to_pos (from_le_bytes (b_slice b 0 (blen b - 1))).

Lemma bytes_number_bytes p : bytes_number (number_bytes p) = p.
Proof.
  unfold bytes_number, number_bytes. set (n := Z.max 31 (Z.log2 (Z.pos p) / 8 + 1)).
  assert (0 <= n) by lia. rewrite blen_app, blen_to_le_bytes. change (blen [xff]) with 1.
  rewrite Z.add_simpl_r. unfold b_slice. rewrite Z.sub_0_r, drop_0, Nat2Z.id.
  rewrite take_app_le by (pose proof (blen_to_le_bytes (Z.to_nat n) (Z.pos p)); unfold blen in *; lia).
  rewrite take_ge by (pose proof (blen_to_le_bytes (Z.to_nat n) (Z.pos p)); unfold blen in *; lia).
  rewrite from_to_le_bytes_small; [done|]. split; [lia|]. rewrite Z2Nat.id by done.
  change 256 with (2 ^ 8). rewrite <- Z.pow_mul_r by lia.
  pose proof (Z.log2_spec (Z.pos p) ltac:(lia)) as [_ Hl].
  eapply Z.lt_le_trans; [exact Hl|]. apply Z.pow_le_mono_r; [lia|].
  pose proof (Z.div_mod (Z.log2 (Z.pos p)) 8 ltac:(lia)).
  pose proof (Z.mod_pos_bound (Z.log2 (Z.pos p)) 8 ltac:(lia)). lia.
Qed.

Definition model_root (m : kv) : bytes :=
  if decide (m = ∅) then EMPTY_STATE_ROOT_V1 else number_bytes (encode m).
Definition model_map (root : bytes) : option kv :=
  if decide (root = EMPTY_STATE_ROOT_V1) then Some ∅ else decode (bytes_number root).

Lemma number_bytes_not_empty p : number_bytes p <> EMPTY_STATE_ROOT_V1.
Proof.
  unfold number_bytes. intros H. apply (f_equal last) in H. rewrite last_snoc in H.
  vm_compute in H. discriminate.
Qed.

Lemma model_map_root m : model_map (model_root m) = Some m.
Proof.
  unfold model_map, model_root. destruct (decide (m = ∅)) as [->|].
  - by rewrite decide_True.
  - rewrite decide_False by apply number_bytes_not_empty. rewrite bytes_number_bytes. apply decode_encode.
Qed.

(** [None] is a whole database, [Some keys] the database of a proof. *)
Definition covers (db : option (list bytes)) (k : bytes) : bool :=
  match db with
  | None => true
  | Some keys => bool_decide (k ∈ keys) || (bool_decide (k = []) && negb (bool_decide (keys = [])))
  end.

#[global] Instance model_trie : Trie := {|
  trie_db := option (list bytes);
  trie_mut := kv;
  db_default := None;
  proof_into_db nodes := Some nodes;
  empty_state_root := model_root ∅;
  trie_get db root k := if covers db k then (fun m : kv => m !! k) <$> model_map root else None;
  trie_new _ := ∅;
  trie_open _ root := default ∅ (model_map root);
  mut_insert t k v := Some (<[k := v]> t);
  mut_remove t k := Some (delete k t);
  mut_commit t := (None, model_root t);
  recorded_nodes _ _ keys := keys
|}.

#[global] Program Instance model_trie_laws : TrieLaws := {|
  root_of := model_root;
  complete db _ := db = None;
  mut_view t m := t = m;
  mut_complete t m := t = m;
  on_path _ _ := True
|}.
Next Obligation. done. Qed.
Next Obligation. done. Qed.
Next Obligation. done. Qed.
Next Obligation. intros db m k ->. simpl. by rewrite model_map_root. Qed.
Next Obligation. intros nodes m k v. simpl. case_match; [|done]. rewrite model_map_root. by intros [= <-]. Qed.
Next Obligation.
  intros db m keys k _ Hk. simpl. rewrite bool_decide_eq_true_2 by done. by rewrite model_map_root.
Qed.
Next Obligation.
  intros db m keys _ Hne Hm. simpl. rewrite model_map_root. simpl.
  rewrite (bool_decide_eq_false_2 (keys = [])) by done. rewrite orb_true_r. simpl. by rewrite Hm.
Qed.
Next Obligation. done. Qed.
Next Obligation. intros t k v _. by eexists. Qed.
Next Obligation. intros nodes m. simpl. by rewrite model_map_root. Qed.
Next Obligation. done. Qed.
Next Obligation. intros db m _. simpl. by rewrite model_map_root. Qed.
Next Obligation. done. Qed.
Next Obligation. intros t m k v t' -> [= <-]. done. Qed.
Next Obligation. intros t m k t' -> [= <-]. done. Qed.
Next Obligation. intros t m k v ->. by eexists. Qed.
Next Obligation. intros t m k ->. by eexists. Qed.
Next Obligation. by intros t m ->. Qed.
Next Obligation. done. Qed.
