(* ===== verification/Overlays.v ===== *)
(** * [FullState], [StateTransaction] and [ProofState] ([service-runtime-state]) *)

From S2P Require Import Prelude Ordering Reader Wire ServiceKeys StateView StateDiff State ModelTrie.

(** One change of a diff applied to an open trie. *)
Definition mut_apply `{Trie} (t : trie_mut) (change : StateChangeV1) : result trie_mut StateError :=
  match value change with
  | Some v => ok_or (mut_insert t (key change) v) SE_Backend
  | None => ok_or (mut_remove t (key change)) SE_Backend
  end.

Section MutApply.
Context `{TrieLaws}.

Lemma mut_apply_view cs : forall t m t',
  mut_view t m -> rfold mut_apply t cs = Ok t' -> mut_view t' (apply_changes cs m).
Proof.
  induction cs as [|c cs IH]; intros t m t' Hv Hr; simpl in Hr; result_inv; [done|].
  eapply IH; [|done]. unfold mut_apply, apply_change in *.
  destruct (value c); result_inv; [by eapply insert_view|by eapply remove_view].
Qed.

Lemma mut_apply_complete cs : forall t m,
  mut_complete t m ->
  exists t', rfold mut_apply t cs = Ok t' /\ mut_complete t' (apply_changes cs m).
Proof.
  induction cs as [|c cs IH]; intros t m Hc; simpl; [eauto|].
  unfold mut_apply at 1, apply_change. destruct (value c) as [v|].
  - destruct (insert_complete t m (key c) v Hc) as (t' & -> & Hc'). simpl. by apply IH.
  - destruct (remove_complete t m (key c) Hc) as (t' & -> & Hc'). simpl. by apply IH.
Qed.
End MutApply.

(** ** [FullState] *)

Module FullState.
Section Ops.
Context `{Trie}.

Record t := mk { db : trie_db; root : bytes }.

Definition empty : t := mk db_default empty_state_root.

Definition from_pairs (pairs : list (bytes * bytes)) : result t StateError :=
  let? trie := rfold (fun trie p => ok_or (mut_insert trie p.1 p.2) SE_Backend)
                 (trie_new (db empty)) pairs in
  let '(db, root) := mut_commit trie in
  Ok (mk db root).

Definition get (s : t) (k : bytes) : result (option bytes) StateError :=
  ok_or (trie_get (db s) (root s) k) SE_Backend.

Definition proof_for (s : t) (keys : list bytes) : result (list bytes) StateError :=
  let? _ := rfor (fun k => let? _ := ok_or (trie_get (db s) (root s) k) SE_Backend in Ok tt) keys in
  Ok (recorded_nodes (db s) (root s) keys).

Definition apply_diff (s : t) (diff : StateDiff.t) : result t StateError :=
  match StateDiff.changes diff with
  | [] => Ok s
  | changes =>
      let? trie := rfold mut_apply (trie_open (db s) (root s)) changes in
      let '(db, root) := mut_commit trie in
      Ok (mk db root)
  end.
End Ops.

Section Laws.
Context `{TrieLaws}.

(** The state holds exactly the map [m]. *)
Definition rep (s : t) (m : kv) : Prop := complete (db s) m /\ root s = root_of m.

Lemma empty_rep : rep empty ∅.
Proof. split; [apply default_complete|apply empty_root]. Qed.

Lemma get_rep s m k : rep s m -> get s k = Ok (m !! k).
Proof. intros [Hc Hr]. unfold get. by rewrite Hr, get_complete. Qed.

(** Roots tell maps apart: a proof recorded for one map cannot answer for
    another. *)
Lemma root_of_inj db m m' : complete db m -> root_of m = root_of m' -> m = m'.
Proof.
  intros Hc Hr. apply map_eq. intros k.
  pose proof (recorded_complete db m [k] k Hc ltac:(set_solver)) as Hg. rewrite Hr in Hg.
  by apply get_proof_sound in Hg.
Qed.

Lemma rep_inj s m s' m' : rep s m -> rep s' m' -> root s = root s' -> m = m'.
Proof. intros [Hc Hr] [_ Hr'] Heq. eapply root_of_inj; [exact Hc|congruence]. Qed.

Lemma from_pairs_rep pairs :
  exists s, from_pairs pairs = Ok s /\ rep s (fold_left (fun m p => <[p.1 := p.2]> m) pairs ∅).
Proof.
  unfold from_pairs. simpl.
  assert (forall t m, mut_complete t m -> exists t',
    rfold (fun trie p => ok_or (mut_insert trie p.1 p.2) SE_Backend) t pairs = Ok t'
    /\ mut_complete t' (fold_left (fun m p => <[p.1 := p.2]> m) pairs m)) as Hl.
  { induction pairs as [|[k v] pairs IH]; intros t m Hc; simpl; [eauto|].
    destruct (insert_complete t m k v Hc) as (t' & -> & Hc'). simpl. by apply IH. }
  destruct (Hl _ _ new_complete) as (t' & -> & Hc). simpl.
  destruct (mut_commit t') as [d r] eqn:Hm. exists (mk d r). split; [done|].
  pose proof (commit_complete _ _ Hc) as Hd. pose proof (commit_root _ _ (complete_view _ _ Hc)) as Hr.
  rewrite Hm in Hd, Hr. done.
Qed.

Lemma proof_for_rep s m keys :
  rep s m -> exists nodes, proof_for s keys = Ok nodes
    /\ forall k, k ∈ keys -> trie_get (proof_into_db nodes) (root s) k = Some (m !! k).
Proof.
  intros [Hc Hr]. unfold proof_for. rewrite Hr. eexists. split.
  - assert (rfor (fun k => let? _ := ok_or (trie_get (db s) (root_of m) k) SE_Backend in Ok tt) keys = Ok tt)
      as ->; [|done].
    apply rfor_Ok, Forall_forall. intros k _. by rewrite get_complete.
  - intros k Hk. by apply recorded_complete.
Qed.

Lemma apply_diff_rep s m d :
  rep s m -> exists s', apply_diff s d = Ok s' /\ rep s' (apply_changes (StateDiff.changes d) m).
Proof.
  intros [Hc Hr]. unfold apply_diff. rewrite Hr. destruct (StateDiff.changes d) as [|c cs] eqn:Hcs.
  { exists s. done. }
  rewrite <- Hcs. destruct (mut_apply_complete (StateDiff.changes d) _ _ (open_complete _ _ Hc))
    as (t' & Ht & Hc'). rewrite Ht. simpl. destruct (mut_commit t') as [d' r'] eqn:Hm.
  exists (mk d' r'). split; [done|].
  pose proof (commit_complete _ _ Hc') as Hd. pose proof (commit_root _ _ (complete_view _ _ Hc')) as Hr'.
  rewrite Hm in Hd, Hr'. done.
Qed.
End Laws.
End FullState.

(** ** [StateTransaction] *)

Module StateTransaction.
Section Ops.
Context `{Trie}.

Record t := mk { base : FullState.t; overlay : Overlay.t; touched : gset bytes }.

Definition new (base : FullState.t) : t := mk base Overlay.new ∅.

Definition with_overlay (s : t) (o : Overlay.t) : t := mk (base s) o (touched s).
Definition touch (s : t) (k : bytes) : t := mk (base s) (overlay s) ({[k]} ∪ touched s).

Definition get (k : bytes) : access t (option bytes) := fun s =>
  match Overlay.overlay_value (overlay s) k with
  | Some value => (Ok value, s)
  | None =>
      let s := touch s k in
      (map_err state_access_error (FullState.get (base s) k), s)
  end.

(** [set] and [delete] differ only in the entry they insert. *)
Definition update (k : bytes) (x : option bytes) : access t unit := fun s =>
  if Keys.is_reserved_service_storage_key k then (Err (state_access_error SE_ReservedKey), s)
  else
    let s := touch s k in
    (Ok tt, with_overlay s (Overlay.put (overlay s) k x)).

Definition begin_transaction : access t unit := fun s =>
  (Ok tt, with_overlay s (Overlay.begin_transaction (overlay s))).
Definition commit_transaction : access t unit := fun s =>
  let '(r, o) := Overlay.commit_transaction (overlay s) in
  (map_err (fun _ => SA_Backend) r, with_overlay s o).
Definition rollback_transaction : access t unit := fun s =>
  let '(r, o) := Overlay.rollback_transaction (overlay s) in
  (map_err (fun _ => SA_Backend) r, with_overlay s o).

#[global] Instance state_access : ManagedStateAccess t := {|
  ms_get := get;
  ms_set k v := update k (Some v);
  ms_delete k := update k None;
  ms_begin := begin_transaction;
  ms_commit := commit_transaction;
  ms_rollback := rollback_transaction
|}.

Definition finish_with_proof (s : t) : result (FullState.t * StateDiff.t * list bytes) StateError :=
  bail_if match Overlay.transactions (overlay s) with [] => false | _ => true end with SE_Backend ;;
  let? proof := FullState.proof_for (base s) (sort_by_key id (elements (touched s))) in
  let diff := StateDiff.mk (layer_changes (Overlay.writes (overlay s))) in
  let? next := FullState.apply_diff (base s) diff in
  Ok (next, diff, proof).

Definition finish (s : t) : result (FullState.t * StateDiff.t) StateError :=
  let? '(state, diff, _) := finish_with_proof s in
  Ok (state, diff).
End Ops.
End StateTransaction.

(** ** [ProofState] *)

Module ProofState.
Section Ops.
Context `{Trie}.

Record t := mk { db : trie_db; root : bytes; base_cache : layer; overlay : Overlay.t }.

Definition from_witness (root : bytes) (proof : list bytes) : result t StateError :=
  let db := proof_into_db proof in
  let? _ := ok_or (trie_get db root []) SE_MissingWitness in
  Ok (mk db root ∅ Overlay.new).

Definition parent_root (s : t) : bytes := root s.

Definition with_overlay (s : t) (o : Overlay.t) : t := mk (db s) (root s) (base_cache s) o.

Definition base_value (k : bytes) (s : t) : result (option bytes) StateError * t :=
  match base_cache s !! k with
  | Some value => (Ok value, s)
  | None =>
      match trie_get (db s) (root s) k with
      | None => (Err SE_MissingWitness, s)
      | Some value => (Ok value, mk (db s) (root s) (<[k := value]> (base_cache s)) (overlay s))
      end
  end.

Definition get (k : bytes) : access t (option bytes) := fun s =>
  match Overlay.overlay_value (overlay s) k with
  | Some value => (Ok value, s)
  | None =>
      let '(r, s) := base_value k s in
      (map_err state_access_error r, s)
  end.

Definition update (k : bytes) (x : option bytes) : access t unit := fun s =>
  if Keys.is_reserved_service_storage_key k then (Err (state_access_error SE_ReservedKey), s)
  else
    let '(r, s) :=
      match Overlay.overlay_value (overlay s) k, base_cache s !! k with
      | None, None => base_value k s
      | _, _ => (Ok None, s)
      end in
    match r with
    | Err e => (Err (state_access_error e), s)
    | Ok _ => (Ok tt, with_overlay s (Overlay.put (overlay s) k x))
    end.

Definition begin_transaction : access t unit := fun s =>
  (Ok tt, with_overlay s (Overlay.begin_transaction (overlay s))).
Definition commit_transaction : access t unit := fun s =>
  let '(r, o) := Overlay.commit_transaction (overlay s) in
  (map_err (fun _ => SA_Backend) r, with_overlay s o).
Definition rollback_transaction : access t unit := fun s =>
  let '(r, o) := Overlay.rollback_transaction (overlay s) in
  (map_err (fun _ => SA_Backend) r, with_overlay s o).

#[global] Instance state_access : ManagedStateAccess t := {|
  ms_get := get;
  ms_set k v := update k (Some v);
  ms_delete k := update k None;
  ms_begin := begin_transaction;
  ms_commit := commit_transaction;
  ms_rollback := rollback_transaction
|}.

Definition finish (s : t) : result (bytes * StateDiff.t) StateError :=
  bail_if match Overlay.transactions (overlay s) with [] => false | _ => true end with SE_Backend ;;
  let diff := StateDiff.mk (layer_changes (Overlay.writes (overlay s))) in
  match StateDiff.changes diff with
  | [] => Ok (root s, diff)
  | changes =>
      let? trie := rfold mut_apply (trie_open (db s) (root s)) changes in
      Ok ((mut_commit trie).2, diff)
  end.
End Ops.
End ProofState.

(** ** Refinement of [Snapshots]

    [exact_op]: same result, related states.  [lossy_op]: the operation may
    also report a missing witness, and then nothing has happened. *)

Section Refinement.
Context {S : Type} (R : S -> Snapshots.t -> Prop).

Definition exact_op {A} (op : access S A) (spec : access Snapshots.t A) : Prop :=
  forall s a, R s a -> (op s).1 = (spec a).1 /\ R (op s).2 (spec a).2.
Definition lossy_op {A} (op : access S A) (spec : access Snapshots.t A) : Prop :=
  forall s a, R s a ->
  ((op s).1 = (spec a).1 /\ R (op s).2 (spec a).2)
  \/ ((op s).1 = Err SA_MissingWitness /\ R (op s).2 a).
End Refinement.

(** What an implementation of [ManagedStateAccess] promises to refine. *)
Class SnapshotRefinement (S : Type) `{ManagedStateAccess S} (R : S -> Snapshots.t -> Prop) : Prop := {
  ref_get k : lossy_op R (ms_get k) (ms_get k);
  ref_set k v : lossy_op R (ms_set k v) (ms_set k v);
  ref_delete k : lossy_op R (ms_delete k) (ms_delete k);
  ref_begin : exact_op R ms_begin ms_begin;
  ref_commit : exact_op R ms_commit ms_commit;
  ref_rollback : exact_op R ms_rollback ms_rollback
}.

Lemma exact_lossy {S A} (R : S -> Snapshots.t -> Prop) (op : access S A) spec :
  exact_op R op spec -> lossy_op R op spec.
Proof. intros H s a HR. left. by apply H. Qed.

Section TransactionRefinement.
Context `{TrieLaws}.
Implicit Types (s : StateTransaction.t) (a : Snapshots.t) (m : kv).

(** A transaction over a state that holds [m] stands for these snapshots. *)
Definition tx_sim m s a : Prop :=
  FullState.rep (StateTransaction.base s) m /\ a = Snapshots.of_overlay m (StateTransaction.overlay s).

Lemma tx_get m k : exact_op (tx_sim m) (StateTransaction.get k) (Snapshots.get k).
Proof.
  intros s a [Hrep ->]. unfold StateTransaction.get.
  pose proof (Snapshots.of_overlay_get m (StateTransaction.overlay s) k) as Hg.
  destruct (Overlay.overlay_value (StateTransaction.overlay s) k) as [v|]; simpl in *; [done|].
  rewrite (FullState.get_rep _ m) by done. done.
Qed.

Lemma tx_update m k x : exact_op (tx_sim m) (StateTransaction.update k x) (Snapshots.update k x).
Proof.
  intros s a [Hrep ->]. unfold StateTransaction.update.
  destruct (Keys.is_reserved_service_storage_key k) eqn:Hk.
  - unfold Snapshots.update. by rewrite Hk.
  - by rewrite Snapshots.of_overlay_put.
Qed.

Lemma tx_begin m : exact_op (tx_sim m) StateTransaction.begin_transaction Snapshots.begin_.
Proof. intros s a [Hrep ->]. split; [done|]. split; [done|]. symmetry. apply Snapshots.of_overlay_begin. Qed.

Lemma tx_commit m : exact_op (tx_sim m) StateTransaction.commit_transaction Snapshots.commit.
Proof.
  intros s a [Hrep ->]. unfold StateTransaction.commit_transaction.
  pose proof (Snapshots.of_overlay_commit m (StateTransaction.overlay s)) as Hc.
  destruct (Overlay.commit_transaction (StateTransaction.overlay s)) as [[[]|e] o]; simpl.
  - by rewrite Hc.
  - destruct Hc as [-> Hc]. by rewrite Hc.
Qed.

Lemma tx_rollback m : exact_op (tx_sim m) StateTransaction.rollback_transaction Snapshots.rollback.
Proof.
  intros s a [Hrep ->]. unfold StateTransaction.rollback_transaction.
  pose proof (Snapshots.of_overlay_rollback m (StateTransaction.overlay s)) as Hc.
  destruct (Overlay.rollback_transaction (StateTransaction.overlay s)) as [[[]|e] o]; simpl.
  - by rewrite Hc.
  - destruct Hc as [-> Hc]. by rewrite Hc.
Qed.

#[export] Instance transaction_refinement m : SnapshotRefinement StateTransaction.t (tx_sim m).
Proof.
  split; intros.
  - apply exact_lossy, tx_get.
  - apply exact_lossy, tx_update.
  - apply exact_lossy, tx_update.
  - apply tx_begin.
  - apply tx_commit.
  - apply tx_rollback.
Qed.

(** Finishing produces the current map, its diff and its root. *)
Lemma tx_finish m s a :
  tx_sim m s a -> Snapshots.saved a = [] ->
  exists next diff proof, StateTransaction.finish_with_proof s = Ok (next, diff, proof)
    /\ FullState.rep next (Snapshots.current a)
    /\ apply_changes (StateDiff.changes diff) m = Snapshots.current a
    /\ key_ssorted key (StateDiff.changes diff)
    /\ forall k, k ∈ StateTransaction.touched s ->
         trie_get (proof_into_db proof) (root_of m) k = Some (m !! k).
Proof.
  intros [Hrep ->] Hs. unfold StateTransaction.finish_with_proof.
  destruct (Overlay.transactions (StateTransaction.overlay s)) eqn:Ht;
    [|unfold Snapshots.of_overlay in Hs; simpl in Hs; by rewrite Ht in Hs].
  destruct (FullState.proof_for_rep _ m (sort_by_key id (elements (StateTransaction.touched s))) Hrep)
    as (nodes & -> & Hnodes). cbn [rbind].
  set (diff := StateDiff.mk _).
  destruct (FullState.apply_diff_rep _ m diff Hrep) as (next & -> & Hnext). cbn [rbind].
  assert (apply_changes (StateDiff.changes diff) m
    = Snapshots.current (Snapshots.of_overlay m (StateTransaction.overlay s))) as Hcur.
  { simpl. rewrite Ht. simpl. apply apply_layer_changes. }
  exists next, diff, nodes. split; [done|]. split; [by rewrite <- Hcur|]. split; [done|].
  split; [apply layer_changes_ssorted|]. intros k Hk.
  destruct Hrep as [_ <-]. apply Hnodes. rewrite sort_by_key_perm. by apply elem_of_elements.
Qed.
End TransactionRefinement.

Section ProofRefinement.
Context `{TrieLaws}.
Implicit Types (s : ProofState.t) (a : Snapshots.t) (m : kv).

(** A proof state under the root of [m] stands for these snapshots. *)
Definition ps_sim m s a : Prop :=
  (exists nodes, ProofState.db s = proof_into_db nodes) /\ ProofState.root s = root_of m
  /\ (forall k v, ProofState.base_cache s !! k = Some v -> v = m !! k)
  /\ a = Snapshots.of_overlay m (ProofState.overlay s).

Lemma ps_from_witness m proof s :
  ProofState.from_witness (root_of m) proof = Ok s -> ps_sim m s (Snapshots.mk m []).
Proof.
  unfold ProofState.from_witness. intros Hw. result_inv. split; [by eexists|]. split; [done|].
  split; [intros k v; simpl; by rewrite lookup_empty|]. unfold Snapshots.of_overlay. simpl.
  by rewrite apply_layer_empty.
Qed.

Lemma ps_base_value m s a k :
  ps_sim m s a ->
  let '(r, s') := ProofState.base_value k s in
  ps_sim m s' a /\ ProofState.overlay s' = ProofState.overlay s
  /\ (r = Ok (m !! k) \/ r = Err SE_MissingWitness).
Proof.
  intros (Hdb & Hr & Hc & Ha). unfold ProofState.base_value.
  destruct (ProofState.base_cache s !! k) as [v|] eqn:Hk.
  - split; [done|]. split; [done|]. left. f_equal. by apply Hc.
  - destruct (trie_get (ProofState.db s) (ProofState.root s) k) as [v|] eqn:Hg.
    + assert (v = m !! k) as ->.
      { destruct Hdb as [nodes Hn]. rewrite Hn, Hr in Hg. by eapply get_proof_sound. }
      split; [|split; [done|by left]]. split; [done|]. split; [done|]. split; [|done].
      simpl. intros j w. destruct (decide (j = k)) as [->|].
      * rewrite lookup_insert_eq. by intros [= <-].
      * rewrite lookup_insert_ne by done. apply Hc.
    + split; [done|]. split; [done|]. by right.
Qed.

Lemma ps_get m k : lossy_op (ps_sim m) (ProofState.get k) (Snapshots.get k).
Proof.
  intros s a Hsim. pose proof Hsim as (_ & _ & _ & Ha). unfold ProofState.get.
  pose proof (Snapshots.of_overlay_get m (ProofState.overlay s) k) as Hg. rewrite <- Ha in Hg.
  destruct (Overlay.overlay_value (ProofState.overlay s) k) as [v|]; [left; by rewrite Hg|].
  pose proof (ps_base_value m s a k Hsim) as Hb.
  destruct (ProofState.base_value k s) as [r s']. destruct Hb as (Hs' & _ & [-> | ->]).
  - left. by rewrite Hg.
  - by right.
Qed.

Lemma ps_put m s a k x :
  ps_sim m s a -> Keys.is_reserved_service_storage_key k = false ->
  Snapshots.update k x a
    = (Ok tt, Snapshots.of_overlay m (Overlay.put (ProofState.overlay s) k x))
  /\ ps_sim m (ProofState.with_overlay s (Overlay.put (ProofState.overlay s) k x))
       (Snapshots.of_overlay m (Overlay.put (ProofState.overlay s) k x)).
Proof.
  intros (Hdb & Hr & Hc & ->) Hk. split; [by apply Snapshots.of_overlay_put|].
  split; [done|]. split; [done|]. by split.
Qed.

Lemma ps_update m k x : lossy_op (ps_sim m) (ProofState.update k x) (Snapshots.update k x).
Proof.
  intros s a Hsim. unfold ProofState.update.
  destruct (Keys.is_reserved_service_storage_key k) eqn:Hk.
  { left. unfold Snapshots.update. by rewrite Hk. }
  assert (forall s', ps_sim m s' a ->
    (Ok tt : result unit StateAccessError) = (Snapshots.update k x a).1
    /\ ps_sim m (ProofState.with_overlay s' (Overlay.put (ProofState.overlay s') k x))
         (Snapshots.update k x a).2) as Hput.
  { intros s' Hs'. destruct (ps_put m s' a k x Hs' Hk) as [-> ?]. done. }
  destruct (Overlay.overlay_value (ProofState.overlay s) k); [left; by apply Hput|].
  destruct (ProofState.base_cache s !! k); [left; by apply Hput|].
  pose proof (ps_base_value m s a k Hsim) as Hb.
  destruct (ProofState.base_value k s) as [r s']. destruct Hb as (Hs' & _ & [-> | ->]).
  - left. by apply Hput.
  - by right.
Qed.

Lemma ps_with_overlay m s a o a' :
  ps_sim m s a -> a' = Snapshots.of_overlay m o -> ps_sim m (ProofState.with_overlay s o) a'.
Proof. intros (Hdb & Hr & Hc & _) ->. done. Qed.

#[export] Instance proof_refinement m : SnapshotRefinement ProofState.t (ps_sim m).
Proof.
  split; intros; [apply ps_get|apply ps_update|apply ps_update|..]; intros s a Hsim;
    pose proof Hsim as (_ & _ & _ & ->).
  - split; [done|]. eapply ps_with_overlay; [done|]. symmetry. apply Snapshots.of_overlay_begin.
  - simpl. unfold ProofState.commit_transaction.
    pose proof (Snapshots.of_overlay_commit m (ProofState.overlay s)) as Hc.
    destruct (Overlay.commit_transaction (ProofState.overlay s)) as [[[]|e] o]; simpl.
    + rewrite Hc. split; [done|]. by eapply ps_with_overlay.
    + destruct Hc as [-> Hc]. rewrite Hc. split; [done|]. by eapply ps_with_overlay.
  - simpl. unfold ProofState.rollback_transaction.
    pose proof (Snapshots.of_overlay_rollback m (ProofState.overlay s)) as Hc.
    destruct (Overlay.rollback_transaction (ProofState.overlay s)) as [[[]|e] o]; simpl.
    + rewrite Hc. split; [done|]. by eapply ps_with_overlay.
    + destruct Hc as [-> Hc]. rewrite Hc. split; [done|]. by eapply ps_with_overlay.
Qed.

(** If finishing succeeds, the root and the diff are those of the current map. *)
Lemma ps_finish m s a root diff :
  ps_sim m s a -> ProofState.finish s = Ok (root, diff) ->
  Snapshots.saved a = [] /\ root = root_of (Snapshots.current a)
  /\ diff = StateDiff.mk (layer_changes (Overlay.writes (ProofState.overlay s)))
  /\ apply_changes (StateDiff.changes diff) m = Snapshots.current a
  /\ key_ssorted key (StateDiff.changes diff).
Proof.
  intros ((nodes & Hdb) & Hr & _ & ->). unfold ProofState.finish.
  destruct (Overlay.transactions (ProofState.overlay s)) eqn:Ht; [|done]. cbn [StateDiff.changes].
  intros Hf. set (w := Overlay.writes (ProofState.overlay s)) in *.
  assert (apply_changes (layer_changes w) m
    = Snapshots.current (Snapshots.of_overlay m (ProofState.overlay s))) as Hcur.
  { simpl. rewrite Ht. simpl. apply apply_layer_changes. }
  assert (root = root_of (apply_changes (layer_changes w) m)
          /\ diff = StateDiff.mk (layer_changes w)) as [-> ->].
  { destruct (layer_changes w) as [|c cs] eqn:Hcs; [by simplify_eq|].
    rewrite Hdb, Hr in Hf. apply rbind_Ok in Hf as (t & Ht' & [= <- <-]).
    split; [|done]. apply commit_root. eapply mut_apply_view; [|exact Ht']. apply open_view. }
  split; [simpl; by rewrite Ht|]. split; [by rewrite Hcur|]. split; [done|]. split; [done|].
  apply layer_changes_ssorted.
Qed.
End ProofRefinement.

(** ** Sequences of calls *)

Inductive call := CGet (k : bytes) | CSet (k v : bytes) | CDelete (k : bytes)
  | CBegin | CCommit | CRollback.

Definition no_value {S} (op : access S unit) : access S (option bytes) := fun s =>
  let '(r, s) := op s in (let? _ := r in Ok None, s).

Definition do_call {S} `{ManagedStateAccess S} (c : call) : access S (option bytes) :=
  match c with
  | CGet k => ms_get k
  | CSet k v => no_value (ms_set k v)
  | CDelete k => no_value (ms_delete k)
  | CBegin => no_value ms_begin
  | CCommit => no_value ms_commit
  | CRollback => no_value ms_rollback
  end.

Fixpoint do_calls {S} `{ManagedStateAccess S} (cs : list call) (s : S)
    : list (result (option bytes) StateAccessError) * S :=
  match cs with
  | [] => ([], s)
  | c :: cs' =>
      let '(r, s) := do_call c s in
      let '(rs, s) := do_calls cs' s in
      (r :: rs, s)
  end.

(** Replay answered calls on the abstract machine, skipping those answered
    with a missing witness; [None] when an answer is not the machine's. *)
Fixpoint replay (a : Snapshots.t) (l : list (call * result (option bytes) StateAccessError))
    : option Snapshots.t :=
  match l with
  | [] => Some a
  | (c, r) :: l' =>
      if bool_decide (r = Err SA_MissingWitness) then replay a l'
      else
        let '(r', a') := do_call c a in
        if bool_decide (r = r') then replay a' l' else None
  end.

Lemma exact_no_value {S} (R : S -> Snapshots.t -> Prop) op spec :
  exact_op R op spec -> exact_op R (no_value op) (no_value spec).
Proof.
  intros Ho s a HR. destruct (Ho s a HR) as [Hr Hs]. unfold no_value.
  destruct (op s), (spec a). simpl in *. by subst.
Qed.

Lemma lossy_no_value {S} (R : S -> Snapshots.t -> Prop) op spec :
  lossy_op R op spec -> lossy_op R (no_value op) (no_value spec).
Proof.
  intros Ho s a HR. destruct (Ho s a HR) as [[Hr Hs]|[Hr Hs]]; unfold no_value;
    destruct (op s), (spec a); simpl in *; subst; [by left|by right].
Qed.

Section Calls.
Context `{TrieLaws}.

Lemma tx_call m c : exact_op (tx_sim m) (do_call c) (do_call c).
Proof.
  destruct c; simpl; [apply tx_get|..]; apply exact_no_value;
    [apply tx_update|apply tx_update|apply tx_begin|apply tx_commit|apply tx_rollback].
Qed.

Lemma tx_calls m cs : forall s a,
  tx_sim m s a ->
  (do_calls cs s).1 = (do_calls cs a).1 /\ tx_sim m (do_calls cs s).2 (do_calls cs a).2.
Proof.
  induction cs as [|c cs IH]; intros s a Hs; [done|]. cbn [do_calls].
  destruct (tx_call m c s a Hs) as [Hr Hs1]. destruct (do_call c s) as [r s1], (do_call c a) as [r' a1].
  simpl in *. subst r'. destruct (IH s1 a1 Hs1) as [Hrs Hs2].
  destruct (do_calls cs s1), (do_calls cs a1). simpl in *. by subst.
Qed.

Lemma ps_call m c : lossy_op (ps_sim m) (do_call c) (do_call c).
Proof.
  destruct c; simpl; [apply ps_get|..]; apply lossy_no_value; try apply ps_update; apply exact_lossy.
  - exact (@ref_begin _ _ _ (proof_refinement m)).
  - exact (@ref_commit _ _ _ (proof_refinement m)).
  - exact (@ref_rollback _ _ _ (proof_refinement m)).
Qed.

(** The abstract machine has every witness. *)
Lemma spec_call_no_missing c (a : Snapshots.t) : (do_call c a).1 <> Err SA_MissingWitness.
Proof.
  destruct c; simpl; unfold no_value, Snapshots.update, Snapshots.commit, Snapshots.rollback;
    repeat case_match; simplify_eq; simpl; congruence.
Qed.

Lemma ps_calls m cs : forall s a,
  ps_sim m s a ->
  exists a', replay a (zip cs (do_calls cs s).1) = Some a' /\ ps_sim m (do_calls cs s).2 a'.
Proof.
  induction cs as [|c cs IH]; intros s a Hs; [by eexists|]. cbn [do_calls].
  pose proof (spec_call_no_missing c a) as Hnm.
  destruct (ps_call m c s a Hs) as [[Hr Hs1]|[Hr Hs1]]; destruct (do_call c s) as [r s1]; simpl in Hr, Hs1.
  - destruct (IH s1 _ Hs1) as (a' & Ha' & Hsim). destruct (do_calls cs s1) as [rs s2].
    exists a'. split; [|done]. cbn [zip zip_with replay fst]. rewrite bool_decide_eq_false_2 by congruence.
    destruct (do_call c a) as [r' a1]. simpl in *. subst. by rewrite bool_decide_eq_true_2.
  - destruct (IH s1 a Hs1) as (a' & Ha' & Hsim). destruct (do_calls cs s1) as [rs s2].
    exists a'. split; [|done]. cbn [zip zip_with replay fst]. subst r. by rewrite bool_decide_eq_true_2.
Qed.
End Calls.

(** C25: a host transaction is a map with nested savepoints.  Any sequence of
    reads, writes, deletions, begins, commits and rollbacks over a full state
    that holds [m] gets exactly the answers of the abstract machine started on
    [m] (reserved keys refused, an unmatched commit or rollback refused); and
    when no transaction is left open, finishing succeeds with a state that
    holds the machine's map and a diff, sorted by key, that turns [m] into it. *)
Theorem transaction_refines_snapshots `{TrieLaws} (full : FullState.t) (m : kv) (cs : list call) :
  FullState.rep full m ->
  (do_calls cs (StateTransaction.new full)).1 = (do_calls cs (Snapshots.mk m [])).1
  /\ (Snapshots.saved (do_calls cs (Snapshots.mk m [])).2 = [] ->
      exists next diff,
        StateTransaction.finish (do_calls cs (StateTransaction.new full)).2 = Ok (next, diff)
        /\ FullState.rep next (Snapshots.current (do_calls cs (Snapshots.mk m [])).2)
        /\ apply_changes (StateDiff.changes diff) m = Snapshots.current (do_calls cs (Snapshots.mk m [])).2
        /\ key_ssorted key (StateDiff.changes diff)).
Proof.
  intros Hrep. destruct (tx_calls m cs (StateTransaction.new full) (Snapshots.mk m [])) as [Hr Hs].
  { split; [done|]. unfold Snapshots.of_overlay. simpl. by rewrite apply_layer_empty. }
  split; [done|]. intros Hsaved. destruct (tx_finish m _ _ Hs Hsaved) as (next & diff & proof & Hf & Hn & Ha & Hk & _).
  exists next, diff. unfold StateTransaction.finish. by rewrite Hf.
Qed.

(** C26: a proof-backed state never lies.  Whatever calls are made on a state
    opened from a witness for the root of [m], every answer other than a
    missing witness is the abstract machine's (a call answered with a missing
    witness has done nothing), and if finishing succeeds the returned root is
    the root of the machine's map and the diff turns [m] into it. *)
Theorem proof_state_never_lies `{TrieLaws} (m : kv) (proof : list bytes) (s : ProofState.t) (cs : list call) :
  ProofState.from_witness (root_of m) proof = Ok s ->
  exists a, replay (Snapshots.mk m []) (zip cs (do_calls cs s).1) = Some a
    /\ forall root diff, ProofState.finish (do_calls cs s).2 = Ok (root, diff) ->
         root = root_of (Snapshots.current a)
         /\ apply_changes (StateDiff.changes diff) m = Snapshots.current a
         /\ key_ssorted key (StateDiff.changes diff).
Proof.
  intros Hw. destruct (ps_calls m cs s _ (ps_from_witness _ _ _ Hw)) as (a & Ha & Hs). exists a.
  split; [done|]. intros root diff Hf. by destruct (ps_finish _ _ _ _ _ Hs Hf) as (_ & ? & _ & ? & ?).
Qed.

Definition sample_base : FullState.t := FullState.mk None (model_root {[ [x01] := [x05] ]}).
Definition sample_calls : list call :=
  [CGet [x01]; CBegin; CSet [x01] [x02]; CBegin; CDelete [x01]; CGet [x01]; CRollback; CGet [x01];
   CCommit; CGet [x07]; CRollback].

Lemma transaction_refines_snapshots_witness :
  (do_calls sample_calls (StateTransaction.new sample_base)).1
  = [Ok (Some [x05]); Ok None; Ok None; Ok None; Ok None; Ok None; Ok None; Ok (Some [x02]); Ok None; Ok None;
     Err SA_Backend].
Proof.
  destruct (transaction_refines_snapshots sample_base
    {[ [x01] := [x05] ]} sample_calls) as [Hr _]; [split; reflexivity|].
  rewrite Hr. vm_compute. reflexivity.
Defined.

Lemma proof_state_never_lies_witness :
  exists s a, ProofState.from_witness (model_root {[ [x01] := [x05] ]}) [[x01]] = Ok s
    /\ replay (Snapshots.mk {[ [x01] := [x05] ]} []) (zip sample_calls (do_calls sample_calls s).1) = Some a.
Proof.
  destruct (ProofState.from_witness (model_root {[ [x01] := [x05] ]}) [[x01]]) as [s|] eqn:Hs.
  2: { exfalso. assert (is_ok (ProofState.from_witness (model_root {[ [x01] := [x05] ]}) [[x01]]) = true) as Hok;
         [vm_compute; reflexivity|]. by rewrite Hs in Hok. }
  destruct (@proof_state_never_lies model_trie model_trie_laws {[ [x01] := [x05] ]} [[x01]] s sample_calls Hs) as (a & Ha & _).
  exists s, a. split; [reflexivity|exact Ha].
Defined.
