(* ===== verification/Execution.v ===== *)
(** * Applications and their execution context

    [ServiceApplication::execute] receives an [ExecutionContext].  An
    application is modelled as the tree of context calls it makes, [prog]: each
    node is one method of the context, its branches are the possible answers.
    [run] interprets the tree over any state that implements
    [ManagedStateAccess] and any [ExternalStateAccess], as the Rust trait
    objects do. *)

From S2P Require Import Prelude Ordering Reader Wire ServiceKeys StateView StateDiff Witness Ownership State Overlays.

Class ExternalStateAccess (E : Type) := ext_get : Z -> bytes -> access E (option bytes).

(** ** [ExecutionContext] *)

Record context (S E : Type) := mkContext {
  cx_state : S;
  cx_access_plan : option AccessPlan.t;
  cx_external_state : option E;
  cx_sender : option bytes;
  cx_owner : option Ownership.t;
  cx_controller : option Ownership.t;
  cx_network_domain : bytes;
  cx_transition_valid_until : option Z
}.
Arguments mkContext {S E} _ _ _ _ _ _ _ _.
Arguments cx_state {S E} _.
Arguments cx_access_plan {S E} _.
Arguments cx_external_state {S E} _.
Arguments cx_sender {S E} _.
Arguments cx_owner {S E} _.
Arguments cx_controller {S E} _.
Arguments cx_network_domain {S E} _.
Arguments cx_transition_valid_until {S E} _.

Section Context_.
Context {S E : Type} `{ManagedStateAccess S} `{ExternalStateAccess E}.
Implicit Types c : context S E.

Definition with_access_plan (state : S) (sender : option bytes) (plan : AccessPlan.t)
    (network_domain : bytes) : context S E :=
  mkContext state (Some plan) None sender None None network_domain None.

Definition with_access_plan_and_external_state (state : S) (sender : option bytes)
    (plan : AccessPlan.t) (external : E) (network_domain : bytes) : context S E :=
  mkContext state (Some plan) (Some external) sender None None network_domain None.

Definition set_state c (s : S) : context S E :=
  mkContext s (cx_access_plan c) (cx_external_state c) (cx_sender c) (cx_owner c) (cx_controller c)
    (cx_network_domain c) (cx_transition_valid_until c).

(** A call on [self.state]. *)
Definition on_state {A} (op : access S A) : access (context S E) A := fun c =>
  let '(r, s) := op (cx_state c) in (r, set_state c s).

Definition external_get (service_id : Z) (k : bytes) : access (context S E) (option bytes) := fun c =>
  match cx_external_state c with
  | None => (Err SA_Backend, c)
  | Some e =>
      let '(r, e) := ext_get service_id k e in
      (r, mkContext (cx_state c) (cx_access_plan c) (Some e) (cx_sender c) (cx_owner c)
            (cx_controller c) (cx_network_domain c) (cx_transition_valid_until c))
  end.

(** The reads of [state_view]: the application keys of the plan, in order. *)
Fixpoint collect (keys : list bytes) : access S (list StateViewEntryV1) := fun s =>
  match keys with
  | [] => (Ok [], s)
  | k :: keys' =>
      if negb (bool_decide (head k = Some APPLICATION_KEY_CLASS_V1)) then collect keys' s
      else
        match ms_get k s with
        | (Err e, s) => (Err e, s)
        | (Ok v, s) =>
            let '(r, s) := collect keys' s in
            (let? es := r in Ok (mkEntry k v :: es), s)
        end
  end.

Definition state_view : access (context S E) StateView.t := fun c =>
  match cx_access_plan c with
  | None => (Err SA_Backend, c)
  | Some plan =>
      let '(r, s) := collect (AccessPlan.keys plan) (cx_state c) in
      (let? entries := r in map_err (fun _ => SA_Backend) (StateView.from_entries entries),
       set_state c s)
  end.

Definition set_ownership c (owner controller : Ownership.t) : context S E :=
  mkContext (cx_state c) (cx_access_plan c) (cx_external_state c) (cx_sender c) (Some owner)
    (Some controller) (cx_network_domain c) (cx_transition_valid_until c).

Definition constrain_valid_until c (valid_until : Z) : context S E :=
  mkContext (cx_state c) (cx_access_plan c) (cx_external_state c) (cx_sender c) (cx_owner c)
    (cx_controller c) (cx_network_domain c)
    (Some match cx_transition_valid_until c with
          | None => valid_until
          | Some current => Z.min current valid_until
          end).
End Context_.

(** ** Applications *)

Inductive prog : Type :=
| Return (r : result unit StateAccessError)
| Get (k : bytes) (cont : result (option bytes) StateAccessError -> prog)
| SetKey (k v : bytes) (cont : result unit StateAccessError -> prog)
| Delete (k : bytes) (cont : result unit StateAccessError -> prog)
| Begin (cont : result unit StateAccessError -> prog)
| Commit (cont : result unit StateAccessError -> prog)
| Rollback (cont : result unit StateAccessError -> prog)
| ExternalGet (service_id : Z) (k : bytes) (cont : result (option bytes) StateAccessError -> prog)
| ViewState (cont : result StateView.t StateAccessError -> prog)
| AskSender (cont : option bytes -> prog)
| AskDomain (cont : bytes -> prog)
| AskOwner (cont : option Ownership.t -> prog)
| AskController (cont : option Ownership.t -> prog)
| AskValidUntil (cont : option Z -> prog)
| SetOwnership (owner controller : Ownership.t) (next : prog)
| ConstrainValidUntil (valid_until : Z) (next : prog).

Fixpoint run {S E} `{ManagedStateAccess S} `{ExternalStateAccess E} (p : prog)
    : access (context S E) unit := fun c =>
  match p with
  | Return r => (r, c)
  | Get k cont => let '(r, c) := on_state (ms_get k) c in run (cont r) c
  | SetKey k v cont => let '(r, c) := on_state (ms_set k v) c in run (cont r) c
  | Delete k cont => let '(r, c) := on_state (ms_delete k) c in run (cont r) c
  | Begin cont => let '(r, c) := on_state ms_begin c in run (cont r) c
  | Commit cont => let '(r, c) := on_state ms_commit c in run (cont r) c
  | Rollback cont => let '(r, c) := on_state ms_rollback c in run (cont r) c
  | ExternalGet id k cont => let '(r, c) := external_get id k c in run (cont r) c
  | ViewState cont => let '(r, c) := state_view c in run (cont r) c
  | AskSender cont => run (cont (cx_sender c)) c
  | AskDomain cont => run (cont (cx_network_domain c)) c
  | AskOwner cont => run (cont (cx_owner c)) c
  | AskController cont => run (cont (cx_controller c)) c
  | AskValidUntil cont => run (cont (cx_transition_valid_until c)) c
  | SetOwnership owner controller next => run next (set_ownership c owner controller)
  | ConstrainValidUntil v next => run next (constrain_valid_until c v)
  end.

(** ** Two disciplines of application code *)

(** [ends_missing p]: whatever the answers of the state, [p] ends with
    [MissingWitness], as long as its transactions open and close. *)
Fixpoint ends_missing (p : prog) : Prop :=
  match p with
  | Return r => r = Err SA_MissingWitness
  | Get _ c | ExternalGet _ _ c => forall r, ends_missing (c r)
  | SetKey _ _ c | Delete _ c => forall r, ends_missing (c r)
  | Begin c | Commit c | Rollback c => ends_missing (c (Ok tt))
  | ViewState c => forall r, ends_missing (c r)
  | AskSender c => forall r, ends_missing (c r)
  | AskDomain c => forall r, ends_missing (c r)
  | AskOwner c | AskController c => forall r, ends_missing (c r)
  | AskValidUntil c => forall r, ends_missing (c r)
  | SetOwnership _ _ n | ConstrainValidUntil _ n => ends_missing n
  end.

(** [propagates p]: a missing witness is never swallowed (Rust's [?]); closing
    transactions on the way out is fine. *)
Fixpoint propagates (p : prog) : Prop :=
  match p with
  | Return _ => True
  | Get _ c | ExternalGet _ _ c =>
      ends_missing (c (Err SA_MissingWitness)) /\ forall r, propagates (c r)
  | SetKey _ _ c | Delete _ c =>
      ends_missing (c (Err SA_MissingWitness)) /\ forall r, propagates (c r)
  | ViewState c => ends_missing (c (Err SA_MissingWitness)) /\ forall r, propagates (c r)
  | Begin c | Commit c | Rollback c => propagates (c (Ok tt))
  | AskSender c => forall r, propagates (c r)
  | AskDomain c => forall r, propagates (c r)
  | AskOwner c | AskController c => forall r, propagates (c r)
  | AskValidUntil c => forall r, propagates (c r)
  | SetOwnership _ _ n | ConstrainValidUntil _ n => propagates n
  end.

(** [balanced n p]: [p], with [n] transactions of its own open, closes exactly
    those it opened. *)
Fixpoint balanced (n : nat) (p : prog) : Prop :=
  match p with
  | Return _ => n = 0%nat
  | Get _ c | ExternalGet _ _ c => forall r, balanced n (c r)
  | SetKey _ _ c | Delete _ c => forall r, balanced n (c r)
  | ViewState c => forall r, balanced n (c r)
  | Begin c => balanced (Datatypes.S n) (c (Ok tt))
  | Commit c | Rollback c => exists n', n = Datatypes.S n' /\ balanced n' (c (Ok tt))
  | AskSender c => forall r, balanced n (c r)
  | AskDomain c => forall r, balanced n (c r)
  | AskOwner c | AskController c => forall r, balanced n (c r)
  | AskValidUntil c => forall r, balanced n (c r)
  | SetOwnership _ _ n' | ConstrainValidUntil _ n' => balanced n n'
  end.

(** ** Invariants of the state

    What every operation of the state keeps, every program keeps. *)

Section Invariant.
Context {S E : Type} `{ManagedStateAccess S} `{ExternalStateAccess E} (I : S -> Prop).

Definition keeps {A} (op : access S A) : Prop := forall s, I s -> I (op s).2.

Record ops_keep : Prop := {
  ok_get k : keeps (ms_get k);
  ok_set k v : keeps (ms_set k v);
  ok_delete k : keeps (ms_delete k);
  ok_begin : keeps ms_begin;
  ok_commit : keeps ms_commit;
  ok_rollback : keeps ms_rollback
}.
Context (Hops : ops_keep).

Lemma on_state_keeps {A} (op : access S A) (c : context S E) :
  keeps op -> I (cx_state c) -> I (cx_state (on_state op c).2).
Proof.
  intros Hop Hc. unfold on_state. pose proof (Hop _ Hc). by destruct (op (cx_state c)).
Qed.

Lemma collect_keeps keys : keeps (collect keys).
Proof.
  induction keys as [|k keys IH]; intros s Hs; simpl; [done|]. case_match; [by apply IH|].
  pose proof (ok_get Hops k s Hs). destruct (ms_get k s) as [[v|e] s']; simpl in *; [|done].
  pose proof (IH s'). destruct (collect keys s'). simpl in *. auto.
Qed.

Lemma run_keeps (p : prog) : forall c : context S E, I (cx_state c) -> I (cx_state (run p c).2).
Proof.
  induction p as [r|k cont IH|k v cont IH|k cont IH|cont IH|cont IH|cont IH|id k cont IH|cont IH
    |cont IH|cont IH|cont IH|cont IH|cont IH|o1 o2 n IH|v n IH]; intros c Hc; cbn [run]; try done;
    try (by apply IH).
  - pose proof (on_state_keeps _ c (ok_get Hops k) Hc). destruct (on_state _ c). by apply IH.
  - pose proof (on_state_keeps _ c (ok_set Hops k v) Hc). destruct (on_state _ c). by apply IH.
  - pose proof (on_state_keeps _ c (ok_delete Hops k) Hc). destruct (on_state _ c). by apply IH.
  - pose proof (on_state_keeps _ c (ok_begin Hops) Hc). destruct (on_state _ c). by apply IH.
  - pose proof (on_state_keeps _ c (ok_commit Hops) Hc). destruct (on_state _ c). by apply IH.
  - pose proof (on_state_keeps _ c (ok_rollback Hops) Hc). destruct (on_state _ c). by apply IH.
  - assert (I (cx_state (external_get id k c).2)) as Hx.
    { unfold external_get. destruct (cx_external_state c); [|done]. by destruct (ext_get id k _). }
    destruct (external_get id k c). by apply IH.
  - assert (I (cx_state (state_view c).2)) as Hx.
    { unfold state_view. destruct (cx_access_plan c) as [plan|]; [|done].
      pose proof (collect_keeps (AccessPlan.keys plan) _ Hc). by destruct (collect _ _). }
    destruct (state_view c). by apply IH.
Qed.
End Invariant.

(** ** Depth of the transaction stack

    A program that closes exactly the transactions it opened leaves the stack
    as deep as it found it. *)

Section Depth.
Context {S E : Type} `{ManagedStateAccess S} `{ExternalStateAccess E} (depth : S -> nat).

Record ops_depth : Prop := {
  od_get k s : depth (ms_get k s).2 = depth s;
  od_set k v s : depth (ms_set k v s).2 = depth s;
  od_delete k s : depth (ms_delete k s).2 = depth s;
  od_begin s : (ms_begin s).1 = Ok tt /\ depth (ms_begin s).2 = Datatypes.S (depth s);
  od_commit s n : depth s = Datatypes.S n -> (ms_commit s).1 = Ok tt /\ depth (ms_commit s).2 = n;
  od_rollback s n : depth s = Datatypes.S n -> (ms_rollback s).1 = Ok tt /\ depth (ms_rollback s).2 = n
}.
Context (Hops : ops_depth).

Lemma collect_depth keys : forall s, depth (collect keys s).2 = depth s.
Proof.
  induction keys as [|k keys IH]; intros s; simpl; [done|]. case_match; [apply IH|].
  pose proof (od_get Hops k s) as Hk. destruct (ms_get k s) as [[v|e] s']; simpl in *; [|done].
  pose proof (IH s'). destruct (collect keys s'). simpl in *. congruence.
Qed.

Lemma run_depth (p : prog) : forall n (c : context S E) d,
  balanced n p -> depth (cx_state c) = (n + d)%nat -> depth (cx_state (run p c).2) = d.
Proof.
  induction p as [r|k cont IH|k v cont IH|k cont IH|cont IH|cont IH|cont IH|id k cont IH|cont IH
    |cont IH|cont IH|cont IH|cont IH|cont IH|o1 o2 n IH|v n IH]; intros m c d Hb Hd; cbn [run balanced] in *.
  - by subst.
  - pose proof (od_get Hops k (cx_state c)). unfold on_state. destruct (ms_get k (cx_state c)).
    eapply IH; [apply Hb|]. simpl in *. congruence.
  - pose proof (od_set Hops k v (cx_state c)). unfold on_state. destruct (ms_set k v (cx_state c)).
    eapply IH; [apply Hb|]. simpl in *. congruence.
  - pose proof (od_delete Hops k (cx_state c)). unfold on_state. destruct (ms_delete k (cx_state c)).
    eapply IH; [apply Hb|]. simpl in *. congruence.
  - destruct (od_begin Hops (cx_state c)) as [Hr Hs]. unfold on_state. destruct (ms_begin (cx_state c)).
    simpl in *. subst. eapply IH; [apply Hb|]. simpl in *. lia.
  - destruct Hb as (n & -> & Hb). destruct (od_commit Hops (cx_state c) (n + d) Hd) as [Hr Hs].
    unfold on_state. destruct (ms_commit (cx_state c)). simpl in *. subst. by eapply IH.
  - destruct Hb as (n & -> & Hb). destruct (od_rollback Hops (cx_state c) (n + d) Hd) as [Hr Hs].
    unfold on_state. destruct (ms_rollback (cx_state c)). simpl in *. subst. by eapply IH.
  - unfold external_get. destruct (cx_external_state c) as [e|]; [destruct (ext_get id k e)|]; by eapply IH.
  - unfold state_view. destruct (cx_access_plan c) as [plan|]; [|by eapply IH].
    pose proof (collect_depth (AccessPlan.keys plan) (cx_state c)). destruct (collect _ (cx_state c)).
    eapply IH; [apply Hb|]. simpl in *. congruence.
  - by eapply IH.
  - by eapply IH.
  - by eapply IH.
  - by eapply IH.
  - by eapply IH.
  - by eapply IH.
  - by eapply IH.
Qed.

(** Once a witness was missing, the program ends with that error. *)
Lemma ends_missing_run (p : prog) : forall n (c : context S E),
  balanced n p -> ends_missing p -> (n <= depth (cx_state c))%nat -> (run p c).1 = Err SA_MissingWitness.
Proof.
  induction p as [r|k cont IH|k v cont IH|k cont IH|cont IH|cont IH|cont IH|id k cont IH|cont IH
    |cont IH|cont IH|cont IH|cont IH|cont IH|o1 o2 n IH|v n IH]; intros m c Hb He Hd; cbn [run balanced ends_missing] in *;
    try done; try (by eapply IH).
  - pose proof (od_get Hops k (cx_state c)). unfold on_state. destruct (ms_get k (cx_state c)).
    eapply IH; [apply Hb|apply He|]. simpl in *. lia.
  - pose proof (od_set Hops k v (cx_state c)). unfold on_state. destruct (ms_set k v (cx_state c)).
    eapply IH; [apply Hb|apply He|]. simpl in *. lia.
  - pose proof (od_delete Hops k (cx_state c)). unfold on_state. destruct (ms_delete k (cx_state c)).
    eapply IH; [apply Hb|apply He|]. simpl in *. lia.
  - destruct (od_begin Hops (cx_state c)) as [Hr Hs]. unfold on_state. destruct (ms_begin (cx_state c)).
    simpl in *. subst. eapply IH; [apply Hb|apply He|]. simpl in *. lia.
  - destruct Hb as (n & -> & Hb). destruct (depth (cx_state c)) as [|d] eqn:Hdc; [lia|].
    destruct (od_commit Hops (cx_state c) d Hdc) as [Hr Hs].
    unfold on_state. destruct (ms_commit (cx_state c)). simpl in *. subst. eapply IH; [apply Hb|apply He|]. simpl. lia.
  - destruct Hb as (n & -> & Hb). destruct (depth (cx_state c)) as [|d] eqn:Hdc; [lia|].
    destruct (od_rollback Hops (cx_state c) d Hdc) as [Hr Hs].
    unfold on_state. destruct (ms_rollback (cx_state c)). simpl in *. subst. eapply IH; [apply Hb|apply He|]. simpl. lia.
  - unfold external_get. destruct (cx_external_state c) as [e|]; [destruct (ext_get id k e)|]; by eapply IH.
  - unfold state_view. destruct (cx_access_plan c) as [plan|]; [|by eapply IH].
    pose proof (collect_depth (AccessPlan.keys plan) (cx_state c)). destruct (collect _ (cx_state c)).
    eapply IH; [apply Hb|apply He|]. simpl in *. lia.
Qed.
End Depth.

(** ** Simulation

    Two runs of one program on related contexts give the same answer and
    related contexts, unless the first one ends with a missing witness. *)

Section Simulation.
Context {S1 S2 E1 E2 : Type} `{ManagedStateAccess S1} `{ManagedStateAccess S2}
  `{ExternalStateAccess E1} `{ExternalStateAccess E2}.
Context (R : S1 -> S2 -> Prop) (RE : E1 -> E2 -> Prop).
(** Transactions of the first state open and close as they should. *)
Context (depth : S1 -> nat) (Hdepth : ops_depth depth).

Definition same_op {T1 T2 A} (Q : T1 -> T2 -> Prop) (f : access T1 A) (g : access T2 A) : Prop :=
  forall s t, Q s t ->
  ((f s).1 = (g t).1 /\ Q (f s).2 (g t).2) \/ ((f s).1 = Err SA_MissingWitness).

Record ctx_rel (c : context S1 E1) (d : context S2 E2) : Prop := {
  rel_state : R (cx_state c) (cx_state d);
  rel_external : match cx_external_state c, cx_external_state d with
                 | Some e, Some f => RE e f
                 | None, None => True
                 | _, _ => False
                 end;
  rel_plan : cx_access_plan c = cx_access_plan d;
  rel_sender : cx_sender c = cx_sender d;
  rel_owner : cx_owner c = cx_owner d;
  rel_controller : cx_controller c = cx_controller d;
  rel_domain : cx_network_domain c = cx_network_domain d;
  rel_valid : cx_transition_valid_until c = cx_transition_valid_until d
}.

Record ops_rel : Prop := {
  or_get k : same_op R (ms_get k) (ms_get k);
  or_set k v : same_op R (ms_set k v) (ms_set k v);
  or_delete k : same_op R (ms_delete k) (ms_delete k);
  or_begin s t : R s t -> (ms_begin s).1 = (ms_begin t).1 /\ R (ms_begin s).2 (ms_begin t).2;
  or_commit s t : R s t -> (ms_commit s).1 = (ms_commit t).1 /\ R (ms_commit s).2 (ms_commit t).2;
  or_rollback s t : R s t -> (ms_rollback s).1 = (ms_rollback t).1 /\ R (ms_rollback s).2 (ms_rollback t).2;
  or_ext id k : same_op RE (ext_get id k) (ext_get id k)
}.

Lemma ctx_rel_set_state c d s t : ctx_rel c d -> R s t -> ctx_rel (set_state c s) (set_state d t).
Proof. intros [] Hst. by split. Qed.

Lemma same_on_state {A} (f : access S1 A) (g : access S2 A) :
  same_op R f g -> same_op ctx_rel (on_state f) (on_state g).
Proof.
  intros Hfg c d Hcd. unfold on_state. destruct (Hfg _ _ (rel_state _ _ Hcd)) as [[Hra Hrb]|Hra];
    destruct (f (cx_state c)) as [r s], (g (cx_state d)) as [r' t]; simpl in *.
  - left. split; [done|]. by apply ctx_rel_set_state.
  - by right.
Qed.

Context (Hops : ops_rel).

Lemma same_collect keys : same_op R (collect keys) (collect keys).
Proof.
  induction keys as [|k keys IH]; intros s t Hst; simpl; [by left|].
  case_match; [by apply IH|].
  destruct (or_get Hops k s t Hst) as [[Hra Hrb]|Hra];
    destruct (ms_get k s) as [[v|e] s'], (ms_get k t) as [[v'|e'] t']; simpl in *; simplify_eq;
    try (by right); [|by left].
  destruct (IH s' t' Hrb) as [[Hrc Hrd]|Hrc];
    destruct (collect keys s') as [r s''], (collect keys t') as [r' t'']; simpl in *; subst.
  - left. done.
  - right. done.
Qed.

Lemma same_state_view : same_op ctx_rel state_view state_view.
Proof.
  intros c d Hcd. unfold state_view. rewrite <- (rel_plan _ _ Hcd).
  destruct (cx_access_plan c) as [plan|]; [|by left].
  destruct (same_collect (AccessPlan.keys plan) _ _ (rel_state _ _ Hcd)) as [[Hra Hrb]|Hra];
    destruct (collect _ (cx_state c)) as [r s], (collect _ (cx_state d)) as [r' t]; simpl in *; subst.
  - left. split; [done|]. by apply ctx_rel_set_state.
  - right. done.
Qed.

Lemma same_external_get id k : same_op ctx_rel (external_get id k) (external_get id k).
Proof.
  intros c d Hcd. unfold external_get. pose proof (rel_external _ _ Hcd) as He.
  destruct (cx_external_state c) as [e|], (cx_external_state d) as [f|]; try done; [|by left].
  destruct (or_ext Hops id k e f He) as [[Hra Hrb]|Hra];
    destruct (ext_get id k e) as [r e'], (ext_get id k f) as [r' f']; simpl in *.
  - left. split; [done|]. destruct Hcd. by split.
  - by right.
Qed.

(** One node of the induction. *)
Lemma same_bind {A} (f : access (context S1 E1) A) (g : access (context S2 E2) A)
    (cont : result A StateAccessError -> prog) n c d :
  same_op ctx_rel f g -> ctx_rel c d ->
  depth (cx_state (f c).2) = depth (cx_state c) -> (n <= depth (cx_state c))%nat ->
  ends_missing (cont (Err SA_MissingWitness)) -> (forall r, balanced n (cont r)) ->
  (forall r c d, ctx_rel c d -> (n <= depth (cx_state c))%nat ->
     ((run (cont r) c).1 = (run (cont r) d).1 /\ ctx_rel (run (cont r) c).2 (run (cont r) d).2)
     \/ (run (cont r) c).1 = Err SA_MissingWitness) ->
  let '(r1, c1) := f c in let '(r2, d2) := g d in
  ((run (cont r1) c1).1 = (run (cont r2) d2).1 /\ ctx_rel (run (cont r1) c1).2 (run (cont r2) d2).2)
  \/ (run (cont r1) c1).1 = Err SA_MissingWitness.
Proof.
  intros Hfg Hcd Hf Hn Hm Hb Hk. destruct (Hfg c d Hcd) as [[Hra Hrb]|Hra];
    destruct (f c) as [r1 c1], (g d) as [r2 d2]; simpl in *; subst.
  - apply Hk; [done|lia].
  - right. eapply ends_missing_run; [done|apply Hb|done|lia].
Qed.

Lemma on_state_depth {A} (op : access S1 A) (c : context S1 E1) :
  depth (op (cx_state c)).2 = depth (cx_state c) -> depth (cx_state (on_state op c).2) = depth (cx_state c).
Proof. unfold on_state. by destruct (op (cx_state c)). Qed.

Lemma exact_on_state (f : access S1 unit) (g : access S2 unit) c d :
  (forall s t, R s t -> (f s).1 = (g t).1 /\ R (f s).2 (g t).2) -> ctx_rel c d ->
  (on_state f c).1 = (on_state g d).1 /\ ctx_rel (on_state f c).2 (on_state g d).2.
Proof.
  intros Hfg Hcd. destruct (Hfg _ _ (rel_state _ _ Hcd)) as [Hra Hrb]. unfold on_state.
  destruct (f (cx_state c)), (g (cx_state d)); simpl in *. split; [done|]. by apply ctx_rel_set_state.
Qed.

Lemma run_sim (p : prog) : forall n c d,
  propagates p -> balanced n p -> (n <= depth (cx_state c))%nat -> ctx_rel c d ->
  ((run p c).1 = (run p d).1 /\ ctx_rel (run p c).2 (run p d).2)
  \/ (run p c).1 = Err SA_MissingWitness.
Proof.
  induction p as [r|k cont IH|k v cont IH|k cont IH|cont IH|cont IH|cont IH|id k cont IH|cont IH
    |cont IH|cont IH|cont IH|cont IH|cont IH|o1 o2 nx IH|v nx IH]; intros n c d Hp Hb Hn Hcd; cbn [run propagates balanced] in *.
  - by left.
  - pose proof (same_bind (on_state (ms_get k)) (on_state (ms_get k)) cont n c d) as Hs.
    destruct (on_state _ c) eqn:Hc, (on_state _ d). apply Hs; [apply same_on_state, (or_get Hops)|done| |done|apply Hp|done|].
    + rewrite <- Hc. apply on_state_depth, (od_get _ Hdepth).
    + intros ? ? ? ? ?. by eapply IH; [apply Hp|..].
  - pose proof (same_bind (on_state (ms_set k v)) (on_state (ms_set k v)) cont n c d) as Hs.
    destruct (on_state _ c) eqn:Hc, (on_state _ d). apply Hs; [apply same_on_state, (or_set Hops)|done| |done|apply Hp|done|].
    + rewrite <- Hc. apply on_state_depth, (od_set _ Hdepth).
    + intros ? ? ? ? ?. by eapply IH; [apply Hp|..].
  - pose proof (same_bind (on_state (ms_delete k)) (on_state (ms_delete k)) cont n c d) as Hs.
    destruct (on_state _ c) eqn:Hc, (on_state _ d). apply Hs; [apply same_on_state, (or_delete Hops)|done| |done|apply Hp|done|].
    + rewrite <- Hc. apply on_state_depth, (od_delete _ Hdepth).
    + intros ? ? ? ? ?. by eapply IH; [apply Hp|..].
  - destruct (exact_on_state ms_begin ms_begin c d (or_begin Hops) Hcd) as [Hra' Hrb'].
    destruct (od_begin _ Hdepth (cx_state c)) as [Hr Hs]. unfold on_state in *.
    destruct (ms_begin (cx_state c)), (ms_begin (cx_state d)). simpl in *. subst. eapply IH; [done|exact Hb|simpl; lia|done].
  - destruct Hb as (n' & -> & Hb). destruct (depth (cx_state c)) as [|d'] eqn:Hdc; [lia|].
    destruct (exact_on_state ms_commit ms_commit c d (or_commit Hops) Hcd) as [Hra' Hrb'].
    destruct (od_commit _ Hdepth (cx_state c) d' Hdc) as [Hr Hs]. unfold on_state in *.
    destruct (ms_commit (cx_state c)), (ms_commit (cx_state d)). simpl in *. subst. eapply IH; [done|exact Hb|simpl; lia|done].
  - destruct Hb as (n' & -> & Hb). destruct (depth (cx_state c)) as [|d'] eqn:Hdc; [lia|].
    destruct (exact_on_state ms_rollback ms_rollback c d (or_rollback Hops) Hcd) as [Hra' Hrb'].
    destruct (od_rollback _ Hdepth (cx_state c) d' Hdc) as [Hr Hs]. unfold on_state in *.
    destruct (ms_rollback (cx_state c)), (ms_rollback (cx_state d)). simpl in *. subst. eapply IH; [done|exact Hb|simpl; lia|done].
  - pose proof (same_bind (external_get id k) (external_get id k) cont n c d) as Hs.
    destruct (external_get id k c) eqn:Hc, (external_get id k d).
    apply Hs; [apply same_external_get|done| |done|apply Hp|done|intros ? ? ? ? ?; by eapply IH; [apply Hp|..]].
    rewrite <- Hc. unfold external_get. destruct (cx_external_state c); [|done]. by destruct (ext_get id k _).
  - pose proof (same_bind state_view state_view cont n c d) as Hs.
    destruct (state_view c) eqn:Hc, (state_view d).
    apply Hs; [apply same_state_view|done| |done|apply Hp|done|intros ? ? ? ? ?; by eapply IH; [apply Hp|..]].
    rewrite <- Hc. unfold state_view. destruct (cx_access_plan c) as [plan|]; [|done].
    pose proof (collect_depth depth Hdepth (AccessPlan.keys plan) (cx_state c)). by destruct (collect _ _).
  - rewrite (rel_sender _ _ Hcd). by eapply IH.
  - rewrite (rel_domain _ _ Hcd). by eapply IH.
  - rewrite (rel_owner _ _ Hcd). by eapply IH.
  - rewrite (rel_controller _ _ Hcd). by eapply IH.
  - rewrite (rel_valid _ _ Hcd). by eapply IH.
  - eapply IH; [done|done|exact Hn|]. destruct Hcd. by split.
  - eapply IH; [done|done|exact Hn|]. destruct Hcd. split; try done. simpl. by rewrite rel_valid0.
Qed.
End Simulation.

(** ** The snapshot machine under a balanced program

    A balanced program neither sees nor changes the transactions that were
    open before it: its answer, its writes and the rest of the context do not
    depend on them, and they are back in place at the end. *)

Section Frame.
Context {E : Type} `{ExternalStateAccess E}.
Implicit Types c : context Snapshots.t E.

Lemma collect_frame keys cur :
  exists r, forall sv, collect keys (Snapshots.mk cur sv) = (r, Snapshots.mk cur sv).
Proof.
  induction keys as [|k keys [r IH]]; simpl; [by eexists|].
  case_match; [by eexists|]. eexists. intros sv. by rewrite IH.
Qed.

Lemma state_view_frame c cur :
  exists r, forall sv, state_view (set_state c (Snapshots.mk cur sv)) = (r, set_state c (Snapshots.mk cur sv)).
Proof.
  unfold state_view. simpl. destruct (cx_access_plan c) as [plan|]; [|by eexists].
  destruct (collect_frame (AccessPlan.keys plan) cur) as [r Hr]. eexists. intros sv. by rewrite Hr.
Qed.

Lemma external_get_frame c id k :
  exists r c', forall s, external_get id k (set_state c s) = (r, set_state c' s).
Proof.
  unfold external_get. simpl. destruct (cx_external_state c) as [e|]; [|by eexists _, c].
  destruct (ext_get id k e) as [r e']. exists r. by eexists (mkContext (cx_state c) _ _ _ _ _ _ _).
Qed.

Lemma update_frame c cur st k x :
  exists r cur', forall sv,
    on_state (Snapshots.update k x) (set_state c (Snapshots.mk cur (st ++ sv)))
    = (r, set_state c (Snapshots.mk cur' (st ++ sv))).
Proof.
  unfold on_state, Snapshots.update. simpl.
  destruct (Keys.is_reserved_service_storage_key k); by eexists _, _.
Qed.

Lemma run_frame p : forall n c cur st,
  balanced n p -> length st = n ->
  exists r cur' c', forall sv,
    run p (set_state c (Snapshots.mk cur (st ++ sv))) = (r, set_state c' (Snapshots.mk cur' sv)).
Proof.
  induction p as [r|k cont IH|k v cont IH|k cont IH|cont IH|cont IH|cont IH|id k cont IH|cont IH
    |cont IH|cont IH|cont IH|cont IH|cont IH|o1 o2 nx IH|v nx IH]; intros n c cur st Hb Hn;
    cbn [run balanced] in *.
  - subst n. destruct st; [|done]. by eexists _, _, c.
  - destruct (IH (Ok (cur !! k)) n c cur st (Hb _) Hn) as (r & cur' & c' & Hr).
    exists r, cur', c'. intros sv. by rewrite <- Hr.
  - destruct (update_frame c cur st k (Some v)) as (r0 & cur0 & H0).
    destruct (IH r0 n c cur0 st (Hb _) Hn) as (r & cur' & c' & Hr).
    exists r, cur', c'. intros sv. cbn [ms_set Snapshots.snapshots_access]. rewrite H0. apply Hr.
  - destruct (update_frame c cur st k None) as (r0 & cur0 & H0).
    destruct (IH r0 n c cur0 st (Hb _) Hn) as (r & cur' & c' & Hr).
    exists r, cur', c'. intros sv. cbn [ms_delete Snapshots.snapshots_access]. rewrite H0. apply Hr.
  - destruct (IH (Ok tt) (Datatypes.S n) c cur (cur :: st) Hb) as (r & cur' & c' & Hr); [simpl; congruence|].
    exists r, cur', c'. intros sv. by rewrite <- Hr.
  - destruct Hb as (n' & -> & Hb). destruct st as [|m0 st]; [done|]. injection Hn as Hn.
    destruct (IH (Ok tt) n' c cur st Hb Hn) as (r & cur' & c' & Hr).
    exists r, cur', c'. intros sv. by rewrite <- Hr.
  - destruct Hb as (n' & -> & Hb). destruct st as [|m0 st]; [done|]. injection Hn as Hn.
    destruct (IH (Ok tt) n' c m0 st Hb Hn) as (r & cur' & c' & Hr).
    exists r, cur', c'. intros sv. by rewrite <- Hr.
  - destruct (external_get_frame c id k) as (r0 & c0 & H0).
    destruct (IH r0 n c0 cur st (Hb _) Hn) as (r & cur' & c' & Hr).
    exists r, cur', c'. intros sv. rewrite H0. apply Hr.
  - destruct (state_view_frame c cur) as (r0 & H0).
    destruct (IH r0 n c cur st (Hb _) Hn) as (r & cur' & c' & Hr).
    exists r, cur', c'. intros sv. rewrite H0. apply Hr.
  - exact (IH (cx_sender c) n c cur st (Hb _) Hn).
  - exact (IH (cx_network_domain c) n c cur st (Hb _) Hn).
  - exact (IH (cx_owner c) n c cur st (Hb _) Hn).
  - exact (IH (cx_controller c) n c cur st (Hb _) Hn).
  - exact (IH (cx_transition_valid_until c) n c cur st (Hb _) Hn).
  - apply (IH n (set_ownership c o1 o2) cur st Hb Hn).
  - apply (IH n (constrain_valid_until c v) cur st Hb Hn).
Qed.
End Frame.
