(* ===== verification/Requests.v ===== *)
(** * Requests for state

    A planner answers a read of an unknown key with [NeedState]. An application
    is [honest] when it asks for state only by passing such an answer on; then
    what an invocation asks for was asked for by the state or the external
    state it runs over. The lemmas are shared by the guest planner and the
    host's work builder. *)

From S2P Require Import Prelude Ordering Reader Wire ServiceKeys StateView StateDiff Witness Ownership State Overlays Execution.

(** [ends_with e p]: whatever the answers, [p] ends with the error [e]. *)
Fixpoint ends_with (e : StateAccessError) (p : prog) : Prop :=
  match p with
  | Return r => r = Err e
  | Get _ c | ExternalGet _ _ c => forall r, ends_with e (c r)
  | SetKey _ _ c | Delete _ c | Begin c | Commit c | Rollback c => forall r, ends_with e (c r)
  | ViewState c => forall r, ends_with e (c r)
  | AskSender c => forall r, ends_with e (c r)
  | AskDomain c => forall r, ends_with e (c r)
  | AskOwner c | AskController c => forall r, ends_with e (c r)
  | AskValidUntil c => forall r, ends_with e (c r)
  | SetOwnership _ _ n | ConstrainValidUntil _ n => ends_with e n
  end.

(** [honest p]: [p] asks for state only by passing on a request of the state
    it reads, and then does ask for it. *)
Fixpoint honest (p : prog) : Prop :=
  let passes {A} (c : result A StateAccessError -> prog) : Prop :=
    (forall k, ends_with (SA_NeedState k) (c (Err (SA_NeedState k))))
    /\ (forall i k, ends_with (SA_NeedExternalState i k) (c (Err (SA_NeedExternalState i k)))) in
  match p with
  | Return r => forall k, r <> Err (SA_NeedState k)
  | Get _ c | ExternalGet _ _ c =>
      passes c /\ forall r, (forall k, r <> Err (SA_NeedState k)) -> honest (c r)
  | SetKey _ _ c | Delete _ c | Begin c | Commit c | Rollback c =>
      passes c /\ forall r, (forall k, r <> Err (SA_NeedState k)) -> honest (c r)
  | ViewState c => passes c /\ forall r, (forall k, r <> Err (SA_NeedState k)) -> honest (c r)
  | AskSender c => forall r, honest (c r)
  | AskDomain c => forall r, honest (c r)
  | AskOwner c | AskController c => forall r, honest (c r)
  | AskValidUntil c => forall r, honest (c r)
  | SetOwnership _ _ n | ConstrainValidUntil _ n => honest n
  end.

Lemma ends_with_run {S E} `{ManagedStateAccess S} `{ExternalStateAccess E} e (p : prog) :
  forall c : context S E, ends_with e p -> (run p c).1 = Err e.
Proof.
  induction p; intros cx Hp; simpl in *; try (by eauto);
    match goal with |- (let '(_, _) := ?o in _).1 = _ => destruct o end; eauto.
Qed.

(** [names K p]: the keys [p] reads and writes satisfy [K]. *)
Fixpoint names (K : bytes -> Prop) (p : prog) : Prop :=
  match p with
  | Return _ => True
  | Get k c => K k /\ forall r, names K (c r)
  | SetKey k _ c | Delete k c => K k /\ forall r, names K (c r)
  | Begin c | Commit c | Rollback c => forall r, names K (c r)
  | ExternalGet _ _ c => forall r, names K (c r)
  | ViewState c => forall r, names K (c r)
  | AskSender c => forall r, names K (c r)
  | AskDomain c => forall r, names K (c r)
  | AskOwner c | AskController c => forall r, names K (c r)
  | AskValidUntil c => forall r, names K (c r)
  | SetOwnership _ _ n | ConstrainValidUntil _ n => names K n
  end.

Lemma names_any p : names (fun _ => True) p.
Proof. induction p; simpl; auto. Qed.

(** A program never closes or opens the external state. *)
Lemma run_has_external {S E} `{ManagedStateAccess S} `{ExternalStateAccess E} (p : prog) :
  forall c : context S E, is_Some (cx_external_state (run p c).2) <-> is_Some (cx_external_state c).
Proof.
  assert (forall A (op : access S A) (c : context S E),
    is_Some (cx_external_state (on_state op c).2) <-> is_Some (cx_external_state c)) as Hon.
  { intros A op c. unfold on_state. by destruct (op (cx_state c)). }
  assert (forall id k (c : context S E),
    is_Some (cx_external_state (external_get id k c).2) <-> is_Some (cx_external_state c)) as Hext.
  { intros id k c. unfold external_get. destruct (cx_external_state c) eqn:Hc; simpl; [|by rewrite Hc].
    destruct (ext_get id k _). simpl. split; eauto. }
  assert (forall c : context S E,
    is_Some (cx_external_state (state_view c).2) <-> is_Some (cx_external_state c)) as Hview.
  { intros c. unfold state_view. destruct (cx_access_plan c); [by destruct (collect _ _)|done]. }
  induction p as [r|k cont IH|k v cont IH|k cont IH|cont IH|cont IH|cont IH|id k cont IH|cont IH
    |cont IH|cont IH|cont IH|cont IH|cont IH|o1 o2 n IH|v n IH]; intros c; cbn [run]; try done;
    try apply IH; try (etransitivity; [apply IH|reflexivity]);
    match goal with
    | |- context [on_state ?op c] => pose proof (Hon _ op c) as He; destruct (on_state op c)
    | |- context [external_get ?i ?k c] => pose proof (Hext i k c) as He; destruct (external_get i k c)
    | |- context [state_view c] => pose proof (Hview c) as He; destruct (state_view c)
    end; simpl in He; by rewrite IH, He.
Qed.

Section Requests.
Context {S E : Type} `{ManagedStateAccess S} `{ExternalStateAccess E}.
(** The keys in use, an invariant of the state, and the keys it may ask for. *)
Context (K : bytes -> Prop) (inv : S -> Prop) (wanted : bytes -> Prop).

Definition asks {T A} (op : access T A) (I : T -> Prop) : Prop :=
  forall s, I s -> I (op s).2 /\ forall k, (op s).1 = Err (SA_NeedState k) -> wanted k.

Record ops_ask : Prop := {
  oa_get k : K k -> asks (T := S) (ms_get k) inv;
  oa_set k v : K k -> asks (T := S) (ms_set k v) inv;
  oa_delete k : K k -> asks (T := S) (ms_delete k) inv;
  oa_begin : asks (T := S) ms_begin inv;
  oa_commit : asks (T := S) ms_commit inv;
  oa_rollback : asks (T := S) ms_rollback inv
}.

(** Outside reads keep an invariant of their own and ask for wanted keys too. *)
Context (einv : E -> Prop).
Context (Hops : ops_ask) (Hext : forall id k, asks (T := E) (ext_get id k) einv).

Definition ctx_inv (c : context S E) : Prop :=
  inv (cx_state c) /\ match cx_external_state c with Some e => einv e | None => True end
  /\ match cx_access_plan c with Some plan => Forall K (AccessPlan.keys plan) | None => True end.

Lemma on_state_asks {A} (op : access S A) : asks op inv -> asks (on_state op) ctx_inv.
Proof.
  intros Hop c (Hc & He & HK). unfold on_state. destruct (Hop _ Hc) as [Hk Hn]. by destruct (op (cx_state c)).
Qed.

Lemma collect_asks keys : Forall K keys -> asks (T := S) (collect keys) inv.
Proof.
  induction 1 as [|k keys HK _ IH]; intros s Hs; simpl; [done|]. case_match; [by apply IH|].
  destruct (oa_get Hops k HK s Hs) as [Hk Hn].
  destruct (ms_get k s) as [[v|e] s']; simpl in *; [|naive_solver].
  destruct (IH s' Hk) as [Hk' Hn']. destruct (collect keys s') as [[es|e] s'']; simpl in *; [done|].
  split; [done|]. intros j [= ->]. by apply Hn'.
Qed.

Lemma state_view_asks : asks (T := context S E) state_view ctx_inv.
Proof.
  intros c (Hc & He & HK). unfold state_view, ctx_inv. destruct (cx_access_plan c) as [plan|] eqn:Hplan;
    [|simpl; rewrite ?Hplan; done].
  destruct (collect_asks (AccessPlan.keys plan) HK _ Hc) as [Hk Hn].
  destruct (collect _ (cx_state c)) as [[es|e] s]; simpl in *; rewrite ?Hplan.
  - split; [done|]. intros k. by destruct (StateView.from_entries es).
  - split; [done|]. intros k [= ->]. by apply Hn.
Qed.

Lemma external_get_asks id k : asks (T := context S E) (external_get id k) ctx_inv.
Proof.
  intros c Hc. pose proof Hc as (Hs & He & HK). unfold external_get.
  destruct (cx_external_state c) as [e|]; [|done].
  destruct (Hext id k e He) as [He' Hn]. destruct (ext_get id k e). done.
Qed.

Lemma asks_bind {A} (op : access (context S E) A) (cont : result A StateAccessError -> prog) :
  asks op ctx_inv ->
  (forall k c, ctx_inv c -> ctx_inv (run (cont (Err (SA_NeedState k))) c).2) ->
  (forall k, ends_with (SA_NeedState k) (cont (Err (SA_NeedState k)))) ->
  (forall r, (forall k, r <> Err (SA_NeedState k)) -> asks (run (cont r)) ctx_inv) ->
  asks (fun c => let '(r, c) := op c in run (cont r) c) ctx_inv.
Proof.
  intros Hop Hkeep Hpass Hk c Hc. destruct (Hop c Hc) as [Hc1 Hn]. destruct (op c) as [r c1]. simpl in *.
  assert ((exists k, r = Err (SA_NeedState k)) \/ forall k, r <> Err (SA_NeedState k)) as [[k ->]|Hr].
  { destruct r as [|[]]; naive_solver. }
  - split; [by apply Hkeep|].
    rewrite ends_with_run with (e := SA_NeedState k) by apply Hpass. intros j [= <-]. by apply Hn.
  - by apply Hk.
Qed.

(** Whatever a program answers, it keeps the invariants. *)
Lemma run_ctx_inv (p : prog) : names K p -> forall c : context S E, ctx_inv c -> ctx_inv (run p c).2.
Proof.
  induction p as [r|k cont IH|k v cont IH|k cont IH|cont IH|cont IH|cont IH|id k cont IH|cont IH
    |cont IH|cont IH|cont IH|cont IH|cont IH|o1 o2 n IH|v n IH]; intros Hn c Hc; cbn [run names] in *;
    try done; try (by apply IH).
  - pose proof (proj1 (on_state_asks _ (oa_get Hops k (proj1 Hn)) c Hc)). destruct (on_state _ c). apply IH; [apply Hn|done].
  - pose proof (proj1 (on_state_asks _ (oa_set Hops k v (proj1 Hn)) c Hc)). destruct (on_state _ c). apply IH; [apply Hn|done].
  - pose proof (proj1 (on_state_asks _ (oa_delete Hops k (proj1 Hn)) c Hc)). destruct (on_state _ c). apply IH; [apply Hn|done].
  - pose proof (proj1 (on_state_asks _ (oa_begin Hops) c Hc)). destruct (on_state _ c). apply IH; [apply Hn|done].
  - pose proof (proj1 (on_state_asks _ (oa_commit Hops) c Hc)). destruct (on_state _ c). apply IH; [apply Hn|done].
  - pose proof (proj1 (on_state_asks _ (oa_rollback Hops) c Hc)). destruct (on_state _ c). apply IH; [apply Hn|done].
  - pose proof (proj1 (external_get_asks id k c Hc)). destruct (external_get id k c). apply IH; [apply Hn|done].
  - pose proof (proj1 (state_view_asks c Hc)). destruct (state_view c). apply IH; [apply Hn|done].
Qed.

Lemma run_asks (p : prog) : honest p -> names K p -> asks (T := context S E) (run p) ctx_inv.
Proof.
  induction p as [r|k cont IH|k v cont IH|k cont IH|cont IH|cont IH|cont IH|id k cont IH|cont IH
    |cont IH|cont IH|cont IH|cont IH|cont IH|o1 o2 n IH|v n IH]; intros Hp HK; cbn [honest names] in Hp, HK;
    try (intros c Hc; by apply IH);
    try (apply asks_bind; [|intros; apply run_ctx_inv; [apply HK|done]|apply Hp|intros r Hr; apply IH; [by apply Hp|apply HK]]).
  - intros c Hc. split; [done|]. simpl. intros k ->. by destruct (Hp k).
  - apply on_state_asks, (oa_get Hops), HK.
  - apply on_state_asks, (oa_set Hops), HK.
  - apply on_state_asks, (oa_delete Hops), HK.
  - apply on_state_asks, (oa_begin Hops).
  - apply on_state_asks, (oa_commit Hops).
  - apply on_state_asks, (oa_rollback Hops).
  - apply external_get_asks.
  - apply state_view_asks.
Qed.
End Requests.
