(* ===== verification/Guest.v ===== *)
(** * Refine in the guest ([service-runtime-guest])

    [refine] replays the actions of a work item over a proof state and
    produces the transition, with one transaction per action. *)

From S2P Require Import Prelude Ordering Reader Wire ServiceKeys StateView StateDiff Records Witness RefineInput Dependencies RefineOutput Ownership State Overlays ModelTrie Execution.

Inductive GuestError :=
| GE_InvalidInput
| GE_Environment
| GE_State
| GE_Application
| GE_NeedState (key : bytes)
| GE_NeedExternalState (service_id : Z) (key : bytes).

(** [if let Some(action) = action { *current = Some(current.map_or(action, |c| c.min(action))) }]. *)
Definition merge_validity (current action : option Z) : option Z :=
  match action with
  | None => current
  | Some action => Some match current with None => action | Some current => Z.min current action end
  end.

(** ** [ExternalProofStates] *)

Module ExternalProofStates.
  (** [struct ExternalProofStates { states: BTreeMap<u32, ProofState> }]. *)
Notation t := (gmap Z ProofState.t).

Section Ops.
Context `{Trie}.

(** [for key in keys { state.get(key).map_err(|_| State)?; }]. *)
Definition read_all (s : ProofState.t) (keys : list bytes) : result ProofState.t GuestError :=
  rfold (fun s k => match ProofState.get k s with
                    | (Ok _, s) => Ok s
                    | (Err _, _) => Err GE_State
                    end) s keys.

Definition insert_witness (states : t) (witness : ExternalWitness.t) : result t GuestError :=
  bail_if negb (bool_decide (StateWitness.version (ExternalWitness.managed_state witness)
                             = StateWitness.VERSION))
          || bool_decide (is_Some (states !! ExternalWitness.service_id witness))
    with GE_InvalidInput ;;
  let? state := map_err (fun _ => GE_State)
    (ProofState.from_witness (StateWitness.parent_root (ExternalWitness.managed_state witness))
       (StateWitness.storage_proof (ExternalWitness.managed_state witness))) in
  let? state := read_all state
    (AccessPlan.keys (StateWitness.access_plan (ExternalWitness.managed_state witness))) in
  Ok (<[ExternalWitness.service_id witness := state]> states).

Definition from_input (input : list ExternalWitness.t) : result t GuestError :=
  rfold insert_witness ∅ input.

Definition get (service_id : Z) (k : bytes) : access t (option bytes) := fun e =>
  match e !! service_id with
  | None => (Err SA_Backend, e)
  | Some state => let '(r, state) := ms_get k state in (r, <[service_id := state]> e)
  end.

#[global] Instance external_access : ExternalStateAccess t := get.
End Ops.
End ExternalProofStates.

Definition external_dependencies (witnesses : list ExternalWitness.t) : list Dependency.t :=
  map (fun w => Dependency.mk (ExternalWitness.service_id w)
                  (StateWitness.parent_root (ExternalWitness.managed_state w))) witnesses.

(** ** The action loop *)

Section ActionLoop.
Context `{Blake2} {S E : Type} `{ManagedStateAccess S} `{ExternalStateAccess E}.
Context (generic_error_code : Z) (application : bytes -> prog) (plan : AccessPlan.t) (network_domain : bytes).

Record loop_state := mkLoop {
  ls_state : S; ls_external : E; ls_receipts : list Receipt.t; ls_valid_until : option Z
}.

Definition committed (s : S) : result S GuestError :=
  match ms_commit s with (Ok _, s) => Ok s | (Err _, _) => Err GE_State end.
Definition rolled_back (s : S) : result S GuestError :=
  match ms_rollback s with (Ok _, s) => Ok s | (Err _, _) => Err GE_State end.

(** [error_code & 0x8000_0000 != 0]. *)
Definition is_native_failure (error_code : Z) : bool := negb (Z.land error_code 2147483648 =? 0).

(** What one action does after [execute] returned [r] in context [c]. *)
Definition settle (st : loop_state) (action_hash : bytes) (r : result unit StateAccessError)
    (c : context S E) : result loop_state GuestError :=
  let action_valid_until := cx_transition_valid_until c in
  let external := default (ls_external st) (cx_external_state c) in
  let push s status code valid :=
    mkLoop s external (ls_receipts st ++ [Receipt.mk action_hash status code]) valid in
  match r with
  | Ok _ =>
      let? s := committed (cx_state c) in
      Ok (push s StApplied None (merge_validity (ls_valid_until st) action_valid_until))
  | Err SA_MissingWitness | Err SA_InvalidProof =>
      let? _ := rolled_back (cx_state c) in
      Err GE_State
  | Err (SA_NeedState key) =>
      let? _ := rolled_back (cx_state c) in
      Err (GE_NeedState key)
  | Err (SA_ApplicationFailed error_code) =>
      if is_native_failure error_code then
        let? s := rolled_back (cx_state c) in
        Ok (push s StFailed (Some error_code) (ls_valid_until st))
      else
        let? s := committed (cx_state c) in
        Ok (push s StFailed (Some error_code) (merge_validity (ls_valid_until st) action_valid_until))
  | Err (SA_Rejected error_code) =>
      let? s := rolled_back (cx_state c) in
      Ok (push s StRejected (Some error_code) (ls_valid_until st))
  | Err _ =>
      let? s := rolled_back (cx_state c) in
      Ok (push s StFailed (Some generic_error_code) (ls_valid_until st))
  end.

Definition refine_action (st : loop_state) (action : bytes) : result loop_state GuestError :=
  let action_hash := blake2_256 action in
  let state := (ms_begin (ls_state st)).2 in
  let '(r, c) := run (application action)
    (with_access_plan_and_external_state state None plan (ls_external st) network_domain) in
  settle st action_hash r c.

Definition refine_actions (s : S) (e : E) (actions : list bytes) : result loop_state GuestError :=
  rfold refine_action (mkLoop s e [] None) actions.
End ActionLoop.
Arguments loop_state : clear implicits.
Arguments mkLoop {S E} _ _ _ _.
Arguments ls_state {S E} _.
Arguments ls_external {S E} _.
Arguments ls_receipts {S E} _.
Arguments ls_valid_until {S E} _.

(** ** [refine_internal] and its callers *)

Record transition := mkTransition {
  tr_parent_root : bytes; tr_new_root : bytes; tr_receipts : list Receipt.t; tr_diff : StateDiff.t;
  tr_valid_until : option Z; tr_dependencies : list Dependency.t
}.

Definition GENERIC_ERROR : Z := 2147483649.

Section Refine.
Context `{Blake2} `{Trie}.

(** The body that both refine loops share, up to the code reported for an
    error that is none of the structured ones. *)
Definition refine_with_code (generic : Z) (application : bytes -> prog) (input : RefineInput.t)
    (network_domain : bytes) : result transition GuestError :=
  bail_if negb (bool_decide (RefineInput.version input = RefineInput.VERSION))
          || negb (bool_decide (StateWitness.version (RefineInput.managed_state input)
                                = StateWitness.VERSION))
    with GE_InvalidInput ;;
  let? external := ExternalProofStates.from_input (RefineInput.external_state input) in
  let? state := map_err (fun _ => GE_State)
    (ProofState.from_witness (StateWitness.parent_root (RefineInput.managed_state input))
       (StateWitness.storage_proof (RefineInput.managed_state input))) in
  let plan := StateWitness.access_plan (RefineInput.managed_state input) in
  let? state := ExternalProofStates.read_all state (AccessPlan.keys plan) in
  let parent_root := ProofState.parent_root state in
  let? st := refine_actions generic application plan network_domain
               state external (RefineInput.actions input) in
  let? '(new_root, diff) := map_err (fun _ => GE_State) (ProofState.finish (ls_state st)) in
  Ok (mkTransition parent_root new_root (ls_receipts st) diff (ls_valid_until st)
        (external_dependencies (RefineInput.external_state input))).

Definition refine_internal : (bytes -> prog) -> RefineInput.t -> bytes -> result transition GuestError :=
  refine_with_code GENERIC_ERROR.

Definition publish (t : transition) : result RefineOutput.t GuestError :=
  map_err (fun _ => GE_State)
    (RefineOutput.from_diff_with_dependencies_and_validity (tr_parent_root t) (tr_new_root t)
       (tr_receipts t) (tr_diff t) (tr_dependencies t) (tr_valid_until t)).

Definition refine_with_environment (application : bytes -> prog) (input : RefineInput.t)
    (network_domain : bytes) : result RefineOutput.t GuestError :=
  let? t := refine_internal application input network_domain in
  publish t.

Definition refine (application : bytes -> prog) (input : RefineInput.t)
    : result RefineOutput.t GuestError :=
  refine_with_environment application input (repeat x00 32).
End Refine.

(** ** The reference semantics

    Actions one after the other on a map: an applied action (or one that
    failed in the application) keeps its writes, any other leaves the map as
    it was. *)

(** The other services' states, as maps. *)
Definition maps_get (service_id : Z) (k : bytes) : access (gmap Z kv) (option bytes) := fun e =>
  match e !! service_id with
  | None => (Err SA_Backend, e)
  | Some m => (Ok (m !! k), e)
  end.
#[global] Instance maps_external : ExternalStateAccess (gmap Z kv) := maps_get.

Record outcome := mkOutcome { oc_map : kv; oc_receipts : list Receipt.t; oc_valid_until : option Z }.

Section Reference.
Context `{Blake2} (generic_error_code : Z) (application : bytes -> prog) (plan : AccessPlan.t)
  (network_domain : bytes) (others : gmap Z kv).

Definition reference_action (o : outcome) (action : bytes) : option outcome :=
  let '(r, c) := run (application action)
    (with_access_plan_and_external_state (Snapshots.mk (oc_map o) []) None plan others network_domain) in
  let keep := Snapshots.current (cx_state c) in
  let valid := merge_validity (oc_valid_until o) (cx_transition_valid_until c) in
  let receipt status code := oc_receipts o ++ [Receipt.mk (blake2_256 action) status code] in
  match r with
  | Ok _ => Some (mkOutcome keep (receipt StApplied None) valid)
  | Err SA_MissingWitness | Err SA_InvalidProof | Err (SA_NeedState _) => None
  | Err (SA_ApplicationFailed code) =>
      Some (if is_native_failure code
            then mkOutcome (oc_map o) (receipt StFailed (Some code)) (oc_valid_until o)
            else mkOutcome keep (receipt StFailed (Some code)) valid)
  | Err (SA_Rejected code) =>
      Some (mkOutcome (oc_map o) (receipt StRejected (Some code)) (oc_valid_until o))
  | Err _ =>
      Some (mkOutcome (oc_map o) (receipt StFailed (Some generic_error_code)) (oc_valid_until o))
  end.

Fixpoint reference_actions (o : outcome) (actions : list bytes) : option outcome :=
  match actions with
  | [] => Some o
  | a :: actions' =>
      match reference_action o a with
      | Some o' => reference_actions o' actions'
      | None => None
      end
  end.
End Reference.

(** ** Refine implements the reference semantics *)

Section Soundness.
Context `{Blake2} `{TrieLaws}.

(** Proof-backed views of the other services against their maps. *)
Definition ext_sim (e : ExternalProofStates.t) (others : gmap Z kv) : Prop :=
  forall id, match e !! id, others !! id with
             | Some ps, Some m => ps_sim m ps (Snapshots.mk m [])
             | None, None => True
             | _, _ => False
             end.

Lemma lossy_same {A} m (f : access ProofState.t A) (g : access Snapshots.t A) :
  lossy_op (ps_sim m) f g -> same_op (ps_sim m) f g.
Proof. intros Hf s a Hsa. destruct (Hf s a Hsa) as [?|[? _]]; [by left|by right]. Qed.

Lemma ext_sim_get id k : same_op ext_sim (ExternalProofStates.get id k) (maps_get id k).
Proof.
  intros e others He. unfold ExternalProofStates.get, maps_get. pose proof (He id) as Hid.
  destruct (e !! id) as [ps|] eqn:Hps, (others !! id) as [m|] eqn:Hm; try done; [|by left].
  destruct (ref_get (R := ps_sim m) k ps _ Hid) as [[Hr Hs]|[Hr Hs]];
    destruct (ms_get k ps) as [r ps']; simpl in *; [left|by right].
  split; [done|]. intros j. destruct (decide (j = id)) as [->|].
  - rewrite lookup_insert_eq, Hm. done.
  - rewrite lookup_insert_ne by done. apply He.
Qed.

Lemma proof_ops m : ops_rel (ps_sim m) ext_sim.
Proof.
  split.
  - intros k. apply lossy_same, (ref_get (R := ps_sim m)).
  - intros k v. apply lossy_same, (ref_set (R := ps_sim m)).
  - intros k. apply lossy_same, (ref_delete (R := ps_sim m)).
  - intros s t. apply (ref_begin (R := ps_sim m)).
  - intros s t. apply (ref_commit (R := ps_sim m)).
  - intros s t. apply (ref_rollback (R := ps_sim m)).
  - apply ext_sim_get.
Qed.

Record loop_rel (m : kv) (st : loop_state ProofState.t ExternalProofStates.t)
    (sp : loop_state Snapshots.t (gmap Z kv)) : Prop := {
  lr_state : ps_sim m (ls_state st) (ls_state sp);
  lr_external : ext_sim (ls_external st) (ls_external sp);
  lr_receipts : ls_receipts st = ls_receipts sp;
  lr_valid : ls_valid_until st = ls_valid_until sp
}.

Lemma committed_sim m s a s' :
  ps_sim m s a -> committed s = Ok s' -> exists a', committed a = Ok a' /\ ps_sim m s' a'.
Proof.
  unfold committed. intros Hsa. destruct (ref_commit (R := ps_sim m) s a Hsa) as [Hr Hs].
  destruct (ms_commit s) as [[] s1], (ms_commit a) as [[] a1]; simpl in *; try done.
  intros [= <-]. eauto.
Qed.

Lemma rolled_back_sim m s a s' :
  ps_sim m s a -> rolled_back s = Ok s' -> exists a', rolled_back a = Ok a' /\ ps_sim m s' a'.
Proof.
  unfold rolled_back. intros Hsa. destruct (ref_rollback (R := ps_sim m) s a Hsa) as [Hr Hs].
  destruct (ms_rollback s) as [[] s1], (ms_rollback a) as [[] a1]; simpl in *; try done.
  intros [= <-]. eauto.
Qed.

Lemma settle_sim generic m st sp hash r c d st' :
  loop_rel m st sp -> ctx_rel (ps_sim m) ext_sim c d -> settle generic st hash r c = Ok st' ->
  exists sp', settle generic sp hash r d = Ok sp' /\ loop_rel m st' sp'.
Proof.
  intros [Hs He Hr Hv] Hcd Hset. unfold settle in *. rewrite <- (rel_valid _ _ _ _ Hcd), <- Hr, <- Hv.
  assert (ext_sim (default (ls_external st) (cx_external_state c))
                  (default (ls_external sp) (cx_external_state d))) as Hext.
  { pose proof (rel_external _ _ _ _ Hcd) as Hx.
    destruct (cx_external_state c), (cx_external_state d); done. }
  pose proof (rel_state _ _ _ _ Hcd) as Hst.
  destruct r as [?|err]; [|destruct err; try (result_inv; done)];
    try (case_match); apply rbind_Ok in Hset as (s1 & Hs1 & [= <-]);
    first [ destruct (committed_sim _ _ _ _ Hst Hs1) as (a1 & -> & Ha1)
          | destruct (rolled_back_sim _ _ _ _ Hst Hs1) as (a1 & -> & Ha1) ];
    simpl; eexists; (split; [done|by split]).
Qed.

(** Depth of the transactions of a proof-backed state. *)
Definition proof_depth (s : ProofState.t) : nat := length (Overlay.transactions (ProofState.overlay s)).

Lemma proof_state_depth : ops_depth proof_depth.
Proof.
  assert (forall k s, ProofState.overlay (ProofState.base_value k s).2 = ProofState.overlay s) as Hbase.
  { intros k s. unfold ProofState.base_value. repeat case_match; done. }
  assert (forall k s, proof_depth (ProofState.get k s).2 = proof_depth s) as Hg.
  { intros k s. unfold ProofState.get, proof_depth. case_match; [done|]. pose proof (Hbase k s).
    destruct (ProofState.base_value k s) as [[v|e] s']; simpl in *; congruence. }
  assert (forall k x s, proof_depth (ProofState.update k x s).2 = proof_depth s) as Hu.
  { intros k x s. unfold ProofState.update, proof_depth. case_match; [done|].
    set (op := match Overlay.overlay_value (ProofState.overlay s) k, ProofState.base_cache s !! k with
               | None, None => ProofState.base_value k s
               | _, _ => (Ok None, s)
               end).
    assert (ProofState.overlay op.2 = ProofState.overlay s) as Hop by (unfold op; repeat case_match; done || apply Hbase).
    destruct op as [[v|e] s']; simpl in *; rewrite Hop; [|done].
    unfold Overlay.put. by destruct (Overlay.transactions (ProofState.overlay s)). }
  split; intros; simpl; [apply Hg|apply Hu|apply Hu|done|..].
  - unfold ProofState.commit_transaction, Overlay.commit_transaction, proof_depth in *.
    destruct (Overlay.transactions (ProofState.overlay s)) as [|a [|b ts]]; simpl in *; by simplify_eq.
  - unfold ProofState.rollback_transaction, Overlay.rollback_transaction, proof_depth in *.
    destruct (Overlay.transactions (ProofState.overlay s)) as [|a ts]; simpl in *; by simplify_eq.
Qed.

Lemma refine_action_sim generic app plan domain m st sp action st' :
  propagates (app action) /\ balanced 0 (app action) -> loop_rel m st sp ->
  refine_action generic app plan domain st action = Ok st' ->
  exists sp', refine_action generic app plan domain sp action = Ok sp' /\ loop_rel m st' sp'.
Proof.
  intros [Hp Hb] Hrel. unfold refine_action.
  set (c := with_access_plan_and_external_state _ _ _ (ls_external st) _).
  set (d := with_access_plan_and_external_state _ _ _ (ls_external sp) _).
  assert (ctx_rel (ps_sim m) ext_sim c d) as Hcd.
  { split; try done; [|apply Hrel]. apply (ref_begin (R := ps_sim m)), Hrel. }
  destruct (run_sim _ _ proof_depth proof_state_depth (proof_ops m) (app action) 0 c d Hp Hb (Nat.le_0_l _) Hcd) as [[Hr Hc]|Hr].
  - destruct (run (app action) c) as [r c'], (run (app action) d) as [r' d']. simpl in *. subst.
    by apply settle_sim.
  - destruct (run (app action) c) as [r c']. simpl in *. subst. simpl. intros Hset. result_inv.
Qed.

Lemma refine_actions_sim generic app plan domain m actions : forall st sp st',
  Forall (fun a => propagates (app a) /\ balanced 0 (app a)) actions -> loop_rel m st sp ->
  rfold (refine_action generic app plan domain) st actions = Ok st' ->
  exists sp', rfold (refine_action generic app plan domain) sp actions = Ok sp' /\ loop_rel m st' sp'.
Proof.
  induction actions as [|a actions IH]; intros st sp st' Hp Hrel Hr; simpl in *.
  - injection Hr as <-. eauto.
  - apply Forall_cons in Hp as [Hpa Hp]. apply rbind_Ok in Hr as (st1 & Hst1 & Hr).
    destruct (refine_action_sim _ _ _ _ _ _ _ _ _ Hpa Hrel Hst1) as (sp1 & -> & Hrel1). simpl. by eapply IH.
Qed.

(** *** From snapshots to the reference *)

Lemma on_state_external {A} (op : access Snapshots.t A) (c : context Snapshots.t (gmap Z kv)) :
  cx_external_state (on_state op c).2 = cx_external_state c.
Proof. unfold on_state. by destruct (op (cx_state c)). Qed.

Lemma external_get_external (id : Z) (k : bytes) (c : context Snapshots.t (gmap Z kv)) :
  cx_external_state (external_get id k c).2 = cx_external_state c.
Proof.
  unfold external_get, ext_get, maps_external, maps_get.
  destruct (cx_external_state c) as [g|] eqn:Hc; [|done]. by destruct (g !! id).
Qed.

Lemma state_view_external (c : context Snapshots.t (gmap Z kv)) :
  cx_external_state (state_view c).2 = cx_external_state c.
Proof. unfold state_view. destruct (cx_access_plan c); [|done]. by destruct (collect _ _). Qed.

Lemma run_maps_external (p : prog) : forall c : context Snapshots.t (gmap Z kv),
  cx_external_state (run p c).2 = cx_external_state c.
Proof.
  induction p as [r|k cont IH|k v cont IH|k cont IH|cont IH|cont IH|cont IH|id k cont IH|cont IH
    |cont IH|cont IH|cont IH|cont IH|cont IH|o1 o2 n IH|v n IH]; intros c; cbn [run]; try done;
    try apply IH; try (etransitivity; [apply IH|done]);
    match goal with
    | |- context [on_state ?op c] => pose proof (on_state_external op c) as He; destruct (on_state op c)
    | |- context [external_get ?i ?k c] =>
        pose proof (external_get_external i k c) as He; destruct (external_get i k c)
    | |- context [state_view c] => pose proof (state_view_external c) as He; destruct (state_view c)
    end; simpl in He; rewrite <- He; apply IH.
Qed.

(** One action on snapshots with nothing saved is one reference action. *)
Lemma reference_step generic app plan domain others m receipts valid action sp' :
  balanced 0 (app action) ->
  refine_action generic app plan domain (mkLoop (Snapshots.mk m []) others receipts valid) action = Ok sp' ->
  exists o, reference_action generic app plan domain others (mkOutcome m receipts valid) action = Some o
    /\ sp' = mkLoop (Snapshots.mk (oc_map o) []) others (oc_receipts o) (oc_valid_until o).
Proof.
  intros Hb. unfold refine_action, reference_action. cbn [ls_state ls_external oc_map].
  set (c0 := with_access_plan_and_external_state (Snapshots.mk m []) None plan others domain).
  destruct (run_frame (app action) 0 c0 m [] Hb eq_refl) as (r & cur & c & Hrun).
  pose proof (Hrun []) as Hspec. pose proof (Hrun [m]) as Himp. simpl in Hspec, Himp.
  change (set_state c0 (Snapshots.mk m [])) with c0 in Hspec.
  change (with_access_plan_and_external_state (ms_begin (Snapshots.mk m [])).2 None plan others domain)
    with (set_state c0 (Snapshots.mk m [m])).
  rewrite Himp, Hspec.
  pose proof (run_maps_external (app action) c0) as Hext. rewrite Hspec in Hext. simpl in Hext.
  unfold settle. cbn [cx_transition_valid_until set_state cx_external_state cx_state Snapshots.current].
  rewrite Hext. cbn [default ls_receipts ls_valid_until oc_receipts oc_valid_until].
  destruct r as [?|[]]; simpl; try discriminate; try case_match;
    intros [= <-]; eexists; (split; [done|]); done.
Qed.

Lemma reference_loop generic app plan domain others actions : forall m receipts valid sp',
  Forall (fun a => balanced 0 (app a)) actions ->
  rfold (refine_action generic app plan domain) (mkLoop (Snapshots.mk m []) others receipts valid) actions
    = Ok sp' ->
  exists o, reference_actions generic app plan domain others (mkOutcome m receipts valid) actions = Some o
    /\ sp' = mkLoop (Snapshots.mk (oc_map o) []) others (oc_receipts o) (oc_valid_until o).
Proof.
  induction actions as [|a actions IH]; intros m receipts valid sp' Hb Hr; simpl in *.
  - injection Hr as <-. by eexists.
  - apply Forall_cons in Hb as [Hba Hb]. apply rbind_Ok in Hr as (sp1 & Hsp1 & Hr).
    destruct (reference_step _ _ _ _ _ _ _ _ _ _ Hba Hsp1) as (o & -> & ->).
    destruct o. by eapply IH.
Qed.

(** *** Witnesses *)

Lemma read_all_sim m keys : forall s a s',
  ps_sim m s a -> ExternalProofStates.read_all s keys = Ok s' -> ps_sim m s' a.
Proof.
  induction keys as [|k keys IH]; intros s a s' Hs Hr; simpl in Hr; [by injection Hr as <-|].
  apply rbind_Ok in Hr as (s1 & Hs1 & Hr). eapply IH; [|exact Hr].
  destruct (ps_get m k s a Hs) as [[_ Hs']|[Hm _]]; destruct (ProofState.get k s) as [[] s2];
    simpl in *; by simplify_eq.
Qed.

(** The maps behind the external witnesses. *)
Definition others_ok (others : gmap Z kv) (ws : list ExternalWitness.t) : Prop :=
  (forall w, w ∈ ws -> exists m, others !! ExternalWitness.service_id w = Some m
     /\ StateWitness.parent_root (ExternalWitness.managed_state w) = root_of m)
  /\ (forall id m, others !! id = Some m -> exists w, w ∈ ws /\ ExternalWitness.service_id w = id).

Definition views_of (e : ExternalProofStates.t) (ws : list ExternalWitness.t) : Prop :=
  (forall id ps, e !! id = Some ps -> exists w, w ∈ ws /\ ExternalWitness.service_id w = id
     /\ forall m, StateWitness.parent_root (ExternalWitness.managed_state w) = root_of m ->
          ps_sim m ps (Snapshots.mk m []))
  /\ (forall w, w ∈ ws -> is_Some (e !! ExternalWitness.service_id w)).

Lemma insert_witness_views e ws w e' :
  views_of e ws -> ExternalProofStates.insert_witness e w = Ok e' -> views_of e' (ws ++ [w]).
Proof.
  intros [Hv1 Hv2] Hi. unfold ExternalProofStates.insert_witness in Hi. result_inv1.
  apply rbind_Ok in Hi as (s0 & Hs0 & Hi). apply rbind_Ok in Hi as (s1 & Hs1 & [= <-]).
  apply map_err_Ok in Hs0. split.
  - intros id ps. destruct (decide (id = ExternalWitness.service_id w)) as [->|Hne].
    + rewrite lookup_insert_eq. intros [= <-]. exists w. split; [set_solver|]. split; [done|].
      intros m Hm. rewrite Hm in Hs0. eapply read_all_sim; [|exact Hs1]. by eapply ps_from_witness.
    + rewrite lookup_insert_ne by done. intros (w' & Hw' & Hid & Hsim)%Hv1.
      exists w'. split; [set_solver|]. done.
  - intros w'. rewrite elem_of_app, list_elem_of_singleton. intros [Hw'| ->].
    + destruct (decide (ExternalWitness.service_id w' = ExternalWitness.service_id w)) as [->|].
      * by rewrite lookup_insert_eq.
      * rewrite lookup_insert_ne by done. by apply Hv2.
    + by rewrite lookup_insert_eq.
Qed.

Lemma from_input_views ws : forall e done e',
  views_of e done -> rfold ExternalProofStates.insert_witness e ws = Ok e' -> views_of e' (done ++ ws).
Proof.
  induction ws as [|w ws IH]; intros e dn e' Hv Hr; simpl in Hr.
  - injection Hr as <-. by rewrite app_nil_r.
  - apply rbind_Ok in Hr as (e1 & He1 & Hr). eapply insert_witness_views in He1; [|done].
    eapply IH in Hr; [|done]. by rewrite <- (assoc_L (++)) in Hr.
Qed.

Lemma from_input_sim ws e others :
  ExternalProofStates.from_input ws = Ok e -> others_ok others ws -> ext_sim e others.
Proof.
  intros Hf [Ho1 Ho2]. apply (from_input_views ws ∅ []) in Hf as [Hv1 Hv2]; [|split; set_solver].
  simpl in *. intros id. destruct (e !! id) as [ps|] eqn:He.
  - apply Hv1 in He as (w & Hw & <- & Hsim). destruct (Ho1 w Hw) as (m & -> & Hm). by apply Hsim.
  - destruct (others !! id) as [m|] eqn:Hm; [|done].
    apply Ho2 in Hm as (w & Hw & <-). apply Hv2 in Hw. rewrite He in Hw. by destruct Hw.
Qed.

(** *** The refinement *)

Lemma refine_with_code_sound generic app input domain m others t :
  Forall (fun a => propagates (app a) /\ balanced 0 (app a)) (RefineInput.actions input) ->
  StateWitness.parent_root (RefineInput.managed_state input) = root_of m ->
  others_ok others (RefineInput.external_state input) ->
  refine_with_code generic app input domain = Ok t ->
  exists o, reference_actions generic app (StateWitness.access_plan (RefineInput.managed_state input))
              domain others (mkOutcome m [] None) (RefineInput.actions input) = Some o
    /\ tr_parent_root t = root_of m /\ tr_new_root t = root_of (oc_map o)
    /\ tr_receipts t = oc_receipts o /\ tr_valid_until t = oc_valid_until o
    /\ apply_changes (StateDiff.changes (tr_diff t)) m = oc_map o
    /\ key_ssorted key (StateDiff.changes (tr_diff t))
    /\ tr_dependencies t = external_dependencies (RefineInput.external_state input).
Proof.
  intros Happ Hroot Hothers Hr. unfold refine_with_code in Hr. result_inv1.
  apply rbind_Ok in Hr as (ext & Hext & Hr). apply rbind_Ok in Hr as (s0 & Hs0 & Hr).
  apply map_err_Ok in Hs0. apply rbind_Ok in Hr as (s1 & Hs1 & Hr).
  apply rbind_Ok in Hr as (st & Hst & Hr). apply rbind_Ok in Hr as ([root diff] & Hfin & Hr).
  apply map_err_Ok in Hfin. injection Hr as <-.
  rewrite Hroot in Hs0. pose proof (ps_from_witness _ _ _ Hs0) as Hsim0.
  pose proof (read_all_sim _ _ _ _ _ Hsim0 Hs1) as Hsim1.
  apply from_input_sim with (others := others) in Hext; [|done].
  assert (Forall (fun a => balanced 0 (app a)) (RefineInput.actions input)) as Hbal
    by (eapply Forall_impl; [exact Happ|]; by intros ? []).
  unfold refine_actions in Hst.
  assert (loop_rel m (mkLoop s1 ext [] None) (mkLoop (Snapshots.mk m []) others [] None)) as Hinit
    by (split; done).
  destruct (refine_actions_sim _ _ _ _ m _ _ _ _ Happ Hinit Hst) as (sp & Hsp & Hrel).
  apply reference_loop in Hsp as (o & Ho & ->); [|done]. exists o. split; [done|].
  destruct Hrel as [Hls _ Hrec Hval]. simpl in *.
  destruct (ps_finish _ _ _ _ _ Hls Hfin) as (_ & -> & _ & Happly & Hsorted).
  destruct Hsim1 as (_ & Hroot1 & _). unfold ProofState.parent_root. done.
Qed.
End Soundness.

(** ** Refine is correct *)

(** C1: refine implements the reference semantics.  Take any application that
    closes its own transactions and does not swallow a missing witness, a
    witness whose root is the root of a map [m] and external witnesses whose
    roots are those of [others].  If refine succeeds, its receipts and expiry
    are those of running the actions one after the other on [m] (keeping the
    writes of applied and application-failed actions, dropping those of
    rejected and runtime-failed ones), its new root is the root of the
    resulting map, its diff is sorted and turns [m] into that map, and it
    depends on exactly the external roots it was given. *)
Theorem refine_correct `{Blake2} `{TrieLaws} (application : bytes -> prog) (input : RefineInput.t)
    (network_domain : bytes) (m : kv) (others : gmap Z kv) (t : transition) :
  Forall (fun a => propagates (application a) /\ balanced 0 (application a)) (RefineInput.actions input) ->
  StateWitness.parent_root (RefineInput.managed_state input) = root_of m ->
  others_ok others (RefineInput.external_state input) ->
  refine_internal application input network_domain = Ok t ->
  exists o, reference_actions GENERIC_ERROR application
              (StateWitness.access_plan (RefineInput.managed_state input)) network_domain others
              (mkOutcome m [] None) (RefineInput.actions input) = Some o
    /\ tr_parent_root t = root_of m /\ tr_new_root t = root_of (oc_map o)
    /\ tr_receipts t = oc_receipts o /\ tr_valid_until t = oc_valid_until o
    /\ apply_changes (StateDiff.changes (tr_diff t)) m = oc_map o
    /\ key_ssorted key (StateDiff.changes (tr_diff t))
    /\ tr_dependencies t = external_dependencies (RefineInput.external_state input).
Proof. apply refine_with_code_sound. Qed.

(** A small application: [[0]] reads and writes a key, anything else writes
    another key and rejects. *)
Definition sample_application (action : bytes) : prog :=
  if bool_decide (action = [x00]) then
    Get [x01; x01] (fun r => match r with
      | Err e => Return (Err e)
      | Ok _ => SetKey [x01; x01] [x2a] (fun r => Return r)
      end)
  else
    SetKey [x01; x02] [x07] (fun r => match r with
      | Err e => Return (Err e)
      | Ok _ => Return (Err (SA_Rejected 5))
      end).

Lemma sample_application_disciplined action :
  propagates (sample_application action) /\ balanced 0 (sample_application action).
Proof.
  unfold sample_application. case_match; simpl.
  - split; [|intros [o|e]; simpl; done]. split; [done|]. intros [o|e]; simpl; done.
  - split; [split; [done|]|]; intros [o|e]; simpl; done.
Qed.

Definition sample_map : kv := {[ [x01; x01] := [x01] ]}.
Definition sample_refine_input : RefineInput.t :=
  RefineInput.mk x01
    (StateWitness.mk x01 (model_root sample_map) (AccessPlan.mk x01 [[x01; x01]; [x01; x02]])
       [[x01; x01]; [x01; x02]])
    [] [[x00]; [x01]].

Lemma refine_correct_witness :
  exists t, @refine_internal zero_hash _ sample_application sample_refine_input (repeat x00 32) = Ok t
    /\ tr_new_root t = model_root {[ [x01; x01] := [x2a] ]}
    /\ map Receipt.status (tr_receipts t) = [StApplied; StRejected].
Proof.
  destruct (@refine_internal zero_hash _ sample_application sample_refine_input (repeat x00 32))
    as [t|] eqn:Ht; [|vm_compute in Ht; discriminate].
  exists t. split; [reflexivity|].
  destruct (@refine_correct zero_hash _ _ sample_application sample_refine_input (repeat x00 32)
    sample_map ∅ t) as (o & Ho & _ & Hn & Hr & _).
  - apply Forall_forall. intros a _. apply sample_application_disciplined.
  - reflexivity.
  - split; [intros w Hw; by apply elem_of_nil in Hw|]. intros id m Hm. by rewrite lookup_empty in Hm.
  - exact Ht.
  - rewrite Hn, Hr. clear -Ho. vm_compute in Ho. injection Ho as <-. split; vm_compute; reflexivity.
Defined.
