(* ===== verification/Planner.v ===== *)
(** * The observed refine loop and the guest planner ([service-runtime-guest])

    [refine_internal_owned_with_observer] is a second copy of the refine loop
    that reports its stages; [plan_owned_internal] runs the actions over the
    keys known so far and stops at the first unknown one. *)

From S2P Require Import Prelude Ordering Reader Wire ServiceKeys StateView StateDiff Records Witness RefineInput Dependencies RefineOutput Ownership State Overlays ModelTrie Execution Requests Guest.

(** ** Observed computations: a result and the stages reported so far *)

Definition observed (A : Type) : Type := list Z -> result A GuestError * list Z.
#[export] Instance observed_ret : MRet observed := fun A v tr => (Ok v, tr).
#[export] Instance observed_bind : MBind observed := fun A B k m tr =>
  match m tr with
  | (Ok v, tr) => k v tr
  | (Err e, tr) => (Err e, tr)
  end.
Definition stage (z : Z) : observed unit := fun tr => (Ok tt, tr ++ [z]).
Definition olift {A} (r : result A GuestError) : observed A := fun tr => (r, tr).
Definition ofail {A} (e : GuestError) : observed A := fun tr => (Err e, tr).

Fixpoint ofold {S A} (f : S -> A -> observed S) (s : S) (l : list A) : observed S :=
  match l with
  | [] => mret s
  | x :: l' => s' ← f s x; ofold f s' l'
  end.

Definition STAGE_PROOF_STATE : Z := 1.
Definition STAGE_FIRST_TRIE_GET : Z := 2.
Definition STAGE_PROOF_READY : Z := 3.
Definition STAGE_APPLICATION : Z := 4.
Definition STAGE_FINISH : Z := 5.
Definition STAGE_FINISH_DONE : Z := 6.
Definition STAGE_APPLICATION_DONE : Z := 7.
Definition STAGE_APPLICATION_COMMIT : Z := 8.
Definition STAGE_APPLICATION_COMMITTED : Z := 9.
Definition STAGE_STATE_ERROR : Z := 10.

Section Observed.
Context `{Blake2} `{Trie}.

(** [ProofState::from_witness_owned_with_observer] under [map_err]. *)
Definition from_witness_observed (root : bytes) (proof : list bytes) : observed ProofState.t :=
  let db := proof_into_db proof in
  stage STAGE_PROOF_STATE;;
  stage STAGE_FIRST_TRIE_GET;;
  olift (ok_or (trie_get db root []) GE_State);;
  stage STAGE_PROOF_READY;;
  mret (ProofState.mk db root ∅ Overlay.new).

Definition refine_action_observed (application : bytes -> prog) (plan : AccessPlan.t) (network_domain : bytes)
    (st : loop_state ProofState.t ExternalProofStates.t) (action : bytes)
    : observed (loop_state ProofState.t ExternalProofStates.t) :=
  let action_hash := blake2_256 action in
  let state := (ms_begin (ls_state st)).2 in
  stage STAGE_APPLICATION;;
  let '(r, c) := run (application action)
    (with_access_plan_and_external_state state None plan (ls_external st) network_domain) in
  let action_valid_until := cx_transition_valid_until c in
  let external := default (ls_external st) (cx_external_state c) in
  let push s status code valid :=
    mkLoop s external (ls_receipts st ++ [Receipt.mk action_hash status code]) valid in
  stage STAGE_APPLICATION_DONE;;
  match r with
  | Ok _ =>
      stage STAGE_APPLICATION_COMMIT;;
      match ms_commit (cx_state c) with
      | (Err _, _) => stage STAGE_STATE_ERROR;; ofail GE_State
      | (Ok _, s) =>
          stage STAGE_APPLICATION_COMMITTED;;
          mret (push s StApplied None (merge_validity (ls_valid_until st) action_valid_until))
      end
  | Err SA_MissingWitness | Err SA_InvalidProof =>
      olift (rolled_back (cx_state c));;
      ofail GE_State
  | Err (SA_NeedState key) =>
      olift (rolled_back (cx_state c));;
      ofail (GE_NeedState key)
  | Err (SA_ApplicationFailed error_code) =>
      if is_native_failure error_code then
        s ← olift (rolled_back (cx_state c));
        mret (push s StFailed (Some error_code) (ls_valid_until st))
      else
        s ← olift (committed (cx_state c));
        mret (push s StFailed (Some error_code) (merge_validity (ls_valid_until st) action_valid_until))
  | Err (SA_Rejected error_code) =>
      s ← olift (rolled_back (cx_state c));
      mret (push s StRejected (Some error_code) (ls_valid_until st))
  | Err _ =>
      s ← olift (rolled_back (cx_state c));
      mret (push s StFailed (Some 1) (ls_valid_until st))
  end.

Definition refine_internal_owned_with_observer (application : bytes -> prog) (input : RefineInput.t)
    (network_domain : bytes) : observed transition :=
  if negb (bool_decide (RefineInput.version input = x01))
     || negb (bool_decide (StateWitness.version (RefineInput.managed_state input) = x01))
  then ofail GE_InvalidInput
  else
    external ← olift (ExternalProofStates.from_input (RefineInput.external_state input));
    state ← from_witness_observed (StateWitness.parent_root (RefineInput.managed_state input))
              (StateWitness.storage_proof (RefineInput.managed_state input));
    let plan := StateWitness.access_plan (RefineInput.managed_state input) in
    state ← olift (ExternalProofStates.read_all state (AccessPlan.keys plan));
    let parent_root := ProofState.parent_root state in
    st ← ofold (refine_action_observed application plan network_domain)
           (mkLoop state external [] None) (RefineInput.actions input);
    stage STAGE_FINISH;;
    '(new_root, diff) ← olift (map_err (fun _ => GE_State) (ProofState.finish (ls_state st)));
    stage STAGE_FINISH_DONE;;
    mret (mkTransition parent_root new_root (ls_receipts st) diff (ls_valid_until st)
            (external_dependencies (RefineInput.external_state input))).

Definition refine_owned_with_environment_and_observer (application : bytes -> prog) (input : RefineInput.t)
    (network_domain : bytes) : observed RefineOutput.t :=
  t ← refine_internal_owned_with_observer application input network_domain;
  olift (publish t).

(** *** The observed loop computes what the plain loop computes *)

(** [same o r]: whatever was reported before, [o] answers [r]. *)
Definition same {A} (o : observed A) (r : result A GuestError) : Prop := forall tr, (o tr).1 = r.

Lemma same_ret {A} (v : A) : same (mret v) (Ok v).
Proof. done. Qed.
Lemma same_lift {A} (r : result A GuestError) : same (olift r) r.
Proof. done. Qed.
Lemma same_observed_bind {A B} (o : observed A) r (k : A -> observed B) (k' : A -> result B GuestError) :
  same o r -> (forall v, same (k v) (k' v)) -> same (o ≫= k) (rbind r k').
Proof.
  intros Ho Hk tr. unfold mbind, observed_bind. specialize (Ho tr).
  destruct (o tr) as [[v|e] tr']; simpl in Ho; subst; simpl; [apply Hk|done].
Qed.
Lemma same_stage {B} z (k : observed B) r : same k r -> same (stage z;; k) r.
Proof. intros Hk tr. apply Hk. Qed.

Lemma same_ofold {S A} (f : S -> A -> observed S) g (l : list A) : forall s,
  (forall s x, same (f s x) (g s x)) -> same (ofold f s l) (rfold g s l).
Proof.
  induction l as [|x l IH]; intros s Hfg; simpl; [apply same_ret|].
  apply same_observed_bind; [apply Hfg|]. intros s'. by apply IH.
Qed.

Lemma same_action application plan domain st action :
  same (refine_action_observed application plan domain st action)
       (refine_action 1 application plan domain st action).
Proof.
  unfold refine_action_observed, refine_action. apply same_stage.
  destruct (run (application action) _) as [r c]. apply same_stage. unfold settle.
  destruct r as [?|err].
  - apply same_stage. unfold committed. destruct (ms_commit (cx_state c)) as [[] s]; done.
  - destruct err; try case_match; (apply same_observed_bind; [apply same_lift|intros s; done]).
Qed.

Lemma same_refine application input domain :
  same (refine_internal_owned_with_observer application input domain)
       (refine_with_code 1 application input domain).
Proof.
  unfold refine_internal_owned_with_observer, refine_with_code.
  change RefineInput.VERSION with x01. change StateWitness.VERSION with x01.
  destruct (negb _ || negb _); [done|].
  apply same_observed_bind; [apply same_lift|]. intros ext.
  apply same_observed_bind.
  { unfold from_witness_observed, ProofState.from_witness. do 2 apply same_stage. intros tr.
    unfold mbind, observed_bind, olift. destruct (trie_get _ _ []); done. }
  intros s0. apply same_observed_bind; [apply same_lift|]. intros s1.
  apply same_observed_bind; [apply same_ofold; intros; apply same_action|]. intros st. apply same_stage.
  apply same_observed_bind; [apply same_lift|]. intros [root diff]. done.
Qed.
End Observed.

(** ** The planner *)

Module PlanningProofState.
Section Ops.
Context `{Trie}.

Record t := mk { proof : ProofState.t; known : gset bytes }.

(** Reading the known keys in order; a missing witness asks for the key. *)
Definition read_known (p : ProofState.t) (keys : list bytes) : result ProofState.t GuestError :=
  rfold (fun p k => match ProofState.get k p with
                    | (Ok _, p) => Ok p
                    | (Err SA_MissingWitness, _) => Err (GE_NeedState k)
                    | (Err _, _) => Err GE_State
                    end) p keys.

Definition new (parent_root : bytes) (storage_proof : list bytes) (keys : list bytes)
    : result t GuestError :=
  let? proof := map_err (fun _ => GE_State) (ProofState.from_witness parent_root storage_proof) in
  let known := list_to_set keys : gset bytes in
  let? proof := read_known proof (sort_by_key id (elements known)) in
  Ok (mk proof known).

Definition require_known (s : t) (k : bytes) : result unit StateAccessError :=
  if bool_decide (k ∈ known s) then Ok tt else Err (SA_NeedState k).

Definition on_proof {A} (op : access ProofState.t A) : access t A := fun s =>
  let '(r, p) := op (proof s) in (r, mk p (known s)).

(** [self.require_known(key)?; op(&mut self.proof, key)]. *)
Definition if_known {A} (k : bytes) (op : access ProofState.t A) : access t A := fun s =>
  match require_known s k with
  | Err e => (Err e, s)
  | Ok _ => on_proof op s
  end.

#[global] Instance state_access : ManagedStateAccess t := {|
  ms_get k := if_known k (ms_get k);
  ms_set k v := if_known k (ms_set k v);
  ms_delete k := if_known k (ms_delete k);
  ms_begin := on_proof ms_begin;
  ms_commit := on_proof ms_commit;
  ms_rollback := on_proof ms_rollback
|}.
End Ops.
End PlanningProofState.

Module PlanningExternal.
Notation t := (gmap Z PlanningProofState.t).
Section Ops.
Context `{Trie}.

Definition insert_witness (states : t) (w : ExternalWitness.t) : result t GuestError :=
  let sid := ExternalWitness.service_id w in
  bail_if bool_decide (is_Some (states !! sid)) with GE_InvalidInput ;;
  let? state := map_err (fun e => match e with
                                  | GE_NeedState key => GE_NeedExternalState sid key
                                  | other => other
                                  end)
    (PlanningProofState.new (StateWitness.parent_root (ExternalWitness.managed_state w))
       (StateWitness.storage_proof (ExternalWitness.managed_state w))
       (AccessPlan.keys (StateWitness.access_plan (ExternalWitness.managed_state w)))) in
  Ok (<[sid := state]> states).

Definition new (witnesses : list ExternalWitness.t) : result t GuestError :=
  rfold insert_witness ∅ witnesses.

Definition get (service_id : Z) (k : bytes) : access t (option bytes) := fun e =>
  match e !! service_id with
  | None => (Err (SA_NeedExternalState service_id k), e)
  | Some state =>
      let '(r, state) := ms_get k state in
      (map_err (fun err => match err with
                           | SA_NeedState key => SA_NeedExternalState service_id key
                           | other => other
                           end) r, <[service_id := state]> e)
  end.
#[global] Instance external_access : ExternalStateAccess t := get.
End Ops.
End PlanningExternal.

Section Plan.
Context `{Trie}.

(** What the planner makes of one action's answer. *)
Definition plan_verdict (r : result unit StateAccessError) : result unit GuestError :=
  match r with
  | Ok _ | Err (SA_Rejected _) | Err (SA_ApplicationFailed _) => Ok tt
  | Err (SA_NeedState key) => Err (GE_NeedState key)
  | Err (SA_NeedExternalState service_id key) => Err (GE_NeedExternalState service_id key)
  | Err SA_MissingWitness | Err SA_InvalidProof => Err GE_State
  | Err _ => Err GE_Application
  end.

Definition plan_action (application : bytes -> prog) (plan : AccessPlan.t) (network_domain : bytes)
    (st : PlanningProofState.t * option PlanningExternal.t) (action : bytes)
    : result (PlanningProofState.t * option PlanningExternal.t) GuestError :=
  let context := match st.2 with
                 | Some external =>
                     with_access_plan_and_external_state st.1 None plan external network_domain
                 | None => with_access_plan st.1 None plan network_domain
                 end in
  let '(r, c) := run (application action) context in
  let? _ := plan_verdict r in
  Ok (cx_state c, cx_external_state c).

Definition plan_owned_internal (application : bytes -> prog) (input : RefineInput.t)
    (external : option PlanningExternal.t) (network_domain : bytes) : result unit GuestError :=
  bail_if negb (bool_decide (RefineInput.version input = RefineInput.VERSION))
          || negb (bool_decide (StateWitness.version (RefineInput.managed_state input)
                                = StateWitness.VERSION))
    with GE_InvalidInput ;;
  let plan := StateWitness.access_plan (RefineInput.managed_state input) in
  let? state := PlanningProofState.new (StateWitness.parent_root (RefineInput.managed_state input))
    (StateWitness.storage_proof (RefineInput.managed_state input)) (AccessPlan.keys plan) in
  let? _ := rfold (plan_action application plan network_domain) (state, external)
              (RefineInput.actions input) in
  Ok tt.

Definition plan_owned (application : bytes -> prog) (input : RefineInput.t) : result unit GuestError :=
  plan_owned_internal application input None (repeat x00 32).

Definition plan_owned_with_environment (application : bytes -> prog) (input : RefineInput.t)
    (network_domain : bytes) : result unit GuestError :=
  let? external := PlanningExternal.new (RefineInput.external_state input) in
  plan_owned_internal application input (Some external) network_domain.
End Plan.

(** ** What the catch-all error code influences *)

Section GenericCode.
Context `{Blake2} (g1 g2 : Z).

(** The same receipt, or the catch-all failure with either code. *)
Definition receipt_rel (a b : Receipt.t) : Prop :=
  a = b \/ (Receipt.action_hash a = Receipt.action_hash b /\ Receipt.status a = StFailed
           /\ Receipt.status b = StFailed /\ Receipt.error_code a = Some g1
           /\ Receipt.error_code b = Some g2).

Definition loops_rel {S E} (a b : loop_state S E) : Prop :=
  ls_state a = ls_state b /\ ls_external a = ls_external b
  /\ Forall2 receipt_rel (ls_receipts a) (ls_receipts b) /\ ls_valid_until a = ls_valid_until b.

Definition results_rel {A B} (R : A -> B -> Prop) (a : result A GuestError) (b : result B GuestError) : Prop :=
  match a, b with
  | Ok x, Ok y => R x y
  | Err e, Err e' => e = e'
  | _, _ => False
  end.

Lemma results_rel_bind {A B C} (R : B -> C -> Prop) (r : result A GuestError) k k' :
  (forall v, results_rel R (k v) (k' v)) -> results_rel R (rbind r k) (rbind r k').
Proof. intros Hk. destruct r; simpl; [apply Hk|done]. Qed.

Lemma settle_rel {S E} `{ManagedStateAccess S} (a b : loop_state S E) hash r c :
  loops_rel a b -> results_rel loops_rel (settle g1 a hash r c) (settle g2 b hash r c).
Proof.
  intros (Hs & He & Hr & Hv). unfold settle. rewrite He, Hv.
  assert (forall x y, receipt_rel x y -> Forall2 receipt_rel (ls_receipts a ++ [x]) (ls_receipts b ++ [y])) as Hpush.
  { intros x y Hxy. apply Forall2_app; [done|]. constructor; [done|constructor]. }
  destruct r as [?|err]; [|destruct err]; try case_match; apply results_rel_bind; intros s; simpl; try done;
    (split; [done|]; split; [done|]; split; [|done]); apply Hpush; by (left + right).
Qed.

Lemma actions_rel {S E} `{ManagedStateAccess S} `{ExternalStateAccess E} app plan domain actions :
  forall a b : loop_state S E, loops_rel a b ->
  results_rel loops_rel (rfold (refine_action g1 app plan domain) a actions)
                        (rfold (refine_action g2 app plan domain) b actions).
Proof.
  induction actions as [|x actions IH]; intros a b Hab; simpl; [done|].
  pose proof Hab as (Hs & He & _ & _).
  assert (results_rel loops_rel (refine_action g1 app plan domain a x) (refine_action g2 app plan domain b x)) as Hx.
  { unfold refine_action. rewrite Hs, He. destruct (run (app x) _) as [r c]. by apply settle_rel. }
  destruct (refine_action g1 app plan domain a x), (refine_action g2 app plan domain b x); simpl in *;
    try done. by apply IH.
Qed.

Lemma refine_with_code_rel `{Trie} app input domain :
  results_rel (fun s t => tr_parent_root s = tr_parent_root t /\ tr_new_root s = tr_new_root t
                 /\ Forall2 receipt_rel (tr_receipts s) (tr_receipts t) /\ tr_diff s = tr_diff t
                 /\ tr_valid_until s = tr_valid_until t /\ tr_dependencies s = tr_dependencies t)
    (refine_with_code g1 app input domain) (refine_with_code g2 app input domain).
Proof.
  unfold refine_with_code. case_match; [done|]. do 3 (apply results_rel_bind; intros ?).
  unfold refine_actions.
  match goal with |- context [rfold (refine_action g1 ?a ?p ?d) ?l ?acts] =>
    pose proof (actions_rel a p d acts l l ltac:(done)) as Hl;
    destruct (rfold (refine_action g1 a p d) l acts), (rfold (refine_action g2 a p d) l acts) end;
    simpl in *; try done.
  destruct Hl as (Hs & _ & Hr & Hv). rewrite Hs. apply results_rel_bind. intros [root diff]. done.
Qed.
End GenericCode.

(** The diagnostic copy of refine changes only a code.  For every application
    and input, the observed loop and the plain loop fail alike or return the
    same roots, diff, expiry and dependencies and the same receipts, except
    that an error outside the structured ones is reported with code [1] by the
    observed loop and [0x80000001] by the plain one. *)
Theorem observer_changes_only_generic_code `{Blake2} `{Trie} (application : bytes -> prog)
    (input : RefineInput.t) (network_domain : bytes) :
  results_rel (fun s t => tr_parent_root s = tr_parent_root t /\ tr_new_root s = tr_new_root t
                 /\ Forall2 (receipt_rel 1 GENERIC_ERROR) (tr_receipts s) (tr_receipts t)
                 /\ tr_diff s = tr_diff t /\ tr_valid_until s = tr_valid_until t
                 /\ tr_dependencies s = tr_dependencies t)
    (refine_internal_owned_with_observer application input network_domain []).1
    (refine_internal application input network_domain).
Proof.
  rewrite (same_refine application input network_domain []). apply refine_with_code_rel.
Qed.

(** An application error outside the structured ones (here a write to a
    reserved key) makes the two loops publish different receipts. *)
Lemma observer_differs :
  exists application input,
    (exists t, @refine_internal zero_hash _ application input [] = Ok t
       /\ map Receipt.error_code (tr_receipts t) = [Some 2147483649])
    /\ (exists t, (@refine_internal_owned_with_observer zero_hash _ application input [] []).1 = Ok t
       /\ map Receipt.error_code (tr_receipts t) = [Some 1]).
Proof.
  exists (fun _ => SetKey MANAGED_STATE_COMMITMENT_KEY_V1 [] (fun r => Return r)).
  exists (RefineInput.mk x01
    (StateWitness.mk x01 (model_root sample_map) (AccessPlan.mk x01 [[x01; x01]]) [[x01; x01]]) [] [[x00]]).
  split; (eexists; split; [vm_compute; reflexivity|vm_compute; reflexivity]).
Qed.

(** ** What a planner request means *)

Section PlannerRequests.
Context `{Trie} (known : gset bytes).

Definition knows (s : PlanningProofState.t) : Prop := PlanningProofState.known s = known.
Notation asks_unknown := (asks (fun k => k ∉ known)).

Lemma ps_op_never_needs (s : ProofState.t) (k j : bytes) (x : option bytes) :
  (ProofState.get k s).1 <> Err (SA_NeedState j) /\ (ProofState.update k x s).1 <> Err (SA_NeedState j).
Proof.
  assert (forall s e, (ProofState.base_value k s).1 = Err e -> e = SE_MissingWitness) as Hb.
  { intros s0 e. unfold ProofState.base_value. repeat case_match; simpl; congruence. }
  unfold ProofState.get, ProofState.update. split.
  - case_match; [done|]. specialize (Hb s). destruct (ProofState.base_value k s) as [[|e] ?]; simpl in *; [done|].
    by rewrite (Hb e eq_refl).
  - case_match; [done|]. specialize (Hb s).
    destruct (Overlay.overlay_value (ProofState.overlay s) k), (ProofState.base_cache s !! k); try done.
    destruct (ProofState.base_value k s) as [[|e] ?]; simpl in *; [done|]. by rewrite (Hb e eq_refl).
Qed.

Lemma if_known_asks {A} k (op : access ProofState.t A) :
  (forall s j, (op s).1 <> Err (SA_NeedState j)) ->
  asks_unknown (PlanningProofState.if_known k op) knows.
Proof.
  intros Hop s Hs. unfold PlanningProofState.if_known, PlanningProofState.require_known, PlanningProofState.on_proof.
  rewrite Hs. destruct (bool_decide_reflect (k ∈ known)) as [Hk|Hk]; simpl.
  - specialize (Hop (PlanningProofState.proof s)). destruct (op (PlanningProofState.proof s)). simpl in *.
    split; [done|]. intros j Hj. by apply Hop in Hj.
  - split; [done|]. by intros j [= <-].
Qed.

Lemma on_proof_asks {A} (op : access ProofState.t A) :
  (forall s j, (op s).1 <> Err (SA_NeedState j)) -> asks_unknown (PlanningProofState.on_proof op) knows.
Proof.
  intros Hop s Hs. unfold PlanningProofState.on_proof. specialize (Hop (PlanningProofState.proof s)).
  destruct (op (PlanningProofState.proof s)). simpl in *. split; [done|]. intros j Hj. by apply Hop in Hj.
Qed.

Lemma commit_never_needs (s : ProofState.t) (j : bytes) :
  (ProofState.commit_transaction s).1 <> Err (SA_NeedState j)
  /\ (ProofState.rollback_transaction s).1 <> Err (SA_NeedState j).
Proof.
  unfold ProofState.commit_transaction, ProofState.rollback_transaction.
  destruct (Overlay.commit_transaction _) as [[] ?], (Overlay.rollback_transaction _) as [[] ?]; done.
Qed.

Lemma planning_ops : ops_ask (fun _ => True) knows (fun k => k ∉ known).
Proof.
  split; intros; [apply if_known_asks|apply if_known_asks|apply if_known_asks|apply on_proof_asks
    |apply on_proof_asks|apply on_proof_asks].
  - intros s j. apply (ps_op_never_needs s k j None).
  - intros s j. apply (ps_op_never_needs s k j (Some v)).
  - intros s j. apply (ps_op_never_needs s k j None).
  - done.
  - intros s j. apply (commit_never_needs s j).
  - intros s j. apply (commit_never_needs s j).
Qed.
End PlannerRequests.

Section PlanRequests.
Context `{Trie}.

Lemma planning_external_asks Q id k : asks (T := PlanningExternal.t) Q (ext_get id k) (fun _ => True).
Proof.
  intros e _. split; [done|]. intros j.
  unfold ext_get, PlanningExternal.external_access, PlanningExternal.get.
  destruct (e !! id) as [s|]; [|done]. destruct (ms_get k s) as [[|[]] ?]; simpl; congruence.
Qed.

Lemma plan_actions_need app plan domain actions k : forall st,
  Forall (fun a => honest (app a)) actions ->
  rfold (plan_action app plan domain) st actions = Err (GE_NeedState k) ->
  k ∉ PlanningProofState.known st.1.
Proof.
  induction actions as [|a actions IH]; intros st Hh Hr; simpl in Hr; [done|].
  apply Forall_cons in Hh as [Ha Hh]. unfold plan_action in Hr at 1.
  set (c := match st.2 with Some _ => _ | None => _ end) in Hr.
  assert (cx_state c = st.1) as Hc by (unfold c; by destruct st.2).
  destruct (run_asks _ _ _ (fun _ => True) (planning_ops (PlanningProofState.known st.1))
    (planning_external_asks _) (app a) Ha (names_any _) c) as [[Hk _] Hn].
  { split; [unfold knows; by rewrite Hc|]. split; [by destruct (cx_external_state c)|].
    destruct (cx_access_plan c); [by apply Forall_true|done]. }
  destruct (run (app a) c) as [r c']. simpl in *.
  apply rbind_Err in Hr as [Hr|(st1 & Hst1 & Hr)].
  - destruct r as [?|[]]; simpl in Hr; try done. injection Hr as <-. by apply Hn.
  - apply IH in Hr; [|done]. apply rbind_Ok in Hst1 as (? & _ & [= <-]). simpl in Hr.
    by rewrite Hk in Hr.
Qed.

(** Reading the known keys fails on a key only when the proof lacks it. *)
Lemma read_known_need root proof keys k : forall p,
  ProofState.db p = proof_into_db proof -> ProofState.root p = root ->
  ProofState.overlay p = Overlay.new ->
  PlanningProofState.read_known p keys = Err (GE_NeedState k) ->
  trie_get (proof_into_db proof) root k = None.
Proof.
  induction keys as [|j keys IH]; intros p Hd Hr Ho Hk; [done|].
  unfold PlanningProofState.read_known in Hk. cbn [rfold] in Hk.
  assert (ProofState.get j p = let '(r, p') := ProofState.base_value j p in (map_err state_access_error r, p')) as Hg.
  { unfold ProofState.get. by rewrite Ho. }
  rewrite Hg in Hk. unfold ProofState.base_value in Hk. rewrite Hd, Hr in Hk.
  destruct (ProofState.base_cache p !! j); simpl in Hk; [by eapply IH|].
  destruct (trie_get (proof_into_db proof) root j) eqn:Hget; simpl in Hk.
  - eapply IH; [| | |exact Hk]; done.
  - by injection Hk as <-.
Qed.

Lemma planning_new_need root proof keys k :
  PlanningProofState.new root proof keys = Err (GE_NeedState k) ->
  trie_get (proof_into_db proof) root k = None.
Proof.
  unfold PlanningProofState.new. intros Hn. apply rbind_Err in Hn as [Hn|(p & Hp & Hn)].
  - unfold ProofState.from_witness in Hn. by destruct (trie_get _ _ []).
  - apply rbind_Err in Hn as [Hn|(? & _ & Hn)]; [|done]. apply map_err_Ok in Hp.
    unfold ProofState.from_witness in Hp. apply rbind_Ok in Hp as (? & _ & [= <-]).
    by eapply read_known_need in Hn.
Qed.

Lemma planning_new_known root proof keys s :
  PlanningProofState.new root proof keys = Ok s -> PlanningProofState.known s = list_to_set keys.
Proof. unfold PlanningProofState.new. intros Hn. do 2 (apply rbind_Ok in Hn as (? & _ & Hn)). by injection Hn as <-. Qed.
End PlanRequests.

(** C37: the planner only asks for what the witness lacks.  When planning an
    honest application (one that asks for state only by passing on what the
    state answered) stops with [NeedState k], the key is not in the access
    plan, or it is and the supplied proof has no answer for it; so every round
    trip of the planning loop adds a key or a missing proof. *)
Theorem planner_requests_are_new `{Trie} (application : bytes -> prog) (input : RefineInput.t)
    (external : option PlanningExternal.t) (network_domain : bytes) (k : bytes) :
  Forall (fun a => honest (application a)) (RefineInput.actions input) ->
  plan_owned_internal application input external network_domain = Err (GE_NeedState k) ->
  k ∉ AccessPlan.keys (StateWitness.access_plan (RefineInput.managed_state input))
  \/ trie_get (proof_into_db (StateWitness.storage_proof (RefineInput.managed_state input)))
       (StateWitness.parent_root (RefineInput.managed_state input)) k = None.
Proof.
  intros Hh Hp. unfold plan_owned_internal in Hp. case_match; [done|].
  apply rbind_Err in Hp as [Hp|(s & Hs & Hp)].
  - right. by eapply planning_new_need.
  - left. apply rbind_Err in Hp as [Hp|(? & _ & Hp)]; [|done].
    apply plan_actions_need in Hp; [|done]. simpl in Hp.
    apply planning_new_known in Hs. rewrite Hs in Hp. by rewrite elem_of_list_to_set in Hp.
Qed.

Lemma planner_requests_are_new_witness :
  [x01; x02] ∉ [[x01; x01]]
  \/ trie_get (proof_into_db [[x01; x01]]) (model_root sample_map) [x01; x02] = None.
Proof.
  apply (planner_requests_are_new sample_application (RefineInput.mk x01
    (StateWitness.mk x01 (model_root sample_map) (AccessPlan.mk x01 [[x01; x01]]) [[x01; x01]]) [] [[x00]; [x01]])
    None []).
  - apply Forall_forall. intros a _. unfold sample_application. case_match; simpl.
    + split; [split; intros; done|]. intros [o|e] He; simpl.
      * split; [split; intros; done|]. intros r Hr k ->. by apply (Hr k).
      * intros k [= ->]. by apply (He k).
    + split; [split; intros; done|]. intros [o|e] He; simpl; intros k [= ->]. by apply (He k).
  - vm_compute. reflexivity.
Defined.

(** Rejects after a write on its first action; reads the written key on the
    second. *)
Definition dependent_application (action : bytes) : prog :=
  if bool_decide (action = [x00]) then
    SetKey [x01; x01] [x09] (fun r => match r with Err e => Return (Err e) | Ok _ => Return (Err (SA_Rejected 5)) end)
  else
    Get [x01; x01] (fun r => match r with
      | Err e => Return (Err e)
      | Ok v => if bool_decide (v = Some [x09]) then Return (Ok tt)
                else Get [x01; x02] (fun r => match r with Err e => Return (Err e) | Ok _ => Return (Ok tt) end)
      end).

(** Planning is weaker than refining: the planner runs the actions of an
    input without the per-action transaction of refine, so the write of a
    rejected action stays visible to the next one.  On this input planning
    succeeds without another request while refine, given the same witness,
    fails for want of one. *)
Lemma planning_is_not_isolated :
  let input := RefineInput.mk x01
    (StateWitness.mk x01 (model_root sample_map) (AccessPlan.mk x01 [[x01; x01]]) [[x01; x01]]) [] [[x00]; [x01]] in
  plan_owned dependent_application input = Ok tt
  /\ @refine_internal zero_hash _ dependent_application input (repeat x00 32) = Err GE_State.
Proof. split; vm_compute; reflexivity. Qed.
