(* ===== verification/GuestRuntime.v ===== *)
(** * The guest runtime ([polkavm-guest-runtime])

    The application every service runs: [DescriptorApplication] finds the action
    in the service's descriptor, authenticates it, uses up its nonce, hands the
    payload and a view of the state to the compiled script and applies the
    script's result. As in [Execution], it is the tree of its context calls. A
    script's entry is a function of its three arguments; what it answers is
    either a null pointer with a length or some bytes. *)

From S2P Require Import Prelude Ordering Reader Wire ServiceKeys StateView StateDiff Records Witness Ownership Crypto Actions ActionsV2 State Overlays Execution RefineInput Dependencies RefineOutput Guest.

Definition DESCRIPTOR_VERSION : Z := 2.
Definition AUTH_PUBLIC : Z := 0.
Definition AUTH_WALLET : Z := 1.
Definition AUTH_OWNERSHIP : Z := 2.
Definition MAX_DESCRIPTOR_ACTIONS : Z := 1024.
Definition MAX_DESCRIPTOR_NAMESPACES : Z := 1024.
Definition MAX_DESCRIPTOR_NAMESPACE_BYTES : Z := 4096.

(** What a script leaves in its two output parameters. *)
Inductive script_output :=
| NullOutput (len : Z)
| OutputBytes (b : bytes).

Definition output_len (o : script_output) : Z :=
  match o with NullOutput len => len | OutputBytes b => blen b end.

(** [JamScriptActionDescriptorV1]. *)
Record ActionDescriptor := mkAction {
  ad_selector : bytes;
  ad_auth_kind : Z;
  ad_entry : option (bytes -> bytes -> bytes -> script_output)
}.

(** [JamScriptServiceDescriptorV2]; a null pointer is [None]. *)
Record ServiceDescriptor := mkDescriptor {
  sd_version : Z;
  sd_action_count : Z;
  sd_actions : option (list ActionDescriptor);
  sd_namespace_count : Z;
  sd_namespaces : option (list (option bytes));
  sd_service_key : bytes;
  sd_heap_initial_bytes : Z;
  sd_heap_max_bytes : Z
}.

Module GuestRuntime.
Section Descriptor.
Context (d : ServiceDescriptor).

(** The elements the counts announce. *)
Definition actions : list ActionDescriptor := take (Z.to_nat (sd_action_count d)) (default [] (sd_actions d)).
Definition namespaces : list (option bytes) := take (Z.to_nat (sd_namespace_count d)) (default [] (sd_namespaces d)).

Definition descriptor : result unit GuestError :=
  bail_if negb (sd_version d =? DESCRIPTOR_VERSION)
    || (sd_action_count d =? 0)
    || (sd_action_count d >? MAX_DESCRIPTOR_ACTIONS)
    || bool_decide (sd_actions d = None)
    || (sd_namespace_count d >? MAX_DESCRIPTOR_NAMESPACES)
    || (negb (sd_namespace_count d =? 0) && bool_decide (sd_namespaces d = None))
    with GE_InvalidInput ;;
  let? _ := rfor (fun action =>
      bail_if (ad_auth_kind action >? AUTH_OWNERSHIP) || bool_decide (ad_entry action = None) with GE_InvalidInput ;;
      Ok tt) actions in
  let? _ := rfor (fun namespace =>
      bail_if match namespace with
              | None => true
              | Some b => blen b >? MAX_DESCRIPTOR_NAMESPACE_BYTES
              end with GE_InvalidInput ;;
      Ok tt) namespaces in
  Ok tt.

Definition rejected {A} (e : RuntimeError) : result A StateAccessError := Err (SA_Rejected (code e)).

Definition find_action (selector : bytes) : result ActionDescriptor StateAccessError :=
  match List.find (fun action => bool_decide (ad_selector action = selector)) actions with
  | Some action => Ok action
  | None => rejected UnknownAction
  end.

Definition signed_selector (raw_action : bytes) : result bytes StateAccessError :=
  match slice_get raw_action 65 73 with
  | Some b => Ok b
  | None => rejected InvalidEnvelope
  end.

(** The only action, when it is public. *)
Definition public_action : option ActionDescriptor :=
  match actions with
  | [action] => if (sd_action_count d =? 1) && (ad_auth_kind action =? AUTH_PUBLIC) then Some action else None
  | _ => None
  end.

Definition application_key_allowed (k : bytes) : bool :=
  if (blen k <? 3) || negb (bool_decide (head k = Some APPLICATION_KEY_CLASS_V1)) then false
  else
    let namespace_len := from_le_bytes (b_slice k 1 3) in
    match slice_get k 3 (saturating_add USIZE_MAX 3 namespace_len) with
    | None => false
    | Some namespace =>
        existsb (fun entry => match entry with Some b => bool_decide (b = namespace) | None => false end) namespaces
    end.

(** ** The application *)

Context `{Blake2} `{Schnorrkel} `{Ed25519Dalek} `{K256} `{Sha3} `{UrlBase64}.

Definition fail (e : StateAccessError) : prog := Return (Err e).
Definition reject (e : RuntimeError) : prog := fail (SA_Rejected (code e)).

Definition read_nonce (k : bytes) (cont : Z -> prog) : prog :=
  Get k (fun r => match r with
                  | Err e => fail e
                  | Ok None => cont 0
                  | Ok (Some b) => if blen b =? 8 then cont (from_le_bytes b) else fail SA_Backend
                  end).

(** [expected_nonce.checked_add(1)] and its [set]. *)
Definition advance_nonce (k : bytes) (expected_nonce : Z) (next : prog) : prog :=
  match checked_add U64_MAX expected_nonce 1 with
  | None => fail SA_Backend
  | Some next_nonce => SetKey k (to_le_bytes 8 next_nonce) (fun r => match r with Err e => fail e | Ok _ => next end)
  end.

(** The authentication bytes of an ownership action. *)
Definition ownership_context (owner controller : Ownership.t) : result bytes StateAccessError :=
  let? owner := map_err (fun _ => SA_Backend) (Ownership.encode owner) in
  let? controller := map_err (fun _ => SA_Backend) (Ownership.encode controller) in
  bail_if (blen owner >? U16_MAX) || (blen controller >? U16_MAX) with SA_Backend ;;
  Ok ([x01] ++ to_le_bytes 2 (blen owner) ++ owner ++ to_le_bytes 2 (blen controller) ++ controller).

(** [cont] is the rest of [execute], given the payload and the context bytes. *)
Definition authenticate (action : ActionDescriptor) (raw_action : bytes) (cont : bytes -> bytes -> prog) : prog :=
  if ad_auth_kind action =? AUTH_PUBLIC then
    if negb (sd_action_count d =? 1) then reject UnknownAction else cont raw_action []
  else if ad_auth_kind action =? AUTH_WALLET then
    match ActionV1.decode_signed_action_v1 raw_action with
    | Err e => reject e
    | Ok signed =>
        AskDomain (fun domain =>
          match ActionV1.verify_signed_action_v1 signed domain (sd_service_key d) (ad_selector action) with
          | Err e => reject e
          | Ok verified =>
              let key := nonce_key (ActionV1.v_sender verified) in
              read_nonce key (fun expected_nonce =>
                if negb (ActionV1.v_nonce verified =? expected_nonce) then reject NonceMismatch
                else ConstrainValidUntil (ActionV1.v_valid_until verified)
                       (advance_nonce key expected_nonce
                          (cont (ActionV1.v_payload verified) (ActionV1.v_sender verified))))
          end)
    end
  else if ad_auth_kind action =? AUTH_OWNERSHIP then
    match ActionV2.decode_signed_action_v2 raw_action with
    | Err e => reject e
    | Ok signed =>
        match ActionV2.act_as signed with
        | Some _ => reject ActAsUnsupported
        | None =>
            match ownership_nonce_key (ActionV2.controller signed) with
            | Err e => reject e
            | Ok key =>
                read_nonce key (fun expected_nonce =>
                  AskDomain (fun domain =>
                    match ActionV2.verify_signed_action_v2 signed domain (sd_service_key d) (ad_selector action)
                            (Some expected_nonce) with
                    | Err e => reject e
                    | Ok verified =>
                        SetOwnership (ActionV2.v_owner verified) (ActionV2.v_controller verified)
                          (ConstrainValidUntil (ActionV2.v_valid_until verified)
                             (advance_nonce key expected_nonce
                                match ownership_context (ActionV2.v_owner verified) (ActionV2.v_controller verified) with
                                | Err e => fail e
                                | Ok auth_context => cont (ActionV2.v_payload verified) auth_context
                                end))
                    end))
            end
        end
    end
  else fail SA_Backend.

(** [cont] is what follows the closure of [execute_scriptc]. *)
Fixpoint apply_diff (changes : list StateChangeV1) (cont : result unit StateAccessError -> prog) : prog :=
  match changes with
  | [] => cont (Ok tt)
  | change :: changes' =>
      if negb (application_key_allowed (key change)) then cont (Err SA_ReservedKey)
      else
        let next r := match r with Err e => cont (Err e) | Ok _ => apply_diff changes' cont end in
        match value change with
        | Some v => SetKey (key change) v next
        | None => Delete (key change) next
        end
  end.

Definition apply_script_result (result : ScriptActionResult.t) (cont : Prelude.result unit StateAccessError -> prog) : prog :=
  match result with
  | ScriptActionResult.Applied diff => apply_diff (StateDiff.changes diff) cont
  | ScriptActionResult.Abort code => cont (Err (SA_ApplicationFailed code))
  | ScriptActionResult.NeedState key => cont (Err (SA_NeedState key))
  | ScriptActionResult.Fatal code => cont (Err (SA_ApplicationFailed code))
  end.

Definition INVALID_RESULT : Z := 2147483650.

(** The bytes of the script's result, when its output can be read. *)
Definition script_result (output : script_output) : result ScriptActionResult.t StateAccessError :=
  bail_if match output with NullOutput len => negb (len =? 0) | OutputBytes _ => false end
    || (output_len output >? MAX_SCRIPT_ACTION_RESULT_BYTES) with SA_ApplicationFailed INVALID_RESULT ;;
  map_err (fun _ => SA_ApplicationFailed INVALID_RESULT)
    (ScriptActionResult.decode (match output with NullOutput _ => [] | OutputBytes b => b end)).

Definition execute_scriptc (action : ActionDescriptor) (payload auth_context : bytes) : prog :=
  match ad_entry action with
  | None => fail SA_Backend
  | Some entry =>
      match descriptor with
      | Err _ => fail SA_Backend
      | Ok _ =>
          Begin (fun r =>
            match r with
            | Err e => fail e
            | Ok _ =>
                let finish (result : Prelude.result unit StateAccessError) :=
                  match result with
                  | Ok _ => Commit Return
                  | Err error => Rollback (fun r => match r with Err e => fail e | Ok _ => fail error end)
                  end in
                ViewState (fun r =>
                  match (let? view := r in map_err (fun _ => SA_Backend) (StateView.encode view)) with
                  | Err e => finish (Err e)
                  | Ok state_view =>
                      match script_result (entry payload auth_context state_view) with
                      | Err e => finish (Err e)
                      | Ok result => apply_script_result result finish
                      end
                  end)
            end)
      end
  end.

(** [DescriptorApplication::execute]. *)
Definition execute (raw_action : bytes) : prog :=
  match descriptor with
  | Err _ => fail SA_Backend
  | Ok _ =>
      match (match public_action with
             | Some action => Ok (ad_selector action)
             | None => signed_selector raw_action
             end) with
      | Err e => fail e
      | Ok selector =>
          match find_action selector with
          | Err e => fail e
          | Ok action => authenticate action raw_action (execute_scriptc action)
          end
      end
  end.
End Descriptor.
End GuestRuntime.
