(* ===== verification/GuestActions.v ===== *)
(** * What an action of the guest runtime does

    Over the reference semantics of [Guest]: an action changes the state only
    when it was authorized against the current nonce of its signer; it then uses
    up that nonce and writes, beside it, only keys of the namespaces the service
    declares. So no signed action takes effect twice. *)

From S2P Require Import Prelude Ordering Reader Wire ServiceKeys StateView StateDiff Records Witness Ownership Crypto Actions ActionsV2 State ModelTrie Overlays Execution RefineInput Dependencies RefineOutput Guest GuestRuntime.
Import GuestRuntime.

(** Two entries that give the same value give it twice. *)
Lemma omap_twice {A B} (f : A -> option B) (l : list (option A)) i j x y b :
  NoDup (omap f (omap id l)) -> l !! i = Some (Some x) -> l !! j = Some (Some y) ->
  f x = Some b -> f y = Some b -> i <> j -> False.
Proof.
  intros Hnd Hi Hj Hx Hy Hne.
  assert (forall i j x y, (i < j)%nat -> l !! i = Some (Some x) -> l !! j = Some (Some y) -> f x = Some b -> f y = Some b -> False) as Hlt.
  { clear -Hnd. intros i j x y Hlt Hi Hj Hx Hy. rewrite <- (take_drop_middle l i _ Hi) in Hnd.
    rewrite !omap_app in Hnd. apply NoDup_app in Hnd as (_ & _ & Hnd). cbn [omap list_omap id] in Hnd. rewrite Hx in Hnd.
    apply NoDup_cons in Hnd as [Hnin _]. apply Hnin. apply list_elem_of_omap. exists y. split; [|done].
    apply list_elem_of_omap. exists (Some y). split; [|done]. apply list_elem_of_lookup. exists (j - S i)%nat.
    rewrite lookup_drop. by replace (S i + (j - S i))%nat with j by lia. }
  destruct (decide (i < j)%nat); [by eapply (Hlt i j)|]. eapply (Hlt j i); [lia|done..].
Qed.

Section Disciplines.
Context `{Blake2} `{Schnorrkel} `{Ed25519Dalek} `{K256} `{Sha3} `{UrlBase64} (d : ServiceDescriptor).

(** ** The application closes its transactions and passes errors on *)

Lemma apply_diff_balanced n changes cont :
  (forall r, balanced n (cont r)) -> balanced n (apply_diff d changes cont).
Proof.
  intros Hc. induction changes as [|change changes IH]; simpl; [apply Hc|].
  destruct (negb _); [apply Hc|]. destruct (value change); simpl; intros [[]|e]; auto.
Qed.

Lemma apply_diff_propagates changes cont :
  ends_missing (cont (Err SA_MissingWitness)) -> (forall r, propagates (cont r)) ->
  propagates (apply_diff d changes cont).
Proof.
  intros Hm Hc. induction changes as [|change changes IH]; simpl; [apply Hc|].
  destruct (negb _); [apply Hc|]. destruct (value change); simpl; (split; [done|]); intros [[]|e]; auto.
Qed.

Lemma execute_scriptc_disciplined action payload auth :
  propagates (execute_scriptc d action payload auth) /\ balanced 0 (execute_scriptc d action payload auth).
Proof.
  unfold execute_scriptc. destruct (ad_entry action) as [entry|]; [|done]. destruct (descriptor d); [|done].
  set (finish := fun result : Prelude.result unit StateAccessError => match result with
    Ok _ => Commit Return | Err error => Rollback (fun r => match r with Err e => fail e | Ok _ => fail error end) end).
  assert (forall r, propagates (finish r) /\ balanced 1 (finish r)) as Hf
    by (intros [[]|e]; simpl; (split; [done|by exists 0%nat])).
  set (body := fun r : Prelude.result StateView.t StateAccessError => _).
  assert (forall r, propagates (body r) /\ balanced 1 (body r)) as Hb.
  { intros [view|e]; unfold body; simpl; [|apply (Hf (Err e))].
    destruct (map_err _ (StateView.encode view)) as [sv|e]; [|apply (Hf (Err e))].
    destruct (script_result _) as [[diff|c|k|c]|e]; cbn [apply_script_result]; try exact (Hf (Err _)).
    split; [apply apply_diff_propagates; [done|apply Hf]|apply apply_diff_balanced, Hf]. }
  split; simpl; [split; [done|]|]; apply Hb.
Qed.

Lemma read_nonce_disciplined k cont :
  (forall n, propagates (cont n) /\ balanced 0 (cont n)) -> propagates (read_nonce k cont) /\ balanced 0 (read_nonce k cont).
Proof.
  intros Hc. unfold read_nonce. simpl. split; [split; [done|]|]; intros [[b|]|e]; simpl; try done; try apply Hc;
    destruct (blen b =? 8); simpl; try done; apply Hc.
Qed.

Lemma advance_nonce_disciplined k n next :
  propagates next /\ balanced 0 next -> propagates (advance_nonce k n next) /\ balanced 0 (advance_nonce k n next).
Proof.
  intros Hn. unfold advance_nonce. destruct (checked_add U64_MAX n 1); simpl; [|done].
  split; [split; [done|]|]; intros [[]|e]; simpl; try done; apply Hn.
Qed.

Lemma authenticate_disciplined action raw cont :
  (forall payload auth, propagates (cont payload auth) /\ balanced 0 (cont payload auth)) ->
  propagates (authenticate d action raw cont) /\ balanced 0 (authenticate d action raw cont).
Proof.
  intros Hc. unfold authenticate. destruct (_ =? _); [destruct (negb _); [done|apply Hc]|].
  destruct (ad_auth_kind action =? AUTH_WALLET).
  - destruct (ActionV1.decode_signed_action_v1 raw) as [signed|e]; [|done].
    set (body := fun domain => _).
    assert (forall domain, propagates (body domain) /\ balanced 0 (body domain)) as Hb; [|split; simpl; apply Hb].
    intros domain. unfold body. destruct (ActionV1.verify_signed_action_v1 _ _ _ _) as [verified|e]; [|done].
    apply read_nonce_disciplined. intros n. destruct (negb _); [done|]. by apply advance_nonce_disciplined.
  - destruct (ad_auth_kind action =? AUTH_OWNERSHIP); [|done].
    destruct (ActionV2.decode_signed_action_v2 raw) as [signed|e]; [|done].
    destruct (ActionV2.act_as signed); [done|]. destruct (ownership_nonce_key _) as [k|e]; [|done].
    apply read_nonce_disciplined. intros n. set (body := fun domain => _).
    assert (forall domain, propagates (body domain) /\ balanced 0 (body domain)) as Hb; [|split; simpl; apply Hb].
    intros domain. unfold body. destruct (ActionV2.verify_signed_action_v2 _ _ _ _ _) as [verified|e]; [|done].
    apply (advance_nonce_disciplined k n). destruct (ownership_context _ _); [apply Hc|done].
Qed.

Lemma execute_disciplined raw : propagates (execute d raw) /\ balanced 0 (execute d raw).
Proof.
  unfold execute. destruct (descriptor d); [|done].
  destruct (match public_action d with Some action => Ok (ad_selector action) | None => signed_selector raw end) as [selector|]; [|done].
  destruct (find_action d selector) as [action|]; [|done].
  apply authenticate_disciplined. intros. apply execute_scriptc_disciplined.
Qed.

(** ** Running the application over a map *)

Section Run.
Context {E : Type} `{ExternalStateAccess E}.
Implicit Types (c : context Snapshots.t E) (m : kv) (sv : list kv).

Lemma application_key_class k : application_key_allowed d k = true -> head k = Some APPLICATION_KEY_CLASS_V1.
Proof.
  unfold application_key_allowed. destruct (blen k <? 3); [done|]. by destruct (bool_decide_reflect (head k = Some APPLICATION_KEY_CLASS_V1)).
Qed.

Lemma class_not_reserved k b :
  head k = Some b -> b = x00 \/ b = x01 -> Keys.is_reserved_service_storage_key k = false.
Proof. destruct k; [done|]. intros [= ->] Hb. by apply Keys.class_key_not_reserved. Qed.

Lemma run_apply_diff changes cont c : forall m sv,
  exists r m', run (apply_diff d changes cont) (set_state c (Snapshots.mk m sv)) = run (cont r) (set_state c (Snapshots.mk m' sv))
    /\ (forall u, r = Ok u -> Forall (fun ch => application_key_allowed d (key ch) = true) changes /\ m' = apply_changes changes m).
Proof.
  induction changes as [|ch changes IH]; intros m sv; cbn [apply_diff].
  - exists (Ok tt), m. split; [done|]. intros u _. by split; [constructor|].
  - destruct (application_key_allowed d (key ch)) eqn:Hk; cbn [negb]; [|by exists (Err SA_ReservedKey), m].
    pose proof (class_not_reserved _ _ (application_key_class _ Hk) (or_intror eq_refl)) as Hres.
    destruct (IH (apply_change m ch) sv) as (r & m' & Hrun & Hok). exists r, m'. split.
    + rewrite <- Hrun. unfold apply_change. destruct (value ch); cbn [run ms_set ms_delete Snapshots.snapshots_access];
        unfold on_state, Snapshots.update; simpl; by rewrite Hres.
    + intros u Hr. destruct (Hok u Hr) as [Hall ->]. split; [by constructor|done].
Qed.

(** A script that succeeds wrote its diff, one that fails wrote nothing. *)
Lemma run_execute_scriptc action payload auth c m sv :
  exists r m', run (execute_scriptc d action payload auth) (set_state c (Snapshots.mk m sv))
      = (r, set_state c (Snapshots.mk m' sv))
    /\ match r with
       | Ok _ => exists changes, Forall (fun ch => application_key_allowed d (key ch) = true) changes
                   /\ m' = apply_changes changes m
       | Err _ => m' = m
       end.
Proof.
  unfold execute_scriptc. destruct (ad_entry action) as [entry|]; [|by exists (Err SA_Backend), m].
  destruct (descriptor d); [|by exists (Err SA_Backend), m].
  set (finish := fun result : Prelude.result unit StateAccessError => match result with
    Ok _ => Commit Return | Err error => Rollback (fun r => match r with Err e => fail e | Ok _ => fail error end) end).
  assert (forall r m', run (finish r) (set_state c (Snapshots.mk m' (m :: sv)))
    = (r, set_state c (Snapshots.mk (match r with Ok _ => m' | Err _ => m end) sv))) as Hfin by (intros [[]|e] m'; done).
  cbn [run]. unfold on_state at 1. cbn [ms_begin Snapshots.snapshots_access Snapshots.begin_ cx_state set_state].
  change (set_state (set_state c (Snapshots.mk m sv)) ?s) with (set_state c s).
  destruct (state_view_frame c m) as [rv Hv]. cbn [run]. simpl (Snapshots.current _). simpl (Snapshots.saved _). rewrite Hv.
  destruct (let? view := rv in _) as [state_view|e]; [|exists (Err e), m; split; [apply (Hfin (Err e))|done]].
  destruct (script_result (entry payload auth state_view)) as [[diff|code|k|code]|e]; cbn [apply_script_result];
    try (by eexists (Err _), m; split; [exact (Hfin (Err _) m)|done]).
  destruct (run_apply_diff (StateDiff.changes diff) finish c m (m :: sv)) as (r & m' & -> & Hok). rewrite Hfin.
  eexists r, _. split; [done|]. destruct r as [u|e]; [|done]. destruct (Hok u eq_refl). by exists (StateDiff.changes diff).
Qed.

(** ** Authorization *)

(** The nonce stored under a key. *)
Definition stored_nonce (m : kv) (k : bytes) : option Z :=
  match m !! k with
  | None => Some 0
  | Some b => if blen b =? 8 then Some (from_le_bytes b) else None
  end.

(** The nonce an action uses up, and how long it is valid. *)
Record claim := mkClaim { cl_key : bytes; cl_nonce : Z; cl_valid_until : Z }.

(** [authorizes domain action raw claim payload]: the bytes [raw] are an action
    of this service for this network; they are signed unless the service has one
    public action only, and then name the nonce [claim]. *)
Inductive authorizes (domain : bytes) (action : ActionDescriptor) (raw : bytes) : option claim -> bytes -> Prop :=
| authorizes_public :
    ad_auth_kind action = AUTH_PUBLIC -> sd_action_count d = 1 -> authorizes domain action raw None raw
| authorizes_wallet signed verified :
    ad_auth_kind action = AUTH_WALLET ->
    ActionV1.decode_signed_action_v1 raw = Ok signed ->
    ActionV1.verify_signed_action_v1 signed domain (sd_service_key d) (ad_selector action) = Ok verified ->
    authorizes domain action raw
      (Some (mkClaim (nonce_key (ActionV1.v_sender verified)) (ActionV1.v_nonce verified) (ActionV1.v_valid_until verified)))
      (ActionV1.v_payload verified)
| authorizes_ownership signed verified k n :
    ad_auth_kind action = AUTH_OWNERSHIP ->
    ActionV2.decode_signed_action_v2 raw = Ok signed ->
    ownership_nonce_key (ActionV2.controller signed) = Ok k ->
    ActionV2.verify_signed_action_v2 signed domain (sd_service_key d) (ad_selector action) (Some n) = Ok verified ->
    authorizes domain action raw (Some (mkClaim k n (ActionV2.v_valid_until verified))) (ActionV2.v_payload verified).

(** The claim is the next one of its signer. *)
Definition current_claim (m : kv) (cl : option claim) : Prop :=
  match cl with
  | None => True
  | Some cl => stored_nonce m (cl_key cl) = Some (cl_nonce cl) /\ cl_nonce cl < U64_MAX
               /\ head (cl_key cl) = Some RUNTIME_KEY_CLASS_V1
  end.

Definition use_up (m : kv) (cl : option claim) : kv :=
  match cl with
  | None => m
  | Some cl => <[cl_key cl := to_le_bytes 8 (cl_nonce cl + 1)]> m
  end.

Definition constrained (c : context Snapshots.t E) (cl : option claim) : option Z :=
  match cl with
  | None => cx_transition_valid_until c
  | Some cl => Some match cx_transition_valid_until c with
                    | None => cl_valid_until cl
                    | Some current => Z.min current (cl_valid_until cl)
                    end
  end.

(** Errors of authentication leave no trace. *)
Definition refuses (e : StateAccessError) : Prop :=
  match e with SA_Rejected _ | SA_Backend => True | _ => False end.

Lemma run_read_nonce k cont c m sv :
  run (read_nonce k cont) (set_state c (Snapshots.mk m sv))
  = match stored_nonce m k with
    | Some n => run (cont n) (set_state c (Snapshots.mk m sv))
    | None => (Err SA_Backend, set_state c (Snapshots.mk m sv))
    end.
Proof.
  unfold read_nonce, stored_nonce. cbn [run]. unfold on_state. simpl. destruct (m !! k) as [b|]; [|done].
  by destruct (blen b =? 8).
Qed.

Lemma run_advance_nonce k n next c m sv :
  head k = Some RUNTIME_KEY_CLASS_V1 ->
  run (advance_nonce k n next) (set_state c (Snapshots.mk m sv))
  = if n + 1 <=? U64_MAX then run next (set_state c (Snapshots.mk (<[k := to_le_bytes 8 (n + 1)]> m) sv))
    else (Err SA_Backend, set_state c (Snapshots.mk m sv)).
Proof.
  intros Hk. unfold advance_nonce, checked_add. destruct (n + 1 <=? U64_MAX); [|done]. cbn [run]. unfold on_state.
  simpl. unfold Snapshots.update. rewrite (class_not_reserved k _ Hk (or_introl eq_refl)). done.
Qed.

Lemma ownership_nonce_class o k : ownership_nonce_key o = Ok k -> head k = Some RUNTIME_KEY_CLASS_V1.
Proof. unfold ownership_nonce_key. intros Hk. by apply rbind_Ok in Hk as (h & _ & [= <-]). Qed.

Lemma verified_v1_fields a domain service selector v :
  ActionV1.verify_signed_action_v1 a domain service selector = Ok v -> ActionV1.v_nonce v = ActionV1.nonce a.
Proof.
  unfold ActionV1.verify_signed_action_v1. intros Hv. repeat apply bail_if_Ok in Hv as [_ Hv].
  apply rbind_Ok in Hv as (sender & _ & [= <-]). done.
Qed.

Lemma run_authenticate action raw cont c m sv :
  (exists e c' m', run (authenticate d action raw cont) (set_state c (Snapshots.mk m sv)) = (Err e, set_state c' (Snapshots.mk m' sv))
     /\ refuses e)
  \/ (exists cl payload auth c', authorizes (cx_network_domain c) action raw cl payload /\ current_claim m cl
     /\ cx_transition_valid_until c' = constrained c cl
     /\ run (authenticate d action raw cont) (set_state c (Snapshots.mk m sv))
        = run (cont payload auth) (set_state c' (Snapshots.mk (use_up m cl) sv))).
Proof.
  unfold authenticate. destruct (Z.eqb_spec (ad_auth_kind action) AUTH_PUBLIC) as [Hk|_].
  { destruct (Z.eqb_spec (sd_action_count d) 1) as [H1c|_]; cbn [negb].
    - right. exists None, raw, [], c. split_and!; try done. by constructor.
    - left. by eexists _, c, m. }
  destruct (Z.eqb_spec (ad_auth_kind action) AUTH_WALLET) as [Hk|_].
  { destruct (ActionV1.decode_signed_action_v1 raw) as [signed|e] eqn:Hd; [|left; by eexists _, c, m]. cbn [run].
    destruct (ActionV1.verify_signed_action_v1 _ _ _ _) as [v|e] eqn:Hv; [|left; by eexists _, c, m].
    rewrite run_read_nonce. destruct (stored_nonce m _) as [n|] eqn:Hn; [|left; by eexists _, c, m].
    destruct (Z.eqb_spec (ActionV1.v_nonce v) n) as [<-|_]; cbn [negb]; [|left; by eexists _, c, m]. cbn [run].
    change (constrain_valid_until (set_state c ?s) ?u) with (set_state (constrain_valid_until c u) s).
    rewrite run_advance_nonce by done. destruct (Z.leb_spec (ActionV1.v_nonce v + 1) U64_MAX); [|left; by eexists _, _, m].
    right. eexists (Some _), _, _, _. split; [by eapply authorizes_wallet|]. split; [split_and!; [done|simpl; lia|done]|].
    split; [|reflexivity]. done. }
  destruct (Z.eqb_spec (ad_auth_kind action) AUTH_OWNERSHIP) as [Hk|_]; [|left; by eexists _, c, m].
  destruct (ActionV2.decode_signed_action_v2 raw) as [signed|e] eqn:Hd; [|left; by eexists _, c, m].
  destruct (ActionV2.act_as signed); [left; by eexists _, c, m|].
  destruct (ownership_nonce_key (ActionV2.controller signed)) as [k|e] eqn:Hkey; [|left; by eexists _, c, m].
  rewrite run_read_nonce. destruct (stored_nonce m k) as [n|] eqn:Hn; [|left; by eexists _, c, m]. cbn [run].
  destruct (ActionV2.verify_signed_action_v2 _ _ _ _ _) as [v|e] eqn:Hv; [|left; by eexists _, c, m]. cbn [run].
  change (constrain_valid_until (set_ownership (set_state c ?s) ?o ?k') ?u)
    with (set_state (constrain_valid_until (set_ownership c o k') u) s).
  rewrite run_advance_nonce by (by eapply ownership_nonce_class). destruct (Z.leb_spec (n + 1) U64_MAX); [|left; by eexists _, _, m].
  destruct (ownership_context _ _) as [auth|e] eqn:Hctx.
  - right. eexists (Some _), _, _, _. split; [by eapply authorizes_ownership|].
    split; [split_and!; [done|simpl; lia|by eapply ownership_nonce_class]|]. split; [|reflexivity]. done.
  - left. eexists _, _, _. split; [reflexivity|]. unfold ownership_context in Hctx.
    destruct (Ownership.encode (ActionV2.v_owner v)); simpl in Hctx; [|by injection Hctx as <-].
    destruct (Ownership.encode (ActionV2.v_controller v)); simpl in Hctx; [|by injection Hctx as <-].
    case_match; [|done]. by injection Hctx as <-.
Qed.
End Run.

(** ** The effect of an action *)

(** Whether the writes of an action were kept. *)
Definition took_effect (r : Receipt.t) : bool :=
  match Receipt.status r, Receipt.error_code r with
  | StApplied, _ => true
  | StFailed, Some code => negb (is_native_failure code)
  | _, _ => false
  end.

(** The action of the descriptor that some bytes select. *)
Definition selects (raw : bytes) : option ActionDescriptor :=
  match (match public_action d with Some action => Ok (ad_selector action) | None => signed_selector raw end) with
  | Ok selector => match find_action d selector with Ok action => Some action | Err _ => None end
  | Err _ => None
  end.

Record effect := mkEffect { ef_action : ActionDescriptor; ef_claim : option claim; ef_payload : bytes }.

Definition effect_of (domain : bytes) (m : kv) (raw : bytes) (e : effect) : Prop :=
  selects raw = Some (ef_action e) /\ authorizes domain (ef_action e) raw (ef_claim e) (ef_payload e)
  /\ current_claim m (ef_claim e).

Lemma action_effect plan domain others o raw o' :
  reference_action GENERIC_ERROR (execute d) plan domain others o raw = Some o' ->
  exists r, oc_receipts o' = oc_receipts o ++ [r] /\ Receipt.action_hash r = blake2_256 raw
    /\ if took_effect r
       then exists e changes, effect_of domain (oc_map o) raw e
              /\ Forall (fun ch => application_key_allowed d (key ch) = true) changes
              /\ (Receipt.status r = StApplied \/ changes = [])
              /\ oc_map o' = apply_changes changes (use_up (oc_map o) (ef_claim e))
              /\ oc_valid_until o' = merge_validity (oc_valid_until o) (cl_valid_until <$> ef_claim e)
       else oc_map o' = oc_map o /\ oc_valid_until o' = oc_valid_until o.
Proof.
  unfold reference_action. set (c0 := with_access_plan_and_external_state _ _ _ _ _).
  assert ((exists e c', run (execute d raw) c0 = (Err e, c') /\ refuses e)
    \/ exists e r changes c', effect_of domain (oc_map o) raw e
        /\ Forall (fun ch => application_key_allowed d (key ch) = true) changes
        /\ cx_transition_valid_until c' = (cl_valid_until <$> ef_claim e)
        /\ (forall e', r = Err e' -> changes = [])
        /\ run (execute d raw) c0 = (r, set_state c' (Snapshots.mk (apply_changes changes (use_up (oc_map o) (ef_claim e))) [])))
    as [(e & c' & Hrun & He)|(e & r & changes & c' & Heff & Hall & Hvu & Hnil & Hrun)].
  { unfold effect_of, selects, execute. destruct (descriptor d); [|left; by eexists _, c0].
    destruct (match public_action d with Some action => Ok (ad_selector action) | None => signed_selector raw end)
      as [selector|e] eqn:Hsel.
    2: { left. exists e, c0. split; [done|]. destruct (public_action d); [done|]. unfold signed_selector in Hsel.
         destruct (slice_get raw 65 73); [done|]. by injection Hsel as <-. }
    destruct (find_action d selector) as [action|e] eqn:Hfind.
    2: { left. exists e, c0. split; [done|]. unfold find_action in Hfind. case_match; [done|]. by injection Hfind as <-. }
    destruct (run_authenticate action raw (execute_scriptc d action) c0 (oc_map o) []) as
      [(e & c' & m' & Hr & He)|(cl & payload & auth & c' & Hauth & Hcur & Hvu & Hr)].
    - left. eexists e, _. split; [exact Hr|done].
    - right. destruct (run_execute_scriptc action payload auth c' (use_up (oc_map o) cl) []) as (r & m' & Hs & Hm).
      assert (exists changes, Forall (fun ch => application_key_allowed d (key ch) = true) changes
        /\ m' = apply_changes changes (use_up (oc_map o) cl) /\ forall e', r = Err e' -> changes = []) as (changes & Hall & Hm' & Hnil).
      { destruct r as [u|e']; [destruct Hm as (changes & ? & ?); by exists changes|]. exists []. by split_and!. }
      exists (mkEffect action cl payload), r, changes, c'. split; [done|]. split; [done|]. split.
      { rewrite Hvu. by destruct cl. }
      split; [done|]. cbn [ef_claim]. rewrite <- Hm', <- Hs. exact Hr. }
  - rewrite Hrun. destruct e; try done; intros [= <-]; eexists; split; [reflexivity|done|reflexivity|done].
  - rewrite Hrun. cbn [cx_state set_state cx_transition_valid_until Snapshots.current]. rewrite Hvu.
    destruct r as [[]|e'].
    + intros [= <-]. eexists. split; [reflexivity|]. split; [done|]. exists e, changes. split_and!; try done. by left.
    + rewrite (Hnil e' eq_refl) in *. destruct e'; try done; try (intros [= <-]; eexists; split; [reflexivity|done]).
      destruct (is_native_failure code) eqn:Hnat; intros [= <-]; (eexists; split; [reflexivity|]; split; [done|]);
        unfold took_effect; simpl; rewrite Hnat; [done|]. exists e, []. split_and!; try done. by right.
Qed.

(** ** The effects of a batch *)

(** The nonces of a signer that some effects use up, in order. *)
Definition uses (k : bytes) (e : effect) : option Z :=
  cl ← ef_claim e; if decide (cl_key cl = k) then Some (cl_nonce cl) else None.
Definition nonces_used (k : bytes) (effects : list effect) : list Z := omap (uses k) effects.

Lemma changes_runtime_key changes m k :
  Forall (fun ch => application_key_allowed d (key ch) = true) changes -> head k = Some RUNTIME_KEY_CLASS_V1 ->
  apply_changes changes m !! k = m !! k.
Proof.
  intros Hall Hk. apply lookup_apply_changes_ne. intros (ch & -> & Hin)%list_elem_of_fmap_1.
  rewrite Forall_forall in Hall. pose proof (application_key_class _ (Hall ch Hin)) as Hc. by rewrite Hk in Hc.
Qed.

Lemma stored_nonce_nonneg m k n : stored_nonce m k = Some n -> 0 <= n.
Proof.
  unfold stored_nonce. destruct (m !! k) as [b|]; [|by intros [= <-]]. case_match; [|done]. intros [= <-].
  apply from_le_bytes_range.
Qed.

Lemma stored_nonce_set m k n : 0 <= n <= U64_MAX -> stored_nonce (<[k := to_le_bytes 8 n]> m) k = Some n.
Proof.
  intros Hn. unfold stored_nonce. rewrite lookup_insert_eq, blen_to_le_bytes. simpl.
  rewrite from_to_u64; [done|]. unfold u64_ok. lia.
Qed.

(** One effect moves the nonce of its signer by one, and no other nonce. *)
Lemma effect_nonce domain m raw e changes k n :
  effect_of domain m raw e -> Forall (fun ch => application_key_allowed d (key ch) = true) changes ->
  head k = Some RUNTIME_KEY_CLASS_V1 -> stored_nonce m k = Some n ->
  let used := option_list (uses k e) in
  used = seqZ n (blen used)
  /\ stored_nonce (apply_changes changes (use_up m (ef_claim e))) k = Some (n + blen used).
Proof.
  intros (_ & _ & Hcur) Hall Hk Hn.
  assert (forall m', stored_nonce (apply_changes changes m') k = stored_nonce m' k) as Hst.
  { intros m'. unfold stored_nonce. by rewrite changes_runtime_key. }
  cbv zeta. rewrite Hst. unfold uses. destruct (ef_claim e) as [cl|]; simpl.
  2: { split; [done|]. change (blen (@nil Z)) with 0. by rewrite Z.add_0_r. }
  destruct Hcur as (Hc & Hlt & _). case_decide as Hkey.
  - subst k. rewrite Hc in Hn. injection Hn as <-. change (blen (option_list (Some (cl_nonce cl)))) with 1. split; [done|].
    apply stored_nonce_set. pose proof (stored_nonce_nonneg _ _ _ Hc). lia.
  - split; [done|]. change (blen (option_list None)) with 0. rewrite Z.add_0_r. unfold stored_nonce in *. by rewrite lookup_insert_ne.
Qed.

(** What the receipts of a batch say about its effects: one entry per action. *)
Definition accounts (domain : bytes) (raw : bytes) (r : Receipt.t) (e : option effect) : Prop :=
  Receipt.action_hash r = blake2_256 raw
  /\ match e with
     | None => took_effect r = false
     | Some e => took_effect r = true /\ selects raw = Some (ef_action e)
                 /\ authorizes domain (ef_action e) raw (ef_claim e) (ef_payload e)
     end.

(** The keys effects may write. *)
Definition writable (effects : list effect) (k : bytes) : Prop :=
  application_key_allowed d k = true \/ exists e cl, e ∈ effects /\ ef_claim e = Some cl /\ cl_key cl = k.

Lemma writable_step changes m e k :
  Forall (fun ch => application_key_allowed d (key ch) = true) changes ->
  apply_changes changes (use_up m (ef_claim e)) !! k <> m !! k -> writable [e] k.
Proof.
  intros Hall Hne. destruct (decide (k ∈ map key changes)) as [Hin|Hnin].
  - left. apply list_elem_of_fmap_1 in Hin as (ch & -> & Hin). rewrite Forall_forall in Hall. by apply Hall.
  - right. rewrite lookup_apply_changes_ne in Hne by done. destruct (ef_claim e) as [cl|] eqn:Hcl; [|done].
    exists e, cl. split_and!; [set_solver|done|]. simpl in Hne. destruct (decide (cl_key cl = k)); [done|].
    by rewrite lookup_insert_ne in Hne.
Qed.

Definition expires_by (valid : option Z) (e : effect) : Prop :=
  match ef_claim e with None => True | Some cl => exists v, valid = Some v /\ v <= cl_valid_until cl end.

Lemma merge_expires v cl e : expires_by v e -> expires_by (merge_validity v cl) e.
Proof.
  unfold expires_by. destruct (ef_claim e); [|done]. intros (v' & -> & Hle). destruct cl; simpl; eexists; (split; [done|lia]).
Qed.

(** How a list of actions, with its receipts, turned one map into another. *)
Record ledger (domain : bytes) (m : kv) (actions : list bytes) (receipts : list Receipt.t)
    (effects : list (option effect)) (m' : kv) : Prop := {
  ld_effects : length effects = length actions;
  ld_receipts : length receipts = length actions;
  ld_accounts i raw r e : actions !! i = Some raw -> receipts !! i = Some r -> effects !! i = Some e -> accounts domain raw r e;
  ld_nonces k n : head k = Some RUNTIME_KEY_CLASS_V1 -> stored_nonce m k = Some n ->
    let used := nonces_used k (omap id effects) in
    used = seqZ n (blen used) /\ stored_nonce m' k = Some (n + blen used);
  ld_corrupt k : head k = Some RUNTIME_KEY_CLASS_V1 -> stored_nonce m k = None ->
    nonces_used k (omap id effects) = [] /\ stored_nonce m' k = None;
  ld_writes k : m' !! k <> m !! k -> writable (omap id effects) k
}.

Lemma ledger_nil domain m : ledger domain m [] [] [] m.
Proof.
  split; try done. intros k n _ Hn. cbv zeta. change (blen _) with 0. by rewrite Z.add_0_r.
Qed.

Lemma nonces_used_app k effects effects' :
  nonces_used k (omap id (effects ++ effects')) = nonces_used k (omap id effects) ++ nonces_used k (omap id effects').
Proof. unfold nonces_used. by rewrite !omap_app. Qed.

Lemma ledger_app domain m1 m2 m3 actions actions' receipts receipts' effects effects' :
  ledger domain m1 actions receipts effects m2 -> ledger domain m2 actions' receipts' effects' m3 ->
  ledger domain m1 (actions ++ actions') (receipts ++ receipts') (effects ++ effects') m3.
Proof.
  intros [L1 L1' A1 N1 C1 W1] [L2 L2' A2 N2 C2 W2]. split.
  - rewrite !length_app. lia.
  - rewrite !length_app. lia.
  - intros i raw r e Hi Hi' Hi''. destruct (decide (i < length actions)%nat) as [Hlt|Hge].
    + rewrite lookup_app_l in Hi by lia. rewrite lookup_app_l in Hi' by lia. rewrite lookup_app_l in Hi'' by lia. by apply (A1 i).
    + rewrite lookup_app_r in Hi by lia. rewrite lookup_app_r in Hi' by lia. rewrite lookup_app_r in Hi'' by lia. rewrite L1' in Hi'. rewrite L1 in Hi''. by apply (A2 (i - length actions)%nat).
  - intros k n Hk Hn. cbv zeta. rewrite nonces_used_app.
    destruct (N1 k n Hk Hn) as [E1 S1]. destruct (N2 k _ Hk S1) as [E2 S2].
    pose proof (blen_nonneg (nonces_used k (omap id effects))). pose proof (blen_nonneg (nonces_used k (omap id effects'))).
    rewrite blen_app. split; [|rewrite S2; f_equal; lia]. rewrite seqZ_app by lia. by rewrite <- E1, <- E2.
  - intros k Hk Hn. rewrite nonces_used_app. destruct (C1 k Hk Hn) as [-> Hn']. by apply C2.
  - intros k Hne. rewrite omap_app. destruct (decide (m2 !! k = m1 !! k)) as [Heq|Hne'].
    + rewrite <- Heq in Hne. destruct (W2 k Hne) as [?|(e & cl & Hin & ?)]; [by left|].
      right. exists e, cl. split; [|done]. apply elem_of_app. by right.
    + destruct (W1 k Hne') as [?|(e & cl & Hin & ?)]; [by left|].
      right. exists e, cl. split; [|done]. apply elem_of_app. by left.
Qed.

Lemma nonces_used_one k (e : effect) : nonces_used k (omap id [Some e]) = option_list (uses k e).
Proof. unfold nonces_used. simpl. by destruct (uses k e). Qed.

(** One action. *)
Lemma ledger_one plan domain others o raw o' :
  reference_action GENERIC_ERROR (execute d) plan domain others o raw = Some o' ->
  exists r e, ledger domain (oc_map o) [raw] [r] [e] (oc_map o')
    /\ oc_receipts o' = oc_receipts o ++ [r]
    /\ oc_valid_until o' = merge_validity (oc_valid_until o) (e ≫= fun e => cl_valid_until <$> ef_claim e).
Proof.
  intros (r & Hrec & Hhash & Hr)%action_effect. exists r. destruct (took_effect r) eqn:Ht.
  - destruct Hr as (e & changes & Heff & Hall & _ & Hmap & Hvalid). exists (Some e). split; [|by split].
    pose proof Heff as (Hsel & Hauth & Hcur). split; try done.
    + intros [|i] raw' r' e' Hi Hi' Hi''; [|done]. simpl in *. by simplify_eq.
    + intros k n Hk Hn. cbv zeta. rewrite nonces_used_one, Hmap. by eapply effect_nonce.
    + intros k Hk Hn. rewrite nonces_used_one, Hmap. unfold uses. unfold stored_nonce at 1.
      rewrite changes_runtime_key by done. destruct (ef_claim e) as [cl|]; simpl; [|done].
      destruct Hcur as (Hc & _). case_decide as Hkey; [congruence|]. split; [done|]. by rewrite lookup_insert_ne.
    + intros k Hne. rewrite Hmap in Hne. by eapply writable_step.
  - destruct Hr as [Hmap Hvalid]. exists None. rewrite Hmap, Hvalid. split; [|by split]. split; try done.
    + intros [|i] raw' r' e' Hi Hi' Hi''; [|done]. simpl in *. by simplify_eq.
    + intros k n _ Hn. cbv zeta. change (blen _) with 0. by rewrite Z.add_0_r.
Qed.

Lemma batch_ledger plan domain others actions : forall o o',
  reference_actions GENERIC_ERROR (execute d) plan domain others o actions = Some o' ->
  exists receipts effects, ledger domain (oc_map o) actions receipts effects (oc_map o')
    /\ oc_receipts o' = oc_receipts o ++ receipts
    /\ (forall e, e ∈ omap id effects \/ expires_by (oc_valid_until o) e -> expires_by (oc_valid_until o') e).
Proof.
  induction actions as [|raw actions IH]; intros o o' Hr; cbn [reference_actions] in Hr.
  - injection Hr as <-. exists [], []. split; [apply ledger_nil|]. rewrite app_nil_r. split; [done|].
    intros e [He|He]; [by apply elem_of_nil in He|done].
  - destruct (reference_action _ _ _ _ _ _ _) as [o1|] eqn:H1'; [|done].
    apply ledger_one in H1' as (r & e & L1 & R1 & V1). apply IH in Hr as (receipts & effects & L2 & R2 & V2).
    exists ([r] ++ receipts), ([e] ++ effects). split; [exact (ledger_app _ _ _ _ [raw] _ _ _ _ _ L1 L2)|].
    split; [by rewrite R2, R1, (assoc_L (++))|]. intros e' He'. apply V2. rewrite omap_app in He'.
    destruct He' as [[He'|He']%elem_of_app|He']; [|by left|].
    + right. destruct e as [e|]; simpl in He'; [|by apply elem_of_nil in He']. apply list_elem_of_singleton in He' as ->.
      unfold expires_by. rewrite V1. simpl. destruct (ef_claim e) as [cl|]; [|done]. simpl. eexists. split; [done|].
      destruct (oc_valid_until o); lia.
    + right. rewrite V1. by apply merge_expires.
Qed.

(** Bytes determine their claim. *)
Lemma authorizes_functional domain action raw cl p cl' p' :
  authorizes domain action raw cl p -> authorizes domain action raw cl' p' -> cl = cl'.
Proof.
  intros Ha Hb. destruct Ha as [Hk Hc|s v Hk Hd Hv|s v k n Hk Hd Hkey Hv];
    destruct Hb as [Hk' Hc'|s' v' Hk' Hd' Hv'|s' v' k' n' Hk' Hd' Hkey' Hv']; rewrite Hk in Hk'; try done.
  - congruence.
  - rewrite Hd in Hd'. injection Hd' as <-. rewrite Hkey in Hkey'. injection Hkey' as <-.
    assert (forall n v, ActionV2.verify_signed_action_v2 s domain (sd_service_key d) (ad_selector action) (Some n) = Ok v ->
      n = ActionV2.nonce s /\ ActionV2.v_valid_until v = ActionV2.valid_until s) as Hinv.
    { clear. intros n v Hv. unfold ActionV2.verify_signed_action_v2 in Hv. do 4 apply bail_if_Ok in Hv as [_ Hv].
      apply bail_if_Ok in Hv as [Hn Hv]. do 2 apply bail_if_Ok in Hv as [_ Hv].
      apply rbind_Ok in Hv as (pre & _ & Hv). apply rbind_Ok in Hv as (u & _ & Hv). injection Hv as <-.
      split; [|done]. destruct (Z.eqb_spec (ActionV2.nonce s) n); [done|discriminate Hn]. }
    destruct (Hinv n v Hv) as [-> ->], (Hinv n' v' Hv') as [-> ->]. done.
Qed.

(** Where a ledger starts decides which claims can still be used: a claim used
    once is in the past. *)
Lemma ledger_used_once domain m actions receipts effects m' i j raw r r' :
  ledger domain m actions receipts effects m' ->
  Forall (fun action => ad_auth_kind action <> AUTH_PUBLIC) (GuestRuntime.actions d) ->
  actions !! i = Some raw -> actions !! j = Some raw -> i <> j ->
  receipts !! i = Some r -> receipts !! j = Some r' -> took_effect r = true -> took_effect r' = false.
Proof.
  intros L Hpub Hi Hj Hne Hri Hrj Ht. destruct (took_effect r') eqn:Ht'; [exfalso|done].
  assert (forall n r, actions !! n = Some raw -> receipts !! n = Some r -> took_effect r = true ->
    exists e, effects !! n = Some (Some e) /\ selects raw = Some (ef_action e)
      /\ authorizes domain (ef_action e) raw (ef_claim e) (ef_payload e)) as Heff.
  { intros n r0 Hn Hr0 Ht0. destruct (lookup_lt_is_Some_2 effects n) as [e He].
    { rewrite (ld_effects _ _ _ _ _ _ L). by eapply lookup_lt_Some. }
    destruct (ld_accounts _ _ _ _ _ _ L n raw r0 e Hn Hr0 He) as [_ Ha]. destruct e as [e|]; [|congruence].
    destruct Ha as (_ & ? & ?). by exists e. }
  destruct (Heff i r Hi Hri Ht) as (e & He & Hsel & Hauth). destruct (Heff j r' Hj Hrj Ht') as (e' & He' & Hsel' & Hauth').
  assert (ef_action e' = ef_action e) as Hact by congruence. rewrite Hact in Hauth'.
  pose proof (authorizes_functional _ _ _ _ _ _ _ Hauth Hauth') as Hcl.
  assert (exists cl, ef_claim e = Some cl /\ head (cl_key cl) = Some RUNTIME_KEY_CLASS_V1) as (cl & Hec & Hk).
  { assert (ef_action e ∈ GuestRuntime.actions d) as Hin.
    { unfold selects in Hsel. case_match; [|done]. unfold find_action in Hsel.
      destruct (List.find _ (GuestRuntime.actions d)) eqn:Hf; [|done]. injection Hsel as <-. apply List.find_some in Hf as [Hf _]. by apply list_elem_of_In. }
    rewrite Forall_forall in Hpub. specialize (Hpub _ Hin).
    destruct Hauth as [?|s0 v0 _ _ _|s0 v0 k0 n0 _ _ Hk0 _]; [done|by eexists|]. eexists. split; [done|]. by eapply ownership_nonce_class. }
  assert (uses (cl_key cl) e = Some (cl_nonce cl) /\ uses (cl_key cl) e' = Some (cl_nonce cl)) as [Hu Hu'].
  { unfold uses. rewrite <- Hcl, Hec. simpl. by rewrite decide_True. }
  assert (exists n, nonces_used (cl_key cl) (omap id effects) = seqZ n (blen (nonces_used (cl_key cl) (omap id effects)))) as [n Hseq].
  { destruct (stored_nonce m (cl_key cl)) as [n|] eqn:Hn; [exists n; by apply (ld_nonces _ _ _ _ _ _ L)|].
    exists 0. destruct (ld_corrupt _ _ _ _ _ _ L (cl_key cl) Hk Hn) as [-> _]. done. }
  assert (NoDup (nonces_used (cl_key cl) (omap id effects))) as Hnd by (rewrite Hseq; apply NoDup_seqZ).
  clear -Hnd He He' Hu Hu' Hne. eapply (omap_twice (uses (cl_key cl)) effects i j); done.
Qed.
End Disciplines.

(** ** Refining the actions of a service *)

(** A sequence of refines of one service, each starting from the map the one
    before it ended with. *)
Inductive refines `{Blake2} `{TrieLaws} `{Schnorrkel} `{Ed25519Dalek} `{K256} `{Sha3} `{UrlBase64}
    (d : ServiceDescriptor) (domain : bytes) : kv -> list (RefineInput.t * transition) -> kv -> Prop :=
| refines_nil m : refines d domain m [] m
| refines_cons m input t others rest m' :
    StateWitness.parent_root (RefineInput.managed_state input) = root_of m ->
    others_ok others (RefineInput.external_state input) ->
    refine_internal (execute d) input domain = Ok t ->
    refines d domain (apply_changes (StateDiff.changes (tr_diff t)) m) rest m' ->
    refines d domain m ((input, t) :: rest) m'.

Section Refines.
Context `{Blake2} `{TrieLaws} `{Schnorrkel} `{Ed25519Dalek} `{K256} `{Sha3} `{UrlBase64} (d : ServiceDescriptor).

Lemma refine_ledger input domain m others t :
  StateWitness.parent_root (RefineInput.managed_state input) = root_of m ->
  others_ok others (RefineInput.external_state input) ->
  refine_internal (execute d) input domain = Ok t ->
  exists effects,
    ledger d domain m (RefineInput.actions input) (tr_receipts t) effects (apply_changes (StateDiff.changes (tr_diff t)) m)
    /\ tr_new_root t = root_of (apply_changes (StateDiff.changes (tr_diff t)) m)
    /\ forall e, e ∈ omap id effects -> expires_by (tr_valid_until t) e.
Proof.
  intros Hroot Hothers Ht.
  apply (refine_with_code_sound GENERIC_ERROR (execute d) input domain m others t) in Ht
    as (o & Ho & _ & Hnew & Hrec & Hval & Hdiff & _); try done.
  2: { apply Forall_forall. intros a _. apply execute_disciplined. }
  apply batch_ledger in Ho as (receipts & effects & L & Hr & Hexp). cbn [oc_map oc_receipts oc_valid_until] in *.
  exists effects. rewrite Hdiff, Hnew, Hval, Hrec, Hr. split; [exact L|]. split; [done|]. intros e He. apply Hexp. by left.
Qed.

Lemma refines_ledger domain m batches m' :
  refines d domain m batches m' ->
  exists effects, ledger d domain m (concat (map (fun b => RefineInput.actions b.1) batches))
                    (concat (map (fun b => tr_receipts b.2) batches)) effects m'.
Proof.
  induction 1 as [m|m input t others rest m' Hroot Hothers Ht _ [effects IH]]; [by exists []; apply ledger_nil|].
  destruct (refine_ledger input domain m others t Hroot Hothers Ht) as (effects' & L & _).
  exists (effects' ++ effects). by eapply ledger_app.
Qed.
End Refines.

(** C4: a refine of a service does what its signers asked for and nothing else.
    Refine the actions of any descriptor, with any scripts, over a witness of the
    map [m]. Then the new root is the root of the map [m'] that the diff makes of
    [m]; every action has one receipt, with its hash; the receipt says that the
    action took effect exactly for actions of the descriptor that were authorized
    for this network and service; the nonces of each signer that were used up are
    the next ones after the stored one, in order, and the stored one moved past
    them; no key changed but these nonces and keys of the declared namespaces; and
    the transition expires no later than any action that took effect. *)
Theorem guest_refine_authorized `{Blake2} `{TrieLaws} `{Schnorrkel} `{Ed25519Dalek} `{K256} `{Sha3} `{UrlBase64}
    (d : ServiceDescriptor) (input : RefineInput.t) (domain : bytes) (m : kv) (others : gmap Z kv) (t : transition) :
  StateWitness.parent_root (RefineInput.managed_state input) = root_of m ->
  others_ok others (RefineInput.external_state input) ->
  refine_internal (execute d) input domain = Ok t ->
  exists effects,
    let m' := apply_changes (StateDiff.changes (tr_diff t)) m in
    let kept := omap id effects in
    tr_new_root t = root_of m'
    /\ length effects = length (RefineInput.actions input) /\ length (tr_receipts t) = length (RefineInput.actions input)
    /\ (forall i raw r e, RefineInput.actions input !! i = Some raw -> tr_receipts t !! i = Some r ->
          effects !! i = Some e -> accounts d domain raw r e)
    /\ (forall k n, head k = Some RUNTIME_KEY_CLASS_V1 -> stored_nonce m k = Some n ->
          nonces_used k kept = seqZ n (blen (nonces_used k kept))
          /\ stored_nonce m' k = Some (n + blen (nonces_used k kept)))
    /\ (forall k, m' !! k <> m !! k -> writable d kept k)
    /\ (forall e, e ∈ kept -> expires_by (tr_valid_until t) e).
Proof.
  intros Hroot Hothers Ht. destruct (refine_ledger d input domain m others t Hroot Hothers Ht) as (effects & L & Hnew & Hexp).
  exists effects. cbv zeta. split; [done|]. destruct L. split_and!; done.
Qed.

(** C6: a signed action takes effect at most once. Over any sequence of refines of
    a service without public actions, each from the state the one before left:
    if the same bytes are submitted twice, in one refine or in two, and took
    effect once, they did not the other time. *)
Theorem signed_action_takes_effect_once `{Blake2} `{TrieLaws} `{Schnorrkel} `{Ed25519Dalek} `{K256} `{Sha3} `{UrlBase64}
    (d : ServiceDescriptor) (domain : bytes) (m m' : kv) (batches : list (RefineInput.t * transition)) :
  refines d domain m batches m' ->
  Forall (fun action => ad_auth_kind action <> AUTH_PUBLIC) (GuestRuntime.actions d) ->
  let submitted := concat (map (fun b => RefineInput.actions b.1) batches) in
  let receipts := concat (map (fun b => tr_receipts b.2) batches) in
  length receipts = length submitted
  /\ forall i j raw r r', i <> j -> submitted !! i = Some raw -> submitted !! j = Some raw ->
       receipts !! i = Some r -> receipts !! j = Some r' -> took_effect r = true -> took_effect r' = false.
Proof.
  intros Hr Hpub. destruct (refines_ledger d domain m batches m' Hr) as [effects L]. cbv zeta. split; [apply (ld_receipts _ _ _ _ _ _ _ L)|].
  intros i j raw r r' Hne Hi Hj Hri Hrj Ht.
  exact (ledger_used_once d domain m _ _ effects m' i j raw r r' L Hpub Hi Hj Hne Hri Hrj Ht).
Qed.

(** ** A service with one signed action *)

Module GuestToy.
Definition state_key : bytes := [x01; x01; x00; x6e; x00].

(** The script stores one value. *)
Definition entry (payload auth_context state_view : bytes) : script_output :=
  match ScriptActionResult.encode (ScriptActionResult.Applied (StateDiff.mk [mkEntry state_key (Some payload)])) with
  | Ok b => OutputBytes b
  | Err _ => NullOutput 0
  end.

Definition service : ServiceDescriptor :=
  mkDescriptor 2 1 (Some [mkAction Toy.selector AUTH_WALLET (Some entry)]) 1 (Some [Some [x6e]]) Toy.service 65536 131072.

Definition contents : kv := {[ nonce_key Toy.key := to_le_bytes 8 7 ]}.
Definition signed : bytes := ActionV1.fmt Toy.action.

(** The same signed bytes twice. *)
Definition input : RefineInput.t :=
  RefineInput.mk x01
    (StateWitness.mk x01 (model_root contents) (AccessPlan.mk x01 [nonce_key Toy.key; state_key])
       [nonce_key Toy.key; state_key])
    [] [signed; signed].

Definition refined : result transition GuestError := refine_internal (execute service) input Toy.domain.

Definition statuses (r : result transition GuestError) : list ActionStatus :=
  match r with Ok t => map Receipt.status (tr_receipts t) | Err _ => [] end.

Lemma others_empty : others_ok ∅ (RefineInput.external_state input).
Proof. split; [intros w Hw; by apply elem_of_nil in Hw|]. intros id m Hm. by rewrite lookup_empty in Hm. Qed.
End GuestToy.

Lemma guest_refine_authorized_witness :
  exists t, GuestToy.refined = Ok t /\ GuestToy.statuses GuestToy.refined = [StApplied; StRejected]
    /\ exists effects, length effects = 2%nat
         /\ (forall raw r e, raw = GuestToy.signed -> tr_receipts t !! 0%nat = Some r -> effects !! 0%nat = Some e ->
                accounts GuestToy.service Toy.domain raw r e).
Proof.
  assert (GuestToy.statuses GuestToy.refined = [StApplied; StRejected]) as Hst by (vm_compute; reflexivity).
  destruct GuestToy.refined as [t|e] eqn:Ht; [|discriminate Hst].
  exists t. split; [reflexivity|]. split; [exact Hst|].
  destruct (guest_refine_authorized GuestToy.service GuestToy.input Toy.domain GuestToy.contents ∅ t) as
    (effects & _ & Hlen & _ & Hacc & _).
  - reflexivity.
  - exact GuestToy.others_empty.
  - exact Ht.
  - exists effects. split; [exact Hlen|]. intros raw r e -> Hr He. apply (Hacc 0%nat); [reflexivity|exact Hr|exact He].
Defined.

Lemma signed_action_takes_effect_once_witness :
  exists t, GuestToy.refined = Ok t
    /\ forall r r', tr_receipts t !! 0%nat = Some r -> tr_receipts t !! 1%nat = Some r' -> took_effect r = true -> took_effect r' = false.
Proof.
  assert (GuestToy.statuses GuestToy.refined = [StApplied; StRejected]) as Hst by (vm_compute; reflexivity).
  destruct GuestToy.refined as [t|e] eqn:Ht; [|discriminate Hst].
  exists t. split; [reflexivity|].
  destruct (signed_action_takes_effect_once GuestToy.service Toy.domain GuestToy.contents
    (apply_changes (StateDiff.changes (tr_diff t)) GuestToy.contents) [(GuestToy.input, t)]) as [_ Hone].
  - eapply refines_cons; [reflexivity|exact GuestToy.others_empty|exact Ht|apply refines_nil].
  - constructor; [vm_compute; discriminate|constructor].
  - intros r r' Hr Hr'. apply (Hone 0%nat 1%nat GuestToy.signed); [discriminate|reflexivity|reflexivity|..];
      cbn [map concat snd]; rewrite app_nil_r; [exact Hr|exact Hr'].
Defined.
