(* ===== verification/GuestEntry.v ===== *)
(** * The entry points of the guest runtime

    [minijam_refine], [jamscript_plan_v1] and [minijam_accumulate] of
    [polkavm-guest-runtime]. What the host functions answer is the argument of
    the entry points: a payload, the network domain, whether the allocator
    accepts the descriptor's budget, and for accumulate the input, the stored
    commitments and the refined results. A fault of the allocator traps instead
    of returning; it is not an outcome here. *)

From S2P Require Import Prelude Ordering Reader Wire ServiceKeys StateView StateDiff Records Witness Ownership Crypto Actions ActionsV2 Types Natural State ModelTrie Overlays Execution RefineInput Dependencies RefineOutput Guest Planner GuestRuntime GuestActions.

Import GuestRuntime.

Definition OUTPUT_BYTES : Z := 2097152.

Record GuestHost := mkHost {
  gh_payload : option bytes;          (** [None]: a status other than 0 *)
  gh_network_domain : option bytes;
  gh_reset_runtime : Z -> Z -> bool   (** the heap budget of the descriptor *)
}.

(** What an entry point of accumulate can ask the host. *)
Record AccumulateHost := mkAccHost {
  ah_input : bytes;
  ah_storage_read : Z * bytes;        (** status, and what fits 34 bytes *)
  ah_service_storage_read : Z -> Z * bytes;
  ah_results : list (option bytes)
}.

Module GuestEntry.
Section Refine.
Context `{Trie} `{Blake2} `{Schnorrkel} `{Ed25519Dalek} `{K256} `{Sha3} `{UrlBase64}.
Context (d : ServiceDescriptor) (host : GuestHost).

(** The input both entry points read. *)
Definition runtime_input : result (RefineInput.t * bytes) GuestError :=
  let? _ := descriptor d in
  bail_if negb (gh_reset_runtime host (sd_heap_initial_bytes d) (sd_heap_max_bytes d)) with GE_Environment ;;
  let? payload := ok_or (gh_payload host) GE_InvalidInput in
  let? input := map_err (fun _ => GE_InvalidInput) (RefineInput.decode payload) in
  let? domain := ok_or (gh_network_domain host) GE_Environment in
  Ok (input, domain).

Definition run_refine : result RefineOutput.t GuestError :=
  let? '(input, domain) := runtime_input in
  refine_with_environment (execute d) input domain.

Definition run_plan : result unit GuestError :=
  let? '(input, domain) := runtime_input in
  plan_owned_with_environment (execute d) input domain.

Definition error_output (code : Z) : bytes := to_le_bytes 4 code.
Definition planner_done_output : bytes := [x00].
Definition write_output (b : bytes) : bytes := if blen b >? OUTPUT_BYTES then error_output 14 else b.
Definition write_encoded (r : result bytes WireError) : bytes :=
  match r with Ok b => write_output b | Err _ => error_output 2 end.

Definition output_for (planning : bool) : bytes :=
  if planning then
    match run_plan with
    | Ok _ => planner_done_output
    | Err (GE_NeedState key) => write_encoded (ServiceKeys.Planner.encode_planner_need_state key)
    | Err (GE_NeedExternalState service_id key) =>
        write_encoded (ServiceKeys.Planner.encode_planner_need_external_state service_id key)
    | Err _ => error_output 2
    end
  else
    match run_refine with
    | Ok output => write_encoded (RefineOutput.encode output)
    | Err (GE_NeedState key) => write_encoded (ServiceKeys.Planner.encode_planner_need_state key)
    | Err (GE_NeedExternalState service_id key) =>
        write_encoded (ServiceKeys.Planner.encode_planner_need_external_state service_id key)
    | Err _ => error_output 2
    end.

Definition minijam_refine : bytes := output_for false.
Definition jamscript_plan_v1 : bytes := output_for true.

Definition jamscript_backend_metadata_v1 : bytes :=
  match descriptor d with
  | Err _ => error_output 2
  | Ok _ => write_output (BackendMetadata.encode
      (BackendMetadata.mk (sd_service_key d) 1 BACKEND_PLANNER_VERSION BACKEND_MANAGED_STATE_VERSION))
  end.
End Refine.

(** ** Accumulate *)

(** [while length < 8 && (first & (0x80 >> length)) != 0 { length += 1 }]. *)
Fixpoint prefix_ones (fuel : nat) (first length : Z) : Z :=
  match fuel with
  | O => length
  | S fuel' =>
      if negb (Z.land first (Z.shiftr 128 length) =? 0) then prefix_ones fuel' first (length + 1) else length
  end.

(** The number at an offset and the offset behind it. *)
Definition read_fnencode (input : bytes) (offset : Z) : option (Z * Z) :=
  first ← input !! Z.to_nat offset;
  let first := b2z first in
  let offset := offset + 1 in
  if first <? 128 then Some (first, offset)
  else
    let length := prefix_ones 8 first 0 in
    if (length =? 0) || (length >? 7) || (saturating_sub (blen input) offset <? length) then None
    else
      let low := from_le_bytes (b_slice input offset (offset + length)) in
      Some (Z.lor (Z.shiftl (Z.land first (Z.shiftr 127 length)) (8 * length)) low, offset + length).

Definition decode_accumulate_init_input (input : bytes) : option (Z * Z * Z) :=
  '(tick, offset) ← read_fnencode input 0;
  '(service_id, offset) ← read_fnencode input offset;
  '(items_count, offset) ← read_fnencode input offset;
  if negb (offset =? blen input) then None else Some (tick, service_id, items_count).

Definition commitment_root (b : bytes) : option bytes :=
  match Commitment.decode b with Ok c => Some (Commitment.root c) | Err _ => None end.

Section Accumulate.
Context (host : AccumulateHost).

Definition read_current_commitment : option bytes :=
  let '(status, b) := ah_storage_read host in
  if status =? 1 then Some EMPTY_STATE_ROOT_V1
  else if (status =? 0) && (blen b =? 34) then commitment_root b else None.

Definition read_service_commitment (service_id : Z) : option bytes :=
  let '(status, b) := ah_service_storage_read host service_id in
  if (status =? 0) && (blen b =? 34) then commitment_root b else None.

(** The loop over the dependencies. *)
Fixpoint dependencies_valid (dependencies : list Dependency.t) : bool :=
  match dependencies with
  | [] => true
  | dependency :: dependencies' =>
      match read_service_commitment (Dependency.service_id dependency) with
      | None => false
      | Some canonical =>
          if bool_decide (canonical <> Dependency.state_root dependency) then false
          else dependencies_valid dependencies'
      end
  end.

(** The new root, when a result is accepted. *)
Definition accept (tick : Z) (current : bytes) (refined : option bytes) : option bytes :=
  match refined with
  | None => None
  | Some refined =>
      match RefineOutput.decode_transition_header refined with
      | Err _ => None
      | Ok header =>
          if bool_decide (RefineOutput.h_parent_root header <> current)
             || match RefineOutput.h_transition_valid_until header with Some v => tick >? v | None => false end
          then None
          else if negb (dependencies_valid (RefineOutput.h_external_dependencies header)) then None
          else Some (RefineOutput.h_new_root header)
      end
  end.

(** [current] and [advanced] after the loop over the results. *)
Definition advance (tick : Z) (st : bytes * bool) (refined : option bytes) : bytes * bool :=
  match accept tick st.1 refined with
  | None => st
  | Some new_root => (new_root, true)
  end.

(** The commitment that is written, if any. *)
Definition minijam_accumulate : option bytes :=
  match decode_accumulate_init_input (ah_input host) with
  | None => None
  | Some (authoritative_tick, _, _) =>
      let current := default EMPTY_STATE_ROOT_V1 read_current_commitment in
      let '(current, advanced) := fold_left (advance authoritative_tick) (ah_results host) (current, false) in
      if advanced then Some (Commitment.encode (Commitment.new current)) else None
  end.
End Accumulate.
End GuestEntry.

(** ** The input of accumulate *)

Lemma prefix_ones_leading b : GuestEntry.prefix_ones 8 (b2z b) 0 = leading_ones b.
Proof.
  assert (forallb (fun n => GuestEntry.prefix_ones 8 (Z.of_nat n) 0 =? leading_ones (z2b (Z.of_nat n))) (seq 0 256) = true) as Hall
    by (vm_compute; reflexivity).
  pose proof (b2z_range b). rewrite forallb_forall in Hall. specialize (Hall (Z.to_nat (b2z b))).
  rewrite Z2Nat.id, z2b_b2z in Hall by lia. apply Z.eqb_eq, Hall, in_seq. lia.
Qed.

(** A number below [2^56] is read where it was written. *)
Lemma read_fnencode_encode pre v post :
  0 <= v < 2 ^ 56 ->
  GuestEntry.read_fnencode (pre ++ encode_natural v ++ post) (blen pre) = Some (v, blen pre + blen (encode_natural v)).
Proof.
  intros Hv. unfold GuestEntry.read_fnencode.
  assert (forall b rest, (pre ++ (b :: rest) ++ post) !! Z.to_nat (blen pre) = Some b) as Hhead.
  { intros b rest. unfold blen. by rewrite Nat2Z.id, lookup_app_r, Nat.sub_diag by lia. }
  destruct (Z.lt_ge_cases v (2 ^ 7)) as [Hs|Hb].
  - rewrite encode_natural_small by done. rewrite Hhead. simpl. rewrite b2z_z2b, Z.mod_small by lia.
    replace (v <? 128) with true by (symmetry; apply Z.ltb_lt; lia). by rewrite blen_cons.
  - rewrite encode_natural_extra by lia. destruct (extra_range v ltac:(lia)) as [He Hhi].
    set (e := extra_of v) in *. set (hi := v / 2 ^ (8 * e)) in *. rewrite Hhead. cbn [mbind option_bind app].
    destruct (first_byte_spec e hi He Hhi) as (H1 & H2 & H3).
    replace (b2z (first_byte e hi) <? 128) with false by (symmetry; apply Z.ltb_ge; lia).
    rewrite prefix_ones_leading, H2, H3. unfold saturating_sub.
    set (low := to_le_bytes (Z.to_nat e) v).
    assert (blen low = e) as Hlow by (unfold low; rewrite blen_to_le_bytes; lia).
    assert (blen (pre ++ first_byte e hi :: low ++ post) = blen pre + 1 + e + blen post) as Hlen
      by (rewrite blen_app, blen_cons, blen_app, Hlow; lia).
    rewrite Hlen. pose proof (blen_nonneg post). pose proof (blen_nonneg pre).
    replace ((e =? 0) || (e >? 7) || _) with false by (symmetry; rewrite !orb_false_iff; lia).
    assert (b_slice (pre ++ first_byte e hi :: low ++ post) (blen pre + 1) (blen pre + 1 + e) = low) as ->.
    { unfold b_slice. replace (Z.to_nat (blen pre + 1 + e - (blen pre + 1))) with (length low) by (unfold blen in *; lia).
      replace (Z.to_nat (blen pre + 1)) with (length (pre ++ [first_byte e hi])) by (rewrite length_app; unfold blen; simpl; lia).
      change (first_byte e hi :: low ++ post) with ([first_byte e hi] ++ low ++ post). rewrite (assoc_L (++)), drop_app_length.
      by rewrite take_app_length. }
    f_equal. f_equal; [|rewrite blen_cons, Hlow; lia]. rewrite Z.lor_comm, natural_extra_value by lia. unfold low.
    rewrite from_to_le_bytes, Z2Nat.id by lia. change 256 with (2 ^ 8). rewrite <- Z.pow_mul_r by lia.
    pose proof (Z.div_mod v (2 ^ (8 * e))) as Hdm. assert (2 ^ (8 * e) <> 0) by (apply Z.pow_nonzero; lia). unfold hi. lia.
Qed.

Lemma accumulate_input_read tick service_id items :
  0 <= tick < 2 ^ 56 -> 0 <= service_id < 2 ^ 56 -> 0 <= items < 2 ^ 56 ->
  GuestEntry.decode_accumulate_init_input (encode_natural tick ++ encode_natural service_id ++ encode_natural items)
  = Some (tick, service_id, items).
Proof.
  intros Ht Hs Hi. unfold GuestEntry.decode_accumulate_init_input.
  pose proof (read_fnencode_encode [] tick (encode_natural service_id ++ encode_natural items) Ht) as E1.
  pose proof (read_fnencode_encode (encode_natural tick) service_id (encode_natural items) Hs) as E2.
  pose proof (read_fnencode_encode (encode_natural tick ++ encode_natural service_id) items [] Hi) as E3.
  rewrite app_nil_r, blen_app in E3. rewrite <- (assoc_L (++)) in E3.
  change (blen []) with 0 in E1. rewrite Z.add_0_l in E1. cbn [app] in E1. rewrite E1. cbn [mbind option_bind].
  rewrite E2. cbn [mbind option_bind]. rewrite E3. cbn [mbind option_bind].
  rewrite !blen_app. rewrite (proj2 (Z.eqb_eq _ _)) by lia. done.
Qed.

(** ** Accumulate follows refine *)

Section Follows.
Context `{Blake2} `{TrieLaws} `{Schnorrkel} `{Ed25519Dalek} `{K256} `{Sha3} `{UrlBase64}.
Context (d : ServiceDescriptor) (domain : bytes).

Lemma map_complete (m : kv) : exists db, complete db m.
Proof.
  assert (exists t, mut_complete t m) as [t Ht].
  { induction m as [|k v m _ [t IH]] using map_ind; [exists (trie_new db_default); apply new_complete|].
    destruct (insert_complete t m k v IH) as (t' & _ & Ht'). by exists t'. }
  eexists. by apply (commit_complete t m).
Qed.

(** The header of a refine of the service, whatever map it started from. *)
Definition reported (h : RefineOutput.header) : Prop :=
  exists input t others m,
    StateWitness.parent_root (RefineInput.managed_state input) = root_of m
    /\ others_ok others (RefineInput.external_state input)
    /\ refine_internal (execute d) input domain = Ok t
    /\ RefineOutput.h_parent_root h = tr_parent_root t /\ RefineOutput.h_new_root h = tr_new_root t
    /\ RefineOutput.h_transition_valid_until h = tr_valid_until t.

Definition honest_results (results : list (option bytes)) : Prop :=
  forall b h, Some b ∈ results -> RefineOutput.decode_transition_header b = Ok h -> reported h.

(** An accepted result was current, in time, and its dependencies are committed. *)
Definition in_time (tick : Z) (effects : list (option effect)) : Prop :=
  forall e cl, e ∈ omap id effects -> ef_claim e = Some cl -> tick <= cl_valid_until cl.

Lemma accept_follows host tick m refined root :
  (forall b h, refined = Some b -> RefineOutput.decode_transition_header b = Ok h -> reported h) ->
  GuestEntry.accept host tick (root_of m) refined = Some root ->
  exists input t effects m', refines d domain m [(input, t)] m' /\ root = root_of m'
    /\ ledger d domain m (RefineInput.actions input) (tr_receipts t) effects m' /\ in_time tick effects
    /\ exists b h, refined = Some b /\ RefineOutput.decode_transition_header b = Ok h
         /\ RefineOutput.h_new_root h = tr_new_root t
         /\ GuestEntry.dependencies_valid host (RefineOutput.h_external_dependencies h) = true.
Proof.
  intros Hrep. unfold GuestEntry.accept. destruct refined as [b|]; [|done].
  destruct (RefineOutput.decode_transition_header b) as [h|] eqn:Hh; [|done].
  destruct (bool_decide_reflect (RefineOutput.h_parent_root h <> root_of m)) as [|Hp%dec_stable]; [done|]. cbn [orb].
  destruct (match RefineOutput.h_transition_valid_until h with Some v => tick >? v | None => false end) eqn:Hv; [done|].
  destruct (GuestEntry.dependencies_valid host (RefineOutput.h_external_dependencies h)) eqn:Hd; [|done]. intros [= <-].
  destruct (Hrep b h eq_refl Hh) as (input & t & others & m0 & Hroot & Hothers & Ht & Hp' & Hn & Hvu).
  destruct (refine_with_code_sound GENERIC_ERROR (execute d) input domain m0 others t) as (o & _ & Hparent & _); try done.
  { apply Forall_forall. intros a _. apply execute_disciplined. }
  assert (m0 = m) as ->.
  { destruct (map_complete m0) as [db Hdb]. apply (FullState.root_of_inj db m0 m Hdb). congruence. }
  destruct (refine_ledger d input domain m others t Hroot Hothers Ht) as (effects & L & Hnew & Hexp).
  exists input, t, effects, (apply_changes (StateDiff.changes (tr_diff t)) m). split_and!; [|congruence|done| |].
  - eapply refines_cons; [done..|apply refines_nil].
  - intros e cl He Hcl. specialize (Hexp e He). unfold expires_by in Hexp. rewrite Hcl in Hexp. destruct Hexp as (v & Hve & Hle).
    rewrite Hvu, Hve in Hv. rewrite Z.gtb_ltb, Z.ltb_ge in Hv. lia.
  - exists b, h. by split_and!.
Qed.

Lemma refines_app m1 b1 m2 b2 m3 :
  refines d domain m1 b1 m2 -> refines d domain m2 b2 m3 -> refines d domain m1 (b1 ++ b2) m3.
Proof. induction 1; [done|]. intros Hb. simpl. eapply refines_cons; eauto. Qed.

Lemma results_follow host tick results : honest_results results -> forall m advanced,
  exists batches effects m', refines d domain m batches m'
    /\ ledger d domain m (concat (map (fun b => RefineInput.actions b.1) batches))
         (concat (map (fun b => tr_receipts b.2) batches)) effects m'
    /\ in_time tick effects
    /\ (forall input t, (input, t) ∈ batches -> exists b h, Some b ∈ results /\ RefineOutput.decode_transition_header b = Ok h
          /\ RefineOutput.h_new_root h = tr_new_root t
          /\ GuestEntry.dependencies_valid host (RefineOutput.h_external_dependencies h) = true)
    /\ fold_left (GuestEntry.advance host tick) results (root_of m, advanced)
       = (root_of m', advanced || negb (bool_decide (batches = []))).
Proof.
  induction results as [|refined results IH]; intros Hh m advanced.
  { exists [], [], m. split_and!; [apply refines_nil|apply ledger_nil| | |].
    - intros e cl He. by apply elem_of_nil in He.
    - intros input t Hin. by apply elem_of_nil in Hin.
    - simpl. by rewrite orb_false_r. }
  assert (honest_results results) as Hh' by (intros b h Hin; apply Hh; set_solver). cbn [fold_left].
  unfold GuestEntry.advance at 2. cbn [fst]. destruct (GuestEntry.accept host tick (root_of m) refined) as [root|] eqn:Ha.
  - apply accept_follows in Ha as (input & t & e1 & m1 & R1 & -> & L1 & T1 & b1 & h1 & -> & D1).
    2: { intros b h -> Hd. apply (Hh b h); [set_solver|done]. }
    destruct (IH Hh' m1 true) as (batches & effects & m' & R & L & T & D & Hf).
    exists ((input, t) :: batches), (e1 ++ effects), m'. split_and!.
    + exact (refines_app _ _ _ _ _ R1 R).
    + by eapply ledger_app.
    + intros e cl He. rewrite omap_app in He. apply elem_of_app in He as [He|He]; [by apply T1|by apply T].
    + intros input' t' [[= -> ->]|Hin]%elem_of_cons.
      * exists b1, h1. split; [set_solver|done].
      * destruct (D input' t' Hin) as (b & h & Hb & ?). exists b, h. split; [set_solver|done].
    + rewrite Hf. by rewrite orb_true_r.
  - destruct (IH Hh' m advanced) as (batches & effects & m' & R & L & T & D & Hf).
    exists batches, effects, m'. split_and!; try done. intros input t Hin.
    destruct (D input t Hin) as (b & h & Hb & ?). exists b, h. split; [set_solver|done].
Qed.
End Follows.

(** C5: accumulate follows refine. Let the stored commitment be the root of the
    map [m], and let every refined result be the report of a refine of this
    service, from whatever state. Then accumulate moves the commitment along a
    sequence of those refines, each of which starts from the map the one before
    it ended with, and whose dependencies are the committed roots of the other
    services; it writes the root of the last map, or nothing if no result fits.
    The signed actions that took effect on the way used up consecutive nonces and
    were still valid at the tick of accumulate. *)
Theorem accumulate_follows_refines `{Blake2} `{TrieLaws} `{Schnorrkel} `{Ed25519Dalek} `{K256} `{Sha3} `{UrlBase64}
    (d : ServiceDescriptor) (domain : bytes) (host : AccumulateHost) (m : kv) (tick service_id items : Z) :
  GuestEntry.decode_accumulate_init_input (ah_input host) = Some (tick, service_id, items) ->
  GuestEntry.read_current_commitment host = Some (root_of m) ->
  honest_results d domain (ah_results host) ->
  exists batches effects m', refines d domain m batches m'
    /\ ledger d domain m (concat (map (fun b => RefineInput.actions b.1) batches))
         (concat (map (fun b => tr_receipts b.2) batches)) effects m'
    /\ (forall e cl, e ∈ omap id effects -> ef_claim e = Some cl -> tick <= cl_valid_until cl)
    /\ (forall input t, (input, t) ∈ batches -> exists b h, Some b ∈ ah_results host
          /\ RefineOutput.decode_transition_header b = Ok h /\ RefineOutput.h_new_root h = tr_new_root t
          /\ Forall (fun dep => GuestEntry.read_service_commitment host (Dependency.service_id dep)
                                = Some (Dependency.state_root dep)) (RefineOutput.h_external_dependencies h))
    /\ GuestEntry.minijam_accumulate host
       = (if bool_decide (batches = []) then None else Some (Commitment.encode (Commitment.new (root_of m')))).
Proof.
  intros Hin Hcur Hh.
  destruct (results_follow d domain host tick (ah_results host) Hh m false) as (batches & effects & m' & R & L & T & D & Hf).
  exists batches, effects, m'. split_and!; try done.
  - intros input t Hb. destruct (D input t Hb) as (b & h & Hbin & Hdec & Hnew & Hdeps). exists b, h. split_and!; try done.
    clear -Hdeps. induction (RefineOutput.h_external_dependencies h) as [|dep deps IH]; [constructor|]. cbn [GuestEntry.dependencies_valid] in Hdeps.
    destruct (GuestEntry.read_service_commitment host (Dependency.service_id dep)) as [root|] eqn:Hr; [|done].
    destruct (bool_decide_reflect (root <> Dependency.state_root dep)) as [|Heq%dec_stable]; [done|].
    constructor; [congruence|by apply IH].
  - unfold GuestEntry.minijam_accumulate. rewrite Hin, Hcur. simpl. rewrite Hf. simpl. by case_bool_decide.
Qed.

(** ** A service with one public action *)

Module EntryToy.
Definition service : ServiceDescriptor :=
  mkDescriptor 2 1 (Some [mkAction Toy.selector AUTH_PUBLIC (Some GuestToy.entry)]) 1 (Some [Some [x6e]]) Toy.service 65536 131072.

Definition input : RefineInput.t :=
  RefineInput.mk x01
    (StateWitness.mk x01 EMPTY_STATE_ROOT_V1 (AccessPlan.mk x01 [GuestToy.state_key]) [GuestToy.state_key]) [] [[x2a]].

Definition refined : result transition GuestError := refine_internal (execute service) input Toy.domain.

(** What the entry point reports for the encoded input. *)
Definition report : bytes :=
  match RefineInput.encode input with
  | Ok b => GuestEntry.minijam_refine service (mkHost (Some b) (Some Toy.domain) (fun _ _ => true))
  | Err _ => []
  end.

(** A first commitment; the report comes twice. *)
Definition host : AccumulateHost :=
  mkAccHost (encode_natural 3 ++ encode_natural 9 ++ encode_natural 3) (1, []) (fun _ => (1, [])) [None; Some report; Some report].

Definition header_fields (r : result RefineOutput.header WireError) : option (bytes * bytes * option Z) :=
  match r with
  | Ok h => Some (RefineOutput.h_parent_root h, RefineOutput.h_new_root h, RefineOutput.h_transition_valid_until h)
  | Err _ => None
  end.

Definition transition_fields (r : result transition GuestError) : option (bytes * bytes * option Z) :=
  match r with Ok t => Some (tr_parent_root t, tr_new_root t, tr_valid_until t) | Err _ => None end.

Lemma report_fields : header_fields (RefineOutput.decode_transition_header report) = transition_fields refined
  /\ exists f, transition_fields refined = Some f.
Proof. split; [vm_compute; reflexivity|]. vm_compute. eexists. reflexivity. Qed.

Lemma parent_empty : StateWitness.parent_root (RefineInput.managed_state input) = root_of ∅.
Proof. exact (eq_trans (eq_sym empty_root_v1) empty_root). Qed.

Lemma no_others : others_ok ∅ (RefineInput.external_state input).
Proof. split; [intros w Hw; by apply elem_of_nil in Hw|]. intros id m Hm. by rewrite lookup_empty in Hm. Qed.

Lemma honest : honest_results service Toy.domain (ah_results host).
Proof.
  intros b h Hin Hh. assert (b = report) as ->.
  { unfold host in Hin. cbn [ah_results] in Hin. rewrite !elem_of_cons, elem_of_nil in Hin.
    destruct Hin as [Hin|[Hin|[Hin|[]]]]; [discriminate Hin|exact (Some_inj _ _ Hin)|exact (Some_inj _ _ Hin)]. }
  destruct report_fields as [Hf [f Hs]]. rewrite Hh, Hs in Hf. unfold transition_fields in Hs.
  destruct refined as [t|e] eqn:Ht; [|discriminate Hs]. injection Hs as <-. injection Hf as Hp Hn Hv.
  exists input, t, ∅, ∅. split_and!; [exact parent_empty|exact no_others|exact Ht|exact Hp|exact Hn|exact Hv].
Qed.
End EntryToy.

Lemma accumulate_follows_refines_witness :
  GuestEntry.minijam_accumulate EntryToy.host
    = Some (Commitment.encode (Commitment.new (model_root {[ GuestToy.state_key := [x2a] ]})))
  /\ exists batches effects m', refines EntryToy.service Toy.domain ∅ batches m'
       /\ ledger EntryToy.service Toy.domain ∅ (concat (map (fun b => RefineInput.actions b.1) batches))
            (concat (map (fun b => tr_receipts b.2) batches)) effects m'.
Proof.
  split; [vm_compute; reflexivity|].
  destruct (accumulate_follows_refines EntryToy.service Toy.domain EntryToy.host ∅ 3 9 3) as (batches & effects & m' & R & L & _).
  - vm_compute. reflexivity.
  - reflexivity.
  - exact EntryToy.honest.
  - exists batches, effects, m'. split; [exact R|exact L].
Defined.
