(* ===== verification/GuestTyped.v ===== *)
(** * What the guest publishes is well typed

    The codes and expiry times of the model are unbounded numbers, those of the
    guest are [u32] and [u64]. The programs of the runtime only produce numbers in
    range, so that what refine computes survives its encoding: the bytes of the
    entry point decode to an output exactly when refine computed that output. *)

From S2P Require Import Prelude Ordering Reader Wire ServiceKeys StateView StateDiff Records Witness Ownership Crypto Actions ActionsV2 State Overlays Execution RefineInput Dependencies RefineOutput Guest GuestRuntime GuestActions GuestEntry ModelTrie.

Import GuestRuntime.

(** ** Programs whose numbers are in range *)

Definition error_ok (e : StateAccessError) : Prop :=
  match e with SA_Rejected code | SA_ApplicationFailed code => u32_ok code | _ => True end.
Definition answer_ok {A} (r : result A StateAccessError) : Prop := match r with Ok _ => True | Err e => error_ok e end.
Definition time_ok (o : option Z) : Prop := match o with Some v => u64_ok v | None => True end.

Fixpoint in_range (p : prog) : Prop :=
  match p with
  | Return r => answer_ok r
  | Get _ c | ExternalGet _ _ c => forall r, answer_ok r -> in_range (c r)
  | SetKey _ _ c | Delete _ c => forall r, answer_ok r -> in_range (c r)
  | Begin c | Commit c | Rollback c => forall r, answer_ok r -> in_range (c r)
  | ViewState c => forall r, answer_ok r -> in_range (c r)
  | AskSender c => forall r, in_range (c r)
  | AskDomain c => forall r, in_range (c r)
  | AskOwner c | AskController c => forall r, in_range (c r)
  | AskValidUntil c => forall r, time_ok r -> in_range (c r)
  | SetOwnership _ _ n => in_range n
  | ConstrainValidUntil v n => u64_ok v /\ in_range n
  end.

Section Run.
Context {S E : Type} `{ManagedStateAccess S} `{ExternalStateAccess E}.

(** The state and the other services answer with errors in range. *)
Record ops_in_range : Prop := {
  or_get k (s : S) : answer_ok (ms_get k s).1;
  or_set k v (s : S) : answer_ok (ms_set k v s).1;
  or_delete k (s : S) : answer_ok (ms_delete k s).1;
  or_begin (s : S) : answer_ok (ms_begin s).1;
  or_commit (s : S) : answer_ok (ms_commit s).1;
  or_rollback (s : S) : answer_ok (ms_rollback s).1;
  or_external id k (e : E) : answer_ok (ext_get id k e).1
}.
Context (Hops : ops_in_range).

Lemma on_state_range {A} (op : access S A) (c : context S E) :
  (forall s, answer_ok (op s).1) ->
  answer_ok (on_state op c).1 /\ cx_transition_valid_until (on_state op c).2 = cx_transition_valid_until c.
Proof. intros Hop. unfold on_state. specialize (Hop (cx_state c)). by destruct (op (cx_state c)). Qed.

Lemma collect_range keys : forall s : S, answer_ok (collect keys s).1.
Proof.
  induction keys as [|k keys IH]; intros s; cbn [collect]; [done|]. case_match; [apply IH|].
  pose proof (or_get Hops k s) as Hg. destruct (ms_get k s) as [[v|e] s']; [|done].
  specialize (IH s'). by destruct (collect keys s') as [[es|e] s''].
Qed.

Lemma state_view_range (c : context S E) :
  answer_ok (state_view c).1 /\ cx_transition_valid_until (state_view c).2 = cx_transition_valid_until c.
Proof.
  unfold state_view. destruct (cx_access_plan c) as [plan|]; [|done].
  pose proof (collect_range (AccessPlan.keys plan) (cx_state c)) as Hc. destruct (collect _ _) as [[es|e] s]; [|done].
  cbn [rbind fst snd]. split; [|done]. by destruct (StateView.from_entries es).
Qed.

Lemma external_range id k (c : context S E) :
  answer_ok (external_get id k c).1 /\ cx_transition_valid_until (external_get id k c).2 = cx_transition_valid_until c.
Proof.
  unfold external_get. destruct (cx_external_state c) as [e|]; [|done]. pose proof (or_external Hops id k e).
  by destruct (ext_get id k e).
Qed.

Lemma run_range (p : prog) : forall c : context S E, in_range p -> time_ok (cx_transition_valid_until c) ->
  answer_ok (run p c).1 /\ time_ok (cx_transition_valid_until (run p c).2).
Proof.
  assert (forall A (op : access (context S E) A) (cont : result A StateAccessError -> prog) (c : context S E),
    answer_ok (op c).1 /\ cx_transition_valid_until (op c).2 = cx_transition_valid_until c ->
    (forall r c, in_range (cont r) -> time_ok (cx_transition_valid_until c) ->
       answer_ok (run (cont r) c).1 /\ time_ok (cx_transition_valid_until (run (cont r) c).2)) ->
    (forall r, answer_ok r -> in_range (cont r)) -> time_ok (cx_transition_valid_until c) ->
    answer_ok (let '(r, c) := op c in run (cont r) c).1
    /\ time_ok (cx_transition_valid_until (let '(r, c) := op c in run (cont r) c).2)) as Hstep.
  { intros A op cont c [Ho Hc] IH Hp Ht. destruct (op c) as [r c']. cbn in Ho, Hc. apply IH; [by apply Hp|by rewrite Hc]. }
  pose proof Hops as []. induction p as [r|k cont IH|k v cont IH|k cont IH|cont IH|cont IH|cont IH|id k cont IH|cont IH
    |cont IH|cont IH|cont IH|cont IH|cont IH|o1 o2 n IH|v n IH]; intros c Hp Hc; cbn [run]; cbn [in_range] in Hp;
    try (by split); try (apply Hstep; [by apply on_state_range|done..]); try (by apply IH).
  - apply Hstep; [apply external_range|done..].
  - apply Hstep; [apply state_view_range|done..].
  - apply IH; [by apply Hp|done].
  - destruct Hp as [Hv Hp]. apply IH; [done|]. cbn. destruct (cx_transition_valid_until c) as [u|]; cbn in *; [|done].
    unfold u64_ok in *. lia.
Qed.
End Run.
Arguments ops_in_range S E {_ _}.

(** ** The programs of the runtime *)

Section Programs.
Context `{Blake2} `{Schnorrkel} `{Ed25519Dalek} `{K256} `{Sha3} `{UrlBase64} (d : ServiceDescriptor).

Lemma code_range (e : RuntimeError) : u32_ok (code e).
Proof. unfold u32_ok, U32_MAX. destruct e; cbn; lia. Qed.
Lemma reject_range (e : RuntimeError) : in_range (reject e).
Proof. apply code_range. Qed.

Lemma apply_diff_range changes cont :
  (forall r, answer_ok r -> in_range (cont r)) -> in_range (apply_diff d changes cont).
Proof.
  intros Hc. induction changes as [|change changes IH]; cbn [apply_diff]; [by apply Hc|].
  destruct (negb _); [by apply Hc|]. destruct (value change); cbn [in_range]; intros [[]|e] Hr; auto.
Qed.

Lemma script_result_range output :
  match script_result output with Ok r => ScriptActionResult.typed r | Err e => error_ok e end.
Proof.
  unfold script_result. destruct (_ || _); [done|]. destruct (ScriptActionResult.decode _) as [r|e] eqn:Hd; [|done].
  by apply ScriptActionResult.script_action_result_decode_iff in Hd as [? _].
Qed.

Lemma execute_scriptc_range action payload auth : in_range (execute_scriptc d action payload auth).
Proof.
  unfold execute_scriptc. destruct (ad_entry action) as [entry|]; [|done]. destruct (descriptor d); [|done].
  set (finish := fun result : Prelude.result unit StateAccessError => match result with
    Ok _ => Commit Return | Err error => Rollback (fun r => match r with Err e => fail e | Ok _ => fail error end) end).
  assert (forall r, answer_ok r -> in_range (finish r)) as Hf.
  { intros [[]|e] Hr; cbn; [done|]. by intros [[]|e'] Hr'. }
  cbn [in_range]. intros [[]|e] Hr; [|done]. cbn [in_range]. intros [view|e'] Hv; cbn [rbind]; [|exact (Hf (Err e') Hv)].
  destruct (StateView.encode view) as [sv|e']; cbn [map_err]; [|exact (Hf (Err SA_Backend) I)].
  pose proof (script_result_range (entry payload auth sv)) as Hs. destruct (script_result _) as [r|e']; [|exact (Hf (Err e') Hs)].
  destruct r as [diff|c|k|c]; cbn [apply_script_result];
    [by apply apply_diff_range|exact (Hf (Err (SA_ApplicationFailed c)) Hs)|exact (Hf (Err (SA_NeedState k)) I)
    |exact (Hf (Err (SA_ApplicationFailed c)) Hs)].
Qed.

Lemma read_nonce_range k cont : (forall n, in_range (cont n)) -> in_range (read_nonce k cont).
Proof. intros Hc. unfold read_nonce. cbn [in_range]. intros [[b|]|e] Hr; [case_match; [apply Hc|done]|apply Hc|done]. Qed.

Lemma advance_nonce_range k n next : in_range next -> in_range (advance_nonce k n next).
Proof. intros Hn. unfold advance_nonce. destruct (checked_add U64_MAX n 1); [|done]. cbn [in_range]. by intros [[]|e] Hr. Qed.

Lemma verified_v1_time a domain service selector v :
  ActionV1.verify_signed_action_v1 a domain service selector = Ok v -> ActionV1.v_valid_until v = ActionV1.valid_until a.
Proof.
  unfold ActionV1.verify_signed_action_v1. intros Hv. repeat apply bail_if_Ok in Hv as [_ Hv].
  apply rbind_Ok in Hv as (sender & _ & [= <-]). done.
Qed.

Lemma ownership_context_error owner controller e : ownership_context owner controller = Err e -> e = SA_Backend.
Proof.
  unfold ownership_context. destruct (Ownership.encode owner), (Ownership.encode controller); cbn [rbind map_err]; try congruence.
  case_match; congruence.
Qed.

Lemma authenticate_range action raw cont :
  (forall payload auth, in_range (cont payload auth)) -> in_range (authenticate d action raw cont).
Proof.
  intros Hc. pose proof reject_range as Hrej.
  unfold authenticate. destruct (_ =? _); [destruct (negb _); [apply Hrej|apply Hc]|].
  destruct (ad_auth_kind action =? AUTH_WALLET).
  - destruct (ActionV1.decode_signed_action_v1 raw) as [signed|e] eqn:Hd; [|apply Hrej]. cbn [in_range]. intros domain.
    destruct (ActionV1.verify_signed_action_v1 _ _ _ _) as [verified|e] eqn:Hv; [|apply Hrej].
    apply read_nonce_range. intros n. destruct (negb _); [apply Hrej|]. cbn [in_range]. split; [|by apply advance_nonce_range].
    rewrite (verified_v1_time _ _ _ _ _ Hv). by apply ActionV1.action_v1_decode_iff in Hd as [(_ & _ & _ & _ & _ & _ & ? & _) _].
  - destruct (ad_auth_kind action =? AUTH_OWNERSHIP); [|done].
    destruct (ActionV2.decode_signed_action_v2 raw) as [signed|e] eqn:Hd; [|apply Hrej].
    destruct (ActionV2.act_as signed); [apply Hrej|]. destruct (ownership_nonce_key _) as [k|e]; [|apply Hrej].
    apply read_nonce_range. intros n. cbn [in_range]. intros domain.
    destruct (ActionV2.verify_signed_action_v2 _ _ _ _ _) as [verified|e] eqn:Hv; [|apply Hrej]. cbn [in_range]. split.
    + assert (ActionV2.v_valid_until verified = ActionV2.valid_until signed) as ->.
      { unfold ActionV2.verify_signed_action_v2 in Hv. result_inv. done. }
      by apply ActionV2.action_v2_decode_iff in Hd as [((_ & _ & _ & _ & _ & _ & _ & ? & _) & _) _].
    + apply advance_nonce_range. destruct (ownership_context _ _) as [auth|e] eqn:Ho; [apply Hc|].
      by rewrite (ownership_context_error _ _ _ Ho).
Qed.

Lemma execute_range raw : in_range (execute d raw).
Proof.
  unfold execute. destruct (descriptor d); [|done].
  destruct (match public_action d with Some action => Ok (ad_selector action) | None => signed_selector raw end)
    as [selector|e] eqn:Hs.
  - destruct (find_action d selector) as [action|e] eqn:Hf.
    + apply authenticate_range. intros. apply execute_scriptc_range.
    + unfold find_action in Hf. case_match; [done|]. injection Hf as <-. cbn. unfold u32_ok, U32_MAX. lia.
  - destruct (public_action d); [done|]. unfold signed_selector in Hs. case_match; [done|]. injection Hs as <-.
    cbn. unfold u32_ok, U32_MAX. lia.
Qed.
End Programs.

(** ** Refine *)

Section Refine.
Context `{Blake2} `{!Blake2Len} `{Trie} (app : bytes -> prog).
Context (Happ : forall action, in_range (app action)).

Lemma proof_state_in_range : ops_in_range ProofState.t ExternalProofStates.t.
Proof.
  assert (forall k (s : ProofState.t), answer_ok (ProofState.get k s).1) as Hget.
  { intros k s. unfold ProofState.get. destruct (Overlay.overlay_value _ _); [done|]. destruct (ProofState.base_value k s) as [[v|e] s']; [done|].
    by destruct e. }
  assert (forall k x (s : ProofState.t), answer_ok (ProofState.update k x s).1) as Hup.
  { intros k x s. unfold ProofState.update. destruct (Keys.is_reserved_service_storage_key k); [done|].
    destruct (match Overlay.overlay_value _ _ with Some _ => _ | None => _ end) as [[v|e] s']; [done|]. by destruct e. }
  split; intros; cbn; try done.
  - unfold ProofState.commit_transaction. by destruct (Overlay.commit_transaction _) as [[]].
  - unfold ProofState.rollback_transaction. by destruct (Overlay.rollback_transaction _) as [[]].
  - unfold ext_get, ExternalProofStates.external_access, ExternalProofStates.get. destruct (e !! id) as [s|]; [|done].
    specialize (Hget k s). cbn. by destruct (ProofState.get k s).
Qed.

Definition loop_ok (st : loop_state ProofState.t ExternalProofStates.t) : Prop :=
  Forall Receipt.ok (ls_receipts st) /\ time_ok (ls_valid_until st).

Lemma merge_time a b : time_ok a -> time_ok b -> time_ok (merge_validity a b).
Proof. destruct a, b; cbn; try done. unfold u64_ok. lia. Qed.

Lemma refine_action_range generic plan domain st action st' :
  u32_ok generic -> loop_ok st -> refine_action generic app plan domain st action = Ok st' -> loop_ok st'.
Proof.
  intros Hg [Hr Ht] Hs. unfold refine_action in Hs. destruct (run _ _) as [r c] eqn:Hrun.
  destruct (run_range proof_state_in_range (app action) (with_access_plan_and_external_state
    (ms_begin (ls_state st)).2 None plan (ls_external st) domain) (Happ action) I) as [Hans Hc].
  rewrite Hrun in Hans, Hc. cbn [fst snd] in Hans, Hc.
  assert (forall s status code valid, time_ok valid -> match code with Some c => u32_ok c | None => True end ->
    loop_ok (mkLoop s (default (ls_external st) (cx_external_state c))
      (ls_receipts st ++ [Receipt.mk (blake2_256 action) status code]) valid)) as Hpush.
  { intros s status code valid Hv Hcode. split; [|done]. apply Forall_app. split; [done|]. apply Forall_singleton. split; [apply blake2_256_len|done]. }
  pose proof (merge_time _ _ Ht Hc) as Hm. unfold settle in Hs.
  destruct r as [u|[]]; try (apply rbind_Ok in Hs as (s & _ & Hs)); try discriminate Hs; try (injection Hs as <-; by apply Hpush).
  destruct (is_native_failure code); apply rbind_Ok in Hs as (s & _ & Hs); injection Hs as <-; by apply Hpush.
Qed.

Lemma refine_range generic input domain t :
  u32_ok generic -> refine_with_code generic app input domain = Ok t ->
  tr_parent_root t = StateWitness.parent_root (RefineInput.managed_state input)
  /\ Forall Receipt.ok (tr_receipts t) /\ time_ok (tr_valid_until t)
  /\ tr_dependencies t = external_dependencies (RefineInput.external_state input).
Proof.
  intros Hg Ht. unfold refine_with_code in Ht. apply bail_if_Ok in Ht as [_ Ht].
  apply rbind_Ok in Ht as (external & _ & Ht). apply rbind_Ok in Ht as (s & Hs%map_err_Ok & Ht). apply rbind_Ok in Ht as (s' & Hs' & Ht).
  apply rbind_Ok in Ht as (st & Hst & Ht). apply rbind_Ok in Ht as ([root diff] & _ & [= <-]). cbn.
  assert (loop_ok st) as [Hr Hv].
  { refine (rfold_invariant _ loop_ok _ _ _ _ _ Hst); [|by split; [apply Forall_nil|]].
    intros st0 action st1. by apply refine_action_range. }
  split; [|done]. assert (ProofState.root s = StateWitness.parent_root (RefineInput.managed_state input)) as <-.
  { unfold ProofState.from_witness in Hs. by apply rbind_Ok in Hs as (v & _ & [= <-]). }
  refine (rfold_invariant _ (fun s' => ProofState.parent_root s' = ProofState.root s) _ _ _ _ eq_refl Hs').
  intros s0 k s1 Hs0. unfold ProofState.get, ProofState.base_value. repeat case_match; naive_solver.
Qed.
End Refine.


(** ** The bytes of the entry point *)

Lemma output_version c rest o :
  slice_ok (c :: rest) -> run_to_end InvalidEncoding RefineOutput.parse (c :: rest) = Ok o -> c = MANAGED_STATE_PROTOCOL_VERSION.
Proof.
  intros Hl Hr. unfold run_to_end in Hr. apply rbind_Ok in Hr as ([v r] & Hp & _).
  unfold RefineOutput.parse in Hp. unfold mbind at 1, parser_bind in Hp. change (reader_new (c :: rest)) with (at_ [] ([c] ++ rest)) in Hp.
  rewrite parses_u8 in Hp by exact Hl. cbn [rbind] in Hp.
  apply rbind_Ok in Hp as ([u r'] & Hb & _). unfold pbail in Hb. case_bool_decide; [done|discriminate Hb].
Qed.

Section Entry.
Context `{Blake2} `{!Blake2Len} `{Trie} `{Schnorrkel} `{Ed25519Dalek} `{K256} `{Sha3} `{UrlBase64}.
Context (d : ServiceDescriptor) (host : GuestHost).

Lemma external_dependencies_ok ws : ExternalWitness.valid ws ->
  Forall Dependency.ok (external_dependencies ws)
  /\ Dependency.canonicalize_dependencies (external_dependencies ws) = Ok (external_dependencies ws).
Proof.
  intros [Hok Hs]. split.
  - unfold external_dependencies. apply Forall_fmap. eapply Forall_impl; [exact Hok|]. intros w [Hid (_ & Hr & _)]. by split.
  - apply Dependency.dependency_canonicalize_Ok. split; [|done]. unfold external_dependencies, key_ssorted in *.
    clear Hok. induction Hs as [|w ws Hs IH Hw]; cbn [map]; constructor; [done|]. by apply Forall_fmap.
Qed.

(** What refine computes, as a value of its type. *)
Lemma run_refine_typed o :
  GuestEntry.run_refine d host = Ok o -> array_ok 32 (RefineOutput.new_root o) ->
  RefineOutput.typed o /\ RefineOutput.committed o
  /\ Dependency.canonicalize_dependencies (RefineOutput.external_dependencies o) = Ok (RefineOutput.external_dependencies o).
Proof.
  intros Hr Hn. unfold GuestEntry.run_refine in Hr. apply rbind_Ok in Hr as ([input domain] & Hi & Hr).
  assert (RefineInput.valid input) as (_ & Hms & Hext).
  { unfold GuestEntry.runtime_input in Hi. apply rbind_Ok in Hi as (u & _ & Hi). apply bail_if_Ok in Hi as [_ Hi].
    apply rbind_Ok in Hi as (payload & _ & Hi). apply rbind_Ok in Hi as (input' & Hd%map_err_Ok & Hi).
    apply rbind_Ok in Hi as (domain' & _ & [= -> _]).
    by destruct (run_to_end_yields _ _ _ _ _ RefineInput.refine_input_yields_parse Hd). }
  apply rbind_Ok in Hr as (t & Ht & Hp). unfold refine_internal in Ht.
  destruct (refine_range (execute d) (execute_range d) GENERIC_ERROR input domain t) as (Hpr & Hrec & Hv & Hdeps);
    [by unfold u32_ok, U32_MAX, GENERIC_ERROR; lia|done|].
  destruct (external_dependencies_ok _ Hext) as [Hok Hcan]. rewrite <- Hdeps in Hok, Hcan.
  unfold publish in Hp. apply map_err_Ok in Hp. unfold RefineOutput.from_diff_with_dependencies_and_validity in Hp. rewrite Hcan in Hp.
  cbn [rbind] in Hp. apply bail_if_Ok in Hp as [_ Hp]. apply rbind_Ok in Hp as (r & _ & Hp). apply rbind_Ok in Hp as (payload & Hpay & [= <-]).
  split; [|split; [|done]].
  - split_and!; try done; cbn; [|apply blake2_256_len]. rewrite Hpr. by destruct Hms as (_ & ? & _).
  - split; [done|]. exists r. by apply StateRecovery.state_recovery_decode_iff.
Qed.

(** Bytes that tell of something other than an output: an error, or the letter
    an answer of the planner starts with. *)
Definition no_output (b : bytes) : Prop :=
  b = GuestEntry.error_output 2 \/ b = GuestEntry.error_output 14 \/ (exists rest, b = x4a :: rest) /\ blen b <= OUTPUT_BYTES.

Lemma no_output_unread b o : no_output b -> run_to_end InvalidEncoding RefineOutput.parse b = Ok o -> False.
Proof.
  intros [->|[->|[[rest ->] Hl]]] Hd%output_version; try discriminate Hd; unfold slice_ok; [vm_compute; discriminate..|].
  unfold OUTPUT_BYTES in Hl. unfold_limits. lia.
Qed.

(** The answers of the planner start with a letter. *)
Lemma planner_letter b :
  (exists key, ServiceKeys.Planner.encode_planner_need_state key = Ok b)
  \/ (exists id key, ServiceKeys.Planner.encode_planner_need_external_state id key = Ok b) -> exists rest, b = x4a :: rest.
Proof.
  intros [[key (_ & ->)%ServiceKeys.Planner.encode_need_state_Ok]
         |(id & key & (_ & ->)%ServiceKeys.Planner.encode_need_external_state_Ok)]; by eexists.
Qed.

Definition roots_sized : Prop := forall o, GuestEntry.run_refine d host = Ok o -> array_ok 32 (RefineOutput.new_root o).

Lemma published_encoding o b :
  roots_sized -> GuestEntry.run_refine d host = Ok o -> RefineOutput.encode o = Ok b -> RefineOutput.decode b = Ok o.
Proof.
  intros Hroots Hr Hb. destruct (run_refine_typed o Hr (Hroots o Hr)) as (Ht & Hc & Hcan).
  destruct (RefineOutput.refine_output_decode_encode o b Ht Hc Hb) as (deps & Hdeps & ->).
  rewrite Hcan in Hdeps. injection Hdeps as <-. by destruct o.
Qed.

(** What the entry point writes: an output, or none. *)
Lemma published_cases :
  (exists o, GuestEntry.run_refine d host = Ok o /\ RefineOutput.encode o = Ok (GuestEntry.minijam_refine d host)
     /\ blen (GuestEntry.minijam_refine d host) <= OUTPUT_BYTES)
  \/ no_output (GuestEntry.minijam_refine d host)
     /\ forall o b, GuestEntry.run_refine d host = Ok o -> RefineOutput.encode o = Ok b -> OUTPUT_BYTES < blen b.
Proof.
  unfold GuestEntry.minijam_refine, GuestEntry.output_for.
  assert (forall r, (forall b, r = Ok b -> exists rest, b = x4a :: rest) -> no_output (GuestEntry.write_encoded r)) as Hplan.
  { intros [b|e] Hb; [|by left]. unfold GuestEntry.write_encoded, GuestEntry.write_output.
    destruct (Z.gtb_spec (blen b) OUTPUT_BYTES); [by right; left|]. right. right. split; [by apply Hb|done]. }
  destruct (GuestEntry.run_refine d host) as [o|e] eqn:Hrun.
  - unfold GuestEntry.write_encoded. destruct (RefineOutput.encode o) as [b|e] eqn:Hb; [|right; split; [by left|intros o' b [= <-]; congruence]].
    unfold GuestEntry.write_output. destruct (Z.gtb_spec (blen b) OUTPUT_BYTES); [|left; by exists o].
    right. split; [by right; left|]. intros o' b' [= <-]. rewrite Hb. by intros [= <-].
  - right. split; [|done]. destruct e; try (by left); apply Hplan; intros b Hb; apply planner_letter; eauto.
Qed.

Lemma published_iff o :
  roots_sized ->
  (RefineOutput.decode (GuestEntry.minijam_refine d host) = Ok o <->
   GuestEntry.run_refine d host = Ok o /\ exists b, RefineOutput.encode o = Ok b /\ blen b <= OUTPUT_BYTES).
Proof.
  intros Hroots. destruct published_cases as [(o' & Hrun & Hb & Hl)|[Hno Hlong]].
  - rewrite (published_encoding o' _ Hroots Hrun Hb), Hrun. split; [intros [= <-]; split; [done|]; by eexists|by intros [[= ->] _]].
  - split; [intros (_ & Hr & _)%RefineOutput.refine_output_decode_Ok; by destruct (no_output_unread _ _ Hno Hr)|].
    intros [Hr (b & Hb & Hl)]. specialize (Hlong o b Hr Hb). lia.
Qed.

(** The header decoder reads what the full one does. *)
Lemma published_header h :
  roots_sized ->
  (RefineOutput.decode_transition_header (GuestEntry.minijam_refine d host) = Ok h <->
   exists o, RefineOutput.decode (GuestEntry.minijam_refine d host) = Ok o /\ h = RefineOutput.header_of o).
Proof.
  intros Hroots. rewrite RefineOutput.decode_transition_header_eq. destruct published_cases as [(o' & Hrun & Hb & Hl)|[Hno _]].
  - pose proof (published_encoding o' _ Hroots Hrun Hb) as Hd. rewrite Hd. apply RefineOutput.refine_output_decode_Ok in Hd as (_ & -> & _).
    cbn [rbind]. split; [intros [= <-]; by exists o'|]. by intros (o & [= <-] & ->).
  - split; [intros (o & Hr & _)%rbind_Ok; by destruct (no_output_unread _ _ Hno Hr)|].
    intros (o & (_ & -> & _)%RefineOutput.refine_output_decode_Ok & ->). done.
Qed.
End Entry.

(** C27: what the guest publishes is well typed and lossless. Run the refine entry
    point of any service on any host (any payload, network domain and allocator),
    where roots are 32 bytes long, as their type says. Then the output refine
    computed, if it computed one, is a value of its Rust type (32-byte hashes, [u32]
    error codes and service numbers, a [u64] expiry) whose commitment is the hash of
    a recovery record; the bytes the entry point wrote decode to an output exactly
    when refine computed that output and its encoding fits the buffer: an error word
    and a planner's answer are never taken for an output, and nothing is lost on the
    way; and the header decoder, which accumulate uses, accepts exactly the bytes
    the full decoder accepts and reads the header of the same output. *)
Theorem published_output_exact `{Blake2} `{!Blake2Len} `{Trie} `{Schnorrkel} `{Ed25519Dalek} `{K256} `{Sha3} `{UrlBase64}
    (d : ServiceDescriptor) (host : GuestHost) (o : RefineOutput.t) :
  (forall o', GuestEntry.run_refine d host = Ok o' -> array_ok 32 (RefineOutput.new_root o')) ->
  (GuestEntry.run_refine d host = Ok o -> RefineOutput.typed o /\ RefineOutput.committed o)
  /\ (RefineOutput.decode (GuestEntry.minijam_refine d host) = Ok o <->
      GuestEntry.run_refine d host = Ok o /\ exists b, RefineOutput.encode o = Ok b /\ blen b <= OUTPUT_BYTES)
  /\ (forall h, RefineOutput.decode_transition_header (GuestEntry.minijam_refine d host) = Ok h <->
      exists o', RefineOutput.decode (GuestEntry.minijam_refine d host) = Ok o' /\ h = RefineOutput.header_of o').
Proof.
  intros Hroots. split; [|split; [by apply published_iff|intros h; by apply published_header]].
  intros Hr. by destruct (run_refine_typed d host o Hr (Hroots o Hr)) as (? & ? & _).
Qed.

Module PublishedToy.
Definition host : GuestHost :=
  mkHost (match RefineInput.encode EntryToy.input with Ok b => Some b | Err _ => None end) (Some Toy.domain) (fun _ _ => true).
Definition output : RefineOutput.t :=
  match GuestEntry.run_refine EntryToy.service host with
  | Ok o => o
  | Err _ => RefineOutput.mk x00 [] [] [] None [] [] []
  end.
End PublishedToy.

Lemma published_output_exact_witness :
  RefineOutput.typed PublishedToy.output
  /\ RefineOutput.decode (GuestEntry.minijam_refine EntryToy.service PublishedToy.host) = Ok PublishedToy.output
  /\ RefineOutput.decode_transition_header (GuestEntry.minijam_refine EntryToy.service PublishedToy.host)
     = Ok (RefineOutput.header_of PublishedToy.output).
Proof.
  assert (is_ok (GuestEntry.run_refine EntryToy.service PublishedToy.host) = true) as Hrun by (vm_compute; reflexivity).
  assert (GuestEntry.run_refine EntryToy.service PublishedToy.host = Ok PublishedToy.output) as Ho.
  { unfold PublishedToy.output. by destruct (GuestEntry.run_refine _ _). }
  assert (blen (RefineOutput.new_root PublishedToy.output) = 32) as Hroot by (vm_compute; reflexivity).
  destruct (published_output_exact EntryToy.service PublishedToy.host PublishedToy.output) as [Ht [He Hh]].
  { revert Ho Hroot. clear. generalize PublishedToy.output as o. intros o Ho Hroot o' Ho'. rewrite Ho in Ho'. by injection Ho' as <-. }
  split; [exact (proj1 (Ht Ho))|].
  enough (RefineOutput.decode (GuestEntry.minijam_refine EntryToy.service PublishedToy.host) = Ok PublishedToy.output) as Hd
    by (split; [exact Hd|]; apply Hh; exists PublishedToy.output; split; [exact Hd|reflexivity]).
  apply He. split; [exact Ho|].
  assert (match RefineOutput.encode PublishedToy.output with Ok b => blen b <=? OUTPUT_BYTES | Err _ => false end = true) as Hb
    by (vm_compute; reflexivity).
  destruct (RefineOutput.encode PublishedToy.output) as [b|e]; [|discriminate Hb]. exists b. split; [reflexivity|]. by apply Z.leb_le.
Defined.
