(* ===== verification/HostGuest.v ===== *)
(** * Host transactions and guest proofs agree

    The host executes over its full state and records the keys it touched; the
    guest executes over a proof of those keys.  Any program run on both gives
    the same answer and the same writes. *)

From S2P Require Import Prelude Ordering Reader Wire ServiceKeys StateView StateDiff Witness Ownership State Overlays ModelTrie Execution.

Section Sufficiency.
Context `{TrieLaws} {E : Type} `{ExternalStateAccess E}.
(** The map, the keys the proof covers and the proof. *)
Context (m : kv) (T : gset bytes) (nodes : list bytes).
Context (Hcover : forall k, k ∈ T -> trie_get (proof_into_db nodes) (root_of m) k = Some (m !! k)).
Implicit Types (s : StateTransaction.t) (t : ProofState.t).

Record agree s t : Prop := {
  ag_base : FullState.rep (StateTransaction.base s) m;
  ag_db : ProofState.db t = proof_into_db nodes;
  ag_root : ProofState.root t = root_of m;
  ag_cache : forall k v, ProofState.base_cache t !! k = Some v -> v = m !! k;
  ag_overlay : ProofState.overlay t = StateTransaction.overlay s
}.

(** An operation that only grows the touched set and, while that set is
    covered, gives the same answer on both sides. *)
Record agrees {A} (f : access StateTransaction.t A) (g : access ProofState.t A) : Prop := {
  agr_mono s : StateTransaction.touched s ⊆ StateTransaction.touched (f s).2;
  agr_same s t : agree s t -> StateTransaction.touched (f s).2 ⊆ T ->
    (f s).1 = (g t).1 /\ agree (f s).2 (g t).2
}.

Lemma base_value_agree s t k :
  agree s t -> k ∈ T ->
  (ProofState.base_value k t).1 = Ok (m !! k) /\ agree s (ProofState.base_value k t).2.
Proof.
  intros [Hb Hd Hr Hc Ho] Hk. unfold ProofState.base_value.
  destruct (ProofState.base_cache t !! k) as [v|] eqn:Hv.
  - split; [|by split]. simpl. f_equal. by apply Hc.
  - rewrite Hd, Hr, Hcover by done. simpl. split; [done|]. split; try done.
    simpl. intros j w. destruct (decide (j = k)) as [->|].
    + rewrite lookup_insert_eq. by intros [= <-].
    + rewrite lookup_insert_ne by done. apply Hc.
Qed.

Lemma agrees_get k : agrees (StateTransaction.get k) (ProofState.get k).
Proof.
  split.
  - intros s. unfold StateTransaction.get. case_match; simpl; set_solver.
  - intros s t Hst. unfold StateTransaction.get, ProofState.get. rewrite (ag_overlay _ _ Hst).
    destruct (Overlay.overlay_value (StateTransaction.overlay s) k); simpl; [done|]. intros HT.
    destruct (base_value_agree s t k Hst ltac:(set_solver)) as [Hv Ht].
    destruct (ProofState.base_value k t) as [r t']. simpl in *. subst r.
    rewrite (FullState.get_rep _ m) by apply Hst. simpl. split; [done|]. destruct Ht. by split.
Qed.

Lemma agrees_update k x : agrees (StateTransaction.update k x) (ProofState.update k x).
Proof.
  split.
  - intros s. unfold StateTransaction.update. case_match; simpl; set_solver.
  - intros s t Hst. unfold StateTransaction.update, ProofState.update.
    destruct (Keys.is_reserved_service_storage_key k); [done|]. simpl. intros HT.
    assert (forall t', agree s t' ->
      agree (StateTransaction.with_overlay (StateTransaction.touch s k)
               (Overlay.put (StateTransaction.overlay s) k x))
            (ProofState.with_overlay t' (Overlay.put (ProofState.overlay t') k x))) as Hput.
    { intros t' []. split; try done. simpl. congruence. }
    destruct (base_value_agree s t k Hst ltac:(set_solver)) as [Hv Ht].
    destruct (Overlay.overlay_value (ProofState.overlay t) k),
      (ProofState.base_cache t !! k); try (split; [done|by apply Hput]).
    destruct (ProofState.base_value k t) as [r t']. simpl in *. subst r.
    split; [done|by apply Hput].
Qed.

Lemma agree_with_overlay s t o :
  agree s t -> agree (StateTransaction.with_overlay s o) (ProofState.with_overlay t o).
Proof. intros []. by split. Qed.

Lemma agrees_begin : agrees StateTransaction.begin_transaction ProofState.begin_transaction.
Proof.
  split; [done|]. intros s t Hst _. split; [done|].
  unfold ProofState.begin_transaction. rewrite (ag_overlay _ _ Hst). by apply agree_with_overlay.
Qed.

Lemma agrees_commit : agrees StateTransaction.commit_transaction ProofState.commit_transaction.
Proof.
  split; intros s; unfold StateTransaction.commit_transaction; [by case_match|].
  intros t Hst _. unfold ProofState.commit_transaction. rewrite (ag_overlay _ _ Hst).
  case_match. split; [done|]. by apply agree_with_overlay.
Qed.

Lemma agrees_rollback : agrees StateTransaction.rollback_transaction ProofState.rollback_transaction.
Proof.
  split; intros s; unfold StateTransaction.rollback_transaction; [by case_match|].
  intros t Hst _. unfold ProofState.rollback_transaction. rewrite (ag_overlay _ _ Hst).
  case_match. split; [done|]. by apply agree_with_overlay.
Qed.

Lemma agrees_collect keys : agrees (collect keys) (collect keys).
Proof.
  induction keys as [|k keys IH]; [by split|]. split; simpl.
  - intros s. case_match; [apply IH|]. pose proof (agr_mono _ _ (agrees_get k) s) as Hm.
    destruct (StateTransaction.get k s) as [[v|e] s']; [|done]. simpl in *.
    pose proof (agr_mono _ _ IH s'). destruct (collect keys s'). simpl in *. set_solver.
  - intros s t Hst. case_match; [by apply IH|].
    pose proof (agr_same _ _ (agrees_get k) s t Hst) as Hg.
    destruct (StateTransaction.get k s) as [[v|e] s'] eqn:Hs.
    + pose proof (agr_mono _ _ IH s') as Hm. pose proof (agr_same _ _ IH s') as Hi.
      destruct (collect keys s') as [r s''] eqn:Hc. simpl in *. intros HT.
      destruct Hg as [Hgr Hga]; [set_solver|]. destruct (ProofState.get k t) as [rt t']. simpl in *. subst rt.
      destruct (Hi t' Hga HT) as [Hr Ha]. destruct (collect keys t') as [rt t'']. simpl in *. by subst.
    + simpl in *. intros HT. destruct (Hg HT) as [Hgr Hga].
      destruct (ProofState.get k t) as [rt t']. simpl in *. by subst.
Qed.

(** *** Contexts and programs *)

Definition ctx_touched (c : context StateTransaction.t E) : gset bytes :=
  StateTransaction.touched (cx_state c).
Definition ctx_agree (c : context StateTransaction.t E) (d : context ProofState.t E) : Prop :=
  ctx_rel agree eq c d.

Record ctx_agrees {A} (f : access (context StateTransaction.t E) A)
    (g : access (context ProofState.t E) A) : Prop := {
  cagr_mono c : ctx_touched c ⊆ ctx_touched (f c).2;
  cagr_same c d : ctx_agree c d -> ctx_touched (f c).2 ⊆ T ->
    (f c).1 = (g d).1 /\ ctx_agree (f c).2 (g d).2
}.

Lemma ctx_agree_set_state c d s t :
  ctx_agree c d -> agree s t -> ctx_agree (set_state c s) (set_state d t).
Proof. intros [] Hst. by split. Qed.

Lemma agrees_on_state {A} (f : access StateTransaction.t A) g :
  agrees f g -> ctx_agrees (on_state f) (on_state g).
Proof.
  intros Hfg. split; unfold on_state, ctx_touched.
  - intros c. pose proof (agr_mono _ _ Hfg (cx_state c)). by destruct (f (cx_state c)).
  - intros c d Hcd HT. pose proof (agr_same _ _ Hfg _ _ (rel_state _ _ _ _ Hcd)) as Hs.
    destruct (f (cx_state c)), (g (cx_state d)). simpl in *. destruct (Hs HT) as [-> Ha].
    split; [done|]. by apply ctx_agree_set_state.
Qed.

Lemma agrees_state_view : ctx_agrees state_view state_view.
Proof.
  split; unfold state_view, ctx_touched.
  - intros c. destruct (cx_access_plan c) as [plan|]; [|done].
    pose proof (agr_mono _ _ (agrees_collect (AccessPlan.keys plan)) (cx_state c)).
    by destruct (collect _ (cx_state c)).
  - intros c d Hcd HT. rewrite <- (rel_plan _ _ _ _ Hcd).
    destruct (cx_access_plan c) as [plan|]; [|done].
    pose proof (agr_same _ _ (agrees_collect (AccessPlan.keys plan)) _ _ (rel_state _ _ _ _ Hcd)) as Hs.
    destruct (collect _ (cx_state c)), (collect _ (cx_state d)). simpl in *.
    destruct (Hs HT) as [-> Ha]. split; [done|]. by apply ctx_agree_set_state.
Qed.

Lemma agrees_external_get id k : ctx_agrees (external_get id k) (external_get id k).
Proof.
  split; unfold external_get, ctx_touched.
  - intros c. destruct (cx_external_state c) as [e|]; [|done]. by destruct (ext_get id k e).
  - intros c d Hcd _. pose proof (rel_external _ _ _ _ Hcd) as He.
    destruct (cx_external_state c) as [e|], (cx_external_state d) as [e'|]; try done. subst e'.
    destruct (ext_get id k e). split; [done|]. destruct Hcd. by split.
Qed.

(** Running a continuation after an operation on which both sides agree. *)
Lemma agrees_bind {A} (f : access (context StateTransaction.t E) A) g (cont : result A StateAccessError -> prog) :
  ctx_agrees f g -> (forall r, ctx_agrees (run (cont r)) (run (cont r))) ->
  ctx_agrees (fun c => let '(r, c) := f c in run (cont r) c)
             (fun d => let '(r, d) := g d in run (cont r) d).
Proof.
  intros Hfg Hk. split.
  - intros c. pose proof (cagr_mono _ _ Hfg c) as Hm. destruct (f c) as [r c1]. simpl in *.
    pose proof (cagr_mono _ _ (Hk r) c1). set_solver.
  - intros c d Hcd HT. pose proof (cagr_same _ _ Hfg c d Hcd) as Hs.
    destruct (f c) as [r c1], (g d) as [r' d1]. simpl in *.
    pose proof (cagr_mono _ _ (Hk r) c1) as Hm. destruct Hs as [<- Ha]; [set_solver|].
    by apply (cagr_same _ _ (Hk r)).
Qed.

Lemma agrees_run (p : prog) : ctx_agrees (run p) (run p).
Proof.
  induction p as [r|k cont IH|k v cont IH|k cont IH|cont IH|cont IH|cont IH|id k cont IH|cont IH
    |cont IH|cont IH|cont IH|cont IH|cont IH|o1 o2 n IH|v n IH].
  - by split.
  - apply agrees_bind; [apply agrees_on_state, agrees_get|done].
  - apply agrees_bind; [apply agrees_on_state, agrees_update|done].
  - apply agrees_bind; [apply agrees_on_state, agrees_update|done].
  - apply agrees_bind; [apply agrees_on_state, agrees_begin|done].
  - apply agrees_bind; [apply agrees_on_state, agrees_commit|done].
  - apply agrees_bind; [apply agrees_on_state, agrees_rollback|done].
  - apply agrees_bind; [apply agrees_external_get|done].
  - apply agrees_bind; [apply agrees_state_view|done].
  - split; simpl; [intros c; apply IH|]. intros c d Hcd. rewrite <- (rel_sender _ _ _ _ Hcd). by apply IH.
  - split; simpl; [intros c; apply IH|]. intros c d Hcd. rewrite <- (rel_domain _ _ _ _ Hcd). by apply IH.
  - split; simpl; [intros c; apply IH|]. intros c d Hcd. rewrite <- (rel_owner _ _ _ _ Hcd). by apply IH.
  - split; simpl; [intros c; apply IH|]. intros c d Hcd. rewrite <- (rel_controller _ _ _ _ Hcd). by apply IH.
  - split; simpl; [intros c; apply IH|]. intros c d Hcd. rewrite <- (rel_valid _ _ _ _ Hcd). by apply IH.
  - split; simpl; [intros c; apply (cagr_mono _ _ IH (set_ownership c o1 o2))|].
    intros c d Hcd. apply IH. destruct Hcd. by split.
  - split; simpl; [intros c; apply (cagr_mono _ _ IH (constrain_valid_until c v))|].
    intros c d Hcd. apply IH. destruct Hcd. split; try done. simpl. by rewrite rel_valid.
Qed.
End Sufficiency.

(** A transaction never changes its base. *)
Lemma tx_base_kept `{Trie} full : ops_keep (fun s => StateTransaction.base s = full).
Proof.
  split; repeat intro; simpl.
  - unfold StateTransaction.get. by case_match.
  - unfold StateTransaction.update. by case_match.
  - unfold StateTransaction.update. by case_match.
  - done.
  - unfold StateTransaction.commit_transaction. by case_match.
  - unfold StateTransaction.rollback_transaction. by case_match.
Qed.

(** ** Writes are touched keys *)

Definition layer_in (T : gset bytes) (l : layer) : Prop := forall k x, l !! k = Some x -> k ∈ T.
Definition overlay_in (T : gset bytes) (o : Overlay.t) : Prop :=
  layer_in T (Overlay.writes o) /\ Forall (layer_in T) (Overlay.transactions o).

Lemma layer_in_empty T : layer_in T ∅.
Proof. intros k x Hk. by rewrite lookup_empty in Hk. Qed.

Lemma layer_in_insert T k x l : k ∈ T -> layer_in T l -> layer_in T (<[k := x]> l).
Proof. intros Hk Hl j y [[<- _]|[_ Hj]]%lookup_insert_Some; [done|by eapply Hl]. Qed.

Lemma layer_in_union T l l' : layer_in T l -> layer_in T l' -> layer_in T (l ∪ l').
Proof. intros Hl Hl' k x [Hk|[_ Hk]]%lookup_union_Some_raw; [by eapply Hl|by eapply Hl']. Qed.

Lemma layer_in_mono T T' l : T ⊆ T' -> layer_in T l -> layer_in T' l.
Proof. intros HT Hl k x Hk. apply HT. by eapply Hl. Qed.

Lemma overlay_in_touch T k o : overlay_in T o -> overlay_in ({[k]} ∪ T) o.
Proof.
  assert (T ⊆ {[k]} ∪ T) as HT by apply union_subseteq_r. intros [Hw Ht].
  split; [by eapply layer_in_mono|]. eapply Forall_impl; [exact Ht|]. intros l. by apply layer_in_mono.
Qed.

Lemma overlay_in_put T k x o : k ∈ T -> overlay_in T o -> overlay_in T (Overlay.put o k x).
Proof.
  intros Hk [Hw Ht]. unfold Overlay.put. destruct (Overlay.transactions o) as [|top rest].
  - split; [by apply layer_in_insert|constructor].
  - apply Forall_cons in Ht as [Htop Hrest]. split; [done|]. constructor; [by apply layer_in_insert|done].
Qed.

Lemma overlay_in_commit T o : overlay_in T o -> overlay_in T (Overlay.commit_transaction o).2.
Proof.
  intros [Hw Ht]. unfold Overlay.commit_transaction.
  destruct (Overlay.transactions o) as [|changes [|parent rest]] eqn:Heq; simpl.
  - split; [done|by rewrite Heq].
  - apply Forall_cons in Ht as [Hc _]. split; [by apply layer_in_union|constructor].
  - apply Forall_cons in Ht as [Hc [Hp Hr]%Forall_cons]. split; [done|].
    constructor; [by apply layer_in_union|done].
Qed.

Lemma overlay_in_rollback T o : overlay_in T o -> overlay_in T (Overlay.rollback_transaction o).2.
Proof.
  intros [Hw Ht]. unfold Overlay.rollback_transaction.
  destruct (Overlay.transactions o) as [|top rest] eqn:Heq; simpl; [split; [done|by rewrite Heq]|].
  apply Forall_cons in Ht as [_ Hr]. by split.
Qed.

(** Every key a transaction has written is in its touched set. *)
Definition writes_touched `{Trie} (s : StateTransaction.t) : Prop :=
  overlay_in (StateTransaction.touched s) (StateTransaction.overlay s).

Lemma tx_writes_touched `{Trie} : ops_keep writes_touched.
Proof.
  assert (forall k x, keeps writes_touched (StateTransaction.update k x)) as Hupdate.
  { intros k x s Hs. unfold StateTransaction.update. case_match; [done|].
    unfold writes_touched. simpl. apply overlay_in_put; [|by apply overlay_in_touch].
    apply elem_of_union_l, elem_of_singleton_2. done. }
  split; repeat intro; simpl; try (by apply Hupdate).
  - unfold StateTransaction.get. case_match; [done|]. by apply overlay_in_touch.
  - destruct H0 as [Hw Ht]. split; [done|]. constructor; [apply layer_in_empty|done].
  - unfold StateTransaction.commit_transaction. pose proof (overlay_in_commit _ _ H0).
    by destruct (Overlay.commit_transaction (StateTransaction.overlay s)).
  - unfold StateTransaction.rollback_transaction. pose proof (overlay_in_rollback _ _ H0).
    by destruct (Overlay.rollback_transaction (StateTransaction.overlay s)).
Qed.

(** Insertions at covered paths go through. *)
Lemma insertions_apply `{TrieLaws} cs : forall t,
  Forall (fun c => value c <> None /\ on_path t (key c)) cs ->
  exists t', rfold mut_apply t cs = Ok t'.
Proof.
  induction cs as [|c cs IH]; intros t Hcs; simpl; [by eauto|].
  apply Forall_cons in Hcs as [[Hv Hp] Hcs]. unfold mut_apply at 1.
  destruct (value c) as [v|]; [|done]. destruct (insert_on_path t (key c) v Hp) as (t' & -> & Hpath).
  simpl. apply IH. eapply Forall_impl; [exact Hcs|]. intros d [Hd Hdp]. auto.
Qed.

Lemma finish_with_proof_inv `{Trie} s next diff proof :
  StateTransaction.finish_with_proof s = Ok (next, diff, proof) ->
  Overlay.transactions (StateTransaction.overlay s) = [] /\
  diff = StateDiff.mk (layer_changes (Overlay.writes (StateTransaction.overlay s))) /\
  proof = recorded_nodes (FullState.db (StateTransaction.base s)) (FullState.root (StateTransaction.base s))
    (sort_by_key id (elements (StateTransaction.touched s))).
Proof.
  unfold StateTransaction.finish_with_proof, FullState.proof_for. intros Hf.
  apply bail_if_Ok in Hf as [Ht Hf]. apply rbind_Ok in Hf as (p & Hp & Hf).
  apply rbind_Ok in Hp as (u & _ & [= <-]). cbv zeta in Hf. apply rbind_Ok in Hf as (n & _ & [= <- <- <-]).
  by destruct (Overlay.transactions _).
Qed.

(** A program run by the host over a transaction on the full state, and by the
    guest over a proof-backed state: the context calls are the same. *)
Definition execute {S E : Type} `{ManagedStateAccess S} `{ExternalStateAccess E} (state : S) (plan : AccessPlan.t)
    (external : E) (network_domain : bytes) (p : prog) : result unit StateAccessError * context S E :=
  run p (with_access_plan_and_external_state state None plan external network_domain).

(** The guest side of the simulation. *)
Lemma guest_agrees `{TrieLaws} {E} `{ExternalStateAccess E} (m : kv) (full : FullState.t)
    (p : prog) (plan : AccessPlan.t) (external : E) (network_domain : bytes)
    r (c : context StateTransaction.t E) next diff proof (guest : ProofState.t) :
  FullState.rep full m ->
  execute (StateTransaction.new full) plan external network_domain p = (r, c) ->
  StateTransaction.finish_with_proof (cx_state c) = Ok (next, diff, proof) ->
  ProofState.from_witness (root_of m) proof = Ok guest ->
  exists d, execute guest plan external network_domain p = (r, d)
    /\ ProofState.overlay (cx_state d) = StateTransaction.overlay (cx_state c)
    /\ ProofState.db (cx_state d) = proof_into_db proof /\ ProofState.root (cx_state d) = root_of m
    /\ FullState.rep next (apply_changes (StateDiff.changes diff) m)
    /\ forall root diff', ProofState.finish (cx_state d) = Ok (root, diff') ->
         diff' = diff /\ root = FullState.root next.
Proof.
  unfold execute. intros Hrep Hrun Hfin Hguest.
  assert (forall s, tx_sim m s (Snapshots.of_overlay m (StateTransaction.overlay s)) <->
    FullState.rep (StateTransaction.base s) m) as Hts by (intros s; unfold tx_sim; naive_solver).
  set (T := StateTransaction.touched (cx_state c)).
  assert (StateTransaction.base (cx_state c) = full) as Hbase.
  { pose proof (run_keeps _ (tx_base_kept full) p (with_access_plan_and_external_state
      (StateTransaction.new full) None plan external network_domain) eq_refl) as Hb.
    by rewrite Hrun in Hb. }
  assert (Snapshots.saved (Snapshots.of_overlay m (StateTransaction.overlay (cx_state c))) = []) as Hsaved.
  { unfold StateTransaction.finish_with_proof in Hfin. simpl.
    by destruct (Overlay.transactions (StateTransaction.overlay (cx_state c))). }
  destruct (tx_finish m (cx_state c) _ (proj2 (Hts _) ltac:(by rewrite Hbase)) Hsaved)
    as (next' & diff' & proof' & Hfin' & Hnext & Happly & _ & Hcover).
  rewrite Hfin in Hfin'. injection Hfin' as <- <- <-.
  assert (agree m proof (StateTransaction.new full) guest) as Hag.
  { unfold ProofState.from_witness in Hguest. result_inv. by split. }
  destruct (cagr_same _ _ _ _ _ (agrees_run m T proof Hcover p)
    (with_access_plan_and_external_state (StateTransaction.new full) None plan external network_domain)
    (with_access_plan_and_external_state guest None plan external network_domain)) as [Hr Hc].
  { by split. }
  { rewrite Hrun. done. }
  rewrite Hrun in Hr, Hc. cbn [fst snd] in Hr, Hc.
  destruct (run p (with_access_plan_and_external_state guest None plan external network_domain))
    as [r' d]. cbn [fst snd] in Hr, Hc. subst r'.
  exists d. pose proof (rel_state _ _ _ _ Hc) as [_ Hdb Hroot Hcache Hover].
  do 4 (split; [done|]). split; [by rewrite Happly|]. intros root diff' Hf.
  assert (ps_sim m (cx_state d) (Snapshots.of_overlay m (ProofState.overlay (cx_state d)))) as Hps.
  { split; [by eexists|]. done. }
  destruct (ps_finish _ _ _ _ _ Hps Hf) as (_ & -> & -> & _).
  unfold StateTransaction.finish_with_proof in Hfin. result_inv1. apply rbind_Ok in Hfin as (? & _ & Hfin).
  apply rbind_Ok in Hfin as (? & _ & [= <- <- <-]). rewrite Hover. split; [done|].
  destruct Hnext as [_ ->]. done.
Qed.

(** The proof of a transaction that touched a key opens. *)
Lemma guest_opens `{TrieLaws} m s next diff proof :
  FullState.rep (StateTransaction.base s) m ->
  StateTransaction.finish_with_proof s = Ok (next, diff, proof) ->
  StateTransaction.touched s <> ∅ -> m !! [] = None ->
  is_ok (ProofState.from_witness (root_of m) proof) = true.
Proof.
  intros [Hc Hr] (_ & _ & ->)%finish_with_proof_inv HT Hm. rewrite Hr. unfold ProofState.from_witness.
  rewrite (recorded_opens _ m); [done|done| |done]. intros Hnil. apply HT. apply leibniz_equiv.
  apply elements_empty_iff, length_zero_iff_nil.
  by rewrite <- (Permutation_length (sort_by_key_perm id _)), Hnil.
Qed.

(** A guest whose writes are all insertions of touched keys finishes. *)
Lemma guest_finishes `{TrieLaws} m s (t : ProofState.t) next diff proof :
  FullState.rep (StateTransaction.base s) m -> writes_touched s ->
  StateTransaction.finish_with_proof s = Ok (next, diff, proof) ->
  ProofState.db t = proof_into_db proof -> ProofState.root t = root_of m ->
  ProofState.overlay t = StateTransaction.overlay s ->
  Forall (fun c => value c <> None) (StateDiff.changes diff) ->
  is_ok (ProofState.finish t) = true.
Proof.
  intros [Hc Hr] [Hw _] (Ht & -> & ->)%finish_with_proof_inv Hdb Hroot Hov Hins.
  unfold ProofState.finish. rewrite Hov, Ht, Hdb, Hroot, Hr. simpl in *.
  set (cs := layer_changes _) in *. set (tr := trie_open _ _).
  destruct (insertions_apply cs tr) as (t' & Ht').
  - apply Forall_forall. intros c Hin. rewrite Forall_forall in Hins. split; [by apply Hins|].
    apply recorded_on_path; [done|]. rewrite sort_by_key_perm. apply elem_of_elements.
    destruct c as [k x]. apply elem_of_layer_changes in Hin. by eapply Hw.
  - destruct cs as [|c cs']; [done|]. simpl in Ht'. by rewrite Ht'.
Qed.

(** C2: a proof of the touched keys is enough.  Run any program over a transaction
    on a full state that holds [m] and finish it: the transaction returns the
    new state (holding the current map), the sorted diff and a proof.  If any
    key was touched (and no value sits under the empty key) the proof opens
    under the root of [m].  The guest it opens to runs the same program to the
    same answer and ends with the same writes and open transactions; what its
    own finish returns is the same diff and the root of the host's new state,
    and that finish succeeds whenever the program deleted nothing. *)
Theorem recorded_proof_suffices `{TrieLaws} {E} `{ExternalStateAccess E} (m : kv) (full : FullState.t)
    (p : prog) (plan : AccessPlan.t) (external : E) (network_domain : bytes)
    r (c : context StateTransaction.t E) next diff proof :
  FullState.rep full m ->
  execute (StateTransaction.new full) plan external network_domain p = (r, c) ->
  StateTransaction.finish_with_proof (cx_state c) = Ok (next, diff, proof) ->
  (StateTransaction.touched (cx_state c) <> ∅ -> m !! [] = None ->
   is_ok (ProofState.from_witness (root_of m) proof) = true) /\
  forall guest, ProofState.from_witness (root_of m) proof = Ok guest ->
  exists d, execute guest plan external network_domain p = (r, d)
    /\ ProofState.overlay (cx_state d) = StateTransaction.overlay (cx_state c)
    /\ FullState.rep next (apply_changes (StateDiff.changes diff) m)
    /\ (forall root diff', ProofState.finish (cx_state d) = Ok (root, diff') ->
          diff' = diff /\ root = FullState.root next)
    /\ (Forall (fun c => value c <> None) (StateDiff.changes diff) ->
          is_ok (ProofState.finish (cx_state d)) = true).
Proof.
  intros Hrep Hrun Hfin. pose proof Hrun as Hrun'. unfold execute in Hrun'.
  assert (StateTransaction.base (cx_state c) = full) as Hbase.
  { pose proof (run_keeps _ (tx_base_kept full) p (with_access_plan_and_external_state
      (StateTransaction.new full) None plan external network_domain) eq_refl) as Hb.
    by rewrite Hrun' in Hb. }
  assert (writes_touched (cx_state c)) as Hwt.
  { pose proof (run_keeps _ tx_writes_touched p (with_access_plan_and_external_state
      (StateTransaction.new full) None plan external network_domain)) as Hb.
    rewrite Hrun' in Hb. apply Hb. split; [apply layer_in_empty|constructor]. }
  rewrite <- Hbase in Hrep. split; [by eapply guest_opens|]. intros guest Hguest.
  rewrite Hbase in Hrep.
  destruct (guest_agrees m full p plan external network_domain r c next diff proof guest Hrep Hrun Hfin Hguest)
    as (d & Hd & Hov & Hdb & Hroot & Hn & Hf).
  exists d. do 4 (split; [done|]). intros Hins. rewrite <- Hbase in Hrep. by eapply guest_finishes.
Qed.

Definition nothing_external : ExternalStateAccess unit := fun _ _ e => (Err SA_Backend, e).
(** Read a key, write another one in a nested transaction, delete a third. *)
Definition sample_program : prog :=
  Get [x01; x01] (fun _ => Begin (fun _ => SetKey [x01; x02] [x07] (fun _ => Commit (fun _ =>
    Delete [x01; x03] (fun r => Return r))))).

Definition sample_full : FullState.t := FullState.mk None (model_root {[ [x01; x01] := [x05] ]}).
Definition sample_context : context StateTransaction.t unit :=
  with_access_plan_and_external_state (StateTransaction.new sample_full) None (AccessPlan.mk x01 []) tt [].
Definition proof_of (r : result (FullState.t * StateDiff.t * list bytes) StateError) : list bytes :=
  match r with Ok (_, _, proof) => proof | Err _ => [] end.

Lemma recorded_proof_suffices_witness :
  exists guest d,
    ProofState.from_witness (model_root {[ [x01; x01] := [x05] ]}) [[x01; x01]; [x01; x02]; [x01; x03]] = Ok guest
    /\ @run _ _ _ nothing_external sample_program
         (with_access_plan_and_external_state guest None (AccessPlan.mk x01 []) tt []) = (Ok tt, d)
    /\ Overlay.writes (ProofState.overlay (cx_state d)) !! [x01; x02] = Some (Some [x07]).
Proof.
  destruct (@run _ _ _ nothing_external sample_program sample_context) as [r c] eqn:Hrun.
  assert (r = Ok tt) as ->.
  { change r with (fst (r, c)). rewrite <- Hrun. vm_compute. reflexivity. }
  assert (c = (@run _ _ _ nothing_external sample_program sample_context).2) as Hc by (by rewrite Hrun).
  destruct (StateTransaction.finish_with_proof (cx_state c)) as [[[next diff] proof]|] eqn:Hfin.
  2: { exfalso. assert (is_ok (StateTransaction.finish_with_proof (cx_state c)) = true) as Hok;
         [rewrite Hc; vm_compute; reflexivity|]. by rewrite Hfin in Hok. }
  assert (proof = [[x01; x01]; [x01; x02]; [x01; x03]]) as ->.
  { change proof with (proof_of (Ok (next, diff, proof))). rewrite <- Hfin, Hc. vm_compute. reflexivity. }
  destruct (ProofState.from_witness (model_root {[ [x01; x01] := [x05] ]})
    [[x01; x01]; [x01; x02]; [x01; x03]]) as [guest|] eqn:Hguest.
  2: { exfalso. assert (is_ok (ProofState.from_witness (model_root {[ [x01; x01] := [x05] ]})
         [[x01; x01]; [x01; x02]; [x01; x03]]) = true) as Hok; [vm_compute; reflexivity|].
       by rewrite Hguest in Hok. }
  destruct (@recorded_proof_suffices _ _ _ nothing_external {[ [x01; x01] := [x05] ]} sample_full
    sample_program (AccessPlan.mk x01 []) tt [] (Ok tt) c next diff [[x01; x01]; [x01; x02]; [x01; x03]])
    as [_ Hall]; [split; reflexivity|exact Hrun|exact Hfin|].
  destruct (Hall guest Hguest) as (d & Hd & Ho & _).
  exists guest, d. split; [reflexivity|]. split; [exact Hd|].
  rewrite Ho, Hc. vm_compute. reflexivity.
Defined.
