(* ===== verification/Provider.v ===== *)
(** * The host's state provider ([service-runtime-host])

    [HostStateSession] (one host execution and its recorded proof) and
    [FullStateProvider]: full states by service and root, the canonical
    ("materialized") root of each service, and two bounded histories: the roots
    that were canonical, and the snapshots of predictions that may never be. *)

From S2P Require Import Prelude Ordering Reader Wire ServiceKeys StateView StateDiff Records Witness Dependencies RefineOutput State Overlays ModelTrie.

Inductive ProviderError :=
| PE_State (error : StateError)
| PE_UnavailableRoot
| PE_InvalidRecovery
| PE_MalformedResponse.

(** ** [HostStateSession] *)

Module HostStateSession.
Section Ops.
Context `{Trie}.

Record t := mk {
  service_key : bytes; parent_root : bytes; transaction : StateTransaction.t;
  proof : option (list bytes)
}.

Record prepared := mkPrepared {
  pt_service_key : bytes; pt_parent_root : bytes; pt_new_root : bytes; pt_diff : StateDiff.t;
  pt_witness : list bytes
}.

Definition open (service_key parent_root : bytes) (state : FullState.t) : result t StateError :=
  bail_if negb (bool_decide (FullState.root state = parent_root)) with SE_InvalidRoot ;;
  Ok (mk service_key parent_root (StateTransaction.new state) None).

Definition record_proof (s : t) (proof : list bytes) : t :=
  mk (service_key s) (parent_root s) (transaction s) (Some proof).

Definition finish (s : t) : result prepared StateError :=
  let? '(state, diff, recorded_proof) := StateTransaction.finish_with_proof (transaction s) in
  Ok (mkPrepared (service_key s) (parent_root s) (FullState.root state) diff
        (default recorded_proof (proof s))).
End Ops.
End HostStateSession.

(** ** Recovery payloads

    The check every consumer of a published output repeats before it trusts the
    diff: the payload decodes and is the one the output commits to. *)
Definition checked_recovery `{Blake2} {E} (invalid : E) (output : RefineOutput.t)
    : result StateRecovery.t E :=
  let? recovery := map_err (fun _ => invalid) (StateRecovery.decode (RefineOutput.recovery_payload output)) in
  let? commitment := map_err (fun _ => invalid) (StateRecovery.commitment recovery) in
  bail_if negb (bool_decide (commitment = RefineOutput.recovery_commitment output)) with invalid ;;
  Ok recovery.

(** ** [FullStateProvider] *)

Definition MAX_MATERIALIZED_ROOTS_PER_SERVICE : Z := 8.

(** [StateQueryResponseV1]. *)
Record StateQueryResponse := mkQueryResponse {
  qr_service_key : bytes; qr_state_root : bytes; qr_key : bytes; qr_value : option bytes;
  qr_proof : list bytes
}.

Module FullStateProvider.
Section Ops.
Context `{Blake2} `{Trie}.

Record t := mk {
  states : gmap bytes (gmap bytes FullState.t);
  materialized : gmap bytes bytes;
  history : gmap bytes (list bytes);
  snapshot_history : gmap bytes (list bytes)
}.

Definition default_ : t := mk ∅ ∅ ∅ ∅.

Definition state_at (p : t) (service root : bytes) : result FullState.t ProviderError :=
  if bool_decide (root = EMPTY_STATE_ROOT_V1) then Ok FullState.empty
  else ok_or (states p !! service ≫= fun states => states !! root) PE_UnavailableRoot.

Definition open := state_at.

Definition contains_root (p : t) (service root : bytes) : bool :=
  bool_decide (root = EMPTY_STATE_ROOT_V1)
  || match states p !! service with
     | Some states => bool_decide (is_Some (states !! root))
     | None => false
     end.

(** [while history.len() > MAX { let evicted = history.remove(0); .. }]: the
    oldest roots leave, and their states unless [keep] says otherwise. *)
Fixpoint evict (keep : bytes -> bool) (history : list bytes) (states : gmap bytes FullState.t)
    : list bytes * gmap bytes FullState.t :=
  match history with
  | [] => ([], states)
  | evicted :: rest =>
      if blen history >? MAX_MATERIALIZED_ROOTS_PER_SERVICE then
        evict keep rest (if keep evicted then states else delete evicted states)
      else (history, states)
  end.

Definition remember (root : bytes) (history : list bytes) : list bytes :=
  if bool_decide (root ∈ history) then history else history ++ [root].

Definition insert (service : bytes) (state : FullState.t) (p : t) : bytes * t :=
  let root := FullState.root state in
  let stored := <[root := state]> (default ∅ (states p !! service)) in
  let '(kept, stored) :=
    evict (fun evicted => bool_decide (evicted = root))
      (remember root (default [] (history p !! service))) stored in
  (root, mk (<[service := stored]> (states p)) (<[service := root]> (materialized p))
           (<[service := kept]> (history p)) (snapshot_history p)).

Definition insert_snapshot (service : bytes) (state : FullState.t) (p : t) : bytes * t :=
  let root := FullState.root state in
  let stored := <[root := state]> (default ∅ (states p !! service)) in
  let '(kept, stored) :=
    evict (fun evicted => bool_decide (materialized p !! service = Some evicted)
                          || bool_decide (evicted ∈ default [] (history p !! service)))
      (remember root (default [] (snapshot_history p !! service))) stored in
  (root, mk (<[service := stored]> (states p)) (materialized p) (history p)
           (<[service := kept]> (snapshot_history p))).

Definition value_at (p : t) (service root k : bytes) : result (option bytes) ProviderError :=
  let? state := state_at p service root in
  map_err PE_State (FullState.get state k).

Definition build_witness (p : t) (service root : bytes) (plan : AccessPlan.t)
    : result StateWitness.t ProviderError :=
  let? state := state_at p service root in
  let? proof := map_err PE_State (FullState.proof_for state (AccessPlan.keys plan)) in
  Ok (StateWitness.mk StateWitness.VERSION root plan proof).

Definition get (p : t) (service root k : bytes) : result StateQueryResponse ProviderError :=
  let? state := state_at p service root in
  let? value := map_err PE_State (FullState.get state k) in
  let? proof := map_err PE_State (FullState.proof_for state [k]) in
  Ok (mkQueryResponse service root k value proof).

Definition materialized_root (p : t) (service : bytes) : bytes :=
  default EMPTY_STATE_ROOT_V1 (materialized p !! service).

Definition apply_recovery (service : bytes) (output : RefineOutput.t) (p : t)
    : result unit ProviderError * t :=
  let next :=
    let? recovery := checked_recovery PE_InvalidRecovery output in
    let? state := state_at p service (RefineOutput.parent_root output) in
    let? next := map_err PE_State (FullState.apply_diff state (StateRecovery.diff recovery)) in
    bail_if negb (bool_decide (FullState.root next = RefineOutput.new_root output)) with PE_InvalidRecovery ;;
    Ok next in
  match next with
  | Err e => (Err e, p)
  | Ok next =>
      (Ok tt,
       mk (<[service := <[RefineOutput.new_root output := next]> (default ∅ (states p !! service))]> (states p))
          (<[service := RefineOutput.new_root output]> (materialized p)) (history p) (snapshot_history p))
  end.
End Ops.

Section Laws.
Context `{Blake2} `{TrieLaws}.
Implicit Types (p : t) (service root : bytes).

(** *** Eviction *)

Lemma evict_spec keep h : forall sts,
  exists gone, h = gone ++ (evict keep h sts).1
    /\ blen (evict keep h sts).1 <= MAX_MATERIALIZED_ROOTS_PER_SERVICE
    /\ (forall r, r ∉ gone \/ keep r = true -> (evict keep h sts).2 !! r = sts !! r)
    /\ (forall r st, (evict keep h sts).2 !! r = Some st -> sts !! r = Some st).
Proof.
  induction h as [|e h IH]; intros sts; cbn [evict].
  - exists []. simpl. done.
  - destruct (Z.gtb_spec (blen (e :: h)) MAX_MATERIALIZED_ROOTS_PER_SERVICE) as [Hgt|Hle].
    + destruct (IH (if keep e then sts else delete e sts)) as (gone & Hh & Hlen & Hkeep & Hsub).
      exists (e :: gone). split; [by rewrite Hh at 1|]. split; [done|]. split.
      * intros r Hr. rewrite Hkeep by (destruct Hr as [Hr|Hr]; [left; set_solver|by right]).
        destruct (keep e) eqn:He; [done|]. apply lookup_delete_ne. intros ->. destruct Hr as [Hr|Hr]; [set_solver|congruence].
      * intros r st Hr. apply Hsub in Hr. destruct (keep e); [done|].
        by apply lookup_delete_Some in Hr as [_ ?].
    + exists []. simpl. done.
Qed.

Lemma remember_spec root h :
  root ∈ remember root h /\ (forall r, r ∈ remember root h <-> r = root \/ r ∈ h)
  /\ (NoDup h -> NoDup (remember root h)).
Proof.
  unfold remember. case_bool_decide as Hin.
  - split; [done|]. split; [|done]. intros r. naive_solver.
  - split; [set_solver|]. split; [set_solver|]. intros Hnd. apply NoDup_app. split; [done|].
    split; [set_solver|]. apply NoDup_singleton.
Qed.

(** *** The invariant *)

(** A stored state is filed under its own root and holds some map. *)
Definition addressed (sts : gmap bytes FullState.t) : Prop :=
  forall root st, sts !! root = Some st -> FullState.root st = root /\ exists m, FullState.rep st m.

Definition stored p service root : Prop :=
  exists sts st, states p !! service = Some sts /\ sts !! root = Some st.

Definition bounded (h : list bytes) : Prop :=
  blen h <= MAX_MATERIALIZED_ROOTS_PER_SERVICE /\ NoDup h.

Record ok p : Prop := {
  ok_addressed service sts : states p !! service = Some sts -> addressed sts;
  ok_materialized service root : materialized p !! service = Some root -> stored p service root;
  ok_history service h : history p !! service = Some h -> bounded h /\ Forall (stored p service) h;
  ok_snapshots service h : snapshot_history p !! service = Some h -> bounded h
}.

Lemma default_ok : ok default_.
Proof. split; intros; simpl in *; by rewrite lookup_empty in *. Qed.

Lemma addressed_default p service : ok p -> addressed (default ∅ (states p !! service)).
Proof.
  intros Hp. destruct (states p !! service) as [sts|] eqn:Hs; simpl; [by eapply ok_addressed|].
  intros r st. by rewrite lookup_empty.
Qed.

Lemma addressed_insert sts st m :
  addressed sts -> FullState.rep st m -> addressed (<[FullState.root st := st]> sts).
Proof.
  intros Hs Hm r st'. destruct (decide (r = FullState.root st)) as [->|].
  - rewrite lookup_insert_eq. intros [= <-]. eauto.
  - rewrite lookup_insert_ne by done. apply Hs.
Qed.

(** Replacing the states of one service by others that keep the wanted roots. *)
Lemma stored_replace p mat hist snap service sts service' root :
  stored p service' root ->
  (service' = service -> is_Some (sts !! root)) ->
  stored (mk (<[service := sts]> (states p)) mat hist snap) service' root.
Proof.
  intros (sts' & st & Hs & Hst) Hkeep. unfold stored. simpl. destruct (decide (service' = service)) as [->|Hne].
  - destruct (Hkeep eq_refl) as [st' Hst']. exists sts, st'. by rewrite lookup_insert_eq.
  - exists sts', st. by rewrite lookup_insert_ne.
Qed.
(** What filing [st] and evicting the oldest roots of a history leaves. *)
Lemma file_spec keep p service st m h :
  ok p -> FullState.rep st m -> NoDup h ->
  let root := FullState.root st in
  let '(kept, sts) := evict keep (remember root h) (<[root := st]> (default ∅ (states p !! service))) in
  bounded kept /\ addressed sts
  /\ (forall r, r ∈ kept -> r = root \/ r ∈ h)
  /\ (keep root = true -> sts !! root = Some st)
  /\ (forall r, stored p service r -> r ∈ kept \/ keep r = true \/ r ∉ remember root h -> is_Some (sts !! r)).
Proof.
  intros Hp Hm Hnd root. destruct (remember_spec root h) as (Hroot & Hin & Hnd').
  specialize (Hnd' Hnd).
  set (sts0 := <[root := st]> (default ∅ (states p !! service))).
  destruct (evict_spec keep (remember root h) sts0) as (gone & Hh & Hlen & Hkeep & Hsub).
  destruct (evict keep (remember root h) sts0) as [kept sts]. simpl in *.
  assert (forall r, r ∈ kept -> r ∉ gone) as Hdisj.
  { rewrite Hh in Hnd'. apply NoDup_app in Hnd' as (_ & Hd & _). intros r Hk Hg. by apply (Hd r). }
  split; [split; [done|rewrite Hh in Hnd'; by apply NoDup_app in Hnd' as (_ & _ & ?)]|].
  split.
  { intros r st' Hr. apply Hsub in Hr. revert Hr. by eapply addressed_insert; [apply addressed_default|]. }
  split; [intros r Hr; apply Hin; rewrite Hh; set_solver|]. split.
  { intros Hk. rewrite Hkeep by (by right). unfold sts0. apply lookup_insert_eq. }
  intros r (sts' & st' & Hs' & Hst') Hr. rewrite Hkeep.
  - unfold sts0. rewrite Hs'. simpl. destruct (decide (r = root)) as [->|].
    + rewrite lookup_insert_eq. eauto.
    + rewrite lookup_insert_ne by done. eauto.
  - destruct Hr as [Hr|[Hr|Hr]]; [left; by apply Hdisj|by right|left]. intros Hg. apply Hr. rewrite Hh. set_solver.
Qed.

Lemma history_nodup p service : ok p -> NoDup (default [] (history p !! service)).
Proof.
  intros Hp. destruct (history p !! service) as [h|] eqn:Hh; simpl; [|constructor].
  by destruct (ok_history p Hp service h Hh) as [[_ ?] _].
Qed.

Lemma snapshots_nodup p service : ok p -> NoDup (default [] (snapshot_history p !! service)).
Proof.
  intros Hp. destruct (snapshot_history p !! service) as [h|] eqn:Hh; simpl; [|constructor].
  by destruct (ok_snapshots p Hp service h Hh) as [_ ?].
Qed.

Lemma insert_ok p service st m : ok p -> FullState.rep st m -> ok (insert service st p).2.
Proof.
  intros Hp Hm. unfold insert.
  pose proof (file_spec (fun e => bool_decide (e = FullState.root st)) p service st m
    (default [] (history p !! service)) Hp Hm (history_nodup p service Hp)) as Hf. cbv zeta in Hf.
  destruct (evict _ _ _) as [kept sts]. simpl. destruct Hf as (Hb & Ha & Hk & Hr & Hs).
  rewrite bool_decide_eq_true_2 in Hr by done. specialize (Hr eq_refl).
  assert (forall service' r, stored p service' r -> (service' = service -> r ∈ kept \/ r = FullState.root st) ->
    stored (mk (<[service := sts]> (states p)) (<[service := FullState.root st]> (materialized p))
              (<[service := kept]> (history p)) (snapshot_history p)) service' r) as Hst.
  { intros s' r Hs' Hcase. apply stored_replace; [done|]. intros ->. apply Hs; [done|].
    destruct (Hcase eq_refl) as [?| ->]; [by left|right; left; by apply bool_decide_eq_true_2]. }
  split; simpl.
  - intros s' x. destruct (decide (s' = service)) as [->|]; [rewrite lookup_insert_eq; by intros [= <-]|].
    rewrite lookup_insert_ne by done. by apply ok_addressed.
  - intros s' r. destruct (decide (s' = service)) as [->|].
    + rewrite lookup_insert_eq. intros [= <-]. exists sts, st. simpl. by rewrite lookup_insert_eq.
    + rewrite lookup_insert_ne by done. intros Hm'. apply Hst; [by eapply ok_materialized|done].
  - intros s' h. destruct (decide (s' = service)) as [->|].
    + rewrite lookup_insert_eq. intros [= <-]. split; [done|]. apply Forall_forall. intros r Hin.
      destruct (Hk r Hin) as [->|Hold].
      { exists sts, st. simpl. by rewrite lookup_insert_eq. }
      apply Hst; [|by left]. destruct (history p !! service) as [h|] eqn:Hh; simpl in Hold; [|set_solver].
      destruct (ok_history p Hp service h Hh) as [_ Hf]. rewrite Forall_forall in Hf. by apply Hf.
    + rewrite lookup_insert_ne by done. intros Hh. destruct (ok_history p Hp s' h Hh) as [Hbd Hf].
      split; [done|]. eapply Forall_impl; [exact Hf|]. intros r Hr'. by apply Hst.
  - apply ok_snapshots, Hp.
Qed.

Lemma insert_snapshot_keeps p service st m service' root :
  ok p -> FullState.rep st m -> stored p service' root ->
  materialized p !! service' = Some root \/ root ∈ default [] (history p !! service') ->
  stored (insert_snapshot service st p).2 service' root.
Proof.
  intros Hp Hm Hst Hor. unfold insert_snapshot.
  set (keep := fun evicted => _).
  pose proof (file_spec keep p service st m (default [] (snapshot_history p !! service)) Hp Hm
    (snapshots_nodup p service Hp)) as Hf. cbv zeta in Hf.
  destruct (evict _ _ _) as [kept sts]. simpl. destruct Hf as (_ & _ & _ & _ & Hs).
  apply stored_replace; [done|]. intros ->. apply Hs; [done|]. right; left. unfold keep.
  apply orb_true_iff. destruct Hor as [Hor|Hor]; [left|right]; by apply bool_decide_eq_true_2.
Qed.

Lemma insert_snapshot_ok p service st m : ok p -> FullState.rep st m -> ok (insert_snapshot service st p).2.
Proof.
  intros Hp Hm. pose proof (insert_snapshot_keeps p service st m) as Hkeeps. unfold insert_snapshot in *.
  set (keep := fun evicted => _) in *.
  pose proof (file_spec keep p service st m (default [] (snapshot_history p !! service)) Hp Hm
    (snapshots_nodup p service Hp)) as Hf. cbv zeta in Hf.
  destruct (evict _ _ _) as [kept sts]. simpl in *. destruct Hf as (Hb & Ha & _).
  split; simpl.
  - intros s' x. destruct (decide (s' = service)) as [->|]; [rewrite lookup_insert_eq; by intros [= <-]|].
    rewrite lookup_insert_ne by done. by apply ok_addressed.
  - intros s' r Hr. apply Hkeeps; [done|done|by eapply ok_materialized|by left].
  - intros s' h Hh. destruct (ok_history p Hp s' h Hh) as [Hbd Hf]. split; [done|].
    rewrite Forall_forall in *. intros r Hin. apply Hkeeps; [done|done|by apply Hf|right]. by rewrite Hh.
  - intros s' h. destruct (decide (s' = service)) as [->|]; [rewrite lookup_insert_eq; by intros [= <-]|].
    rewrite lookup_insert_ne by done. by apply ok_snapshots.
Qed.
(** *** Answers *)

(** The provider can open [root] of [service], and it holds [m]. *)
Definition holds p service root (m : kv) : Prop :=
  exists st, state_at p service root = Ok st /\ FullState.rep st m.

Lemma state_at_root p service root st :
  ok p -> state_at p service root = Ok st -> FullState.root st = root /\ exists m, FullState.rep st m.
Proof.
  intros Hp. unfold state_at. case_bool_decide as He.
  - intros [= <-]. subst. split; [apply empty_root_v1|]. exists ∅. apply FullState.empty_rep.
  - intros Hs%ok_or_Ok. apply bind_Some in Hs as (sts & Hs & Hst). by eapply ok_addressed.
Qed.

Lemma holds_unique p service root m m' : ok p -> holds p service root m -> holds p service root m' -> m = m'.
Proof. intros _ (st & Hs & Hm) (st' & Hs' & Hm'). rewrite Hs in Hs'. injection Hs' as <-. by apply (FullState.rep_inj st m st m'). Qed.

Lemma holds_root p service root m : ok p -> holds p service root m -> root = root_of m.
Proof. intros Hp (st & Hs & Hm). apply state_at_root in Hs as [<- _]; [|done]. by destruct Hm. Qed.

Lemma stored_holds p service root : ok p -> stored p service root -> exists m, holds p service root m.
Proof.
  intros Hp (sts & st & Hs & Hst). unfold holds, state_at. case_bool_decide.
  - exists ∅, FullState.empty. split; [done|]. apply FullState.empty_rep.
  - destruct (ok_addressed p Hp service sts Hs root st Hst) as [_ [m Hm]]. exists m, st. rewrite Hs. simpl.
    by rewrite Hst.
Qed.

Lemma empty_holds p service : holds p service EMPTY_STATE_ROOT_V1 ∅.
Proof.
  exists FullState.empty. unfold state_at. rewrite bool_decide_eq_true_2 by done.
  split; [done|]. apply FullState.empty_rep.
Qed.

Lemma materialized_holds p service : ok p -> exists m, holds p service (materialized_root p service) m.
Proof.
  intros Hp. unfold materialized_root. destruct (materialized p !! service) as [r|] eqn:Hr; simpl.
  - apply stored_holds; [done|]. by eapply ok_materialized.
  - exists ∅. apply empty_holds.
Qed.

(** A root that stays stored keeps its map. *)
Lemma holds_stored p p' service root m :
  ok p -> ok p' -> holds p service root m -> (root <> EMPTY_STATE_ROOT_V1 -> stored p' service root) ->
  holds p' service root m.
Proof.
  intros Hp Hp' Hh Hst. destruct (decide (root = EMPTY_STATE_ROOT_V1)) as [->|Hne].
  { assert (m = ∅) as -> by (eapply holds_unique; [exact Hp|exact Hh|apply empty_holds]). apply empty_holds. }
  destruct (stored_holds p' service root Hp' (Hst Hne)) as [m' Hm'].
  assert (m' = m) as ->; [|done]. pose proof (holds_root _ _ _ _ Hp Hh) as Hr.
  pose proof (holds_root _ _ _ _ Hp' Hm') as Hr'. destruct Hm' as (st' & _ & [Hc' _]).
  eapply FullState.root_of_inj; [exact Hc'|congruence].
Qed.

Lemma holds_is_stored p service root m :
  holds p service root m -> root <> EMPTY_STATE_ROOT_V1 -> stored p service root.
Proof.
  intros (st & Hs & _) Hne. unfold state_at in Hs. rewrite bool_decide_eq_false_2 in Hs by done.
  apply ok_or_Ok, bind_Some in Hs as (sts & Hs & Hst). by exists sts, st.
Qed.

Lemma value_at_holds p service root m k : holds p service root m -> value_at p service root k = Ok (m !! k).
Proof. intros (st & Hs & Hm). unfold value_at. rewrite Hs. simpl. by rewrite (FullState.get_rep st m). Qed.

Lemma build_witness_holds p service root m plan :
  ok p -> holds p service root m ->
  exists w, build_witness p service root plan = Ok w /\ StateWitness.parent_root w = root_of m
    /\ StateWitness.version w = StateWitness.VERSION /\ StateWitness.access_plan w = plan
    /\ forall k, k ∈ AccessPlan.keys plan ->
         trie_get (proof_into_db (StateWitness.storage_proof w)) (root_of m) k = Some (m !! k).
Proof.
  intros Hp Hh. pose proof (holds_root _ _ _ _ Hp Hh) as Hr. destruct Hh as (st & Hs & Hm).
  unfold build_witness. rewrite Hs. cbn [rbind].
  destruct (FullState.proof_for_rep st m (AccessPlan.keys plan) Hm) as (nodes & -> & Hn). cbn [rbind map_err].
  eexists. split; [done|]. simpl. split; [done|]. split; [done|]. split; [done|].
  destruct Hm as [_ Hroot]. rewrite Hroot in Hn. done.
Qed.
(** An inserted state becomes the canonical one. *)
Lemma insert_holds p service st m :
  ok p -> FullState.rep st m ->
  let p' := (insert service st p).2 in
  materialized p' !! service = Some (FullState.root st)
  /\ materialized_root p' service = FullState.root st /\ holds p' service (FullState.root st) m.
Proof.
  intros Hp Hm p'. assert (ok p') as Hp' by (by eapply insert_ok).
  assert (materialized p' !! service = Some (FullState.root st)) as Hmat.
  { unfold p', insert. destruct (evict _ _ _). simpl. apply lookup_insert_eq. }
  split; [done|]. split; [unfold materialized_root; by rewrite Hmat|].
  destruct (stored_holds p' service (FullState.root st) Hp') as [m' Hm']; [by eapply ok_materialized|].
  pose proof (holds_root _ _ _ _ Hp' Hm') as Hr'. assert (m' = m) as ->; [|done].
  destruct Hm' as (st' & _ & [Hc' _]). eapply FullState.root_of_inj; [exact Hc'|].
  rewrite <- Hr'. by destruct Hm.
Qed.

(** Inserting a state of one service says nothing about the others. *)
Lemma insert_other p service st service' :
  service' <> service ->
  materialized_root (insert service st p).2 service' = materialized_root p service'
  /\ (forall root, state_at (insert service st p).2 service' root = state_at p service' root)
  /\ materialized (insert service st p).2 !! service' = materialized p !! service'.
Proof.
  intros Hne. unfold insert, materialized_root, state_at. destruct (evict _ _ _). simpl.
  rewrite !lookup_insert_ne by done. done.
Qed.

(** A snapshot moves no canonical root and hides no canonical map. *)
Lemma insert_snapshot_materialized p service st service' m m' :
  ok p -> FullState.rep st m ->
  materialized (insert_snapshot service st p).2 = materialized p
  /\ (holds p service' (materialized_root p service') m' ->
      holds (insert_snapshot service st p).2 service' (materialized_root p service') m').
Proof.
  intros Hp Hm. split; [unfold insert_snapshot; by destruct (evict _ _ _)|].
  intros Hh. eapply holds_stored; [exact Hp|by eapply insert_snapshot_ok|exact Hh|].
  intros Hne. eapply insert_snapshot_keeps; [done..|by eapply holds_is_stored|]. left.
  unfold materialized_root in *. by destruct (materialized p !! service').
Qed.

(** *** Recovery *)

Lemma checked_recovery_Ok {E} (e : E) (output : RefineOutput.t) r :
  checked_recovery e output = Ok r <->
  StateRecovery.decode (RefineOutput.recovery_payload output) = Ok r
  /\ blake2_256 (RefineOutput.recovery_payload output) = RefineOutput.recovery_commitment output.
Proof.
  unfold checked_recovery, StateRecovery.commitment. split.
  - intros Hr. apply rbind_Ok in Hr as (r' & Hd%map_err_Ok & Hr).
    rewrite (proj1 (StateRecovery.state_recovery_decode_iff _ _) Hd) in Hr. cbn [rbind map_err] in Hr.
    apply bail_if_Ok in Hr as [Hg [= ->]]. by to_prop.
  - intros [Hd Hc]. rewrite Hd. cbn [rbind map_err].
    rewrite (proj1 (StateRecovery.state_recovery_decode_iff _ _) Hd). cbn [rbind map_err].
    by rewrite bool_decide_eq_true_2.
Qed.

(** The conditions under which an output can be recovered on a provider. *)
Definition recovers p service (output : RefineOutput.t) (m : kv) : Prop :=
  exists r m0, StateRecovery.decode (RefineOutput.recovery_payload output) = Ok r
    /\ blake2_256 (RefineOutput.recovery_payload output) = RefineOutput.recovery_commitment output
    /\ holds p service (RefineOutput.parent_root output) m0
    /\ m = apply_changes (StateDiff.changes (StateRecovery.diff r)) m0
    /\ RefineOutput.new_root output = root_of m.

Lemma apply_recovery_spec p service (output : RefineOutput.t) :
  ok p ->
  match apply_recovery service output p with
  | (Ok _, p') => exists next m, FullState.rep next m /\ recovers p service output m
      /\ FullState.root next = RefineOutput.new_root output
      /\ p' = mk (<[service := <[RefineOutput.new_root output := next]> (default ∅ (states p !! service))]> (states p))
                (<[service := RefineOutput.new_root output]> (materialized p)) (history p) (snapshot_history p)
  | (Err _, p') => p' = p /\ forall m, ~ recovers p service output m
  end.
Proof.
  intros Hp. unfold apply_recovery.
  destruct (checked_recovery PE_InvalidRecovery output) as [r|e] eqn:Hr; cbn [rbind].
  2: { split; [done|]. intros m (r & m0 & Hd & Hc & _). by rewrite (proj2 (checked_recovery_Ok _ _ r)) in Hr. }
  apply checked_recovery_Ok in Hr as [Hd Hc].
  destruct (state_at p service (RefineOutput.parent_root output)) as [st|e] eqn:Hs; cbn [rbind].
  2: { split; [done|]. intros m (r' & m0 & _ & _ & (st & Hs' & _) & _). congruence. }
  pose proof (state_at_root _ _ _ _ Hp Hs) as [_ [m0 Hm0]].
  destruct (FullState.apply_diff_rep st m0 (StateRecovery.diff r) Hm0) as (next & -> & Hn). cbn [rbind map_err].
  set (m := apply_changes (StateDiff.changes (StateRecovery.diff r)) m0) in *.
  case_bool_decide as Hroot; cbn [negb].
  - exists next, m. split; [done|]. split; [|done]. exists r, m0. split; [done|]. split; [done|].
    split; [by exists st|]. split; [done|]. rewrite <- Hroot. by destruct Hn.
  - split; [done|]. intros m' (r' & m1 & Hd' & _ & Hm1 & -> & Hr'). rewrite Hd in Hd'. injection Hd' as <-.
    assert (m1 = m0) as -> by (eapply (holds_unique p); [done|exact Hm1|by exists st]).
    apply Hroot. rewrite Hr'. destruct Hn as [_ Hn]. exact Hn.
Qed.

Lemma recover_stored p service st service' root :
  stored p service' root ->
  stored (mk (<[service := <[FullState.root st := st]> (default ∅ (states p !! service))]> (states p))
            (<[service := FullState.root st]> (materialized p)) (history p) (snapshot_history p)) service' root.
Proof.
  intros Hst. apply stored_replace; [done|]. intros ->. destruct Hst as (sts & st' & -> & Hst). simpl.
  destruct (decide (root = FullState.root st)) as [->|]; [by rewrite lookup_insert_eq|].
  by rewrite lookup_insert_ne, Hst.
Qed.

Lemma recovered_ok p service (output : RefineOutput.t) : ok p -> ok (apply_recovery service output p).2.
Proof.
  intros Hp. pose proof (apply_recovery_spec p service output Hp) as Hs.
  destruct (apply_recovery service output p) as [[[]|e] p']; simpl; [|by destruct Hs as [-> _]].
  destruct Hs as (next & m & Hn & _ & <- & ->). split; simpl.
  - intros s' sts. destruct (decide (s' = service)) as [->|].
    + rewrite lookup_insert_eq. intros [= <-]. by eapply addressed_insert; [apply addressed_default|].
    + rewrite lookup_insert_ne by done. by apply ok_addressed.
  - intros s' r. destruct (decide (s' = service)) as [->|].
    + rewrite lookup_insert_eq. intros [= <-]. eexists _, next. simpl. rewrite lookup_insert_eq.
      split; [done|]. by rewrite lookup_insert_eq.
    + rewrite lookup_insert_ne by done. intros Hr. apply recover_stored. by eapply ok_materialized.
  - intros s' h Hh. destruct (ok_history p Hp s' h Hh) as [Hb Hf]. split; [done|].
    eapply Forall_impl; [exact Hf|]. intros r Hr. by apply recover_stored.
  - apply ok_snapshots, Hp.
Qed.

(** *** Reachable providers *)

Inductive step : t -> t -> Prop :=
| step_insert service st m p : FullState.rep st m -> step p (insert service st p).2
| step_snapshot service st m p : FullState.rep st m -> step p (insert_snapshot service st p).2
| step_recovery service output p : step p (apply_recovery service output p).2.

Lemma provider_reachable_ok p : rtc step default_ p -> ok p.
Proof.
  intros Hr. eapply (rtc_ind_r (fun p => ok p)); [apply default_ok| |exact Hr].
  intros p1 p2 _ Hst Hok. destruct Hst; [by eapply insert_ok|by eapply insert_snapshot_ok|by apply recovered_ok].
Qed.
End Laws.
End FullStateProvider.

(** The provider never loses or falsifies what it still lists. Whatever
    full states are inserted, snapshotted or recovered: the canonical root of
    every service can be opened (the empty root when nothing was inserted);
    every state is filed under its own root; a service's history has at most
    eight distinct roots and each of them can be opened; and storing a snapshot
    of a prediction moves no canonical root and no history, and leaves every
    canonical or historical root open with the same map. *)
Theorem provider_heads_safe `{Blake2} `{TrieLaws} (p : FullStateProvider.t) :
  rtc FullStateProvider.step FullStateProvider.default_ p ->
  (forall service, exists m,
     FullStateProvider.holds p service (FullStateProvider.materialized_root p service) m)
  /\ (forall service root st, FullStateProvider.state_at p service root = Ok st -> FullState.root st = root)
  /\ (forall service h, FullStateProvider.history p !! service = Some h ->
        blen h <= MAX_MATERIALIZED_ROOTS_PER_SERVICE /\ NoDup h
        /\ forall r, r ∈ h -> exists m, FullStateProvider.holds p service r m)
  /\ (forall service st m, FullState.rep st m ->
        let p' := (FullStateProvider.insert_snapshot service st p).2 in
        FullStateProvider.materialized p' = FullStateProvider.materialized p
        /\ FullStateProvider.history p' = FullStateProvider.history p
        /\ forall s r m', FullStateProvider.holds p s r m' ->
             FullStateProvider.materialized p !! s = Some r
             \/ r ∈ default [] (FullStateProvider.history p !! s) ->
             FullStateProvider.holds p' s r m').
Proof.
  intros Hok%FullStateProvider.provider_reachable_ok. split_and!.
  - intros service. by apply FullStateProvider.materialized_holds.
  - intros service root st Hs. by apply FullStateProvider.state_at_root in Hs as [? _].
  - intros service h Hh. destruct (FullStateProvider.ok_history p Hok service h Hh) as [[Hb Hnd] Hf].
    split; [done|]. split; [done|]. rewrite Forall_forall in Hf. intros r Hr.
    apply FullStateProvider.stored_holds; [done|]. by apply Hf.
  - intros service st m Hm p'. split_and!.
    + unfold p', FullStateProvider.insert_snapshot. by destruct (FullStateProvider.evict _ _ _).
    + unfold p', FullStateProvider.insert_snapshot. by destruct (FullStateProvider.evict _ _ _).
    + intros s r m' Hh Hor. eapply FullStateProvider.holds_stored; [exact Hok| |exact Hh|].
      { by eapply FullStateProvider.insert_snapshot_ok. }
      intros Hne. eapply FullStateProvider.insert_snapshot_keeps; [done|done| |done].
      by eapply FullStateProvider.holds_is_stored.
Qed.

(** Recovering a published output is exact. It succeeds exactly when the
    payload decodes, is the one the output commits to, the parent state can be
    opened and the diff turns its map into one with the announced root. Then
    that root becomes the canonical one and holds that map, and every state
    that could be opened still can, with the same map; otherwise nothing
    changes. *)
Theorem provider_recovery_exact `{Blake2} `{TrieLaws} (p : FullStateProvider.t) (service : bytes)
    (output : RefineOutput.t) :
  FullStateProvider.ok p ->
  let '(r, p') := FullStateProvider.apply_recovery service output p in
  (r = Ok tt <-> exists m, FullStateProvider.recovers p service output m)
  /\ (r <> Ok tt -> p' = p)
  /\ (forall m, FullStateProvider.recovers p service output m ->
        FullStateProvider.materialized_root p' service = RefineOutput.new_root output
        /\ FullStateProvider.holds p' service (RefineOutput.new_root output) m)
  /\ (forall s root m, FullStateProvider.holds p s root m -> FullStateProvider.holds p' s root m).
Proof.
  intros Hp. pose proof (FullStateProvider.apply_recovery_spec p service output Hp) as Hs.
  pose proof (FullStateProvider.recovered_ok p service output Hp) as Hp'.
  destruct (FullStateProvider.apply_recovery service output p) as [[[]|e] p']; simpl in Hp'.
  - destruct Hs as (next & m & Hn & Hr & Hroot & ->). split; [split; eauto|]. split; [done|].
    assert (FullStateProvider.stored (FullStateProvider.mk
      (<[service := <[RefineOutput.new_root output := next]> (default ∅ (FullStateProvider.states p !! service))]>
         (FullStateProvider.states p)) (<[service := RefineOutput.new_root output]> (FullStateProvider.materialized p))
      (FullStateProvider.history p) (FullStateProvider.snapshot_history p)) service (RefineOutput.new_root output)) as Hst.
    { eexists _, next. simpl. rewrite lookup_insert_eq. split; [done|]. by rewrite lookup_insert_eq. }
    split.
    + intros m' (r' & m0 & _ & _ & _ & _ & Hr'). split.
      { unfold FullStateProvider.materialized_root. simpl. by rewrite lookup_insert_eq. }
      destruct (FullStateProvider.stored_holds _ _ _ Hp' Hst) as [m1 Hm1].
      pose proof (FullStateProvider.holds_root _ _ _ _ Hp' Hm1) as Hr1.
      assert (m1 = m') as <-; [|done]. destruct Hm1 as (st1 & _ & [Hc1 _]).
      eapply FullState.root_of_inj; [exact Hc1|congruence].
    + intros s root m' Hh. eapply FullStateProvider.holds_stored; [exact Hp|exact Hp'|exact Hh|].
      intros Hne. rewrite <- Hroot. apply FullStateProvider.recover_stored.
      by eapply FullStateProvider.holds_is_stored.
  - destruct Hs as [-> Hs]. split; [split; [done|]; intros [m Hm]; by apply Hs in Hm|].
    split; [done|]. split; [|done]. intros m Hm. by apply Hs in Hm.
Qed.

Definition sample_service : bytes := repeat x07 32.
Definition sample_contents : kv := {[ [x01] := [x05] ]}.
Definition sample_stored : FullState.t := FullState.mk None (model_root sample_contents).
Definition sample_provider : FullStateProvider.t :=
  (FullStateProvider.insert sample_service sample_stored FullStateProvider.default_).2.

Lemma provider_heads_safe_witness :
  (exists m, FullStateProvider.holds sample_provider sample_service (model_root sample_contents) m)
  /\ FullStateProvider.holds
       (FullStateProvider.insert_snapshot sample_service FullState.empty sample_provider).2
       sample_service (model_root sample_contents) sample_contents.
Proof.
  assert (FullState.rep sample_stored sample_contents) as Hrep by (split; reflexivity).
  destruct (FullStateProvider.insert_holds FullStateProvider.default_ sample_service sample_stored sample_contents
    FullStateProvider.default_ok Hrep) as (Hmt & Hr & Hs).
  destruct (@provider_heads_safe zero_hash _ _ sample_provider) as (Hmat & _ & _ & Hsnap).
  { apply rtc_once. exact (@FullStateProvider.step_insert zero_hash _ _ sample_service sample_stored sample_contents _ Hrep). }
  split.
  - change (model_root sample_contents) with (FullState.root sample_stored). rewrite <- Hr.
    exact (Hmat sample_service).
  - refine (proj2 (proj2 (Hsnap sample_service FullState.empty ∅ FullState.empty_rep)) _ _ _ Hs (or_introl Hmt)).
Defined.

Definition sample_recovery_output : RefineOutput.t :=
  match @RefineOutput.from_diff zero_hash (model_root sample_contents) (model_root {[ [x01] := [x06] ]}) []
          (StateDiff.mk [mkEntry [x01] (Some [x06])]) with
  | Ok o => o
  | Err _ => RefineOutput.mk x00 [] [] [] None [] [] []
  end.

Lemma provider_recovery_exact_witness :
  FullStateProvider.materialized_root
    (@FullStateProvider.apply_recovery zero_hash _ sample_service sample_recovery_output sample_provider).2 sample_service
  = model_root {[ [x01] := [x06] ]}.
Proof.
  assert (FullStateProvider.ok sample_provider) as Hp
    by (apply (FullStateProvider.insert_ok _ _ _ sample_contents); [apply FullStateProvider.default_ok|done]).
  pose proof (@provider_recovery_exact zero_hash _ _ sample_provider sample_service sample_recovery_output Hp) as Hr.
  destruct (@FullStateProvider.apply_recovery zero_hash _ sample_service sample_recovery_output sample_provider)
    as [r p'] eqn:Ha.
  assert (r = Ok tt) as ->.
  { replace r with (@FullStateProvider.apply_recovery zero_hash _ sample_service sample_recovery_output sample_provider).1
      by (rewrite Ha; reflexivity). vm_compute. reflexivity. }
  destruct Hr as ([Hm _] & _ & Hr & _). destruct (Hm eq_refl) as [m Hm'].
  apply (Hr m Hm').
Defined.
