(* ===== verification/WorkBuilder.v ===== *)
(** * The authenticated work builder ([service-runtime-host])

    [AuthenticatedWorkBuilder] turns actions into a refine input: it reads the
    committed root at a finalized block, discovers by repeated dry runs which
    keys the actions touch, asks the provider for a proof of exactly those keys,
    and predicts the output by refining the input it built. *)

From S2P Require Import Prelude Ordering Reader Wire Fields ServiceKeys StateView StateDiff Records Witness RefineInput Dependencies RefineOutput Ownership Crypto Actions ActionsV2 State Overlays ModelTrie Execution Requests Guest Provider.

(** ** The traits the builder is generic in *)

Record FinalizedContext := mkFinalized { fc_block_hash : bytes; fc_state_root : bytes; fc_slot : Z }.

Class FinalizedManagedStateSource (S Err : Type) := {
  src_finalized_context : S -> result FinalizedContext Err * S;
  src_service_storage_at : FinalizedContext -> bytes -> bytes -> S -> result (option bytes) Err * S;
  src_service_storage_at_id :
    FinalizedContext -> Z -> bytes -> bytes -> S -> result (option bytes) Err * S
}.

Class ServiceStateProvider (P Err : Type) := {
  sp_value_at : P -> bytes -> bytes -> bytes -> result (option bytes) Err;
  sp_build_witness : P -> bytes -> bytes -> AccessPlan.t -> result StateWitness.t Err
}.

#[export] Instance full_state_provider `{Blake2} `{Trie}
    : ServiceStateProvider FullStateProvider.t ProviderError := {|
  sp_value_at := FullStateProvider.value_at;
  sp_build_witness := FullStateProvider.build_witness
|}.

Record ExternalServiceSpec := mkExternalSpec {
  es_service_id : Z; es_service_key : bytes; es_access_plan : AccessPlan.t
}.

Record BuiltManagedWork := mkBuilt {
  bw_context : FinalizedContext; bw_service : bytes; bw_parent_root : bytes;
  bw_refine_input : RefineInput.t; bw_predicted_output : RefineOutput.t
}.

Inductive WorkBuilderError (SE PE : Type) :=
| WB_Source (e : SE)
| WB_Provider (e : PE)
| WB_InvalidCommitment
| WB_State (e : StateError)
| WB_Application (e : StateAccessError)
| WB_StateWire (e : WireError)
| WB_Verification
| WB_ProviderInconsistent
| WB_PlanningLimit
| WB_MissingExternalCommitment
| WB_InvalidExternalServices.
Arguments WB_Source {SE PE} e.
Arguments WB_Provider {SE PE} e.
Arguments WB_InvalidCommitment {SE PE}.
Arguments WB_State {SE PE} e.
Arguments WB_Application {SE PE} e.
Arguments WB_StateWire {SE PE} e.
Arguments WB_Verification {SE PE}.
Arguments WB_ProviderInconsistent {SE PE}.
Arguments WB_PlanningLimit {SE PE}.
Arguments WB_MissingExternalCommitment {SE PE}.
Arguments WB_InvalidExternalServices {SE PE}.

(** ** [PlanningState]: the values known so far, under an overlay

    A read of any other key asks for it; a write needs the key to be known and
    a transaction to be open. *)

Module PlanningState.
Record t := mk { base : layer; overlay : Overlay.t }.

Definition new (base : layer) : t := mk base Overlay.new.

Definition lookup (s : t) (k : bytes) : result (option bytes) StateAccessError :=
  match Overlay.overlay_value (overlay s) k with
  | Some value => Ok value
  | None => ok_or (base s !! k) (SA_NeedState k)
  end.

Definition get (k : bytes) : access t (option bytes) := fun s => (lookup s k, s).

(** [set] and [delete] differ only in the entry they insert. *)
Definition update (k : bytes) (x : option bytes) : access t unit := fun s =>
  match lookup s k with
  | Err e => (Err e, s)
  | Ok _ =>
      match Overlay.transactions (overlay s) with
      | [] => (Err SA_Backend, s)
      | _ => (Ok tt, mk (base s) (Overlay.put (overlay s) k x))
      end
  end.

Definition begin_transaction : access t unit := fun s =>
  (Ok tt, mk (base s) (Overlay.begin_transaction (overlay s))).
Definition commit_transaction : access t unit := fun s =>
  let '(r, o) := Overlay.commit_transaction (overlay s) in
  (map_err (fun _ => SA_Backend) r, mk (base s) o).
Definition rollback_transaction : access t unit := fun s =>
  let '(r, o) := Overlay.rollback_transaction (overlay s) in
  (map_err (fun _ => SA_Backend) r, mk (base s) o).

#[global] Instance state_access : ManagedStateAccess t := {|
  ms_get := get;
  ms_set k v := update k (Some v);
  ms_delete k := update k None;
  ms_begin := begin_transaction;
  ms_commit := commit_transaction;
  ms_rollback := rollback_transaction
|}.
End PlanningState.

Module PlanningExternalState.
(** [struct PlanningExternalState { values: BTreeMap<u32, BTreeMap<..>> }]. *)
Notation t := (gmap Z layer).

Definition get (service_id : Z) (k : bytes) : access t (option bytes) := fun e =>
  (let? values := ok_or (e !! service_id) SA_Backend in
   ok_or (values !! k) (SA_NeedState k), e).

#[global] Instance external_access : ExternalStateAccess t := get.
End PlanningExternalState.

(** ** Planning *)

Inductive PlanningOutcome := Complete | NeedState (key : bytes).

Section PlanningExecute.
Context (application : bytes -> prog) (plan : AccessPlan.t) (network_domain : bytes).

(** Follows the actions in order; [Err] is an error of the transaction stack. *)
Fixpoint planning_execute (state : PlanningState.t) (external : option PlanningExternalState.t)
    (actions : list bytes) : result PlanningOutcome StateAccessError :=
  match actions with
  | [] => Ok Complete
  | action :: actions' =>
      let state := (ms_begin state).2 in
      let context := match external with
                     | Some external =>
                         with_access_plan_and_external_state state None plan external network_domain
                     | None => with_access_plan state None plan network_domain
                     end in
      let '(r, c) := run (application action) context in
      let commit (s : PlanningState.t) :=
        match ms_commit s with
        | (Ok _, s) => planning_execute s (cx_external_state c) actions'
        | (Err e, _) => Err e
        end in
      match r with
      | Ok _ => commit (cx_state c)
      | Err (SA_NeedState key) => Ok (NeedState key)
      | Err (SA_ApplicationFailed code) =>
          if Z.land code 2147483648 =? 0 then commit (cx_state c)
          else planning_execute (ms_rollback (cx_state c)).2 (cx_external_state c) actions'
      | Err _ => planning_execute (ms_rollback (cx_state c)).2 (cx_external_state c) actions'
      end
  end.
End PlanningExecute.

Definition MAX_PLANNING_ROUNDS : Z := 4096.

Section InitialKeys.
Context `{Blake2}.

(** The nonce keys the actions name, sorted and without repetitions. *)
Definition action_runtime_key (action : bytes) : list bytes :=
  match ActionV1.decode_signed_action_v1 action with
  | Ok signed =>
      if blen (ActionV1.public_key signed) =? 32
      then [Keys.wallet_nonce_key_v1 (ActionV1.public_key signed)] else []
  | Err _ =>
      match ActionV2.decode_signed_action_v2 action with
      | Ok signed =>
          match ownership_nonce_key (ActionV2.controller signed) with
          | Ok key => [key]
          | Err _ => []
          end
      | Err _ => []
      end
  end.

Definition initial_runtime_keys (actions : list bytes) : list bytes :=
  dedup (sort_by_key id (concat (map action_runtime_key actions))).
End InitialKeys.

(** ** [AuthenticatedWorkBuilder] *)

Section Builder.
Context `{Blake2} `{Trie} {S SE P PE : Type}.
Context `{FinalizedManagedStateSource S SE} `{ServiceStateProvider P PE}.
Notation err := (WorkBuilderError SE PE).
Context (provider : P) (environment : bytes).

(** A computation over the source that stops at the first error. *)
Definition sourced (A : Type) : Type := S -> result A err * S.
Definition sbind {A B} (m : sourced A) (k : A -> sourced B) : sourced B := fun s =>
  match m s with
  | (Ok a, s) => k a s
  | (Err e, s) => (Err e, s)
  end.
Definition slift {A} (r : result A err) : sourced A := fun s => (r, s).
Definition scall {A} (m : S -> result A SE * S) : sourced A := fun s =>
  let '(r, s) := m s in (map_err WB_Source r, s).
Notation "'do' x <- m ; k" := (sbind m (fun x => k)) (at level 200, x pattern, right associativity).

Definition from_provider {A} (r : result A PE) : result A err := map_err WB_Provider r.

(** The values of [keys] at a root, in a map. *)
Definition known_values (service root : bytes) (known : layer) (keys : list bytes) : result layer err :=
  rfold (fun known key => let? value := from_provider (sp_value_at provider service root key) in
                          Ok (<[key := value]> known)) known keys.

(** One external service: its committed root, a witness and the values. *)
Definition build_external (context : FinalizedContext)
    (acc : list ExternalWitness.t * PlanningExternalState.t * gmap Z bytes) (external : ExternalServiceSpec)
    : sourced (list ExternalWitness.t * PlanningExternalState.t * gmap Z bytes) :=
  let '(witnesses, known_external, seen) := acc in
  let id := es_service_id external in
  if bool_decide (is_Some (seen !! id)) then slift (Err WB_InvalidExternalServices)
  else
    do commitment <- scall (src_service_storage_at_id context id (es_service_key external)
                              MANAGED_STATE_COMMITMENT_KEY_V1);
    slift (
      let? commitment := ok_or commitment WB_MissingExternalCommitment in
      let? commitment := map_err (fun _ => WB_InvalidCommitment) (Commitment.decode commitment) in
      let root := Commitment.root commitment in
      let? witness := from_provider
        (sp_build_witness provider (es_service_key external) root (es_access_plan external)) in
      let? values := known_values (es_service_key external) root ∅ (AccessPlan.keys (es_access_plan external)) in
      Ok (witnesses ++ [ExternalWitness.mk id witness], <[id := values]> known_external,
          <[id := es_service_key external]> seen)).

Fixpoint build_externals (context : FinalizedContext) (specs : list ExternalServiceSpec)
    (acc : list ExternalWitness.t * PlanningExternalState.t * gmap Z bytes)
    : sourced (list ExternalWitness.t * PlanningExternalState.t * gmap Z bytes) :=
  match specs with
  | [] => slift (Ok acc)
  | spec :: specs' => do acc <- build_external context acc spec; build_externals context specs' acc
  end.

(** [for _round in 0..=MAX_PLANNING_ROUNDS]: at most [rounds] dry runs; the
    keys of the last one. *)
Fixpoint planning_loop (rounds : nat) (application : bytes -> prog) (actions : list bytes)
    (service parent_root : bytes) (known_external : PlanningExternalState.t)
    (keys : list bytes) (known : layer) : result (list bytes) err :=
  match rounds with
  | O => Err WB_PlanningLimit
  | Datatypes.S rounds' =>
      let? plan := map_err WB_StateWire (AccessPlan.from_keys keys) in
      let? outcome := map_err WB_Application
        (planning_execute application plan environment (PlanningState.new known) (Some known_external) actions) in
      match outcome with
      | Complete => Ok keys
      | NeedState key =>
          bail_if bool_decide (is_Some (known !! key)) with WB_ProviderInconsistent ;;
          let? value := from_provider (sp_value_at provider service parent_root key) in
          planning_loop rounds' application actions service parent_root known_external
            (dedup (sort_by_key id (keys ++ [key]))) (<[key := value]> known)
      end
  end.

(** The root a stored commitment names; a service without one is empty. *)
Definition committed_root (commitment : option bytes) : result bytes err :=
  match commitment with
  | Some b => let? c := map_err (fun _ => WB_InvalidCommitment) (Commitment.decode b) in Ok (Commitment.root c)
  | None => Ok EMPTY_STATE_ROOT_V1
  end.

(** From the roots and external witnesses to the finished work. *)
Definition build_at (context : FinalizedContext) (service parent_root : bytes) (application : bytes -> prog)
    (actions : list bytes) (external_witnesses : list ExternalWitness.t)
    (known_external : PlanningExternalState.t) : result BuiltManagedWork err :=
  let keys := initial_runtime_keys actions in
  let? known := known_values service parent_root ∅ keys in
  let? keys := planning_loop (Z.to_nat (MAX_PLANNING_ROUNDS + 1)) application actions service parent_root
                 known_external keys known in
  let? plan := map_err WB_StateWire (AccessPlan.from_keys keys) in
  let? witness := from_provider (sp_build_witness provider service parent_root plan) in
  let refine_input := RefineInput.mk RefineInput.VERSION witness external_witnesses actions in
  let? predicted_output := map_err (fun _ => WB_Verification)
    (refine_with_environment application refine_input environment) in
  Ok (mkBuilt context service parent_root refine_input predicted_output).

Definition build_actions_with_external (service : bytes) (application : bytes -> prog)
    (actions : list bytes) (external_services : list ExternalServiceSpec) : sourced BuiltManagedWork :=
  do context <- scall src_finalized_context;
  do commitment <- scall (src_service_storage_at context service MANAGED_STATE_COMMITMENT_KEY_V1);
  do parent_root <- slift (committed_root commitment);
  do externals <- build_externals context external_services ([], ∅, ∅);
  slift (build_at context service parent_root application actions externals.1.1 externals.1.2).

Definition build_actions (service : bytes) (application : bytes -> prog) (actions : list bytes)
    : sourced BuiltManagedWork := build_actions_with_external service application actions [].
End Builder.

(** ** What the builder relies on

    A provider promises: the roots it opens are roots of maps, the values it
    reports are theirs, and a witness is for the requested root and plan. *)
Class ProvidesMaps {P PE} `{ServiceStateProvider P PE} `{TrieLaws} (p : P)
    (holds : bytes -> bytes -> kv -> Prop) : Prop := {
  pm_root service root m : holds service root m -> root = root_of m;
  pm_value service root m k : holds service root m -> sp_value_at p service root k = Ok (m !! k);
  pm_witness service root plan w : sp_build_witness p service root plan = Ok w ->
    exists m, holds service root m /\ StateWitness.parent_root w = root
      /\ StateWitness.version w = StateWitness.VERSION /\ StateWitness.access_plan w = plan
}.

Lemma full_state_provides `{Blake2} `{TrieLaws} (p : FullStateProvider.t) :
  FullStateProvider.ok p -> ProvidesMaps p (FullStateProvider.holds p).
Proof.
  intros Hp. split.
  - intros service root m Hh. by eapply FullStateProvider.holds_root.
  - intros service root m k Hh. by apply FullStateProvider.value_at_holds.
  - intros service root plan w Hw. simpl in Hw. unfold FullStateProvider.build_witness in Hw.
    apply rbind_Ok in Hw as (st & Hst & Hw). apply rbind_Ok in Hw as (proof & _ & [= <-]).
    destruct (FullStateProvider.state_at_root _ _ _ _ Hp Hst) as [_ [m Hm]].
    exists m. split; [by exists st|]. done.
Qed.

(** ** Published outputs *)

Lemma publish_Ok `{Blake2} (t : transition) (o : RefineOutput.t) :
  publish t = Ok o ->
  RefineOutput.parent_root o = tr_parent_root t /\ RefineOutput.new_root o = tr_new_root t
  /\ RefineOutput.receipts o = tr_receipts t /\ RefineOutput.transition_valid_until o = tr_valid_until t
  /\ StateRecovery.decode (RefineOutput.recovery_payload o)
     = Ok (StateRecovery.mk RECOVERY_FORMAT_VERSION (StateDiff.sorted (tr_diff t)))
  /\ blake2_256 (RefineOutput.recovery_payload o) = RefineOutput.recovery_commitment o.
Proof.
  unfold publish. intros Hp%map_err_Ok. unfold RefineOutput.from_diff_with_dependencies_and_validity in Hp.
  apply rbind_Ok in Hp as (deps & _ & Hp). apply bail_if_Ok in Hp as [_ Hp].
  apply rbind_Ok in Hp as (r & Hr & Hp). apply rbind_Ok in Hp as (payload & Hpay & [= <-]).
  apply StateRecovery.state_recovery_new_Ok in Hr as (_ & _ & ->).
  apply StateRecovery.state_recovery_decode_iff in Hpay. done.
Qed.

Lemma ssorted_sorted (d : StateDiff.t) : key_ssorted key (StateDiff.changes d) -> StateDiff.sorted d = d.
Proof.
  intros Hs. destruct d as [cs]. unfold StateDiff.sorted. simpl in *. f_equal.
  apply sort_by_key_id. by apply key_ssorted_sorted.
Qed.

(** An output that refine computed on [m] can be recovered wherever [m] is. *)
Lemma published_recovers `{Blake2} `{TrieLaws} t o m m' q service :
  publish t = Ok o -> tr_parent_root t = root_of m -> tr_new_root t = root_of m' ->
  apply_changes (StateDiff.changes (tr_diff t)) m = m' -> key_ssorted key (StateDiff.changes (tr_diff t)) ->
  FullStateProvider.holds q service (root_of m) m -> FullStateProvider.recovers q service o m'.
Proof.
  intros (Hp & Hn & _ & _ & Hd & Hc)%publish_Ok Hpm Hnm Ha Hs Hh.
  exists (StateRecovery.mk RECOVERY_FORMAT_VERSION (StateDiff.sorted (tr_diff t))), m.
  split; [done|]. split; [done|]. rewrite Hp, Hpm. split; [done|]. cbn [StateRecovery.diff].
  rewrite ssorted_sorted by done.
  split; [done|]. by rewrite Hn.
Qed.

(** ** Built work *)

Section BuiltWork.
Context `{Blake2} `{TrieLaws} {S SE P PE : Type}.
Context `{FinalizedManagedStateSource S SE} `{ServiceStateProvider P PE}.
Context (provider : P) (holds : bytes -> bytes -> kv -> Prop) `{!ProvidesMaps provider holds}.
Implicit Types (others : gmap Z kv) (specs : list ExternalServiceSpec).

Lemma sbind_Ok {A B} (m : sourced A) (k : A -> sourced B) s b s' :
  @sbind S SE PE A B m k s = (Ok b, s') -> exists a s1, m s = (Ok a, s1) /\ k a s1 = (Ok b, s').
Proof. unfold sbind. destruct (m s) as [[a|e] s1]; [eauto|done]. Qed.

(** The maps behind the external witnesses built so far. *)
Definition externals_sim (acc : list ExternalWitness.t * PlanningExternalState.t * gmap Z bytes) others : Prop :=
  others_ok others acc.1.1 /\ forall id, is_Some (acc.2 !! id) <-> is_Some (others !! id).

Lemma others_ok_snoc others ws w m :
  others_ok others ws -> others !! ExternalWitness.service_id w = None ->
  StateWitness.parent_root (ExternalWitness.managed_state w) = root_of m ->
  others_ok (<[ExternalWitness.service_id w := m]> others) (ws ++ [w]).
Proof.
  intros [Ho1 Ho2] Hn Hr. split.
  - intros w'. rewrite elem_of_app, list_elem_of_singleton. intros [Hw'| ->].
    + destruct (Ho1 w' Hw') as (m' & Hm' & Hr'). exists m'. split; [|done]. rewrite lookup_insert_ne; [done|congruence].
    + exists m. by rewrite lookup_insert_eq.
  - intros id m'. destruct (decide (id = ExternalWitness.service_id w)) as [->|].
    + intros _. exists w. split; [set_solver|done].
    + rewrite lookup_insert_ne by done. intros (w' & Hw' & Hid)%Ho2. exists w'. split; [set_solver|done].
Qed.

Lemma build_external_sim context acc spec acc' others s s' :
  externals_sim acc others -> build_external provider context acc spec s = (Ok acc', s') ->
  exists m root, others !! es_service_id spec = None /\ holds (es_service_key spec) root m
    /\ externals_sim acc' (<[es_service_id spec := m]> others).
Proof.
  destruct acc as [[ws ke] seen]. intros [Ho Hseen]. unfold build_external.
  case_bool_decide as Hs; [done|]. intros Hb. apply sbind_Ok in Hb as (c & s1 & _ & Hb).
  unfold slift in Hb. injection Hb as Hb <-. apply rbind_Ok in Hb as (c1 & _ & Hb).
  apply rbind_Ok in Hb as (c2 & _ & Hb). apply rbind_Ok in Hb as (w & Hw & Hb).
  apply rbind_Ok in Hb as (values & _ & [= <-]). apply map_err_Ok in Hw.
  apply pm_witness in Hw as (m & Hm & Hr & _ & _). simpl in Hseen.
  assert (others !! es_service_id spec = None) as Hn.
  { apply eq_None_not_Some. by rewrite <- Hseen. }
  exists m, (Commitment.root c2). split; [done|]. split; [done|]. split.
  - apply (others_ok_snoc others ws (ExternalWitness.mk (es_service_id spec) w) m Ho Hn). simpl.
    rewrite Hr. by eapply pm_root.
  - simpl. intros id. destruct (decide (id = es_service_id spec)) as [->|]; [by rewrite !lookup_insert_eq|].
    rewrite !lookup_insert_ne by done. apply Hseen.
Qed.

Lemma build_externals_sim context specs : forall acc acc' others s s',
  externals_sim acc others -> build_externals provider context specs acc s = (Ok acc', s') ->
  exists others', others ⊆ others' /\ others_ok others' acc'.1.1
    /\ Forall (fun spec => exists m root, others' !! es_service_id spec = Some m
                             /\ holds (es_service_key spec) root m) specs.
Proof.
  induction specs as [|spec specs IH]; intros acc acc' others s s' Hsim Hb; simpl in Hb.
  - unfold slift in Hb. injection Hb as <- <-. exists others. split; [done|]. by destruct Hsim.
  - apply sbind_Ok in Hb as (acc1 & s1 & Hb1 & Hb).
    destruct (build_external_sim _ _ _ _ _ _ _ Hsim Hb1) as (m & root & Hn & Hh & Hsim1).
    destruct (IH _ _ _ _ _ Hsim1 Hb) as (others' & Hsub & Hok & Hf). exists others'.
    split; [etransitivity; [by apply insert_subseteq|done]|]. split; [done|]. constructor; [|done].
    exists m, root. split; [|done]. eapply lookup_weaken; [|exact Hsub]. apply lookup_insert_eq.
Qed.

Lemma built_work_sound environment context service parent app actions ws ke others work :
  Forall (fun a => propagates (app a) /\ balanced 0 (app a)) actions -> others_ok others ws ->
  build_at (SE := SE) provider environment context service parent app actions ws ke = Ok work ->
  exists m o, holds service (bw_parent_root work) m
    /\ reference_actions GENERIC_ERROR app
         (StateWitness.access_plan (RefineInput.managed_state (bw_refine_input work))) environment others
         (mkOutcome m [] None) actions = Some o
    /\ RefineOutput.parent_root (bw_predicted_output work) = bw_parent_root work
    /\ RefineOutput.new_root (bw_predicted_output work) = root_of (oc_map o)
    /\ RefineOutput.receipts (bw_predicted_output work) = oc_receipts o
    /\ RefineOutput.transition_valid_until (bw_predicted_output work) = oc_valid_until o
    /\ forall q : FullStateProvider.t, FullStateProvider.holds q service (bw_parent_root work) m ->
         FullStateProvider.recovers q service (bw_predicted_output work) (oc_map o).
Proof.
  intros Happ Hothers Hb. unfold build_at in Hb. apply rbind_Ok in Hb as (known & _ & Hb).
  apply rbind_Ok in Hb as (keys & _ & Hb). apply rbind_Ok in Hb as (plan & _ & Hb).
  apply rbind_Ok in Hb as (w & Hw%map_err_Ok & Hb). apply rbind_Ok in Hb as (out & Hout%map_err_Ok & [= <-]).
  apply pm_witness in Hw as (m & Hm & Hr & _ & _). pose proof (pm_root _ _ _ Hm) as Hroot.
  apply rbind_Ok in Hout as (t & Ht & Hpub).
  destruct (refine_with_code_sound GENERIC_ERROR app (RefineInput.mk RefineInput.VERSION w ws actions)
    environment m others t Happ) as (o & Ho & Hp & Hn & Hrec & Hv & Ha & Hs & _).
  { simpl. by rewrite Hr. }
  { done. }
  { exact Ht. }
  simpl in *. exists m, o. split; [done|]. split; [done|].
  pose proof (publish_Ok _ _ Hpub) as (Hp' & Hn' & Hrec' & Hv' & _).
  split; [congruence|]. split; [congruence|]. split; [congruence|]. split; [congruence|].
  intros q Hq. eapply published_recovers; try done. by rewrite <- Hroot.
Qed.
End BuiltWork.

(** ** What the planning loop asks for *)

Section PlanningRequests.
Context (K : bytes -> Prop) (known : layer) (known_external : PlanningExternalState.t).

(** A local key that is not known, or a key missing from the values supplied
    for some external service. *)
Definition unknown (k : bytes) : Prop :=
  K k /\ known !! k = None \/ exists id values, known_external !! id = Some values /\ values !! k = None.

Definition over_known (s : PlanningState.t) : Prop := PlanningState.base s = known.

Lemma lookup_asks s k j :
  K k -> over_known s -> PlanningState.lookup s k = Err (SA_NeedState j) -> unknown j.
Proof.
  unfold over_known, PlanningState.lookup. intros HK ->. destruct (Overlay.overlay_value _ _); [done|].
  destruct (known !! k) eqn:Hk; simpl; [done|]. intros [= <-]. by left.
Qed.

Lemma update_asks k x : K k -> asks unknown (PlanningState.update k x) over_known.
Proof.
  intros HK s Hs. unfold PlanningState.update. destruct (PlanningState.lookup s k) as [v|e] eqn:Hl.
  - destruct (Overlay.transactions (PlanningState.overlay s)); simpl; done.
  - simpl. split; [done|]. intros j [= ->]. by eapply lookup_asks.
Qed.

Lemma planning_state_ops : ops_ask K over_known unknown.
Proof.
  split; intros.
  - intros s Hs. simpl. split; [done|]. intros j. by apply lookup_asks.
  - by apply update_asks.
  - by apply update_asks.
  - intros s Hs. done.
  - intros s Hs. simpl. unfold PlanningState.commit_transaction.
    destruct (Overlay.commit_transaction _) as [[] ?]; done.
  - intros s Hs. simpl. unfold PlanningState.rollback_transaction.
    destruct (Overlay.rollback_transaction _) as [[] ?]; done.
Qed.

Lemma planning_external_ops id k :
  asks unknown (T := PlanningExternalState.t) (ext_get id k) (fun e => e = known_external).
Proof.
  intros e ->. unfold ext_get, PlanningExternalState.external_access, PlanningExternalState.get. simpl.
  split; [done|]. intros j. destruct (known_external !! id) as [values|] eqn:Hid; simpl; [|done].
  destruct (values !! k) eqn:Hk; simpl; [done|]. intros [= <-]. right. eauto.
Qed.

Definition depth (s : PlanningState.t) : nat := length (Overlay.transactions (PlanningState.overlay s)).

Lemma planning_depth : ops_depth depth.
Proof.
  assert (forall k x s, depth (PlanningState.update k x s).2 = depth s) as Hu.
  { intros k x s. unfold PlanningState.update, depth. destruct (PlanningState.lookup s k); [|done].
    destruct (Overlay.transactions (PlanningState.overlay s)) eqn:Ht; simpl; [by rewrite Ht|].
    unfold Overlay.put. by rewrite Ht. }
  split; intros; simpl; [done|apply Hu|apply Hu|done|..].
  - unfold PlanningState.commit_transaction, Overlay.commit_transaction, depth in *.
    destruct (Overlay.transactions (PlanningState.overlay s)) as [|a [|b ts]]; simpl in *; by simplify_eq.
  - unfold PlanningState.rollback_transaction, Overlay.rollback_transaction, depth in *.
    destruct (Overlay.transactions (PlanningState.overlay s)) as [|a ts]; simpl in *; by simplify_eq.
Qed.

(** A dry run of honest, balanced actions completes or asks for an unknown key. *)
Lemma planning_execute_outcome app plan domain actions : forall s,
  Forall K (AccessPlan.keys plan) ->
  Forall (fun a => honest (app a) /\ names K (app a) /\ balanced 0 (app a)) actions ->
  over_known s -> depth s = 0%nat ->
  exists o, planning_execute app plan domain s (Some known_external) actions = Ok o
    /\ match o with Complete => True | NeedState k => unknown k end.
Proof.
  induction actions as [|a actions IH]; intros s Hplan Hh Hs Hd; cbn [planning_execute].
  { by exists Complete. }
  apply Forall_cons in Hh as [(Ha & HK & Hbal) Hh].
  set (c0 := with_access_plan_and_external_state _ _ _ _ _).
  destruct (run_asks K over_known unknown (fun e => e = known_external) planning_state_ops planning_external_ops
    (app a) Ha HK c0) as [(Hst & He & _) Hn]; [done|].
  assert (depth (cx_state (run (app a) c0).2) = 1%nat) as Hd1.
  { apply (run_depth depth planning_depth (app a) 0 c0 1 Hbal). simpl. unfold depth in *. simpl. by rewrite Hd. }
  assert (cx_external_state (run (app a) c0).2 = Some known_external) as Hext.
  { assert (is_Some (cx_external_state (run (app a) c0).2)) as [e Hs']
      by (apply run_has_external; by eexists). rewrite Hs' in He. by rewrite Hs', He. }
  destruct (run (app a) c0) as [r c]. simpl in Hst, Hn, Hext, Hd1. rewrite Hext.
  destruct (od_commit _ planning_depth _ 0 Hd1) as [Hcr Hcd].
  destruct (od_rollback _ planning_depth _ 0 Hd1) as [_ Hrd].
  pose proof (proj1 (oa_commit _ _ _ planning_state_ops _ Hst)) as Hck.
  pose proof (proj1 (oa_rollback _ _ _ planning_state_ops _ Hst)) as Hrk.
  destruct (ms_commit (cx_state c)) as [r' s1]. simpl in Hcr, Hcd, Hck. subst r'.
  pose proof (IH s1 Hplan Hh Hck Hcd) as Hc. pose proof (IH _ Hplan Hh Hrk Hrd) as Hr.
  destruct r as [?|err]; [exact Hc|]. destruct err; try exact Hr.
  - exists (NeedState key). split; [done|]. by apply Hn.
  - destruct (Z.land code 2147483648 =? 0); [exact Hc|exact Hr].
Qed.
End PlanningRequests.

Section Termination.
Context `{Blake2} `{TrieLaws} {SE P PE : Type} `{ServiceStateProvider P PE}.
Context (provider : P) (holds : bytes -> bytes -> kv -> Prop) `{!ProvidesMaps provider holds}.
Context (environment : bytes) (app : bytes -> prog) (actions : list bytes) (service root : bytes) (m : kv).
Context (Hholds : holds service root m).

(** The keys the actions can name: few and short enough for an access plan. *)
Context (K : gset bytes).
Context (Hsize : Z.of_nat (size K) <= MAX_PLANNING_ROUNDS).
Context (Hshort : forall k, k ∈ K -> blen k <= MAX_STATE_KEY_BYTES).
Context (Hactions : Forall (fun a => honest (app a) /\ names (.∈ K) (app a) /\ balanced 0 (app a)) actions).

Lemma from_keys_within keys :
  (forall k, k ∈ keys -> k ∈ K) ->
  exists plan, AccessPlan.from_keys keys = Ok plan /\ Forall (.∈ K) (AccessPlan.keys plan).
Proof.
  intros Hk. set (sorted := dedup (sort_by_key id keys)).
  assert (forall k, k ∈ sorted -> k ∈ K) as Hs.
  { intros k Hin. apply Hk. unfold sorted in Hin. by rewrite dedup_elem, sort_by_key_perm in Hin. }
  assert (NoDup sorted) as Hnd.
  { pose proof (key_ssorted_nodup _ _ (dedup_ssorted _ (sort_by_key_sorted id keys))) as Hnd.
    by rewrite map_id in Hnd. }
  exists (AccessPlan.mk MANAGED_STATE_PROTOCOL_VERSION sorted). split; [|by apply Forall_forall].
  unfold AccessPlan.from_keys. fold sorted.
  assert ((length sorted <= size K)%nat) as Hlen.
  { rewrite <- (size_list_to_set (C := gset bytes) sorted) by done. apply subseteq_size.
    intros k Hin%elem_of_list_to_set. by apply Hs. }
  rewrite (proj2 (orb_false_iff _ _)); [done|]. split.
  - apply gtb_false. unfold blen, MAX_PLANNING_ROUNDS, MAX_RECOVERY_CHANGES in *. lia.
  - apply not_true_is_false. intros (k & Hin & Hgt)%existsb_exists. apply list_elem_of_In, Hs, Hshort in Hin.
    to_prop. lia.
Qed.

(** The values of the map at these keys, and no others. *)
Definition values_of (keys : list bytes) (known : layer) : Prop :=
  forall k, known !! k = if decide (k ∈ keys) then Some (m !! k) else None.

(** The actions run to their end on the values of these keys alone. *)
Definition keys_suffice (keys : list bytes) : Prop :=
  exists plan known, AccessPlan.from_keys keys = Ok plan /\ values_of keys known
    /\ planning_execute app plan environment (PlanningState.new known) (Some ∅) actions = Ok Complete.

Lemma planning_loop_ends rounds : forall keys (known : layer),
  values_of keys known -> (forall k, k ∈ keys -> k ∈ K) -> (size (K ∖ dom known) < rounds)%nat ->
  exists keys', planning_loop (SE := SE) provider environment rounds app actions service root ∅ keys known = Ok keys'
    /\ (forall k, k ∈ keys' -> k ∈ K) /\ (forall k, k ∈ keys -> k ∈ keys') /\ keys_suffice keys'.
Proof.
  induction rounds as [|rounds IH]; intros keys known Hdom HK Hlt; [lia|]. cbn [planning_loop].
  destruct (from_keys_within keys HK) as (plan & Hfrom & Hplan). rewrite Hfrom. cbn [rbind map_err].
  destruct (planning_execute_outcome (.∈ K) known ∅ app plan environment actions (PlanningState.new known))
    as ([|k] & Hrun & Hk); [done..| |]; rewrite Hrun; cbn [rbind map_err].
  { exists keys. split_and!; try done. by exists plan, known. }
  destruct Hk as [[HkK Hkn]|(id & values & Hid & _)]; [|by rewrite lookup_empty in Hid].
  rewrite bool_decide_eq_false_2 by (rewrite Hkn; by intros []).
  unfold from_provider. rewrite (pm_value _ _ _ k Hholds). cbn [rbind map_err].
  assert (forall j, j ∈ dedup (sort_by_key id (keys ++ [k])) <-> j ∈ keys \/ j = k) as Hin.
  { intros j. rewrite dedup_elem, sort_by_key_perm, elem_of_app, list_elem_of_singleton. done. }
  destruct (IH (dedup (sort_by_key id (keys ++ [k]))) (<[k := m !! k]> known)) as (keys' & Hl & HK' & Hsub & Hsuf).
  - intros j. destruct (decide (j = k)) as [->|].
    + rewrite lookup_insert_eq. rewrite decide_True by (apply Hin; by right). done.
    + rewrite lookup_insert_ne by done. rewrite Hdom. apply decide_ext. rewrite Hin. naive_solver.
  - intros j [Hj| ->]%Hin; [by apply HK|done].
  - rewrite dom_insert_L. assert (size (K ∖ ({[k]} ∪ dom known)) < size (K ∖ dom known))%nat; [|lia].
    apply subset_size. apply not_elem_of_dom in Hkn. split; [set_solver|].
    intros Hsub. apply (not_elem_of_difference k K ({[k]} ∪ dom known)); [set_solver|]. apply Hsub. set_solver.
  - exists keys'. split_and!; try done. intros j Hj. apply Hsub, Hin. by left.
Qed.

Lemma known_values_all keys : forall known : layer,
  exists known', known_values (SE := SE) provider service root known keys = Ok known'
    /\ forall k, known' !! k = if decide (k ∈ keys) then Some (m !! k) else known !! k.
Proof.
  induction keys as [|k keys IH]; intros known; unfold known_values in *; cbn [rfold].
  { exists known. split; [done|]. intros k. by rewrite decide_False by set_solver. }
  unfold from_provider at 1. rewrite (pm_value _ _ _ k Hholds). cbn [rbind map_err].
  destruct (IH (<[k := m !! k]> known)) as (known' & -> & Hk). exists known'. split; [done|].
  intros j. rewrite Hk. case_decide as Hj; [by rewrite decide_True by set_solver|]. destruct (decide (j = k)) as [->|].
  - rewrite lookup_insert_eq. by rewrite decide_True by set_solver.
  - rewrite lookup_insert_ne by done. by rewrite decide_False by set_solver.
Qed.
End Termination.

(** C3: work the builder returns is right. Over any source, any provider that
    keeps its promises and any application that closes its own transactions and
    does not swallow a missing witness: if work is built, then the provider
    holds a map [m] at its parent root and a map for every external service;
    the predicted output is exactly what running the actions one after the
    other on [m] gives (receipts, expiry, root of the resulting map); and any
    state provider that holds [m] under that root can recover the output, with
    that map. *)
Theorem built_work_correct `{Blake2} `{TrieLaws} {S SE P PE : Type}
    `{FinalizedManagedStateSource S SE} `{ServiceStateProvider P PE} (provider : P)
    (holds : bytes -> bytes -> kv -> Prop) `{!ProvidesMaps provider holds} (environment service : bytes)
    (application : bytes -> prog) (actions : list bytes) (specs : list ExternalServiceSpec) (s s' : S)
    (work : BuiltManagedWork) :
  Forall (fun a => propagates (application a) /\ balanced 0 (application a)) actions ->
  build_actions_with_external provider environment service application actions specs s = (Ok work, s') ->
  exists m others o,
    holds service (bw_parent_root work) m
    /\ Forall (fun spec => exists m' root, others !! es_service_id spec = Some m'
                             /\ holds (es_service_key spec) root m') specs
    /\ reference_actions GENERIC_ERROR application
         (StateWitness.access_plan (RefineInput.managed_state (bw_refine_input work))) environment others
         (mkOutcome m [] None) actions = Some o
    /\ RefineOutput.parent_root (bw_predicted_output work) = bw_parent_root work
    /\ RefineOutput.new_root (bw_predicted_output work) = root_of (oc_map o)
    /\ RefineOutput.receipts (bw_predicted_output work) = oc_receipts o
    /\ RefineOutput.transition_valid_until (bw_predicted_output work) = oc_valid_until o
    /\ forall q : FullStateProvider.t, FullStateProvider.holds q service (bw_parent_root work) m ->
         FullStateProvider.recovers q service (bw_predicted_output work) (oc_map o).
Proof.
  intros Happ Hb. unfold build_actions_with_external in Hb.
  apply sbind_Ok in Hb as (context & s1 & _ & Hb). apply sbind_Ok in Hb as (commitment & s2 & _ & Hb).
  apply sbind_Ok in Hb as (parent & s3 & _ & Hb). apply sbind_Ok in Hb as (externals & s4 & Hext & Hb).
  unfold slift in Hb. injection Hb as Hb <-.
  assert (externals_sim ([], ∅, ∅) ∅) as Hinit.
  { split; [split; [intros w Hw; by apply elem_of_nil in Hw|intros id m'; simpl; by rewrite lookup_empty]|].
    intros id. simpl. by rewrite !lookup_empty. }
  destruct (build_externals_sim provider holds context specs _ _ _ _ _ Hinit Hext)
    as (others & _ & Hothers & Hspecs).
  destruct (built_work_sound provider holds _ _ _ _ _ _ _ _ others _ Happ Hothers Hb)
    as (m & o & Hm & Ho & Hrest). exists m, others, o. done.
Qed.

(** A source whose services all have the same stored commitment. *)
#[global] Instance sample_source : FinalizedManagedStateSource (option bytes) unit := {|
  src_finalized_context s := (Ok (mkFinalized (repeat x01 32) (repeat x02 32) 7), s);
  src_service_storage_at _ _ _ s := (Ok s, s);
  src_service_storage_at_id _ _ _ _ s := (Ok s, s)
|}.

Lemma built_work_correct_witness :
  exists work,
    @build_actions_with_external zero_hash _ _ _ _ _ _ (@full_state_provider zero_hash _)
      FullStateProvider.default_ (repeat x00 32) sample_service sample_application [[x00]; [x01]] [] None
    = (Ok work, None)
    /\ FullStateProvider.recovers (H := zero_hash) FullStateProvider.default_ sample_service (bw_predicted_output work)
         {[ [x01; x01] := [x2a] ]}.
Proof.
  destruct (@build_actions_with_external zero_hash _ _ _ _ _ _ (@full_state_provider zero_hash _)
      FullStateProvider.default_ (repeat x00 32) sample_service sample_application [[x00]; [x01]] [] None)
    as [[work|e] s'] eqn:Hb; [|vm_compute in Hb; discriminate Hb].
  exists work.
  pose proof (@full_state_provides zero_hash _ _ FullStateProvider.default_ FullStateProvider.default_ok) as Hp.
  destruct (@built_work_correct zero_hash _ _ _ _ _ _ _ _ FullStateProvider.default_ _ Hp (repeat x00 32)
    sample_service sample_application [[x00]; [x01]] [] None s' work)
    as (m & others & o & Hm & _ & Ho & _ & _ & _ & _ & Hq); [|exact Hb|].
  { apply Forall_forall. intros a _. apply sample_application_disciplined. }
  assert (bw_parent_root work = EMPTY_STATE_ROOT_V1) as Hroot
    by (vm_compute in Hb; injection Hb as <- _; reflexivity).
  assert (m = ∅) as ->.
  { rewrite Hroot in Hm. eapply FullStateProvider.holds_unique; [apply FullStateProvider.default_ok|exact Hm|].
    apply FullStateProvider.empty_holds. }
  assert (oc_map o = {[ [x01; x01] := [x2a] ]}) as <-.
  { revert Ho. vm_compute in Hb. injection Hb as <- _. clear. intros Ho. vm_compute in Ho.
    injection Ho as <-. vm_compute. reflexivity. }
  split; [|exact (Hq _ Hm)]. f_equal. vm_compute in Hb. by injection Hb as _ <-.
Defined.

(** C32: planning finishes. Take actions of an honest application that closes its
    own transactions and names only keys of a set [K] of at most 4096 short
    keys, which contains the nonce keys the planner starts from. Then, over a
    provider that holds a map at the parent root and with no external services,
    the values of the initial keys can be read and the dry runs end within the
    round limit, with a list of keys from [K] that contains the initial ones and on
    whose values in the map alone the actions run to their end: the builder never
    gives up with [PlanningLimit] or [ProviderInconsistent]. *)
Theorem planning_finishes `{Blake2} `{TrieLaws} {SE P PE : Type} `{ServiceStateProvider P PE} (provider : P)
    (holds : bytes -> bytes -> kv -> Prop) `{!ProvidesMaps provider holds} (environment service root : bytes)
    (application : bytes -> prog) (actions : list bytes) (m : kv) (K : gset bytes) :
  holds service root m ->
  Z.of_nat (size K) <= MAX_PLANNING_ROUNDS ->
  (forall k, k ∈ K -> blen k <= MAX_STATE_KEY_BYTES) ->
  (forall k, k ∈ initial_runtime_keys actions -> k ∈ K) ->
  Forall (fun a => honest (application a) /\ names (.∈ K) (application a) /\ balanced 0 (application a)) actions ->
  exists known keys,
    known_values (SE := SE) provider service root ∅ (initial_runtime_keys actions) = Ok known
    /\ planning_loop (SE := SE) provider environment (Z.to_nat (MAX_PLANNING_ROUNDS + 1)) application actions
         service root ∅ (initial_runtime_keys actions) known = Ok keys
    /\ (forall k, k ∈ keys -> k ∈ K) /\ (forall k, k ∈ initial_runtime_keys actions -> k ∈ keys)
    /\ exists plan final, AccessPlan.from_keys keys = Ok plan
       /\ (forall k, final !! k = if decide (k ∈ keys) then Some (m !! k) else None)
       /\ planning_execute application plan environment (PlanningState.new final) (Some ∅) actions = Ok Complete.
Proof.
  intros Hh Hsize Hshort Hinit Hact.
  destruct (known_values_all (SE := SE) provider holds application actions service root m Hh K Hsize Hshort Hact
    (initial_runtime_keys actions) ∅)
    as (known & Hkv & Hdom).
  destruct (planning_loop_ends (SE := SE) provider holds environment application actions service root m Hh K Hsize
    Hshort Hact (Z.to_nat (MAX_PLANNING_ROUNDS + 1)) (initial_runtime_keys actions) known) as (keys & Hl & HK & Hsub & Hsuf).
  - exact Hdom.
  - done.
  - assert (size (K ∖ dom known) <= size K)%nat by (apply subseteq_size; set_solver).
    unfold MAX_PLANNING_ROUNDS in *. lia.
  - exists known, keys. by split_and!.
Qed.

Lemma planning_finishes_witness :
  exists known keys,
    @known_values unit _ _ (@full_state_provider zero_hash _) FullStateProvider.default_ sample_service
      EMPTY_STATE_ROOT_V1 ∅ [] = Ok known
    /\ @planning_loop unit _ _ (@full_state_provider zero_hash _) FullStateProvider.default_ []
         (Z.to_nat (MAX_PLANNING_ROUNDS + 1)) sample_application [[x00]; [x01]] sample_service
         EMPTY_STATE_ROOT_V1 ∅ [] known = Ok keys
    /\ (forall k, k ∈ keys -> k ∈ ({[ [x01; x01]; [x01; x02] ]} : gset bytes))
    /\ exists plan final, planning_execute sample_application plan [] (PlanningState.new final) (Some ∅) [[x00]; [x01]] = Ok Complete.
Proof.
  pose proof (@full_state_provides zero_hash _ _ FullStateProvider.default_ FullStateProvider.default_ok) as Hp.
  destruct (@planning_finishes zero_hash _ _ unit _ _ _ FullStateProvider.default_ _ Hp [] sample_service
    EMPTY_STATE_ROOT_V1 sample_application [[x00]; [x01]] ∅ {[ [x01; x01]; [x01; x02] ]})
    as (known & keys & Hk & Hl & HK & _ & plan & final & _ & _ & Hrun).
  - apply FullStateProvider.empty_holds.
  - vm_compute. discriminate.
  - intros k Hk. assert (k = [x01; x01] \/ k = [x01; x02]) as [->| ->] by set_solver; vm_compute; discriminate.
  - intros k Hk. vm_compute in Hk. by apply elem_of_nil in Hk.
  - apply Forall_forall. intros a _. split; [|split; [|apply sample_application_disciplined]].
    + unfold sample_application. case_match; simpl.
      * split; [split; intros; done|]. intros [o|e] He; simpl.
        -- split; [split; intros; done|]. intros r Hr k ->. by apply (Hr k).
        -- intros k [= ->]. by apply (He k).
      * split; [split; intros; done|]. intros [o|e] He; simpl; intros k [= ->]. by apply (He k).
    + unfold sample_application. case_match; simpl; (split; [set_solver|]); intros [o|e]; simpl; done.
  - exists known, keys. assert (@initial_runtime_keys zero_hash [[x00]; [x01]] = []) as Hi by (vm_compute; reflexivity).
    rewrite Hi in Hk, Hl. split; [exact Hk|]. split; [exact Hl|]. split; [exact HK|]. exists plan, final. exact Hrun.
Defined.

(** Reads one key of the service and one key of an external service. *)
Definition external_reader (action : bytes) : prog :=
  Get [x01; x01] (fun r => match r with
    | Err e => Return (Err e)
    | Ok _ => ExternalGet 9 [x01; x05] (fun r => match r with Err e => Return (Err e) | Ok _ => Return (Ok tt) end)
    end).

(** A key that is missing from the plan of an external service makes the
    builder fail for good. The dry run reports it as [NeedState], like a key of
    the service's own state: the builder reads the key from its own state, runs
    again, is asked for the same key and gives up with [ProviderInconsistent].
    With the key in the external plan the same actions are built. *)
Lemma external_key_taken_for_local :
  let build keys :=
    (@build_actions_with_external zero_hash _ _ _ _ _ _ (@full_state_provider zero_hash _)
       FullStateProvider.default_ (repeat x00 32) sample_service external_reader [[x00]]
       [mkExternalSpec 9 (repeat x08 32) (AccessPlan.mk x01 keys)]
       (Some (Commitment.encode (Commitment.new EMPTY_STATE_ROOT_V1)))).1 in
  build [] = Err WB_ProviderInconsistent
  /\ exists work, build [[x01; x05]] = Ok work.
Proof.
  split; [vm_compute; reflexivity|]. cbv zeta. eexists. vm_compute. reflexivity.
Qed.
