(* ===== verification/BackendBase.v ===== *)
(** * The service backend: records, errors and hexadecimal text

    The vocabulary of [jamscript-service-backend]: its error type, the records
    of a registered service, [hash_hex] / [parse_hash] / [decode_hex], and
    big-endian integers, which order the keys of the database. *)

From S2P Require Import Prelude Ordering Reader Wire ServiceKeys StateView StateDiff Records RefineOutput GuestMemory State Overlays Provider.

(** ** Errors *)

Inductive RegistryError :=
| ServiceIdAlreadyBound
| ServiceKeyAlreadyBound
| ServiceIdKeyMismatch
| UnknownServiceId
| UnknownServiceKey.

Inductive PlannerError := PL_InvalidArtifact | PL_ApplicationRejected | PL_Backend.

Record GuestFaultContext := mkGuestFault {
  gf_record : FaultRecord.t; gf_service_id : option Z; gf_code_hash : bytes
}.

Inductive BackendError :=
| BE_Registry (error : RegistryError)
| BE_Provider (error : ProviderError)
| BE_Wire (error : WireError)
| BE_InvalidEnvelope
| BE_EntryTooLarge
| BE_TruncatedLog
| BE_UnknownService
| BE_ServiceKeyMismatch
| BE_RecoveryNotCanonical
| BE_PlannerArtifactMismatch
| BE_PlannerUnavailable
| BE_Planner (error : PlannerError)
| BE_NotSubmitted (message : bytes)
| BE_ArtifactNotFound
| BE_ArtifactTooLarge
| BE_ArtifactDigestMismatch
| BE_ArtifactCorrupt
| BE_ArtifactStore (message : bytes)
| BE_Database (message : bytes)
| BE_DatabaseInUse (message : bytes)
| BE_SchemaMismatch
| BE_GenesisMismatch
| BE_ServiceStateCorrupt (service_id : Z)
| BE_StateNotMaterialized
| BE_ServiceCorrupt (service_id : Z)
| BE_Pvm (message : bytes)
| BE_PvmOutOfGas (service_id : option Z) (code_hash : bytes) (stage : bytes)
| BE_NotSubmittedPvmOutOfGas (service_id : option Z) (code_hash : bytes) (stage : bytes)
| BE_GuestFault (context : GuestFaultContext)
| BE_NotSubmittedGuestFault (context : GuestFaultContext)
| BE_CodeHashMismatch
| BE_WrongNetwork
| BE_InvalidMetadata
| BE_StaleContext
| BE_BestContextUnavailable
| BE_QueueFull (retry_after_ms : Z)
| BE_PredictionStale
| BE_WorkNotFound
| BE_Rpc (message : bytes).

(** ** Records *)

Definition BACKEND_PROTOCOL_VERSION_V1 : Z := 1.
Definition BACKEND_DB_SCHEMA_VERSION_V1 : Z := 1.
Definition MAX_PVM_ARTIFACT_BYTES : Z := 16 * 1024 * 1024.

Inductive ArtifactFormat := JamScriptPvmV1.
#[global] Instance artifact_format_eq_dec : EqDecision ArtifactFormat.
Proof. solve_decision. Defined.
Definition ARTIFACT_WIRE_NAME : bytes := bstr "jamscript-pvm-v1".
Definition artifact_format_parse (value : bytes) : result ArtifactFormat BackendError :=
  if bool_decide (value = ARTIFACT_WIRE_NAME) then Ok JamScriptPvmV1
  else Err (BE_Rpc (bstr "unsupported artifact format")).

Record ApplicationArtifactRef := mkArtifact { ar_digest : bytes; ar_format : ArtifactFormat }.
#[global] Instance artifact_eq_dec : EqDecision ApplicationArtifactRef.
Proof. solve_decision. Defined.

Record DeploymentMetadata := mkDeployment {
  dm_manifest_digest : option bytes; dm_registered_at : option Z; dm_network_domain : option bytes
}.

Record ServiceRecord := mkServiceRecord {
  sr_service_id : Z; sr_service_key : bytes; sr_code_hash : bytes; sr_abi_version : Z;
  sr_application_artifact : ApplicationArtifactRef; sr_deployment : DeploymentMetadata
}.

Record WorkKey := mkWorkKey { wk_service_id : Z; wk_package_hash : bytes }.
#[global] Instance work_key_eq_dec : EqDecision WorkKey.
Proof. solve_decision. Defined.
#[global] Program Instance work_key_countable : Countable WorkKey :=
  inj_countable' (fun k => (wk_service_id k, wk_package_hash k)) (fun p => mkWorkKey p.1 p.2) _.
Next Obligation. by intros []. Qed.

Record FinalizedContextV1 := mkContext {
  fc_block_hash : bytes; fc_block_number : Z; fc_state_root : bytes; fc_slot : Z
}.

(** The ranges Rust's types give the fields. *)
Definition hash_ok (h : bytes) : Prop := array_ok 32 h.
Definition opt_ok {A} (P : A -> Prop) (o : option A) : Prop :=
  match o with Some a => P a | None => True end.
Definition record_ok (r : ServiceRecord) : Prop :=
  u32_ok (sr_service_id r) /\ hash_ok (sr_service_key r) /\ hash_ok (sr_code_hash r)
  /\ hash_ok (ar_digest (sr_application_artifact r))
  /\ opt_ok hash_ok (dm_manifest_digest (sr_deployment r))
  /\ opt_ok hash_ok (dm_network_domain (sr_deployment r)).

(** ** Hexadecimal text *)

Definition hex_digit (n : Z) : byte := z2b (if n <? 10 then 48 + n else 87 + n).

(** [format!("{byte:02x}")]. *)
Definition hex_byte (b : byte) : bytes := [hex_digit (b2z b / 16); hex_digit (b2z b mod 16)].

Definition hash_hex (b : bytes) : bytes := bstr "0x" ++ concat (map hex_byte b).

Definition nibble (value : byte) : result Z BackendError :=
  let v := b2z value in
  if (48 <=? v) && (v <=? 57) then Ok (v - 48)
  else if (97 <=? v) && (v <=? 102) then Ok (v - 97 + 10)
  else if (65 <=? v) && (v <=? 70) then Ok (v - 65 + 10)
  else Err (BE_Rpc (bstr "invalid hexadecimal value")).

(** [value.strip_prefix("0x").unwrap_or(value)]. *)
Definition strip_0x (value : bytes) : bytes :=
  match value with
  | x30 :: x78 :: rest => rest
  | _ => value
  end.

(** [for pair in value.chunks_exact(2)]: [(nibble(pair[0])? << 4) | nibble(pair[1])?]. *)
Fixpoint hex_pairs (value : bytes) : result bytes BackendError :=
  match value with
  | high :: low :: rest =>
      let? h := nibble high in
      let? l := nibble low in
      let? bs := hex_pairs rest in
      Ok (z2b (Z.lor (Z.shiftl h 4) l) :: bs)
  | _ => Ok []
  end.

Definition parse_hash (value : bytes) : result bytes BackendError :=
  let value := strip_0x value in
  bail_if negb (blen value =? 64) with BE_Rpc (bstr "expected a 32-byte hexadecimal value") ;;
  hex_pairs value.

Definition decode_hex (value : bytes) : result bytes BackendError :=
  let value := strip_0x value in
  bail_if negb (blen value mod 2 =? 0) with BE_Rpc (bstr "invalid hexadecimal byte string") ;;
  hex_pairs value.

Lemma hex_digit_nibble n : 0 <= n < 16 -> nibble (hex_digit n) = Ok n.
Proof.
  intros Hn. assert (Forall (fun n => nibble (hex_digit n) = Ok n) (seqZ 0 16)) as Hall by (vm_compute; repeat constructor).
  rewrite Forall_forall in Hall. apply Hall, elem_of_seqZ. lia.
Qed.

Lemma nibbles_byte b : z2b (Z.lor (Z.shiftl (b2z b / 16) 4) (b2z b mod 16)) = b.
Proof.
  pose proof (b2z_range b). apply b2z_inj. rewrite b2z_z2b.
  rewrite Z.shiftl_mul_pow2 by done. change (2 ^ 4) with 16.
  assert (Z.lor (b2z b / 16 * 16) (b2z b mod 16) = b2z b) as ->; [|by apply Z.mod_small].
  pose proof (Z.add_lor_land (b2z b / 16 * 16) (b2z b mod 16)) as Hl.
  assert (Z.land (b2z b / 16 * 16) (b2z b mod 16) = 0) as Hz.
  { change 16 with (2 ^ 4). rewrite <- Z.land_ones by done. rewrite <- Z.shiftl_mul_pow2 by done.
    rewrite (Z.land_comm (b2z b)), Z.land_assoc. apply Z.bits_inj'. intros i Hi.
    rewrite !Z.land_spec, Z.bits_0. destruct (Z.lt_ge_cases i 4).
    - by rewrite Z.shiftl_spec_low.
    - rewrite (Z.ones_spec_high 4 i) by lia. by rewrite andb_false_r. }
  pose proof (Z.div_mod (b2z b) 16 ltac:(lia)). lia.
Qed.

Lemma hex_pairs_hex b : hex_pairs (concat (map hex_byte b)) = Ok b.
Proof.
  induction b as [|x b IH]; [done|]. cbn [map concat hex_byte app hex_pairs].
  pose proof (b2z_range x). pose proof (Z.mod_pos_bound (b2z x) 16 ltac:(lia)).
  rewrite (hex_digit_nibble (b2z x / 16)) by (split; [apply Z.div_pos; lia|apply Z.div_lt_upper_bound; lia]).
  cbn [rbind]. rewrite hex_digit_nibble by done. cbn [rbind]. rewrite IH. cbn [rbind]. by rewrite nibbles_byte.
Qed.

Lemma blen_hex b : blen (concat (map hex_byte b)) = 2 * blen b.
Proof. induction b as [|x b IH]; simpl; [done|]. rewrite !blen_cons, IH. lia. Qed.

Lemma strip_hex b : strip_0x (hash_hex b) = concat (map hex_byte b).
Proof. done. Qed.

Lemma parse_hash_hex h : hash_ok h -> parse_hash (hash_hex h) = Ok h.
Proof.
  intros Hh. unfold parse_hash. rewrite strip_hex, blen_hex. unfold hash_ok, array_ok in Hh. rewrite Hh.
  apply hex_pairs_hex.
Qed.

Lemma decode_hex_hex b : decode_hex (hash_hex b) = Ok b.
Proof.
  unfold decode_hex. rewrite strip_hex, blen_hex, Z.mul_comm, Z.mod_mul by done. apply hex_pairs_hex.
Qed.

Lemma hash_hex_inj b b' : hash_hex b = hash_hex b' -> b = b'.
Proof. intros H. pose proof (decode_hex_hex b) as Hb. rewrite H, decode_hex_hex in Hb. by injection Hb. Qed.

Lemma hex_pairs_length n : forall v b, (length v <= n)%nat ->
  hex_pairs v = Ok b -> blen b = blen v / 2.
Proof.
  induction n as [|n IH]; intros v b Hn Hp.
  { destruct v; [|simpl in Hn; lia]. injection Hp as <-. done. }
  destruct v as [|x [|y v]]; cbn [hex_pairs] in Hp; [by injection Hp as <-..|].
  apply rbind_Ok in Hp as (h & _ & Hp). apply rbind_Ok in Hp as (l & _ & Hp).
  apply rbind_Ok in Hp as (bs & Hbs & [= <-]). apply IH in Hbs; [|simpl in Hn; lia].
  rewrite !blen_cons, Hbs. rewrite Z.add_assoc. change (1 + 1) with (1 * 2).
  rewrite Z.add_comm, Z.add_comm, Z.div_add_l by done. done.
Qed.

Lemma parse_hash_ok v h : parse_hash v = Ok h -> hash_ok h.
Proof.
  unfold parse_hash. intros Hp. apply bail_if_Ok in Hp as [Hg Hp]. to_prop.
  apply (hex_pairs_length (length (strip_0x v))) in Hp; [|done]. unfold hash_ok, array_ok. by rewrite Hp, Hg.
Qed.

(** ** Big-endian integers: [to_be_bytes] and [from_be_bytes] *)

Definition to_be_bytes (n : nat) (z : Z) : bytes := reverse (to_le_bytes n z).
Definition from_be_bytes (b : bytes) : Z := from_le_bytes (reverse b).

Lemma blen_to_be_bytes n z : blen (to_be_bytes n z) = Z.of_nat n.
Proof. unfold to_be_bytes, blen. by rewrite length_reverse, to_le_bytes_length. Qed.
#[export] Hint Rewrite blen_to_be_bytes : blen.

Lemma from_to_be_u32 z : u32_ok z -> from_be_bytes (to_be_bytes 4 z) = z.
Proof. intros Hz. unfold from_be_bytes, to_be_bytes. rewrite reverse_involutive. by apply from_to_u32. Qed.

Lemma from_to_be_u64 z : u64_ok z -> from_be_bytes (to_be_bytes 8 z) = z.
Proof. intros Hz. unfold from_be_bytes, to_be_bytes. rewrite reverse_involutive. by apply from_to_u64. Qed.

Lemma to_be_bytes_inj_u32 z z' : u32_ok z -> u32_ok z' -> to_be_bytes 4 z = to_be_bytes 4 z' -> z = z'.
Proof. intros Hz Hz' H. rewrite <- (from_to_be_u32 z), <- (from_to_be_u32 z'), H by done. done. Qed.

(** Keys that start with different service numbers are different. *)
Lemma be_prefix_inj z z' k k' :
  to_be_bytes 4 z ++ k = to_be_bytes 4 z' ++ k' -> to_be_bytes 4 z = to_be_bytes 4 z' /\ k = k'.
Proof.
  intros H. apply app_inj_1 in H; [done|]. pose proof (blen_to_be_bytes 4 z). pose proof (blen_to_be_bytes 4 z').
  unfold blen in *. lia.
Qed.

(** [transition_key]: the journal orders transitions by service and sequence. *)
Definition transition_key (service_id sequence : Z) : bytes :=
  to_be_bytes 4 service_id ++ to_be_bytes 8 sequence.

Lemma transition_key_inj id seq id' seq' :
  u32_ok id -> u32_ok id' -> u64_ok seq -> u64_ok seq' ->
  transition_key id seq = transition_key id' seq' -> id = id' /\ seq = seq'.
Proof.
  intros Hi Hi' Hs Hs' [Hid Hseq]%be_prefix_inj. split; [by apply to_be_bytes_inj_u32|].
  rewrite <- (from_to_be_u64 seq), <- (from_to_be_u64 seq'), Hseq by done. done.
Qed.
