(* ===== verification/Abi.v ===== *)
(** * [jamscript-ir]: the service and its ABI

    [ServiceIr], the names and descriptors of its types, the selectors of its
    actions, and [abi_for_language], which describes a service to its clients. *)

From S2P Require Import Prelude Ordering Reader Wire ServiceKeys StateView StateDiff Records Witness RefineInput Dependencies RefineOutput Ownership Crypto Actions ActionsV2 GuestMemory Types Codec Text State Overlays Provider BackendBase.

(** ** The service *)

Inductive AuthKind := AuthWallet | AuthPublic | AuthOwnership.
Inductive StateKind := Scalar | MapState.
Inductive StateEffectIr := EffectSet (state : bytes) | EffectMax (state : bytes).
Inductive ExecutionOpIr :=
| ReturnInputField (field : bytes)
| ReturnInteger (v : Z)
| AddInputField (field : bytes) (v : Z)
| NativeBytesToU64 (module function field : bytes).
Inductive ActionBodyIr :=
| Execute (operation : ExecutionOpIr) (state_effect : option StateEffectIr)
| ScriptC (symbol source_unit : bytes) (state_effect : option StateEffectIr).

Record ActionIr := mkActionIr { act_name : bytes; act_auth : AuthKind; act_input : list (FieldIr TypeIr); act_body : ActionBodyIr }.
Record StateIr := mkStateIr { st_name : bytes; st_schema : bytes; st_kind : StateKind; st_key_type : TypeIr; st_value_type : TypeIr }.
Record QueryIr := mkQueryIr { q_name : bytes; q_state : bytes }.
Record NativeImportIr := mkNativeImport { ni_module : bytes; ni_function : bytes }.
Record ServiceIr := mkServiceIr {
  ir_package_name : bytes;
  ir_package_version : bytes;
  ir_language_version : bytes;
  ir_source : bytes;
  ir_states : list StateIr;
  ir_actions : list ActionIr;
  ir_queries : list QueryIr;
  ir_native_imports : list NativeImportIr
}.

Definition LANGUAGE_VERSION : bytes := bstr "0.3".
Definition ABI_VERSION : Z := 1.
Definition ACTION_DOMAIN : bytes := bstr "jamscript/action/v1:".

(** ** Names of types *)

(** [format!] of a [u32]. *)
Definition number (n : Z) : bytes := GuestMemory.decimal n.
#[global] Arguments number : simpl never.
Definition bracketed (word body : bytes) : bytes := word ++ bstr "<" ++ body ++ bstr ">".

Fixpoint abi_name (t : TypeIr) : bytes :=
  match t with
  | TUnit => bstr "unit"
  | TU8 => bstr "u8"
  | TU16 => bstr "u16"
  | TU64 => bstr "u64"
  | TU32 => bstr "u32"
  | TU128 => bstr "u128"
  | TI8 => bstr "i8"
  | TI16 => bstr "i16"
  | TI32 => bstr "i32"
  | TI64 => bstr "i64"
  | TI128 => bstr "i128"
  | TBool => bstr "bool"
  | TAddress => bstr "address"
  | TOwnership => bstr "ownership"
  | TFixedBytes len => bracketed (bstr "FixedBytes") (number len)
  | TBytes max => bracketed (bstr "Bytes") (number max)
  | TString max => bracketed (bstr "String") (number max)
  | TFixedArray item len => bracketed (bstr "FixedArray") (abi_name item ++ bstr ", " ++ number len)
  | TArray item max => bracketed (bstr "Array") (abi_name item ++ bstr ", " ++ number max)
  | TOption item => bracketed (bstr "Option") (abi_name item)
  | TTuple items => bracketed (bstr "Tuple") (join (bstr ",") (map abi_name items))
  | TRecord fields => bracketed (bstr "Record") (join (bstr ",") (map (fun f => f_name f ++ bstr ":" ++ abi_name (f_ty f)) fields))
  | TEnum variants =>
      bracketed (bstr "Enum")
        (join (bstr ",") (map (fun v => v_name v ++ bstr "=" ++ number (b2z (v_index v)) ++ bstr ":" ++ abi_name (v_ty v)) variants))
  | TResult ok err => bracketed (bstr "Result") (abi_name ok ++ bstr "," ++ abi_name err)
  | TUnsupported name => name
  end.

(** ** Descriptors *)

(** [AbiTypeDescriptor], with [AbiField] and [AbiVariant]. *)
Inductive Descriptor :=
| DUnit | DBool | DU8 | DU16 | DU32 | DU64 | DU128 | DI8 | DI16 | DI32 | DI64 | DI128 | DAddress | DOwnership
| DFixedBytes (len : Z)
| DBytes (max : Z)
| DString (max : Z)
| DFixedArray (item : Descriptor) (len : Z)
| DArray (item : Descriptor) (max : Z)
| DOption (item : Descriptor)
| DTuple (items : list Descriptor)
| DRecord (fields : list (FieldIr Descriptor))
| DEnum (variants : list (VariantIr Descriptor))
| DResult (ok err : Descriptor).

Inductive AbiError := UnsupportedType (name : bytes).

(** [AbiTypeDescriptor::try_from]. *)
Fixpoint try_from (t : TypeIr) : result Descriptor AbiError :=
  match t with
  | TUnit => Ok DUnit
  | TBool => Ok DBool
  | TU8 => Ok DU8
  | TU16 => Ok DU16
  | TU32 => Ok DU32
  | TU64 => Ok DU64
  | TU128 => Ok DU128
  | TI8 => Ok DI8
  | TI16 => Ok DI16
  | TI32 => Ok DI32
  | TI64 => Ok DI64
  | TI128 => Ok DI128
  | TAddress => Ok DAddress
  | TOwnership => Ok DOwnership
  | TFixedBytes len => Ok (DFixedBytes len)
  | TBytes max => Ok (DBytes max)
  | TString max => Ok (DString max)
  | TFixedArray item len => let? d := try_from item in Ok (DFixedArray d len)
  | TArray item max => let? d := try_from item in Ok (DArray d max)
  | TOption item => let? d := try_from item in Ok (DOption d)
  | TTuple items => let? ds := rmap try_from items in Ok (DTuple ds)
  | TRecord fields => let? ds := rmap (fun f => let? d := try_from (f_ty f) in Ok (mkField (f_name f) d)) fields in Ok (DRecord ds)
  | TEnum variants =>
      let? ds := rmap (fun v => let? d := try_from (v_ty v) in Ok (mkVariant (v_name v) (v_index v) d)) variants in Ok (DEnum ds)
  | TResult ok err => let? a := try_from ok in let? b := try_from err in Ok (DResult a b)
  | TUnsupported name => Err (UnsupportedType name)
  end.

Definition abi_kind_max (t : TypeIr) : bytes * option Z :=
  match t with
  | TUnit => (bstr "unit", None)
  | TU8 => (bstr "u8", None)
  | TU16 => (bstr "u16", None)
  | TU32 => (bstr "u32", None)
  | TU64 => (bstr "u64", None)
  | TU128 => (bstr "u128", None)
  | TI8 => (bstr "i8", None)
  | TI16 => (bstr "i16", None)
  | TI32 => (bstr "i32", None)
  | TI64 => (bstr "i64", None)
  | TI128 => (bstr "i128", None)
  | TBool => (bstr "bool", None)
  | TAddress => (bstr "address", Some 32)
  | TOwnership => (bstr "ownership", Some 4096)
  | TFixedBytes len => (bstr "fixedBytes", Some len)
  | TBytes max => (bstr "bytes", Some max)
  | TString max => (bstr "string", Some max)
  | TFixedArray _ _ => (bstr "fixedArray", None)
  | TArray _ max => (bstr "array", Some max)
  | TOption _ => (bstr "option", None)
  | TTuple _ => (bstr "tuple", None)
  | TRecord _ => (bstr "record", None)
  | TEnum _ => (bstr "enum", None)
  | TResult _ _ => (bstr "result", None)
  | TUnsupported name => (name, None)
  end.

(** ** The ABI *)

Record AbiType := mkAbiType { at_kind : bytes; at_max : option Z; at_descriptor : Descriptor }.
(** [BTreeMap<String, AbiType>]. *)
Notation type_table := (gmap bytes AbiType).

Inductive AbiAuth := Legacy (kind : bytes) | OwnershipAuth (kind : bytes) (version : Z).
Record AbiAction := mkAbiAction {
  aa_name : bytes; aa_selector : bytes; aa_auth : AbiAuth; aa_input : list (FieldIr Descriptor); aa_execute_output : Descriptor
}.
Record AbiState := mkAbiState { as_name : bytes; as_schema : bytes; as_kind : bytes; as_key_type : Descriptor; as_value_type : Descriptor }.
Record AbiQuery := mkAbiQuery { aq_name : bytes; aq_kind : bytes; aq_state : bytes; aq_key_type : Descriptor; aq_output : Descriptor; aq_nullable : bool }.
Record Abi := mkAbi {
  abi_version : Z;
  abi_language_version : bytes;
  abi_package : bytes * bytes;
  abi_actions : list AbiAction;
  abi_queries : list AbiQuery;
  abi_types : type_table;
  abi_state : list AbiState
}.

(** [types.entry(name).or_insert(..)]. *)
Definition or_insert (name : bytes) (entry : AbiType) (types : type_table) : type_table :=
  match types !! name with Some _ => types | None => <[name := entry]> types end.

(** A loop that may fail over the parts of a type. *)
Definition for_each {A S E} (f : A -> S -> result S E) :=
  fix go (l : list A) (s : S) : result S E :=
    match l with
    | [] => Ok s
    | a :: l' => let? s := f a s in go l' s
    end.

Fixpoint collect_abi_types (t : TypeIr) (types : type_table) : result type_table AbiError :=
  let '(kind, max) := abi_kind_max t in
  let? descriptor := try_from t in
  let types := or_insert (abi_name t) (mkAbiType kind max descriptor) types in
  match t with
  | TFixedArray item _ | TArray item _ | TOption item => collect_abi_types item types
  | TTuple items => for_each collect_abi_types items types
  | TRecord fields => for_each (fun f => collect_abi_types (f_ty f)) fields types
  | TEnum variants => for_each (fun v => collect_abi_types (v_ty v)) variants types
  | TResult ok err => let? types := collect_abi_types ok types in collect_abi_types err types
  | _ => Ok types
  end.

Section Selectors.
Context `{Blake2}.
Definition action_selector (name : bytes) : bytes := take 8 (blake2_256 (ACTION_DOMAIN ++ name)).
Definition selector_hex (selector : bytes) : bytes := bstr "0x" ++ concat (map hex_byte selector).

Definition abi_auth (auth : AuthKind) : AbiAuth :=
  match auth with
  | AuthWallet => Legacy (bstr "wallet")
  | AuthPublic => Legacy (bstr "public")
  | AuthOwnership => OwnershipAuth (bstr "ownership") 1
  end.

Definition abi_field (f : FieldIr TypeIr) : result (FieldIr Descriptor) AbiError :=
  let? d := try_from (f_ty f) in Ok (mkField (f_name f) d).

Definition find_field (name : bytes) (fields : list (FieldIr TypeIr)) : option (FieldIr TypeIr) :=
  List.find (fun f => bool_decide (f_name f = name)) fields.

Definition abi_output (action : ActionIr) : result Descriptor AbiError :=
  match act_body action with
  | Execute (ReturnInputField field) _ | Execute (AddInputField field _) _ =>
      let? input := ok_or (find_field field (act_input action))
        (UnsupportedType (bstr "unknown action output field `" ++ field ++ bstr "`")) in
      try_from (f_ty input)
  | Execute (ReturnInteger _) _ | Execute (NativeBytesToU64 _ _ _) _ => Ok DU64
  | ScriptC _ _ _ => Ok DUnit
  end.

Definition abi_action (action : ActionIr) : result AbiAction AbiError :=
  let? input := rmap abi_field (act_input action) in
  let? output := abi_output action in
  Ok (mkAbiAction (act_name action) (selector_hex (action_selector (act_name action))) (abi_auth (act_auth action)) input output).

Definition find_state (name : bytes) (states : list StateIr) : option StateIr :=
  List.find (fun s => bool_decide (st_name s = name)) states.

Definition abi_query (states : list StateIr) (query : QueryIr) : result AbiQuery AbiError :=
  let? state := ok_or (find_state (q_state query) states)
    (UnsupportedType (bstr "unknown query state `" ++ q_state query ++ bstr "`")) in
  let? key_type := try_from (st_key_type state) in
  let? output := try_from (st_value_type state) in
  Ok (mkAbiQuery (q_name query) (bstr "state_get") (st_name state) key_type output true).

Definition abi_state_of (state : StateIr) : result AbiState AbiError :=
  let kind := match st_kind state with Scalar => bstr "scalar" | MapState => bstr "map" end in
  let? key_type := try_from (st_key_type state) in
  let? value_type := try_from (st_value_type state) in
  Ok (mkAbiState (st_name state) (st_schema state) kind key_type value_type).

(** The types the interface of a service mentions. *)
Definition interface_types (ir : ServiceIr) : list TypeIr :=
  concat (map (fun action => map f_ty (act_input action)) (ir_actions ir))
  ++ concat (map (fun state => [st_key_type state; st_value_type state]) (ir_states ir)).

Definition collect_types (ir : ServiceIr) : result type_table AbiError :=
  let? types := for_each collect_abi_types (interface_types ir) ∅ in
  let types := or_insert (bstr "u64") (mkAbiType (bstr "u64") None DU64) types in
  Ok (or_insert (bstr "address") (mkAbiType (bstr "address") (Some 32) DAddress) types).

Definition abi_for_language (ir : ServiceIr) (language_version : bytes) : result Abi AbiError :=
  let? types := collect_types ir in
  let? actions := rmap abi_action (ir_actions ir) in
  let? queries := rmap (abi_query (ir_states ir)) (ir_queries ir) in
  let? state := rmap abi_state_of (ir_states ir) in
  Ok (mkAbi ABI_VERSION language_version (ir_package_name ir, ir_package_version ir) actions queries types state).

Definition abi_for (ir : ServiceIr) : result Abi AbiError := abi_for_language ir LANGUAGE_VERSION.
End Selectors.
