(* ===== verification/AbiCorrect.v ===== *)
(** * What an ABI says of its service

    The names of types are unambiguous, so the table of an ABI has one entry for
    every type the interface mentions; its descriptors determine the types of
    actions, states and queries. *)

From S2P Require Import Prelude Ordering Reader Wire ServiceKeys StateView StateDiff Records Witness RefineInput Dependencies RefineOutput Ownership Crypto Actions ActionsV2 GuestMemory Types Codec Text State Overlays Provider BackendBase Abi.

(** ** Words and the bytes between them *)

Definition plain (c : byte) : bool := negb (bool_decide (c ∈ [x3c; x3e; x2c; x3a; x3d])).
Definition word (s : bytes) : bool := forallb plain s.
(** What may follow a word, and what may follow the name of a type. *)
Definition stops (s : bytes) : Prop := match s with [] => True | c :: _ => plain c = false end.
Definition closes (s : bytes) : Prop := match s with [] => True | c :: _ => c = x2c \/ c = x3e end.
Lemma closes_stops s : closes s -> stops s.
Proof. destruct s as [|c s]; [done|]. by intros [-> | ->]. Qed.

Lemma word_split a b r s : word a = true -> word b = true -> stops r -> stops s -> a ++ r = b ++ s -> a = b /\ r = s.
Proof.
  revert b. induction a as [|c a IH]; intros [|d b] Ha Hb Hr Hs Heq; cbn in *; [done|..].
  - subst r. cbn in Hr. by rewrite Hr in Hb.
  - subst s. cbn in Hs. by rewrite Hs in Ha.
  - injection Heq as -> Heq. apply andb_prop in Ha as [_ Ha], Hb as [_ Hb]. by destruct (IH b Ha Hb Hr Hs Heq) as [-> ->].
Qed.

Lemma word_number n : word (number n) = true.
Proof.
  apply forallb_forall. intros c Hc. pose proof (GuestMemory.decimal_digits n) as Hd. rewrite List.Forall_forall in Hd. apply Hd in Hc.
  unfold plain. apply negb_true_iff, bool_decide_eq_false_2. rewrite !elem_of_cons, elem_of_nil. unfold GuestMemory.is_digit in Hc.
  intros Hin. destruct_or! Hin; subst c; vm_compute in Hc; destruct Hc; congruence.
Qed.

(** ** Types whose parts have names and numbers of their own *)

Fixpoint clean (t : TypeIr) : bool :=
  match t with
  | TFixedBytes n | TBytes n | TString n => bool_decide (u32_ok n)
  | TFixedArray item n | TArray item n => clean item && bool_decide (u32_ok n)
  | TOption item => clean item
  | TTuple items => forallb clean items
  | TRecord fields => forallb (fun f => word (f_name f) && clean (f_ty f)) fields
  | TEnum variants => forallb (fun v => word (v_name v) && clean (v_ty v)) variants
  | TResult ok err => clean ok && clean err
  | TUnsupported _ => false
  | _ => true
  end.

(** The word a name begins with, and what stands in brackets after it. *)
Definition head_word (t : TypeIr) : bytes :=
  match t with
  | TFixedBytes _ => bstr "FixedBytes"
  | TBytes _ => bstr "Bytes"
  | TString _ => bstr "String"
  | TFixedArray _ _ => bstr "FixedArray"
  | TArray _ _ => bstr "Array"
  | TOption _ => bstr "Option"
  | TTuple _ => bstr "Tuple"
  | TRecord _ => bstr "Record"
  | TEnum _ => bstr "Enum"
  | TResult _ _ => bstr "Result"
  | t => abi_name t
  end.
Definition field_text (f : FieldIr TypeIr) : bytes := f_name f ++ bstr ":" ++ abi_name (f_ty f).
Definition variant_text (v : VariantIr TypeIr) : bytes := v_name v ++ bstr "=" ++ number (b2z (v_index v)) ++ bstr ":" ++ abi_name (v_ty v).
Definition inside (t : TypeIr) : option bytes :=
  match t with
  | TFixedBytes n | TBytes n | TString n => Some (number n)
  | TFixedArray item n | TArray item n => Some (abi_name item ++ bstr ", " ++ number n)
  | TOption item => Some (abi_name item)
  | TTuple items => Some (join (bstr ",") (map abi_name items))
  | TRecord fields => Some (join (bstr ",") (map field_text fields))
  | TEnum variants => Some (join (bstr ",") (map variant_text variants))
  | TResult ok err => Some (abi_name ok ++ bstr "," ++ abi_name err)
  | _ => None
  end.
Definition rest_of (t : TypeIr) : bytes := match inside t with Some body => [x3c] ++ body ++ [x3e] | None => [] end.
Lemma abi_name_parts t : abi_name t = head_word t ++ rest_of t.
Proof. destruct t; try (cbn; by rewrite ?app_nil_r); done. Qed.

Lemma head_word_plain t : clean t = true -> word (head_word t) = true /\ head_word t <> [].
Proof. by destruct t. Qed.
Lemma rest_of_stops t r : stops r -> stops (rest_of t ++ r).
Proof. unfold rest_of. by destruct (inside t). Qed.

(** Two names with something after them begin with the same word. *)
Lemma same_head t t' r r' :
  clean t = true -> clean t' = true -> closes r -> closes r' -> abi_name t ++ r = abi_name t' ++ r' ->
  head_word t = head_word t' /\ rest_of t ++ r = rest_of t' ++ r'.
Proof.
  intros Ht Ht' Hr Hr' Heq. rewrite !abi_name_parts, <- !app_assoc in Heq.
  apply word_split in Heq; [done|by apply head_word_plain..| |]; by apply rest_of_stops, closes_stops.
Qed.
Lemma name_opens t s s' : clean t = true -> abi_name t ++ s <> x3e :: s'.
Proof.
  intros Ht Heq. destruct (head_word_plain t Ht) as [Hw Hne]. rewrite abi_name_parts in Heq.
  destruct (head_word t) as [|c w]; [done|]. injection Heq as -> _. done.
Qed.

(** *** Lists *)

(** A text after which one sees where it ends, among the texts of what is [ok]. *)
Definition ends {A} (ok : A -> bool) (text : A -> bytes) (x : A) : Prop :=
  forall x' r r', ok x' = true -> closes r -> closes r' -> text x ++ r = text x' ++ r' -> x = x' /\ r = r'.

Lemma join_tails {A} ok (text : A -> bytes) l : forall l' r r',
  Forall (ends ok text) l -> forallb ok l' = true ->
  concat (map (fun x => [x2c] ++ text x) l) ++ [x3e] ++ r = concat (map (fun x => [x2c] ++ text x) l') ++ [x3e] ++ r' ->
  l = l' /\ r = r'.
Proof.
  induction l as [|x l IH]; intros [|x' l'] r r' Hl Hok Heq; cbn in *; try done; injection Heq as Heq; [done|].
  apply Forall_cons in Hl as [Hx Hl]. apply andb_prop in Hok as [Hx' Hok]. rewrite <- !app_assoc in Heq.
  apply Hx in Heq as [-> Heq]; [|done|by destruct l; [right|left]|by destruct l'; [right|left]].
  by destruct (IH l' r r' Hl Hok Heq) as [-> ->].
Qed.

Lemma join_cons x l : join (bstr ",") (x :: l) = x ++ concat (map (fun y => [x2c] ++ y) l).
Proof.
  revert x. induction l as [|y l IH]; intros x; [cbn; by rewrite app_nil_r|].
  change (join (bstr ",") (x :: y :: l)) with (x ++ bstr "," ++ join (bstr ",") (y :: l)). by rewrite IH.
Qed.

Lemma join_inj {A} ok (text : A -> bytes) l l' r r' :
  (forall x s s', ok x = true -> text x ++ s <> x3e :: s') ->
  Forall (ends ok text) l -> forallb ok l = true -> forallb ok l' = true ->
  join (bstr ",") (map text l) ++ [x3e] ++ r = join (bstr ",") (map text l') ++ [x3e] ++ r' -> l = l' /\ r = r'.
Proof.
  intros Hopens Hl Hok Hok' Heq.
  destruct l as [|x l], l' as [|x' l']; cbn [map] in Heq; rewrite ?join_cons, <- ?app_assoc in Heq.
  - by injection Heq.
  - cbn [forallb] in Hok'. apply andb_prop in Hok' as [Hx' _]. symmetry in Heq. by apply Hopens in Heq.
  - cbn [forallb] in Hok. apply andb_prop in Hok as [Hx _]. by apply Hopens in Heq.
  - apply Forall_cons in Hl as [Hx Hl]. cbn [forallb] in Hok'. apply andb_prop in Hok' as [Hx' Hok'].
    rewrite !map_map in Heq. apply Hx in Heq as [-> Heq]; [|done|by destruct l; [right|left]|by destruct l'; [right|left]].
    by destruct (join_tails ok text l l' r r' Hl Hok' Heq) as [-> ->].
Qed.

(** *** Names are unambiguous *)

(** Two bodies in brackets. *)
Lemma brackets_inj (body body' r r' : bytes) : ([x3c] ++ body ++ [x3e]) ++ r = ([x3c] ++ body' ++ [x3e]) ++ r' -> body ++ [x3e] ++ r = body' ++ [x3e] ++ r'.
Proof. cbn. rewrite <- !app_assoc. by intros [= ->]. Qed.

Lemma number_inj n n' r r' : u32_ok n -> u32_ok n' -> stops r -> stops r' -> number n ++ r = number n' ++ r' -> n = n' /\ r = r'.
Proof.
  intros Hn Hn' Hr Hr' Heq. apply word_split in Heq as [Heq ->]; [|apply word_number..|done|done]. split; [|done]. by apply GuestMemory.decimal_inj.
Qed.

Lemma option_inside_inj body body' r r' :
  (match body with Some b => [x3c] ++ b ++ [x3e] | None => [] end) ++ r = (match body' with Some b => [x3c] ++ b ++ [x3e] | None => [] end) ++ r' ->
  is_Some body -> is_Some body' -> exists b b', body = Some b /\ body' = Some b' /\ b ++ [x3e] ++ r = b' ++ [x3e] ++ r'.
Proof. intros Heq [b ->] [b' ->]. exists b, b'. split; [done|]. split; [done|]. by apply brackets_inj. Qed.

Lemma ends_field fields :
  Forall (fun f => clean (f_ty f) = true -> ends clean abi_name (f_ty f)) fields ->
  forallb (fun f => word (f_name f) && clean (f_ty f)) fields = true ->
  Forall (ends (fun f => word (f_name f) && clean (f_ty f)) field_text) fields.
Proof.
  rewrite !List.Forall_forall, forallb_forall. intros Hends Hok [n t] Hin [n' t'] r r' Hok' Hr Hr' Heq.
  specialize (Hends _ Hin). specialize (Hok _ Hin). cbn in *. apply andb_prop in Hok as [Hn Ht], Hok' as [Hn' Ht'].
  unfold field_text in Heq. cbn in Heq. rewrite <- !app_assoc in Heq. apply word_split in Heq as [-> Heq]; [|done..].
  injection Heq as Heq. by apply (Hends Ht) in Heq as [-> ->].
Qed.

Lemma ends_variant variants :
  Forall (fun v => clean (v_ty v) = true -> ends clean abi_name (v_ty v)) variants ->
  forallb (fun v => word (v_name v) && clean (v_ty v)) variants = true ->
  Forall (ends (fun v => word (v_name v) && clean (v_ty v)) variant_text) variants.
Proof.
  rewrite !List.Forall_forall, forallb_forall. intros Hends Hok [n i t] Hin [n' i' t'] r r' Hok' Hr Hr' Heq.
  specialize (Hends _ Hin). specialize (Hok _ Hin). cbn in *. apply andb_prop in Hok as [Hn Ht], Hok' as [Hn' Ht'].
  unfold variant_text in Heq. cbn in Heq. rewrite <- !app_assoc in Heq. apply word_split in Heq as [-> Heq]; [|done..].
  injection Heq as Heq. rewrite <- !app_assoc in Heq.
  apply number_inj in Heq as [Hi Heq]; [|unfold u32_ok, U32_MAX; pose proof (b2z_range i); pose proof (b2z_range i'); lia..|done|done].
  apply b2z_inj in Hi as ->. injection Heq as Heq. by apply (Hends Ht) in Heq as [-> ->].
Qed.

Lemma field_opens (f : FieldIr TypeIr) s s' : word (f_name f) && clean (f_ty f) = true -> field_text f ++ s <> x3e :: s'.
Proof. destruct f as [[|c n] t]; cbn; [done|]. intros Hw [= -> _]. done. Qed.
Lemma variant_opens (v : VariantIr TypeIr) s s' : word (v_name v) && clean (v_ty v) = true -> variant_text v ++ s <> x3e :: s'.
Proof. destruct v as [[|c n] i t]; cbn; [done|]. intros Hw [= -> _]. done. Qed.

(** Both types are built in the same way. *)
Ltac names_split :=
  intros Ht t' r r' Ht' Hr Hr' Heq; destruct (same_head _ _ _ _ Ht Ht' Hr Hr' Heq) as [Hw Hrest];
  destruct t'; try discriminate Hw; try discriminate Ht'; cbn in Ht, Ht'.
(** An item with a number after it. *)
Ltac bounded_item IH :=
  match goal with Ht : _ && _ = true, Ht' : _ && _ = true, Hrest : _ = _ |- _ =>
    apply andb_prop in Ht as [Ht Hn%bool_decide_eq_true], Ht' as [Ht' Hn'%bool_decide_eq_true];
    apply brackets_inj in Hrest; rewrite <- !app_assoc in Hrest; apply (IH Ht) in Hrest as [-> Hrest]; [|done|by left..];
    injection Hrest as Hrest; apply number_inj in Hrest as [-> Hrest]; try done; injection Hrest as ->
  end.

(** Where the name of a clean type ends is seen, and the name is no other's. *)
Lemma name_ends t : clean t = true -> ends clean abi_name t.
Proof.
  apply (type_ind (fun t => clean t = true -> ends clean abi_name t)); clear t;
    [intros t|intros item n IH|intros item n IH|intros item IH|intros items IH|intros fields IH|intros variants IH|intros ok err IHok IHerr].
  - destruct t; try done; names_split; try done; apply bool_decide_eq_true in Ht, Ht';
      apply brackets_inj, number_inj in Hrest as [-> Hrest]; try done; by injection Hrest.
  - names_split. by bounded_item IH.
  - names_split. by bounded_item IH.
  - names_split.
    apply brackets_inj, (IH Ht) in Hrest as [-> Hrest]; [|done|by right..]. by injection Hrest.
  - names_split. apply brackets_inj, (join_inj clean) in Hrest as [-> ->]; [done|by intros; apply name_opens| |done..].
    rewrite List.Forall_forall in *. rewrite forallb_forall in Ht. auto.
  - names_split. apply brackets_inj, (join_inj _ _ _ _ _ _ field_opens (ends_field _ IH Ht) Ht Ht') in Hrest as [-> ->]. done.
  - names_split. apply brackets_inj, (join_inj _ _ _ _ _ _ variant_opens (ends_variant _ IH Ht) Ht Ht') in Hrest as [-> ->]. done.
  - names_split. apply andb_prop in Ht as [Hto Hte], Ht' as [Hto' Hte'].
    apply brackets_inj in Hrest. rewrite <- !app_assoc in Hrest. apply (IHok Hto) in Hrest as [-> Hrest]; [|done|by left..].
    injection Hrest as Hrest. apply (IHerr Hte) in Hrest as [-> Hrest]; [|done|by right..]. by injection Hrest.
Qed.

Lemma abi_name_inj t t' : clean t = true -> clean t' = true -> abi_name t = abi_name t' -> t = t'.
Proof. intros Ht Ht' Heq. apply (name_ends t Ht t' [] []); try done. by rewrite Heq. Qed.

(** ** Descriptors determine types *)

Fixpoint type_of (d : Descriptor) : TypeIr :=
  match d with
  | DUnit => TUnit
  | DBool => TBool
  | DU8 => TU8
  | DU16 => TU16
  | DU32 => TU32
  | DU64 => TU64
  | DU128 => TU128
  | DI8 => TI8
  | DI16 => TI16
  | DI32 => TI32
  | DI64 => TI64
  | DI128 => TI128
  | DAddress => TAddress
  | DOwnership => TOwnership
  | DFixedBytes len => TFixedBytes len
  | DBytes max => TBytes max
  | DString max => TString max
  | DFixedArray item len => TFixedArray (type_of item) len
  | DArray item max => TArray (type_of item) max
  | DOption item => TOption (type_of item)
  | DTuple items => TTuple (map type_of items)
  | DRecord fields => TRecord (map (fun f => mkField (f_name f) (type_of (f_ty f))) fields)
  | DEnum variants => TEnum (map (fun v => mkVariant (v_name v) (v_index v) (type_of (v_ty v))) variants)
  | DResult ok err => TResult (type_of ok) (type_of err)
  end.
Definition field_of_descriptor (f : FieldIr Descriptor) : FieldIr TypeIr := mkField (f_name f) (type_of (f_ty f)).

(** The types that have a descriptor. *)
Fixpoint supported (t : TypeIr) : bool :=
  match t with
  | TFixedArray item _ | TArray item _ | TOption item => supported item
  | TTuple items => forallb supported items
  | TRecord fields => forallb (fun f => supported (f_ty f)) fields
  | TEnum variants => forallb (fun v => supported (v_ty v)) variants
  | TResult ok err => supported ok && supported err
  | TUnsupported _ => false
  | _ => true
  end.
Lemma clean_supported t : clean t = true -> supported t = true.
Proof.
  revert t. apply (type_ind (fun t => clean t = true -> supported t = true)); [by intros []|intros item n IH|intros item n IH|intros item IH|intros items IH|intros fields IH|intros variants IH|intros ok err IHok IHerr]; cbn.
  - intros [Hc _]%andb_prop. auto.
  - intros [Hc _]%andb_prop. auto.
  - auto.
  - rewrite !forallb_forall. rewrite List.Forall_forall in IH. auto.
  - rewrite !forallb_forall. rewrite List.Forall_forall in IH. intros Hc f Hf. specialize (Hc f Hf). apply andb_prop in Hc as [_ Hc]. auto.
  - rewrite !forallb_forall. rewrite List.Forall_forall in IH. intros Hc v Hv. specialize (Hc v Hv). apply andb_prop in Hc as [_ Hc]. auto.
  - intros [Ho He]%andb_prop. by rewrite IHok, IHerr.
Qed.

(** A map of texts to what they are made from. *)
Lemma rmap_exact {A B E} (f : A -> result B E) (good : A -> bool) (back : B -> A) l :
  Forall (fun a => (forall b, f a = Ok b -> back b = a) /\ is_ok (f a) = good a) l ->
  (forall bs, rmap f l = Ok bs -> map back bs = l) /\ is_ok (rmap f l) = forallb good l.
Proof.
  induction 1 as [|a l [Hback Hgood] _ [IHb IHg]]; cbn; [by split; [intros bs [= <-]|]|]. rewrite <- Hgood, <- IHg.
  destruct (f a) as [b|]; [|done]. cbn. destruct (rmap f l) as [bs|]; [|done]. split; [|done]. intros ? [= <-]. cbn. by rewrite (Hback b), (IHb bs).
Qed.

Lemma rbind_back {A B E} (m : result A E) (mk : A -> B) good (back : B -> TypeIr) t :
  (forall a, m = Ok a -> back (mk a) = t) -> is_ok m = good ->
  (forall b, (let? a := m in Ok (mk a)) = Ok b -> back b = t) /\ is_ok (let? a := m in Ok (mk a)) = good.
Proof. intros Hback <-. destruct m as [a|]; [|done]. split; [|done]. intros b [= <-]. by apply Hback. Qed.

(** [try_from] and [type_of] are inverse, and nothing else is refused. *)
Lemma try_from_exact t : (forall d, try_from t = Ok d -> type_of d = t) /\ is_ok (try_from t) = supported t.
Proof.
  revert t. apply (type_ind (fun t => (forall d, try_from t = Ok d -> type_of d = t) /\ is_ok (try_from t) = supported t));
    [|intros item n [Hb Hg]|intros item n [Hb Hg]|intros item [Hb Hg]|intros items IH|intros fields IH|intros variants IH|intros ok err [Hob Hog] [Heb Heg]].
  - intros []; try done; split; try done; by intros d [= <-].
  - apply rbind_back; [|done]. intros d Hd. cbn. by rewrite Hb.
  - apply rbind_back; [|done]. intros d Hd. cbn. by rewrite Hb.
  - apply rbind_back; [|done]. intros d Hd. cbn. by rewrite Hb.
  - destruct (rmap_exact try_from supported type_of items IH) as [Hb Hg]. apply rbind_back; [|done]. intros ds Hds. cbn. by rewrite (Hb ds).
  - edestruct (rmap_exact (fun f => let? d := try_from (f_ty f) in Ok (mkField (f_name f) d)) (fun f => supported (f_ty f)) field_of_descriptor fields)
      as [Hb Hg]; [|apply rbind_back; [|done]; intros ds Hds; cbn; by rewrite <- (Hb ds)].
    eapply Forall_impl; [exact IH|]. intros [n t] [Hb Hg]. cbn in *. rewrite <- Hg. destruct (try_from t) as [d|]; [|done].
    split; [|done]. intros f [= <-]. unfold field_of_descriptor. cbn. by rewrite (Hb d).
  - edestruct (rmap_exact (fun v => let? d := try_from (v_ty v) in Ok (mkVariant (v_name v) (v_index v) d)) (fun v => supported (v_ty v))
      (fun v => mkVariant (v_name v) (v_index v) (type_of (v_ty v))) variants) as [Hb Hg]; [|apply rbind_back; [|done]; intros ds Hds; cbn; by rewrite <- (Hb ds)].
    eapply Forall_impl; [exact IH|]. intros [n i t] [Hb Hg]. cbn in *. rewrite <- Hg. destruct (try_from t) as [d|]; [|done].
    split; [|done]. intros v [= <-]. cbn. by rewrite (Hb d).
  - cbn. rewrite <- Hog, <- Heg. destruct (try_from ok) as [a|]; [|done]. cbn. destruct (try_from err) as [b|]; [|done].
    split; [|done]. intros d [= <-]. cbn. by rewrite (Hob a), (Heb b).
Qed.
Lemma try_from_back t d : try_from t = Ok d -> type_of d = t.
Proof. apply try_from_exact. Qed.
Lemma try_from_ok t : supported t = true -> exists d, try_from t = Ok d.
Proof. intros Ht. destruct (try_from_exact t) as [_ Hg]. rewrite Ht in Hg. destruct (try_from t); [eauto|done]. Qed.
Lemma try_from_supported t d : try_from t = Ok d -> supported t = true.
Proof. intros Hd. destruct (try_from_exact t) as [_ <-]. by rewrite Hd. Qed.

(** ** The table of types *)

(** A type and the types it is built from. *)
Fixpoint parts (t : TypeIr) : list TypeIr :=
  t :: match t with
       | TFixedArray item _ | TArray item _ | TOption item => parts item
       | TTuple items => concat (map parts items)
       | TRecord fields => concat (map (fun f => parts (f_ty f)) fields)
       | TEnum variants => concat (map (fun v => parts (v_ty v)) variants)
       | TResult ok err => parts ok ++ parts err
       | _ => []
       end.

Definition entry (t : TypeIr) (e : AbiType) : Prop :=
  exists d, try_from t = Ok d /\ e = mkAbiType (abi_kind_max t).1 (abi_kind_max t).2 d.
Lemma entry_type t e : entry t e -> type_of (at_descriptor e) = t.
Proof. intros (d & Hd & ->). by apply try_from_back. Qed.

(** The table has the entries of these types, under their names, and no others. *)
Definition holds (used : TypeIr -> Prop) (types : type_table) : Prop :=
  forall name e, types !! name = Some e <-> exists t, used t /\ abi_name t = name /\ entry t e.

Lemma holds_iff used used' types : (forall t, used t <-> used' t) -> holds used types -> holds used' types.
Proof. intros Hu Ht name e. rewrite (Ht name e). by setoid_rewrite Hu. Qed.

Lemma or_insert_holds used types t e :
  (forall u, used u -> clean u = true) -> clean t = true -> entry t e -> holds used types ->
  holds (fun u => u = t \/ used u) (or_insert (abi_name t) e types).
Proof.
  intros Hused Ht He Hh.
  assert (forall e', entry t e' -> e' = e) as Hfun by (intros e' (d' & Hd' & ->); destruct He as (d & Hd & ->); congruence).
  assert (or_insert (abi_name t) e types !! abi_name t = Some e) as Hin.
  { unfold or_insert. destruct (types !! abi_name t) as [e'|] eqn:Hl; [|apply lookup_insert_eq]. rewrite Hl.
    apply Hh in Hl as (u & Hu & Hn & He'). apply abi_name_inj in Hn as ->; [|by apply Hused|done]. by rewrite (Hfun e'). }
  intros name e'. destruct (decide (name = abi_name t)) as [->|Hne].
  - rewrite Hin. split; [intros [= <-]; exists t; auto|]. intros (u & [->|Hu] & Hn & He'); [by rewrite (Hfun e')|].
    apply abi_name_inj in Hn as ->; [by rewrite (Hfun e')|by apply Hused|done].
  - assert (or_insert (abi_name t) e types !! name = types !! name) as ->.
    { unfold or_insert. destruct (types !! abi_name t); [done|]. by rewrite lookup_insert_ne. }
    rewrite (Hh name e'). split; intros (u & Hu & Hn & He'); exists u; [auto|]. destruct Hu as [->|Hu]; [done|auto].
Qed.

(** What a collecting function does: it adds the types [new]. *)
Definition adds (f : type_table -> result type_table AbiError) (new : list TypeIr) : Prop :=
  forall used types, (forall u, used u -> clean u = true) -> holds used types ->
    exists types', f types = Ok types' /\ holds (fun u => u ∈ new \/ used u) types'.

Lemma adds_nil : adds Ok [].
Proof. intros used types _ Hh. exists types. split; [done|]. eapply holds_iff; [|exact Hh]. intros t. rewrite elem_of_nil. tauto. Qed.
Lemma adds_app f g new new' :
  Forall (fun t => clean t = true) new -> adds f new -> adds g new' -> adds (fun types => let? types := f types in g types) (new ++ new').
Proof.
  intros Hnew Hf Hg used types Hused Hh. destruct (Hf used types Hused Hh) as (types1 & Hf1 & Hh1). rewrite Hf1. cbn [rbind].
  rewrite List.Forall_forall in Hnew.
  destruct (Hg (fun u => u ∈ new \/ used u) types1) as (types2 & Hg2 & Hh2); [intros u [Hu%list_elem_of_In|Hu]; auto|done|].
  exists types2. split; [done|]. eapply holds_iff; [|exact Hh2]. intros t. cbv beta. rewrite elem_of_app. tauto.
Qed.
Lemma adds_each {A} (f : A -> type_table -> result type_table AbiError) (new : A -> list TypeIr) l :
  Forall (fun a => adds (f a) (new a)) l -> Forall (fun t => clean t = true) (concat (map new l)) -> adds (for_each f l) (concat (map new l)).
Proof.
  induction 1 as [|a l Ha Hl IH]; cbn [map concat]; intros Hc; [apply adds_nil|]. apply Forall_app in Hc as [Hca Hc].
  apply (adds_app (f a) (for_each f l)); [done..|]. by apply IH.
Qed.

Lemma concat_clean {A} (new : A -> list TypeIr) l :
  Forall (fun a => Forall (fun t => clean t = true) (new a)) l -> Forall (fun t => clean t = true) (concat (map new l)).
Proof. induction 1; cbn; [done|]. by apply Forall_app. Qed.

Lemma parts_clean t : clean t = true -> Forall (fun u => clean u = true) (parts t).
Proof.
  revert t. apply (type_ind (fun t => clean t = true -> Forall (fun u => clean u = true) (parts t)));
    [intros t|intros item n IH|intros item n IH|intros item IH|intros items IH|intros fields IH|intros variants IH|intros ok err IHok IHerr].
  - destruct t; try done; intros Ht; by repeat constructor.
  - intros Ht. constructor; [done|]. cbn in Ht. apply andb_prop in Ht as [Ht _]. auto.
  - intros Ht. constructor; [done|]. cbn in Ht. apply andb_prop in Ht as [Ht _]. auto.
  - intros Ht. constructor; [done|]. auto.
  - intros Ht. constructor; [done|]. cbn in Ht. rewrite forallb_forall in Ht. apply concat_clean. rewrite List.Forall_forall in *. auto.
  - intros Ht. constructor; [done|]. cbn in Ht. rewrite forallb_forall in Ht. apply concat_clean. rewrite List.Forall_forall in *.
    intros f Hf. specialize (Ht f Hf). apply andb_prop in Ht as [_ Ht]. auto.
  - intros Ht. constructor; [done|]. cbn in Ht. rewrite forallb_forall in Ht. apply concat_clean. rewrite List.Forall_forall in *.
    intros v Hv. specialize (Ht v Hv). apply andb_prop in Ht as [_ Ht]. auto.
  - intros Ht. constructor; [done|]. cbn in Ht. apply andb_prop in Ht as [Ho He]. apply Forall_app. auto.
Qed.

(** The entry of a type, before those of its parts. *)
Definition insert_type (t : TypeIr) (types : type_table) : result type_table AbiError :=
  let? d := try_from t in Ok (or_insert (abi_name t) (mkAbiType (abi_kind_max t).1 (abi_kind_max t).2 d) types).

Lemma adds_insert t : clean t = true -> adds (insert_type t) [t].
Proof.
  intros Ht used types Hused Hh. destruct (try_from_ok t) as [d Hd]; [by apply clean_supported|]. unfold insert_type. rewrite Hd. cbn [rbind].
  eexists. split; [done|]. eapply holds_iff; [|apply or_insert_holds; [exact Hused|done| |exact Hh]].
  - intros u. cbv beta. by rewrite list_elem_of_singleton.
  - by exists d.
Qed.

Lemma adds_collect t tail new :
  clean t = true -> (forall types, collect_abi_types t types = let? types := insert_type t types in tail types) ->
  adds tail new -> adds (collect_abi_types t) (t :: new).
Proof.
  intros Ht Heq Htail. pose proof (adds_app (insert_type t) tail [t] new) as Happ. intros used types Hused Hh. rewrite Heq.
  apply Happ; try done; [by repeat constructor|by apply adds_insert].
Qed.

Ltac collect_step :=
  intros types; unfold insert_type; cbn [collect_abi_types abi_kind_max fst snd];
  match goal with |- context [try_from ?u] => destruct (try_from u) end; reflexivity.

Lemma collect_adds t : clean t = true -> adds (collect_abi_types t) (parts t).
Proof.
  revert t. apply (type_ind (fun t => clean t = true -> adds (collect_abi_types t) (parts t)));
    [intros t|intros item n IH|intros item n IH|intros item IH|intros items IH|intros fields IH|intros variants IH|intros ok err IHok IHerr].
  - destruct t; try exact I; intros Ht; try discriminate Ht; (apply (adds_collect _ Ok []); [exact Ht|intros types; reflexivity|apply adds_nil]).
  - intros Ht. apply (adds_collect _ (collect_abi_types item)); [done|collect_step|]. cbn in Ht. apply andb_prop in Ht as [Ht _]. auto.
  - intros Ht. apply (adds_collect _ (collect_abi_types item)); [done|collect_step|]. cbn in Ht. apply andb_prop in Ht as [Ht _]. auto.
  - intros Ht. apply (adds_collect _ (collect_abi_types item)); [done|collect_step|]. auto.
  - intros Ht. apply (adds_collect _ (for_each collect_abi_types items)); [done|collect_step|]. cbn in Ht. rewrite forallb_forall in Ht.
    apply adds_each; [|apply concat_clean]; rewrite List.Forall_forall in *; [auto|]. intros i Hi. apply parts_clean. auto.
  - intros Ht. apply (adds_collect _ (for_each (fun f => collect_abi_types (f_ty f)) fields)); [done|collect_step|]. cbn in Ht. rewrite forallb_forall in Ht.
    apply (adds_each (fun f => collect_abi_types (f_ty f)) (fun f => parts (f_ty f))); [|apply concat_clean]; rewrite List.Forall_forall in *; intros f Hf;
      specialize (Ht f Hf); apply andb_prop in Ht as [_ Ht]; [auto|by apply parts_clean].
  - intros Ht. apply (adds_collect _ (for_each (fun v => collect_abi_types (v_ty v)) variants)); [done|collect_step|]. cbn in Ht. rewrite forallb_forall in Ht.
    apply (adds_each (fun v => collect_abi_types (v_ty v)) (fun v => parts (v_ty v))); [|apply concat_clean]; rewrite List.Forall_forall in *; intros v Hv;
      specialize (Ht v Hv); apply andb_prop in Ht as [_ Ht]; [auto|by apply parts_clean].
  - intros Ht. apply (adds_collect _ (fun types => let? types := collect_abi_types ok types in collect_abi_types err types)); [done|collect_step|].
    cbn in Ht. apply andb_prop in Ht as [Ho He]. apply adds_app; [by apply parts_clean|auto..].
Qed.

(** The types a client can look up: those of the interface with their parts, and two more. *)
Definition named_types (ir : ServiceIr) (t : TypeIr) : Prop :=
  t = TU64 \/ t = TAddress \/ exists u, u ∈ interface_types ir /\ t ∈ parts u.

Lemma collect_types_holds ir :
  Forall (fun t => clean t = true) (interface_types ir) -> exists types, collect_types ir = Ok types /\ holds (named_types ir) types.
Proof.
  intros Hc. unfold collect_types.
  assert (Forall (fun t => clean t = true) (concat (map parts (interface_types ir)))) as Hparts.
  { apply concat_clean. eapply Forall_impl; [exact Hc|]. apply parts_clean. }
  destruct (adds_each collect_abi_types parts (interface_types ir) (Forall_impl _ _ _ Hc collect_adds) Hparts (fun _ => False) ∅) as (types & Ht & Hh);
    [done|intros name e; split; [by rewrite lookup_empty|by intros (? & ? & _)]|].
  rewrite Ht. cbn [rbind]. eexists. split; [done|].
  assert (forall u, u ∈ concat (map parts (interface_types ir)) \/ False -> clean u = true) as Hused.
  { intros u [Hu%list_elem_of_In|[]]. rewrite List.Forall_forall in Hparts. auto. }
  apply (or_insert_holds _ _ TU64 (mkAbiType (bstr "u64") None DU64) Hused) in Hh; [|done|by exists DU64].
  apply (or_insert_holds _ _ TAddress (mkAbiType (bstr "address") (Some 32) DAddress)) in Hh; [|intros u [->|Hu]; [done|auto]|done|by exists DAddress].
  eapply holds_iff; [|exact Hh]. intros t. cbv beta. unfold named_types. rewrite list_elem_of_In, in_concat. setoid_rewrite in_map_iff. split.
  - intros [->|[->|[(l & (u & <- & Hu) & Ht')|[]]]]; [auto..|]. right. right. exists u. by rewrite !list_elem_of_In.
  - intros [->|[->|(u & Hu & Ht')]]; [auto..|]. right. right. left. exists (parts u). rewrite !list_elem_of_In in *. eauto.
Qed.

(** ** What is described, and when *)

(** Types are collected whenever they have descriptors. *)
Lemma for_each_ok {A} (f : A -> type_table -> result type_table AbiError) l :
  (forall a, In a l -> forall types, exists types', f a types = Ok types') -> forall types, exists types', for_each f l types = Ok types'.
Proof.
  induction l as [|a l IH]; intros Hl types; [by eexists|]. cbn. destruct (Hl a (or_introl eq_refl) types) as [types1 ->]. cbn.
  apply IH. intros b Hb. apply Hl. by right.
Qed.

Lemma collect_tail t tail :
  supported t = true -> (forall types, collect_abi_types t types = let? types := insert_type t types in tail types) ->
  (forall types, exists types', tail types = Ok types') -> forall types, exists types', collect_abi_types t types = Ok types'.
Proof. intros [d Hd]%try_from_ok Heq Htail types. rewrite Heq. unfold insert_type. rewrite Hd. cbn [rbind]. apply Htail. Qed.

Lemma collect_ok t : supported t = true -> forall types, exists types', collect_abi_types t types = Ok types'.
Proof.
  revert t. apply (type_ind (fun t => supported t = true -> forall types, exists types', collect_abi_types t types = Ok types'));
    [intros t|intros item n IH|intros item n IH|intros item IH|intros items IH|intros fields IH|intros variants IH|intros ok err IHok IHerr].
  - destruct t; try exact I; intros Ht; try discriminate Ht; intros types; by eexists.
  - intros Ht. apply (collect_tail _ (collect_abi_types item)); [exact Ht|collect_step|by apply IH].
  - intros Ht. apply (collect_tail _ (collect_abi_types item)); [exact Ht|collect_step|by apply IH].
  - intros Ht. apply (collect_tail _ (collect_abi_types item)); [exact Ht|collect_step|by apply IH].
  - intros Ht. apply (collect_tail _ (for_each collect_abi_types items)); [exact Ht|collect_step|]. cbn in Ht. rewrite forallb_forall in Ht.
    rewrite List.Forall_forall in IH. apply for_each_ok. auto.
  - intros Ht. apply (collect_tail _ (for_each (fun f => collect_abi_types (f_ty f)) fields)); [exact Ht|collect_step|]. cbn in Ht.
    rewrite forallb_forall in Ht. rewrite List.Forall_forall in IH. apply for_each_ok. auto.
  - intros Ht. apply (collect_tail _ (for_each (fun v => collect_abi_types (v_ty v)) variants)); [exact Ht|collect_step|]. cbn in Ht.
    rewrite forallb_forall in Ht. rewrite List.Forall_forall in IH. apply for_each_ok. auto.
  - intros Ht. pose proof Ht as [Ho He]%andb_prop.
    apply (collect_tail _ (fun types => let? types := collect_abi_types ok types in collect_abi_types err types)); [exact Ht|collect_step|].
    intros types. destruct (IHok Ho types) as [types1 ->]. cbn [rbind]. by apply IHerr.
Qed.

Lemma collect_supported t types types' : collect_abi_types t types = Ok types' -> supported t = true.
Proof.
  intros Hc. destruct (try_from t) as [d|e] eqn:Hd; [by eapply try_from_supported|].
  destruct t; cbn [collect_abi_types abi_kind_max] in Hc; rewrite Hd in Hc; discriminate Hc.
Qed.

Section Described.
Context `{Blake2}.

(** The input field an action answers with is one it has. *)
Definition output_known (a : ActionIr) : Prop :=
  match act_body a with
  | Execute (ReturnInputField field) _ | Execute (AddInputField field _) _ => is_Some (find_field field (act_input a))
  | _ => True
  end.
Definition describable (ir : ServiceIr) : Prop :=
  Forall (fun t => supported t = true) (interface_types ir) /\ Forall output_known (ir_actions ir)
  /\ Forall (fun q => is_Some (find_state (q_state q) (ir_states ir))) (ir_queries ir).

(** The type of the answer of an action. *)
Definition output_type (a : ActionIr) : option TypeIr :=
  match act_body a with
  | Execute (ReturnInputField field) _ | Execute (AddInputField field _) _ => f_ty <$> find_field field (act_input a)
  | Execute _ _ => Some TU64
  | ScriptC _ _ _ => Some TUnit
  end.

Definition describes_action (a : ActionIr) (b : AbiAction) : Prop :=
  aa_name b = act_name a /\ aa_selector b = selector_hex (action_selector (act_name a)) /\ aa_auth b = abi_auth (act_auth a)
  /\ map field_of_descriptor (aa_input b) = act_input a /\ Some (type_of (aa_execute_output b)) = output_type a.
Definition describes_state (s : StateIr) (b : AbiState) : Prop :=
  as_name b = st_name s /\ as_schema b = st_schema s /\ (as_kind b = bstr "map" <-> st_kind s = MapState)
  /\ type_of (as_key_type b) = st_key_type s /\ type_of (as_value_type b) = st_value_type s.
Definition describes_query (states : list StateIr) (q : QueryIr) (b : AbiQuery) : Prop :=
  aq_name b = q_name q /\ exists s, find_state (q_state q) states = Some s /\ aq_state b = st_name s
  /\ type_of (aq_key_type b) = st_key_type s /\ type_of (aq_output b) = st_value_type s /\ aq_nullable b = true.

Lemma rmap_described {A B E} (f : A -> result B E) (R : A -> B -> Prop) l bs :
  (forall a b, f a = Ok b -> R a b) -> rmap f l = Ok bs -> Forall2 R l bs.
Proof. intros HR Hl%rmap_Ok. eapply Forall2_impl; [exact Hl|]. auto. Qed.
Lemma rmap_back {A B E} (f : A -> result B E) (back : B -> A) l bs :
  (forall a b, f a = Ok b -> back b = a) -> rmap f l = Ok bs -> map back bs = l.
Proof. intros Hb Hl%rmap_Ok. induction Hl as [|a b l bs Ha Hl IH]; [done|]. cbn. by rewrite (Hb a b), IH. Qed.
Lemma rmap_total {A B E} (f : A -> result B E) l : Forall (fun a => exists b, f a = Ok b) l -> exists bs, rmap f l = Ok bs.
Proof. induction 1 as [|a l [b Hb] _ [bs Hbs]]; [by exists []|]. cbn. rewrite Hb. cbn. rewrite Hbs. by eexists. Qed.

Lemma abi_field_back f d : abi_field f = Ok d -> field_of_descriptor d = f.
Proof.
  unfold abi_field. intros Hf. apply rbind_Ok in Hf as (d' & Hd & Hf). injection Hf as <-. apply try_from_back in Hd.
  unfold field_of_descriptor. cbn. rewrite Hd. by destruct f.
Qed.

Lemma abi_action_described a b : abi_action a = Ok b -> describes_action a b /\ output_known a.
Proof.
  unfold abi_action. intros Ha. apply rbind_Ok in Ha as (input & Hin & Ha). apply rbind_Ok in Ha as (output & Hout & Ha). injection Ha as <-.
  assert (map field_of_descriptor input = act_input a) as Hback.
  { apply (rmap_back abi_field); [apply abi_field_back|done]. }
  unfold describes_action, output_known, output_type, abi_output in *. cbn.
  destruct (act_body a) as [[field|v|field v|module function field] effect|symbol unit effect];
    try (injection Hout as <-; by split_and!);
    (apply rbind_Ok in Hout as (f & Hf & Hout); apply ok_or_Ok in Hf; rewrite Hf; cbn;
     apply try_from_back in Hout; rewrite Hout; by split_and!).
Qed.
Lemma abi_state_described s b : abi_state_of s = Ok b -> describes_state s b.
Proof.
  unfold abi_state_of. intros Hs. apply rbind_Ok in Hs as (k & Hk%try_from_back & Hs). apply rbind_Ok in Hs as (v & Hv%try_from_back & Hs).
  injection Hs as <-. unfold describes_state. cbn. split_and!; try done. by destruct (st_kind s).
Qed.
Lemma abi_query_described states q b : abi_query states q = Ok b -> describes_query states q b.
Proof.
  unfold abi_query. intros Hq. apply rbind_Ok in Hq as (s & Hs%ok_or_Ok & Hq). apply rbind_Ok in Hq as (k & Hk%try_from_back & Hq).
  apply rbind_Ok in Hq as (v & Hv%try_from_back & Hq). injection Hq as <-. split; [done|]. exists s. by split_and!.
Qed.

Lemma describable_ok ir lang : describable ir -> exists abi, abi_for_language ir lang = Ok abi.
Proof.
  intros (Htypes & Houts & Hqueries). rewrite List.Forall_forall in Htypes.
  assert (exists types, collect_types ir = Ok types) as [types Ht].
  { unfold collect_types. destruct (for_each_ok collect_abi_types (interface_types ir)) with (types := ∅ : type_table) as [types ->].
    - intros t Ht. apply collect_ok. auto.
    - by eexists. }
  assert (forall t, t ∈ interface_types ir -> exists d, try_from t = Ok d) as Hdesc.
  { intros t Hin%list_elem_of_In. apply try_from_ok. auto. }
  assert (forall a f, a ∈ ir_actions ir -> f ∈ act_input a -> exists d, try_from (f_ty f) = Ok d) as Hinput.
  { intros a f Ha Hf. apply Hdesc. unfold interface_types. apply elem_of_app. left. apply list_elem_of_In, in_concat.
    exists (map f_ty (act_input a)). split; [by apply (in_map (fun a => map f_ty (act_input a))), list_elem_of_In|by apply in_map, list_elem_of_In]. }
  assert (forall s, s ∈ ir_states ir -> (exists d, try_from (st_key_type s) = Ok d) /\ exists d, try_from (st_value_type s) = Ok d) as Hstate.
  { intros s Hs. assert (forall t, t ∈ [st_key_type s; st_value_type s] -> t ∈ interface_types ir) as Hin.
    { intros t Ht'. unfold interface_types. apply elem_of_app. right. apply list_elem_of_In, in_concat.
      exists [st_key_type s; st_value_type s]. split; [by apply (in_map (fun s => [st_key_type s; st_value_type s])), list_elem_of_In|by apply list_elem_of_In]. }
    split; apply Hdesc, Hin; [by left|by right; left]. }
  destruct (rmap_total abi_action (ir_actions ir)) as [actions Ha].
  { rewrite Forall_forall in *. intros a Ha. destruct (rmap_total abi_field (act_input a)) as [input Hin].
    - apply Forall_forall. intros f Hf. destruct (Hinput a f Ha Hf) as [d Hd]. unfold abi_field. rewrite Hd. by eexists.
    - unfold abi_action. rewrite Hin. cbn [rbind]. specialize (Houts a Ha). unfold output_known in Houts. unfold abi_output.
      destruct (act_body a) as [[field|v|field v|module function field] effect|symbol unit effect]; try by eexists.
      all: destruct Houts as [f Hf]; rewrite Hf; cbn [ok_or rbind]; apply List.find_some in Hf as [Hf _];
        destruct (Hinput a f Ha) as [d Hd]; [by apply list_elem_of_In|]; rewrite Hd; by eexists. }
  destruct (rmap_total (abi_query (ir_states ir)) (ir_queries ir)) as [queries Hq].
  { eapply Forall_impl; [exact Hqueries|]. intros q [s Hs]. unfold abi_query. rewrite Hs. cbn [ok_or rbind]. apply List.find_some in Hs as [Hs _].
    destruct (Hstate s) as [[k Hk] [v Hv]]; [by apply list_elem_of_In|]. rewrite Hk, Hv. by eexists. }
  destruct (rmap_total abi_state_of (ir_states ir)) as [states Hs].
  { apply Forall_forall. intros s Hs. unfold abi_state_of. destruct (Hstate s Hs) as [[k Hk] [v Hv]]. rewrite Hk, Hv. by eexists. }
  unfold abi_for_language. rewrite Ht, Ha, Hq, Hs. by eexists.
Qed.

Lemma for_each_supported l : forall types types', for_each collect_abi_types l types = Ok types' -> Forall (fun t => supported t = true) l.
Proof.
  induction l as [|t l IH]; intros types types' Hl; [done|]. cbn in Hl. apply rbind_Ok in Hl as (types1 & Ht & Hl).
  constructor; [by eapply collect_supported|by eapply IH].
Qed.

(** The parts of an ABI that was made. *)
Lemma abi_parts ir lang abi :
  abi_for_language ir lang = Ok abi ->
  collect_types ir = Ok (abi_types abi) /\ rmap abi_action (ir_actions ir) = Ok (abi_actions abi)
  /\ rmap (abi_query (ir_states ir)) (ir_queries ir) = Ok (abi_queries abi) /\ rmap abi_state_of (ir_states ir) = Ok (abi_state abi).
Proof.
  unfold abi_for_language. intros Ha. apply rbind_Ok in Ha as (types & -> & Ha). apply rbind_Ok in Ha as (actions & -> & Ha).
  apply rbind_Ok in Ha as (queries & -> & Ha). apply rbind_Ok in Ha as (states & -> & Ha). by injection Ha as <-.
Qed.

Lemma abi_describable ir lang abi : abi_for_language ir lang = Ok abi -> describable ir.
Proof.
  intros (Ht & Ha & Hq & _)%abi_parts. unfold collect_types in Ht. apply rbind_Ok in Ht as (types & Ht & _). split; [by eapply for_each_supported|]. split.
  - apply (rmap_described _ (fun a _ => output_known a)) in Ha; [|intros a b Hab; apply (abi_action_described a b Hab)].
    eapply Forall2_Forall_l; [exact Ha|]. by apply Forall_true.
  - apply (rmap_described _ _ _ _ (abi_query_described _)) in Hq. eapply Forall2_Forall_l; [exact Hq|]. apply Forall_true.
    intros b q (_ & s & Hs & _). by exists s.
Qed.

(** C34: an ABI is made of exactly the services whose types are all supported, whose
    queries name a state and whose actions answer with a field they have; its
    actions, states and queries determine names, selectors and types of those of
    the service, in order; and where the names in the types hold no delimiter, the
    type table has one entry of its own for every type the interface mentions, and
    no other. *)
Theorem abi_exact (ir : ServiceIr) (lang : bytes) :
  ((exists abi, abi_for_language ir lang = Ok abi) <-> describable ir)
  /\ forall abi, abi_for_language ir lang = Ok abi ->
       Forall2 describes_action (ir_actions ir) (abi_actions abi) /\ Forall2 describes_state (ir_states ir) (abi_state abi)
       /\ Forall2 (describes_query (ir_states ir)) (ir_queries ir) (abi_queries abi)
       /\ (Forall (fun t => clean t = true) (interface_types ir) ->
           (forall name e, abi_types abi !! name = Some e <-> exists t, named_types ir t /\ abi_name t = name /\ entry t e)
           /\ forall name name' e e', abi_types abi !! name = Some e -> abi_types abi !! name' = Some e' ->
                type_of (at_descriptor e) = type_of (at_descriptor e') -> name = name').
Proof.
  split; [split; [intros [abi Ha]; by eapply abi_describable|apply describable_ok]|]. intros abi (Ht & Ha & Hq & Hs)%abi_parts.
  split; [|split; [|split]].
  - eapply rmap_described; [|exact Ha]. intros a b Hab. apply (abi_action_described a b Hab).
  - eapply rmap_described; [|exact Hs]. apply abi_state_described.
  - eapply rmap_described; [|exact Hq]. apply abi_query_described.
  - intros Hc. destruct (collect_types_holds ir Hc) as (types & Ht' & Hh). rewrite Ht in Ht'. injection Ht' as <-. split; [exact Hh|].
    intros name name' e e' (t & _ & <- & He%entry_type)%Hh (t' & _ & <- & He'%entry_type)%Hh Heq. congruence.
Qed.
End Described.

(** ** A service *)

Module SampleService.
#[global] Instance hash : Blake2 := zero_hash.
Definition position : TypeIr := TRecord [mkField (bstr "x") TU32; mkField (bstr "y") (TOption TI64)].
Definition service : ServiceIr :=
  mkServiceIr (bstr "game") (bstr "0.1.0") LANGUAGE_VERSION []
    [mkStateIr (bstr "players") (bstr "players/v1") MapState TAddress (TArray position 16)]
    [mkActionIr (bstr "move") AuthWallet [mkField (bstr "to") position; mkField (bstr "note") (TString 64)] (Execute (ReturnInputField (bstr "to")) None)]
    [mkQueryIr (bstr "player") (bstr "players")] [].
Definition made : result Abi AbiError := abi_for_language service LANGUAGE_VERSION.
End SampleService.

(** Two types of one name, when a field name holds delimiters. *)
Lemma names_need_clean_fields :
  let split := TRecord [mkField (bstr "a") TU8; mkField (bstr "b") TU8] in
  let joined := TRecord [mkField (bstr "a:u8,b") TU8] in
  abi_name split = abi_name joined /\ split <> joined.
Proof. split; [reflexivity|discriminate]. Qed.

Lemma abi_exact_witness :
  exists abi, SampleService.made = Ok abi
    /\ exists e, abi_types abi !! abi_name (TArray SampleService.position 16) = Some e /\ type_of (at_descriptor e) = TArray SampleService.position 16.
Proof.
  destruct (abi_exact SampleService.service LANGUAGE_VERSION) as [[_ Hok] Habi].
  assert (describable SampleService.service) as Hd.
  { split; [repeat constructor|]. split; repeat constructor; by eexists. }
  destruct (Hok Hd) as [abi Hmade]. exists abi. split; [exact Hmade|]. destruct (Habi abi Hmade) as (_ & _ & _ & Htable).
  assert (Forall (fun t => clean t = true) (interface_types SampleService.service)) as Hc by (repeat constructor).
  destruct (Htable Hc) as [Hentries _].
  assert (exists d, try_from (TArray SampleService.position 16) = Ok d) as [d Hdesc] by (apply try_from_ok; reflexivity).
  exists (mkAbiType (bstr "array") (Some 16) d). split.
  - apply Hentries. exists (TArray SampleService.position 16). split; [|split; [reflexivity|exists d; split; [exact Hdesc|reflexivity]]].
    right. right. exists (TArray SampleService.position 16). split; [|left]. right; right; right. left.
  - exact (try_from_back _ _ Hdesc).
Defined.
