(* ===== verification/Registry.v ===== *)
(** * The registries of the backend

    [ServiceRegistry] binds chain service numbers to service keys;
    [ApplicationRegistry] binds a planner (the loaded artifact) to a service. *)

From S2P Require Import Prelude Ordering Reader Wire ServiceKeys StateView StateDiff Records RefineOutput GuestMemory State Overlays Provider BackendBase.

(** ** [ServiceRegistry] *)

Module ServiceRegistry.
Record t := mk { by_id : gmap Z ServiceRecord; by_key : gmap bytes Z }.
Definition default_ : t := mk ∅ ∅.

Definition register (record : ServiceRecord) (r : t) : result unit RegistryError * t :=
  let id := sr_service_id record in
  let key := sr_service_key record in
  match by_id r !! id with
  | Some existing =>
      if negb (bool_decide (sr_service_key existing = key)) then (Err ServiceIdAlreadyBound, r)
      else (Ok tt, mk (<[id := record]> (by_id r)) (by_key r))
  | None =>
      match by_key r !! key with
      | Some existing_id =>
          if negb (existing_id =? id) then (Err ServiceKeyAlreadyBound, r) else (Err ServiceIdKeyMismatch, r)
      | None => (Ok tt, mk (<[id := record]> (by_id r)) (<[key := id]> (by_key r)))
      end
  end.

Definition get (r : t) (service_id : Z) : result ServiceRecord RegistryError :=
  ok_or (by_id r !! service_id) UnknownServiceId.

Definition get_by_key (r : t) (service_key : bytes) : result ServiceRecord RegistryError :=
  let? service_id := ok_or (by_key r !! service_key) UnknownServiceKey in
  get r service_id.

Definition resolve_key (r : t) (service_id : Z) : result bytes RegistryError :=
  let? record := get r service_id in Ok (sr_service_key record).

(** In the order of the [BTreeMap], by service number. *)
Definition iter (r : t) : list ServiceRecord := map snd (sort_by_key fst (map_to_list (by_id r))).
Definition len (r : t) : Z := Z.of_nat (size (by_id r)).
Definition is_empty (r : t) : bool := bool_decide (by_id r = ∅).

(** *** The invariant: the two maps are inverse to each other *)

Record ok (r : t) : Prop := {
  ok_id id record : by_id r !! id = Some record ->
    sr_service_id record = id /\ by_key r !! sr_service_key record = Some id;
  ok_key key id : by_key r !! key = Some id ->
    exists record, by_id r !! id = Some record /\ sr_service_key record = key
}.

Lemma empty_registry_ok : ok default_.
Proof. split; intros; simpl in *; by rewrite lookup_empty in *. Qed.

(** When registration is refused, and with which error. *)
Definition bound_elsewhere (r : t) (record : ServiceRecord) : option RegistryError :=
  match by_id r !! sr_service_id record with
  | Some existing =>
      if decide (sr_service_key existing = sr_service_key record) then None else Some ServiceIdAlreadyBound
  | None => if decide (is_Some (by_key r !! sr_service_key record)) then Some ServiceKeyAlreadyBound else None
  end.

Lemma register_spec record r :
  ok r ->
  register record r =
  match bound_elsewhere r record with
  | Some e => (Err e, r)
  | None => (Ok tt, mk (<[sr_service_id record := record]> (by_id r))
                       (<[sr_service_key record := sr_service_id record]> (by_key r)))
  end.
Proof.
  intros Hr. unfold register, bound_elsewhere.
  destruct (by_id r !! sr_service_id record) as [existing|] eqn:He.
  - destruct (decide (sr_service_key existing = sr_service_key record)) as [Heq|Hne].
    + rewrite bool_decide_eq_true_2 by done. simpl. do 2 f_equal. symmetry. apply insert_id.
      rewrite <- Heq. by eapply ok_id.
    + by rewrite bool_decide_eq_false_2.
  - destruct (by_key r !! sr_service_key record) as [id|] eqn:Hk.
    + rewrite decide_True by eauto. destruct (Z.eqb_spec id (sr_service_id record)) as [->|]; simpl; [|done].
      destruct (ok_key r Hr _ _ Hk) as (rec & Hrec & _). congruence.
    + rewrite decide_False by (by intros []). done.
Qed.

Lemma bound_elsewhere_None r record :
  ok r -> bound_elsewhere r record = None ->
  (forall id, by_key r !! sr_service_key record = Some id -> id = sr_service_id record)
  /\ (forall rec, by_id r !! sr_service_id record = Some rec -> sr_service_key rec = sr_service_key record).
Proof.
  intros Hr. unfold bound_elsewhere. destruct (by_id r !! sr_service_id record) as [existing|] eqn:He.
  - destruct (decide _) as [Heq|]; [|done]. intros _. split; [|by intros rec [= <-]].
    intros id Hid. rewrite <- Heq in Hid. destruct (ok_id r Hr _ _ He) as [_ Hk]. congruence.
  - destruct (decide _) as [|Hn]; [done|]. intros _. split; [|done]. intros id Hid. by destruct Hn.
Qed.

Lemma registered_ok record r : ok r -> ok (register record r).2.
Proof.
  intros Hr. rewrite register_spec by done. destruct (bound_elsewhere r record) eqn:Hb; [done|].
  destruct (bound_elsewhere_None r record Hr Hb) as [Hkey Hid]. split; simpl.
  - intros id rec. destruct (decide (id = sr_service_id record)) as [->|Hne].
    + rewrite lookup_insert_eq. intros [= <-]. split; [done|]. apply lookup_insert_eq.
    + rewrite lookup_insert_ne by done. intros Hrec. destruct (ok_id r Hr _ _ Hrec) as [Hi Hk].
      split; [done|]. rewrite lookup_insert_ne; [done|]. intros Heq. rewrite <- Heq in Hk.
      by apply Hkey in Hk.
  - intros key id. destruct (decide (key = sr_service_key record)) as [->|Hne].
    + rewrite lookup_insert_eq. intros [= <-]. exists record. by rewrite lookup_insert_eq.
    + rewrite lookup_insert_ne by done. intros Hk. destruct (ok_key r Hr _ _ Hk) as (rec & Hrec & Heq).
      exists rec. split; [|done]. rewrite lookup_insert_ne; [done|]. intros <-. apply Hid in Hrec. congruence.
Qed.

(** A binding of a number to a key survives every later registration. *)
Definition bound (r : t) (id : Z) (key : bytes) : Prop :=
  exists record, by_id r !! id = Some record /\ sr_service_key record = key.

Lemma register_bound record r id key : ok r -> bound r id key -> bound (register record r).2 id key.
Proof.
  intros Hr (rec & Hrec & Hk). rewrite register_spec by done.
  destruct (bound_elsewhere r record) eqn:Hb; [by exists rec|].
  destruct (bound_elsewhere_None r record Hr Hb) as [_ Hid]. unfold bound. simpl.
  destruct (decide (id = sr_service_id record)) as [->|Hne].
  - exists record. rewrite lookup_insert_eq. split; [done|]. apply Hid in Hrec. congruence.
  - exists rec. by rewrite lookup_insert_ne.
Qed.

Inductive step : t -> t -> Prop :=
| step_register record r : step r (register record r).2.

Lemma registry_reachable_ok r : rtc step default_ r -> ok r.
Proof.
  intros Hs. eapply (rtc_ind_r ok); [apply empty_registry_ok| |exact Hs].
  intros r1 r2 _ [record r'] Hok. by apply registered_ok.
Qed.

Lemma reachable_bound r r' id key : ok r -> bound r id key -> rtc step r r' -> ok r' /\ bound r' id key.
Proof.
  intros Hr Hb Hs. eapply (rtc_ind_r (fun r' => ok r' /\ bound r' id key)); [done| |exact Hs].
  intros r1 r2 _ [record r''] [Hok Hbd]. split; [by apply registered_ok|by apply register_bound].
Qed.

Lemma bound_unique r id id' key : ok r -> bound r id key -> bound r id' key -> id = id'.
Proof.
  intros Hr (rec & Hrec & Hk) (rec' & Hrec' & Hk').
  destruct (ok_id r Hr _ _ Hrec) as [_ H1]. destruct (ok_id r Hr _ _ Hrec') as [_ H2]. congruence.
Qed.

Lemma iter_elem r record :
  ok r -> record ∈ iter r <-> by_id r !! sr_service_id record = Some record.
Proof.
  intros Hr. unfold iter. rewrite list_elem_of_fmap. split.
  - intros ([id rec] & -> & Hin). rewrite sort_by_key_perm in Hin. apply elem_of_map_to_list in Hin. simpl.
    by rewrite (proj1 (ok_id r Hr _ _ Hin)).
  - intros Hl. exists (sr_service_id record, record). split; [done|]. rewrite sort_by_key_perm.
    by apply elem_of_map_to_list.
Qed.

Lemma iter_ids r : ok r -> NoDup (map sr_service_id (iter r)).
Proof.
  intros Hr. unfold iter. rewrite map_map.
  assert (map (fun x => sr_service_id x.2) (sort_by_key fst (map_to_list (by_id r)))
          = map fst (sort_by_key fst (map_to_list (by_id r)))) as ->.
  { apply map_ext_in. intros [id rec] Hin%list_elem_of_In. rewrite sort_by_key_perm in Hin.
    apply elem_of_map_to_list in Hin. simpl. by apply (ok_id r Hr). }
  apply key_ssorted_nodup, sort_by_key_ssorted, NoDup_fst_map_to_list.
Qed.
End ServiceRegistry.

(** ** [ApplicationRegistry]

    The trait [ApplicationPlanner]: a loaded artifact knows its digest and
    plans the accesses of actions. *)

Record PlannerResult := mkPlannerResult {
  local_access_keys : list bytes; external_access_keys : gmap Z (list bytes)
}.

Class ApplicationPlanner (P : Type) := {
  ap_artifact_digest : P -> bytes;
  ap_plan : P -> list bytes -> result PlannerResult PlannerError
}.

Module ApplicationRegistry.
Section Ops.
Context {P : Type} `{ApplicationPlanner P}.
Notation t := (gmap Z P).

Definition bind (service : ServiceRecord) (planner : P) (a : t) : result unit BackendError * t :=
  if negb (bool_decide (ap_artifact_digest planner = ar_digest (sr_application_artifact service)))
  then (Err BE_PlannerArtifactMismatch, a)
  else (Ok tt, <[sr_service_id service := planner]> a).

Definition get (a : t) (service_id : Z) : result P BackendError := ok_or (a !! service_id) BE_PlannerUnavailable.
Definition remove (service_id : Z) (a : t) : t := delete service_id a.
End Ops.
End ApplicationRegistry.

(** Service numbers and keys stay in one-to-one correspondence. After any
    sequence of registrations, a number resolves to a key exactly when that key
    finds the record of that number, two numbers never share a key, a
    registration is refused exactly when it would rebind a number or a key
    (with the error that says which; [ServiceIdKeyMismatch] cannot occur), a
    refused one changes nothing, and no later registration moves a number to
    another key. *)
Theorem registry_bindings_immutable (r r' : ServiceRegistry.t) :
  rtc ServiceRegistry.step ServiceRegistry.default_ r -> rtc ServiceRegistry.step r r' ->
  (forall id key, ServiceRegistry.resolve_key r id = Ok key <->
     exists record, ServiceRegistry.get_by_key r key = Ok record /\ sr_service_id record = id)
  /\ (forall id id' key, ServiceRegistry.resolve_key r id = Ok key -> ServiceRegistry.resolve_key r id' = Ok key ->
        id = id')
  /\ (forall record e, (ServiceRegistry.register record r).1 = Err e <->
        (e = ServiceIdAlreadyBound /\ exists key, ServiceRegistry.resolve_key r (sr_service_id record) = Ok key
           /\ key <> sr_service_key record)
        \/ (e = ServiceKeyAlreadyBound /\ ServiceRegistry.resolve_key r (sr_service_id record) = Err UnknownServiceId
           /\ exists id, ServiceRegistry.resolve_key r id = Ok (sr_service_key record)))
  /\ (forall record e, (ServiceRegistry.register record r).1 = Err e -> (ServiceRegistry.register record r).2 = r)
  /\ (forall id key, ServiceRegistry.resolve_key r id = Ok key -> ServiceRegistry.resolve_key r' id = Ok key).
Proof.
  intros Hok%ServiceRegistry.registry_reachable_ok Hs.
  assert (forall q id key, ServiceRegistry.resolve_key q id = Ok key <-> ServiceRegistry.bound q id key) as Hres.
  { intros q id key. unfold ServiceRegistry.resolve_key, ServiceRegistry.get, ServiceRegistry.bound.
    rewrite rbind_Ok. setoid_rewrite ok_or_Ok. naive_solver. }
  assert (forall id, ServiceRegistry.resolve_key r id = Err UnknownServiceId
                     <-> ServiceRegistry.by_id r !! id = None) as Hnone.
  { intros id. unfold ServiceRegistry.resolve_key, ServiceRegistry.get.
    destruct (ServiceRegistry.by_id r !! id); simpl; naive_solver. }
  split_and!.
  - intros id key. rewrite Hres. unfold ServiceRegistry.get_by_key, ServiceRegistry.get. split.
    + intros (rec & Hrec & <-). destruct (ServiceRegistry.ok_id r Hok _ _ Hrec) as [Hid Hk].
      exists rec. rewrite Hk. simpl. by rewrite Hrec.
    + intros (rec & Hg & <-). apply rbind_Ok in Hg as (id & Hk%ok_or_Ok & Hi%ok_or_Ok).
      destruct (ServiceRegistry.ok_key r Hok _ _ Hk) as (rec' & Hrec' & Heq).
      rewrite Hi in Hrec'. injection Hrec' as <-. destruct (ServiceRegistry.ok_id r Hok _ _ Hi) as [-> _]. by exists rec.
  - intros id id' key Hk%Hres Hk'%Hres. by eapply ServiceRegistry.bound_unique.
  - intros record e. rewrite ServiceRegistry.register_spec by done. setoid_rewrite Hres. rewrite Hnone.
    unfold ServiceRegistry.bound_elsewhere, ServiceRegistry.bound.
    destruct (ServiceRegistry.by_id r !! sr_service_id record) as [ex|] eqn:He.
    + destruct (decide _) as [Heq|Hne]; simpl; [naive_solver|]. split; [intros [= <-]; left; naive_solver|].
      naive_solver.
    + destruct (decide _) as [[id Hid]|Hn]; simpl.
      * split; [|naive_solver]. intros [= <-]. right. split; [done|]. split; [done|]. exists id.
        by apply ServiceRegistry.ok_key.
      * split; [done|]. intros [(_ & key & (rec & Hrec & _) & _)|(_ & _ & id & rec & Hrec & Hk)]; [done|].
        destruct Hn. rewrite <- Hk. destruct (ServiceRegistry.ok_id r Hok _ _ Hrec) as [_ ->]. eauto.
  - intros record e. rewrite ServiceRegistry.register_spec by done. by destruct (ServiceRegistry.bound_elsewhere r record).
  - intros id key Hb%Hres. apply Hres. by eapply ServiceRegistry.reachable_bound.
Qed.

Definition sample_artifact : ApplicationArtifactRef := mkArtifact (repeat x0a 32) JamScriptPvmV1.
Definition sample_record (id : Z) (key : byte) : ServiceRecord :=
  mkServiceRecord id (repeat key 32) (repeat x0b 32) 1 sample_artifact (mkDeployment None None None).

Lemma registry_bindings_immutable_witness :
  let r := (ServiceRegistry.register (sample_record 5 x01) ServiceRegistry.default_).2 in
  let r' := (ServiceRegistry.register (sample_record 6 x02) r).2 in
  ServiceRegistry.resolve_key r' 5 = Ok (repeat x01 32)
  /\ (ServiceRegistry.register (sample_record 6 x01) r).1 = Err ServiceKeyAlreadyBound
  /\ (ServiceRegistry.register (sample_record 6 x01) r).2 = r.
Proof.
  intros r r'.
  destruct (registry_bindings_immutable r r') as (_ & _ & He & Hn & Hk).
  - apply rtc_once. constructor.
  - apply rtc_once. constructor.
  - assert ((ServiceRegistry.register (sample_record 6 x01) r).1 = Err ServiceKeyAlreadyBound) as Herr.
    { apply He. right. split; [done|]. split; [reflexivity|]. exists 5. reflexivity. }
    split_and!; [by apply Hk|done|by apply (Hn _ _ Herr)].
Defined.
