(* ===== verification/Envelope.v ===== *)
(** * Recovery envelopes and the recovery log

    [RecoveryEnvelopeV1] names the service a refine output belongs to;
    [append_recovery] writes length-prefixed envelopes to a log file and
    [replay_recovery_log] applies them to the backend's state at start-up. *)

From S2P Require Import Prelude Ordering Reader Wire ServiceKeys StateView StateDiff Records Witness Dependencies RefineOutput GuestMemory State Overlays Provider BackendBase.

(** ** [EnvelopeReader] *)

Module EnvelopeReader.
Notation parser := (Reader.parser BackendError).
Definition take : Z -> parser bytes := take_with BE_InvalidEnvelope BE_TruncatedLog.
Definition u8 : parser byte := b ← take 1; mret (b_at b 0).
Definition array (n : Z) : parser bytes := take n.
Definition u32 : parser Z := b ← array 4; mret (from_le_bytes b).
Definition bytes_max (maximum : Z) : parser bytes :=
  n ← u32;
  pbail (n >? maximum) BE_EntryTooLarge;;
  take n.

Lemma parses_env_u8 b : parses u8 [b] b.
Proof.
  unfold u8. change [b] with ([b] ++ []). eapply parses_bind; [by apply parses_take|].
  by apply parses_ret'.
Qed.

Lemma parses_env_u32 z : u32_ok z -> parses u32 (to_le_bytes 4 z) z.
Proof.
  intros Hz. unfold u32. rewrite <- (app_nil_r (to_le_bytes 4 z)).
  eapply parses_bind; [apply parses_take, blen_to_le_bytes|].
  rewrite from_to_u32 by done. apply parses_ret.
Qed.

Lemma parses_bytes maximum b :
  blen b <= maximum -> blen b <= U32_MAX -> parses (bytes_max maximum) (fmt_bytes_u32 b) b.
Proof.
  intros Hm Hb. unfold bytes_max, fmt_bytes_u32. pose proof (blen_nonneg b).
  eapply parses_bind; [apply parses_env_u32; by split|].
  eapply parses_bind0; [apply parses_bail, gtb_false; lia|]. by apply parses_take.
Qed.
End EnvelopeReader.

(** ** [RecoveryEnvelopeV1] *)

Definition MAX_ENVELOPE_BYTES : Z := MAX_RECOVERY_BYTES + 128 * 1024.

Module RecoveryEnvelope.
Record t := mk { service_id : Z; service_key : bytes; output : RefineOutput.t }.
Definition VERSION : byte := RECOVERY_FORMAT_VERSION.

Section WithHash.
Context `{Blake2}.

Definition encode (e : t) : result bytes BackendError :=
  let? output := map_err BE_Wire (RefineOutput.encode (output e)) in
  let? length := ok_or (u32_try_from (blen output)) BE_EntryTooLarge in
  Ok ([VERSION] ++ to_le_bytes 4 (service_id e) ++ service_key e ++ to_le_bytes 4 length ++ output).

Definition read : Reader.parser BackendError t :=
  version ← EnvelopeReader.u8;
  pbail (negb (bool_decide (version = VERSION))) BE_InvalidEnvelope;;
  service_id ← EnvelopeReader.u32;
  service_key ← EnvelopeReader.array 32;
  b ← EnvelopeReader.bytes_max MAX_ENVELOPE_BYTES;
  output ← plift (map_err BE_Wire (RefineOutput.decode b));
  mret (mk service_id service_key output).

Definition decode (b : bytes) : result t BackendError :=
  bail_if blen b >? MAX_ENVELOPE_BYTES with BE_EntryTooLarge ;;
  run_to_end BE_InvalidEnvelope read b.

(** What the backend puts into envelopes: a service it registered and an output
    that was published. *)
Definition valid (e : t) : Prop :=
  u32_ok (service_id e) /\ hash_ok (service_key e)
  /\ RefineOutput.typed (output e) /\ RefineOutput.committed (output e)
  /\ key_ssorted Dependency.service_id (RefineOutput.external_dependencies (output e)).

(** The envelope never outgrows its decoder's limit. *)
Lemma output_length o b :
  RefineOutput.typed o -> RefineOutput.encode o = Ok b ->
  blen b <= MAX_RECOVERY_BYTES + 64 * MAX_RUNTIME_ACTIONS.
Proof.
  intros Ht (Hv & Hr & Hp & deps & Hdeps & Hn & ->)%RefineOutput.refine_output_encode_Ok.
  apply RefineOutput.blen_fmt; [done| |done..]. apply Dependency.dependency_canonicalize_Ok in Hdeps as [_ Hel].
  destruct Ht as (_ & _ & _ & Hd & _). apply Forall_forall. intros d Hin%Hel. by eapply Forall_forall in Hd.
Qed.

Lemma encode_valid e b :
  valid e -> encode e = Ok b ->
  exists out, RefineOutput.encode (output e) = Ok out /\ blen out <= MAX_RECOVERY_BYTES + 64 * MAX_RUNTIME_ACTIONS
    /\ b = [VERSION] ++ to_le_bytes 4 (service_id e) ++ service_key e ++ fmt_bytes_u32 out
    /\ blen b = 41 + blen out.
Proof.
  intros (_ & Hk & Ht & _) He. unfold encode in He.
  apply rbind_Ok in He as (out & Ho%map_err_Ok & He). apply rbind_Ok in He as (n & Hn%ok_or_Ok & [= <-]).
  exists out. split; [done|]. split; [by eapply output_length|].
  unfold u32_try_from, try_from_max in Hn. case_match; [|done]. injection Hn as <-.
  split; [done|]. unfold hash_ok, array_ok in Hk. autorewrite with blen. lia.
Qed.

Lemma envelope_decode_encode e b : valid e -> encode e = Ok b -> decode b = Ok e.
Proof.
  intros Hv He. destruct (encode_valid e b Hv He) as (out & Ho & Hlen & -> & Hb).
  destruct Hv as (Hid & Hk & Ht & Hc & Hs). unfold decode.
  rewrite gtb_false by (rewrite Hb; unfold MAX_ENVELOPE_BYTES; unfold_limits; lia).
  apply run_to_end_parses; [|unfold slice_ok, ISIZE_MAX; rewrite Hb; unfold_limits; lia].
  destruct (RefineOutput.refine_output_decode_encode _ _ Ht Hc Ho) as (deps & Hdeps & Hd).
  assert (deps = RefineOutput.external_dependencies (output e)) as ->.
  { assert (Dependency.canonicalize_dependencies (RefineOutput.external_dependencies (output e))
      = Ok (RefineOutput.external_dependencies (output e))) by (by apply Dependency.dependency_canonicalize_Ok).
    congruence. }
  unfold read. parse_field; [apply EnvelopeReader.parses_env_u8|].
  parse_field; [by rewrite bool_decide_eq_true_2|].
  parse_field; [by apply EnvelopeReader.parses_env_u32|].
  parse_field; [by apply parses_take|]. rewrite <- (app_nil_r (fmt_bytes_u32 out)).
  parse_field; [apply EnvelopeReader.parses_bytes; unfold MAX_ENVELOPE_BYTES; unfold_limits; lia|].
  parse_field; [by rewrite Hd|]. apply parses_ret'. destruct e as [i k o]. simpl. by destruct o.
Qed.
End WithHash.
End RecoveryEnvelope.

(** ** The log

    [append_recovery] on a file with the given contents. [failed] is the number
    of bytes that reached the file before an I/O error, if one occurred. *)

Definition frame (encoded : bytes) : bytes := to_le_bytes 4 (blen encoded) ++ encoded.

Section Log.
Context `{Blake2}.

Definition append_recovery (failed : option nat) (envelope : RecoveryEnvelope.t) (log : bytes)
    : result unit BackendError * bytes :=
  match (let? encoded := RecoveryEnvelope.encode envelope in
         let? length := ok_or (u32_try_from (blen encoded)) BE_EntryTooLarge in
         Ok (to_le_bytes 4 length ++ encoded)) with
  | Err e => (Err e, log)
  | Ok written =>
      match failed with
      | Some n => (Err BE_InvalidEnvelope, log ++ take n written)
      | None => (Ok tt, log ++ written)
      end
  end.

Context {S : Type} (apply_recovery : RecoveryEnvelope.t -> S -> result unit BackendError * S).

(** [while offset < bytes.len()], with [fuel] iterations at most. *)
Fixpoint replay_loop (fuel : nat) (b : bytes) (offset : Z) (s : S) : result unit BackendError * S :=
  match fuel with
  | O => (Ok tt, s)
  | Datatypes.S fuel' =>
      if negb (offset <? blen b) then (Ok tt, s)
      else
        match (let? length_bytes := ok_or (slice_get b offset (offset + 4)) BE_TruncatedLog in
               let length := from_le_bytes length_bytes in
               bail_if length >? MAX_ENVELOPE_BYTES with BE_EntryTooLarge ;;
               let? entry := ok_or (slice_get b (offset + 4) (offset + 4 + length)) BE_TruncatedLog in
               let? envelope := RecoveryEnvelope.decode entry in
               Ok (envelope, offset + 4 + length)) with
        | Err e => (Err e, s)
        | Ok (envelope, offset) =>
            match apply_recovery envelope s with
            | (Err e, s) => (Err e, s)
            | (Ok _, s) => replay_loop fuel' b offset s
            end
        end
  end.

(** Why a file could not be read. *)
Inductive read_failure := FileNotFound | FileUnreadable.

(** A log file that is not there is an empty one; [file] is what reading it gives. *)
Definition replay_recovery_log (file : result bytes read_failure) (s : S) : result unit BackendError * S :=
  match file with
  | Err FileNotFound => (Ok tt, s)
  | Err FileUnreadable => (Err BE_InvalidEnvelope, s)
  | Ok b => replay_loop (Datatypes.S (length b)) b 0 s
  end.

(** Applying envelopes one after the other, up to the first refusal. *)
Fixpoint apply_all (es : list RecoveryEnvelope.t) (s : S) : result unit BackendError * S :=
  match es with
  | [] => (Ok tt, s)
  | e :: es' => match apply_recovery e s with
                | (Err err, s) => (Err err, s)
                | (Ok _, s) => apply_all es' s
                end
  end.

Fixpoint append_all (es : list RecoveryEnvelope.t) (log : bytes) : result unit BackendError * bytes :=
  match es with
  | [] => (Ok tt, log)
  | e :: es' => match append_recovery None e log with
                | (Err err, log) => (Err err, log)
                | (Ok _, log) => append_all es' log
                end
  end.

Lemma append_Ok e log log' :
  append_recovery None e log = (Ok tt, log') <->
  exists b, RecoveryEnvelope.encode e = Ok b /\ blen b <= U32_MAX /\ log' = log ++ frame b.
Proof.
  unfold append_recovery, frame. destruct (RecoveryEnvelope.encode e) as [b|err]; cbn [rbind].
  - unfold u32_try_from, try_from_max. destruct (Z.leb_spec (blen b) U32_MAX); cbn [ok_or rbind].
    + split; [intros [= <-]; eauto|]. by intros (b' & [= <-] & _ & ->).
    + split; [done|]. intros (b' & [= <-] & ? & _). lia.
  - split; [done|]. by intros (b & ? & _).
Qed.

Lemma append_all_Ok es : forall log log',
  append_all es log = (Ok tt, log') ->
  exists bs, Forall2 (fun e b => RecoveryEnvelope.encode e = Ok b) es bs /\ log' = log ++ concat (map frame bs).
Proof.
  induction es as [|e es IH]; intros log log' Ha; cbn [append_all] in Ha.
  { injection Ha as <-. exists []. simpl. by rewrite app_nil_r. }
  destruct (append_recovery None e log) as [[[]|err] log1] eqn:He; [|done].
  apply append_Ok in He as (b & Hb & _ & ->). apply IH in Ha as (bs & Hbs & ->).
  exists (b :: bs). split; [by constructor|]. simpl. by rewrite <- (assoc_L (++)).
Qed.

Lemma slice_get_app (x y z : bytes) : slice_get (x ++ y ++ z) (blen x) (blen x + blen y) = Some y.
Proof.
  unfold slice_get. rewrite !blen_app. pose proof (blen_nonneg y). pose proof (blen_nonneg z).
  rewrite (proj2 (Z.leb_le _ _)), (proj2 (Z.leb_le _ _)) by lia. simpl.
  replace (blen x + blen y - blen x) with (blen y) by lia. unfold blen.
  by rewrite !Nat2Z.id, drop_app_length, take_app_length.
Qed.

Lemma slice_get_short (x y : bytes) n : blen y < n -> slice_get (x ++ y) (blen x) (blen x + n) = None.
Proof.
  intros Hn. unfold slice_get. rewrite !blen_app. rewrite (proj2 (Z.leb_gt (blen x + n) _)) by lia.
  by rewrite andb_false_r.
Qed.

(** One frame of a log that holds valid envelopes. *)
Lemma replay_frame fuel pre post e b s :
  RecoveryEnvelope.valid e -> RecoveryEnvelope.encode e = Ok b ->
  replay_loop (Datatypes.S fuel) (pre ++ frame b ++ post) (blen pre) s
  = match apply_recovery e s with
    | (Err err, s) => (Err err, s)
    | (Ok _, s) => replay_loop fuel ((pre ++ frame b) ++ post) (blen (pre ++ frame b)) s
    end.
Proof.
  intros Hv He. destruct (RecoveryEnvelope.encode_valid e b Hv He) as (out & _ & Hout & _ & Hlen).
  pose proof (RecoveryEnvelope.envelope_decode_encode e b Hv He) as Hd. pose proof (blen_nonneg post).
  pose proof (blen_nonneg out). unfold frame. cbn [replay_loop]. rewrite (proj2 (Z.ltb_lt _ _)) by blia. cbn [negb].
  rewrite <- (assoc_L (++)). replace (blen pre + 4) with (blen pre + blen (to_le_bytes 4 (blen b))) by blia.
  rewrite slice_get_app. cbn [ok_or rbind].
  rewrite from_to_u32 by (unfold u32_ok; unfold_limits; lia).
  rewrite gtb_false by (unfold MAX_ENVELOPE_BYTES; unfold_limits; lia).
  rewrite <- blen_app. rewrite (assoc_L (++) pre), slice_get_app. cbn [ok_or rbind]. rewrite Hd. cbn [rbind].
  destruct (apply_recovery e s) as [[u|err] s']; [|done]. by rewrite blen_app, !(assoc_L (++)), <- !blen_app.
Qed.

Lemma replay_end fuel b s : replay_loop fuel b (blen b) s = (Ok tt, s).
Proof. destruct fuel; [done|]. cbn [replay_loop]. by rewrite Z.ltb_irrefl. Qed.

(** A frame that was cut short. *)
Lemma replay_torn fuel pre b n s :
  blen b <= MAX_ENVELOPE_BYTES -> (0 < n < length (frame b))%nat ->
  replay_loop (Datatypes.S fuel) (pre ++ take n (frame b)) (blen pre) s = (Err BE_TruncatedLog, s).
Proof.
  intros Hb Hn. pose proof (blen_nonneg b). cbn [replay_loop].
  assert (blen (take n (frame b)) = Z.of_nat n) as Ht by (unfold blen; rewrite length_take; lia).
  rewrite (proj2 (Z.ltb_lt _ _)) by (rewrite blen_app, Ht; lia). cbn [negb].
  destruct (decide (n < 4)%nat) as [Hs|Hs].
  { rewrite slice_get_short by (rewrite Ht; lia). done. }
  assert (take n (frame b) = to_le_bytes 4 (blen b) ++ take (n - 4) b) as ->.
  { unfold frame. rewrite take_app, take_ge by (rewrite to_le_bytes_length; lia). by rewrite to_le_bytes_length. }
  replace (blen pre + 4) with (blen pre + blen (to_le_bytes 4 (blen b))) by blia.
  rewrite slice_get_app. cbn [ok_or rbind].
  rewrite from_to_u32 by (unfold u32_ok, MAX_ENVELOPE_BYTES in *; unfold_limits; lia).
  rewrite gtb_false by done. rewrite <- blen_app, (assoc_L (++)), slice_get_short; [done|].
  unfold frame in Hn. rewrite length_app, to_le_bytes_length in Hn. unfold blen. rewrite length_take. lia.
Qed.

Lemma replay_all es bs : Forall2 (fun e b => RecoveryEnvelope.encode e = Ok b) es bs ->
  Forall RecoveryEnvelope.valid es -> forall fuel pre post s,
  (length es < fuel)%nat ->
  replay_loop fuel (pre ++ concat (map frame bs) ++ post) (blen pre) s
  = match apply_all es s with
    | (Err err, s) => (Err err, s)
    | (Ok _, s) => replay_loop (fuel - length es) ((pre ++ concat (map frame bs)) ++ post)
                     (blen (pre ++ concat (map frame bs))) s
    end.
Proof.
  induction 1 as [|e b es bs Hb _ IH]; intros Hv fuel pre post s Hf; cbn [map concat apply_all].
  { rewrite !app_nil_r. simpl. by rewrite Nat.sub_0_r. }
  apply Forall_cons in Hv as [He Hv]. destruct fuel as [|fuel]; [simpl in Hf; lia|].
  rewrite <- (assoc_L (++)), (replay_frame fuel pre _ e b) by done.
  destruct (apply_recovery e s) as [[u|err] s']; [|done].
  rewrite IH by (done || simpl in Hf; lia). by rewrite <- !(assoc_L (++)).
Qed.
End Log.

(** A longer log never needs more iterations than it has bytes. *)
Lemma frames_length bs : (length bs <= length (concat (map frame bs)))%nat.
Proof.
  induction bs as [|b bs IH]; [done|]. cbn [map concat length]. unfold frame at 1.
  rewrite !length_app, to_le_bytes_length. lia.
Qed.

(** C31: the recovery log survives a crash while it is written. Append valid
    envelopes to an empty log and replay it: exactly those envelopes are
    applied, in order, up to the first one the state refuses. If the last write
    was cut anywhere inside its frame, the complete envelopes are applied and
    replay reports [TruncatedLog]; if nothing of it was written, the log is as
    before. *)
Theorem recovery_log_replays `{Blake2} {S : Type}
    (apply_recovery : RecoveryEnvelope.t -> S -> result unit BackendError * S)
    (es : list RecoveryEnvelope.t) (last : RecoveryEnvelope.t) (n : nat) (log b : bytes) (s : S) :
  Forall RecoveryEnvelope.valid es -> RecoveryEnvelope.valid last ->
  append_all es [] = (Ok tt, log) ->
  RecoveryEnvelope.encode last = Ok b ->
  (n < length (frame b))%nat ->
  replay_recovery_log apply_recovery (Ok log) s = apply_all apply_recovery es s
  /\ append_recovery (Some n) last log = (Err BE_InvalidEnvelope, log ++ take n (frame b))
  /\ replay_recovery_log apply_recovery (Ok (log ++ take n (frame b))) s
     = match apply_all apply_recovery es s with
       | (Ok _, s) => (if bool_decide (n = 0%nat) then Ok tt else Err BE_TruncatedLog, s)
       | (Err e, s) => (Err e, s)
       end.
Proof.
  intros Hes Hlast Happ Hb Hn. apply append_all_Ok in Happ as (bs & Hbs & ->). rewrite app_nil_l.
  pose proof (RecoveryEnvelope.encode_valid last b Hlast Hb) as (out & _ & Hout & _ & Hlen).
  assert (length es < Datatypes.S (length (concat (map frame bs))))%nat as Hfuel.
  { rewrite (Forall2_length _ _ _ Hbs). pose proof (frames_length bs). lia. }
  unfold replay_recovery_log. split_and!.
  - pose proof (replay_all apply_recovery es bs Hbs Hes _ [] [] s Hfuel) as Hr. rewrite !app_nil_l in Hr.
    rewrite !app_nil_r in Hr. etransitivity; [exact Hr|].
    destruct (apply_all apply_recovery es s) as [[[]|err] s']; [|done]. apply replay_end.
  - unfold append_recovery. rewrite Hb. cbn [rbind]. unfold u32_try_from, try_from_max.
    rewrite (proj2 (Z.leb_le _ _)) by (unfold_limits; lia). done.
  - etransitivity; [apply (replay_all apply_recovery es bs Hbs Hes _ [] (take n (frame b)) s)|].
    { rewrite length_app. lia. }
    destruct (apply_all apply_recovery es s) as [[[]|err] s']; [|done]. rewrite app_nil_l.
    case_bool_decide as Hz; [subst n; rewrite take_0, app_nil_r; apply replay_end|].
    rewrite length_app. destruct (Datatypes.S (_ + _) - length es)%nat as [|fuel] eqn:Hfe; [lia|].
    apply replay_torn; [unfold MAX_ENVELOPE_BYTES; unfold_limits; lia|lia].
Qed.

Definition sample_log_envelope : RecoveryEnvelope.t :=
  RecoveryEnvelope.mk 5 (repeat x07 32)
    (RefineOutput.mk MANAGED_STATE_PROTOCOL_VERSION (repeat x01 32) (repeat x02 32) [] None [] (repeat x00 32)
       (StateRecovery.fmt (StateRecovery.mk RECOVERY_FORMAT_VERSION (StateDiff.mk [])))).

Lemma sample_log_envelope_valid : @RecoveryEnvelope.valid zero_hash sample_log_envelope.
Proof.
  split; [vm_compute; split; discriminate|]. split; [reflexivity|]. split.
  - repeat split; try reflexivity; constructor.
  - split; [split; [reflexivity|]; eexists; vm_compute; reflexivity|constructor].
Qed.

(** Counts the envelopes. *)
Definition count_envelopes (e : RecoveryEnvelope.t) (n : Z) : result unit BackendError * Z := (Ok tt, n + 1).

Lemma recovery_log_replays_witness :
  exists log b,
    append_all [sample_log_envelope; sample_log_envelope] [] = (Ok tt, log)
    /\ RecoveryEnvelope.encode sample_log_envelope = Ok b
    /\ @replay_recovery_log zero_hash Z count_envelopes (Ok log) 0 = (Ok tt, 2)
    /\ @replay_recovery_log zero_hash Z count_envelopes (Ok (log ++ take 3 (frame b))) 0
       = (Err BE_TruncatedLog, 2).
Proof.
  destruct (append_all [sample_log_envelope; sample_log_envelope] []) as [r log] eqn:Hl.
  assert (r = Ok tt) as -> by (vm_compute in Hl; by injection Hl as <- _).
  destruct (RecoveryEnvelope.encode sample_log_envelope) as [b|e] eqn:Hb; [|vm_compute in Hb; discriminate Hb].
  exists log, b. split; [reflexivity|]. split; [reflexivity|].
  destruct (@recovery_log_replays zero_hash Z count_envelopes [sample_log_envelope; sample_log_envelope]
    sample_log_envelope 3 log b 0) as (H1 & _ & H2).
  - repeat constructor; apply sample_log_envelope_valid.
  - apply sample_log_envelope_valid.
  - exact Hl.
  - exact Hb.
  - vm_compute in Hb. injection Hb as <-. vm_compute. lia.
  - split; [exact H1|exact H2].
Defined.
