(* ===== verification/Database.v ===== *)
(** * The durable database of the backend

    [BackendDatabase]: service records, heads, state and a transition journal in
    five RocksDB column families. RocksDB and [serde_json] are parameters
    ([RocksDb], [SerdeJson]) with their documented laws: a batch is written
    completely or not at all, reads return what was written, iterators run in
    key order, and a document that was serialised can be read back. *)

From S2P Require Import Prelude Ordering Reader Wire ServiceKeys StateView StateDiff Records Witness Dependencies RefineOutput GuestMemory State ModelTrie Overlays Provider BackendBase Registry Envelope.

(** ** RocksDB *)

Inductive column := CF_META | CF_SERVICES | CF_HEADS | CF_STATE | CF_TRANSITIONS.
#[global] Instance column_eq_dec : EqDecision column.
Proof. solve_decision. Defined.

Definition column_name (c : column) : bytes :=
  match c with
  | CF_META => bstr "meta"
  | CF_SERVICES => bstr "services"
  | CF_HEADS => bstr "heads"
  | CF_STATE => bstr "state"
  | CF_TRANSITIONS => bstr "transitions"
  end.

Inductive write_op := PutCf (cf : column) (k v : bytes) | DeleteCf (cf : column) (k : bytes).

Class RocksDb := {
  rdb : Type;
  rdb_cf_handle : rdb -> column -> bool;
  rdb_get : rdb -> column -> bytes -> result (option bytes) bytes;
  (** The items of an iterator that starts at a key and runs forward. *)
  rdb_iterator : rdb -> column -> bytes -> list (result (bytes * bytes) bytes);
  rdb_write : list write_op -> rdb -> result unit bytes * rdb
}.

(** What a batch does to one column family. *)
Definition apply_op (c : column) (m : gmap bytes bytes) (op : write_op) : gmap bytes bytes :=
  match op with
  | PutCf c' k v => if decide (c' = c) then <[k := v]> m else m
  | DeleteCf c' k => if decide (c' = c) then delete k m else m
  end.
Definition apply_batch (ops : list write_op) (c : column) (m : gmap bytes bytes) : gmap bytes bytes :=
  fold_left (apply_op c) ops m.

(** The entries an iterator from [start] meets, in key order. *)
Definition entries_from (start : bytes) (m : gmap bytes bytes) : list (bytes * bytes) :=
  filter (fun e => kle start e.1) (sort_by_key fst (map_to_list m)).

Class RocksDbLaws `{RocksDb} := {
  contents : rdb -> column -> gmap bytes bytes;
  cf_opened d c : rdb_cf_handle d c = true;
  get_contents d c k v : rdb_get d c k = Ok v -> v = contents d c !! k;
  iterator_contents d c start l rest :
    rdb_iterator d c start = map Ok l ++ rest ->
    l `prefix_of` entries_from start (contents d c) /\ (rest = [] -> l = entries_from start (contents d c));
  write_contents ops d d' c : rdb_write ops d = (Ok tt, d') -> contents d' c = apply_batch ops c (contents d c);
  (** stronger than a batch that is written whole or not at all: one that is reported
      as failed was not written *)
  write_atomic ops d d' e c : rdb_write ops d = (Err e, d') -> contents d' c = contents d c
}.

(** ** Persisted documents and [serde_json] *)

Record PersistedServiceRecord := mkPersistedRecord {
  pr_version : Z; pr_service_id : Z; pr_service_key : bytes; pr_code_hash : bytes; pr_abi_version : Z;
  pr_artifact_digest : bytes; pr_artifact_format : bytes; pr_manifest_digest : option bytes;
  pr_registered_at : option Z; pr_network_domain : option bytes
}.

Record PersistedHead := mkPersistedHead {
  ph_version : Z; ph_service_id : Z; ph_service_key : bytes; ph_sequence : Z; ph_managed_state_root : bytes;
  ph_finalized_block_hash : option bytes; ph_finalized_block_number : option Z; ph_finalized_slot : option Z
}.

Class SerdeJson := {
  record_to_vec : PersistedServiceRecord -> result bytes bytes;
  record_from_slice : bytes -> result PersistedServiceRecord bytes;
  head_to_vec : PersistedHead -> result bytes bytes;
  head_from_slice : bytes -> result PersistedHead bytes
}.

Class SerdeJsonLaws `{SerdeJson} : Prop := {
  record_round_trip r b : record_to_vec r = Ok b -> record_from_slice b = Ok r;
  head_round_trip h b : head_to_vec h = Ok b -> head_from_slice b = Ok h
}.

(** ** Service records *)

Section Records.
Context `{SerdeJson}.

Definition to_persisted (record : ServiceRecord) : PersistedServiceRecord :=
  mkPersistedRecord BACKEND_DB_SCHEMA_VERSION_V1 (sr_service_id record) (hash_hex (sr_service_key record))
    (hash_hex (sr_code_hash record)) (sr_abi_version record)
    (hash_hex (ar_digest (sr_application_artifact record))) ARTIFACT_WIRE_NAME
    (hash_hex <$> dm_manifest_digest (sr_deployment record)) (dm_registered_at (sr_deployment record))
    (hash_hex <$> dm_network_domain (sr_deployment record)).

Definition encode_service_record (record : ServiceRecord) : result bytes BackendError :=
  map_err BE_Database (record_to_vec (to_persisted record)).

(** [opt.as_deref().map(f).transpose()]. *)
Definition map_transpose {A B E} (f : A -> result B E) (o : option A) : result (option B) E :=
  match o with
  | None => Ok None
  | Some a => let? b := f a in Ok (Some b)
  end.

(** The fields of a record, parsed in the order of the struct literal. *)
Definition of_persisted (r : PersistedServiceRecord) : result ServiceRecord BackendError :=
  let? service_key := parse_hash (pr_service_key r) in
  let? code_hash := parse_hash (pr_code_hash r) in
  let? digest := parse_hash (pr_artifact_digest r) in
  let? format := artifact_format_parse (pr_artifact_format r) in
  let? manifest_digest := map_transpose parse_hash (pr_manifest_digest r) in
  let? network_domain := map_transpose parse_hash (pr_network_domain r) in
  Ok (mkServiceRecord (pr_service_id r) service_key code_hash (pr_abi_version r) (mkArtifact digest format)
        (mkDeployment manifest_digest (pr_registered_at r) network_domain)).

Definition decode_service_record (b : bytes) : result ServiceRecord BackendError :=
  let? record := map_err BE_Database (record_from_slice b) in
  bail_if negb (pr_version record =? BACKEND_DB_SCHEMA_VERSION_V1) with BE_SchemaMismatch ;;
  of_persisted record.
End Records.

(** ** [BackendDatabase] *)

Module BackendDatabase.
Section Ops.
Context `{Blake2} `{Trie} `{RocksDb} `{SerdeJson}.

Record t := mk { db : rdb; transition_retention : Z }.

Definition cf (d : t) (c : column) : result unit BackendError :=
  bail_if negb (rdb_cf_handle (db d) c) 
    with BE_Database (bstr "missing column family " ++ column_name c) ;; Ok tt.

Definition get_cf (d : t) (c : column) (k : bytes) : result (option bytes) BackendError :=
  map_err BE_Database (rdb_get (db d) c k).

(** [self.db.write_opt(batch, &options)] with [sync]. *)
Definition write (ops : list write_op) (d : t) : result unit BackendError * t :=
  let '(r, db) := rdb_write ops (db d) in (map_err BE_Database r, mk db (transition_retention d)).

(** Either the checks of an existing database, or the batch of a new one. *)
Definition meta_batch (genesis_hash : bytes) (d : t) : result (list write_op) BackendError :=
  let? _ := cf d CF_META in
  let? schema := get_cf d CF_META (bstr "schema_version") in
  match schema with
  | Some b =>
      bail_if negb (blen b =? 4) with BE_SchemaMismatch ;;
      bail_if negb (from_be_bytes b =? BACKEND_DB_SCHEMA_VERSION_V1) with BE_SchemaMismatch ;;
      let? genesis := get_cf d CF_META (bstr "genesis_hash") in
      let? stored_genesis := ok_or genesis BE_GenesisMismatch in
      bail_if negb (bool_decide (stored_genesis = genesis_hash)) with BE_GenesisMismatch ;;
      Ok []
  | None =>
      Ok [PutCf CF_META (bstr "schema_version") (to_be_bytes 4 BACKEND_DB_SCHEMA_VERSION_V1);
          PutCf CF_META (bstr "genesis_hash") genesis_hash;
          PutCf CF_META (bstr "created_by_version") (bstr "jamscript-backend-v1")]
  end.

Definition initialize_meta (genesis_hash : bytes) (d : t) : result unit BackendError * t :=
  match meta_batch genesis_hash d with
  | Err e => (Err e, d)
  | Ok [] => (Ok tt, d)
  | Ok batch => write batch d
  end.

(** [message.to_ascii_lowercase().contains("lock")]. *)
Definition to_ascii_lowercase (b : byte) : byte :=
  if (65 <=? b2z b) && (b2z b <=? 90) then z2b (b2z b + 32) else b.
Fixpoint contains (needle haystack : bytes) : bool :=
  bool_decide (needle `prefix_of` haystack)
  || match haystack with
     | [] => false
     | _ :: haystack' => contains needle haystack'
     end.

(** The arguments are the outcomes of creating the directory and of opening
    RocksDB in it, and the configured retention if it is a number. *)
Definition open (created : result unit bytes) (opened : result rdb bytes) (retention : option Z)
    (genesis_hash : bytes) : result t BackendError :=
  let? _ := map_err BE_Database created in
  let? db := map_err (fun message => if contains (bstr "lock") (map to_ascii_lowercase message)
                                     then BE_DatabaseInUse message else BE_Database message) opened in
  let retention := match retention with
                   | Some value => if value >? 0 then value else 4096
                   | None => 4096
                   end in
  match initialize_meta genesis_hash (mk db retention) with
  | (Ok _, d) => Ok d
  | (Err e, _) => Err e
  end.

(** The loop of [load_registry] over the items of the iterator. *)
Fixpoint load_records (items : list (result (bytes * bytes) bytes)) (registry : ServiceRegistry.t)
    (corrupt : gset Z) : result (ServiceRegistry.t * gset Z) BackendError :=
  match items with
  | [] => Ok (registry, corrupt)
  | Err e :: _ => Err (BE_Database e)
  | Ok (key, value) :: items' =>
      bail_if negb (blen key =? 4) with BE_Database (bstr "malformed service record key") ;;
      let service_id := from_be_bytes key in
      match decode_service_record value with
      | Ok record =>
          if negb (sr_service_id record =? service_id)
          then load_records items' registry ({[service_id]} ∪ corrupt)
          else match ServiceRegistry.register record registry with
               | (Ok _, registry) => load_records items' registry corrupt
               | (Err _, registry) => load_records items' registry ({[service_id]} ∪ corrupt)
               end
      | Err BE_SchemaMismatch => Err BE_SchemaMismatch
      | Err _ => load_records items' registry ({[service_id]} ∪ corrupt)
      end
  end.

Definition load_registry (d : t) : result (ServiceRegistry.t * gset Z) BackendError :=
  let? _ := cf d CF_SERVICES in
  load_records (rdb_iterator (db d) CF_SERVICES []) ServiceRegistry.default_ ∅.

Definition persist_service (record : ServiceRecord) (d : t) : result unit BackendError * t :=
  match (let? _ := cf d CF_SERVICES in encode_service_record record) with
  | Err e => (Err e, d)
  | Ok value => write [PutCf CF_SERVICES (to_be_bytes 4 (sr_service_id record)) value] d
  end.

(** The head document: sequence, root and, when it is complete, its context. *)
Definition read_head (service_id : Z) (service_key b : bytes)
    : result (Z * bytes * option FinalizedContextV1) BackendError :=
  let corrupt {A E} (r : result A E) := map_err (fun _ => BE_ServiceStateCorrupt service_id) r in
  let? head := corrupt (head_from_slice b) in
  bail_if negb (ph_version head =? BACKEND_DB_SCHEMA_VERSION_V1) with BE_SchemaMismatch ;;
  let? stored_service_key := corrupt (parse_hash (ph_service_key head)) in
  bail_if negb (ph_service_id head =? service_id) || negb (bool_decide (stored_service_key = service_key))
    with BE_ServiceStateCorrupt service_id ;;
  let? context := match ph_finalized_block_hash head, ph_finalized_block_number head, ph_finalized_slot head with
                  | Some block_hash, Some block_number, Some slot =>
                      let? block_hash := corrupt (parse_hash block_hash) in
                      Ok (Some (mkContext block_hash block_number (repeat x00 32) slot))
                  | None, None, None => Ok None
                  | _, _, _ => Err (BE_ServiceStateCorrupt service_id)
                  end in
  let? root := corrupt (parse_hash (ph_managed_state_root head)) in
  Ok (ph_sequence head, root, context).

(** The loop over the state of one service: stops at the first other key. *)
Fixpoint scan_prefix (prefix : bytes) (items : list (result (bytes * bytes) bytes))
    : result (list (bytes * bytes)) BackendError :=
  match items with
  | [] => Ok []
  | Err e :: _ => Err (BE_Database e)
  | Ok (key, value) :: items' =>
      if negb (bool_decide (prefix `prefix_of` key)) then Ok []
      else let? pairs := scan_prefix prefix items' in
           Ok ((b_from key (blen prefix), value) :: pairs)
  end.

Definition load_service_snapshot (service_id : Z) (service_key : bytes) (d : t)
    : result (Z * bytes * FullState.t * option FinalizedContextV1) BackendError :=
  let? _ := cf d CF_HEADS in
  let? stored := get_cf d CF_HEADS (to_be_bytes 4 service_id) in
  let? '(sequence, root, context) :=
    match stored with
    | Some b => read_head service_id service_key b
    | None => Ok (0, EMPTY_STATE_ROOT_V1, None)
    end in
  let? _ := cf d CF_STATE in
  let prefix := to_be_bytes 4 service_id in
  let? pairs := scan_prefix prefix (rdb_iterator (db d) CF_STATE prefix) in
  let? state := map_err (fun _ => BE_ServiceStateCorrupt service_id) (FullState.from_pairs pairs) in
  bail_if negb (bool_decide (FullState.root state = root)) with BE_ServiceStateCorrupt service_id ;;
  Ok (sequence, root, state, context).

Definition state_op (service_id : Z) (change : StateChangeV1) : write_op :=
  let k := to_be_bytes 4 service_id ++ key change in
  match value change with
  | Some v => PutCf CF_STATE k v
  | None => DeleteCf CF_STATE k
  end.

Definition persisted_head (service_id : Z) (service_key : bytes) (sequence : Z) (root : bytes)
    (context : option FinalizedContextV1) : PersistedHead :=
  mkPersistedHead BACKEND_DB_SCHEMA_VERSION_V1 service_id (hash_hex service_key) sequence (hash_hex root)
    ((fun c => hash_hex (fc_block_hash c)) <$> context) (fc_block_number <$> context) (fc_slot <$> context).

Definition transition_batch (service_id : Z) (service_key : bytes) (sequence : Z) (output : RefineOutput.t)
    (diff : StateDiff.t) (finalized_context : option FinalizedContextV1) (d : t)
    : result (list write_op) BackendError :=
  let? _ := cf d CF_HEADS in
  let? _ := cf d CF_STATE in
  let? _ := cf d CF_TRANSITIONS in
  let? head_bytes := map_err BE_Database
    (head_to_vec (persisted_head service_id service_key sequence (RefineOutput.new_root output) finalized_context)) in
  let? transition := RecoveryEnvelope.encode (RecoveryEnvelope.mk service_id service_key output) in
  Ok (map (state_op service_id) (StateDiff.changes diff)
      ++ [PutCf CF_HEADS (to_be_bytes 4 service_id) head_bytes;
          PutCf CF_TRANSITIONS (transition_key service_id sequence) transition]
      ++ (if sequence >? transition_retention d
          then [DeleteCf CF_TRANSITIONS (transition_key service_id (sequence - transition_retention d))]
          else [])).

Definition commit_transition (service_id : Z) (service_key : bytes) (sequence : Z) (output : RefineOutput.t)
    (diff : StateDiff.t) (finalized_context : option FinalizedContextV1) (d : t)
    : result unit BackendError * t :=
  match transition_batch service_id service_key sequence output diff finalized_context d with
  | Err e => (Err e, d)
  | Ok batch => write batch d
  end.
End Ops.
End BackendDatabase.

(** ** Keys with a common prefix are contiguous *)

Lemma prefix_le (p k : bytes) : p `prefix_of` k -> kle p k.
Proof.
  intros [x ->]. unfold kle, cmp, bytes_total_cmp. induction p as [|b p IH]; simpl; [by destruct x|].
  by rewrite Z.compare_refl.
Qed.

Lemma prefix_interval (p k k' : bytes) : kle p k -> kle k k' -> p `prefix_of` k' -> p `prefix_of` k.
Proof.
  unfold kle, cmp, bytes_total_cmp. revert k k'. induction p as [|b p IH]; intros k k'; [intros; apply prefix_nil|].
  destruct k as [|c k]; [done|]. destruct k' as [|c' k']; [done|]. simpl.
  intros H1 H2 Hp. pose proof (prefix_cons_inv_1 _ _ _ _ Hp) as <-. apply prefix_cons_inv_2 in Hp.
  destruct (Z.compare_spec (b2z b) (b2z c)) as [He|Hlt|Hgt]; [|rewrite (proj2 (Z.compare_gt_iff _ _)) in H2 by lia; done|done].
  apply b2z_inj in He as <-. rewrite Z.compare_refl in H2. by apply prefix_cons, (IH k k').
Qed.

Lemma NoDup_fst_map_to_list_sorted (m : gmap bytes bytes) : NoDup (map fst (sort_by_key fst (map_to_list m))).
Proof. apply key_ssorted_nodup, sort_by_key_ssorted. apply NoDup_fst_map_to_list. Qed.

Lemma entries_from_elem start m k v :
  (k, v) ∈ entries_from start m <-> m !! k = Some v /\ kle start k.
Proof.
  unfold entries_from. rewrite list_elem_of_filter, sort_by_key_perm, elem_of_map_to_list. simpl. naive_solver.
Qed.

Lemma entries_from_ssorted start m : key_ssorted fst (entries_from start m).
Proof.
  unfold entries_from. pose proof (sort_by_key_ssorted fst (map_to_list m) (NoDup_fst_map_to_list m)) as Hs.
  unfold key_ssorted in *. induction Hs as [|e l Hs IH Hf]; [constructor|].
  rewrite filter_cons. case_decide; [|done]. constructor; [done|].
  apply Forall_forall. intros x [_ Hx]%list_elem_of_filter. by eapply Forall_forall in Hf.
Qed.

(** Loading pairs with distinct keys builds the map they list. *)
Lemma fold_insert_lookup (l : list (bytes * bytes)) k : forall m : kv,
  NoDup (map fst l) ->
  fold_left (fun m p => <[p.1 := p.2]> m) l m !! k
  = match list_find (fun p => p.1 = k) l with Some (_, p) => Some p.2 | None => m !! k end.
Proof.
  induction l as [|[j v] l IH]; intros m Hnd; simpl; [done|].
  apply NoDup_cons in Hnd as [Hj Hnd]. rewrite IH by done. case_decide as Hjk; simpl in Hjk.
  - subst j. destruct (list_find (fun p => p.1 = k) l) as [[i p]|] eqn:Hf; simpl.
    + apply list_find_Some in Hf as (Hi & <- & _). destruct Hj. apply list_elem_of_fmap. exists p.
      split; [done|]. by eapply list_elem_of_lookup_2.
    + by rewrite lookup_insert_eq.
  - destruct (list_find (fun p => p.1 = k) l) as [[i p]|]; simpl; [done|]. by rewrite lookup_insert_ne.
Qed.

Lemma fold_insert_map (l : list (bytes * bytes)) (m : kv) :
  NoDup (map fst l) -> (forall k v, (k, v) ∈ l <-> m !! k = Some v) ->
  fold_left (fun m p => <[p.1 := p.2]> m) l ∅ = m.
Proof.
  intros Hnd Hl. apply map_eq. intros k. rewrite fold_insert_lookup by done.
  destruct (list_find (fun p => p.1 = k) l) as [[i [j v]]|] eqn:Hf.
  - apply list_find_Some in Hf as (Hi & Hj & _). simpl in *. subst j. symmetry. apply Hl.
    by eapply list_elem_of_lookup_2.
  - apply list_find_None in Hf. rewrite lookup_empty. symmetry. apply eq_None_not_Some. intros [v Hv].
    apply Hl in Hv. rewrite Forall_forall in Hf. by apply (Hf _ Hv).
Qed.

(** The scan of a service's state reads exactly the keys with its prefix, or
    reports an error of the iterator. [tail] is what the iterator did not
    deliver, which is nothing unless it failed. *)
Lemma scan_prefix_spec prefix l tail rest :
  key_ssorted fst (l ++ tail) -> (forall e, e ∈ l ++ tail -> kle prefix e.1) ->
  (rest = [] /\ tail = [] \/ exists e rest', rest = Err e :: rest') ->
  match BackendDatabase.scan_prefix prefix (map Ok l ++ rest) with
  | Ok pairs => (forall k v, (k, v) ∈ pairs <-> (prefix ++ k, v) ∈ l ++ tail) /\ NoDup (map fst pairs)
  | Err e => exists message, e = BE_Database message
  end.
Proof.
  intros Hs Hp Hrest. unfold key_ssorted in Hs. induction l as [|[k v] l IH]; cbn [map app] in *.
  { destruct Hrest as [[-> ->]|(e & rest' & ->)]; simpl; [|eauto]. split; [set_solver|constructor]. }
  apply StronglySorted_inv in Hs as [Hs Hf]. rewrite Forall_forall in Hf.
  specialize (IH Hs (fun e He => Hp e ltac:(by right))).
  cbn [BackendDatabase.scan_prefix]. destruct (decide (prefix `prefix_of` k)) as [Hpre|Hpre].
  - rewrite bool_decide_eq_true_2 by done. cbn [negb]. destruct Hpre as [x ->]. rewrite b_from_app by done.
    destruct (BackendDatabase.scan_prefix prefix (map Ok l ++ rest)) as [pairs|e]; cbn [rbind]; [|done].
    destruct IH as [Hin Hnd]. split.
    + intros j w. rewrite !elem_of_cons, Hin. split; [naive_solver|].
      intros [[= Hj%app_inv_head ->]|]; [left; by subst|by right].
    + cbn [map fst]. constructor; [|done]. intros ([j w] & Hj & Hw)%list_elem_of_fmap. simpl in Hj. subst j.
      apply Hin, Hf in Hw. by apply (klt_irrefl (prefix ++ x)).
  - rewrite bool_decide_eq_false_2 by done. cbn [negb]. split; [|constructor].
    intros j w. split; [by intros ?%elem_of_nil|]. intros [[= <- ->]|Hl]%elem_of_cons; [destruct Hpre; by exists j|].
    apply Hf in Hl. destruct Hpre.
    eapply (prefix_interval prefix k (prefix ++ j)); [apply (Hp (k, v)); by left| |by exists j].
    apply kle_lt_eq. by left.
Qed.

(** What an iterator delivers before its end or its first error. *)
Lemma iterator_split {A E} (items : list (result A E)) :
  exists l rest, items = map Ok l ++ rest /\ (rest = [] \/ exists e rest', rest = Err e :: rest').
Proof.
  induction items as [|[a|e] items (l & rest & -> & Hr)]; [by exists [], []; auto| |].
  - by exists (a :: l), rest.
  - exists [], (Err e :: map Ok l ++ rest). split; [done|]. right. eauto.
Qed.

(** ** What the database says about a service *)

Section Laws.
Context `{Blake2} `{TrieLaws} `{RocksDbLaws} `{SerdeJsonLaws}.
Import BackendDatabase.
Notation table d := (contents (db d)).

(** The service [id] with key [key] is stored with the map [m] after [sequence]
    transitions; the head names the root of exactly that map. *)
Record service_rep (d : t) (id : Z) (service_key : bytes) (m : kv) (sequence : Z) : Prop := {
  rep_state k : table d CF_STATE !! (to_be_bytes 4 id ++ k) = m !! k;
  rep_head : match table d CF_HEADS !! to_be_bytes 4 id with
             | None => sequence = 0 /\ m = ∅
             | Some b => hash_ok service_key /\ hash_ok (root_of m)
                 /\ exists context, head_from_slice b = Ok (persisted_head id service_key sequence (root_of m) context)
                      /\ opt_ok (fun c => hash_ok (fc_block_hash c)) context
             end
}.

(** A database whose reads do not fail. *)
Definition readable (d : t) : Prop :=
  (forall c k, is_ok (rdb_get (db d) c k) = true)
  /\ (forall c start, Forall (fun item => is_ok item = true) (rdb_iterator (db d) c start)).

Lemma cf_ok (d : t) c : cf d c = Ok tt.
Proof. unfold cf. by rewrite cf_opened. Qed.

Lemma read_head_persisted id service_key sequence root context b :
  hash_ok service_key -> hash_ok root -> opt_ok (fun c => hash_ok (fc_block_hash c)) context ->
  head_from_slice b = Ok (persisted_head id service_key sequence root context) ->
  exists context', read_head id service_key b = Ok (sequence, root, context')
    /\ opt_ok (fun c => hash_ok (fc_block_hash c)) context'.
Proof.
  intros Hk Hr Hc Hb. unfold read_head. rewrite Hb. cbn -[parse_hash hash_hex BACKEND_DB_SCHEMA_VERSION_V1].
  rewrite Z.eqb_refl. cbn [negb]. rewrite (parse_hash_hex service_key) by done. cbn [rbind map_err].
  rewrite Z.eqb_refl, bool_decide_eq_true_2 by done. cbn [negb orb].
  destruct context as [c|]; cbn [fmap option_fmap option_map].
  - simpl in Hc. rewrite (parse_hash_hex (fc_block_hash c)) by done. cbn [rbind map_err].
    rewrite (parse_hash_hex root) by done. cbn [rbind map_err]. by eexists.
  - cbn [rbind]. rewrite (parse_hash_hex root) by done. cbn [rbind map_err]. by eexists.
Qed.

Lemma scan_service (d : t) (id : Z) (m : kv) :
  (forall k, table d CF_STATE !! (to_be_bytes 4 id ++ k) = m !! k) ->
  match scan_prefix (to_be_bytes 4 id) (rdb_iterator (db d) CF_STATE (to_be_bytes 4 id)) with
  | Ok pairs => fold_left (fun m p => <[p.1 := p.2]> m) pairs ∅ = m
  | Err e => exists message, e = BE_Database message
  end.
Proof.
  intros Hm. set (prefix := to_be_bytes 4 id) in *.
  destruct (iterator_split (rdb_iterator (db d) CF_STATE prefix)) as (l & rest & Hi & Hrest).
  destruct (iterator_contents _ _ _ _ _ Hi) as [[tail Hl] Hend].
  pose proof (entries_from_ssorted prefix (table d CF_STATE)) as Hs.
  pose proof (scan_prefix_spec prefix l tail rest) as Hscan. rewrite <- Hl, <- Hi in Hscan.
  specialize (Hscan Hs). assert (rest = [] /\ tail = [] \/ exists e rest', rest = Err e :: rest') as Hr.
  { destruct Hrest as [->|Hr]; [|by right]. left. split; [done|].
    specialize (Hend eq_refl). rewrite Hl in Hend. apply (f_equal length) in Hend. rewrite length_app in Hend.
    apply length_zero_iff_nil. lia. }
  assert (forall e, e ∈ entries_from prefix (table d CF_STATE) -> kle prefix e.1) as Hge
    by (intros [k v] [_ ?]%entries_from_elem; done).
  specialize (Hscan Hge Hr). destruct (scan_prefix _ _) as [pairs|e]; [|done]. destruct Hscan as [Hin Hnd].
  apply fold_insert_map; [done|]. intros k v. rewrite Hin, entries_from_elem, Hm.
  split; [by intros [? _]|]. intros Hv. split; [done|]. apply prefix_le. by exists k.
Qed.

Lemma load_snapshot_rep (d : t) id service_key m sequence :
  service_rep d id service_key m sequence ->
  match load_service_snapshot id service_key d with
  | Ok (sequence', root, state, context) => sequence' = sequence /\ root = root_of m /\ FullState.rep state m
      /\ opt_ok (fun c => hash_ok (fc_block_hash c)) context
  | Err e => exists message, e = BE_Database message
  end.
Proof.
  intros [Hst Hhead]. unfold load_service_snapshot. rewrite !cf_ok. cbn [rbind]. unfold get_cf.
  destruct (rdb_get (db d) CF_HEADS (to_be_bytes 4 id)) as [stored|e] eqn:Hg; cbn [rbind map_err]; [|eauto].
  apply get_contents in Hg. rewrite <- Hg in Hhead.
  assert (exists context, match stored with
    | Some b => read_head id service_key b
    | None => Ok (0, EMPTY_STATE_ROOT_V1, None)
    end = Ok (sequence, root_of m, context) /\ opt_ok (fun c => hash_ok (fc_block_hash c)) context)
    as (context & -> & Hctx).
  { destruct stored as [b|].
    - destruct Hhead as (Hk & Hr & context & Hb & Hc).
      destruct (read_head_persisted _ _ _ _ _ _ Hk Hr Hc Hb) as (context' & -> & ?). by eexists.
    - destruct Hhead as [-> ->]. exists None. by rewrite <- empty_root_v1, empty_root. }
  cbn [rbind]. pose proof (scan_service d id m Hst) as Hscan.
  destruct (scan_prefix _ _) as [pairs|e]; cbn [rbind]; [|exact Hscan].
  destruct (FullState.from_pairs_rep pairs) as (state & -> & Hrep). cbn [rbind map_err].
  rewrite Hscan in Hrep. rewrite bool_decide_eq_true_2 by (by destruct Hrep). done.
Qed.

Lemma scan_readable prefix items :
  Forall (fun item : result (bytes * bytes) bytes => is_ok item = true) items -> exists pairs, scan_prefix prefix items = Ok pairs.
Proof.
  induction 1 as [|[[k v]|e] items Hi _ (pairs & IH)]; cbn [scan_prefix]; [by eexists| |done].
  case_match; [by eexists|]. rewrite IH. by eexists.
Qed.

Lemma load_snapshot_readable (d : t) id service_key m sequence :
  readable d -> service_rep d id service_key m sequence ->
  exists state context, load_service_snapshot id service_key d = Ok (sequence, root_of m, state, context)
    /\ FullState.rep state m.
Proof.
  intros [Hget Hiter] Hrep. pose proof (load_snapshot_rep d id service_key m sequence Hrep) as Hl.
  destruct (load_service_snapshot id service_key d) as [[[[s r] st] c]|e] eqn:Hload.
  { destruct Hl as (-> & -> & Hr & _). by exists st, c. }
  exfalso. destruct Hl as [message ->]. revert Hload. unfold load_service_snapshot, get_cf. rewrite !cf_ok. cbn [rbind].
  specialize (Hget CF_HEADS (to_be_bytes 4 id)).
  destruct (rdb_get (db d) CF_HEADS (to_be_bytes 4 id)) as [stored|] eqn:Hg; [|done]. cbn [rbind map_err].
  destruct (scan_readable (to_be_bytes 4 id) _ (Hiter CF_STATE (to_be_bytes 4 id))) as [pairs ->].
  destruct Hrep as [_ Hhead]. apply get_contents in Hg. rewrite <- Hg in Hhead. destruct stored as [b|].
  - destruct Hhead as (Hk & Hr & context & Hb & Hc).
    destruct (read_head_persisted _ _ _ _ _ _ Hk Hr Hc Hb) as (context' & -> & _). cbn [rbind].
    destruct (FullState.from_pairs pairs); cbn [rbind map_err]; [|done]. by case_match.
  - cbn [rbind]. destruct (FullState.from_pairs pairs); cbn [rbind map_err]; [|done]. by case_match.
Qed.
(** *** Writing a transition *)

Lemma apply_batch_app ops ops' c m : apply_batch (ops ++ ops') c m = apply_batch ops' c (apply_batch ops c m).
Proof. apply fold_left_app. Qed.

Lemma apply_state_ops id cs : forall (m : kv) (tbl : gmap bytes bytes),
  (forall k, tbl !! (to_be_bytes 4 id ++ k) = m !! k) ->
  (forall k, apply_batch (map (state_op id) cs) CF_STATE tbl !! (to_be_bytes 4 id ++ k) = apply_changes cs m !! k)
  /\ (forall j, (forall k, j <> to_be_bytes 4 id ++ k) ->
        apply_batch (map (state_op id) cs) CF_STATE tbl !! j = tbl !! j).
Proof.
  induction cs as [|c cs IH]; intros m tbl Hm; [done|]. unfold apply_batch, apply_changes in *.
  cbn [map fold_left]. set (tbl' := apply_op CF_STATE tbl (state_op id c)).
  destruct (IH (apply_change m c) tbl') as [H1' H2'].
  - intros k. unfold tbl', state_op, apply_op, apply_change. destruct (value c) as [v|]; rewrite decide_True by done.
    + destruct (decide (k = key c)) as [->|Hne]; [by rewrite !lookup_insert_eq|].
      rewrite !lookup_insert_ne by (try done; intros ?%app_inv_head; congruence). apply Hm.
    + destruct (decide (k = key c)) as [->|Hne]; [by rewrite !lookup_delete_eq|].
      rewrite !lookup_delete_ne by (try done; intros ?%app_inv_head; congruence). apply Hm.
  - split; [done|]. intros j Hj. rewrite H2' by done. unfold tbl', state_op, apply_op.
    destruct (value c); rewrite decide_True by done; [apply lookup_insert_ne|apply lookup_delete_ne]; by symmetry.
Qed.

Lemma state_ops_other id cs c m : c <> CF_STATE -> apply_batch (map (state_op id) cs) c m = m.
Proof.
  intros Hc. unfold apply_batch. induction cs as [|x cs IH]; [done|]. cbn [map fold_left].
  replace (apply_op c m (state_op id x)) with m; [done|].
  unfold state_op, apply_op. destruct (value x); by rewrite decide_False.
Qed.

(** The head and the state of a service are the same in both databases. *)
Definition untouched (d d' : t) (id : Z) : Prop :=
  table d' CF_HEADS !! to_be_bytes 4 id = table d CF_HEADS !! to_be_bytes 4 id
  /\ forall k, table d' CF_STATE !! (to_be_bytes 4 id ++ k) = table d CF_STATE !! (to_be_bytes 4 id ++ k).

Lemma untouched_rep d d' id service_key m sequence :
  untouched d d' id -> service_rep d id service_key m sequence -> service_rep d' id service_key m sequence.
Proof. intros [Hh Hs] [Hst Hhead]. split; [intros k; by rewrite Hs|by rewrite Hh]. Qed.

Lemma same_tables_untouched d d' id : (forall c, c <> CF_SERVICES -> table d' c = table d c) -> untouched d d' id.
Proof. intros Ht. split; [by rewrite Ht|intros k; by rewrite Ht]. Qed.

Lemma write_Err ops d d' e c : write ops d = (Err e, d') -> table d' c = table d c.
Proof.
  unfold write. destruct (rdb_write ops (db d)) as [[[]|e'] r] eqn:Hw; [done|]. intros [= _ <-]. simpl.
  by eapply write_atomic.
Qed.

Lemma write_Ok ops d d' c : write ops d = (Ok tt, d') -> table d' c = apply_batch ops c (table d c).
Proof.
  unfold write. destruct (rdb_write ops (db d)) as [[[]|e'] r] eqn:Hw; [|done]. intros [= <-]. simpl.
  by eapply write_contents.
Qed.

Lemma commit_transition_Err id service_key sequence output diff context d d' e c :
  commit_transition id service_key sequence output diff context d = (Err e, d') -> table d' c = table d c.
Proof.
  unfold commit_transition. destruct (transition_batch _ _ _ _ _ _ _) as [ops|e']; [apply write_Err|by intros [= _ <-]].
Qed.

(** What a committed transition leaves in the tables. *)
Lemma commit_transition_tables id service_key sequence output diff context d d' :
  commit_transition id service_key sequence output diff context d = (Ok tt, d') ->
  exists b, head_to_vec (persisted_head id service_key sequence (RefineOutput.new_root output) context) = Ok b
    /\ table d' CF_STATE = apply_batch (map (state_op id) (StateDiff.changes diff)) CF_STATE (table d CF_STATE)
    /\ table d' CF_HEADS = <[to_be_bytes 4 id := b]> (table d CF_HEADS)
    /\ table d' CF_SERVICES = table d CF_SERVICES /\ table d' CF_META = table d CF_META.
Proof.
  intros Hc. unfold commit_transition in Hc. destruct (transition_batch _ _ _ _ _ _ _) as [ops|e'] eqn:Hb; [|done].
  unfold transition_batch in Hb. rewrite !cf_ok in Hb. cbn [rbind] in Hb.
  apply rbind_Ok in Hb as (b & Hb%map_err_Ok & He). apply rbind_Ok in He as (env & _ & [= <-]). exists b. split; [done|].
  set (journal := if sequence >? transition_retention d then _ else _) in Hc.
  match type of Hc with write (_ ++ ?a :: ?b :: journal) _ = _ => change (a :: b :: journal) with ([a; b] ++ journal) in Hc end.
  assert (forall c m, c <> CF_TRANSITIONS -> apply_batch journal c m = m) as Hj.
  { intros c m Hne. unfold journal. destruct (sequence >? _); [|done]. unfold apply_batch. simpl.
    by rewrite decide_False by congruence. }
  split_and!; rewrite (write_Ok _ _ _ _ Hc), !apply_batch_app, Hj by done;
    rewrite ?state_ops_other by done; unfold apply_batch; simpl; done.
Qed.

Lemma commit_transition_rep id service_key sequence output diff context d d' m sequence0 :
  u32_ok id -> hash_ok service_key -> hash_ok (RefineOutput.new_root output) ->
  opt_ok (fun c => hash_ok (fc_block_hash c)) context ->
  service_rep d id service_key m sequence0 ->
  RefineOutput.new_root output = root_of (apply_changes (StateDiff.changes diff) m) ->
  commit_transition id service_key sequence output diff context d = (Ok tt, d') ->
  service_rep d' id service_key (apply_changes (StateDiff.changes diff) m) sequence
  /\ (forall id', u32_ok id' -> id' <> id -> untouched d d' id')
  /\ table d' CF_SERVICES = table d CF_SERVICES.
Proof.
  intros Hid Hk Hr Hctx [Hst _] Hroot Hc.
  destruct (commit_transition_tables _ _ _ _ _ _ _ _ Hc) as (b & Hb & Hts & Hth & Htv & _).
  destruct (apply_state_ops id (StateDiff.changes diff) m (table d CF_STATE) Hst) as [Hnew Hother].
  split_and!; [| |done].
  - split; [intros k; by rewrite Hts|]. rewrite Hth, lookup_insert_eq. split; [done|]. rewrite <- Hroot.
    split; [done|]. exists context. split; [|done]. by apply head_round_trip.
  - intros id' Hid' Hne. split.
    + rewrite Hth, lookup_insert_ne; [done|]. intros Heq. by apply Hne, to_be_bytes_inj_u32.
    + intros k. rewrite Hts, Hother; [done|]. intros k' [Heq _]%be_prefix_inj. apply Hne.
      by apply to_be_bytes_inj_u32.
Qed.
(** *** The registry *)

Lemma map_transpose_hex (o : option bytes) :
  opt_ok hash_ok o -> map_transpose parse_hash (hash_hex <$> o) = Ok o.
Proof. destruct o as [h|]; simpl; [|done]. intros Hh. by rewrite parse_hash_hex. Qed.

Lemma service_record_round_trip record b :
  record_ok record -> encode_service_record record = Ok b -> decode_service_record b = Ok record.
Proof.
  intros (_ & Hk & Hc & Hd & Hm & Hn) He%map_err_Ok%record_round_trip. unfold decode_service_record. rewrite He.
  cbn [rbind map_err to_persisted pr_version]. rewrite Z.eqb_refl. cbn [negb].
  unfold of_persisted. cbn [to_persisted pr_service_key pr_code_hash pr_artifact_digest pr_artifact_format
    pr_manifest_digest pr_network_domain pr_service_id pr_abi_version pr_registered_at].
  rewrite (parse_hash_hex (sr_service_key record)) by done. cbn [rbind].
  rewrite (parse_hash_hex (sr_code_hash record)) by done. cbn [rbind].
  rewrite parse_hash_hex by done. cbn [rbind]. unfold artifact_format_parse. rewrite bool_decide_eq_true_2 by done.
  cbn [rbind]. rewrite !map_transpose_hex by done. cbn [rbind].
  destruct record as [i k c a [g []] [m r n]]. done.
Qed.

(** An entry of the services table and the record it stores. *)
Definition stores (e : bytes * bytes) (record : ServiceRecord) : Prop :=
  e.1 = to_be_bytes 4 (sr_service_id record) /\ decode_service_record e.2 = Ok record /\ record_ok record.

Definition persisted (d : t) (record : ServiceRecord) : Prop :=
  exists b, table d CF_SERVICES !! to_be_bytes 4 (sr_service_id record) = Some b
    /\ decode_service_record b = Ok record /\ record_ok record.

(** Every entry is a record under its own number, and no two share a key. *)
Definition services_ok (d : t) : Prop :=
  (forall k b, table d CF_SERVICES !! k = Some b -> exists record, stores (k, b) record)
  /\ (forall r r', persisted d r -> persisted d r' -> sr_service_key r = sr_service_key r' ->
        sr_service_id r = sr_service_id r').

Lemma services_ok_ext d d' : table d' CF_SERVICES = table d CF_SERVICES ->
  (forall r, persisted d' r <-> persisted d r) /\ (services_ok d -> services_ok d').
Proof.
  intros Ht. assert (forall r, persisted d' r <-> persisted d r) as Hp by (intros r; unfold persisted; by rewrite Ht).
  split; [done|]. intros [H1' H2']. split; [rewrite Ht; done|]. intros r r' Hr%Hp Hr'%Hp. by apply H2'.
Qed.

Lemma load_records_spec rest corrupt l : forall reg,
  ServiceRegistry.ok reg -> NoDup (map fst l) ->
  (forall e, e ∈ l -> exists r, stores e r) ->
  (forall e r, e ∈ l -> stores e r ->
     ServiceRegistry.by_id reg !! sr_service_id r = None /\ ServiceRegistry.by_key reg !! sr_service_key r = None) ->
  (forall e e' r r', e ∈ l -> e' ∈ l -> stores e r -> stores e' r' -> sr_service_key r = sr_service_key r' ->
     sr_service_id r = sr_service_id r') ->
  exists reg', load_records (map Ok l ++ rest) reg corrupt = load_records rest reg' corrupt
    /\ ServiceRegistry.ok reg'
    /\ forall r, ServiceRegistry.by_id reg' !! sr_service_id r = Some r
         <-> ServiceRegistry.by_id reg !! sr_service_id r = Some r \/ exists e, e ∈ l /\ stores e r.
Proof.
  induction l as [|[k b] l IH]; intros reg Hreg Hnd Hst Hnew Hkeys.
  { exists reg. split; [done|]. split; [done|]. set_solver. }
  apply NoDup_cons in Hnd as [Hk Hnd].
  destruct (Hst (k, b)) as [r Hr]; [by left|]. pose proof Hr as (Hke & Hd & Hrok). simpl in Hke, Hd. subst k.
  destruct (Hnew (to_be_bytes 4 (sr_service_id r), b) r) as [Hid Hkey]; [by left|done|]. pose proof Hrok as [Hu _].
  cbn [map app load_records]. rewrite blen_to_be_bytes, Hd, from_to_be_u32 by done.
  change (Z.of_nat 4 =? 4) with true. rewrite Z.eqb_refl. cbn [negb].
  pose proof (ServiceRegistry.registered_ok r reg Hreg) as Hok. unfold ServiceRegistry.register in *.
  rewrite Hid, Hkey in *. cbn [snd] in Hok.
  destruct (IH _ Hok Hnd) as (reg' & Hl & Hok' & Hin).
  - intros e He. apply Hst. by right.
  - intros [k' b'] r' He Hr'. assert (sr_service_id r' <> sr_service_id r) as Hne.
    { intros Heq. apply Hk, list_elem_of_fmap. exists (k', b'). split; [|done]. destruct Hr' as [-> _]. simpl.
      by rewrite Heq. }
    destruct (Hnew (k', b') r') as [Hi Hky]; [by right|done|]. simpl.
    rewrite !lookup_insert_ne; [done| |congruence]. intros Heq. apply Hne. symmetry.
    eapply (Hkeys (to_be_bytes 4 (sr_service_id r), b) (k', b')); [by left|by right|done..].
  - intros e e' r1 r2 He He'. apply Hkeys; by right.
  - exists reg'. split; [exact Hl|]. split; [done|]. intros r'. rewrite Hin. simpl.
    destruct (decide (sr_service_id r' = sr_service_id r)) as [Heq|Hne].
    + rewrite Heq, lookup_insert_eq, Hid. split.
      * intros [[= <-]|(e & He & Hr')]; right; [exists (to_be_bytes 4 (sr_service_id r), b); split; [left|done]|exists e; split; [by right|done]].
      * intros [?|(e & [->|He]%elem_of_cons & Hr')]; [done| |right; eauto]. left. destruct Hr' as (_ & Hd' & _).
        simpl in Hd'. congruence.
    + rewrite lookup_insert_ne by done. split.
      * intros [?|(e & He & Hr')]; [by left|right; exists e; split; [by right|done]].
      * intros [?|(e & [->|He]%elem_of_cons & Hr')]; [by left| |right; eauto].
        destruct Hr' as (_ & Hd' & _). simpl in Hd'. congruence.
Qed.

Lemma load_registry_spec (d : t) :
  services_ok d ->
  match load_registry d with
  | Ok (reg, corrupt) => corrupt = ∅ /\ ServiceRegistry.ok reg
      /\ forall r, ServiceRegistry.by_id reg !! sr_service_id r = Some r <-> persisted d r
  | Err e => (exists message, e = BE_Database message) /\ ~ readable d
  end.
Proof.
  intros [Hst Hkeys]. unfold load_registry. rewrite cf_ok. cbn [rbind].
  destruct (iterator_split (rdb_iterator (db d) CF_SERVICES [])) as (l & rest & Hi & Hrest).
  destruct (iterator_contents _ _ _ _ _ Hi) as [[tail Hl] Hend].
  pose proof (entries_from_ssorted [] (table d CF_SERVICES)) as Hs. rewrite Hi.
  assert (forall k b, (k, b) ∈ l -> table d CF_SERVICES !! k = Some b) as Hin.
  { intros k b He. apply (entries_from_elem [] (table d CF_SERVICES)). rewrite Hl. set_solver. }
  assert (forall e r, e ∈ l -> stores e r -> persisted d r) as Hper.
  { intros [k b] r He (Hk & Hd & Hr). simpl in *. exists b. split; [|done]. rewrite <- Hk. by apply Hin. }
  destruct (load_records_spec rest ∅ l ServiceRegistry.default_) as (reg & -> & Hok & Hreg).
  - apply ServiceRegistry.empty_registry_ok.
  - apply key_ssorted_nodup in Hs. rewrite Hl, map_app in Hs. by apply NoDup_app in Hs as [? _].
  - intros [k b] He. apply Hst. by apply Hin.
  - intros e r _ _. simpl. by rewrite !lookup_empty.
  - intros e e' r r' He He' Hr Hr'. apply Hkeys; eauto.
  - destruct Hrest as [->|(e & rest' & ->)]; cbn [load_records].
    + split; [done|]. split; [done|]. intros r. rewrite Hreg. simpl. rewrite lookup_empty. split.
      * intros [?|(e & He & Hr)]; [done|by eapply Hper].
      * intros (b & Hb & Hd & Hr). right. eexists (_, b). split; [|done]. rewrite (Hend eq_refl).
        apply entries_from_elem. split; [done|]. apply prefix_le, prefix_nil.
    + split; [by eexists|]. intros [_ Hit]. specialize (Hit CF_SERVICES []). rewrite Hi in Hit.
      apply Forall_app in Hit as [_ Hit]. by inversion Hit.
Qed.

Lemma persist_service_spec (record : ServiceRecord) (d d' : t) r :
  record_ok record -> persist_service record d = (r, d') ->
  (forall c, c <> CF_SERVICES -> table d' c = table d c)
  /\ (r = Ok tt /\ (exists b, decode_service_record b = Ok record
          /\ table d' CF_SERVICES = <[to_be_bytes 4 (sr_service_id record) := b]> (table d CF_SERVICES))
      \/ (exists e, r = Err e) /\ table d' CF_SERVICES = table d CF_SERVICES).
Proof.
  intros Hok. unfold persist_service. rewrite cf_ok. cbn [rbind].
  destruct (encode_service_record record) as [b|e] eqn:He; [|intros [= <- <-]; split; [done|right; eauto]].
  intros Hw. destruct r as [[]|e].
  - split; [intros c Hc|left; split; [done|]; exists b; split; [by apply service_record_round_trip|]];
      rewrite (write_Ok _ _ _ _ Hw); unfold apply_batch; simpl; [by rewrite decide_False|done].
  - split; [intros c _; by eapply write_Err|]. right. split; [by eexists|]. by eapply write_Err.
Qed.
End Laws.

(** ** Instances: tables in memory, documents numbered by [encode] *)

#[global] Instance model_rocks : RocksDb := {|
  rdb := column -> gmap bytes bytes;
  rdb_cf_handle _ _ := true;
  rdb_get d c k := Ok (d c !! k);
  rdb_iterator d c start := map Ok (entries_from start (d c));
  rdb_write ops d := (Ok tt, fun c => apply_batch ops c (d c))
|}.

#[global] Program Instance model_rocks_laws : RocksDbLaws := {| contents d c := d c |}.
Next Obligation. done. Qed.
Next Obligation. by intros d c k v [= <-]. Qed.
Next Obligation.
  intros d c start l rest Hl. simpl in Hl. revert l rest Hl. induction (entries_from start (d c)) as [|e es IH].
  - intros [|x l] rest Hl; [|done]. split; [done|]. done.
  - intros [|x l] rest Hl; simpl in Hl; [split; [apply prefix_nil|by intros ->]|].
    injection Hl as -> Hl. destruct (IH l rest Hl) as [Hp He]. split; [by apply prefix_cons|].
    intros Hr. by rewrite (He Hr).
Qed.
Next Obligation. by intros ops d d' c [= <-]. Qed.
Next Obligation. done. Qed.

(** A document is the list of its fields, each with its length. *)
Definition pack (fields : list bytes) : result bytes bytes :=
  if forallb (fun f => blen f <=? U32_MAX) fields then Ok (concat (map frame fields)) else Err [].

Fixpoint unpack (fuel : nat) (b : bytes) : list bytes :=
  match fuel, b with
  | Datatypes.S fuel', _ :: _ =>
      let n := from_le_bytes (take 4 b) in
      take (Z.to_nat n) (drop 4 b) :: unpack fuel' (drop (4 + Z.to_nat n) b)
  | _, _ => []
  end.

Lemma unpack_frame fuel f rest :
  blen f <= U32_MAX -> unpack (Datatypes.S fuel) (frame f ++ rest) = f :: unpack fuel rest.
Proof.
  intros Hf. set (b := frame f ++ rest).
  assert (unpack (Datatypes.S fuel) b
    = take (Z.to_nat (from_le_bytes (take 4 b))) (drop 4 b)
      :: unpack fuel (drop (4 + Z.to_nat (from_le_bytes (take 4 b))) b)) as ->.
  { destruct b as [|x b'] eqn:Hb; [|done]. unfold b, frame in Hb. apply (f_equal length) in Hb.
    rewrite !length_app, to_le_bytes_length in Hb. simpl in Hb. lia. }
  unfold b, frame. rewrite <- (assoc_L (++)).
  rewrite (take_app_length' _ _ 4) by (by rewrite to_le_bytes_length).
  rewrite from_to_u32 by (split; [apply blen_nonneg|done]).
  rewrite (drop_app_length' _ _ 4) by (by rewrite to_le_bytes_length). unfold blen. rewrite Nat2Z.id, take_app_length.
  f_equal. rewrite drop_app_ge by (rewrite to_le_bytes_length; lia). rewrite to_le_bytes_length.
  replace (4 + length f - 4)%nat with (length f) by lia. by rewrite drop_app_length.
Qed.

Lemma unpack_pack fields b : pack fields = Ok b -> unpack (length b) b = fields.
Proof.
  unfold pack. destruct (forallb _ fields) eqn:Hf; [|done]. intros [= <-].
  rewrite forallb_forall in Hf. pose proof (frames_length fields) as Hfuel.
  revert Hfuel. generalize (length (concat (map frame fields))). induction fields as [|f fields IH]; intros fuel Hfuel.
  { by destruct fuel. }
  destruct fuel as [|fuel]; [simpl in Hfuel; lia|]. cbn [map concat].
  rewrite unpack_frame by (apply Z.leb_le, Hf; by left). f_equal.
  apply IH; [intros x Hx; apply Hf; by right|]. simpl in Hfuel. lia.
Qed.

Definition z_field (z : Z) : bytes := number_bytes (countable.encode z).
Definition field_z (b : bytes) : Z := default 0 (countable.decode (bytes_number b)).
Definition opt_field (o : option bytes) : bytes := match o with Some b => x01 :: b | None => [] end.
Definition field_opt (b : bytes) : option bytes := match b with _ :: b => Some b | [] => None end.

Lemma field_z_field z : field_z (z_field z) = z.
Proof. unfold field_z, z_field. by rewrite bytes_number_bytes, countable.decode_encode. Qed.

Lemma field_opt_field o : field_opt (opt_field o) = o.
Proof. by destruct o. Qed.

Definition record_fields (r : PersistedServiceRecord) : list bytes :=
  [z_field (pr_version r); z_field (pr_service_id r); pr_service_key r; pr_code_hash r; z_field (pr_abi_version r);
   pr_artifact_digest r; pr_artifact_format r; opt_field (pr_manifest_digest r);
   opt_field (z_field <$> pr_registered_at r); opt_field (pr_network_domain r)].
Definition head_fields (h : PersistedHead) : list bytes :=
  [z_field (ph_version h); z_field (ph_service_id h); ph_service_key h; z_field (ph_sequence h);
   ph_managed_state_root h; opt_field (ph_finalized_block_hash h); opt_field (z_field <$> ph_finalized_block_number h);
   opt_field (z_field <$> ph_finalized_slot h)].

#[global] Instance model_json : SerdeJson := {|
  record_to_vec r := pack (record_fields r);
  record_from_slice b :=
    match unpack (length b) b with
    | [v; i; k; c; a; d; f; m; r; n] =>
        Ok (mkPersistedRecord (field_z v) (field_z i) k c (field_z a) d f (field_opt m) (field_z <$> field_opt r) (field_opt n))
    | _ => Err []
    end;
  head_to_vec h := pack (head_fields h);
  head_from_slice b :=
    match unpack (length b) b with
    | [v; i; k; s; r; h; n; t] =>
        Ok (mkPersistedHead (field_z v) (field_z i) k (field_z s) r (field_opt h) (field_z <$> field_opt n)
              (field_z <$> field_opt t))
    | _ => Err []
    end
|}.

#[global] Instance model_json_laws : SerdeJsonLaws.
Proof.
  assert (forall o : option Z, field_z <$> field_opt (opt_field (z_field <$> o)) = o) as Ho.
  { intros [z|]; simpl; [by rewrite field_z_field|done]. }
  split; intros x b Hb%unpack_pack; cbn -[unpack record_fields head_fields]; rewrite Hb; destruct x;
    cbn -[z_field field_z opt_field field_opt fmap]; by rewrite ?Ho, !field_z_field, !field_opt_field.
Qed.
