(* ===== verification/BackendState.v ===== *)
(** * The state of the backend

    [BackendState]: the registries, the state provider, the predictions of
    submitted work and their progress, the per-service head sequence, and the
    optional database that every head movement goes through first. *)

From S2P Require Import Prelude Ordering Reader Wire ServiceKeys StateView StateDiff Records Witness Dependencies RefineOutput GuestMemory State ModelTrie Overlays Provider BackendBase Registry Envelope Database.

(** [#[derive(Ord)]] on [WorkKey]: by service, then by package. *)
#[global] Instance work_key_cmp : TotalCmp WorkKey := fun a b =>
  match cmp (wk_service_id a) (wk_service_id b) with
  | Eq => cmp (wk_package_hash a) (wk_package_hash b)
  | c => c
  end.

Module BackendState.
Section Ops.
Context `{Blake2} `{Trie} `{RocksDb} `{SerdeJson} {P : Type} `{ApplicationPlanner P}.

Record t := mk {
  registry : ServiceRegistry.t;
  applications : gmap Z P;
  provider : FullStateProvider.t;
  pending : gmap WorkKey RefineOutput.t;
  predictions : gmap WorkKey RefineOutput.t;
  finalized : gset WorkKey;
  head_sequences : gmap Z Z;
  finalized_contexts : gmap Z FinalizedContextV1;
  corrupt_services : gset Z;
  database : option BackendDatabase.t
}.

Definition default_ : t :=
  mk ServiceRegistry.default_ ∅ FullStateProvider.default_ ∅ ∅ ∅ ∅ ∅ ∅ None.

(** Functional updates of single fields. *)
Definition set_registry (r : ServiceRegistry.t) (s : t) : t :=
  mk r (applications s) (provider s) (pending s) (predictions s) (finalized s) (head_sequences s)
    (finalized_contexts s) (corrupt_services s) (database s).
Definition set_applications (a : gmap Z P) (s : t) : t :=
  mk (registry s) a (provider s) (pending s) (predictions s) (finalized s) (head_sequences s)
    (finalized_contexts s) (corrupt_services s) (database s).
Definition set_provider (p : FullStateProvider.t) (s : t) : t :=
  mk (registry s) (applications s) p (pending s) (predictions s) (finalized s) (head_sequences s)
    (finalized_contexts s) (corrupt_services s) (database s).
Definition set_work (pd pr : gmap WorkKey RefineOutput.t) (f : gset WorkKey) (s : t) : t :=
  mk (registry s) (applications s) (provider s) pd pr f (head_sequences s)
    (finalized_contexts s) (corrupt_services s) (database s).
Definition set_sequences (q : gmap Z Z) (s : t) : t :=
  mk (registry s) (applications s) (provider s) (pending s) (predictions s) (finalized s) q
    (finalized_contexts s) (corrupt_services s) (database s).
Definition set_contexts (c : gmap Z FinalizedContextV1) (s : t) : t :=
  mk (registry s) (applications s) (provider s) (pending s) (predictions s) (finalized s) (head_sequences s)
    c (corrupt_services s) (database s).
Definition set_corrupt (c : gset Z) (s : t) : t :=
  mk (registry s) (applications s) (provider s) (pending s) (predictions s) (finalized s) (head_sequences s)
    (finalized_contexts s) c (database s).
Definition set_database (d : BackendDatabase.t) (s : t) : t :=
  mk (registry s) (applications s) (provider s) (pending s) (predictions s) (finalized s) (head_sequences s)
    (finalized_contexts s) (corrupt_services s) (Some d).

Definition with_registry (r : ServiceRegistry.t) : t := set_registry r default_.

(** One registered service at start-up. *)
Definition load_service (d : BackendDatabase.t) (s : t) (record : ServiceRecord) : result t BackendError :=
  let id := sr_service_id record in
  match BackendDatabase.load_service_snapshot id (sr_service_key record) d with
  | Ok (sequence, _, snapshot, context) =>
      let s := set_provider (FullStateProvider.insert (sr_service_key record) snapshot (provider s)).2 s in
      let s := set_sequences (<[id := sequence]> (head_sequences s)) s in
      Ok match context with
         | Some context => set_contexts (<[id := context]> (finalized_contexts s)) s
         | None => s
         end
  | Err (BE_ServiceStateCorrupt service_id) => Ok (set_corrupt ({[service_id]} ∪ corrupt_services s) s)
  | Err e => Err e
  end.

Definition from_database (d : BackendDatabase.t) : result t BackendError :=
  let? '(registry, corrupt) := BackendDatabase.load_registry d in
  let s := set_database d (set_corrupt corrupt (with_registry registry)) in
  rfold (load_service d) s (ServiceRegistry.iter registry).

Definition is_corrupt (s : t) (service_id : Z) : bool := bool_decide (service_id ∈ corrupt_services s).

Definition get_service (s : t) (service_id : Z) : result ServiceRecord BackendError :=
  map_err BE_Registry (ServiceRegistry.get (registry s) service_id).

Definition current_root (s : t) (service_id : Z) : result bytes BackendError :=
  bail_if is_corrupt s service_id with BE_ServiceCorrupt service_id ;;
  let? service := get_service s service_id in
  Ok (FullStateProvider.materialized_root (provider s) (sr_service_key service)).

Definition state_sequence (s : t) (service_id : Z) : result Z BackendError :=
  let? _ := get_service s service_id in
  Ok (default 0 (head_sequences s !! service_id)).

Definition persist_service (record : ServiceRecord) (s : t) : result unit BackendError * t :=
  match database s with
  | None => (Ok tt, s)
  | Some d => let '(r, d) := BackendDatabase.persist_service record d in (r, set_database d s)
  end.

Definition register (record : ServiceRecord) (s : t) : result unit BackendError * t :=
  let service_id := sr_service_id record in
  let changed_artifact :=
    match ServiceRegistry.get (registry s) service_id with
    | Ok existing => negb (bool_decide (sr_application_artifact existing = sr_application_artifact record))
    | Err _ => false
    end in
  match ServiceRegistry.register record (registry s) with
  | (Err e, r) => (Err (BE_Registry e), set_registry r s)
  | (Ok _, r) =>
      let s := set_registry r s in
      (Ok tt, if changed_artifact then set_applications (ApplicationRegistry.remove service_id (applications s)) s else s)
  end.

Definition register_planner (service_id : Z) (planner : P) (s : t) : result unit BackendError * t :=
  match get_service s service_id with
  | Err e => (Err e, s)
  | Ok service => let '(r, a) := ApplicationRegistry.bind service planner (applications s) in (r, set_applications a s)
  end.

Definition plan (s : t) (service_id : Z) (actions : list bytes) : result PlannerResult BackendError :=
  let? planner := ApplicationRegistry.get (applications s) service_id in
  map_err BE_Planner (ap_plan planner actions).

Definition track_prediction (service_id : Z) (package_hash : bytes) (output : RefineOutput.t) (s : t)
    : result WorkKey BackendError * t :=
  match get_service s service_id with
  | Err e => (Err e, s)
  | Ok _ =>
      let key := mkWorkKey service_id package_hash in
      (Ok key, set_work (<[key := output]> (pending s)) (<[key := output]> (predictions s)) (finalized s ∖ {[key]}) s)
  end.

Definition prediction (s : t) (service_id : Z) (package_hash : bytes) : option RefineOutput.t :=
  predictions s !! mkWorkKey service_id package_hash.

(** The first prediction of a service, in key order, that ends in [root]. *)
Definition find_prediction (s : t) (service_id : Z) (root : bytes) : option RefineOutput.t :=
  snd <$> List.find (fun e => (wk_service_id e.1 =? service_id) && bool_decide (RefineOutput.new_root e.2 = root))
            (sort_by_key fst (map_to_list (predictions s))).

(** The check both ways of moving a state share: the payload of [output] turns
    the state at [root] into the one it announces. *)
Definition next_state (s : t) (service_key root : bytes) (output : RefineOutput.t)
    : result (FullState.t * StateDiff.t) BackendError :=
  let? recovery := checked_recovery BE_InvalidEnvelope output in
  let? current := map_err BE_Provider (FullStateProvider.open (provider s) service_key root) in
  let? next := map_err (fun _ => BE_Provider PE_MalformedResponse)
                 (FullState.apply_diff current (StateRecovery.diff recovery)) in
  bail_if negb (bool_decide (FullState.root next = RefineOutput.new_root output)) with BE_InvalidEnvelope ;;
  Ok (next, StateRecovery.diff recovery).

Definition materialize_prediction_snapshot (service_id : Z) (root : bytes) (s : t)
    : result bool BackendError * t :=
  match find_prediction s service_id root with
  | None => (Ok false, s)
  | Some output =>
      match get_service s service_id with
      | Err e => (Err e, s)
      | Ok record =>
          let service_key := sr_service_key record in
          if FullStateProvider.contains_root (provider s) service_key root then (Ok true, s)
          else match next_state s service_key (RefineOutput.parent_root output) output with
               | Err e => (Err e, s)
               | Ok (snapshot, _) =>
                   (Ok true, set_provider (FullStateProvider.insert_snapshot service_key snapshot (provider s)).2 s)
               end
      end
  end.

Definition is_finalized (s : t) (key : WorkKey) : bool := bool_decide (key ∈ finalized s).

Definition commit_recovery (service_id : Z) (service_key : bytes) (output : RefineOutput.t) (s : t)
    : result unit BackendError * t :=
  match (bail_if is_corrupt s service_id with BE_ServiceCorrupt service_id ;;
         let current_root := FullStateProvider.materialized_root (provider s) service_key in
         bail_if negb (bool_decide (current_root = RefineOutput.parent_root output)) with BE_RecoveryNotCanonical ;;
         let? '(next, diff) := next_state s service_key current_root output in
         let? sequence := ok_or (checked_add U64_MAX (default 0 (head_sequences s !! service_id)) 1) BE_EntryTooLarge in
         Ok (next, diff, sequence)) with
  | Err e => (Err e, s)
  | Ok (next, diff, sequence) =>
      let advance s :=
        set_sequences (<[service_id := sequence]> (head_sequences s))
          (set_provider (FullStateProvider.insert service_key next (provider s)).2 s) in
      match database s with
      | None => (Ok tt, advance s)
      | Some d =>
          match BackendDatabase.commit_transition service_id service_key sequence output diff
                  (finalized_contexts s !! service_id) d with
          | (Err e, d) => (Err e, set_database d s)
          | (Ok _, d) => (Ok tt, advance (set_database d s))
          end
      end
  end.

Definition materialize_if_canonical (key : WorkKey) (canonical_root : bytes) (s : t)
    : result bool BackendError * t :=
  match pending s !! key with
  | None => (Ok false, s)
  | Some output =>
      if negb (bool_decide (canonical_root = RefineOutput.new_root output)) then (Ok false, s)
      else match get_service s (wk_service_id key) with
           | Err e => (Err e, s)
           | Ok record =>
               match commit_recovery (sr_service_id record) (sr_service_key record) output s with
               | (Err e, s) => (Err e, s)
               | (Ok _, s) =>
                   (Ok true, set_work (delete key (pending s)) (predictions s) (finalized s ∪ {[key]}) s)
               end
           end
  end.

Definition apply_recovery (envelope : RecoveryEnvelope.t) (s : t) : result unit BackendError * t :=
  match ServiceRegistry.get (registry s) (RecoveryEnvelope.service_id envelope) with
  | Err _ => (Err BE_UnknownService, s)
  | Ok record =>
      if negb (bool_decide (sr_service_key record = RecoveryEnvelope.service_key envelope))
      then (Err BE_ServiceKeyMismatch, s)
      else commit_recovery (sr_service_id record) (sr_service_key record) (RecoveryEnvelope.output envelope) s
  end.

Definition replay_recovery_log : result bytes Envelope.read_failure -> t -> result unit BackendError * t :=
  Envelope.replay_recovery_log apply_recovery.
End Ops.

(** ** The invariant *)

Section Laws.
Context `{Blake2} `{TrieLaws} `{RocksDbLaws} `{SerdeJsonLaws} {P : Type} `{ApplicationPlanner P}.
Implicit Types (s : t (P := P)) (d : BackendDatabase.t).
Notation table d := (contents (BackendDatabase.db d)).

Definition sequence s (id : Z) : Z := default 0 (head_sequences s !! id).

(** The service with number [id] and key [key] is at [m] in memory. *)
Definition at_head s (key : bytes) (m : kv) : Prop :=
  FullStateProvider.holds (provider s) key (FullStateProvider.materialized_root (provider s) key) m.

(** What memory and database agree on. *)
Record stored_ok s d : Prop := {
  so_services : services_ok d;
  so_bound r : persisted d r -> ServiceRegistry.bound (registry s) (sr_service_id r) (sr_service_key r);
  so_service id r : ServiceRegistry.by_id (registry s) !! id = Some r ->
    exists m, service_rep d id (sr_service_key r) m (sequence s id) /\ at_head s (sr_service_key r) m;
  so_fresh id : u32_ok id -> ServiceRegistry.by_id (registry s) !! id = None ->
    table d CF_HEADS !! to_be_bytes 4 id = None /\ forall k, table d CF_STATE !! (to_be_bytes 4 id ++ k) = None
}.

(** What holds of the fields in memory. *)
Record core s : Prop := {
  ok_registry : ServiceRegistry.ok (registry s);
  ok_records id r : ServiceRegistry.by_id (registry s) !! id = Some r -> record_ok r;
  ok_provider : FullStateProvider.ok (provider s);
  ok_clean : corrupt_services s = ∅;
  ok_heads key root : FullStateProvider.materialized (provider s) !! key = Some root ->
    exists id, ServiceRegistry.bound (registry s) id key;
  ok_sequences id n : head_sequences s !! id = Some n ->
    u64_ok n /\ is_Some (ServiceRegistry.by_id (registry s) !! id);
  ok_pending key o : pending s !! key = Some o -> RefineOutput.typed o;
  ok_contexts id c : finalized_contexts s !! id = Some c -> hash_ok (fc_block_hash c)
}.

Definition ok s : Prop := core s /\ forall d, database s = Some d -> stored_ok s d.

Lemma record_id s id r : core s -> ServiceRegistry.by_id (registry s) !! id = Some r ->
  sr_service_id r = id /\ u32_ok id /\ hash_ok (sr_service_key r).
Proof.
  intros Hs Hr. destruct (ServiceRegistry.ok_id _ (ok_registry s Hs) _ _ Hr) as [<- _].
  destruct (ok_records s Hs _ _ Hr) as (? & ? & _). done.
Qed.

Lemma next_state_spec s key root output next diff :
  FullStateProvider.ok (provider s) ->
  next_state s key root output = Ok (next, diff) ->
  exists m0, FullStateProvider.holds (provider s) key root m0
    /\ FullState.rep next (apply_changes (StateDiff.changes diff) m0)
    /\ FullState.root next = RefineOutput.new_root output
    /\ RefineOutput.new_root output = root_of (apply_changes (StateDiff.changes diff) m0)
    /\ exists r, StateRecovery.decode (RefineOutput.recovery_payload output) = Ok r /\ diff = StateRecovery.diff r
         /\ blake2_256 (RefineOutput.recovery_payload output) = RefineOutput.recovery_commitment output.
Proof.
  intros Hp Hn. unfold next_state in Hn. apply rbind_Ok in Hn as (r & Hr & Hn).
  apply FullStateProvider.checked_recovery_Ok in Hr as [Hd Hcm]. apply rbind_Ok in Hn as (cur & Hc%map_err_Ok & Hn).
  destruct (FullStateProvider.state_at_root _ _ _ _ Hp Hc) as [_ [m0 Hm0]].
  destruct (FullState.apply_diff_rep cur m0 (StateRecovery.diff r) Hm0) as (nx & Hnx & Hrep).
  rewrite Hnx in Hn. cbn [rbind map_err] in Hn. apply bail_if_Ok in Hn as [Hg [= <- <-]]. to_prop.
  exists m0. split; [by exists cur|]. split; [done|]. split; [done|]. split; [rewrite <- Hg; by destruct Hrep|].
  by exists r.
Qed.

(** *** Committing a recovery *)

(** The successful outcome, before the database. *)
Lemma commit_recovery_cases s id key output r s' :
  commit_recovery id key output s = (r, s') ->
  (exists e, r = Err e /\ (s' = s \/ exists d d' seq diff,
      database s = Some d /\ s' = set_database d' s
      /\ BackendDatabase.commit_transition id key seq output diff (finalized_contexts s !! id) d = (Err e, d')))
  \/ (r = Ok tt /\ is_corrupt s id = false
      /\ FullStateProvider.materialized_root (provider s) key = RefineOutput.parent_root output
      /\ sequence s id + 1 <= U64_MAX
      /\ exists next diff, next_state s key (RefineOutput.parent_root output) output = Ok (next, diff)
         /\ let advance s := set_sequences (<[id := sequence s id + 1]> (head_sequences s))
                (set_provider (FullStateProvider.insert key next (provider s)).2 s) in
            (database s = None /\ s' = advance s
             \/ exists d d', database s = Some d
                 /\ BackendDatabase.commit_transition id key (sequence s id + 1) output diff
                      (finalized_contexts s !! id) d = (Ok tt, d')
                 /\ s' = advance (set_database d' s))).
Proof.
  unfold commit_recovery. destruct (is_corrupt s id); [intros [= <- <-]; left; eauto|].
  case_bool_decide as Hroot; cbn [negb]; [|intros [= <- <-]; left; eauto]. rewrite Hroot.
  destruct (next_state s key (RefineOutput.parent_root output) output) as [[next diff]|e]; cbn [rbind];
    [|intros [= <- <-]; left; eauto].
  unfold checked_add. fold (sequence s id). destruct (Z.leb_spec (sequence s id + 1) U64_MAX) as [Hle|_];
    cbn [ok_or rbind]; [|intros [= <- <-]; left; eauto].
  destruct (database s) as [d|] eqn:Hd.
  - destruct (BackendDatabase.commit_transition _ _ _ _ _ _ d) as [[[]|e] d'] eqn:Hc; intros [= <- <-].
    + right. split_and!; try done. exists next, diff. split; [done|]. right. exists d, d'. done.
    + left. exists e. split; [done|]. right. by exists d, d', (sequence s id + 1), diff.
  - intros [= <- <-]. right. split_and!; try done. exists next, diff. split; [done|]. by left.
Qed.

Lemma stored_ok_tables s d d' :
  (forall c, table d' c = table d c) -> stored_ok s d -> stored_ok s d'.
Proof.
  intros Ht [Hsv Hb Hse Hf]. destruct (services_ok_ext d d' (Ht _)) as [Hp Hok]. split.
  - by apply Hok.
  - intros r Hr%Hp. by apply Hb.
  - intros id r Hr. destruct (Hse id r Hr) as (m & Hrep & Hm). exists m. split; [|done].
    eapply untouched_rep; [|exact Hrep]. apply same_tables_untouched. intros c _. apply Ht.
  - intros id Hu Hn. rewrite !Ht. by apply Hf.
Qed.

Lemma set_database_core s d : core s -> core (set_database d s).
Proof. by intros []. Qed.

Lemma sequence_nonneg s id : core s -> 0 <= sequence s id.
Proof.
  intros Hs. unfold sequence. destruct (head_sequences s !! id) as [n|] eqn:Hq; simpl; [|done].
  by destruct (ok_sequences s Hs _ _ Hq) as [[? _] _].
Qed.

(** Moving the head of one registered service. *)
Definition advance (id n : Z) (key : bytes) (next : FullState.t) s : t (P := P) :=
  set_sequences (<[id := n]> (head_sequences s)) (set_provider (FullStateProvider.insert key next (provider s)).2 s).

Lemma advance_core s id rec n next m :
  core s -> ServiceRegistry.by_id (registry s) !! id = Some rec -> FullState.rep next m -> u64_ok n ->
  core (advance id n (sr_service_key rec) next s).
Proof.
  intros Hs Hrec Hrep Hn. split; simpl; try apply Hs.
  - eapply FullStateProvider.insert_ok; [apply Hs|exact Hrep].
  - intros k root. destruct (decide (k = sr_service_key rec)) as [->|Hne]; [by exists id, rec|].
    destruct (FullStateProvider.insert_other (provider s) (sr_service_key rec) next k Hne) as (_ & _ & ->). apply Hs.
  - intros i x. destruct (decide (i = id)) as [->|Hne].
    + rewrite lookup_insert_eq. intros [= <-]. split; [done|by eexists].
    + rewrite lookup_insert_ne by done. apply Hs.
Qed.

Lemma advance_head s id rec n next m :
  core s -> ServiceRegistry.by_id (registry s) !! id = Some rec -> FullState.rep next m ->
  at_head (advance id n (sr_service_key rec) next s) (sr_service_key rec) m
  /\ sequence (advance id n (sr_service_key rec) next s) id = n
  /\ (forall id' rec', id' <> id -> ServiceRegistry.by_id (registry s) !! id' = Some rec' ->
       sequence (advance id n (sr_service_key rec) next s) id' = sequence s id'
       /\ FullStateProvider.materialized_root (provider (advance id n (sr_service_key rec) next s)) (sr_service_key rec')
          = FullStateProvider.materialized_root (provider s) (sr_service_key rec')
       /\ forall m', at_head s (sr_service_key rec') m' ->
            at_head (advance id n (sr_service_key rec) next s) (sr_service_key rec') m').
Proof.
  intros Hs Hrec Hrep. unfold at_head, sequence. simpl.
  destruct (FullStateProvider.insert_holds (provider s) (sr_service_key rec) next m (ok_provider s Hs) Hrep)
    as (_ & Hmr & Hh). split; [by rewrite Hmr|]. split; [by rewrite lookup_insert_eq|].
  intros id' rec' Hne Hrec'. rewrite lookup_insert_ne by done. split; [done|].
  assert (sr_service_key rec' <> sr_service_key rec) as Hnk.
  { intros Heq. apply Hne. eapply ServiceRegistry.bound_unique; [apply Hs|by exists rec'|]. by exists rec. }
  destruct (FullStateProvider.insert_other (provider s) (sr_service_key rec) next _ Hnk) as (Hmo & Hso & _).
  split; [done|]. intros m'. rewrite Hmo. unfold FullStateProvider.holds. by rewrite Hso.
Qed.

Lemma advance_stored s d d' id rec output diff next m0 :
  core s -> stored_ok s d -> ServiceRegistry.by_id (registry s) !! id = Some rec ->
  hash_ok (RefineOutput.new_root output) -> at_head s (sr_service_key rec) m0 ->
  FullState.rep next (apply_changes (StateDiff.changes diff) m0) ->
  RefineOutput.new_root output = root_of (apply_changes (StateDiff.changes diff) m0) ->
  BackendDatabase.commit_transition id (sr_service_key rec) (sequence s id + 1) output diff
    (finalized_contexts s !! id) d = (Ok tt, d') ->
  stored_ok (advance id (sequence s id + 1) (sr_service_key rec) next s) d'.
Proof.
  intros Hs Hst Hrec Hnr Hm0 Hrep Hnew Hcm. destruct (record_id s id rec Hs Hrec) as (_ & Hu & Hkey).
  destruct (so_service s d Hst id rec Hrec) as (m1 & Hrep1 & Hm1).
  assert (m1 = m0) as -> by (eapply FullStateProvider.holds_unique; [apply Hs|exact Hm1|exact Hm0]).
  assert (opt_ok (fun c => hash_ok (fc_block_hash c)) (finalized_contexts s !! id)) as Hctx
    by (destruct (finalized_contexts s !! id) eqn:Hf; simpl; [by eapply (ok_contexts s Hs)|done]).
  destruct (commit_transition_rep _ _ _ _ _ _ _ _ _ _ Hu Hkey Hnr Hctx Hrep1 Hnew Hcm)
    as (Hrep' & Hothers & Hsv). destruct (services_ok_ext d d' Hsv) as [Hper Hsok].
  destruct (advance_head s id rec (sequence s id + 1) next _ Hs Hrec Hrep) as (Hhead & Hseq & Hoth).
  split; simpl.
  - by apply Hsok, Hst.
  - intros r' Hr'%Hper. by apply (so_bound s d Hst).
  - intros id' r' Hr'. destruct (record_id s id' r' Hs Hr') as (_ & Hu' & _).
    destruct (decide (id' = id)) as [->|Hne].
    + assert (r' = rec) as -> by congruence. rewrite Hseq. by eexists.
    + destruct (so_service s d Hst id' r' Hr') as (m' & Hrp & Hh'). destruct (Hoth id' r' Hne Hr') as (-> & _ & Hk).
      exists m'. split; [by eapply untouched_rep; [apply Hothers|]|by apply Hk].
  - intros id' Hu' Hn'. destruct (Hothers id' Hu') as [-> Hk]; [congruence|]. setoid_rewrite Hk.
    by apply (so_fresh s d Hst).
Qed.

Lemma commit_recovery_ok s id rec output r s' :
  ok s -> ServiceRegistry.by_id (registry s) !! id = Some rec -> RefineOutput.typed output ->
  commit_recovery id (sr_service_key rec) output s = (r, s') -> ok s'.
Proof.
  intros [Hs Hdb] Hrec (_ & Hnr & _) Hc.
  apply commit_recovery_cases in Hc as [(e & -> & [->|(d & d' & seq & diff & Hd & -> & Hcm)])|Hc]; [done| |].
  { split; [by apply set_database_core|]. intros d0 [= <-]. specialize (Hdb d Hd).
    destruct (stored_ok_tables s d d' (fun c => commit_transition_Err _ _ _ _ _ _ _ _ _ c Hcm) Hdb). by split. }
  destruct Hc as (-> & _ & Hroot & Hseq & next & diff & Hn & Hcase).
  destruct (next_state_spec _ _ _ _ _ _ (ok_provider s Hs) Hn) as (m0 & Hm0 & Hrep & Hnext & Hnew & _).
  assert (u64_ok (sequence s id + 1)) as Hu64 by (pose proof (sequence_nonneg s id Hs); unfold u64_ok; lia).
  rewrite <- Hroot in Hm0.
  destruct Hcase as [[Hnone ->]|(d & d' & Hd & Hcm & ->)].
  - split; [eapply advance_core; [done..|exact Hu64]|]. intros d0 Hd0. simpl in Hd0. congruence.
  - split; [eapply (advance_core (set_database d' s)); [by apply set_database_core|done..|exact Hu64]|].
    intros d0 [= <-]. destruct (advance_stored s d d' id rec output diff next m0 Hs (Hdb d Hd) Hrec Hnr Hm0 Hrep Hnew Hcm).
    by split.
Qed.

(** *** The other operations *)

Lemma set_work_ok s pd pr f :
  ok s -> (forall key o, pd !! key = Some o -> RefineOutput.typed o) -> ok (set_work pd pr f s).
Proof. intros [[] Hd] Hp. split; [by split|]. intros d Hdb. destruct (Hd d Hdb). by split. Qed.

Lemma set_applications_ok s a : ok s -> ok (set_applications a s).
Proof. intros [[] Hd]. split; [by split|]. intros d Hdb. destruct (Hd d Hdb). by split. Qed.

Lemma set_context_ok s id c :
  ok s -> hash_ok (fc_block_hash c) -> ok (set_contexts (<[id := c]> (finalized_contexts s)) s).
Proof.
  intros [[] Hd] Hc. split; [split; try done|intros d Hdb; destruct (Hd d Hdb); by split].
  simpl. intros i x. destruct (decide (i = id)) as [->|]; [rewrite lookup_insert_eq; by intros [= <-]|].
  rewrite lookup_insert_ne by done. naive_solver.
Qed.

Lemma snapshot_ok s key st m :
  ok s -> FullState.rep st m -> ok (set_provider (FullStateProvider.insert_snapshot key st (provider s)).2 s).
Proof.
  intros [Hs Hd] Hm. assert (forall k m', FullStateProvider.materialized
      (FullStateProvider.insert_snapshot key st (provider s)).2 = FullStateProvider.materialized (provider s)
    /\ (at_head s k m' -> at_head (set_provider (FullStateProvider.insert_snapshot key st (provider s)).2 s) k m')) as Hsn.
  { intros k m'. destruct (FullStateProvider.insert_snapshot_materialized (provider s) key st k m m' (ok_provider s Hs) Hm)
      as [Hmat Hh]. split; [done|]. unfold at_head, FullStateProvider.materialized_root in *. simpl. by rewrite Hmat. }
  split.
  - destruct Hs. split; try done; simpl; [by eapply FullStateProvider.insert_snapshot_ok|].
    intros k root. rewrite (proj1 (Hsn [] ∅)). apply ok_heads0.
  - intros d Hdb. destruct (Hd d Hdb) as [Hsv Hb Hse Hf]. split; try done. simpl. intros id r Hr.
    destruct (Hse id r Hr) as (m' & Hrep & Hh). exists m'. split; [done|]. by apply Hsn.
Qed.

Lemma fresh_service s d id key :
  core s -> stored_ok s d -> u32_ok id -> ServiceRegistry.by_id (registry s) !! id = None ->
  ServiceRegistry.by_key (registry s) !! key = None ->
  service_rep d id key ∅ (sequence s id) /\ at_head s key ∅.
Proof.
  intros Hs Hst Hu Hid Hkey. destruct (so_fresh s d Hst id Hu Hid) as [Hh Hk]. split; [split|].
  - intros k. by rewrite Hk, lookup_empty.
  - rewrite Hh. split; [|done]. unfold sequence. destruct (head_sequences s !! id) eqn:Hq; simpl; [|done].
    destruct (ok_sequences s Hs _ _ Hq) as [_ [? ?]]. congruence.
  - unfold at_head, FullStateProvider.materialized_root.
    destruct (FullStateProvider.materialized (provider s) !! key) as [root|] eqn:Hm; simpl.
    + destruct (ok_heads s Hs _ _ Hm) as (i & r & Hr & <-).
      destruct (ServiceRegistry.ok_id _ (ok_registry s Hs) _ _ Hr) as [_ ?]. congruence.
    + apply FullStateProvider.empty_holds.
Qed.

Lemma set_registry_ok s record :
  ok s -> record_ok record -> ok (set_registry (ServiceRegistry.register record (registry s)).2 s).
Proof.
  intros [Hs Hd] Hrec. pose proof (ok_registry s Hs) as Hreg.
  pose proof (ServiceRegistry.registered_ok record _ Hreg) as Hreg'.
  pose proof (fun id key => ServiceRegistry.register_bound record (registry s) id key Hreg) as Hbound.
  pose proof (ServiceRegistry.register_spec record _ Hreg) as Hspec.
  destruct (ServiceRegistry.bound_elsewhere (registry s) record) as [e|] eqn:He.
  { rewrite Hspec. destruct s. by split. }
  destruct (ServiceRegistry.bound_elsewhere_None _ _ Hreg He) as [Hkey Hid].
  rewrite Hspec in *. cbn [snd] in *. set (reg := ServiceRegistry.mk _ _) in *. split.
  - destruct Hs. split; try done; simpl.
    + intros id r. destruct (decide (id = sr_service_id record)) as [->|]; [rewrite lookup_insert_eq; by intros [= <-]|].
      rewrite lookup_insert_ne by done. naive_solver.
    + intros k root Hm. destruct (ok_heads0 k root Hm) as [id Hb]. exists id. by apply Hbound.
    + intros id n Hn. destruct (ok_sequences0 id n Hn) as [Hu Hi]. split; [done|].
      destruct (decide (id = sr_service_id record)) as [->|]; [by rewrite lookup_insert_eq|by rewrite lookup_insert_ne].
  - intros d Hdb. pose proof (Hd d Hdb) as Hst. pose proof Hst as [Hsv Hb Hse Hf]. split; try done; simpl.
    + intros r Hr. by apply Hbound, Hb.
    + intros id r. destruct (decide (id = sr_service_id record)) as [->|Hne].
      2: { rewrite lookup_insert_ne by done. apply Hse. }
      rewrite lookup_insert_eq. intros [= <-].
      destruct (ServiceRegistry.by_id (registry s) !! sr_service_id record) as [old|] eqn:Hold.
      * rewrite <- (Hid old eq_refl). by apply Hse.
      * exists ∅. apply (fresh_service s d); [done..|by destruct Hrec|done|].
        destruct (ServiceRegistry.by_key (registry s) !! sr_service_key record) as [i|] eqn:Hk; [|done].
        pose proof (Hkey i eq_refl) as ->. destruct (ServiceRegistry.ok_key _ Hreg _ _ Hk) as (? & ? & _). congruence.
    + intros id Hu. destruct (decide (id = sr_service_id record)) as [->|]; [by rewrite lookup_insert_eq|].
      rewrite lookup_insert_ne by done. by apply Hf.
Qed.

Lemma register_ok s record : ok s -> record_ok record -> ok (register record s).2.
Proof.
  intros Hs Hrec. pose proof (set_registry_ok s record Hs Hrec) as Hr. unfold register.
  destruct (ServiceRegistry.register record (registry s)) as [[u|e] r]; simpl in *; [|done].
  case_match; [by apply set_applications_ok|done].
Qed.

Lemma persist_service_ok s record :
  ok s -> ServiceRegistry.by_id (registry s) !! sr_service_id record = Some record ->
  ok (persist_service record s).2.
Proof.
  intros [Hs Hd] Hrec. pose proof (ok_records s Hs _ _ Hrec) as Hok. unfold persist_service.
  destruct (database s) as [d|] eqn:Hdb; [|split; [done|]; intros d0; simpl; congruence].
  destruct (BackendDatabase.persist_service record d) as [r d'] eqn:Hp. simpl.
  split; [by apply set_database_core|]. intros d0 [= <-].
  destruct (persist_service_spec record d d' r Hok Hp) as (Hother & Hcase). pose proof (Hd d eq_refl) as [Hsv Hb Hse Hf].
  assert (forall r', persisted d' r' -> ServiceRegistry.bound (registry s) (sr_service_id r') (sr_service_key r')) as Hb'.
  { intros r' (b' & Hl & Hdec & Hr'). destruct Hcase as [(_ & b & Hdb' & Ht)|[_ Ht]]; rewrite Ht in Hl.
    - destruct (decide (sr_service_id r' = sr_service_id record)) as [Heq|Hne].
      + rewrite Heq, lookup_insert_eq in Hl. injection Hl as <-. assert (r' = record) as -> by congruence. by exists record.
      + rewrite lookup_insert_ne in Hl; [apply Hb; by exists b'|]. intros Heq. apply Hne.
        symmetry. apply to_be_bytes_inj_u32; [apply Hok|apply Hr'|done].
    - apply Hb. by exists b'. }
  split; simpl; [split| | |].
  - intros k b Hl. destruct Hcase as [(_ & b0 & Hdb' & Ht)|[_ Ht]]; rewrite Ht in Hl; [|by apply Hsv].
    destruct (decide (k = to_be_bytes 4 (sr_service_id record))) as [->|]; [|rewrite lookup_insert_ne in Hl by done; by apply Hsv].
    rewrite lookup_insert_eq in Hl. injection Hl as <-. by exists record.
  - intros r1 r2 Hr1 Hr2 Hk. eapply ServiceRegistry.bound_unique; [apply Hs|by apply Hb'|]. rewrite Hk. by apply Hb'.
  - done.
  - intros id r' Hr'. destruct (Hse id r' Hr') as (m & Hrep & Hm). exists m. split; [|done].
    eapply untouched_rep; [|exact Hrep]. by apply same_tables_untouched.
  - intros id Hu Hn. rewrite !Hother by done. by apply Hf.
Qed.

Lemma materialize_snapshot_ok s id root : ok s -> ok (materialize_prediction_snapshot id root s).2.
Proof.
  intros Hs. unfold materialize_prediction_snapshot. destruct (find_prediction s id root) as [o|]; [|done].
  destruct (get_service s id) as [rec|e]; [|done]. case_match; [done|].
  destruct (next_state s (sr_service_key rec) (RefineOutput.parent_root o) o) as [[st diff]|e] eqn:Hn; [|done].
  destruct (next_state_spec _ _ _ _ _ _ (ok_provider s (proj1 Hs)) Hn) as (m0 & _ & Hrep & _).
  by eapply snapshot_ok.
Qed.

Lemma get_service_Ok s id rec : get_service s id = Ok rec <-> ServiceRegistry.by_id (registry s) !! id = Some rec.
Proof. unfold get_service, ServiceRegistry.get. by rewrite map_err_Ok, ok_or_Ok. Qed.

Lemma commit_recovery_fields s id key o r s' :
  commit_recovery id key o s = (r, s') ->
  registry s' = registry s /\ pending s' = pending s /\ predictions s' = predictions s /\ finalized s' = finalized s
  /\ corrupt_services s' = corrupt_services s.
Proof.
  intros [(e & -> & [->|(d & d' & seq & diff & _ & -> & _)])|(-> & _ & _ & _ & next & diff & _ & [[_ ->]|(d & d' & _ & _ & ->)])]%commit_recovery_cases;
    done.
Qed.

Lemma materialize_ok s key root : ok s -> ok (materialize_if_canonical key root s).2.
Proof.
  intros Hs. unfold materialize_if_canonical. destruct (pending s !! key) as [o|] eqn:Ho; [|done].
  case_match; [done|]. destruct (get_service s (wk_service_id key)) as [rec|e] eqn:Hrec; [|done].
  apply get_service_Ok in Hrec. destruct (record_id s _ _ (proj1 Hs) Hrec) as [Hid _].
  destruct (commit_recovery _ _ _ _) as [[u|e] s'] eqn:Hc.
  - destruct (commit_recovery_fields _ _ _ _ _ _ Hc) as (_ & Hpd & _). simpl.
    apply set_work_ok.
    + rewrite Hid in Hc. by eapply commit_recovery_ok; [exact Hs|exact Hrec|by eapply (ok_pending s (proj1 Hs))|].
    + intros k x [_ Hx]%lookup_delete_Some. rewrite Hpd in Hx. by eapply (ok_pending s (proj1 Hs)).
  - rewrite Hid in Hc. by eapply commit_recovery_ok; [exact Hs|exact Hrec|by eapply (ok_pending s (proj1 Hs))|].
Qed.

Lemma apply_recovery_ok s e : ok s -> RefineOutput.typed (RecoveryEnvelope.output e) -> ok (apply_recovery e s).2.
Proof.
  intros Hs Ht. unfold apply_recovery, ServiceRegistry.get.
  destruct (ServiceRegistry.by_id (registry s) !! RecoveryEnvelope.service_id e) as [rec|] eqn:Hrec; simpl; [|done].
  case_match; [done|]. destruct (record_id s _ _ (proj1 Hs) Hrec) as [Hid _].
  destruct (commit_recovery _ _ _ _) as [r s'] eqn:Hc. rewrite Hid in Hc. by eapply commit_recovery_ok.
Qed.

Lemma track_ok s id hash o : ok s -> RefineOutput.typed o -> ok (track_prediction id hash o s).2.
Proof.
  intros Hs Ho. unfold track_prediction. destruct (get_service s id); [|done]. apply set_work_ok; [done|].
  intros k x. destruct (decide (k = mkWorkKey id hash)) as [->|]; [rewrite lookup_insert_eq; by intros [= <-]|].
  rewrite lookup_insert_ne by done. apply Hs.
Qed.

(** *** Start-up *)

(** The records the database can start with: each has a stored head. *)
Definition loadable d : Prop :=
  services_ok d /\ forall r, persisted d r -> exists m n, service_rep d (sr_service_id r) (sr_service_key r) m n /\ u64_ok n.

(** [s'] is at the stored head of the service of [r]. *)
Definition loaded d s (r : ServiceRecord) : Prop :=
  forall m n, service_rep d (sr_service_id r) (sr_service_key r) m n ->
    at_head s (sr_service_key r) m /\ sequence s (sr_service_id r) = n.

Lemma load_service_spec d s r m n :
  core s -> ServiceRegistry.by_id (registry s) !! sr_service_id r = Some r ->
  service_rep d (sr_service_id r) (sr_service_key r) m n -> u64_ok n ->
  match load_service d s r with
  | Ok s' => core s' /\ registry s' = registry s /\ database s' = database s /\ loaded d s' r
      /\ forall r', sr_service_id r' <> sr_service_id r ->
           ServiceRegistry.by_id (registry s) !! sr_service_id r' = Some r' -> loaded d s r' -> loaded d s' r'
  | Err e => exists message, e = BE_Database message
  end.
Proof.
  intros Hs Hr Hrep Hn. unfold load_service.
  pose proof (fun m n Hrep => load_snapshot_rep d (sr_service_id r) (sr_service_key r) m n Hrep) as Hall.
  pose proof (Hall m n Hrep) as Hl.
  destruct (BackendDatabase.load_service_snapshot _ _ d) as [[[[n' root] st] context]|e]; [|by destruct Hl as [? ->]; eauto].
  destruct Hl as (-> & _ & Hst & Hctx).
  pose proof (advance_core s (sr_service_id r) r n st m Hs Hr Hst Hn) as Hcore.
  assert (forall m' n', service_rep d (sr_service_id r) (sr_service_key r) m' n' ->
    at_head (advance (sr_service_id r) n (sr_service_key r) st s) (sr_service_key r) m'
    /\ sequence (advance (sr_service_id r) n (sr_service_key r) st s) (sr_service_id r) = n') as Hnew.
  { intros m' n' Hrep'. destruct (Hall m' n' Hrep') as (<- & _ & Hst' & _).
    destruct (advance_head s (sr_service_id r) r n st m' Hs Hr Hst') as (? & ? & _). done. }
  assert (forall r', sr_service_id r' <> sr_service_id r ->
    ServiceRegistry.by_id (registry s) !! sr_service_id r' = Some r' -> loaded d s r' ->
    loaded d (advance (sr_service_id r) n (sr_service_key r) st s) r') as Hold.
  { intros r' Hne Hr' Hlo m' n' Hrep'. destruct (Hlo m' n' Hrep') as [Hh <-].
    destruct (advance_head s (sr_service_id r) r n st m Hs Hr Hst) as (_ & _ & Ho).
    destruct (Ho _ r' Hne Hr') as (? & _ & Hk). split; [by apply Hk|done]. }
  destruct context as [c|]; [|done]. split; [|done]. destruct Hcore. split; try done. simpl.
  intros i x. destruct (decide (i = sr_service_id r)) as [->|]; [rewrite lookup_insert_eq; by intros [= <-]|].
  rewrite lookup_insert_ne by done. apply (ok_contexts s Hs).
Qed.

Lemma load_services_spec d l : forall s,
  core s -> (forall r, r ∈ l -> ServiceRegistry.by_id (registry s) !! sr_service_id r = Some r) ->
  (forall r, r ∈ l -> exists m n, service_rep d (sr_service_id r) (sr_service_key r) m n /\ u64_ok n) ->
  NoDup (map sr_service_id l) ->
  match rfold (load_service d) s l with
  | Ok s' => core s' /\ registry s' = registry s /\ database s' = database s /\ (forall r, r ∈ l -> loaded d s' r)
      /\ forall r', sr_service_id r' ∉ map sr_service_id l ->
           ServiceRegistry.by_id (registry s) !! sr_service_id r' = Some r' -> loaded d s r' -> loaded d s' r'
  | Err e => exists message, e = BE_Database message
  end.
Proof.
  induction l as [|r l IH]; intros s Hs Hreg Hrep Hnd; cbn [rfold map] in *; [set_solver|].
  apply NoDup_cons in Hnd as [Hni Hnd]. destruct (Hrep r) as (m & n & Hr & Hn); [by left|].
  pose proof (load_service_spec d s r m n Hs (Hreg r ltac:(by left)) Hr Hn) as H1'.
  destruct (load_service d s r) as [s1|e]; cbn [rbind]; [|done]. destruct H1' as (Hs1 & Hr1 & Hd1 & Hl1 & Ho1).
  specialize (IH s1 Hs1). rewrite Hr1 in IH.
  specialize (IH (fun x Hx => Hreg x ltac:(by right)) (fun x Hx => Hrep x ltac:(by right)) Hnd).
  destruct (rfold (load_service d) s1 l) as [s2|e]; [|done]. destruct IH as (Hs2 & Hr2 & Hd2 & Hl2 & Ho2).
  split; [done|]. split; [done|]. split; [congruence|]. split.
  - intros x [->|Hx]%elem_of_cons; [|by apply Hl2]. apply Ho2; [done|apply Hreg; by left|done].
  - intros x Hx Hxr Hlx. apply not_elem_of_cons in Hx as [Hx1 Hx2]. apply Ho2; [done..|]. by apply Ho1.
Qed.

Lemma from_database_spec d :
  loadable d ->
  match from_database d with
  | Ok s' => core s' /\ database s' = Some d
      /\ (forall r, ServiceRegistry.by_id (registry s') !! sr_service_id r = Some r <-> persisted d r)
      /\ (forall r, persisted d r -> loaded d s' r)
  | Err e => exists message, e = BE_Database message
  end.
Proof.
  intros [Hsv Hload]. unfold from_database. pose proof (load_registry_spec d Hsv) as Hr.
  destruct (BackendDatabase.load_registry d) as [[reg corrupt]|e]; cbn [rbind]; [|by destruct Hr as [? _]].
  destruct Hr as (-> & Hok & Hreg).
  set (s0 := set_database d (set_corrupt ∅ (with_registry reg))) in *.
  assert (core s0) as Hs0.
  { split; simpl; try done; try apply FullStateProvider.default_ok; try (intros; by rewrite lookup_empty in * ).
    intros id r Hr. destruct (ServiceRegistry.ok_id _ Hok _ _ Hr) as [<- _]. by apply Hreg in Hr as (? & _ & _ & ?). }
  pose proof (load_services_spec d (ServiceRegistry.iter reg) s0 Hs0) as Hl.
  assert (NoDup (map sr_service_id (ServiceRegistry.iter reg))) as Hnd by (by apply ServiceRegistry.iter_ids).
  destruct (rfold (load_service d) s0 (ServiceRegistry.iter reg)) as [s'|e].
  - destruct Hl as (Hs' & Hr' & Hd' & Hlo & _); [|..|done|].
    + intros r Hr. by apply ServiceRegistry.iter_elem.
    + intros r Hr%ServiceRegistry.iter_elem; [|done]. by apply Hload, Hreg.
    + split; [done|]. split; [done|]. rewrite Hr'. split; [done|]. intros r Hr. apply Hlo, ServiceRegistry.iter_elem; [done|].
      by apply Hreg.
  - apply Hl; [| |done].
    + intros r Hr. by apply ServiceRegistry.iter_elem.
    + intros r Hr%ServiceRegistry.iter_elem; [|done]. by apply Hload, Hreg.
Qed.

Lemma ok_loadable s d : ok s -> database s = Some d -> loadable d.
Proof.
  intros [Hs Hd] Hdb. pose proof (Hd d Hdb) as [Hsv Hb Hse _]. split; [done|]. intros r Hr.
  destruct (Hb r Hr) as (r' & Hr' & Heq). destruct (Hse _ _ Hr') as (m & Hrep & _). rewrite Heq in Hrep.
  exists m, (sequence s (sr_service_id r)). split; [done|]. unfold sequence.
  destruct (head_sequences s !! sr_service_id r) as [n|] eqn:Hn; simpl; [|by vm_compute].
  by destruct (ok_sequences s Hs _ _ Hn).
Qed.

Lemma from_database_readable d : loadable d -> readable d -> exists s' : t (P := P), from_database d = Ok s'.
Proof.
  intros [Hsv Hload] Hread. unfold from_database. pose proof (load_registry_spec d Hsv) as Hr.
  destruct (BackendDatabase.load_registry d) as [[reg corrupt]|e]; cbn [rbind]; [|by destruct Hr as [_ ?]].
  destruct Hr as (_ & Hok & Hreg). apply rfold_total with (P := fun r => persisted d r).
  - intros s r Hp. destruct (Hload r Hp) as (m & n & Hrep & _). unfold load_service.
    destruct (load_snapshot_readable d _ _ m n Hread Hrep) as (st & c & -> & _). by eexists.
  - apply Forall_forall. intros r Hr%ServiceRegistry.iter_elem; [|done]. by apply Hreg.
Qed.

(** Every registered service is stored: then the database is all there is. *)
Lemma restarted_ok s s' d :
  ok s -> database s = Some d -> from_database d = Ok s' ->
  (forall r, ServiceRegistry.by_id (registry s) !! sr_service_id r = Some r ->
     exists r', ServiceRegistry.by_id (registry s') !! sr_service_id r = Some r') ->
  ok s'.
Proof.
  intros [Hs Hd] Hdb Hf Hall. pose proof (from_database_spec d (ok_loadable s d (conj Hs Hd) Hdb)) as Hspec.
  rewrite Hf in Hspec. destruct Hspec as (Hs' & Hdb' & Hreg & Hlo). split; [done|].
  intros d0 Hd0. rewrite Hdb' in Hd0. injection Hd0 as <-. pose proof (Hd d Hdb) as [Hsv Hb Hse Hfr]. split; [done|..].
  - intros r Hr. exists r. split; [by apply Hreg|done].
  - intros id r Hr. destruct (record_id s' id r Hs' Hr) as (<- & _). apply Hreg in Hr.
    destruct (Hb r Hr) as (r0 & Hr0 & Hk). destruct (Hse _ _ Hr0) as (m & Hrep & _). rewrite Hk in Hrep.
    exists m. destruct (Hlo r Hr _ _ Hrep) as [Hh Hn]. by rewrite Hn.
  - intros id Hu Hn. apply Hfr; [done|]. destruct (ServiceRegistry.by_id (registry s) !! id) as [r|] eqn:Hr; [|done].
    destruct (record_id s id r Hs Hr) as (<- & _). destruct (Hall r Hr). congruence.
Qed.

(** *** Reachable states *)

Inductive step : t (P := P) -> t (P := P) -> Prop :=
| step_register record s : record_ok record -> step s (register record s).2
| step_planner id planner s : step s (register_planner id planner s).2
| step_persist record s : get_service s (sr_service_id record) = Ok record -> step s (persist_service record s).2
| step_track id hash output s : RefineOutput.typed output -> step s (track_prediction id hash output s).2
| step_snapshot id root s : step s (materialize_prediction_snapshot id root s).2
| step_canonical key root s : step s (materialize_if_canonical key root s).2
| step_recovery envelope s : RefineOutput.typed (RecoveryEnvelope.output envelope) ->
    step s (apply_recovery envelope s).2
| step_context id context s : hash_ok (fc_block_hash context) ->
    step s (set_contexts (<[id := context]> (finalized_contexts s)) s)
| step_stale key s : step s (set_work (delete key (pending s)) (predictions s) (finalized s) s).

Lemma step_ok s s' : step s s' -> ok s -> ok s'.
Proof.
  destruct 1; intros Hs.
  - by apply register_ok.
  - unfold register_planner. destruct (get_service s id); [|done].
    destruct (ApplicationRegistry.bind _ _ _). by apply set_applications_ok.
  - by apply persist_service_ok, get_service_Ok.
  - by apply track_ok.
  - by apply materialize_snapshot_ok.
  - by apply materialize_ok.
  - by apply apply_recovery_ok.
  - by apply set_context_ok.
  - apply set_work_ok; [done|]. intros k o [_ Ho]%lookup_delete_Some. by eapply ok_pending; [apply Hs|].
Qed.

Lemma steps_ok s s' : rtc step s s' -> ok s -> ok s'.
Proof. induction 1; eauto using step_ok. Qed.

(** A database with nothing but its metadata. *)
Definition fresh d : Prop := forall c, c <> CF_META -> table d c = ∅.

Lemma fresh_ok d : fresh d -> ok (set_database d default_).
Proof.
  intros Hf. split.
  - split; simpl; try done; try apply FullStateProvider.default_ok; try apply ServiceRegistry.empty_registry_ok;
      intros; by rewrite lookup_empty in *.
  - intros d0 [= <-]. split; simpl.
    + split; [intros k b; rewrite Hf by done; by rewrite lookup_empty|].
      intros r r' (b & Hb & _). rewrite Hf in Hb by done. by rewrite lookup_empty in Hb.
    + intros r (b & Hb & _). rewrite Hf in Hb by done. by rewrite lookup_empty in Hb.
    + intros id r. by rewrite lookup_empty.
    + intros id _ _. rewrite !Hf by done. split; [apply lookup_empty|]. intros k. apply lookup_empty.
Qed.

(** The database keeps the services it has. *)
Definition keeps s s' : Prop :=
  forall d, database s = Some d -> exists d', database s' = Some d'
    /\ forall k, is_Some (table d CF_SERVICES !! k) -> is_Some (table d' CF_SERVICES !! k).

Lemma commit_keeps s id key o r s' : commit_recovery id key o s = (r, s') -> keeps s s'.
Proof.
  intros Hc d Hd. apply commit_recovery_cases in Hc as
    [(e & -> & [->|(d0 & d' & seq & diff & Hd0 & -> & Hcm)])|(-> & _ & _ & _ & next & diff & _ & [[Hn ->]|(d0 & d' & Hd0 & Hcm & ->)])].
  - eauto.
  - exists d'. split; [done|]. intros k. rewrite (commit_transition_Err _ _ _ _ _ _ _ _ _ CF_SERVICES Hcm). congruence.
  - congruence.
  - exists d'. split; [done|]. intros k. destruct (commit_transition_tables _ _ _ _ _ _ _ _ Hcm) as (b & _ & _ & _ & -> & _).
    congruence.
Qed.

Lemma step_keeps s s' : step s s' -> ok s -> keeps s s'.
Proof.
  destruct 1; intros [Hs _]; try (intros d Hd; exists d; done).
  - intros d Hd. exists d. unfold register. destruct (ServiceRegistry.register record (registry s)) as [[] ?]; simpl; [|done].
    by case_match.
  - intros d Hd. exists d. unfold register_planner. destruct (get_service s id); [|done].
    by destruct (ApplicationRegistry.bind _ _ _).
  - intros d Hd. unfold persist_service. rewrite Hd.
    destruct (BackendDatabase.persist_service record d) as [r d'] eqn:Hp. exists d'. split; [done|].
    destruct (persist_service_spec record d d' r) as [_ [(_ & b & _ & ->)|[_ ->]]]; [by eapply ok_records, get_service_Ok|done| |done].
    intros k Hk. destruct (decide (k = to_be_bytes 4 (sr_service_id record))) as [->|]; [by rewrite lookup_insert_eq|].
    by rewrite lookup_insert_ne.
  - intros d Hd. exists d. unfold track_prediction. by destruct (get_service s id).
  - intros d Hd. exists d. unfold materialize_prediction_snapshot. destruct (find_prediction s id root); [|done].
    destruct (get_service s id); [|done]. case_match; [done|]. by destruct (next_state _ _ _ _) as [[]|].
  - unfold materialize_if_canonical. destruct (pending s !! key) as [o|]; [|by intros d Hd; exists d].
    case_match; [by intros d Hd; exists d|]. destruct (get_service s (wk_service_id key)); [|by intros d Hd; exists d].
    destruct (commit_recovery _ _ _ _) as [[] s'] eqn:Hc; apply commit_keeps in Hc; exact Hc.
  - unfold apply_recovery. destruct (ServiceRegistry.get _ _); [|by intros d Hd; exists d].
    case_match; [by intros d Hd; exists d|]. destruct (commit_recovery _ _ _ _) as [r s'] eqn:Hc. by apply commit_keeps in Hc.
Qed.

Lemma steps_keep s s' : rtc step s s' -> ok s -> keeps s s'.
Proof.
  induction 1 as [s|s1 s2 s3 Hst _ IH]; intros Hs d Hd; [by exists d|].
  destruct (step_keeps _ _ Hst Hs d Hd) as (d2 & Hd2 & Hk2).
  destruct (IH (step_ok _ _ Hst Hs) d2 Hd2) as (d3 & Hd3 & Hk3). exists d3. split; [done|]. intros k Hk. by apply Hk3, Hk2.
Qed.

Lemma persisted_known s d record :
  ok s -> database s = Some d -> is_Some (table d CF_SERVICES !! to_be_bytes 4 (sr_service_id record)) ->
  u32_ok (sr_service_id record) -> exists r, persisted d r /\ sr_service_id r = sr_service_id record.
Proof.
  intros [_ Hd] Hdb [b Hb] Hu. destruct (so_services _ _ (Hd d Hdb)) as [Hst _].
  destruct (Hst _ _ Hb) as (r & Hk & Hdec & Hr). simpl in Hk, Hdec. exists r.
  assert (sr_service_id r = sr_service_id record) as Heq by (apply to_be_bytes_inj_u32; [apply Hr|done|done]).
  split; [|done]. exists b. by rewrite Heq.
Qed.

(** *** When a commit succeeds *)

Lemma next_state_recovers s key output :
  FullStateProvider.ok (provider s) ->
  match next_state s key (RefineOutput.parent_root output) output with
  | Ok (next, _) => exists m, FullStateProvider.recovers (provider s) key output m /\ FullState.rep next m
      /\ FullState.root next = RefineOutput.new_root output
  | Err _ => forall m, ~ FullStateProvider.recovers (provider s) key output m
  end.
Proof.
  intros Hp. destruct (next_state s key (RefineOutput.parent_root output) output) as [[next diff]|e] eqn:Hn.
  - destruct (next_state_spec _ _ _ _ _ _ Hp Hn) as (m0 & Hm0 & Hrep & Hr & Hnew & rec & Hd & -> & Hc).
    eexists. split; [|done]. exists rec, m0. split_and!; done.
  - intros m (rec & m0 & Hd & Hc & (st & Hst & Hm0) & -> & Hnew). unfold next_state, checked_recovery in Hn.
    pose proof (proj2 (FullStateProvider.checked_recovery_Ok BE_InvalidEnvelope output rec) (conj Hd Hc)) as Hk.
    unfold checked_recovery in Hk. rewrite Hk in Hn. cbn [rbind] in Hn.
    unfold FullStateProvider.open in Hn. rewrite Hst in Hn. cbn [rbind map_err] in Hn.
    destruct (FullState.apply_diff_rep st m0 (StateRecovery.diff rec) Hm0) as (nx & Hnx & Hrep). rewrite Hnx in Hn.
    cbn [rbind map_err] in Hn. rewrite bool_decide_eq_true_2 in Hn; [done|]. rewrite Hnew. by destruct Hrep.
Qed.

Lemma current_root_head s id rec :
  core s -> ServiceRegistry.by_id (registry s) !! id = Some rec ->
  current_root s id = Ok (FullStateProvider.materialized_root (provider s) (sr_service_key rec)).
Proof.
  intros Hs Hr. unfold current_root, is_corrupt. rewrite (ok_clean s Hs), bool_decide_eq_false_2 by set_solver.
  by rewrite (proj2 (get_service_Ok s id rec) Hr).
Qed.

Lemma state_sequence_Ok s id rec :
  ServiceRegistry.by_id (registry s) !! id = Some rec -> state_sequence s id = Ok (sequence s id).
Proof. intros Hr. unfold state_sequence. by rewrite (proj2 (get_service_Ok s id rec) Hr). Qed.

(** Services that are not registered have neither. *)
Lemma unregistered s s' id :
  registry s' = registry s -> corrupt_services s' = corrupt_services s ->
  ServiceRegistry.by_id (registry s) !! id = None ->
  current_root s' id = current_root s id /\ state_sequence s' id = state_sequence s id.
Proof.
  intros Hr Hc Hn. unfold current_root, state_sequence, get_service, ServiceRegistry.get, is_corrupt. rewrite Hr, Hc, Hn. done.
Qed.

Lemma commit_recovery_effect s id rec output s' :
  core s -> ServiceRegistry.by_id (registry s) !! id = Some rec ->
  commit_recovery id (sr_service_key rec) output s = (Ok tt, s') ->
  current_root s id = Ok (RefineOutput.parent_root output)
  /\ current_root s' id = Ok (RefineOutput.new_root output) /\ state_sequence s' id = Ok (sequence s id + 1)
  /\ (exists m, FullStateProvider.recovers (provider s) (sr_service_key rec) output m /\ at_head s' (sr_service_key rec) m)
  /\ forall id', id' <> id -> current_root s' id' = current_root s id' /\ state_sequence s' id' = state_sequence s id'.
Proof.
  intros Hs Hrec Hc. destruct (commit_recovery_fields _ _ _ _ _ _ Hc) as (Hreg & _ & _ & _ & Hcor).
  apply commit_recovery_cases in Hc as [(e & ? & _)|(_ & _ & Hroot & Hseq & next & diff & Hn & Hcase)]; [done|].
  pose proof (next_state_recovers s (sr_service_key rec) output (ok_provider s Hs)) as Hrecov. rewrite Hn in Hrecov.
  destruct Hrecov as (m & Hm & Hrep & Hnr). set (n := sequence s id + 1) in *.
  assert (core s' /\ provider s' = provider (advance id n (sr_service_key rec) next s)
    /\ head_sequences s' = head_sequences (advance id n (sr_service_key rec) next s)) as (Hs' & Hp & Hq).
  { assert (u64_ok n) as Hu64 by (pose proof (sequence_nonneg s id Hs); unfold u64_ok; lia).
    destruct Hcase as [[_ ->]|(d & d' & _ & _ & ->)]; (split; [|done]).
    - by eapply advance_core.
    - by eapply (advance_core (set_database d' s)); [apply set_database_core|..]. }
  destruct (advance_head s id rec n next m Hs Hrec Hrep) as (Hh & Hsq & Hoth).
  assert (FullStateProvider.materialized_root (provider s') (sr_service_key rec) = RefineOutput.new_root output) as Hmr.
  { rewrite Hp. simpl. by destruct (FullStateProvider.insert_holds (provider s) (sr_service_key rec) next m
      (ok_provider s Hs) Hrep) as (_ & -> & _). }
  rewrite (current_root_head s id rec) by done. rewrite (current_root_head s' id rec) by (done || by rewrite Hreg).
  rewrite (state_sequence_Ok s' id rec) by (by rewrite Hreg). unfold sequence at 1. rewrite Hq, Hmr, Hroot.
  split_and!; [done|done|by rewrite <- Hsq at 2| |].
  - exists m. split; [done|]. unfold at_head in *. by rewrite Hp.
  - intros id' Hne. destruct (ServiceRegistry.by_id (registry s) !! id') as [rec'|] eqn:Hrec'; [|by apply unregistered].
    destruct (Hoth id' rec' Hne Hrec') as (Hsq' & Hmr' & _).
    rewrite !(current_root_head _ id' rec') by (done || by rewrite Hreg).
    rewrite !(state_sequence_Ok _ id' rec') by (done || by rewrite Hreg). unfold sequence at 1. rewrite Hq, Hp, Hmr'.
    split; [done|]. by rewrite <- Hsq'.
Qed.

(** *** Restarting *)

Lemma step_registry s s' :
  step s s' -> registry s' = registry s \/ exists record, registry s' = (ServiceRegistry.register record (registry s)).2.
Proof.
  destruct 1; try (left; done).
  - right. exists record. unfold register. destruct (ServiceRegistry.register record (registry s)) as [[] ?]; simpl; [|done].
    by case_match.
  - left. unfold register_planner. destruct (get_service s id); [|done]. by destruct (ApplicationRegistry.bind _ _ _).
  - left. unfold persist_service. destruct (database s); [|done]. by destruct (BackendDatabase.persist_service _ _).
  - left. unfold track_prediction. by destruct (get_service s id).
  - left. unfold materialize_prediction_snapshot. destruct (find_prediction s id root); [|done].
    destruct (get_service s id); [|done]. case_match; [done|]. by destruct (next_state _ _ _ _) as [[]|].
  - left. unfold materialize_if_canonical. destruct (pending s !! key) as [o|]; [|done]. case_match; [done|].
    destruct (get_service s (wk_service_id key)); [|done].
    destruct (commit_recovery _ _ _ _) as [[] s'] eqn:Hc; by apply commit_recovery_fields in Hc as [? _].
  - left. unfold apply_recovery. destruct (ServiceRegistry.get _ _); [|done]. case_match; [done|].
    destruct (commit_recovery _ _ _ _) as [r s'] eqn:Hc. by apply commit_recovery_fields in Hc as [? _].
Qed.

Lemma steps_bound s s' id key :
  rtc step s s' -> ok s -> ServiceRegistry.bound (registry s) id key -> ServiceRegistry.bound (registry s') id key.
Proof.
  induction 1 as [s|s1 s2 s3 Hst _ IH]; intros Hs Hb; [done|]. apply IH; [by eapply step_ok|].
  destruct (step_registry _ _ Hst) as [->|[record ->]]; [done|]. by apply ServiceRegistry.register_bound; [apply Hs|].
Qed.

(** What a restarted backend says of a service it has. *)
Lemma restarted_service s s' d id record :
  ok s -> database s = Some d -> from_database d = Ok s' -> get_service s' id = Ok record ->
  current_root s' id = current_root s id /\ state_sequence s' id = state_sequence s id
  /\ exists root m, current_root s id = Ok root
       /\ FullStateProvider.holds (provider s) (sr_service_key record) root m
       /\ FullStateProvider.holds (provider s') (sr_service_key record) root m.
Proof.
  intros Hok Hdb Hs' Hr%get_service_Ok. pose proof (from_database_spec d (ok_loadable s d Hok Hdb)) as Hspec.
  rewrite Hs' in Hspec. destruct Hspec as (Hcore' & _ & Hreg & Hlo). destruct Hok as [Hcore Hsto].
  pose proof (Hsto d Hdb) as Hst. destruct (record_id _ _ _ Hcore' Hr) as (<- & _).
  pose proof Hr as Hp%Hreg. destruct (so_bound _ _ Hst _ Hp) as (r0 & Hr0 & Hk).
  destruct (so_service _ _ Hst _ _ Hr0) as (m & Hrep & Hh). rewrite Hk in Hrep, Hh.
  destruct (Hlo _ Hp _ _ Hrep) as [Hh' Hn].
  rewrite (current_root_head _ _ _ Hcore' Hr), (current_root_head _ _ _ Hcore Hr0), Hk.
  rewrite (state_sequence_Ok _ _ _ Hr), (state_sequence_Ok _ _ _ Hr0), Hn. unfold at_head in *.
  assert (FullStateProvider.materialized_root (provider s') (sr_service_key record)
    = FullStateProvider.materialized_root (provider s) (sr_service_key record)) as Heq.
  { rewrite (FullStateProvider.holds_root _ _ _ _ (ok_provider _ Hcore') Hh').
    by rewrite (FullStateProvider.holds_root _ _ _ _ (ok_provider _ Hcore) Hh). }
  rewrite Heq in *. split; [done|]. split; [done|]. by eexists _, m.
Qed.

(** A record that was stored is there after a restart. *)
Lemma persisted_restarts s1 s2 s s' d record :
  ok s1 -> database s1 <> None -> get_service s1 (sr_service_id record) = Ok record ->
  persist_service record s1 = (Ok tt, s2) -> rtc step s2 s ->
  database s = Some d -> from_database d = Ok s' ->
  exists record', get_service s' (sr_service_id record) = Ok record' /\ sr_service_key record' = sr_service_key record.
Proof.
  intros Hok1 Hd1 Hrec Hper Hst2 Hdb Hs'. pose proof (proj1 (get_service_Ok _ _ _) Hrec) as Hr1.
  assert (step s1 s2) as Hstep by (replace s2 with (persist_service record s1).2 by (by rewrite Hper); by constructor).
  pose proof (step_ok _ _ Hstep Hok1) as Hok2. pose proof (steps_ok _ _ Hst2 Hok2) as Hok.
  destruct (record_id _ _ _ (proj1 Hok1) Hr1) as (_ & Hu & _).
  assert (ServiceRegistry.bound (registry s) (sr_service_id record) (sr_service_key record)) as (r0 & Hr0 & Hk0).
  { eapply steps_bound; [by eapply rtc_l|done|]. by exists record. }
  unfold persist_service in Hper. destruct (database s1) as [d1|] eqn:Hd; [|done].
  destruct (BackendDatabase.persist_service record d1) as [r d2] eqn:Hp. injection Hper as -> <-.
  destruct (persist_service_spec record d1 d2 (Ok tt)) as [_ [(_ & b & _ & Ht)|[[? ?] _]]];
    [by eapply (ok_records _ (proj1 Hok1))|done| |done].
  destruct (steps_keep _ _ Hst2 Hok2 d2 eq_refl) as (d3 & Hd3 & Hk3). rewrite Hdb in Hd3. injection Hd3 as <-.
  destruct (persisted_known s d record Hok Hdb) as (r' & Hr' & Hid); [|done|].
  { apply Hk3. rewrite Ht, lookup_insert_eq. by eexists. }
  pose proof (from_database_spec d (ok_loadable s d Hok Hdb)) as Hspec. rewrite Hs' in Hspec.
  destruct Hspec as (_ & _ & Hreg & _). exists r'. split; [apply get_service_Ok; rewrite <- Hid; by apply Hreg|].
  destruct (so_bound _ _ (proj2 Hok d Hdb) _ Hr') as (r1 & Hr1' & Hk1). rewrite Hid in Hr1'. congruence.
Qed.
End Laws.
End BackendState.

(** C24: a backend that restarts knows what it knew. Run the backend over a new
    database, with any failures of writes on the way, and stop it at any point.
    If the database can be read, the backend starts again. Every service it then
    has is at the same root, with the same map, after the same number of
    transitions as when it stopped; none is marked corrupt. Every service whose
    record was ever stored is there, under the same key. And if every registered
    service was stored, the restarted backend satisfies the invariant again, so
    the same holds for all later restarts. *)
Theorem backend_survives_restart `{Blake2} `{TrieLaws} `{RocksDbLaws} `{SerdeJsonLaws} {P : Type} `{ApplicationPlanner P}
    (d0 d : BackendDatabase.t) (s : BackendState.t (P := P)) :
  BackendState.fresh d0 ->
  rtc BackendState.step (BackendState.set_database d0 BackendState.default_) s ->
  BackendState.database s = Some d ->
  (readable d -> exists s' : BackendState.t (P := P), BackendState.from_database d = Ok s')
  /\ forall s' : BackendState.t (P := P), BackendState.from_database d = Ok s' ->
     (forall id record, BackendState.get_service s' id = Ok record ->
        BackendState.current_root s' id = BackendState.current_root s id
        /\ BackendState.state_sequence s' id = BackendState.state_sequence s id
        /\ exists root m, BackendState.current_root s id = Ok root
             /\ FullStateProvider.holds (BackendState.provider s) (sr_service_key record) root m
             /\ FullStateProvider.holds (BackendState.provider s') (sr_service_key record) root m)
     /\ (forall s1 s2 record, rtc BackendState.step (BackendState.set_database d0 BackendState.default_) s1 ->
           BackendState.get_service s1 (sr_service_id record) = Ok record ->
           BackendState.persist_service record s1 = (Ok tt, s2) -> rtc BackendState.step s2 s ->
           exists record', BackendState.get_service s' (sr_service_id record) = Ok record'
             /\ sr_service_key record' = sr_service_key record)
     /\ ((forall id record, BackendState.get_service s id = Ok record ->
            exists record', BackendState.get_service s' id = Ok record') -> BackendState.ok s').
Proof.
  intros Hf Hst Hdb. pose proof (BackendState.steps_ok _ _ Hst (BackendState.fresh_ok d0 Hf)) as Hok.
  pose proof (BackendState.ok_loadable s d Hok Hdb) as Hload. split.
  { intros Hread. by apply BackendState.from_database_readable. }
  intros s' Hs'. split_and!.
  - intros id record Hr. by eapply BackendState.restarted_service.
  - intros s1 s2 record Hst1 Hrec Hper Hst2.
    pose proof (BackendState.steps_ok _ _ Hst1 (BackendState.fresh_ok d0 Hf)) as Hok1.
    eapply (BackendState.persisted_restarts s1 s2 s s' d); [done| |done..].
    destruct (BackendState.steps_keep _ _ Hst1 (BackendState.fresh_ok d0 Hf) d0 eq_refl) as (d1 & -> & _). done.
  - intros Hall. eapply BackendState.restarted_ok; [exact Hok|done..|]. intros r Hr%BackendState.get_service_Ok.
    destruct (Hall _ _ Hr) as [r' Hr']. exists r'. by apply BackendState.get_service_Ok.
Qed.

(** The head of a service moves by whole transitions. Committing an output
    either succeeds, and then it continues the head it found: its parent root was
    the current root, its payload is the committed one and turns the current map
    into the one with the announced root, which is now the current map, and the
    sequence grew by one; or it fails, and then no root, sequence or state
    changed, in memory or in the tables of the database. Other services are
    never affected. Without a database it fails only when the parent is another
    root, the payload does not check or the sequence is exhausted. *)
Theorem backend_commit_exact `{Blake2} `{TrieLaws} `{RocksDbLaws} `{SerdeJsonLaws} {P : Type} `{ApplicationPlanner P}
    (s s' : BackendState.t (P := P)) (id : Z) (record : ServiceRecord) (output : RefineOutput.t)
    (r : result unit BackendError) :
  BackendState.ok s -> BackendState.get_service s id = Ok record -> RefineOutput.typed output ->
  BackendState.commit_recovery id (sr_service_key record) output s = (r, s') ->
  BackendState.ok s'
  /\ (forall id', id' <> id -> BackendState.current_root s' id' = BackendState.current_root s id'
                          /\ BackendState.state_sequence s' id' = BackendState.state_sequence s id')
  /\ match r with
     | Ok _ =>
         BackendState.current_root s id = Ok (RefineOutput.parent_root output)
         /\ BackendState.current_root s' id = Ok (RefineOutput.new_root output)
         /\ BackendState.state_sequence s' id = Ok (BackendState.sequence s id + 1)
         /\ exists m, FullStateProvider.recovers (BackendState.provider s) (sr_service_key record) output m
              /\ BackendState.at_head s' (sr_service_key record) m
     | Err _ =>
         BackendState.provider s' = BackendState.provider s
         /\ BackendState.current_root s' id = BackendState.current_root s id
         /\ BackendState.state_sequence s' id = BackendState.state_sequence s id
         /\ (forall d d', BackendState.database s = Some d -> BackendState.database s' = Some d' ->
               forall c, contents (BackendDatabase.db d') c = contents (BackendDatabase.db d) c)
         /\ (BackendState.database s = None ->
               BackendState.current_root s id <> Ok (RefineOutput.parent_root output)
               \/ (forall m, ~ FullStateProvider.recovers (BackendState.provider s) (sr_service_key record) output m)
               \/ BackendState.sequence s id >= U64_MAX)
     end.
Proof.
  intros Hok Hrec%BackendState.get_service_Ok Hty Hc. split; [by eapply BackendState.commit_recovery_ok|].
  destruct r as [[]|e].
  { destruct (BackendState.commit_recovery_effect s id record output s' (proj1 Hok) Hrec Hc) as (H1' & H2' & H3' & H4' & H5').
    done. }
  pose proof Hc as [(e' & _ & Hs')|(? & _)]%BackendState.commit_recovery_cases; [|done].
  assert (BackendState.registry s' = BackendState.registry s /\ BackendState.corrupt_services s' = BackendState.corrupt_services s
    /\ BackendState.provider s' = BackendState.provider s
    /\ BackendState.head_sequences s' = BackendState.head_sequences s) as (Hr & Hcor & Hp & Hq).
  { destruct Hs' as [->|(d & d' & seq & diff & _ & -> & _)]; done. }
  assert (forall i, BackendState.current_root s' i = BackendState.current_root s i
    /\ BackendState.state_sequence s' i = BackendState.state_sequence s i) as Hsame.
  { intros i. unfold BackendState.current_root, BackendState.state_sequence, BackendState.is_corrupt,
      BackendState.get_service. by rewrite Hr, Hcor, Hp, Hq. }
  split; [intros i _; apply Hsame|]. split; [done|]. split; [apply Hsame|]. split; [apply Hsame|]. split.
  - intros d d' Hd Hd' c. destruct Hs' as [->|(d1 & d2 & seq & diff & Hd1 & -> & Hcm)]; [congruence|].
    simpl in Hd'. injection Hd' as <-. rewrite Hd in Hd1. injection Hd1 as <-. by eapply commit_transition_Err.
  - intros Hnone. rewrite (BackendState.current_root_head s id record (proj1 Hok) Hrec).
    unfold BackendState.commit_recovery, BackendState.is_corrupt in Hc.
    rewrite (BackendState.ok_clean s (proj1 Hok)), bool_decide_eq_false_2 in Hc by set_solver.
    destruct (bool_decide_reflect (FullStateProvider.materialized_root (BackendState.provider s) (sr_service_key record)
      = RefineOutput.parent_root output)) as [Hroot|Hroot]; cbn [negb] in Hc; [|left; congruence]. rewrite Hroot in Hc.
    pose proof (BackendState.next_state_recovers s (sr_service_key record) output (BackendState.ok_provider s (proj1 Hok))) as Hn.
    destruct (BackendState.next_state _ _ _ _) as [[next diff]|e1]; cbn [rbind] in Hc; [|by right; left].
    unfold checked_add in Hc. fold (BackendState.sequence s id) in Hc.
    destruct (Z.leb_spec (BackendState.sequence s id + 1) U64_MAX); cbn [ok_or rbind] in Hc; [|right; right; lia].
    rewrite Hnone in Hc. done.
Qed.

(** A prediction is committed at most once. When the backend learns the
    canonical root of a service and reports that it materialized a prediction,
    then that prediction was pending and announced exactly this root, the head
    of its service moved from its parent root to it, the work is finalized, and
    asking again, with any root, changes nothing until the work is predicted
    anew. When it reports anything else, no head moved and nothing was
    finalized. *)
Theorem prediction_materialized_once `{Blake2} `{TrieLaws} `{RocksDbLaws} `{SerdeJsonLaws} {P : Type}
    `{ApplicationPlanner P} (s s' : BackendState.t (P := P)) (key : WorkKey) (root : bytes) (r : result bool BackendError) :
  BackendState.ok s ->
  BackendState.materialize_if_canonical key root s = (r, s') ->
  BackendState.ok s'
  /\ (r = Ok true -> exists output, BackendState.pending s !! key = Some output /\ RefineOutput.new_root output = root
        /\ BackendState.current_root s (wk_service_id key) = Ok (RefineOutput.parent_root output)
        /\ BackendState.current_root s' (wk_service_id key) = Ok root
        /\ BackendState.is_finalized s' key = true
        /\ forall root', BackendState.materialize_if_canonical key root' s' = (Ok false, s'))
  /\ (r <> Ok true -> BackendState.finalized s' = BackendState.finalized s
        /\ BackendState.pending s' = BackendState.pending s /\ BackendState.provider s' = BackendState.provider s).
Proof.
  intros Hok Hm. split; [pose proof (BackendState.materialize_ok s key root Hok) as Hx; by rewrite Hm in Hx|].
  unfold BackendState.materialize_if_canonical in Hm.
  destruct (BackendState.pending s !! key) as [o|] eqn:Ho; [|injection Hm as <- <-; done].
  destruct (bool_decide_reflect (root = RefineOutput.new_root o)) as [Hroot|Hroot]; cbn [negb] in Hm;
    [|injection Hm as <- <-; done].
  destruct (BackendState.get_service s (wk_service_id key)) as [rec|e] eqn:Hrec; [|injection Hm as <- <-; done].
  apply BackendState.get_service_Ok in Hrec. destruct (BackendState.record_id _ _ _ (proj1 Hok) Hrec) as (Hid & _).
  rewrite Hid in Hm. destruct (BackendState.commit_recovery _ _ o s) as [[[]|e] s1] eqn:Hc; injection Hm as <- <-.
  - split; [|done]. intros _. exists o. split; [done|]. split; [done|].
    destruct (BackendState.commit_recovery_effect s _ rec o s1 (proj1 Hok) Hrec Hc) as (H1' & H2' & _).
    split; [done|]. rewrite Hroot. split; [exact H2'|]. split; [by apply bool_decide_eq_true_2; simpl; set_solver|].
    intros root'. unfold BackendState.materialize_if_canonical. simpl. by rewrite lookup_delete_eq.
  - split; [done|]. intros _. destruct (BackendState.commit_recovery_fields _ _ _ _ _ _ Hc) as (_ & Hpd & _ & Hf & _).
    split; [done|]. split; [done|].
    apply BackendState.commit_recovery_cases in Hc as [(e' & _ & [->|(d & d' & seq & diff & _ & -> & _)])|(? & _)]; done.
Qed.

(** ** A run on a concrete database *)

#[global] Instance unit_planner : ApplicationPlanner unit := {|
  ap_artifact_digest _ := repeat x0a 32;
  ap_plan _ _ := Ok (mkPlannerResult [] ∅)
|}.

Definition sample_database : BackendDatabase.t := BackendDatabase.mk (H1 := model_rocks) (fun _ => ∅) 4096.
Definition sample_start : BackendState.t (P := unit) :=
  BackendState.set_database sample_database BackendState.default_.
Definition sample_output : RefineOutput.t :=
  match @RefineOutput.from_diff zero_hash EMPTY_STATE_ROOT_V1 (model_root {[ [x01] := [x05] ]}) []
          (StateDiff.mk [mkEntry [x01] (Some [x05])]) with
  | Ok o => o
  | Err _ => RefineOutput.mk x00 [] [] [] None [] [] []
  end.
Definition sample_service_record : ServiceRecord := sample_record 5 x01.
Definition sample_registered : BackendState.t (P := unit) := (BackendState.register sample_service_record sample_start).2.
Definition sample_persisted : BackendState.t (P := unit) :=
  (BackendState.persist_service sample_service_record sample_registered).2.
Definition sample_work : WorkKey := mkWorkKey 5 (repeat x03 32).
Definition sample_tracked : BackendState.t (P := unit) :=
  (BackendState.track_prediction 5 (repeat x03 32) sample_output sample_persisted).2.
Definition sample_advanced : BackendState.t (P := unit) :=
  (@BackendState.materialize_if_canonical zero_hash _ _ _ _ sample_work (RefineOutput.new_root sample_output) sample_tracked).2.

Lemma sample_record_ok : record_ok sample_service_record.
Proof. repeat split; try (vm_compute; discriminate); reflexivity. Qed.

Lemma sample_output_typed : RefineOutput.typed sample_output.
Proof.
  unfold RefineOutput.typed. split; [vm_compute; reflexivity|]. split; [vm_compute; reflexivity|].
  split; [vm_compute; reflexivity|].
  assert (RefineOutput.external_dependencies sample_output = []) as -> by (vm_compute; reflexivity).
  assert (RefineOutput.receipts sample_output = []) as -> by (vm_compute; reflexivity).
  assert (RefineOutput.transition_valid_until sample_output = None) as -> by (vm_compute; reflexivity).
  done.
Qed.

Lemma sample_fresh : BackendState.fresh sample_database.
Proof. intros c _. reflexivity. Qed.

Lemma sample_registered_steps : rtc (@BackendState.step zero_hash _ _ _ _ _) sample_start sample_registered.
Proof. apply rtc_once. unfold sample_registered. apply BackendState.step_register. apply sample_record_ok. Qed.

Lemma sample_known : BackendState.get_service sample_registered 5 = Ok sample_service_record.
Proof. reflexivity. Qed.

Lemma sample_tracked_steps : rtc (@BackendState.step zero_hash _ _ _ _ _) sample_persisted sample_tracked.
Proof. apply rtc_once. unfold sample_tracked. apply BackendState.step_track. apply sample_output_typed. Qed.

Lemma sample_persisted_step : @BackendState.step zero_hash _ _ _ _ _ sample_registered sample_persisted.
Proof. unfold sample_persisted. apply BackendState.step_persist. apply sample_known. Qed.

Lemma sample_advanced_steps : rtc (@BackendState.step zero_hash _ _ _ _ _) sample_persisted sample_advanced.
Proof. eapply rtc_r; [apply sample_tracked_steps|]. unfold sample_advanced. apply BackendState.step_canonical. Qed.

Lemma sample_tracked_ok : BackendState.ok sample_tracked.
Proof.
  eapply BackendState.steps_ok; [|apply BackendState.fresh_ok, sample_fresh].
  etrans; [apply sample_registered_steps|]. eapply rtc_l; [apply sample_persisted_step|apply sample_tracked_steps].
Qed.

Lemma backend_survives_restart_witness :
  exists d (s' : BackendState.t (P := unit)),
    BackendState.database sample_advanced = Some d /\ BackendState.from_database d = Ok s'
    /\ (exists record, BackendState.get_service s' 5 = Ok record)
    /\ BackendState.state_sequence s' 5 = Ok 1
    /\ BackendState.current_root s' 5 = Ok (model_root {[ [x01] := [x05] ]}).
Proof.
  pose proof (BackendState.steps_keep _ _ sample_advanced_steps) as Hk.
  assert (rtc (@BackendState.step zero_hash _ _ _ _ _) sample_start sample_advanced) as Hst.
  { etrans; [apply sample_registered_steps|]. eapply rtc_l; [apply sample_persisted_step|apply sample_advanced_steps]. }
  destruct (BackendState.database sample_advanced) as [d|] eqn:Hd.
  2: { destruct (BackendState.steps_keep _ _ Hst (BackendState.fresh_ok _ sample_fresh) sample_database eq_refl)
         as (d' & Hd' & _). congruence. }
  destruct (@backend_survives_restart zero_hash _ _ _ _ _ _ _ _ sample_database d sample_advanced sample_fresh Hst Hd)
    as [Hread Hall].
  destruct Hread as [s' Hs'].
  { split; [done|]. intros c start. simpl. apply Forall_forall. intros x (y & -> & _)%list_elem_of_fmap. done. }
  destruct (Hall s' Hs') as (Hsame & Hper & _).
  destruct (Hper sample_registered sample_persisted sample_service_record sample_registered_steps sample_known)
    as (record & Hrec & _); [reflexivity|apply sample_advanced_steps|].
  exists d, s'. split; [reflexivity|]. split; [exact Hs'|]. split; [by exists record|].
  destruct (Hsame 5 record Hrec) as (Hroot & Hseq & _). rewrite Hroot, Hseq.
  split; vm_compute; reflexivity.
Defined.

Lemma backend_commit_exact_witness :
  BackendState.current_root
    (@BackendState.commit_recovery zero_hash _ _ _ _ 5 (repeat x01 32) sample_output sample_tracked).2 5
  = Ok (model_root {[ [x01] := [x05] ]}).
Proof.
  destruct (@BackendState.commit_recovery zero_hash _ _ _ _ 5 (repeat x01 32) sample_output sample_tracked)
    as [r s'] eqn:Hc.
  destruct (@backend_commit_exact zero_hash _ _ _ _ _ _ _ _ sample_tracked s' 5 sample_service_record sample_output r)
    as (_ & _ & Hr); [apply sample_tracked_ok|reflexivity|apply sample_output_typed|exact Hc|].
  assert (r = Ok tt) as ->.
  { replace r with (@BackendState.commit_recovery zero_hash _ _ _ _ 5 (repeat x01 32) sample_output sample_tracked).1
      by (rewrite Hc; reflexivity). vm_compute. reflexivity. }
  apply Hr.
Defined.

Lemma prediction_materialized_once_witness :
  BackendState.is_finalized sample_advanced sample_work = true
  /\ @BackendState.materialize_if_canonical zero_hash _ _ _ _ sample_work EMPTY_STATE_ROOT_V1 sample_advanced
     = (Ok false, sample_advanced).
Proof.
  destruct (@prediction_materialized_once zero_hash _ _ _ _ _ _ _ _ sample_tracked sample_advanced sample_work
    (RefineOutput.new_root sample_output) (Ok true)) as (_ & Hr & _).
  - apply sample_tracked_ok.
  - assert ((@BackendState.materialize_if_canonical zero_hash _ _ _ _ sample_work
      (RefineOutput.new_root sample_output) sample_tracked).1 = Ok true) as Hm by (vm_compute; reflexivity).
    unfold sample_advanced. rewrite <- Hm. apply surjective_pairing.
  - destruct (Hr eq_refl) as (o & _ & _ & _ & _ & Hf & Hagain). split; [exact Hf|apply Hagain].
Defined.
