(* ===== verification/Selection.v ===== *)
(** * Choosing the next batch ([select_canonical_indices])

    The coordinator scans a service's queue in the order of arrival, again and
    again while it makes progress: an action is chosen when its nonce is the one
    its sender is expected to use next, given what was chosen before it; it is
    stale when its nonce was already passed; otherwise it waits. *)

From S2P Require Import Prelude Ordering.

(** Lexicographic order of pairs, Rust's [Ord] on tuples. *)
#[global] Instance prod_cmp {A B} `{TotalCmp A, TotalCmp B} : TotalCmp (A * B) := fun x y =>
  match cmp x.1 y.1 with
  | Eq => cmp x.2 y.2
  | c => c
  end.

Record PendingAction (V : Type) := mkPending {
  pa_logical_id : bytes; pa_action : bytes; pa_sender : option bytes; pa_nonce : option Z;
  pa_nonce_storage_key : option bytes; pa_valid_until : option Z; pa_arrival_sequence : Z;
  pa_enqueued_at : Z; pa_params : V; pa_extrinsics : list bytes
}.
Arguments mkPending {V}.
Arguments pa_logical_id {V}.
Arguments pa_action {V}.
Arguments pa_sender {V}.
Arguments pa_nonce {V}.
Arguments pa_nonce_storage_key {V}.
Arguments pa_valid_until {V}.
Arguments pa_arrival_sequence {V}.
Arguments pa_enqueued_at {V}.
Arguments pa_params {V}.
Arguments pa_extrinsics {V}.

Record BatchSelection := mkSelection { bs_selected : list nat; bs_stale : list nat }.

Module Selection.
Section Select.
Context {V : Type} (pending : list (PendingAction V)) (max_actions : Z).

(** The local variables of the loop. *)
Record locals := mkLocals {
  selected : list nat; stale : list nat; remaining : gset nat; tentative : gmap bytes Z
}.

Definition admission_order : list nat :=
  sort_by_key (fun i => (match pending !! i with Some item => pa_arrival_sequence item | None => 0 end, Z.of_nat i))
    (seq 0 (length pending)).

Inductive verdict := Stale | Eligible (tentative : gmap bytes Z) | Waiting.

Definition judge (l : locals) (item : PendingAction V) : verdict :=
  match pa_sender item, pa_nonce item with
  | Some sender, Some nonce =>
      let expected := default 0 (tentative l !! sender) in
      match Z.compare nonce expected with
      | Lt => Stale
      | Eq => Eligible (<[sender := saturating_add U64_MAX expected 1]> (tentative l))
      | Gt => Waiting
      end
  | None, None => Eligible (tentative l)
  | _, _ => Waiting
  end.

(** One run of the inner loop: the new locals, whether there was progress, and
    whether the batch is full, which returns from the function. *)
Fixpoint pass (order : list nat) (l : locals) (progress : bool) : locals * bool * bool :=
  match order with
  | [] => (l, progress, false)
  | index :: order' =>
      match (if bool_decide (index ∈ remaining l) then pending !! index else None) with
      | None => pass order' l progress
      | Some item =>
          match judge l item with
          | Stale =>
              pass order' (mkLocals (selected l) (stale l ++ [index]) (remaining l ∖ {[index]}) (tentative l)) true
          | Waiting => pass order' l progress
          | Eligible t =>
              let l := mkLocals (selected l ++ [index]) (stale l) (remaining l ∖ {[index]}) t in
              if blen (selected l) =? max_actions then (l, true, true) else pass order' l true
          end
      end
  end.

Fixpoint select_loop (fuel : nat) (l : locals) : locals :=
  match fuel with
  | O => l
  | S fuel' =>
      match pass admission_order l false with
      | (l, _, true) => l
      | (l, false, false) => l
      | (l, true, false) => select_loop fuel' l
      end
  end.

Definition initial (expected_nonces : gmap bytes Z) : locals :=
  mkLocals [] [] (list_to_set (seq 0 (length pending))) expected_nonces.

Definition select_locals (expected_nonces : gmap bytes Z) : locals :=
  select_loop (S (length pending)) (initial expected_nonces).

Definition select_canonical_indices (expected_nonces : gmap bytes Z) : BatchSelection :=
  let l := select_locals expected_nonces in mkSelection (selected l) (stale l).

(** ** Specification *)

(** The nonces of a sender among the items at some indices, in order. *)
Definition nonce_of (sender : bytes) (index : nat) : option Z :=
  item ← pending !! index; if decide (pa_sender item = Some sender) then pa_nonce item else None.
Definition nonces_of (sender : bytes) (indices : list nat) : list Z := omap (nonce_of sender) indices.

Context (expected : gmap bytes Z).
Definition expects (sender : bytes) : Z := default 0 (expected !! sender).

(** The nonce a sender uses next once the chosen actions ran. *)
Definition reached (l : locals) (sender : bytes) : Z := expects sender + blen (nonces_of sender (selected l)).

(** Every index is chosen, discarded or left, and only once. *)
Record shape (l : locals) : Prop := {
  shape_nodup : NoDup (selected l ++ stale l);
  shape_remaining i : i ∈ remaining l <-> (i < length pending)%nat /\ i ∉ selected l ++ stale l;
  shape_bounds i : i ∈ selected l ++ stale l -> (i < length pending)%nat
}.

Record inv (l : locals) : Prop := {
  inv_shape : shape l;
  inv_tentative s : default 0 (tentative l !! s) = reached l s;
  inv_nonces s : nonces_of s (selected l) = seqZ (expects s) (blen (nonces_of s (selected l)));
  inv_stale i : i ∈ stale l -> exists item s n, pending !! i = Some item /\ pa_sender item = Some s
    /\ pa_nonce item = Some n /\ n < reached l s;
  inv_selected i : i ∈ selected l -> exists item, pending !! i = Some item
    /\ (pa_sender item = None <-> pa_nonce item = None)
}.

Definition small_nonces : Prop :=
  (forall item n, item ∈ pending -> pa_nonce item = Some n -> n < U64_MAX).

Lemma nonces_of_snoc s l i : nonces_of s (l ++ [i]) = nonces_of s l ++ (match nonce_of s i with Some n => [n] | None => [] end).
Proof. unfold nonces_of. by rewrite omap_app. Qed.

Lemma initial_shape : shape (initial expected).
Proof.
  split; simpl.
  - constructor.
  - intros i. rewrite elem_of_list_to_set, elem_of_seq. split; [intros; split; [lia|set_solver]|]. intros [? _]. lia.
  - intros i. set_solver.
Qed.

Lemma initial_inv : inv (initial expected).
Proof.
  split; simpl; try done; [apply initial_shape|..].
  - intros s. unfold reached. change (blen _) with 0. unfold expects. lia.
  - intros i. set_solver.
  - intros i. set_solver.
Qed.

(** Removing an index from the remaining ones, by either list. *)
Lemma shape_take l l' i :
  shape l -> i ∈ remaining l -> selected l' ++ stale l' ≡ₚ i :: (selected l ++ stale l) ->
  remaining l' = remaining l ∖ {[i]} -> shape l'.
Proof.
  intros Hl Hi Hp Hr. apply (shape_remaining l Hl) in Hi as [Hlt Hni]. split.
  - rewrite Hp. constructor; [done|apply Hl].
  - intros j. rewrite Hr, elem_of_difference, elem_of_singleton, (shape_remaining l Hl), Hp, elem_of_cons. naive_solver.
  - intros j. rewrite Hp, elem_of_cons. intros [->|Hj]; [done|by apply (shape_bounds l Hl)].
Qed.

Lemma shape_stale l i t :
  shape l -> i ∈ remaining l -> shape (mkLocals (selected l) (stale l ++ [i]) (remaining l ∖ {[i]}) t).
Proof.
  intros Hl Hi. eapply shape_take; [exact Hl|exact Hi| |done]. simpl.
  rewrite (assoc_L (++)), Permutation_app_comm. done.
Qed.

Lemma shape_selected l i t :
  shape l -> i ∈ remaining l -> shape (mkLocals (selected l ++ [i]) (stale l) (remaining l ∖ {[i]}) t).
Proof.
  intros Hl Hi. eapply shape_take; [exact Hl|exact Hi| |done]. simpl.
  rewrite <- (assoc_L (++)). symmetry. apply Permutation_middle.
Qed.

Lemma pass_shape order : forall l progress, shape l -> shape (pass order l progress).1.1.
Proof.
  induction order as [|i order IH]; intros l progress Hl; [done|]. cbn [pass].
  destruct (bool_decide_reflect (i ∈ remaining l)) as [Hi|Hi]; [|by apply IH].
  destruct (pending !! i) as [item|]; [|by apply IH]. destruct (judge l item) as [|t|].
  - by apply IH, shape_stale.
  - pose proof (shape_selected l i t Hl Hi). case_match; [done|]. by apply IH.
  - by apply IH.
Qed.

Lemma select_loop_shape fuel : forall l, shape l -> shape (select_loop fuel l).
Proof.
  induction fuel as [|fuel IH]; intros l Hl; [done|]. cbn [select_loop].
  pose proof (pass_shape admission_order l false Hl) as Hp. destruct (pass admission_order l false) as [[l' []] []]; auto.
Qed.

Lemma select_shape : shape (select_locals expected).
Proof. apply select_loop_shape, initial_shape. Qed.

Lemma inv_push_stale l i item :
  inv l -> i ∈ remaining l -> pending !! i = Some item -> judge l item = Stale ->
  inv (mkLocals (selected l) (stale l ++ [i]) (remaining l ∖ {[i]}) (tentative l)).
Proof.
  intros Hl Hi Hitem Hj. unfold judge in Hj.
  destruct (pa_sender item) as [s|] eqn:Hs; [|by destruct (pa_nonce item)]. destruct (pa_nonce item) as [n|] eqn:Hn; [|done].
  destruct (Z.compare_spec n (default 0 (tentative l !! s))) as [?|Hlt|?]; [done| |done].
  split; simpl in *; try done; try apply Hl; [by apply shape_stale; [apply Hl|]|].
  intros j [Hj'|Hj'%list_elem_of_singleton]%elem_of_app; [by apply (inv_stale l Hl)|subst j].
  exists item, s, n. split_and!; try done. pose proof (inv_tentative l Hl s) as Ht. unfold reached in *. simpl in *. lia.
Qed.

Lemma inv_push_selected l i item t :
  small_nonces -> inv l -> i ∈ remaining l -> pending !! i = Some item -> judge l item = Eligible t ->
  inv (mkLocals (selected l ++ [i]) (stale l) (remaining l ∖ {[i]}) t).
Proof.
  intros Hsmall Hl Hi Hitem Hj. set (l' := mkLocals _ _ _ _).
  pose proof (shape_selected l i t (inv_shape l Hl) Hi) as Hshape.
  assert ((exists s n, pa_sender item = Some s /\ pa_nonce item = Some n /\ n = reached l s
             /\ t = <[s := n + 1]> (tentative l))
          \/ (pa_sender item = None /\ pa_nonce item = None /\ t = tentative l)) as Hcase.
  { unfold judge in Hj. destruct (pa_sender item) as [s|] eqn:Hs, (pa_nonce item) as [n|] eqn:Hn; try done.
    - left. exists s, n. destruct (Z.compare_spec n (default 0 (tentative l !! s))) as [Heq|?|?]; [|done..].
      injection Hj as <-. split; [done|]. split; [done|]. split; [by rewrite <- (inv_tentative l Hl)|].
      rewrite <- Heq. unfold saturating_add. assert (n < U64_MAX); [|by rewrite Z.min_r by lia].
      eapply Hsmall; [by eapply list_elem_of_lookup_2|done].
    - right. by injection Hj as <-. }
  assert (forall s, nonces_of s (selected l') = nonces_of s (selected l)
    ++ (match pa_sender item with Some s' => if decide (s' = s) then option_list (pa_nonce item) else [] | None => [] end)) as Hn.
  { intros s. simpl. rewrite nonces_of_snoc. f_equal. unfold nonce_of. rewrite Hitem. simpl.
    destruct (pa_sender item) as [s'|]; [|by rewrite decide_False].
    destruct (decide (s' = s)) as [->|]; [rewrite decide_True by done|rewrite decide_False by congruence; done].
    by destruct (pa_nonce item). }
  assert (forall s, reached l s <= reached l' s) as Hmono.
  { intros s. unfold reached. rewrite Hn, blen_app. pose proof (blen_nonneg (match pa_sender item with
      Some s' => if decide (s' = s) then option_list (pa_nonce item) else [] | None => [] end)). lia. }
  assert (forall s, default 0 (t !! s) = reached l' s
    /\ nonces_of s (selected l') = seqZ (expects s) (blen (nonces_of s (selected l')))) as Hboth.
  { intros s. unfold reached. rewrite Hn.
    destruct Hcase as [(s' & n & Hs & Hno & Hr & ->)|(Hs & Hno & ->)]; rewrite Hs, ?Hno.
    - destruct (decide (s' = s)) as [->|Hne].
      + rewrite lookup_insert_eq. change (option_list (Some n)) with [n].
        assert (blen (nonces_of s (selected l) ++ [n]) = blen (nonces_of s (selected l)) + 1) as ->
          by (unfold blen; rewrite length_app; simpl; lia).
        unfold reached in Hr. split; [simpl; lia|]. rewrite (inv_nonces l Hl s) at 1.
        rewrite seqZ_app by (pose proof (blen_nonneg (nonces_of s (selected l))); lia). f_equal.
        rewrite Hr. done.
      + rewrite lookup_insert_ne, app_nil_r by done. split; [by rewrite (inv_tentative l Hl)|apply Hl].
    - rewrite app_nil_r. split; [by rewrite (inv_tentative l Hl)|apply Hl]. }
  split; simpl; try done.
  - intros s. apply Hboth.
  - intros s. apply Hboth.
  - intros j Hj'. destruct (inv_stale l Hl j Hj') as (it & s & n & ? & ? & ? & ?). exists it, s, n. split_and!; try done.
    pose proof (Hmono s). unfold reached in *. simpl in *. lia.
  - intros j [Hj'|Hj'%list_elem_of_singleton]%elem_of_app; [by apply (inv_selected l Hl)|subst j]. exists item. split; [done|].
    destruct Hcase as [(s' & n & -> & -> & _)|(-> & -> & _)]; done.
Qed.

(** Nothing that is left can be judged now. *)
Definition settled (l : locals) (indices : list nat) : Prop :=
  forall i item, i ∈ indices -> i ∈ remaining l -> pending !! i = Some item -> judge l item = Waiting.

Lemma remaining_smaller l i : i ∈ remaining l -> (size (remaining l ∖ {[i]}) < size (remaining l))%nat.
Proof. intros Hi. apply subset_size. set_solver. Qed.

Lemma pass_spec order : small_nonces -> forall l progress,
  inv l -> blen (selected l) < max_actions ->
  let '(l', progress', full) := pass order l progress in
  inv l'
  /\ (if full then blen (selected l') = max_actions else blen (selected l') < max_actions)
  /\ (size (remaining l') <= size (remaining l))%nat
  /\ (progress' = true -> progress = true \/ (size (remaining l') < size (remaining l))%nat)
  /\ (progress' = false -> progress = false /\ l' = l /\ settled l order /\ full = false).
Proof.
  intros Hsmall. induction order as [|i order IH]; intros l progress Hl Hlt; cbn [pass].
  { split_and!; try done; [by left|]. intros ->. split_and!; try done. intros j item Hj. by apply elem_of_nil in Hj. }
  assert (forall item, i ∈ remaining l -> pending !! i = Some item -> judge l item = Waiting ->
    let '(l', progress', full) := pass order l progress in inv l'
      /\ (if full then blen (selected l') = max_actions else blen (selected l') < max_actions)
      /\ (size (remaining l') <= size (remaining l))%nat
      /\ (progress' = true -> progress = true \/ (size (remaining l') < size (remaining l))%nat)
      /\ (progress' = false -> progress = false /\ l' = l /\ settled l (i :: order) /\ full = false)) as Hwait.
  { intros item Hi Hitem Hj. specialize (IH l progress Hl Hlt). destruct (pass order l progress) as [[l' p'] full].
    destruct IH as (H1 & H2 & H3 & H4 & H5). split_and!; try done. intros Hp. destruct (H5 Hp) as (? & ? & Hs & ?).
    split_and!; try done. intros j it [->|Hin]%elem_of_cons Hr Hit; [congruence|by eapply Hs]. }
  destruct (bool_decide_reflect (i ∈ remaining l)) as [Hi|Hi].
  - destruct (proj1 (shape_remaining l (inv_shape l Hl) i) Hi) as [Hlen _]. destruct (lookup_lt_is_Some_2 pending i Hlen) as [item Hitem].
    rewrite Hitem. pose proof (remaining_smaller l i Hi) as Hsz. destruct (judge l item) as [|t|] eqn:Hj.
    + pose proof (inv_push_stale l i item Hl Hi Hitem Hj) as Hl'. specialize (IH _ true Hl' Hlt).
      destruct (pass order _ true) as [[l' p'] full]. destruct IH as (H1 & H2 & H3 & H4 & H5). simpl in *.
      split_and!; try done; [lia|right; lia|]. intros Hp. by destruct (H5 Hp).
    + pose proof (inv_push_selected l i item t Hsmall Hl Hi Hitem Hj) as Hl'.
      set (l1 := mkLocals (selected l ++ [i]) (stale l) (remaining l ∖ {[i]}) t) in *.
      assert (blen (selected l1) = blen (selected l) + 1) as Hb by (simpl; unfold blen; rewrite length_app; simpl; lia).
      destruct (Z.eqb_spec (blen (selected l1)) max_actions) as [Hfull|Hnf].
      * split_and!; try done; [simpl; lia|right; simpl; lia].
      * specialize (IH l1 true Hl' ltac:(lia)). destruct (pass order l1 true) as [[l' p'] full].
        destruct IH as (H1 & H2 & H3 & H4 & H5). simpl in H3. split_and!; try done; [lia|right; lia|].
        intros Hp. by destruct (H5 Hp).
    + by apply (Hwait item).
  - specialize (IH l progress Hl Hlt). destruct (pass order l progress) as [[l' p'] full].
    destruct IH as (H1 & H2 & H3 & H4 & H5). split_and!; try done. intros Hp. destruct (H5 Hp) as (? & ? & Hs & ?).
    split_and!; try done. intros j it [->|Hin]%elem_of_cons Hr Hit; [done|by eapply Hs].
Qed.

Lemma admission_order_all i : (i < length pending)%nat -> i ∈ admission_order.
Proof. intros Hi. unfold admission_order. rewrite sort_by_key_perm. apply elem_of_seq. lia. Qed.

(** More passes than there are actions are never needed. *)
Lemma select_loop_spec fuel : small_nonces -> forall l,
  inv l -> blen (selected l) < max_actions -> (size (remaining l) < fuel)%nat ->
  inv (select_loop fuel l) /\ blen (selected (select_loop fuel l)) <= max_actions
  /\ (blen (selected (select_loop fuel l)) < max_actions -> settled (select_loop fuel l) admission_order).
Proof.
  intros Hsmall. induction fuel as [|fuel IH]; intros l Hl Hlt Hf; [lia|]. cbn [select_loop].
  pose proof (pass_spec admission_order Hsmall l false Hl Hlt) as Hp.
  destruct (pass admission_order l false) as [[l' p'] full]. destruct Hp as (H1 & H2 & H3 & H4 & H5).
  destruct full; [destruct p'; split_and!; try done; lia|]. destruct p'.
  - apply IH; [done|done|]. destruct (H4 eq_refl); [done|lia].
  - destruct (H5 eq_refl) as (_ & -> & Hs & _). split_and!; [done|lia|done].
Qed.

Lemma select_locals_spec :
  small_nonces -> 1 <= max_actions ->
  inv (select_locals expected) /\ blen (selected (select_locals expected)) <= max_actions
  /\ (blen (selected (select_locals expected)) < max_actions -> settled (select_locals expected) admission_order).
Proof.
  intros Hsmall Hmax. apply select_loop_spec; [done|apply initial_inv|change (0 < max_actions); lia|].
  simpl. rewrite size_list_to_set by apply NoDup_seq. rewrite length_seq. lia.
Qed.
End Select.
End Selection.

(** The batch that is chosen is the right one. For a queue whose nonces are
    below the largest [u64], the loop ends by itself, and: no action is chosen or
    discarded twice; at most [max_actions] are chosen; the nonces chosen for each
    sender are exactly the ones it is expected to use next, one after the other
    and in this order; an action is discarded only when its nonce was passed; and
    if the batch is not full, every action left behind has a nonce beyond the one
    its sender has reached, or lacks one of sender and nonce, so nothing that
    could run was left out. *)
Theorem batch_selection_exact {V} (pending : list (PendingAction V)) (expected : gmap bytes Z) (max_actions : Z) :
  Selection.small_nonces pending -> 1 <= max_actions ->
  let sel := Selection.select_canonical_indices pending max_actions expected in
  let chosen s := Selection.nonces_of pending s (bs_selected sel) in
  NoDup (bs_selected sel ++ bs_stale sel)
  /\ (forall i, i ∈ bs_selected sel ++ bs_stale sel -> (i < length pending)%nat)
  /\ blen (bs_selected sel) <= max_actions
  /\ (forall s, chosen s = seqZ (default 0 (expected !! s)) (blen (chosen s)))
  /\ (forall i, i ∈ bs_stale sel -> exists item s n, pending !! i = Some item /\ pa_sender item = Some s
        /\ pa_nonce item = Some n /\ n < default 0 (expected !! s) + blen (chosen s))
  /\ (blen (bs_selected sel) < max_actions ->
      forall i item, pending !! i = Some item -> i ∉ bs_selected sel ++ bs_stale sel ->
        match pa_sender item, pa_nonce item with
        | Some s, Some n => default 0 (expected !! s) + blen (chosen s) < n
        | None, None => False
        | _, _ => True
        end).
Proof.
  intros Hsmall Hmax sel chosen.
  destruct (Selection.select_locals_spec pending max_actions expected Hsmall Hmax) as (Hinv & Hle & Hset).
  unfold sel, chosen, Selection.select_canonical_indices in *. cbn [bs_selected bs_stale] in *.
  set (l := Selection.select_locals pending max_actions expected) in *. split_and!.
  - apply Hinv.
  - by apply (Selection.shape_bounds _ _ (Selection.inv_shape _ _ _ Hinv)).
  - done.
  - apply Hinv.
  - intros i Hi. destruct (Selection.inv_stale _ _ _ Hinv i Hi) as (item & s & n & ? & ? & ? & ?). by exists item, s, n.
  - intros Hlt i item Hitem Hni. pose proof (lookup_lt_Some _ _ _ Hitem) as Hlen.
    assert (i ∈ Selection.remaining l) as Hr by (by apply (Selection.shape_remaining _ _ (Selection.inv_shape _ _ _ Hinv))).
    pose proof (Hset Hlt i item (Selection.admission_order_all _ _ Hlen) Hr Hitem) as Hj. unfold Selection.judge in Hj.
    destruct (pa_sender item) as [s|], (pa_nonce item) as [n|]; try done.
    rewrite (Selection.inv_tentative _ _ _ Hinv s) in Hj. unfold Selection.reached, Selection.expects in Hj.
    destruct (Z.compare_spec n (default 0 (expected !! s) + blen (Selection.nonces_of pending s (Selection.selected l))))
      as [|?|Hgt]; [done|done|exact Hgt].
Qed.

Definition queued_item (sender : byte) (nonce arrival : Z) : PendingAction unit :=
  mkPending [] [] (Some [sender]) (Some nonce) None None arrival 0 tt [].

Lemma batch_selection_exact_witness :
  let pending := [queued_item x01 6 0; queued_item x01 5 1; queued_item x02 1 2; queued_item x01 4 3; queued_item x02 9 4] in
  let expected : gmap bytes Z := {[ [x01] := 5; [x02] := 1 ]} in
  Selection.select_canonical_indices pending 4 expected = mkSelection [1; 2; 0]%nat [3]%nat
  /\ Selection.nonces_of pending [x01] [1; 2; 0]%nat = seqZ 5 2.
Proof.
  intros pending expected.
  assert (Selection.select_canonical_indices pending 4 expected = mkSelection [1; 2; 0]%nat [3]%nat) as He
    by (vm_compute; reflexivity).
  split; [exact He|].
  destruct (batch_selection_exact pending expected 4) as (_ & _ & _ & Hc & _).
  - intros item n Hin Hn. unfold pending in Hin. rewrite !elem_of_cons, elem_of_nil in Hin.
    destruct Hin as [->|[->|[->|[->|[->|[]]]]]]; injection Hn as <-; vm_compute; reflexivity.
  - lia.
  - cbv zeta in Hc. rewrite He in Hc. specialize (Hc [x01]). cbn [bs_selected] in Hc. etrans; [exact Hc|].
    vm_compute. reflexivity.
Defined.

(** Two waiting actions of one sender with the nonce it is expected to use: the
    later one is discarded as stale, although its nonce is not lower than the
    expected one, whether or not the batch with the first succeeds. *)
Lemma duplicate_nonce_discarded :
  Selection.select_canonical_indices [queued_item x01 5 0; queued_item x01 5 1] 4 {[ [x01] := 5 ]}
  = mkSelection [0]%nat [1]%nat.
Proof. vm_compute. reflexivity. Qed.
