(* ===== verification/JsonValue.v ===== *)
(** * JSON values

    [serde_json::Value] as the backend uses it: a class with the operations the
    code calls, the laws they are documented to have, and an instance. *)

From S2P Require Import Prelude.

Class Json := {
  value : Type;
  v_null : value;
  v_bool : bool -> value;
  v_num : Z -> value;
  v_string : bytes -> value;
  v_array : list value -> value;
  (** [json!({ .. })] *)
  v_object : list (bytes * value) -> value;
  v_get : value -> bytes -> option value;
  v_is_object : value -> bool;
  v_as_array : value -> option (list value);
  v_as_str : value -> option bytes;
  v_as_u64 : value -> option Z;
  v_as_i64 : value -> option Z;
  v_as_bool : value -> option bool;
  (** [object.insert(name, v)] and [params[name] = v] *)
  v_set : value -> bytes -> value -> value;
  (** [object.remove(name)] *)
  v_remove : value -> bytes -> value
}.

(** The first entry of a name. *)
Fixpoint assoc {V} (l : list (bytes * V)) (name : bytes) : option V :=
  match l with
  | [] => None
  | (n, v) :: l' => if bool_decide (n = name) then Some v else assoc l' name
  end.

Class JsonLaws `{Json} : Prop := {
  get_no_object v k : v_is_object v = false -> v_get v k = None;
  get_object l k : NoDup (map fst l) -> v_get (v_object l) k = assoc l k;
  object_is_object l : v_is_object (v_object l) = true;
  set_is_object v k x : v_is_object v = true -> v_is_object (v_set v k x) = true;
  get_set v k x k' : v_is_object v = true -> v_get (v_set v k x) k' = if decide (k = k') then Some x else v_get v k';
  remove_is_object v k : v_is_object v = true -> v_is_object (v_remove v k) = true;
  get_remove v k k' : v_is_object v = true -> v_get (v_remove v k) k' = if decide (k = k') then None else v_get v k';
  string_is_str s : v_as_str (v_string s) = Some s;
  bool_is_bool b : v_as_bool (v_bool b) = Some b;
  array_is_array l : v_as_array (v_array l) = Some l;
  num_is_u64 n : u64_ok n -> v_as_u64 (v_num n) = Some n;
  num_is_i64 n : - 2 ^ 63 <= n < 2 ^ 63 -> v_as_i64 (v_num n) = Some n;
  u64_in_range v n : v_as_u64 v = Some n -> u64_ok n
}.

Section Lookup.
Context `{JsonLaws}.

Lemma assoc_here {V} k (v : V) l : assoc ((k, v) :: l) k = Some v.
Proof. simpl. by rewrite bool_decide_eq_true_2. Qed.
Lemma assoc_next {V} k k' (v : V) l : bool_decide (k = k') = false -> assoc ((k, v) :: l) k' = assoc l k'.
Proof. intros Hk. simpl. by rewrite Hk. Qed.

Lemma get_object' l k : bool_decide (NoDup (map fst l)) = true -> v_get (v_object l) k = assoc l k.
Proof. intros Hl%bool_decide_eq_true. by apply get_object. Qed.
Lemma get_set_here v k x : v_is_object v = true -> v_get (v_set v k x) k = Some x.
Proof. intros Hv. rewrite get_set by done. by rewrite decide_True. Qed.
Lemma get_set_next v k k' x : v_is_object v = true -> bool_decide (k = k') = false -> v_get (v_set v k x) k' = v_get v k'.
Proof. intros Hv Hk%bool_decide_eq_false. rewrite get_set by done. by rewrite decide_False. Qed.
Lemma get_remove_here v k : v_is_object v = true -> v_get (v_remove v k) k = None.
Proof. intros Hv. rewrite get_remove by done. by rewrite decide_True. Qed.
Lemma get_remove_next v k k' : v_is_object v = true -> bool_decide (k = k') = false -> v_get (v_remove v k) k' = v_get v k'.
Proof. intros Hv Hk%bool_decide_eq_false. rewrite get_remove by done. by rewrite decide_False. Qed.
End Lookup.

(** Fields of answers whose names are known. *)
Ltac is_object := repeat first [apply object_is_object | apply set_is_object | apply remove_is_object | done].
Ltac computed := vm_compute; reflexivity.
Ltac field_of :=
  repeat first
    [ rewrite get_set_here by is_object | rewrite get_set_next by first [is_object | computed]
    | rewrite get_remove_here by is_object | rewrite get_remove_next by first [is_object | computed]
    | rewrite get_object' by computed | rewrite assoc_here | rewrite assoc_next by computed ].

(** ** A model *)

Module JsonModel.
Inductive json :=
| JNull | JBool (b : bool) | JNum (n : Z) | JString (s : bytes) | JArray (l : list json)
| JObject (l : list (bytes * json)).

Fixpoint without (l : list (bytes * json)) (name : bytes) : list (bytes * json) :=
  match l with
  | [] => []
  | (n, v) :: l' => if bool_decide (n = name) then without l' name else (n, v) :: without l' name
  end.

#[global] Instance values : Json := {|
  value := json;
  v_null := JNull;
  v_bool := JBool;
  v_num := JNum;
  v_string := JString;
  v_array := JArray;
  v_object := JObject;
  v_get v name := match v with JObject l => assoc l name | _ => None end;
  v_is_object v := match v with JObject _ => true | _ => false end;
  v_as_array v := match v with JArray l => Some l | _ => None end;
  v_as_str v := match v with JString s => Some s | _ => None end;
  v_as_u64 v := match v with JNum n => if (0 <=? n) && (n <=? U64_MAX) then Some n else None | _ => None end;
  v_as_i64 v := match v with JNum n => if (- 2 ^ 63 <=? n) && (n <? 2 ^ 63) then Some n else None | _ => None end;
  v_as_bool v := match v with JBool b => Some b | _ => None end;
  v_set v name x := match v with JObject l => JObject ((name, x) :: l) | _ => v end;
  v_remove v name := match v with JObject l => JObject (without l name) | _ => v end
|}.

Lemma assoc_without l name k : assoc (without l name) k = if decide (name = k) then None else assoc l k.
Proof.
  induction l as [|[n v] l IH]; cbn [without assoc]; [by case_decide|].
  case_bool_decide as Hn; [subst n; rewrite IH; case_decide; [done|by rewrite bool_decide_eq_false_2]|].
  cbn [assoc]. rewrite IH. case_bool_decide; subst; [|done]. by rewrite decide_False.
Qed.

#[global] Instance laws : JsonLaws.
Proof.
  split; cbn; try done.
  - by intros [] k.
  - by intros [].
  - intros [] k x k'; cbn; try done. intros _. case_bool_decide; by case_decide.
  - by intros [].
  - intros [] k k'; try done. intros _. apply assoc_without.
  - intros n Hn. unfold u64_ok in Hn. by rewrite !(proj2 (Z.leb_le _ _)) by lia.
  - intros n Hn. by rewrite (proj2 (Z.leb_le _ _)), (proj2 (Z.ltb_lt _ _)) by lia.
  - intros v k. destruct v; simpl; try done. case_match eqn:Hn; [|done]. intros [= <-]. unfold u64_ok. lia.
Qed.
End JsonModel.
