(* ===== verification/Coordinator.v ===== *)
(** * The transaction coordinator of the backend

    [TransactionCoordinator]: queues of submitted actions per service, batches
    in flight (one lane per service), and the progress of every transaction.
    Every method holds the state's lock from beginning to end, so the methods
    are functions on the state. Times are milliseconds; a method takes the
    readings of the clock it makes as arguments. *)

From S2P Require Import Prelude Ordering Reader Wire ServiceKeys StateView StateDiff Records RefineOutput Ownership Crypto Actions ActionsV2 GuestMemory State Overlays Provider BackendBase Selection JsonValue.
From stdpp Require Import pretty.
Open Scope Z_scope.

Definition DEFAULT_BATCH_MAX_ACTIONS : Z := 4.
Definition DEFAULT_BATCH_FLUSH_MS : Z := 50.
Definition DEFAULT_MAX_QUEUED_PER_SERVICE : Z := 1024.
Definition DEFAULT_MAX_QUEUED_PER_SENDER : Z := 64.
Definition FUTURE_NONCE_RECHECK_DELAY : Z := 1000.

Module Coordinator.
Section Data.
Context `{Json}.

Record LogicalTransaction := mkTransaction {
  lt_service_id : Z; lt_batch_id : option bytes; lt_package_hash : option bytes; lt_action_index : option nat;
  lt_error : option bytes; lt_error_info : option value; lt_submission_unknown : bool; lt_best_included : bool
}.

Record InFlightBatch := mkBatch {
  ib_service_id : Z; ib_logical_transaction_ids : list bytes; ib_package_hash : option bytes;
  ib_predicted_output : option RefineOutput.t; ib_materialized : bool; ib_diagnostics_emitted : bool;
  ib_created_at : Z; ib_last_status : option bytes
}.

Record BatchToSubmit := mkToSubmit {
  ts_batch_id : bytes; ts_actions : list bytes; ts_params : value; ts_extrinsics : list bytes
}.

(** [TransactionCoordinatorState]. *)
Record t := mk {
  next_sequences : gmap Z Z;
  next_arrival_sequence : Z;
  next_batch_id : Z;
  queued : gmap Z (list (PendingAction value));
  flush_deadlines : gmap Z Z;
  flushing : gset Z;
  in_flight : gmap Z bytes;
  transactions : gmap bytes LogicalTransaction;
  batches : gmap bytes InFlightBatch
}.

Definition default_ : t := mk ∅ 0 0 ∅ ∅ ∅ ∅ ∅ ∅.

(** The settings of [TransactionCoordinator]. *)
Record config := mkConfig {
  max_actions : Z; flush_delay : Z; max_queued_per_service : Z; max_queued_per_sender : Z
}.

(** [TransactionCoordinator::new]; the arguments are the environment variables
    that are set to numbers. *)
Definition new (batch_max_actions batch_flush_ms per_service per_sender : option Z) : config * t :=
  (mkConfig (Z.max 1 (default DEFAULT_BATCH_MAX_ACTIONS batch_max_actions))
     (default DEFAULT_BATCH_FLUSH_MS batch_flush_ms)
     (Z.max 1 (default DEFAULT_MAX_QUEUED_PER_SERVICE per_service))
     (Z.max 1 (default DEFAULT_MAX_QUEUED_PER_SENDER per_sender)), default_).

(** Updates of a transaction: [if let Some(t) = transactions.get_mut(id) { .. }]. *)
Definition with_error (error : bytes) (x : LogicalTransaction) : LogicalTransaction :=
  mkTransaction (lt_service_id x) (lt_batch_id x) (lt_package_hash x) (lt_action_index x) (Some error)
    (lt_error_info x) (lt_submission_unknown x) (lt_best_included x).
Definition with_batch (batch_id : bytes) (index : nat) (x : LogicalTransaction) : LogicalTransaction :=
  mkTransaction (lt_service_id x) (Some batch_id) (lt_package_hash x) (Some index) (lt_error x)
    (lt_error_info x) (lt_submission_unknown x) (lt_best_included x).
Definition with_package (package_hash : bytes) (x : LogicalTransaction) : LogicalTransaction :=
  mkTransaction (lt_service_id x) (lt_batch_id x) (Some package_hash) (lt_action_index x) (lt_error x)
    (lt_error_info x) (lt_submission_unknown x) (lt_best_included x).
Definition with_failure (error : bytes) (error_info : option value) (x : LogicalTransaction) : LogicalTransaction :=
  match lt_error x with
  | Some _ => x
  | None => mkTransaction (lt_service_id x) (lt_batch_id x) (lt_package_hash x) (lt_action_index x) (Some error)
              error_info (lt_submission_unknown x) (lt_best_included x)
  end.
Definition with_unknown (error : bytes) (x : LogicalTransaction) : LogicalTransaction :=
  mkTransaction (lt_service_id x) (lt_batch_id x) (lt_package_hash x) (lt_action_index x) (Some error)
    (lt_error_info x) true (lt_best_included x).
Definition with_best (x : LogicalTransaction) : LogicalTransaction :=
  mkTransaction (lt_service_id x) (lt_batch_id x) (lt_package_hash x) (lt_action_index x) (lt_error x)
    (lt_error_info x) (lt_submission_unknown x) true.

(** The same update of several transactions, in order. *)
Definition update_all (f : LogicalTransaction -> LogicalTransaction) (ids : list bytes)
    (m : gmap bytes LogicalTransaction) : gmap bytes LogicalTransaction :=
  fold_left (fun m id => alter f id m) ids m.

Definition set_transactions (m : gmap bytes LogicalTransaction) (s : t) : t :=
  mk (next_sequences s) (next_arrival_sequence s) (next_batch_id s) (queued s) (flush_deadlines s) (flushing s)
    (in_flight s) m (batches s).
Definition set_batches (b : gmap bytes InFlightBatch) (s : t) : t :=
  mk (next_sequences s) (next_arrival_sequence s) (next_batch_id s) (queued s) (flush_deadlines s) (flushing s)
    (in_flight s) (transactions s) b.
Definition set_lanes (f : gset Z) (l : gmap Z bytes) (s : t) : t :=
  mk (next_sequences s) (next_arrival_sequence s) (next_batch_id s) (queued s) (flush_deadlines s) f l
    (transactions s) (batches s).
Definition set_queue (q : gmap Z (list (PendingAction value))) (d : gmap Z Z) (s : t) : t :=
  mk (next_sequences s) (next_arrival_sequence s) (next_batch_id s) q d (flushing s) (in_flight s)
    (transactions s) (batches s).
End Data.

Section Ops.
Context `{Blake2} `{Json} (cfg : config).

(** ** [enqueue] *)

(** Sender, nonce, nonce key and validity of a signed action of either version;
    nothing is verified here. *)
Definition routing (action : bytes) : option bytes * option Z * option bytes * option Z :=
  match ActionV1.decode_signed_action_v1 action with
  | Ok signed =>
      if blen (ActionV1.public_key signed) =? 32
      then (Some (ActionV1.public_key signed), Some (ActionV1.nonce signed),
            Some (nonce_key (ActionV1.public_key signed)), Some (ActionV1.valid_until signed))
      else (None, None, None, Some (ActionV1.valid_until signed))
  | Err _ =>
      match ActionV2.decode_signed_action_v2 action with
      | Ok signed =>
          let owner := default (ActionV2.controller signed) (ActionV2.act_as signed) in
          (match Ownership.key owner with Ok k => Some k | Err _ => None end, Some (ActionV2.nonce signed),
           match ownership_nonce_key owner with Ok k => Some k | Err _ => None end, Some (ActionV2.valid_until signed))
      | Err _ => (None, None, None, None)
      end
  end.

Definition queue_of (s : t) (service_id : Z) : list (PendingAction value) := default [] (queued s !! service_id).

Definition queue_full : BackendError := BE_QueueFull (Z.min U64_MAX (Z.max 100 (flush_delay cfg))).

Definition logical_id (service_id sequence : Z) (action : bytes) : bytes :=
  hash_hex (blake2_256 (to_le_bytes 4 service_id ++ to_le_bytes 8 sequence ++ action)).

(** The strings of [params["extrinsicsBase64"]]. *)
Definition extrinsics_of (params : value) : list bytes :=
  match v_get params (bstr "extrinsicsBase64") ≫= v_as_array with
  | Some items => omap v_as_str items
  | None => []
  end.

Definition enqueue (service_id : Z) (action : bytes) (params : value) (enqueued_at deadline_now : Z) (s : t)
    : result bytes BackendError * t :=
  let '(sender, nonce, nonce_storage_key, valid_until) := routing action in
  let queue := queue_of s service_id in
  let queued_for_sender :=
    match sender with
    | Some sender => blen (filter (fun item => pa_sender item = Some sender) queue)
    | None => 0
    end in
  if (max_queued_per_service cfg <=? blen queue) || (max_queued_per_sender cfg <=? queued_for_sender)
  then (Err queue_full, s)
  else
    let current := default 0 (next_sequences s !! service_id) in
    let id := logical_id service_id current action in
    let item := mkPending id action sender nonce nonce_storage_key valid_until (next_arrival_sequence s)
                  enqueued_at params (extrinsics_of params) in
    (Ok id,
     mk (<[service_id := saturating_add U64_MAX current 1]> (next_sequences s))
       (saturating_add U64_MAX (next_arrival_sequence s) 1) (next_batch_id s)
       (<[service_id := queue ++ [item]]> (queued s))
       (match flush_deadlines s !! service_id with
        | Some _ => flush_deadlines s
        | None => <[service_id := deadline_now + flush_delay cfg]> (flush_deadlines s)
        end)
       (flushing s) (in_flight s)
       (<[id := mkTransaction service_id None None None None None false false]> (transactions s))
       (batches s)).

(** ** Queries *)

Definition lane_busy (s : t) (service_id : Z) : bool :=
  bool_decide (is_Some (in_flight s !! service_id)) || bool_decide (service_id ∈ flushing s).

Definition deadline_reached (s : t) (service_id now : Z) : bool :=
  match flush_deadlines s !! service_id with Some deadline => deadline <=? now | None => false end.

Definition is_batch_ready (service_id now : Z) (s : t) : bool :=
  if lane_busy s service_id then false
  else let queue := blen (queue_of s service_id) in
       negb (queue =? 0) && ((max_actions cfg <=? queue) || deadline_reached s service_id now).

Definition pending_senders (service_id : Z) (s : t) : list (bytes * bytes) :=
  omap (fun item => match pa_sender item, pa_nonce_storage_key item with
                    | Some sender, Some key => Some (sender, key)
                    | _, _ => None
                    end) (queue_of s service_id).

Record InFlightBatchSnapshot := mkSnapshot {
  fs_batch_id : bytes; fs_service_id : Z; fs_package_hash : option bytes; fs_logical_transaction_ids : list bytes;
  fs_materialized : bool; fs_age : Z
}.

(** In the order of the service numbers. *)
Definition in_flight_batches (now : Z) (s : t) : list InFlightBatchSnapshot :=
  omap (fun '(service_id, batch_id) =>
          batch ← batches s !! batch_id;
          Some (mkSnapshot batch_id service_id (ib_package_hash batch) (ib_logical_transaction_ids batch)
                  (ib_materialized batch) (now - ib_created_at batch)))
    (sort_by_key fst (map_to_list (in_flight s))).

Record QueuedTransactionSnapshot := mkQueuedSnapshot {
  qs_transaction_id : bytes; qs_service_id : Z; qs_sender : option bytes; qs_nonce : option Z;
  qs_valid_until : option Z; qs_arrival_sequence : Z; qs_age : Z
}.

Definition queued_transactions (service_id : option Z) (now : Z) (s : t) : list QueuedTransactionSnapshot :=
  concat (map (fun '(id, queue) =>
      map (fun item => mkQueuedSnapshot (pa_logical_id item) id (pa_sender item) (pa_nonce item)
                         (pa_valid_until item) (pa_arrival_sequence item) (now - pa_enqueued_at item)) queue)
    (List.filter (fun e => match service_id with Some id => id =? e.1 | None => true end)
       (sort_by_key fst (map_to_list (queued s))))).

Definition is_flushing (service_id : Z) (s : t) : bool := bool_decide (service_id ∈ flushing s).

Definition queued_services (s : t) : list Z := map fst (sort_by_key fst (map_to_list (queued s))).

Definition transaction (s : t) (id : bytes) : option LogicalTransaction := transactions s !! id.

(** ** [take_ready_batch] *)

Definition EXPIRED : bytes := bstr "EXPIRED_BEFORE_DISPATCH: signed action validity slot has expired".
Definition STALE_NONCE : bytes :=
  bstr "STALE_NONCE: signed action nonce is lower than the canonical expected nonce".

(** [format!("batch-{}", n)]. *)
Definition batch_name (n : Z) : bytes := bstr "batch-" ++ bstr (pretty (Z.to_N n)).

Definition expired (finalized_slot : Z) (item : PendingAction value) : bool :=
  match pa_valid_until item with Some valid_until => finalized_slot >? valid_until | None => false end.

(** The items at some indices, and the items at the others. *)
Definition items_at {A} (l : list A) (indices : list nat) : list A := omap (fun i => l !! i) indices.
Definition items_except {A} (l : list A) (indices : list nat) : list A :=
  omap (fun '(i, x) => if bool_decide (i ∈ indices) then None else Some x) (zip (seq 0 (length l)) l).

(** Batch and position of the chosen transactions. *)
Fixpoint assign_batch (batch_id : bytes) (index : nat) (items : list (PendingAction value))
    (m : gmap bytes LogicalTransaction) : gmap bytes LogicalTransaction :=
  match items with
  | [] => m
  | item :: items' => assign_batch batch_id (S index) items' (alter (with_batch batch_id index) (pa_logical_id item) m)
  end.

(** Opening a batch with the chosen items, the first of which lends its
    parameters. *)
Definition open_batch (service_id : Z) (first : PendingAction value) (selected : list (PendingAction value))
    (created_at : Z) (s : t) : BatchToSubmit * t :=
  let batch_id := batch_name (next_batch_id s) in
  let extrinsics := concat (map pa_extrinsics selected) in
  let params := v_set (pa_params first) (bstr "extrinsicsBase64") (v_array (map v_string extrinsics)) in
  (mkToSubmit batch_id (map pa_action selected) params extrinsics,
   mk (next_sequences s) (next_arrival_sequence s) (saturating_add U64_MAX (next_batch_id s) 1) (queued s)
     (flush_deadlines s) ({[service_id]} ∪ flushing s) (<[service_id := batch_id]> (in_flight s))
     (assign_batch batch_id 0 selected (transactions s))
     (<[batch_id := mkBatch service_id (map pa_logical_id selected) None None false false created_at None]> (batches s))).

(** Sorting the queue out: what expires, is stale, is chosen, and waits on. *)
Record triage := mkTriage {
  tr_expired : list (PendingAction value); tr_stale : list (PendingAction value);
  tr_selected : list (PendingAction value); tr_remaining : list (PendingAction value)
}.

Definition triage_queue (pending : list (PendingAction value)) (expected_nonces : gmap bytes Z) (finalized_slot : Z)
    : triage :=
  let viable := filter (fun item => expired finalized_slot item = false) pending in
  let selection := Selection.select_canonical_indices viable (max_actions cfg) expected_nonces in
  mkTriage (filter (fun item => expired finalized_slot item = true) pending)
    (items_at viable (bs_stale selection)) (items_at viable (bs_selected selection))
    (items_except viable (bs_selected selection ++ bs_stale selection)).

Definition take_ready_batch (service_id : Z) (expected_nonces : gmap bytes Z) (finalized_slot now now_deadline created_at : Z)
    (s : t) : option BatchToSubmit * t :=
  let pending := queue_of s service_id in
  if lane_busy s service_id then (None, s)
  else if (blen pending =? 0) || ((blen pending <? max_actions cfg) && negb (deadline_reached s service_id now))
  then (None, s)
  else if existsb (fun item => match pa_sender item with
                               | Some sender => negb (bool_decide (is_Some (expected_nonces !! sender)))
                               | None => false
                               end) pending
  then (None, set_queue (<[service_id := pending]> (queued s))
                (<[service_id := now_deadline + FUTURE_NONCE_RECHECK_DELAY]> (flush_deadlines s)) s)
  else
    let tr := triage_queue pending expected_nonces finalized_slot in
    let transactions := update_all (with_error EXPIRED) (map pa_logical_id (tr_expired tr)) (transactions s) in
    let transactions := update_all (with_error STALE_NONCE) (map pa_logical_id (tr_stale tr)) transactions in
    let s := set_transactions transactions s in
    let s := match tr_remaining tr with
             | [] => set_queue (delete service_id (queued s)) (delete service_id (flush_deadlines s)) s
             | remaining =>
                 let delay := match tr_selected tr with [] => FUTURE_NONCE_RECHECK_DELAY | _ => flush_delay cfg end in
                 set_queue (<[service_id := remaining]> (queued s))
                   (<[service_id := now_deadline + delay]> (flush_deadlines s)) s
             end in
    match tr_selected tr with
    | [] => (None, s)
    | first :: _ => let '(batch, s) := open_batch service_id first (tr_selected tr) created_at s in (Some batch, s)
    end.

(** ** The end of a batch *)

Definition mark_best_included (id : bytes) (s : t) : t := set_transactions (alter with_best id (transactions s)) s.

(** A batch that is not there stands for service 0 and no transactions. *)
Definition finish_batch (batch_id package_hash : bytes) (prediction : RefineOutput.t) (s : t) : t :=
  let '(service_id, ids, batches) :=
    match batches s !! batch_id with
    | Some b => (ib_service_id b, ib_logical_transaction_ids b,
        <[batch_id := mkBatch (ib_service_id b) (ib_logical_transaction_ids b) (Some package_hash) (Some prediction)
                        (ib_materialized b) (ib_diagnostics_emitted b) (ib_created_at b) (ib_last_status b)]> (batches s))
    | None => (0, [], batches s)
    end in
  let s := set_batches batches s in
  let s := set_transactions (update_all (with_package package_hash) ids (transactions s)) s in
  set_lanes (flushing s ∖ {[service_id]}) (in_flight s) s.

(** [if in_flight.get(&service_id) == Some(batch_id) { in_flight.remove(..) }]. *)
Definition release (service_id : Z) (batch_id : bytes) (s : t) : t :=
  set_lanes (flushing s ∖ {[service_id]})
    (if bool_decide (in_flight s !! service_id = Some batch_id) then delete service_id (in_flight s) else in_flight s) s.

Definition fail_batch_with_info (batch_id error : bytes) (error_info : option value) (s : t) : t :=
  match batches s !! batch_id with
  | None => s
  | Some b =>
      if ib_materialized b then s
      else
        let s := set_transactions
          (update_all (with_failure error error_info) (ib_logical_transaction_ids b) (transactions s)) s in
        release (ib_service_id b) batch_id s
  end.

Definition fail_batch (batch_id error : bytes) (s : t) : t := fail_batch_with_info batch_id error None s.

Definition mark_batch_submission_unknown (batch_id error : bytes) (s : t) : t :=
  match batches s !! batch_id with
  | None => s
  | Some b => set_transactions (update_all (with_unknown error) (ib_logical_transaction_ids b) (transactions s)) s
  end.

Definition mark_materialized (batch_id : bytes) (s : t) : t :=
  match batches s !! batch_id with
  | None => s
  | Some b =>
      if ib_materialized b then s
      else
        let b' := mkBatch (ib_service_id b) (ib_logical_transaction_ids b) (ib_package_hash b) (ib_predicted_output b)
                    true (ib_diagnostics_emitted b) (ib_created_at b) (ib_last_status b) in
        release (ib_service_id b) batch_id (set_batches (<[batch_id := b']> (batches s)) s)
  end.

(** Whether the status is new. *)
Definition record_batch_status (batch_id status : bytes) (s : t) : bool * t :=
  match batches s !! batch_id with
  | None => (false, s)
  | Some b =>
      if bool_decide (ib_last_status b = Some status) then (false, s)
      else (true, set_batches (<[batch_id := mkBatch (ib_service_id b) (ib_logical_transaction_ids b) (ib_package_hash b)
              (ib_predicted_output b) (ib_materialized b) (ib_diagnostics_emitted b) (ib_created_at b)
              (Some status)]> (batches s)) s)
  end.

(** [emit_diagnostics], with the setting [MINIJAM_E2E_DIAGNOSTICS]; only the flag is
    state. *)
Definition emit_diagnostics (setting : Z) (batch_id : bytes) (s : t) : t :=
  if negb (setting =? 1) then s
  else match batches s !! batch_id with
  | Some b =>
      if ib_diagnostics_emitted b then s
      else match ib_predicted_output b with
           | Some _ => set_batches (<[batch_id := mkBatch (ib_service_id b) (ib_logical_transaction_ids b)
               (ib_package_hash b) (ib_predicted_output b) (ib_materialized b) true (ib_created_at b)
               (ib_last_status b)]> (batches s)) s
           | None => s
           end
  | None => s
  end.
End Ops.
End Coordinator.
