(* ===== verification/CoordinatorInvariant.v ===== *)
(** * The coordinator's invariant

    Every transaction is in one place: waiting in its service's queue, rejected,
    or at one position of one batch. Every service has at most one batch in
    flight, and only the failure or the materialization of that batch frees the
    lane. *)

From S2P Require Import Prelude Ordering Reader Wire ServiceKeys StateView StateDiff Records RefineOutput Ownership Crypto Actions ActionsV2 GuestMemory State Overlays Provider BackendBase Selection Coordinator JsonValue.
From stdpp Require Import pretty.
Open Scope Z_scope.
Import Coordinator.

(** ** Splitting a list by indices *)

Section Split.
Context {A : Type}.
Implicit Types (l : list A) (idx : list nat).

Lemma items_except_filter l idx :
  items_except l idx = omap (fun i => l !! i) (filter (fun i => i ∉ idx) (seq 0 (length l))).
Proof.
  unfold items_except. change l with ([] ++ l) at 3. change 0%nat with (@length A []).
  generalize (@nil A) as pre. induction l as [|x l IH]; intros pre; [done|].
  cbn [length seq zip zip_with omap list_omap]. rewrite filter_cons.
  specialize (IH (pre ++ [x])). rewrite <- (assoc_L (++)), length_app in IH. cbn [length app] in IH.
  rewrite Nat.add_1_r in IH. unfold zip in IH. unfold omap in IH.
  assert ((pre ++ x :: l) !! length pre = Some x) as Hx by (by rewrite lookup_app_r, Nat.sub_diag by done).
  destruct (decide (length pre ∈ idx)) as [Hin|Hin].
  - rewrite bool_decide_eq_true_2 by done. rewrite decide_False by (by intros []). exact IH.
  - rewrite bool_decide_eq_false_2 by done. rewrite decide_True by done. cbn [omap list_omap]. rewrite Hx. f_equal. exact IH.
Qed.

Lemma omap_seq l : omap (fun i => l !! i) (seq 0 (length l)) = l.
Proof.
  change l with ([] ++ l) at 1. change 0%nat with (@length A []). generalize (@nil A) as pre.
  induction l as [|x l IH]; intros pre; [done|]. cbn [length seq omap list_omap].
  rewrite lookup_app_r, Nat.sub_diag by done. cbn. f_equal. specialize (IH (pre ++ [x])).
  rewrite <- (assoc_L (++)), length_app, Nat.add_1_r in IH. exact IH.
Qed.

Lemma seq_split n idx :
  NoDup idx -> (forall i, i ∈ idx -> (i < n)%nat) -> seq 0 n ≡ₚ idx ++ filter (fun i => i ∉ idx) (seq 0 n).
Proof.
  intros Hnd Hb. rewrite <- (filter_app_complement (fun i => i ∈ idx) (seq 0 n)) at 1. apply Permutation_app_tail.
  apply NoDup_Permutation; [apply NoDup_filter, NoDup_seq|done|]. intros i. rewrite list_elem_of_filter, elem_of_seq.
  split; [by intros []|]. intros Hi. split; [done|]. specialize (Hb i Hi). lia.
Qed.

Lemma items_split l idx :
  NoDup idx -> (forall i, i ∈ idx -> (i < length l)%nat) -> l ≡ₚ items_at l idx ++ items_except l idx.
Proof.
  intros Hnd Hb. rewrite items_except_filter. unfold items_at. rewrite <- omap_app, <- (seq_split (length l)) by done.
  by rewrite omap_seq.
Qed.

Lemma items_at_app l idx idx' : items_at l (idx ++ idx') = items_at l idx ++ items_at l idx'.
Proof. apply omap_app. Qed.

Lemma items_except_sublist l idx : items_except l idx `sublist_of` l.
Proof.
  unfold items_except. generalize 0%nat. induction l as [|x l IH]; intros k; [done|].
  cbn [length seq zip zip_with omap list_omap]. case_bool_decide; [by apply sublist_cons|by apply sublist_skip].
Qed.
End Split.

(** ** Updates of transactions *)

Section Updates.
Context `{Json}.

Lemma update_all_lookup (f : LogicalTransaction -> LogicalTransaction) (ids : list bytes)
    (m : gmap bytes LogicalTransaction) (id : bytes) :
  NoDup ids -> update_all f ids m !! id = (if decide (id ∈ ids) then f <$> m !! id else m !! id).
Proof.
  unfold update_all. revert m. induction ids as [|x ids IH]; intros m Hnd; cbn [fold_left].
  { by rewrite decide_False by apply not_elem_of_nil. }
  apply NoDup_cons in Hnd as [Hx Hnd]. rewrite IH by done. destruct (decide (id = x)) as [->|Hne].
  - rewrite decide_False by done. rewrite decide_True by set_solver. by rewrite lookup_alter_eq.
  - rewrite lookup_alter_ne by done. destruct (decide (id ∈ ids)); [rewrite decide_True by set_solver|rewrite decide_False by set_solver]; done.
Qed.

Lemma assign_batch_other b items : forall k (m : gmap bytes LogicalTransaction) id,
  id ∉ map pa_logical_id items -> assign_batch b k items m !! id = m !! id.
Proof.
  induction items as [|x items IH]; intros k m id Hid; [done|]. cbn [assign_batch map] in *.
  apply not_elem_of_cons in Hid as [Hx Hid]. rewrite IH by done. by rewrite lookup_alter_ne.
Qed.

Lemma assign_batch_lookup b items : forall k (m : gmap bytes LogicalTransaction) i id,
  NoDup (map pa_logical_id items) -> map pa_logical_id items !! i = Some id ->
  assign_batch b k items m !! id = with_batch b (k + i) <$> m !! id.
Proof.
  induction items as [|x items IH]; intros k m i id Hnd Hi; [done|]. cbn [assign_batch map] in *.
  apply NoDup_cons in Hnd as [Hx Hnd]. destruct i as [|i]; simpl in Hi.
  - injection Hi as <-. rewrite assign_batch_other by done. rewrite lookup_alter_eq. by rewrite Nat.add_0_r.
  - rewrite (IH (S k) _ i id) by done. replace (S k + i)%nat with (k + S i)%nat by lia.
    rewrite lookup_alter_ne; [done|]. intros <-. apply Hx. by eapply list_elem_of_lookup_2.
Qed.
End Updates.

Lemma bstr_inj s s' : bstr s = bstr s' -> s = s'.
Proof.
  unfold bstr. intros Hs. apply (f_equal String.string_of_list_byte) in Hs.
  by rewrite !String.string_of_list_byte_of_string in Hs.
Qed.

Lemma batch_name_inj n n' : 0 <= n -> 0 <= n' -> batch_name n = batch_name n' -> n = n'.
Proof.
  unfold batch_name. intros Hn Hn' Heq%app_inv_head%bstr_inj. apply (inj pretty) in Heq. lia.
Qed.

(** ** The invariant *)

Section Invariant.
Context `{Blake2} `{Json} (cfg : config).

(** The action waits for its turn: no batch and no error yet. *)
Definition waiting (s : t) (service_id : Z) (id : bytes) : Prop :=
  exists x, transactions s !! id = Some x /\ lt_service_id x = service_id /\ lt_batch_id x = None /\ lt_error x = None.

Record queue_ok (q : list (PendingAction value)) : Prop := {
  queue_nonempty : q <> [];
  queue_nodup : NoDup (map pa_logical_id q);
  queue_service : blen q <= max_queued_per_service cfg;
  queue_sender sender : blen (filter (fun item => pa_sender item = Some sender) q) <= max_queued_per_sender cfg
}.

Record batch_ok (s : t) (b : bytes) (B : InFlightBatch) : Prop := {
  batch_named : exists n, 0 <= n < next_batch_id s /\ b = batch_name n;
  batch_nonempty : ib_logical_transaction_ids B <> [];
  batch_nodup : NoDup (ib_logical_transaction_ids B);
  batch_members i id : ib_logical_transaction_ids B !! i = Some id ->
    exists x, transactions s !! id = Some x /\ lt_service_id x = ib_service_id B /\ lt_batch_id x = Some b
      /\ lt_action_index x = Some i
}.

(** Where a transaction is. *)
Definition placed (s : t) (id : bytes) (x : LogicalTransaction) : Prop :=
  match lt_batch_id x with
  | Some b => exists B i, batches s !! b = Some B /\ lt_action_index x = Some i
                /\ ib_logical_transaction_ids B !! i = Some id
  | None => lt_error x = None -> exists q, queued s !! lt_service_id x = Some q /\ id ∈ map pa_logical_id q
  end.

(** The invariant, with some waiting transactions of a service taken out of its
    queue and not yet in a batch. *)
Record ok_but (service_id : Z) (taken : list bytes) (s : t) : Prop := {
  ok_lane id b : in_flight s !! id = Some b ->
    exists B, batches s !! b = Some B /\ ib_service_id B = id /\ ib_materialized B = false;
  ok_flushing id : id ∈ flushing s -> is_Some (in_flight s !! id);
  ok_queue id q : queued s !! id = Some q -> queue_ok q;
  ok_deadline : dom (flush_deadlines s) = dom (queued s);
  ok_waiting id q x : queued s !! id = Some q -> x ∈ map pa_logical_id q -> waiting s id x /\ x ∉ taken;
  ok_batch b B : batches s !! b = Some B -> batch_ok s b B;
  ok_placed id x : transactions s !! id = Some x -> id ∉ taken -> placed s id x;
  ok_taken id : id ∈ taken -> waiting s service_id id;
  ok_next : 0 <= next_batch_id s
}.

Definition ok (s : t) : Prop := ok_but 0 [] s.

Lemma ok_but_nil service_id s : ok_but service_id [] s -> ok s.
Proof. intros []. split; try done. intros id Hid. by apply elem_of_nil in Hid. Qed.

Lemma ok_start : ok default_.
Proof. split; simpl; try set_solver; try done. Qed.

(** *** Updates that leave every transaction in its place *)

Definition same_place (x x' : LogicalTransaction) : Prop :=
  lt_service_id x' = lt_service_id x /\ lt_batch_id x' = lt_batch_id x /\ lt_action_index x' = lt_action_index x
  /\ (lt_batch_id x = None -> lt_error x' = lt_error x).

Lemma ok_transactions s m :
  ok s -> (forall id, option_Forall2 same_place (transactions s !! id) (m !! id)) -> ok (set_transactions m s).
Proof.
  intros Hok Hm. split; try apply Hok.
  - intros id q x Hq Hx. destruct (ok_waiting _ _ _ Hok id q x Hq Hx) as [(y & Hy & Hs & Hb & He) Hn]. split; [|done].
    pose proof (Hm x) as Hmx. rewrite Hy in Hmx. inversion Hmx as [? y' (E1 & E2 & E3 & E4)|]; subst.
    exists y'. simpl. split_and!; [done|congruence..|]. rewrite E4 by done. done.
  - intros b B HB. destruct (ok_batch _ _ _ Hok b B HB) as [? ? ? Hmem]. split; try done.
    intros i id Hi. destruct (Hmem i id Hi) as (y & Hy & Hs & Hb & Hx). pose proof (Hm id) as Hmx. rewrite Hy in Hmx.
    inversion Hmx as [? y' (E1 & E2 & E3 & E4)|]; subst. exists y'. simpl. split_and!; congruence.
  - intros id x Hx Hn. simpl in Hx. pose proof (Hm id) as Hmx. rewrite Hx in Hmx.
    inversion Hmx as [y ? (E1 & E2 & E3 & E4) Hy|]; subst.
    pose proof (ok_placed _ _ _ Hok id y (eq_sym Hy) Hn) as Hp. unfold placed in *. rewrite E1, E2, E3. simpl.
    destruct (lt_batch_id y); [done|]. by rewrite E4.
  - intros id Hid. by apply elem_of_nil in Hid.
Qed.

Lemma same_place_refl (o : option LogicalTransaction) : option_Forall2 same_place o o.
Proof. destruct o; constructor. by split_and!. Qed.

(** Updates of the transactions of a batch. *)
Lemma ok_update_batch s b B (f : LogicalTransaction -> LogicalTransaction) :
  ok s -> batches s !! b = Some B ->
  (forall x, lt_service_id (f x) = lt_service_id x /\ lt_batch_id (f x) = lt_batch_id x
     /\ lt_action_index (f x) = lt_action_index x) ->
  ok (set_transactions (update_all f (ib_logical_transaction_ids B) (transactions s)) s).
Proof.
  intros Hok HB Hf. destruct (ok_batch _ _ _ Hok b B HB) as [_ _ Hnd Hmem]. apply ok_transactions; [done|].
  intros id. rewrite update_all_lookup by done. case_decide as Hin; [|apply same_place_refl].
  apply list_elem_of_lookup in Hin as [i Hi]. destruct (Hmem i id Hi) as (x & Hx & _ & Hb & _). rewrite Hx. constructor.
  destruct (Hf x) as (? & ? & ?). split_and!; try done. congruence.
Qed.

(** *** Updates of a batch *)

Definition same_batch (B B' : InFlightBatch) : Prop :=
  ib_service_id B' = ib_service_id B /\ ib_logical_transaction_ids B' = ib_logical_transaction_ids B.

Lemma batch_ok_insert s b B B' :
  ok s -> batches s !! b = Some B -> same_batch B B' ->
  forall b' C, <[b := B']> (batches s) !! b' = Some C -> batch_ok s b' C.
Proof.
  intros Hok HB [E1 E2] b' C HC. destruct (decide (b = b')) as [<-|Hne].
  - rewrite lookup_insert_eq in HC. injection HC as <-. destruct (ok_batch _ _ _ Hok b B HB) as [? ? ? ?].
    by split; rewrite ?E1, ?E2.
  - rewrite lookup_insert_ne in HC by done. by apply (ok_batch _ _ _ Hok).
Qed.

Lemma placed_insert s b B B' id x :
  batches s !! b = Some B -> same_batch B B' -> placed s id x -> placed (set_batches (<[b := B']> (batches s)) s) id x.
Proof.
  intros HB [E1 E2]. unfold placed. destruct (lt_batch_id x) as [b'|]; [|done]. intros (C & i & HC & Hi & Hid). simpl.
  destruct (decide (b = b')) as [<-|Hne].
  - exists B', i. rewrite lookup_insert_eq, E2. by simplify_eq.
  - exists C, i. by rewrite lookup_insert_ne.
Qed.

Lemma ok_set_batch s b B B' :
  ok s -> batches s !! b = Some B -> same_batch B B' -> ib_materialized B' = ib_materialized B ->
  ok (set_batches (<[b := B']> (batches s)) s).
Proof.
  intros Hok HB HB' Hmat. split; try apply Hok.
  - intros id b' Hb'. destruct (ok_lane _ _ _ Hok id b' Hb') as (C & HC & Hs & Hm). simpl.
    destruct (decide (b = b')) as [<-|Hne].
    + exists B'. rewrite lookup_insert_eq. simplify_eq. destruct HB'. split_and!; congruence.
    + exists C. by rewrite lookup_insert_ne.
  - intros b' C HC. pose proof (batch_ok_insert s b B B' Hok HB HB' b' C HC) as []. by split.
  - intros id x Hx Hn. eapply placed_insert; [done..|]. by apply (ok_placed _ _ _ Hok).
Qed.

Lemma ok_release s b B B' :
  ok s -> batches s !! b = Some B -> same_batch B B' ->
  ok (release (ib_service_id B) b (set_batches (<[b := B']> (batches s)) s)).
Proof.
  intros Hok HB HB'. split; try apply Hok.
  - intros id b' Hb'. simpl in *.
    assert (in_flight s !! id = Some b' /\ (id = ib_service_id B -> b' <> b)) as [Hid Hne].
    { destruct (bool_decide_reflect (in_flight s !! ib_service_id B = Some b)) as [Hl|Hl]; [|split; [done|congruence]].
      apply lookup_delete_Some in Hb' as [? ?]. split; [done|congruence]. }
    destruct (ok_lane _ _ _ Hok id b' Hid) as (C & HC & Hs & Hm). exists C. rewrite lookup_insert_ne; [done|].
    intros <-. simplify_eq. by apply Hne.
  - intros id Hid. simpl in *. apply elem_of_difference in Hid as [Hid Hne]. apply not_elem_of_singleton in Hne.
    destruct (ok_flushing _ _ _ Hok id Hid) as [b' Hb']. case_bool_decide; [rewrite lookup_delete_ne by done|]; by exists b'.
  - intros b' C HC. pose proof (batch_ok_insert s b B B' Hok HB HB' b' C HC) as []. by split.
  - intros id x Hx Hn. pose proof (ok_placed _ _ _ Hok id x Hx Hn) as Hp.
    exact (placed_insert s b B B' id x HB HB' Hp).
Qed.

Lemma ok_fewer_flushing s f : ok s -> f ⊆ flushing s -> ok (set_lanes f (in_flight s) s).
Proof.
  intros Hok Hf. split; try apply Hok.
  - intros id Hid. apply (ok_flushing _ _ _ Hok). set_solver.
  - intros b B HB. destruct (ok_batch _ _ _ Hok b B HB). by split.
Qed.

(** *** [enqueue] *)

Lemma fresh_not_queued s id q x :
  ok s -> transactions s !! x = None -> queued s !! id = Some q -> x ∉ map pa_logical_id q.
Proof. intros Hok Hx Hq Hin. destruct (ok_waiting _ _ _ Hok id q x Hq Hin) as [(y & Hy & _) _]. congruence. Qed.

Lemma blen_snoc {A} (l : list A) x : blen (l ++ [x]) = blen l + 1.
Proof. unfold blen. rewrite length_app. simpl. lia. Qed.

Lemma queue_ok_snoc q item :
  (q = [] \/ queue_ok q) -> blen q < max_queued_per_service cfg ->
  (forall sender, pa_sender item = Some sender ->
     blen (filter (fun item => pa_sender item = Some sender) q) < max_queued_per_sender cfg) ->
  0 <= max_queued_per_sender cfg -> pa_logical_id item ∉ map pa_logical_id q -> queue_ok (q ++ [item]).
Proof.
  intros Hq Hs Hsender Hmax Hnew. split.
  - by destruct q.
  - rewrite map_app, NoDup_app. simpl. destruct Hq as [->|[]]; split_and!; try done; try apply NoDup_nil_2; try set_solver; try apply NoDup_singleton.
  - rewrite blen_snoc. lia.
  - intros sender. rewrite filter_app, filter_cons, filter_nil. case_decide as Hcase.
    + rewrite blen_snoc. specialize (Hsender sender Hcase). lia.
    + rewrite app_nil_r. destruct Hq as [->|[]]; [done|auto].
Qed.

(** What [enqueue] does when the queue has room. *)
Lemma enqueue_ok_inv service_id action params at_ deadline s id s' :
  enqueue cfg service_id action params at_ deadline s = (Ok id, s') ->
  let item := mkPending id action (routing action).1.1.1 (routing action).1.1.2 (routing action).1.2 (routing action).2
                (next_arrival_sequence s) at_ params (extrinsics_of params) in
  id = logical_id service_id (default 0 (next_sequences s !! service_id)) action
  /\ blen (queue_of s service_id) < max_queued_per_service cfg
  /\ (forall sender, pa_sender item = Some sender ->
        blen (filter (fun item => pa_sender item = Some sender) (queue_of s service_id)) < max_queued_per_sender cfg)
  /\ queued s' = <[service_id := queue_of s service_id ++ [item]]> (queued s)
  /\ dom (flush_deadlines s') = {[service_id]} ∪ dom (flush_deadlines s)
  /\ transactions s' = <[id := mkTransaction service_id None None None None None false false]> (transactions s)
  /\ flushing s' = flushing s /\ in_flight s' = in_flight s /\ batches s' = batches s
  /\ next_batch_id s' = next_batch_id s.
Proof.
  unfold enqueue. destruct (routing action) as [[[sender nonce] key] valid]. simpl.
  destruct (max_queued_per_service cfg <=? blen (queue_of s service_id)) eqn:Hq; [done|]. cbn [orb].
  destruct (max_queued_per_sender cfg <=? _) eqn:Hs; [done|]. intros [= <- <-]. simpl. apply Z.leb_gt in Hq, Hs.
  split_and!; try done.
  - intros sender' ->. done.
  - destruct (flush_deadlines s !! service_id) eqn:Hd; [|by rewrite dom_insert_L].
    apply elem_of_dom_2 in Hd. set_solver.
Qed.

Lemma enqueue_err service_id action params at_ deadline s e s' :
  enqueue cfg service_id action params at_ deadline s = (Err e, s') -> s' = s /\ e = queue_full cfg.
Proof.
  unfold enqueue. destruct (routing action) as [[[sender nonce] key] valid].
  case_match; [|done]. by intros [= <- <-].
Qed.

Lemma ok_enqueue service_id action params at_ deadline s :
  ok s -> 0 <= max_queued_per_sender cfg ->
  transactions s !! logical_id service_id (default 0 (next_sequences s !! service_id)) action = None ->
  ok (enqueue cfg service_id action params at_ deadline s).2.
Proof.
  intros Hok Hmax Hfresh. destruct (enqueue cfg service_id action params at_ deadline s) as [[id|e] s'] eqn:He; simpl.
  2: by apply enqueue_err in He as [-> _].
  apply enqueue_ok_inv in He as (Hid & Hroom & Hsender & Eq & Ed & Et & Ef & El & Eb & En). rewrite <- Hid in Hfresh.
  set (item := mkPending id _ _ _ _ _ _ _ _ _) in *.
  assert (forall sid q, queued s !! sid = Some q -> id ∉ map pa_logical_id q) as Hnotin
    by (intros; by eapply fresh_not_queued).
  assert (forall x, x <> id -> transactions s' !! x = transactions s !! x) as Hother
    by (intros; by rewrite Et, lookup_insert_ne).
  split.
  - rewrite El, Eb. apply Hok.
  - rewrite Ef, El. apply Hok.
  - intros sid q. rewrite Eq. destruct (decide (service_id = sid)) as [<-|Hne].
    + rewrite lookup_insert_eq. intros [= <-]. apply queue_ok_snoc; try done; unfold queue_of;
        destruct (queued s !! service_id) as [q|] eqn:Hq; simpl.
      * right. by apply (ok_queue _ _ _ Hok service_id).
      * by left.
      * by apply (Hnotin service_id).
      * apply not_elem_of_nil.
    + rewrite lookup_insert_ne by done. apply (ok_queue _ _ _ Hok).
  - rewrite Ed, Eq, dom_insert_L. by rewrite (ok_deadline _ _ _ Hok).
  - intros sid q x. rewrite Eq. intros Hq Hx. split; [|apply not_elem_of_nil].
    destruct (decide (x = id)) as [->|Hne].
    + destruct (decide (service_id = sid)) as [<-|Hne]; [|rewrite lookup_insert_ne in Hq by done; by apply Hnotin in Hq].
      eexists. rewrite Et, lookup_insert_eq. split; [done|]. done.
    + unfold waiting. rewrite Hother by done. destruct (decide (service_id = sid)) as [<-|Hns].
      * rewrite lookup_insert_eq in Hq. injection Hq as <-. rewrite map_app in Hx.
        apply elem_of_app in Hx as [Hx|Hx%list_elem_of_singleton]; [|by subst x]. unfold queue_of in Hx.
        destruct (queued s !! service_id) as [q|] eqn:Hq; [|by apply elem_of_nil in Hx].
        by apply (ok_waiting _ _ _ Hok service_id q).
      * rewrite lookup_insert_ne in Hq by done. by apply (ok_waiting _ _ _ Hok sid q).
  - rewrite Eb. intros b B HB. destruct (ok_batch _ _ _ Hok b B HB) as [H1 H2 H3 H4]. split; rewrite ?En; try done.
    intros i x Hx. destruct (H4 i x Hx) as (y & Hy & Hrest). exists y. rewrite Hother; [done|]. congruence.
  - intros x y Hy _. destruct (decide (x = id)) as [->|Hne].
    + rewrite Et, lookup_insert_eq in Hy. injection Hy as <-. intros _. simpl.
      eexists. rewrite Eq, lookup_insert_eq. split; [done|]. rewrite map_app. set_solver.
    + rewrite Hother in Hy by done. pose proof (ok_placed _ _ _ Hok x y Hy (not_elem_of_nil _)) as Hp. unfold placed in *.
      rewrite Eb, Eq. destruct (lt_batch_id y); [done|]. intros He. destruct (Hp He) as (q & Hq & Hx).
      destruct (decide (service_id = lt_service_id y)) as [Hs|Hs]; [|exists q; by rewrite lookup_insert_ne].
      rewrite <- Hs in *. eexists. rewrite lookup_insert_eq. split; [done|]. unfold queue_of. rewrite Hq. simpl.
      rewrite map_app. set_solver.
  - intros x Hx. by apply elem_of_nil in Hx.
  - rewrite En. apply Hok.
Qed.

(** *** [take_ready_batch] *)

Lemma triage_perm pending nonces slot :
  let tr := triage_queue cfg pending nonces slot in
  pending ≡ₚ (tr_expired tr ++ tr_stale tr) ++ tr_selected tr ++ tr_remaining tr.
Proof.
  unfold triage_queue. cbv zeta. cbn [tr_expired tr_stale tr_selected tr_remaining].
  set (viable := filter (fun item => expired slot item = false) pending).
  set (sel := Selection.select_canonical_indices viable (max_actions cfg) nonces).
  pose proof (Selection.select_shape viable (max_actions cfg) nonces) as Hshape.
  change (Selection.selected _) with (bs_selected sel) in Hshape. change (Selection.stale _) with (bs_stale sel) in Hshape.
  rewrite <- (filter_app_complement (fun item => expired slot item = true) pending) at 1. rewrite <- (assoc_L (++)).
  apply Permutation_app_head. rewrite (list_filter_iff _ (fun item => expired slot item = false)).
  2: intros item; by destruct (expired slot item).
  fold viable. rewrite (items_split viable (bs_selected sel ++ bs_stale sel)) at 1 by apply Hshape.
  rewrite items_at_app, !(assoc_L (++)). apply Permutation_app_tail, Permutation_app_comm.
Qed.

Lemma queue_ok_part q removed rest : queue_ok q -> q ≡ₚ removed ++ rest -> rest <> [] -> queue_ok rest.
Proof.
  intros [Hne Hnd Hs Hsender] Hp Hrest. split; [done|..].
  - rewrite Hp, map_app in Hnd. by apply NoDup_app in Hnd as (_ & _ & ?).
  - apply Permutation_length in Hp. rewrite length_app in Hp. unfold blen in *. lia.
  - intros sender. specialize (Hsender sender).
    pose proof (Permutation_length (filter_Permutation (fun item => pa_sender item = Some sender) _ _ Hp)) as Hl.
    rewrite filter_app, length_app in Hl. unfold blen in *. lia.
Qed.

(** Transactions that are given an error, the others unchanged. *)
Definition rejects (ids : list bytes) (m m' : gmap bytes LogicalTransaction) : Prop :=
  forall id, m' !! id = m !! id /\ id ∉ ids \/ id ∈ ids /\ exists error, m' !! id = with_error error <$> m !! id.

Lemma update_all_rejects (error : bytes) (ids : list bytes) (error' : bytes) (ids' : list bytes) (m : gmap bytes LogicalTransaction) :
  NoDup (ids ++ ids') ->
  rejects (ids ++ ids') m (update_all (with_error error') ids' (update_all (with_error error) ids m)).
Proof.
  intros (Hnd & Hdisj & Hnd')%NoDup_app id. rewrite !update_all_lookup by done.
  destruct (decide (id ∈ ids')) as [Hin'|Hnin']; destruct (decide (id ∈ ids)) as [Hin|Hnin]; [by apply Hdisj in Hin|..].
  - right. split; [set_solver|]. by exists error'.
  - right. split; [set_solver|]. by exists error.
  - left. split; [done|set_solver].
Qed.

(** The queue and the deadlines after the rest of a queue is put back. *)
Definition requeue (service_id : Z) (rest : list (PendingAction value)) (deadline : Z) (s : t) : t :=
  match rest with
  | [] => set_queue (delete service_id (queued s)) (delete service_id (flush_deadlines s)) s
  | _ => set_queue (<[service_id := rest]> (queued s)) (<[service_id := deadline]> (flush_deadlines s)) s
  end.

Lemma requeue_queued service_id rest deadline s :
  queued (requeue service_id rest deadline s)
  = (match rest with [] => delete service_id (queued s) | _ => <[service_id := rest]> (queued s) end).
Proof. by destruct rest. Qed.

Lemma requeue_lookup service_id rest deadline s id q :
  queued (requeue service_id rest deadline s) !! id = Some q ->
  (id = service_id /\ q = rest /\ rest <> []) \/ (id <> service_id /\ queued s !! id = Some q).
Proof.
  rewrite requeue_queued. destruct (decide (service_id = id)) as [<-|Hne].
  - destruct rest; [by rewrite lookup_delete_eq|]. rewrite lookup_insert_eq. intros [= <-]. by left.
  - destruct rest; [rewrite lookup_delete_ne by done|rewrite lookup_insert_ne by done]; auto.
Qed.

Lemma ok_requeue s service_id q rejected taken rest m deadline :
  ok s -> queued s !! service_id = Some q -> q ≡ₚ rejected ++ taken ++ rest ->
  rejects (map pa_logical_id rejected) (transactions s) m ->
  ok_but service_id (map pa_logical_id taken) (requeue service_id rest deadline (set_transactions m s)).
Proof.
  intros Hok Hq Hp Hm. pose proof (ok_queue _ _ _ Hok _ _ Hq) as Hqok.
  pose proof (queue_nodup q Hqok) as Hnd. pose proof (Permutation_map pa_logical_id Hp) as Hids.
  rewrite !map_app in Hids. rewrite Hids in Hnd.
  apply NoDup_app in Hnd as (_ & Hrej & Hnd). apply NoDup_app in Hnd as (_ & Htak & _).
  assert (forall x, x ∈ map pa_logical_id q <-> x ∈ map pa_logical_id rejected \/ x ∈ map pa_logical_id taken
    \/ x ∈ map pa_logical_id rest) as Hin by (intros x; by rewrite Hids, !elem_of_app).
  assert (forall x, x ∈ map pa_logical_id rejected -> x ∉ map pa_logical_id taken /\ x ∉ map pa_logical_id rest)
    as Hrej' by (intros x Hx; by apply Hrej, not_elem_of_app in Hx).
  clear Hids Hrej. set (s' := requeue _ _ _ _).
  assert (transactions s' = m /\ batches s' = batches s /\ in_flight s' = in_flight s /\ flushing s' = flushing s
          /\ next_batch_id s' = next_batch_id s /\ dom (flush_deadlines s') = dom (queued s'))
    as (Et & Eb & El & Ef & En & Ed).
  { unfold s'. destruct rest; simpl; split_and!; try done; rewrite ?dom_delete_L, ?dom_insert_L;
      by rewrite (ok_deadline _ _ _ Hok). }
  assert (forall id x, queued s !! id = Some q -> x ∈ map pa_logical_id q -> waiting s id x) as Hwait
    by (intros; by apply (ok_waiting _ _ _ Hok id q)).
  assert (forall id x, x ∉ map pa_logical_id rejected -> waiting s id x -> waiting s' id x) as Hkeep.
  { intros id x Hx (y & Hy & Hrest). exists y. rewrite Et. destruct (Hm x) as [[-> _]|[? _]]; [by split|done]. }
  assert (forall x, x ∈ map pa_logical_id rejected -> waiting s service_id x) as Hrejw.
  { intros x Hx. apply Hwait; [done|]. apply Hin. by left. }
  split.
  - rewrite El, Eb. apply Hok.
  - rewrite El, Ef. apply Hok.
  - intros id q' [(-> & -> & Hne)|[_ Hq']]%requeue_lookup; [|by apply (ok_queue _ _ _ Hok id)].
    eapply (queue_ok_part q (rejected ++ taken)); [done| |done]. by rewrite <- (assoc_L (++)).
  - done.
  - intros id q' x Hq' Hx. apply requeue_lookup in Hq' as [(-> & -> & Hne)|[Hne Hq']].
    + split; [apply Hkeep; [|apply Hwait; [done|]]|]; naive_solver.
    + destruct (ok_waiting _ _ _ Hok id q' x Hq' Hx) as [Hw _].
      assert (x ∉ map pa_logical_id q) as Hnot.
      { intros Hin'. destruct (Hwait _ _ Hq Hin') as (? & ? & ? & _), Hw as (? & ? & ? & _). congruence. }
      rewrite Hin in Hnot. split; [apply Hkeep; [|done]|]; naive_solver.
  - intros b B HB. rewrite Eb in HB. destruct (ok_batch _ _ _ Hok b B HB) as [H1 H2 H3 H4]. split; rewrite ?En; try done.
    intros i x Hx. destruct (H4 i x Hx) as (y & Hy & Hs & Hb & Hi). exists y. rewrite Et.
    destruct (Hm x) as [[-> _]|[Hx' _]]; [done|]. destruct (Hrejw x Hx') as (? & ? & ? & ? & _). congruence.
  - intros x y Hy Hnt. rewrite Et in Hy. destruct (Hm x) as [[Hsame Hnr]|[Hx' [error He]]].
    + rewrite Hsame in Hy. pose proof (ok_placed _ _ _ Hok x y Hy (not_elem_of_nil _)) as Hplace. unfold placed in *.
      rewrite Eb. destruct (lt_batch_id y); [done|]. intros Herr. destruct (Hplace Herr) as (q' & Hq' & Hx).
      unfold s'. rewrite requeue_queued. destruct (decide (service_id = lt_service_id y)) as [Hs|Hs].
      * assert (x ∈ map pa_logical_id rest) as Hrest by (rewrite <- Hs in Hq'; simplify_eq; naive_solver).
        rewrite <- Hs. exists rest. destruct rest; [by apply elem_of_nil in Hrest|]. by rewrite lookup_insert_eq.
      * exists q'. destruct rest; [rewrite lookup_delete_ne by done|rewrite lookup_insert_ne by done]; done.
    + destruct (Hrejw x Hx') as (y' & Hy' & Hs' & Hb' & He'). rewrite He, Hy' in Hy. injection Hy as <-.
      unfold placed. simpl. rewrite Hb'. done.
  - intros x Hx. apply Hkeep; [|apply Hwait; [done|]]; naive_solver.
  - rewrite En. apply Hok.
Qed.

Lemma batch_name_fresh s : ok s -> batches s !! batch_name (next_batch_id s) = None.
Proof.
  intros Hok. apply eq_None_not_Some. intros [B HB]. destruct (ok_batch _ _ _ Hok _ B HB) as [(n & Hn & Heq) _ _ _].
  apply batch_name_inj in Heq; lia.
Qed.

Lemma ok_open service_id first selected created_at s :
  let s' := (open_batch service_id first selected created_at s).2 in
  ok_but service_id (map pa_logical_id selected) s -> NoDup (map pa_logical_id selected) -> selected <> [] ->
  batches s !! batch_name (next_batch_id s) = None -> in_flight s !! service_id = None -> next_batch_id s < U64_MAX ->
  ok s'.
Proof.
  intros s' Hok Hnd Hne Hfresh Hlane Hmax.
  assert (next_batch_id s' = next_batch_id s + 1) as En by (simpl; unfold saturating_add; lia).
  set (b := batch_name (next_batch_id s)) in *.
  assert (forall x, x ∉ map pa_logical_id selected -> transactions s' !! x = transactions s !! x) as Hother
    by (intros; by apply assign_batch_other).
  assert (forall i x, map pa_logical_id selected !! i = Some x ->
    transactions s' !! x = with_batch b i <$> transactions s !! x) as Hsel
    by (intros i x Hi; by rewrite <- (Nat.add_0_l i); apply assign_batch_lookup).
  split; simpl; fold b.
  - intros id b' Hb'. destruct (decide (service_id = id)) as [<-|Hne'].
    + rewrite lookup_insert_eq in Hb'. injection Hb' as <-. eexists. by rewrite lookup_insert_eq.
    + rewrite lookup_insert_ne in Hb' by done. destruct (ok_lane _ _ _ Hok id b' Hb') as (B & HB & Hs & Hm). exists B.
      rewrite lookup_insert_ne; [done|]. intros <-. congruence.
  - intros id [->%elem_of_singleton|Hid]%elem_of_union; [by rewrite lookup_insert_eq|].
    destruct (decide (service_id = id)) as [<-|]; [by rewrite lookup_insert_eq|]. rewrite lookup_insert_ne by done.
    by apply (ok_flushing _ _ _ Hok).
  - apply Hok.
  - apply Hok.
  - intros id q x Hq Hx. split; [|apply not_elem_of_nil]. destruct (ok_waiting _ _ _ Hok id q x Hq Hx) as [(y & Hy) Hnt].
    exists y. by rewrite Hother.
  - intros b' B HB. destruct (decide (b = b')) as [<-|Hne'].
    + rewrite lookup_insert_eq in HB. injection HB as <-. split; simpl; try done.
      * exists (next_batch_id s). split; [|done]. pose proof (ok_next _ _ _ Hok). simpl in En. lia.
      * intros Hnil. by apply map_eq_nil in Hnil.
      * intros i x Hi. destruct (ok_taken _ _ _ Hok x) as (y & Hy & Hs & _); [by eapply list_elem_of_lookup_2|].
        specialize (Hsel i x Hi). rewrite Hy in Hsel. exists (with_batch b i y). split; [exact Hsel|done].
    + rewrite lookup_insert_ne in HB by done. destruct (ok_batch _ _ _ Hok b' B HB) as [(n & Hn & ->) H2 H3 H4].
      split; try done; [exists n; split; [lia|done]|]. intros i x Hx. destruct (H4 i x Hx) as (y & Hy & Hs & Hb & Hi).
      exists y. rewrite Hother; [done|]. intros Hin. destruct (ok_taken _ _ _ Hok x Hin) as (? & ? & _ & ? & _). congruence.
  - intros x y Hy _. destruct (decide (x ∈ map pa_logical_id selected)) as [Hin|Hnin].
    + pose proof (ok_taken _ _ _ Hok x Hin) as (z & Hz & _). apply list_elem_of_lookup in Hin as [i Hi].
      specialize (Hsel i x Hi). unfold placed. fold b in Hy. change (transactions s' !! x = Some y) in Hy. rewrite Hsel, Hz in Hy. injection Hy as <-. simpl.
      eexists _, i. by rewrite lookup_insert_eq.
    + change (transactions s' !! x = Some y) in Hy. rewrite Hother in Hy by done.
      pose proof (ok_placed _ _ _ Hok x y Hy Hnin) as Hp. unfold placed in *. destruct (lt_batch_id y) as [b'|]; [|done].
      destruct Hp as (B & i & HB & Hrest). exists B, i. simpl. fold b. rewrite lookup_insert_ne; [done|]. intros <-. congruence.
  - intros x Hx. by apply elem_of_nil in Hx.
  - pose proof (ok_next _ _ _ Hok). simpl in En. lia.
Qed.

(** Every sender in the queue has an expected nonce. *)
Definition nonces_known (pending : list (PendingAction value)) (nonces : gmap bytes Z) : bool :=
  forallb (fun item => match pa_sender item with
                       | Some sender => bool_decide (is_Some (nonces !! sender))
                       | None => true
                       end) pending.

Lemma nonces_missing (pending : list (PendingAction value)) (nonces : gmap bytes Z) :
  existsb (fun item : PendingAction value => match pa_sender item with
                       | Some sender => negb (bool_decide (is_Some (nonces !! sender)))
                       | None => false
                       end) pending = negb (nonces_known pending nonces).
Proof.
  unfold nonces_known. induction pending as [|item pending IH]; [done|]. cbn [existsb forallb]. rewrite IH, negb_andb.
  by destruct (pa_sender item).
Qed.

(** The state once the queue of a service was sorted out. *)
Definition triaged (service_id : Z) (tr : triage) (now_deadline : Z) (s : t) : t :=
  requeue service_id (tr_remaining tr)
    (now_deadline + match tr_selected tr with [] => FUTURE_NONCE_RECHECK_DELAY | _ => flush_delay cfg end)
    (set_transactions (update_all (with_error STALE_NONCE) (map pa_logical_id (tr_stale tr))
       (update_all (with_error EXPIRED) (map pa_logical_id (tr_expired tr)) (transactions s))) s).

(** [take_ready_batch] by cases. *)
Lemma take_cases service_id nonces slot now now_deadline created_at s :
  take_ready_batch cfg service_id nonces slot now now_deadline created_at s
  = (if negb (is_batch_ready cfg service_id now s) then (None, s)
     else let pending := queue_of s service_id in
       if negb (nonces_known pending nonces)
       then (None, requeue service_id pending (now_deadline + FUTURE_NONCE_RECHECK_DELAY) s)
       else let tr := triage_queue cfg pending nonces slot in
         let s' := triaged service_id tr now_deadline s in
         match tr_selected tr with
         | [] => (None, s')
         | first :: _ => let '(batch, s'') := open_batch service_id first (tr_selected tr) created_at s' in
             (Some batch, s'')
         end).
Proof.
  unfold take_ready_batch, is_batch_ready. destruct (lane_busy s service_id); [done|]. cbv zeta.
  rewrite nonces_missing.
  assert (((blen (queue_of s service_id) =? 0)
     || ((blen (queue_of s service_id) <? max_actions cfg) && negb (deadline_reached s service_id now)))
    = negb (negb (blen (queue_of s service_id) =? 0)
     && ((max_actions cfg <=? blen (queue_of s service_id)) || deadline_reached s service_id now))) as ->.
  { rewrite negb_andb, negb_involutive, negb_orb, Z.leb_antisym, negb_involutive. done. }
  destruct (negb (blen (queue_of s service_id) =? 0) && _) eqn:Hready; [|done]. cbn [negb].
  assert (queue_of s service_id <> []) as Hne by (intros Hnil; rewrite Hnil in Hready; done).
  destruct (negb (nonces_known _ _)); [by destruct (queue_of s service_id)|].
  unfold triaged, requeue. by destruct (tr_remaining _).
Qed.

Lemma batch_ready_inv service_id now s :
  is_batch_ready cfg service_id now s = true ->
  in_flight s !! service_id = None /\ exists q, queued s !! service_id = Some q /\ queue_of s service_id = q /\ q <> [].
Proof.
  unfold is_batch_ready, lane_busy, queue_of. destruct (bool_decide_reflect (is_Some (in_flight s !! service_id))) as [|Hn]; [done|].
  cbn [orb]. case_bool_decide; [done|]. destruct (queued s !! service_id) as [q|]; [|done]. simpl.
  intros [Hq _]%andb_prop. split; [by apply eq_None_not_Some|]. exists q. split_and!; try done. by intros ->.
Qed.

Lemma ok_take service_id nonces slot now now_deadline created_at s :
  ok s -> next_batch_id s < U64_MAX ->
  ok (take_ready_batch cfg service_id nonces slot now now_deadline created_at s).2.
Proof.
  intros Hok Hmax. rewrite take_cases. destruct (is_batch_ready cfg service_id now s) eqn:Hready; [|done]. cbn [negb].
  apply batch_ready_inv in Hready as (Hlane & q & Hq & Hqo & Hne). cbv zeta. rewrite Hqo.
  destruct (nonces_known q nonces); cbn [negb].
  - set (tr := triage_queue cfg q nonces slot). pose proof (triage_perm q nonces slot) as Hp. cbv zeta in Hp. fold tr in Hp.
    pose proof (queue_nodup q (ok_queue _ _ _ Hok _ _ Hq)) as Hnd. rewrite Hp, !map_app in Hnd.
    apply NoDup_app in Hnd as (Hrej & _ & Hnd). apply NoDup_app in Hnd as (Hsel & _ & _).
    assert (ok_but service_id (map pa_logical_id (tr_selected tr)) (triaged service_id tr now_deadline s)) as Hbut.
    { eapply ok_requeue; [done..|]. rewrite map_app. by apply update_all_rejects. }
    assert (in_flight (triaged service_id tr now_deadline s) = in_flight s
      /\ next_batch_id (triaged service_id tr now_deadline s) = next_batch_id s
      /\ batches (triaged service_id tr now_deadline s) = batches s) as (El & En & Eb)
      by (unfold triaged, requeue; by destruct (tr_remaining tr)).
    destruct (tr_selected tr) as [|first sel] eqn:Hs; [by eapply ok_but_nil|]. rewrite <- Hs in *.
    pose proof (ok_open service_id first (tr_selected tr) created_at (triaged service_id tr now_deadline s) Hbut) as Ho.
    destruct (open_batch _ _ _ _ _) as [batch s'']. simpl in *. apply Ho; [done|by rewrite Hs| |by rewrite El|by rewrite En].
    rewrite En, Eb. by apply batch_name_fresh.
  - eapply (ok_requeue _ _ q [] [] q (transactions s)) in Hok as Hok'; [|done..|by left; split; [|apply not_elem_of_nil]].
    destruct s. by eapply ok_but_nil.
Qed.

(** *** The end of a batch *)

Lemma ok_finish b package_hash prediction s : ok s -> ok (finish_batch b package_hash prediction s).
Proof.
  intros Hok. unfold finish_batch. destruct (batches s !! b) as [B|] eqn:HB.
  - set (B' := mkBatch _ _ _ _ _ _ _ _). set (s1 := set_batches (<[b := B']> (batches s)) s).
    assert (ok s1) as Hok1 by (eapply ok_set_batch; done).
    set (s2 := set_transactions _ s1). assert (ok s2) as Hok2.
    { eapply (ok_update_batch s1 b B' (with_package package_hash)); [done|by apply lookup_insert_eq|done]. }
    apply ok_fewer_flushing; [done|]. set_solver.
  - apply (ok_fewer_flushing (set_transactions (update_all (with_package package_hash) [] (transactions (set_batches (batches s) s)))
      (set_batches (batches s) s))); [|set_solver]. by destruct s.
Qed.

Lemma with_failure_place error info x :
  lt_service_id (with_failure error info x) = lt_service_id x /\ lt_batch_id (with_failure error info x) = lt_batch_id x
  /\ lt_action_index (with_failure error info x) = lt_action_index x.
Proof. unfold with_failure. by destruct (lt_error x). Qed.

Lemma ok_fail b error info s : ok s -> ok (fail_batch_with_info b error info s).
Proof.
  intros Hok. unfold fail_batch_with_info. destruct (batches s !! b) as [B|] eqn:HB; [|done].
  destruct (ib_materialized B); [done|]. set (s1 := set_transactions _ s).
  assert (ok s1) as Hok1 by (eapply ok_update_batch; [done..|]; apply with_failure_place).
  pose proof (ok_release s1 b B B Hok1 HB (conj eq_refl eq_refl)) as Hr. simpl in Hr. rewrite insert_id in Hr by done.
  exact Hr.
Qed.

Lemma ok_unknown b error s : ok s -> ok (mark_batch_submission_unknown b error s).
Proof.
  intros Hok. unfold mark_batch_submission_unknown. destruct (batches s !! b) as [B|] eqn:HB; [|done].
  eapply ok_update_batch; done.
Qed.

Lemma ok_materialized b s : ok s -> ok (mark_materialized b s).
Proof.
  intros Hok. unfold mark_materialized. destruct (batches s !! b) as [B|] eqn:HB; [|done].
  destruct (ib_materialized B); [done|]. by eapply ok_release.
Qed.

Lemma ok_best id s : ok s -> ok (mark_best_included id s).
Proof.
  intros Hok. apply ok_transactions; [done|]. intros x. destruct (decide (id = x)) as [<-|Hne].
  - rewrite lookup_alter_eq. destruct (transactions s !! id); constructor. done.
  - rewrite lookup_alter_ne by done. apply same_place_refl.
Qed.

Lemma ok_status b status s : ok s -> ok (record_batch_status b status s).2.
Proof.
  intros Hok. unfold record_batch_status. destruct (batches s !! b) as [B|] eqn:HB; [|done].
  case_bool_decide; [done|]. by eapply ok_set_batch.
Qed.

Lemma ok_diagnostics setting b s : ok s -> ok (emit_diagnostics setting b s).
Proof.
  intros Hok. unfold emit_diagnostics. destruct (negb _); [done|]. destruct (batches s !! b) as [B|] eqn:HB; [|done].
  destruct (ib_diagnostics_emitted B); [done|]. destruct (ib_predicted_output B); [|done]. by eapply ok_set_batch.
Qed.

(** ** Sequences of calls *)

(** A call of one of the coordinator's methods that change its state. *)
Inductive call :=
| Enqueue (service_id : Z) (action : bytes) (params : value) (enqueued_at deadline_now : Z)
| TakeReadyBatch (service_id : Z) (expected_nonces : gmap bytes Z) (finalized_slot now now_deadline created_at : Z)
| FinishBatch (batch_id package_hash : bytes) (prediction : RefineOutput.t)
| FailBatch (batch_id error : bytes) (error_info : option value)
| MarkSubmissionUnknown (batch_id error : bytes)
| MarkMaterialized (batch_id : bytes)
| MarkBestIncluded (id : bytes)
| RecordBatchStatus (batch_id status : bytes)
| EmitDiagnostics (setting : Z) (batch_id : bytes).

Definition perform (c : call) (s : t) : t :=
  match c with
  | Enqueue id action params at_ deadline => (enqueue cfg id action params at_ deadline s).2
  | TakeReadyBatch id nonces slot now now_deadline at_ => (take_ready_batch cfg id nonces slot now now_deadline at_ s).2
  | FinishBatch b hash prediction => finish_batch b hash prediction s
  | FailBatch b error info => fail_batch_with_info b error info s
  | MarkSubmissionUnknown b error => mark_batch_submission_unknown b error s
  | MarkMaterialized b => mark_materialized b s
  | MarkBestIncluded id => mark_best_included id s
  | RecordBatchStatus b status => (record_batch_status b status s).2
  | EmitDiagnostics setting b => emit_diagnostics setting b s
  end.

(** Two things are left to the world: the hash that names a transaction does not
    collide, and the counter of batches does not reach the end of [u64]. *)
Definition possible (c : call) (s : t) : Prop :=
  match c with
  | Enqueue id action _ _ _ =>
      transactions s !! logical_id id (default 0 (next_sequences s !! id)) action = None
  | TakeReadyBatch _ _ _ _ _ _ => next_batch_id s < U64_MAX
  | _ => True
  end.

Inductive reachable : t -> Prop :=
| reachable_start : reachable default_
| reachable_call c s : reachable s -> possible c s -> reachable (perform c s).

Lemma ok_perform c s : 0 <= max_queued_per_sender cfg -> ok s -> possible c s -> ok (perform c s).
Proof.
  intros Hmax Hok Hp. destruct c; simpl in *; auto using ok_enqueue, ok_take, ok_finish, ok_fail, ok_unknown, ok_materialized, ok_best,
    ok_status, ok_diagnostics.
Qed.

Lemma coordinator_reachable_ok s : 0 <= max_queued_per_sender cfg -> reachable s -> ok s.
Proof. intros Hmax. induction 1; [apply ok_start|by apply ok_perform]. Qed.

(** ** The lane of a service *)

(** The calls that end a batch. *)
Definition ends (c : call) (b : bytes) : bool :=
  match c with
  | FailBatch b' _ _ | MarkMaterialized b' => bool_decide (b' = b)
  | _ => false
  end.

Lemma release_other service_id b' s id b :
  in_flight s !! id = Some b -> b' <> b -> in_flight (release service_id b' s) !! id = Some b.
Proof.
  intros Hb Hne. simpl. case_bool_decide as Hl; [|done]. destruct (decide (service_id = id)) as [->|Hid]; [congruence|].
  by rewrite lookup_delete_ne.
Qed.

Lemma perform_keeps_lane c s id b :
  in_flight s !! id = Some b -> ends c b = false -> in_flight (perform c s) !! id = Some b.
Proof.
  intros Hb Hends. destruct c; simpl in *.
  - destruct (enqueue cfg service_id action params enqueued_at deadline_now s) as [[x|e] s'] eqn:He; simpl.
    + by apply enqueue_ok_inv in He as (_ & _ & _ & _ & _ & _ & _ & -> & _).
    + by apply enqueue_err in He as [-> _].
  - rewrite take_cases. destruct (is_batch_ready cfg service_id now s) eqn:Hr; [|done]. cbn [negb].
    apply batch_ready_inv in Hr as (Hfree & q & Hq & Hqo & _).
    cbv zeta. destruct (negb _); [unfold requeue; by destruct (queue_of s service_id)|].
    set (tr := triage_queue _ _ _ _). set (s' := triaged _ _ _ _).
    assert (in_flight s' = in_flight s) as El by (unfold s', triaged, requeue; by destruct (tr_remaining tr)).
    destruct (tr_selected tr); simpl; [by rewrite El|]. rewrite lookup_insert_ne by congruence. by rewrite El.
  - unfold finish_batch. by destruct (batches s !! batch_id).
  - unfold fail_batch_with_info. apply bool_decide_eq_false_1 in Hends. destruct (batches s !! batch_id) as [B|]; [|done].
    destruct (ib_materialized B); [done|]. by apply release_other.
  - unfold mark_batch_submission_unknown. by destruct (batches s !! batch_id).
  - unfold mark_materialized. apply bool_decide_eq_false_1 in Hends. destruct (batches s !! batch_id) as [B|]; [|done].
    destruct (ib_materialized B); [done|]. by apply release_other.
  - done.
  - unfold record_batch_status. destruct (batches s !! batch_id); [|done]. by case_bool_decide.
  - unfold emit_diagnostics. destruct (negb _); [done|]. destruct (batches s !! batch_id) as [B|]; [|done]. destruct (ib_diagnostics_emitted B); [done|].
    by destruct (ib_predicted_output B).
Qed.

Lemma perform_frees_lane c s id b :
  ok s -> in_flight s !! id = Some b -> ends c b = true ->
  in_flight (perform c s) !! id = None /\ id ∉ flushing (perform c s).
Proof.
  intros Hok Hb Hends. destruct (ok_lane _ _ _ Hok id b Hb) as (B & HB & Hs & Hm).
  destruct c; try done; simpl in *; apply bool_decide_eq_true_1 in Hends as ->;
    [unfold fail_batch_with_info|unfold mark_materialized]; rewrite HB, Hm; simpl;
    rewrite Hs, bool_decide_eq_true_2, lookup_delete_eq by done; set_solver.
Qed.

Lemma busy_lane_waits s id b nonces slot now now_deadline created_at :
  in_flight s !! id = Some b -> take_ready_batch cfg id nonces slot now now_deadline created_at s = (None, s).
Proof.
  intros Hb. rewrite take_cases. destruct (is_batch_ready cfg id now s) eqn:Hr; [|done].
  apply batch_ready_inv in Hr as [? _]. congruence.
Qed.

(** ** What a batch takes *)

Definition chosen_nonces (sender : bytes) (items : list (PendingAction value)) : list Z :=
  omap (fun item => if decide (pa_sender item = Some sender) then pa_nonce item else None) items.

Lemma chosen_nonces_at viable idx sender :
  chosen_nonces sender (items_at viable idx) = Selection.nonces_of viable sender idx.
Proof.
  unfold chosen_nonces, items_at, Selection.nonces_of, Selection.nonce_of.
  induction idx as [|i idx IH]; [done|]. cbn [omap list_omap] in *. destruct (viable !! i) as [item|]; [|exact IH].
  cbn [omap list_omap]. simpl. rewrite IH. done.
Qed.

(** Whether an action could run now: not expired, and its nonce is the expected
    one or it has no sender and no nonce. *)
Definition eligible (nonces : gmap bytes Z) (slot : Z) (item : PendingAction value) : bool :=
  negb (expired slot item) &&
  match pa_sender item, pa_nonce item with
  | Some sender, Some nonce => nonce =? default 0 (nonces !! sender)
  | None, None => true
  | _, _ => false
  end.

Lemma length_items_at {A} (l : list A) idx :
  (forall i, i ∈ idx -> (i < length l)%nat) -> length (items_at l idx) = length idx.
Proof.
  induction idx as [|i idx IH]; intros Hb; [done|]. unfold items_at in *. cbn [omap list_omap].
  destruct (lookup_lt_is_Some_2 l i) as [x ->]; [apply Hb; set_solver|]. cbn [length]. f_equal. apply IH. set_solver.
Qed.

Lemma triage_spec pending nonces slot :
  Selection.small_nonces pending -> 1 <= max_actions cfg ->
  let tr := triage_queue cfg pending nonces slot in
  blen (tr_selected tr) <= max_actions cfg
  /\ (forall sender, chosen_nonces sender (tr_selected tr)
        = seqZ (default 0 (nonces !! sender)) (blen (chosen_nonces sender (tr_selected tr))))
  /\ (tr_selected tr = [] -> forall item, item ∈ pending -> eligible nonces slot item = false).
Proof.
  intros Hsmall Hmax. unfold triage_queue. cbv zeta. cbn [tr_selected].
  set (viable := filter (fun item => expired slot item = false) pending).
  assert (Selection.small_nonces viable) as Hsmall'.
  { intros item n [_ Hin]%list_elem_of_filter. by apply Hsmall. }
  destruct (Selection.select_locals_spec viable (max_actions cfg) nonces Hsmall' Hmax) as (Hinv & Hle & Hset).
  set (l := Selection.select_locals viable (max_actions cfg) nonces) in *.
  change (bs_selected _) with (Selection.selected l).
  pose proof (Selection.inv_shape _ _ _ Hinv) as Hshape.
  assert (length (items_at viable (Selection.selected l)) = length (Selection.selected l)) as Hlen.
  { apply length_items_at. intros i Hi. apply (Selection.shape_bounds _ _ Hshape). set_solver. }
  split_and!.
  - unfold blen in *. lia.
  - intros sender. rewrite chosen_nonces_at. apply Hinv.
  - intros Hnil item Hin. rewrite Hnil in Hlen. unfold eligible. destruct (expired slot item) eqn:Hexp; [done|]. cbn [negb andb].
    assert (Selection.selected l = []) as Hsel by (by apply nil_length_inv).
    assert (item ∈ viable) as Hv by (by apply list_elem_of_filter). apply list_elem_of_lookup in Hv as [i Hi].
    pose proof (lookup_lt_Some _ _ _ Hi) as Hilen.
    assert (forall sender, Selection.reached viable nonces l sender = default 0 (nonces !! sender)) as Hreach.
    { intros sender. unfold Selection.reached, Selection.expects. rewrite Hsel. change (blen _) with 0. lia. }
    destruct (decide (i ∈ Selection.stale l)) as [Hst|Hst].
    + destruct (Selection.inv_stale _ _ _ Hinv i Hst) as (it & s & n & Hit & Hs & Hn & Hlt).
      simplify_eq. rewrite Hs, Hn. rewrite Hreach in Hlt. apply Z.eqb_neq. lia.
    + assert (Selection.judge l item = Selection.Waiting) as Hj.
      { apply (Hset ltac:(rewrite Hsel; change (blen []) with 0; lia) i item); [by apply Selection.admission_order_all| |done].
        apply (Selection.shape_remaining _ _ Hshape). split; [done|]. by rewrite Hsel. }
      unfold Selection.judge in Hj. destruct (pa_sender item) as [s|], (pa_nonce item) as [n|]; try done.
      rewrite (Selection.inv_tentative _ _ _ Hinv), Hreach in Hj.
      destruct (Z.compare_spec n (default 0 (nonces !! s))); [done..|]. apply Z.eqb_neq. lia.
Qed.

Lemma triage_remaining_sublist pending nonces slot : tr_remaining (triage_queue cfg pending nonces slot) `sublist_of` pending.
Proof. unfold triage_queue. cbn [tr_remaining]. etrans; [apply items_except_sublist|apply sublist_filter]. Qed.

Lemma triage_rejected pending nonces slot item :
  let tr := triage_queue cfg pending nonces slot in
  (item ∈ tr_expired tr -> expired slot item = true) /\ (item ∈ tr_stale tr -> expired slot item = false).
Proof.
  unfold triage_queue. cbn [tr_expired tr_stale]. split; [by intros [? _]%list_elem_of_filter|].
  unfold items_at. intros (i & _ & Hi)%list_elem_of_omap. apply list_elem_of_lookup_2 in Hi. by apply list_elem_of_filter in Hi as [? _].
Qed.

Lemma triaged_fields service_id tr now_deadline s :
  let s' := triaged service_id tr now_deadline s in
  batches s' = batches s /\ in_flight s' = in_flight s /\ next_batch_id s' = next_batch_id s
  /\ queue_of s' service_id = tr_remaining tr
  /\ (forall other, other <> service_id -> queue_of s' other = queue_of s other)
  /\ transactions s' = update_all (with_error STALE_NONCE) (map pa_logical_id (tr_stale tr))
       (update_all (with_error EXPIRED) (map pa_logical_id (tr_expired tr)) (transactions s)).
Proof.
  unfold triaged, requeue, queue_of. destruct (tr_remaining tr) as [|item rest]; simpl; split_and!; try done.
  - by rewrite lookup_delete_eq.
  - intros other Hne. by rewrite lookup_delete_ne.
  - by rewrite lookup_insert_eq.
  - intros other Hne. by rewrite lookup_insert_ne.
Qed.

(** The error a rejected action is given. *)
Lemma triaged_rejects s service_id q nonces slot now_deadline item :
  let tr := triage_queue cfg q nonces slot in
  ok s -> queued s !! service_id = Some q -> item ∈ tr_expired tr ++ tr_stale tr ->
  exists x, transactions (triaged service_id tr now_deadline s) !! pa_logical_id item = Some x
    /\ lt_error x = Some (if expired slot item then EXPIRED else STALE_NONCE).
Proof.
  intros tr Hok Hq Hin. pose proof (triage_perm q nonces slot) as Hp. cbv zeta in Hp. fold tr in Hp.
  pose proof (queue_nodup q (ok_queue _ _ _ Hok _ _ Hq)) as Hnd. rewrite Hp, !map_app in Hnd.
  apply NoDup_app in Hnd as (Hnd & _ & _). apply NoDup_app in Hnd as (He & Hdisj & Hs).
  destruct (ok_waiting _ _ _ Hok service_id q (pa_logical_id item) Hq) as [(x & Hx & _) _].
  { apply list_elem_of_fmap_2. rewrite Hp. set_solver. }
  destruct (triaged_fields service_id tr now_deadline s) as (_ & _ & _ & _ & _ & ->).
  rewrite !update_all_lookup by done. destruct (triage_rejected q nonces slot item) as [H1 H2]. fold tr in H1, H2.
  apply elem_of_app in Hin as [Hin|Hin].
  - pose proof (list_elem_of_fmap_2 pa_logical_id _ _ Hin) as Hid. rewrite decide_False by (by apply Hdisj).
    rewrite decide_True by done. rewrite Hx, (H1 Hin). by eexists.
  - pose proof (list_elem_of_fmap_2 pa_logical_id _ _ Hin) as Hid. rewrite decide_True by done.
    rewrite (H2 Hin). case_decide as Hbad; [by apply Hdisj in Hbad|]. rewrite Hx. by eexists.
Qed.
End Invariant.

(** C28: every transaction is in one place. In every state that calls of the
    coordinator's methods lead to, in any order: the invariant holds (each lane
    holds a batch of its service that is not materialized; only busy services are
    flushing; queues are not empty, have deadlines and respect both limits; a
    queued action has neither batch nor error; each transaction without an error
    is queued, and each transaction of a batch is at its recorded position of it);
    no two services share a batch; and no transaction is in two batches or at two
    positions of one. *)
Theorem coordinator_places_transactions `{Blake2} `{Json} (cfg : config) (s : t) :
  0 <= max_queued_per_sender cfg -> reachable cfg s ->
  ok cfg s
  /\ (forall id id' b, in_flight s !! id = Some b -> in_flight s !! id' = Some b -> id = id')
  /\ (forall b B b' B' i i' x, batches s !! b = Some B -> batches s !! b' = Some B' ->
        ib_logical_transaction_ids B !! i = Some x -> ib_logical_transaction_ids B' !! i' = Some x -> b = b' /\ i = i').
Proof.
  intros Hmax Hr. pose proof (coordinator_reachable_ok cfg s Hmax Hr) as Hok. split_and!; [done|..].
  - intros id id' b Hb Hb'. destruct (ok_lane _ _ _ _ Hok id b Hb) as (B & HB & <- & _).
    destruct (ok_lane _ _ _ _ Hok id' b Hb') as (B' & HB' & <- & _). congruence.
  - intros b B b' B' i i' x HB HB' Hx Hx'. destruct (ok_batch _ _ _ _ Hok b B HB) as [_ _ _ Hm].
    destruct (ok_batch _ _ _ _ Hok b' B' HB') as [_ _ _ Hm'].
    destruct (Hm i x Hx) as (y & ? & _ & ? & ?), (Hm' i' x Hx') as (y' & ? & _ & ? & ?). split; congruence.
Qed.

(** A service never has two batches in flight. While a batch holds the lane of
    its service, no other batch of the service can be taken, and no call but the
    failure or the materialization of that batch frees the lane (a submission whose
    fate is unknown keeps it); either of these does free it. *)
Theorem lane_held_until_batch_ends `{Blake2} `{Json} (cfg : config) (s : t) (id : Z) (b : bytes) :
  0 <= max_queued_per_sender cfg -> reachable cfg s -> in_flight s !! id = Some b ->
  (forall nonces slot now now_deadline at_, take_ready_batch cfg id nonces slot now now_deadline at_ s = (None, s))
  /\ (forall c, if ends c b then in_flight (perform cfg c s) !! id = None /\ id ∉ flushing (perform cfg c s)
                else in_flight (perform cfg c s) !! id = Some b).
Proof.
  intros Hmax Hr Hb. pose proof (coordinator_reachable_ok cfg s Hmax Hr) as Hok. split.
  - intros. by eapply busy_lane_waits.
  - intros c. destruct (ends c b) eqn:Hends; [by eapply perform_frees_lane|by eapply perform_keeps_lane].
Qed.

(** The batch that is taken is the right part of the queue. When the lane is
    free, the queue is full enough or its time has come, and the expected nonce of
    every sender is known: the queue falls into rejected, chosen and remaining
    actions; the remaining ones stay queued, in order; the rejected ones are given
    the error that applies; at most [max_actions] are chosen and each sender's are
    the next ones it may use, in order. If some action could run now, a batch is
    taken: it has a name no batch had, holds the lane of its service, and carries
    the actions and the extrinsics of the chosen ones. *)
Theorem batch_taken_exact `{Blake2} `{Json} (cfg : config) (s : t) (id : Z) (nonces : gmap bytes Z)
    (slot now now_deadline created_at : Z) :
  let pending := queue_of s id in
  0 <= max_queued_per_sender cfg -> 1 <= max_actions cfg -> reachable cfg s -> next_batch_id s < U64_MAX ->
  is_batch_ready cfg id now s = true -> nonces_known pending nonces = true -> Selection.small_nonces pending ->
  let '(out, s') := take_ready_batch cfg id nonces slot now now_deadline created_at s in
  exists rejected selected rest,
    pending ≡ₚ rejected ++ selected ++ rest
    /\ queue_of s' id = rest /\ rest `sublist_of` pending
    /\ (forall other, other <> id -> queue_of s' other = queue_of s other)
    /\ (forall item, item ∈ rejected -> exists x, transactions s' !! pa_logical_id item = Some x
          /\ lt_error x = Some (if expired slot item then EXPIRED else STALE_NONCE))
    /\ blen selected <= max_actions cfg
    /\ (forall sender, chosen_nonces sender selected
          = seqZ (default 0 (nonces !! sender)) (blen (chosen_nonces sender selected)))
    /\ match out with
       | None => selected = [] /\ in_flight s' !! id = None /\ forall item, item ∈ pending -> eligible nonces slot item = false
       | Some batch =>
           selected <> [] /\ ts_actions batch = map pa_action selected
           /\ ts_extrinsics batch = concat (map pa_extrinsics selected)
           /\ batches s !! ts_batch_id batch = None /\ in_flight s' !! id = Some (ts_batch_id batch)
           /\ exists B, batches s' !! ts_batch_id batch = Some B /\ ib_logical_transaction_ids B = map pa_logical_id selected
       end.
Proof.
  intros pending Hmax Hact Hr Hnext Hready Hknown Hsmall.
  destruct (take_ready_batch _ _ _ _ _ _ _ _) as [out s'] eqn:Htake. pose proof (coordinator_reachable_ok cfg s Hmax Hr) as Hok.
  rewrite take_cases, Hready in Htake. apply batch_ready_inv in Hready as (Hlane & q & Hq & Hqo & Hne).
  unfold pending in *. cbv zeta in Htake. rewrite Hknown in Htake. cbn [negb] in Htake. rewrite Hqo in *.
  pose proof (triage_perm cfg q nonces slot) as Hp. pose proof (triage_spec cfg q nonces slot Hsmall Hact) as (Hle & Hseq & Hnone).
  pose proof (triage_remaining_sublist cfg q nonces slot) as Hsub.
  pose proof (triaged_rejects cfg s id q nonces slot now_deadline) as Hrej. cbv zeta in *.
  set (tr := triage_queue cfg q nonces slot) in *.
  destruct (triaged_fields cfg id tr now_deadline s) as (Eb & El & En & Equ & Eot & _).
  exists (tr_expired tr ++ tr_stale tr), (tr_selected tr), (tr_remaining tr).
  destruct (tr_selected tr) as [|first sel] eqn:Hsel.
  - injection Htake as <- <-. rewrite El. split_and!; auto.
  - rewrite <- Hsel in *. injection Htake as <- <-. cbn [ts_actions ts_extrinsics ts_batch_id in_flight batches].
    rewrite lookup_insert_eq, En. split_and!; try done.
    + intros item Hin. destruct (Hrej item Hok Hq Hin) as (x & Hx & He). exists x. split; [|done].
      cbn [transactions]. rewrite assign_batch_other; [done|].
      pose proof (queue_nodup cfg q (ok_queue _ _ _ _ Hok _ _ Hq)) as Hnd. rewrite Hp, !map_app in Hnd.
      apply NoDup_app in Hnd as (_ & Hnd & _). rewrite <- map_app in Hnd.
      apply (list_elem_of_fmap_2 pa_logical_id) in Hin. apply Hnd in Hin. by apply not_elem_of_app in Hin as [? _].
    + by rewrite Hsel.
    + by apply (batch_name_fresh cfg).
    + eexists. rewrite lookup_insert_eq. done.
Qed.

(** ** A run of the coordinator *)

Module CoordinatorToy.
Import JsonModel.

(** A hash that keeps the beginning, so that the numbers of the transactions
    tell them apart. *)
#[global] Instance model_hash : Blake2 := fun b => take 32 (b ++ repeat x00 32).

Definition cfg : config := (new (Some 2) (Some 50) None (Some 3)).1.

(** An action of the sender [Toy.key] with nonce 7, and two that cannot be read. *)
Definition signed : bytes := ActionV1.fmt Toy.action.
Definition params : json := JObject [(bstr "extrinsicsBase64", JArray [JString [x41]])].

Definition s1 : t := perform cfg (Enqueue 5 signed params 0 0) default_.
Definition s2 : t := perform cfg (Enqueue 5 [x01] params 1 1) s1.
Definition s3 : t := perform cfg (Enqueue 5 signed params 2 2) s2.
Definition nonces : gmap bytes Z := {[ Toy.key := 7 ]}.
Definition take : call := TakeReadyBatch 5 nonces 3 10 10 10.
Definition s4 : t := perform cfg take s3.

Lemma s3_reachable : reachable cfg s3.
Proof.
  do 3 (apply reachable_call; [|unfold possible; apply (bool_decide_unpack _); vm_compute; exact I]). apply reachable_start.
Qed.

Lemma s4_reachable : reachable cfg s4.
Proof. apply reachable_call; [apply s3_reachable|]. vm_compute. reflexivity. Qed.

Lemma s3_small : Selection.small_nonces (queue_of s3 5).
Proof.
  intros item n Hin Hn.
  assert (forallb (fun item => match pa_nonce item with Some n => n <? U64_MAX | None => true end) (queue_of s3 5) = true) as Hall
    by (vm_compute; reflexivity).
  rewrite forallb_forall in Hall. specialize (Hall item (proj1 (list_elem_of_In _ _) Hin)). rewrite Hn in Hall. by apply Z.ltb_lt.
Qed.
End CoordinatorToy.

Lemma coordinator_places_transactions_witness :
  in_flight CoordinatorToy.s4 !! 5 = Some (batch_name 0) /\ ok CoordinatorToy.cfg CoordinatorToy.s4.
Proof.
  split; [vm_compute; reflexivity|].
  destruct (coordinator_places_transactions CoordinatorToy.cfg CoordinatorToy.s4) as [Hok _]; [|exact CoordinatorToy.s4_reachable|exact Hok].
  vm_compute. discriminate.
Defined.

Lemma lane_held_until_batch_ends_witness :
  (take_ready_batch CoordinatorToy.cfg 5 CoordinatorToy.nonces 3 99 99 99 CoordinatorToy.s4).1 = None
  /\ in_flight (perform CoordinatorToy.cfg (MarkSubmissionUnknown (batch_name 0) [x21]) CoordinatorToy.s4) !! 5
     = Some (batch_name 0)
  /\ in_flight (perform CoordinatorToy.cfg (MarkMaterialized (batch_name 0)) CoordinatorToy.s4) !! 5 = None.
Proof.
  destruct (lane_held_until_batch_ends CoordinatorToy.cfg CoordinatorToy.s4 5 (batch_name 0)) as [H1 H2];
    [vm_compute; discriminate|exact CoordinatorToy.s4_reachable|vm_compute; reflexivity|].
  split; [by rewrite H1|]. split.
  - pose proof (H2 (MarkSubmissionUnknown (batch_name 0) [x21])) as H3. cbn [ends] in H3. exact H3.
  - pose proof (H2 (MarkMaterialized (batch_name 0))) as H3.
    assert (ends (MarkMaterialized (batch_name 0)) (batch_name 0) = true) as He by (vm_compute; reflexivity).
    rewrite He in H3. apply H3.
Defined.

Lemma batch_taken_exact_witness :
  let '(out, s') := take_ready_batch CoordinatorToy.cfg 5 CoordinatorToy.nonces 3 10 10 10 CoordinatorToy.s3 in
  option_map ts_actions out = Some [CoordinatorToy.signed; [x01]]
  /\ map pa_arrival_sequence (queue_of s' 5) = [2]
  /\ exists rejected selected rest, queue_of CoordinatorToy.s3 5 ≡ₚ rejected ++ selected ++ rest /\ queue_of s' 5 = rest.
Proof.
  pose proof (batch_taken_exact CoordinatorToy.cfg CoordinatorToy.s3 5 CoordinatorToy.nonces 3 10 10 10) as Ht.
  assert (option_map ts_actions (take_ready_batch CoordinatorToy.cfg 5 CoordinatorToy.nonces 3 10 10 10 CoordinatorToy.s3).1
    = Some [CoordinatorToy.signed; [x01]]) as H1 by (vm_compute; reflexivity).
  assert (map pa_arrival_sequence (queue_of (take_ready_batch CoordinatorToy.cfg 5 CoordinatorToy.nonces 3 10 10 10 CoordinatorToy.s3).2 5)
    = [2]) as H2 by (vm_compute; reflexivity).
  destruct (take_ready_batch _ _ _ _ _ _ _ _) as [out s']. split; [exact H1|]. split; [exact H2|].
  destruct Ht as (rejected & selected & rest & Hp & Hq & _).
  - vm_compute. discriminate.
  - vm_compute. discriminate.
  - exact CoordinatorToy.s3_reachable.
  - vm_compute. reflexivity.
  - vm_compute. reflexivity.
  - vm_compute. reflexivity.
  - exact CoordinatorToy.s3_small.
  - exists rejected, selected, rest. by split.
Defined.
