(* ===== verification/Engine.v ===== *)
(** * The engine of the backend

    [BackendEngine], [PvmApplication] and [PvmArtifactLoader] of
    [jamscript-service-backend]: what happens to a batch of actions between the
    queue and the network, and how the status of submitted work comes back. The
    network, the artifact store and the virtual machine are parameters; calls to
    them pass a state [N], the world outside, which they may change. *)

From stdpp Require Import pretty.
From S2P Require Import Prelude Ordering Reader Wire ServiceKeys StateView StateDiff Records Witness RefineInput Dependencies RefineOutput Ownership Crypto Actions ActionsV2 GuestMemory State Overlays Provider BackendBase Registry Envelope Database BackendState JsonValue.

(** ** The world outside *)

(** The trait [BackendNetwork] (the calls the engine makes). *)
Record ChainServiceInfoV1 := mkServiceInfo { si_service_id : Z; si_code_hash : bytes }.

Class BackendNetwork `{Json} (N : Type) := {
  n_genesis_hash : N -> result bytes BackendError * N;
  n_finalized_context : N -> result FinalizedContextV1 BackendError * N;
  n_best_context : N -> result FinalizedContextV1 BackendError * N;
  n_context_at : bytes -> N -> result FinalizedContextV1 BackendError * N;
  n_service_info : FinalizedContextV1 -> Z -> N -> result (option ChainServiceInfoV1) BackendError * N;
  n_service_storage_at : FinalizedContextV1 -> Z -> bytes -> N -> result (option bytes) BackendError * N;
  n_service_code : FinalizedContextV1 -> Z -> bytes -> N -> result (option bytes) BackendError * N;
  n_submit_work : value -> N -> result value BackendError * N;
  n_work_status : value -> N -> result value BackendError * N
}.

(** The hashes it answers with are arrays of 32 bytes. *)
Class NetworkTyped `{Json} {N} `{!BackendNetwork N} : Prop := {
  genesis_typed n h n' : n_genesis_hash n = (Ok h, n') -> hash_ok h;
  finalized_typed n c n' : n_finalized_context n = (Ok c, n') -> hash_ok (fc_block_hash c);
  info_typed c id n info n' : n_service_info c id n = (Ok (Some info), n') -> hash_ok (si_code_hash info)
}.

(** The trait [ArtifactStore]. *)
Class ArtifactStore (N : Type) := {
  as_put_verified : bytes -> bytes -> N -> result Z BackendError * N;
  as_get_verified : bytes -> N -> result bytes BackendError * N;
  as_contains : bytes -> N -> result bool BackendError * N
}.

(** The virtual machine: the code hash of an artifact ([canonical_pvm_code_hash])
    and a call of one of its exports within the gas limit ([invoke]). *)
Class Polkavm := {
  canonical_pvm_code_hash : bytes -> result bytes BackendError;
  pvm_invoke : bytes -> bytes -> bytes -> bytes -> option Z -> result bytes BackendError
}.

(** [format!("{n}")] of an unsigned number. *)
Definition decimal (n : Z) : bytes := bstr (pretty (Z.to_N n)).

(** Standard base64, and the text of an error ([{:?}]). *)
Class PayloadBase64 := {
  b64_encode : bytes -> bytes;
  (** the bytes, or the text of an error *)
  b64_decode : bytes -> result bytes bytes
}.
Class ErrorText := error_text : BackendError -> bytes.

(** ** Computations that may fail and change the world *)

Definition io (W A : Type) : Type := W -> result A BackendError * W.

#[export] Instance io_ret W : MRet (io W) := fun A v w => (Ok v, w).
#[export] Instance io_bind W : MBind (io W) := fun A B k m w =>
  match m w with
  | (Ok v, w) => k v w
  | (Err e, w) => (Err e, w)
  end.

Definition lift {W A} (r : result A BackendError) : io W A := fun w => (r, w).
Definition fail {W A} (e : BackendError) : io W A := fun w => (Err e, w).
Definition ensure {W} (c : bool) (e : BackendError) : io W unit := fun w => (if c then Ok tt else Err e, w).

(** [iter.map(f).collect::<Result<Vec<_>, _>>()]. *)
Fixpoint io_map {W A B} (f : A -> io W B) (l : list A) : io W (list B) :=
  match l with
  | [] => mret []
  | x :: l' => y ← f x; ys ← io_map f l'; mret (y :: ys)
  end.

(** ** Reading requests *)

Section Requests.
Context `{Json}.

Definition required_str (params : value) (name : bytes) : result bytes BackendError :=
  ok_or (v_get params name ≫= v_as_str) (BE_Rpc (name ++ bstr " is required")).

(** [value.as_u64().and_then(|value| u32::try_from(value).ok())]. *)
Definition as_u32 (v : value) : option Z := v_as_u64 v ≫= u32_try_from.

Definition required_u32 (params : value) (name : bytes) : result Z BackendError :=
  ok_or (v_get params name ≫= as_u32) (BE_Rpc (name ++ bstr " must be a u32")).

Definition required_hash (params : value) (name : bytes) : result bytes BackendError :=
  let? text := required_str params name in parse_hash text.

(** [params.get(name).and_then(Value::as_str).map(parse_hash).transpose()]. *)
Definition optional_hash (params : value) (name : bytes) : result (option bytes) BackendError :=
  match v_get params name ≫= v_as_str with
  | None => Ok None
  | Some text => let? hash := parse_hash text in Ok (Some hash)
  end.

(** A context a request names must be the current one. *)
Definition check_requested_context (params : value) (context : FinalizedContextV1) : result unit BackendError :=
  match v_get params (bstr "context") with
  | Some request =>
      if v_is_object request then
        let? block := optional_hash request (bstr "blockHash") in
        let? block := ok_or block BE_StaleContext in
        let? root := optional_hash request (bstr "stateRoot") in
        let? root := ok_or root BE_StaleContext in
        let? slot := ok_or (v_get request (bstr "slot") ≫= as_u32) BE_StaleContext in
        bail_if negb (bool_decide (block = fc_block_hash context)) || negb (bool_decide (root = fc_state_root context))
                || negb (slot =? fc_slot context) with BE_StaleContext ;;
        Ok tt
      else Ok tt
  | None => Ok tt
  end.

Definition null_or {A} (f : A -> value) (o : option A) : value := match o with Some a => f a | None => v_null end.
Definition v_hash (h : bytes) : value := v_string (hash_hex h).

(** [GuestFaultContext::json], [pvm_out_of_gas_info], [guest_fault_message]. *)
Definition guest_fault_message (code : option GuestFaultCode) : bytes :=
  match code with
  | Some HeapLimitExceeded => bstr "Guest allocation exceeded the configured heap budget"
  | Some MemoryGrowFailed => bstr "Guest memory growth was rejected by the execution environment"
  | Some MemoryAllocationFailed => bstr "Guest allocation could not be satisfied"
  | Some Panic => bstr "Guest panicked during execution"
  | Some MemoryConfigInvalid => bstr "Guest heap configuration is invalid for this artifact"
  | Some FaultAbort => bstr "Guest explicitly aborted execution"
  | None => bstr "Guest reported an unrecognized fault"
  end.

Definition guest_fault_code (fault : GuestFaultContext) : bytes :=
  match fault_code_from_u32 (FaultRecord.code (gf_record fault)) with
  | Some code => fault_code_as_str code
  | None => bstr "GUEST_FAULT_UNKNOWN"
  end.

Definition guest_fault_json (fault : GuestFaultContext) : value :=
  let r := gf_record fault in
  v_object
    [(bstr "code", v_string (guest_fault_code fault));
     (bstr "message", v_string (guest_fault_message (fault_code_from_u32 (FaultRecord.code r))));
     (bstr "stage", v_string (match fault_stage_from_u32 (FaultRecord.stage r) with
                              | Some stage => fault_stage_as_str stage | None => bstr "unknown" end));
     (bstr "serviceId", null_or v_num (gf_service_id fault));
     (bstr "codeHash", v_hash (gf_code_hash fault));
     (bstr "details", v_object
        [(bstr "requestedBytes", v_num (FaultRecord.requested_bytes r)); (bstr "alignment", v_num (FaultRecord.alignment r));
         (bstr "heapCommittedBytes", v_num (FaultRecord.heap_committed_bytes r));
         (bstr "heapMaxBytes", v_num (FaultRecord.heap_max_bytes r));
         (bstr "allocatorLiveRequestedBytes", v_num (FaultRecord.live_requested_bytes r));
         (bstr "allocatorHighWaterRequestedBytes", v_num (FaultRecord.high_water_requested_bytes r));
         (bstr "allocatorCumulativeRequestedBytes", v_num (FaultRecord.cumulative_requested_bytes r))])].

Definition PVM_PREFLIGHT_GAS_LIMIT : Z := 1000000000.
Definition pvm_out_of_gas_info (service_id : option Z) (code_hash stage : bytes) : value :=
  v_object
    [(bstr "code", v_string (bstr "PVM_OUT_OF_GAS"));
     (bstr "message", v_string (bstr "PolkaVM execution exhausted its configured gas budget"));
     (bstr "stage", v_string stage); (bstr "serviceId", null_or v_num service_id); (bstr "codeHash", v_hash code_hash);
     (bstr "details", v_object [(bstr "gasLimit", v_num PVM_PREFLIGHT_GAS_LIMIT)])].

Definition status_name (s : ActionStatus) : bytes :=
  match s with
  | StApplied => bstr "applied"
  | StFailed => bstr "failed"
  | StRejected => bstr "rejected"
  end.

Definition canonical_action_receipts (receipts : list Receipt.t) : value :=
  v_array (map (fun r => v_object
    [(bstr "actionHash", v_hash (Receipt.action_hash r)); (bstr "status", v_string (status_name (Receipt.status r)));
     (bstr "errorCode", null_or v_num (Receipt.error_code r))]) receipts).
End Requests.

(** ** [PvmApplication] *)

Module PvmApplication.
Record t := mk { artifact_digest : bytes; code : bytes; canonical_code_hash : bytes }.

Section Ops.
Context `{Blake2} `{Polkavm} {N : Type} `{ArtifactStore N}.

(** [PvmArtifactLoader::load_pvm]. *)
Definition load_pvm (artifact : ApplicationArtifactRef) : io N t :=
  bytes ← as_get_verified (ar_digest artifact);
  hash ← lift (canonical_pvm_code_hash bytes);
  mret (mk (ar_digest artifact) bytes hash).

Definition metadata (a : t) : result BackendMetadata.t BackendError :=
  let? bytes := pvm_invoke (code a) (bstr "jamscript_backend_metadata_v1") [] (repeat x00 32) None in
  map_err BE_Wire (BackendMetadata.decode bytes).

(** The planner's answer: a key of another service, a key of this one, or none. *)
Definition planner_answer (output : bytes) : result PlannerResult BackendError :=
  match Planner.decode_planner_need_external_state output with
  | Ok (service_id, key) => Ok (mkPlannerResult [] {[ service_id := [key] ]})
  | Err _ =>
      match Planner.decode_planner_need_state output with
      | Ok key => Ok (mkPlannerResult [key] ∅)
      | Err _ =>
          if bool_decide (output = [x00]) || is_ok (RefineOutput.decode output)
          then Ok (mkPlannerResult [] ∅) else Err (BE_Planner PL_ApplicationRejected)
      end
  end.

Definition plan_for_service_id (a : t) (actions : list bytes) (managed_state : StateWitness.t)
    (external_state : list ExternalWitness.t) (network_domain : bytes) (service_id : option Z)
    : result PlannerResult BackendError :=
  let? encoded := map_err BE_Wire (RefineInput.encode (RefineInput.mk RefineInput.VERSION managed_state external_state actions)) in
  let? output := pvm_invoke (code a) (bstr "jamscript_plan_v1") encoded network_domain service_id in
  planner_answer output.

Definition plan_with_keys (a : t) (actions keys : list bytes) : result PlannerResult BackendError :=
  let? plan := map_err BE_Wire (AccessPlan.from_keys keys) in
  plan_for_service_id a actions (StateWitness.mk StateWitness.VERSION EMPTY_STATE_ROOT_V1 plan []) [] (repeat x00 32) None.

Definition refine_for_service_id (a : t) (input network_domain : bytes) (service_id : option Z)
    : result RefineOutput.t BackendError :=
  let? bytes := pvm_invoke (code a) (bstr "minijam_refine") input network_domain service_id in
  map_err BE_Wire (RefineOutput.decode bytes).
End Ops.
End PvmApplication.

(** A loaded program is a planner of the registry. *)
#[export] Instance pvm_planner `{Polkavm} : ApplicationPlanner PvmApplication.t := {|
  ap_artifact_digest := PvmApplication.artifact_digest;
  ap_plan a actions := map_err (fun _ => PL_ApplicationRejected) (PvmApplication.plan_with_keys a actions [])
|}.

(** ** [BackendEngine] *)

Module BackendEngine.
Section Ops.
Context `{Blake2} `{Trie} `{RocksDb} `{SerdeJson} {P : Type} `{ApplicationPlanner P}.
Context `{Json} {N : Type} `{!BackendNetwork N} `{ArtifactStore N} `{Polkavm} `{PayloadBase64} `{ErrorText}.

(** What the engine works on: the state, which the caller has locked, and the
    world. [e_answers] is a history variable: what the network answered to
    [submit_work]; nothing reads it. *)
Record t := mk { e_state : BackendState.t (P := P); e_net : N; e_answers : list (result value BackendError) }.

Definition net {A} (m : io N A) : io t A := fun e =>
  let '(r, n) := m (e_net e) in (r, mk (e_state e) n (e_answers e)).
Definition reads {A} (f : BackendState.t (P := P) -> result A BackendError) : io t A := fun e => (f (e_state e), e).
Definition on_state {A} (m : BackendState.t (P := P) -> result A BackendError * BackendState.t (P := P)) : io t A := fun e =>
  let '(r, s) := m (e_state e) in (r, mk s (e_net e) (e_answers e)).

(** [self.network.submit_work(params)], recorded. *)
Definition call_submit_work (params : value) : io t value := fun e =>
  let '(r, n) := n_submit_work params (e_net e) in (r, mk (e_state e) n (e_answers e ++ [r])).

(** *** The keys the actions start from *)

Definition push_new (key : bytes) (keys : list bytes) : list bytes :=
  if bool_decide (key ∈ keys) then keys else keys ++ [key].

Definition initial_key (network_domain : bytes) (keys : list bytes) (action : bytes) : result (list bytes) BackendError :=
  match ActionV1.decode_signed_action_v1 action with
  | Ok signed =>
      bail_if negb (bool_decide (ActionV1.network_domain signed = network_domain)) with BE_WrongNetwork ;;
      Ok (if blen (ActionV1.public_key signed) =? 32 then push_new (nonce_key (ActionV1.public_key signed)) keys else keys)
  | Err _ =>
      match ActionV2.decode_signed_action_v2 action with
      | Ok signed =>
          bail_if negb (bool_decide (ActionV2.network_domain signed = network_domain)) with BE_WrongNetwork ;;
          Ok (match ownership_nonce_key (ActionV2.controller signed) with
              | Ok key => push_new key keys
              | Err _ => keys
              end)
      | Err _ => Ok keys
      end
  end.

Definition initial_keys (network_domain : bytes) (actions : list bytes) : result (list bytes) BackendError :=
  rfold (initial_key network_domain) [] actions.

(** The commitment of a service on the chain. *)
Definition read_commitment (context : FinalizedContextV1) (service_id : Z) : io t (option bytes) :=
  net (n_service_storage_at context service_id MANAGED_STATE_COMMITMENT_KEY_V1).

Definition committed_root (commitment : option bytes) : result bytes BackendError :=
  match commitment with
  | Some bytes => let? c := map_err BE_Wire (Commitment.decode bytes) in Ok (Commitment.root c)
  | None => Ok EMPTY_STATE_ROOT_V1
  end.

(** *** Witnesses *)

Definition build_witness (service_key root : bytes) (keys : list bytes) : io t StateWitness.t :=
  plan ← lift (map_err BE_Wire (AccessPlan.from_keys keys));
  reads (fun s => map_err BE_Provider (FullStateProvider.build_witness (BackendState.provider s) service_key root plan)).

Definition no_commitment (service_id : Z) : bytes :=
  bstr "external Service " ++ decimal service_id ++ bstr " has no finalized managed-state commitment".

Definition build_external_witness (context : FinalizedContextV1) (request : Z * list bytes) : io t ExternalWitness.t :=
  let '(service_id, keys) := request in
  record ← reads (fun s => BackendState.get_service s service_id);
  commitment ← read_commitment context service_id;
  commitment ← lift (ok_or commitment (BE_Rpc (no_commitment service_id)));
  commitment ← lift (map_err BE_Wire (Commitment.decode commitment));
  let root := Commitment.root commitment in
  current ← reads (fun s => BackendState.current_root s service_id);
  ensure (bool_decide (current = root)) BE_StateNotMaterialized;;
  managed_state ← build_witness (sr_service_key record) root keys;
  mret (ExternalWitness.mk service_id managed_state).

(** [requested.iter()]: in the order of the service numbers. *)
Definition build_external_witnesses (context : FinalizedContextV1) (requested : gmap Z (list bytes)) : io t (list ExternalWitness.t) :=
  io_map (build_external_witness context) (sort_by_key fst (map_to_list requested)).

(** *** Planning rounds *)

(** The keys of other services: each list stays sorted. *)
Definition add_external (discovered : list (Z * list bytes)) (known : gmap Z (list bytes)) : gmap Z (list bytes) * bool :=
  fold_left (fun acc '(service_id, keys) =>
      let '(known, changed) := acc in
      let '(list, changed) := fold_left (fun acc key =>
          let '(list, changed) := acc in
          if bool_decide (key ∈ list) then (list, changed) else (sort_by_key id (list ++ [key]), true))
        keys (default [] (known !! service_id), changed) in
      (<[service_id := list]> known, changed))
    discovered (known, false).

Definition add_local (discovered keys : list bytes) : list bytes * bool :=
  fold_left (fun acc key => let '(keys, changed) := acc in
                            if bool_decide (key ∈ keys) then (keys, changed) else (keys ++ [key], true))
    discovered (keys, false).

Definition PLANNING_ROUNDS : nat := 64.

Section Planning.
Variable (pvm : PvmApplication.t) (actions : list bytes) (context : FinalizedContextV1) (network_domain : bytes) (service_id : Z)
  (service_key parent_root : bytes).

Fixpoint planning_rounds (rounds : nat) (keys : list bytes) (external_keys : gmap Z (list bytes))
    : io t (list bytes * gmap Z (list bytes)) :=
  match rounds with
  | O => mret (keys, external_keys)
  | S rounds' =>
      witness ← build_witness service_key parent_root keys;
      external_witnesses ← build_external_witnesses context external_keys;
      planned ← lift (PvmApplication.plan_for_service_id pvm actions witness external_witnesses network_domain (Some service_id));
      let '(keys, changed) := add_local (local_access_keys planned) keys in
      let '(external_keys, changed') :=
        add_external (sort_by_key fst (map_to_list (external_access_keys planned))) external_keys in
      if changed || changed' then planning_rounds rounds' keys external_keys else mret (keys, external_keys)
  end.

Definition receipt_count (receipts actions : Z) : bytes :=
  bstr "PVM returned " ++ decimal receipts ++ bstr " action receipts for " ++ decimal actions ++ bstr " actions".

(** The input of the work and what the program makes of it here. *)
Definition predict (keys : list bytes) (external_keys : gmap Z (list bytes)) : io t (bytes * RefineOutput.t) :=
  witness ← build_witness service_key parent_root keys;
  external_witnesses ← build_external_witnesses context external_keys;
  encoded ← lift (map_err BE_Wire
    (RefineInput.encode (RefineInput.mk RefineInput.VERSION witness external_witnesses actions)));
  prediction ← lift (PvmApplication.refine_for_service_id pvm encoded network_domain (Some service_id));
  ensure (blen (RefineOutput.receipts prediction) =? blen actions) (BE_Rpc (receipt_count (blen (RefineOutput.receipts prediction)) (blen actions)));;
  ensure (bool_decide (RefineOutput.parent_root prediction = parent_root)) (BE_Rpc (bstr "PVM parent root disagrees with chain"));;
  mret (encoded, prediction).
End Planning.

(** *** [submit_actions] *)

Definition context_json (context : FinalizedContextV1) : value :=
  v_object [(bstr "blockHash", v_hash (fc_block_hash context)); (bstr "stateRoot", v_hash (fc_state_root context));
            (bstr "slot", v_num (fc_slot context))].

(** Everything before the network is asked. *)
Definition prepare_work (params : value) (actions : list bytes) : io t (value * RefineOutput.t * Z) :=
  service_id ← lift (required_u32 params (bstr "serviceId"));
  code_hash ← lift (required_hash params (bstr "serviceCodeHash"));
  record ← reads (fun s => BackendState.get_service s service_id);
  reads (fun s => bail_if BackendState.is_corrupt s service_id with BE_ServiceCorrupt service_id ;; Ok tt);;
  ensure (bool_decide (sr_code_hash record = code_hash)) BE_CodeHashMismatch;;
  context ← net n_finalized_context;
  network_domain ← net n_genesis_hash;
  lift (check_requested_context params context);;
  pvm ← net (PvmApplication.load_pvm (sr_application_artifact record));
  keys ← lift (initial_keys network_domain actions);
  commitment ← read_commitment context service_id;
  parent_root ← lift (committed_root commitment);
  current ← reads (fun s => BackendState.current_root s service_id);
  ensure (bool_decide (current = parent_root)) BE_StateNotMaterialized;;
  '(keys, external_keys) ← planning_rounds pvm actions context network_domain service_id (sr_service_key record) parent_root
                             PLANNING_ROUNDS keys ∅;
  '(encoded, prediction) ← predict pvm actions context network_domain service_id (sr_service_key record) parent_root
                             keys external_keys;
  let forwarded := v_set params (bstr "context") (context_json context) in
  let forwarded := v_set forwarded (bstr "payloadBase64") (v_string (b64_encode encoded)) in
  mret (forwarded, prediction, service_id).

(** An error before the network was asked says so. *)
Definition not_submitted (error : BackendError) : BackendError :=
  match error with
  | BE_StaleContext => BE_StaleContext
  | BE_GuestFault fault => BE_NotSubmittedGuestFault fault
  | BE_PvmOutOfGas service_id code_hash stage => BE_NotSubmittedPvmOutOfGas service_id code_hash stage
  | error => BE_NotSubmitted (error_text error)
  end.

Definition map_error {A} (f : BackendError -> BackendError) (m : io t A) : io t A := fun e =>
  let '(r, e) := m e in (map_err f r, e).

(** After the network answered. *)
Definition settle_submission (service_id : Z) (prediction : RefineOutput.t) (response : value) : io t (value * RefineOutput.t) :=
  package_hash ← lift (optional_hash response (bstr "packageHash"));
  package_hash ← lift (ok_or package_hash (BE_Rpc (bstr "Formal response omitted packageHash")));
  on_state (BackendState.track_prediction service_id package_hash prediction);;
  mret (if v_is_object response then
          v_set (v_set response (bstr "packageHash") (v_hash package_hash)) (bstr "prediction")
            (v_object [(bstr "parentRoot", v_hash (RefineOutput.parent_root prediction));
                       (bstr "newRoot", v_hash (RefineOutput.new_root prediction))])
        else response, prediction).

Definition submit_actions (params : value) (actions : list bytes) : io t (value * RefineOutput.t) :=
  '(forwarded, prediction, service_id) ← map_error not_submitted (prepare_work params actions);
  response ← call_submit_work forwarded;
  settle_submission service_id prediction response.

(** [BASE64.decode(text).map_err(|error| ..)]. *)
Definition decode_base64 (name text : bytes) : result bytes BackendError :=
  map_err (fun error => BE_Rpc (bstr "invalid " ++ name ++ bstr ": " ++ error)) (b64_decode text).

Definition submit (params : value) : io t value :=
  text ← lift (required_str params (bstr "payloadBase64"));
  action ← lift (decode_base64 (bstr "payloadBase64") text);
  '(result, _) ← submit_actions params [action];
  mret result.

(** *** [status] *)

(** The prediction is left behind when the chain is at neither end of it. *)
Definition drop_stale (key : WorkKey) (output : RefineOutput.t) (root : bytes) : io t unit := fun e =>
  if negb (bool_decide (root = RefineOutput.parent_root output)) && negb (bool_decide (root = RefineOutput.new_root output))
  then (Err BE_PredictionStale,
        mk (BackendState.set_work (delete key (BackendState.pending (e_state e))) (BackendState.predictions (e_state e))
              (BackendState.finalized (e_state e)) (e_state e)) (e_net e) (e_answers e))
  else (Ok tt, e).

Definition settle_status (key : WorkKey) (context : FinalizedContextV1) (root : bytes) (result : value) : io t value :=
  expected ← reads (fun s => Ok (BackendState.prediction s (wk_service_id key) (wk_package_hash key)));
  match expected with Some output => drop_stale key output root | None => mret tt end;;
  on_state (fun s => (Ok tt, BackendState.set_contexts
                               (<[wk_service_id key := context]> (BackendState.finalized_contexts s)) s));;
  on_state (BackendState.materialize_if_canonical key root);;
  mret (match expected with
        | Some output =>
            if bool_decide (root = RefineOutput.new_root output) && v_is_object result
            then v_set result (bstr "actionReceipts") (canonical_action_receipts (RefineOutput.receipts output))
            else result
        | None => result
        end).

Definition status (params : value) : io t value :=
  result ← net (n_work_status params);
  let result := if v_is_object result then v_remove result (bstr "actionReceipts") else result in
  match v_get params (bstr "packageHash") ≫= v_as_str with
  | None => mret result
  | Some package =>
      package_hash ← lift (parse_hash package);
      match v_get params (bstr "serviceId") ≫= as_u32 with
      | None => mret result
      | Some service_id =>
          if negb (bool_decide (v_get result (bstr "status") ≫= v_as_str = Some (bstr "imported"))) then mret result
          else
            context ← net n_finalized_context;
            commitment ← read_commitment context service_id;
            match commitment ≫= (fun bytes => match Commitment.decode bytes with Ok c => Some (Commitment.root c) | Err _ => None end) with
            | None => mret result
            | Some root => settle_status (mkWorkKey service_id package_hash) context root result
            end
      end
  end.
End Ops.
End BackendEngine.

(** ** What a submission leaves *)

Section Laws.
Context `{Blake2} `{Trie} `{RocksDb} `{SerdeJson} {P : Type} `{ApplicationPlanner P}.
Context `{Json} {N : Type} `{!BackendNetwork N} `{ArtifactStore N} `{Polkavm} `{PayloadBase64} `{ErrorText}.
Import BackendEngine.

(** A computation that asks the network nothing but questions: neither the
    state nor the submissions change. *)
Definition silent {A} (m : io (t (P := P) (N := N)) A) : Prop :=
  forall e r e', m e = (r, e') -> e_state e' = e_state e /\ e_answers e' = e_answers e.

Lemma silent_ret {A} (a : A) : silent (mret a).
Proof. intros e r e' [= <- <-]. done. Qed.
Lemma silent_lift {A} (r : result A BackendError) : silent (lift r).
Proof. intros e r' e' [= <- <-]. done. Qed.
Lemma silent_ensure c error : silent (ensure c error).
Proof. intros e r' e' [= <- <-]. done. Qed.
Lemma silent_reads {A} (f : _ -> result A BackendError) : silent (reads f).
Proof. intros e r' e' [= <- <-]. done. Qed.
Lemma silent_net {A} (m : io N A) : silent (net m).
Proof. intros e r e'. unfold net. destruct (m (e_net e)). by intros [= <- <-]. Qed.
Lemma silent_bind {A B} (m : io (t (P := P) (N := N)) A) (k : A -> io (t (P := P) (N := N)) B) :
  silent m -> (forall a, silent (k a)) -> silent (m ≫= k).
Proof.
  intros Hm Hk e r e'. unfold mbind, io_bind. destruct (m e) as [[a|error] e1] eqn:Hme.
  - intros Hke. destruct (Hm _ _ _ Hme) as [<- <-]. by apply (Hk a e1 r).
  - intros [= <- <-]. by eapply Hm.
Qed.
Lemma silent_map {A B} (f : A -> io (t (P := P) (N := N)) B) l : (forall x, silent (f x)) -> silent (io_map f l).
Proof.
  intros Hf. induction l as [|x l IH]; cbn [io_map]; [apply silent_ret|]. apply silent_bind; [apply Hf|]. intros y.
  apply silent_bind; [exact IH|]. intros ys. apply silent_ret.
Qed.

Hint Resolve silent_ret silent_lift silent_ensure silent_reads silent_net silent_bind silent_map : silent.
Ltac silently := repeat first [progress intros | case_match | apply silent_bind | solve [eauto with silent]].

Lemma silent_witness key root keys : silent (build_witness key root keys).
Proof. unfold build_witness. silently. Qed.
Hint Resolve silent_witness : silent.

Lemma silent_commitment context id : silent (read_commitment context id).
Proof. apply silent_net. Qed.
Hint Resolve silent_commitment : silent.

Lemma silent_externals context requested : silent (build_external_witnesses context requested).
Proof. apply silent_map. intros [id keys]. unfold build_external_witness. silently. Qed.
Hint Resolve silent_externals : silent.

Lemma silent_rounds pvm actions context domain id key root rounds : forall keys external,
  silent (planning_rounds pvm actions context domain id key root rounds keys external).
Proof. induction rounds as [|rounds IH]; intros keys external; cbn [planning_rounds]; silently. Qed.
Hint Resolve silent_rounds : silent.

Lemma silent_predict pvm actions context domain id key root keys external :
  silent (predict pvm actions context domain id key root keys external).
Proof. unfold predict. silently. Qed.
Hint Resolve silent_predict : silent.

Lemma silent_prepare params actions : silent (prepare_work params actions).
Proof. unfold prepare_work. silently. Qed.

(** The errors that say that the network was not asked, or refused. *)
Definition refusal (error : BackendError) : bool :=
  match error with
  | BE_StaleContext | BE_NotSubmitted _ | BE_NotSubmittedGuestFault _ | BE_NotSubmittedPvmOutOfGas _ _ _ | BE_QueueFull _ => true
  | _ => false
  end.

(** Submissions the network may have accepted. *)
Definition may_be_accepted (answer : result value BackendError) : bool :=
  match answer with Ok _ => true | Err error => negb (refusal error) end.

Lemma not_submitted_refusal error : refusal (not_submitted error) = true.
Proof. by destruct error. Qed.

Lemma io_bind_inv {W A B} (m : io W A) (k : A -> io W B) w r w' :
  (m ≫= k) w = (r, w') ->
  (exists a w1, m w = (Ok a, w1) /\ k a w1 = (r, w')) \/ (exists error, m w = (Err error, w') /\ r = Err error).
Proof.
  unfold mbind, io_bind. destruct (m w) as [[a|error] w1]; [intros Hk; left; eauto|]. intros [= <- <-]. right. eauto.
Qed.

(** A computation that submits nothing. *)
Definition quiet {A} (m : io (t (P := P) (N := N)) A) : Prop := forall e r e', m e = (r, e') -> e_answers e' = e_answers e.

Lemma quiet_silent {A} (m : io (t (P := P) (N := N)) A) : silent m -> quiet m.
Proof. intros Hm e r e' He. by apply (Hm e r e'). Qed.
Lemma quiet_on_state {A} (m : _ -> result A BackendError * BackendState.t (P := P)) : quiet (on_state m : io (t (P := P) (N := N)) A).
Proof. intros e r e'. unfold on_state. destruct (m (e_state e)). by intros [= <- <-]. Qed.
Lemma quiet_bind {A B} (m : io (t (P := P) (N := N)) A) (k : A -> io (t (P := P) (N := N)) B) :
  quiet m -> (forall a, quiet (k a)) -> quiet (m ≫= k).
Proof.
  intros Hm Hk e r e' [(a & e1 & Hme & Hke)|(error & Hme & _)]%io_bind_inv; [|by eapply Hm].
  rewrite (Hk _ _ _ _ Hke). by eapply Hm.
Qed.
Hint Resolve quiet_silent quiet_on_state : silent.

Lemma parse_hash_error text error : parse_hash text = Err error -> refusal error = false.
Proof.
  unfold parse_hash. destruct (negb _); [by intros [= <-]|]. generalize (strip_0x text). clear text.
  fix IH 1. intros [|high [|low rest]]; cbn [hex_pairs]; [clear IH; done..|]. destruct (nibble high) as [h|eh] eqn:Hh.
  - destruct (nibble low) as [l|el] eqn:Hl.
    + specialize (IH rest). cbn [rbind]. destruct (hex_pairs rest); cbn [rbind]; [done|]. intros [= ->]. by apply IH.
    + clear IH. intros [= <-]. unfold nibble in Hl. repeat (case_match; [done|]). by injection Hl as <-.
  - clear IH. intros [= <-]. unfold nibble in Hh. repeat (case_match; [done|]). by injection Hh as <-.
Qed.

Lemma quiet_settle id prediction response : quiet (settle_submission id prediction response).
Proof.
  unfold settle_submission. do 3 (apply quiet_bind; [first [apply quiet_on_state | apply quiet_silent; silently]|intros ?]).
  apply quiet_silent. silently.
Qed.

Lemma settle_error id prediction response (e : t (P := P) (N := N)) error e' :
  settle_submission id prediction response e = (Err error, e') -> refusal error = false.
Proof.
  intros [(h & e3 & Hh & Hs)|(er & Hh & [= <-])]%io_bind_inv.
  2:{ injection Hh as Hh _. unfold optional_hash in Hh. destruct (_ ≫= v_as_str) as [text|]; [|discriminate Hh].
      destruct (parse_hash text) eqn:Ht; [discriminate Hh|]. injection Hh as <-. by eapply parse_hash_error. }
  apply io_bind_inv in Hs as [(h' & e4 & Hh' & Hs)|(er & Hh' & [= <-])].
  2:{ injection Hh' as Hh' _. destruct h; [discriminate Hh'|]. by injection Hh' as <-. }
  apply io_bind_inv in Hs as [(key & e5 & Hk & Hs)|(er & Hk & [= <-])]; [discriminate Hs|].
  unfold on_state, BackendState.track_prediction in Hk. destruct (BackendState.get_service (e_state e4) id) eqn:Hg; [discriminate Hk|].
  injection Hk as <- _. unfold BackendState.get_service in Hg. destruct (ServiceRegistry.get _ _); [discriminate Hg|]. by injection Hg as <-.
Qed.

(** [submit_actions] in its three parts. *)
Lemma submit_actions_inv params actions (e : t (P := P) (N := N)) r e' :
  submit_actions params actions e = (r, e') ->
  (exists error, r = Err (not_submitted error) /\ prepare_work params actions e = (Err error, e'))
  \/ exists forwarded prediction id e1, prepare_work params actions e = (Ok (forwarded, prediction, id), e1)
     /\ let '(answer, n) := n_submit_work forwarded (e_net e1) in
        let e2 := mk (e_state e1) n (e_answers e1 ++ [answer]) in
        match answer with
        | Err error => r = Err error /\ e' = e2
        | Ok response => settle_submission id prediction response e2 = (r, e')
        end.
Proof.
  intros Hs. unfold submit_actions in Hs. unfold mbind, io_bind, map_error in Hs.
  destruct (prepare_work params actions e) as [[((forwarded & prediction) & id)|error] e1]; cbn [map_err] in Hs.
  - right. exists forwarded, prediction, id, e1. split; [done|]. unfold call_submit_work in Hs.
    destruct (n_submit_work forwarded (e_net e1)) as [[response|error] n]; [done|]. by injection Hs as <- <-.
  - left. injection Hs as <- <-. by exists error.
Qed.

(** What [submit_actions] answers, against what it asked. *)
Lemma submit_actions_cases params actions (e : t (P := P) (N := N)) r e' :
  submit_actions params actions e = (r, e') ->
  (exists error, r = Err error /\ refusal error = true /\ e_answers e' = e_answers e /\ e_state e' = e_state e)
  \/ (exists answer, e_answers e' = e_answers e ++ [answer]
      /\ match r with
         | Ok _ => exists v, answer = Ok v
         | Err error => answer = Err error \/ (exists v, answer = Ok v) /\ refusal error = false
         end).
Proof.
  intros [(error & -> & Hp)|(forwarded & prediction & id & e1 & Hp & Hs)]%submit_actions_inv;
    destruct (silent_prepare _ _ _ _ _ Hp) as [Hst Han].
  { left. exists (not_submitted error). split_and!; try done. apply not_submitted_refusal. }
  right. destruct (n_submit_work forwarded (e_net e1)) as [[response|error] n].
  - exists (Ok response). rewrite (quiet_settle _ _ _ _ _ _ Hs). cbn. rewrite Han. split; [done|].
    destruct r; [by eexists|]. right. split; [by eexists|]. by eapply settle_error.
  - destruct Hs as [-> ->]. exists (Err error). cbn. rewrite Han. split; [done|]. by left.
Qed.
End Laws.
