(* ===== verification/EngineCorrect.v ===== *)
(** * What the engine of the backend guarantees

    Receipts are shown only for transitions that are canonical, and the
    prediction that goes with submitted work is what running its actions gives. *)

From S2P Require Import Prelude Ordering Reader Wire Fields ServiceKeys StateView StateDiff Records Witness RefineInput Dependencies RefineOutput Ownership Crypto Actions ActionsV2 GuestMemory State ModelTrie Overlays Execution Requests Guest GuestRuntime GuestActions GuestEntry GuestTyped Provider WorkBuilder BackendBase Registry Envelope Database BackendState JsonValue Engine.

(** Sortedness is a matter of the keys. *)
Lemma ssorted_of_keys {A B} (f : A -> Z) (g : B -> Z) (l : list A) (k : list B) :
  map f l = map g k -> key_ssorted g k -> key_ssorted f l.
Proof.
  intros Hm Hk. revert l Hm. unfold key_ssorted in Hk. induction Hk as [|y k Hk IH Hy]; intros [|x l] Heq; try discriminate Heq.
  { constructor. }
  cbn [map] in Heq. injection Heq as Hx Hl. constructor; [by apply IH|]. rewrite List.Forall_forall in Hy |- *. intros a Ha.
  assert (f a ∈ map g k) as (b & Hb & Hin)%list_elem_of_fmap_1 by (rewrite <- Hl; by apply list_elem_of_fmap_2, list_elem_of_In).
  rewrite Hx, Hb. by apply Hy, list_elem_of_In.
Qed.

Lemma result_Ok_inj {A E} (a b : A) : Ok a = Ok b :> result A E -> a = b.
Proof. by intros [= ->]. Qed.

Section Correct.
Context `{Blake2} `{TrieLaws} `{RocksDb} `{SerdeJson} {P : Type} `{ApplicationPlanner P}.
Context `{JsonLaws} {N : Type} `{!BackendNetwork N} `{ArtifactStore N} `{Polkavm} `{PayloadBase64} `{ErrorText}.
Import BackendEngine.
Notation engine := (BackendEngine.t (P := P) (N := N)).

(** One successful step of a computation. *)
Ltac io_step H :=
  let x := fresh "x" in let e := fresh "e" in let Hx := fresh "Hx" in
  apply io_bind_inv in H as [(x & e & Hx & H)|(? & _ & H)]; [|discriminate H].

(** *** Receipts *)

Lemma net_Ok {A} (m : io N A) (e : engine) a e' : net m e = (Ok a, e') -> m (e_net e) = (Ok a, e_net e') /\ e_state e' = e_state e.
Proof. unfold net. destruct (m (e_net e)) as [r n] eqn:Hm. intros [= -> <-]. done. Qed.

Lemma lift_Ok {W A} (r : result A BackendError) (w : W) a w' : lift r w = (Ok a, w') -> r = Ok a /\ w' = w.
Proof. by intros [= -> ->]. Qed.

Lemma no_receipts result :
  v_get (if v_is_object result then v_remove result (bstr "actionReceipts") else result) (bstr "actionReceipts") = None.
Proof.
  destruct (v_is_object result) eqn:Ho; [|by apply get_no_object]. rewrite get_remove by done. by rewrite decide_True.
Qed.

Lemma settle_receipts key context root result (e : engine) v e' receipts :
  v_get result (bstr "actionReceipts") = None ->
  settle_status key context root result e = (Ok v, e') -> v_get v (bstr "actionReceipts") = Some receipts ->
  exists output, BackendState.prediction (e_state e) (wk_service_id key) (wk_package_hash key) = Some output
    /\ RefineOutput.new_root output = root /\ receipts = canonical_action_receipts (RefineOutput.receipts output)
    /\ (BackendState.pending (e_state e) !! key = Some output -> BackendState.is_finalized (e_state e') key = true).
Proof.
  intros Hnone Hs Hr. unfold settle_status in Hs. io_step Hs. injection Hx as <- <-. io_step Hs. io_step Hs. io_step Hs.
  injection Hs as <- <-. destruct (BackendState.prediction _ _ _) as [output|]; [|congruence].
  case_bool_decide as Hroot; cbn [andb] in Hr; [|congruence]. destruct (v_is_object result) eqn:Ho; [|congruence].
  rewrite get_set, decide_True in Hr by done. injection Hr as <-. exists output. split_and!; try done.
  unfold drop_stale in Hx. rewrite (bool_decide_eq_true_2 (root = RefineOutput.new_root output)) in Hx by done.
  rewrite andb_false_r in Hx. injection Hx as _ <-. unfold on_state in Hx0. injection Hx0 as _ <-.
  intros Hp. unfold on_state, BackendState.materialize_if_canonical in Hx1. cbn [e_state BackendState.set_contexts BackendState.pending] in Hx1.
  rewrite Hp, bool_decide_eq_true_2 in Hx1 by done. cbn [negb] in Hx1.
  destruct (BackendState.get_service _ _) as [record|]; [|discriminate Hx1].
  destruct (BackendState.commit_recovery _ _ _ _) as [[[]|error] s1]; [|discriminate Hx1]. injection Hx1 as <- <-.
  unfold BackendState.is_finalized. cbn. apply bool_decide_eq_true. set_solver.
Qed.

(** What [status] found out when it answers with receipts. *)
Definition canonical_on_chain (params : value) (e : engine) (id : Z) (root : bytes) : Prop :=
  exists answer n1 context n2 commitment n3 c,
    n_work_status params (e_net e) = (Ok answer, n1)
    /\ v_get answer (bstr "status") ≫= v_as_str = Some (bstr "imported")
    /\ n_finalized_context n1 = (Ok context, n2)
    /\ n_service_storage_at context id MANAGED_STATE_COMMITMENT_KEY_V1 n2 = (Ok (Some commitment), n3)
    /\ Commitment.decode commitment = Ok c /\ Commitment.root c = root.

(** A status that shows receipts reached its last step. *)
Lemma status_settles params (e : engine) result e' receipts :
  status params e = (Ok result, e') -> v_get result (bstr "actionReceipts") = Some receipts ->
  exists id text package root context result0 e0,
    v_get params (bstr "serviceId") ≫= as_u32 = Some id /\ v_get params (bstr "packageHash") ≫= v_as_str = Some text
    /\ parse_hash text = Ok package /\ canonical_on_chain params e id root
    /\ (exists n n', n_finalized_context n = (Ok context, n')) /\ v_get result0 (bstr "actionReceipts") = None
    /\ e_state e0 = e_state e /\ settle_status (mkWorkKey id package) context root result0 e0 = (Ok result, e').
Proof.
  intros Hs Hr. unfold status in Hs. io_step Hs. apply net_Ok in Hx as [Hstat Hst0]. pose proof (no_receipts x) as Hnone.
  assert (v_get (if v_is_object x then v_remove x (bstr "actionReceipts") else x) (bstr "status") = v_get x (bstr "status")) as Hstatus.
  { destruct (v_is_object x) eqn:Ho; [|done]. by rewrite get_remove, decide_False. }
  set (result0 := if v_is_object x then _ else _) in *. clearbody result0.
  destruct (v_get params (bstr "packageHash") ≫= v_as_str) as [text|] eqn:Htext; [|injection Hs as -> ->; congruence].
  io_step Hs. apply lift_Ok in Hx as [Hpk ->].
  destruct (v_get params (bstr "serviceId") ≫= as_u32) as [id|] eqn:Hid; [|injection Hs as -> ->; congruence].
  case_bool_decide as Himp; cbn [negb] in Hs; [|injection Hs as -> ->; congruence]. rewrite Hstatus in Himp.
  io_step Hs. apply net_Ok in Hx as [Hctx Hst1]. io_step Hs. apply net_Ok in Hx as [Hcom Hst2].
  destruct x2 as [commitment|]; cbn [mbind option_bind] in Hs; [|injection Hs as -> ->; congruence].
  destruct (Commitment.decode commitment) as [c|er] eqn:Hc; [|injection Hs as -> ->; congruence].
  exists id, text, x0, (Commitment.root c), x1, result0, e2. split_and!; try done; [..|congruence].
  - by exists x, (e_net e0), x1, (e_net e1), commitment, (e_net e2), c.
  - by exists (e_net e0), (e_net e1).
Qed.

Lemma status_receipts params (e : engine) result e' receipts :
  status params e = (Ok result, e') -> v_get result (bstr "actionReceipts") = Some receipts ->
  exists id text package output,
    v_get params (bstr "serviceId") ≫= as_u32 = Some id /\ v_get params (bstr "packageHash") ≫= v_as_str = Some text
    /\ parse_hash text = Ok package /\ BackendState.prediction (e_state e) id package = Some output
    /\ canonical_on_chain params e id (RefineOutput.new_root output)
    /\ receipts = canonical_action_receipts (RefineOutput.receipts output)
    /\ (BackendState.pending (e_state e) !! mkWorkKey id package = Some output ->
        BackendState.is_finalized (e_state e') (mkWorkKey id package) = true).
Proof.
  intros Hs Hr. destruct (status_settles _ _ _ _ _ Hs Hr) as (id & text & package & root & context & result0 & e0 & Hid & Htext & Hpk & Hchain & _ & Hnone & Hst & Hset).
  destruct (settle_receipts _ _ _ _ _ _ _ _ Hnone Hset Hr) as (output & Hp & <- & Hrec & Hfin). cbn [wk_service_id wk_package_hash] in *.
  rewrite Hst in Hp, Hfin. by exists id, text, package, output.
Qed.

(** The state [status] answers with is the one the formal service reported. *)
Lemma status_reported params (e : engine) result e' :
  status params e = (Ok result, e') ->
  exists answer n', n_work_status params (e_net e) = (Ok answer, n') /\ v_get result (bstr "status") = v_get answer (bstr "status").
Proof.
  unfold status. intros Hst. apply io_bind_inv in Hst as [(answer & e1 & Hn & Hst)|(? & _ & Hst)]; [|discriminate Hst].
  apply net_Ok in Hn as [Hn _]. exists answer, (e_net e1). split; [done|]. cbv zeta in Hst.
  assert (v_get (if v_is_object answer then v_remove answer (bstr "actionReceipts") else answer) (bstr "status") = v_get answer (bstr "status")) as <-.
  { destruct (v_is_object answer) eqn:Ho; [by field_of|done]. }
  set (result0 := if v_is_object answer then _ else _) in *. clearbody result0.
  destruct (v_get params (bstr "packageHash") ≫= v_as_str); [|by injection Hst as -> _].
  apply io_bind_inv in Hst as [(hash & e2 & _ & Hst)|(? & _ & Hst)]; [|discriminate Hst].
  destruct (v_get params (bstr "serviceId") ≫= as_u32); [|by injection Hst as -> _]. case_match; [by injection Hst as -> _|].
  apply io_bind_inv in Hst as [(context & e3 & _ & Hst)|(? & _ & Hst)]; [|discriminate Hst].
  apply io_bind_inv in Hst as [(commitment & e4 & _ & Hst)|(? & _ & Hst)]; [|discriminate Hst].
  destruct (commitment ≫= _) as [root|]; [|by injection Hst as -> _]. unfold settle_status in Hst.
  do 4 (apply io_bind_inv in Hst as [(? & ? & _ & Hst)|(? & _ & Hst)]; [|discriminate Hst]). injection Hst as <- _.
  case_match; [|done]. destruct (v_is_object result0) eqn:Ho; [|by rewrite andb_false_r]. rewrite andb_true_r. case_match; [by field_of|done].
Qed.

(** A prediction the chain went past is an error on every request: only the pending
    entry is dropped, and the check looks at the predictions. *)
Lemma status_stale params (e : engine) id text package output root :
  canonical_on_chain params e id root ->
  v_get params (bstr "serviceId") ≫= as_u32 = Some id -> v_get params (bstr "packageHash") ≫= v_as_str = Some text ->
  parse_hash text = Ok package -> BackendState.prediction (e_state e) id package = Some output ->
  root <> RefineOutput.parent_root output -> root <> RefineOutput.new_root output ->
  exists e', status params e = (Err BE_PredictionStale, e')
    /\ BackendState.prediction (e_state e') id package = Some output
    /\ BackendState.pending (e_state e') !! mkWorkKey id package = None.
Proof.
  intros (answer & n1 & context & n2 & commitment & n3 & c & Hans & Himp & Hctx & Hcom & Hc & <-) Hid Htext Hpk Hpred Hne1 Hne2.
  assert (forall A (m : io N A) (e0 : engine) a n, m (e_net e0) = (Ok a, n) -> net m e0 = (Ok a, mk (e_state e0) n (e_answers e0))) as Hnet.
  { intros A m e0 a n Hm. unfold net. by rewrite Hm. }
  unfold status. unfold mbind at 1, io_bind at 1. rewrite (Hnet _ _ _ _ _ Hans). cbv zeta. rewrite Htext.
  assert (v_get (if v_is_object answer then v_remove answer (bstr "actionReceipts") else answer) (bstr "status") = v_get answer (bstr "status")) as ->.
  { destruct (v_is_object answer) eqn:Ho; [|done]. by rewrite get_remove, decide_False. }
  unfold mbind at 1, io_bind at 1. unfold lift. rewrite Hpk, Hid, Himp. rewrite bool_decide_eq_true_2 by done. cbn [negb].
  unfold mbind at 1, io_bind at 1. rewrite (Hnet _ _ (mk _ _ _) _ _ Hctx).
  unfold mbind at 1, io_bind at 1, read_commitment. rewrite (Hnet _ _ (mk _ _ _) _ _ Hcom). cbn [e_state e_answers mbind option_bind].
  rewrite Hc. unfold settle_status. unfold mbind at 1, io_bind at 1, reads. cbn [wk_service_id wk_package_hash e_state]. rewrite Hpred.
  unfold mbind at 1, io_bind at 1, drop_stale. rewrite !bool_decide_eq_false_2 by done. cbn [negb andb e_state].
  eexists. split; [reflexivity|]. split; [exact Hpred|]. cbn. apply lookup_delete_eq.
Qed.

(** *** Witnesses *)


Lemma build_witness_Ok key root keys (e : engine) w e' :
  FullStateProvider.ok (BackendState.provider (e_state e)) -> array_ok 32 root ->
  build_witness key root keys e = (Ok w, e') ->
  e' = e /\ StateWitness.valid w /\ StateWitness.parent_root w = root
  /\ exists m, FullStateProvider.holds (BackendState.provider (e_state e)) key root m /\ root = root_of m.
Proof.
  intros Hp Hroot Hw. unfold build_witness in Hw. io_step Hw. apply lift_Ok in Hx as [Hplan%map_err_Ok ->].
  unfold reads in Hw. injection Hw as Hw%map_err_Ok <-. split; [done|].
  destruct (full_state_provides _ Hp) as [Hpr _ Hpw]. destruct (Hpw key root x w Hw) as (m & Hm & Hr & Hv & Hpl).
  split; [|split; [done|]].
  - unfold StateWitness.valid. rewrite Hr, Hpl. split_and!; try done. by eapply AccessPlan.from_keys_valid.
  - exists m. split; [done|]. by eapply Hpr.
Qed.

Lemma commitment_array bytes c : Commitment.decode bytes = Ok c -> array_ok 32 (Commitment.root c).
Proof. intros Hd. by destruct (@codec_sound _ _ _ _ Commitment.canonical bytes c Hd) as [(_ & _ & ?) _]. Qed.

(** A witness of another service, and the map it is of. *)
Definition external_of (s : BackendState.t (P := P)) (w : ExternalWitness.t) (m : kv) : Prop :=
  ExternalWitness.item_ok w /\ StateWitness.parent_root (ExternalWitness.managed_state w) = root_of m
  /\ exists record, BackendState.get_service s (ExternalWitness.service_id w) = Ok record
     /\ FullStateProvider.holds (BackendState.provider s) (sr_service_key record) (root_of m) m.

Lemma get_service_u32 s id record : BackendState.core (P := P) s -> BackendState.get_service s id = Ok record -> u32_ok id.
Proof.
  intros Hs Hg. unfold BackendState.get_service, ServiceRegistry.get in Hg. apply map_err_Ok, ok_or_Ok in Hg.
  by destruct (BackendState.record_id _ _ _ Hs Hg) as (_ & ? & _).
Qed.

Lemma build_external_Ok context request (e : engine) w e' :
  BackendState.core (e_state e) -> build_external_witness context request e = (Ok w, e') ->
  e_state e' = e_state e /\ ExternalWitness.service_id w = request.1 /\ exists m, external_of (e_state e) w m.
Proof.
  destruct request as [id keys]. intros Hs Hw. unfold build_external_witness in Hw. io_step Hw. injection Hx as Hg <-.
  io_step Hw. apply net_Ok in Hx as [_ Hst]. io_step Hw. apply lift_Ok in Hx as [_ ->]. io_step Hw.
  apply lift_Ok in Hx as [Hc%map_err_Ok ->]. io_step Hw. injection Hx as _ <-. io_step Hw. injection Hx as _ <-. io_step Hw.
  injection Hw as <- <-. pose proof (BackendState.ok_provider _ Hs) as Hp. rewrite <- Hst in Hp.
  destruct (build_witness_Ok _ _ _ _ _ _ Hp (commitment_array _ _ Hc) Hx) as (-> & Hv & Hr & m & Hm & Hroot). rewrite Hst in Hm.
  split; [done|]. split; [done|]. exists m. unfold external_of. cbn. rewrite Hr. split; [|split; [done|]].
  - split; [by eapply get_service_u32|done].
  - exists x. split; [done|]. by rewrite <- Hroot.
Qed.

Lemma io_map_Forall2 {A B} (f : A -> io engine B) (R : A -> B -> Prop) (I : engine -> Prop) :
  (forall x e y e', I e -> f x e = (Ok y, e') -> I e' /\ R x y) ->
  forall l e ys e', I e -> io_map f l e = (Ok ys, e') -> I e' /\ Forall2 R l ys.
Proof.
  intros Hf. induction l as [|x l IH]; intros e ys e' He Hl; cbn [io_map] in Hl.
  { injection Hl as <- <-. split; [done|constructor]. }
  io_step Hl. destruct (Hf _ _ _ _ He Hx) as [He1 Hr]. io_step Hl. injection Hl as <- <-.
  destruct (IH _ _ _ He1 Hx0) as [He2 Hr2]. split; [done|]. by constructor.
Qed.

(** All of them, in the order of the services. *)
Lemma externals_Ok context requested (e : engine) ws e' :
  BackendState.core (e_state e) -> build_external_witnesses context requested e = (Ok ws, e') ->
  e_state e' = e_state e /\ ExternalWitness.valid ws
  /\ exists others, others_ok others ws
       /\ forall w, w ∈ ws -> exists m, others !! ExternalWitness.service_id w = Some m /\ external_of (e_state e) w m.
Proof.
  intros Hs Hw. apply (io_map_Forall2 _ (fun request w => ExternalWitness.service_id w = request.1
    /\ exists m, external_of (e_state e) w m) (fun e1 => e_state e1 = e_state e)) in Hw as [Hst Hws]; [|clear Hw|done].
  2:{ intros request e1 w e2 He1 Hb. rewrite <- He1 in Hs. destruct (build_external_Ok _ _ _ _ _ Hs Hb) as (He2 & Hid & Hm).
      by rewrite <- He1. }
  split; [done|].
  assert (map ExternalWitness.service_id ws = map fst (sort_by_key fst (map_to_list requested))) as Hids.
  { clear -Hws. induction Hws as [|r w l ws [Hid _] _ IH]; [done|]. cbn. by rewrite Hid, IH. }
  assert (NoDup (map ExternalWitness.service_id ws)) as Hnd.
  { rewrite Hids, sort_by_key_perm. apply NoDup_fst_map_to_list. }
  assert (key_ssorted ExternalWitness.service_id ws) as Hsorted.
  { apply (ssorted_of_keys _ fst ws (sort_by_key fst (map_to_list requested)) Hids).
    apply sort_by_key_ssorted, NoDup_fst_map_to_list. }
  assert (Forall (fun w => exists m, external_of (e_state e) w m) ws) as Hall.
  { clear -Hws. induction Hws as [|r w l ws [_ Hm] _ IH]; by constructor. }
  split; [split; [|done]; eapply Forall_impl; [exact Hall|]; intros w (m & Hi & _); exact Hi|].
  clear -Hall Hnd. induction Hall as [|w ws [m Hm] _ IH].
  { exists ∅. split; [split; [set_solver|intros id m; by rewrite lookup_empty]|set_solver]. }
  cbn [map] in Hnd. apply NoDup_cons in Hnd as [Hni Hnd]. destruct (IH Hnd) as (others & [Ho1 Ho2] & Hin).
  exists (<[ExternalWitness.service_id w := m]> others).
  assert (forall w', w' ∈ ws -> ExternalWitness.service_id w' <> ExternalWitness.service_id w) as Hne.
  { intros w' Hw' Heq. apply Hni. rewrite <- Heq. by apply list_elem_of_fmap_2. }
  split; [split|].
  - intros w' [->|Hw']%elem_of_cons.
    + exists m. rewrite lookup_insert_eq. split; [done|]. by destruct Hm as (_ & ? & _).
    + rewrite lookup_insert_ne by (by apply not_eq_sym, Hne). by apply Ho1.
  - intros id m' [[<- <-]|[_ Hm']]%lookup_insert_Some; [exists w; set_solver|]. destruct (Ho2 id m' Hm') as (w' & ? & ?). exists w'. set_solver.
  - intros w' [->|Hw']%elem_of_cons; [exists m; by rewrite lookup_insert_eq|].
    rewrite lookup_insert_ne by (by apply not_eq_sym, Hne). by apply Hin.
Qed.

(** *** What the virtual machine runs *)

Context `{!Blake2Len} `{Schnorrkel} `{Ed25519Dalek} `{K256} `{Sha3} `{UrlBase64}.

(** The artifact is the guest runtime with a service: a call of its export is a
    run of the entry point, on a host that passes the payload and the network
    domain and has some allocator; roots have their size. *)
Definition runs_service (code : bytes) (d : ServiceDescriptor) : Prop :=
  forall payload domain id output, pvm_invoke code (bstr "minijam_refine") payload domain id = Ok output ->
  exists reset, let host := mkHost (Some payload) (Some domain) reset in
    output = GuestEntry.minijam_refine d host /\ roots_sized d host.

Lemma refine_input_slice i b : RefineInput.valid i -> RefineInput.encode i = Ok b -> slice_ok b.
Proof.
  intros (_ & Hv & Hx) (_ & (Hn & _ & Ht) & wit & ext & Hw & He & _ & _ & ->)%RefineInput.refine_input_encode_Ok.
  pose proof (StateWitness.encode_len _ _ (proj1 (proj2 Hv)) Hw).
  assert (blen ext <= MAX_EXTERNAL_WITNESS_TOTAL_BYTES) by (apply ExternalWitness.external_witness_encode_Ok in He as (_ & _ & _ & ?); [done|exact Hx]).
  unfold slice_ok, RefineInput.fmt. rewrite !blen_app, !blen_fmt_bytes_u32, blen_to_le_bytes, blen_fmt_items.
  change (blen [RefineInput.version i]) with 1. unfold_limits. simpl. lia.
Qed.

(** The entry point of the service, wherever it runs on this payload (with memory
    to run in), writes this output. *)
Definition refines_to (d : ServiceDescriptor) (domain payload : bytes) (output : RefineOutput.t) : Prop :=
  forall host, gh_payload host = Some payload -> gh_network_domain host = Some domain ->
  gh_reset_runtime host (sd_heap_initial_bytes d) (sd_heap_max_bytes d) = true ->
  RefineOutput.decode (GuestEntry.minijam_refine d host) = Ok output.

Lemma refines_anywhere d domain payload output reset :
  RefineOutput.decode (GuestEntry.minijam_refine d (mkHost (Some payload) (Some domain) reset)) = Ok output ->
  roots_sized d (mkHost (Some payload) (Some domain) reset) -> refines_to d domain payload output.
Proof.
  intros Hd Hroots [p n reset'] Hp Hn Hreset. cbn in *. subst p n. rewrite <- Hd.
  apply published_iff in Hd as [(input & Hi & _)%rbind_Ok _]; [|done].
  unfold GuestEntry.minijam_refine, GuestEntry.output_for, GuestEntry.run_refine.
  assert (GuestEntry.runtime_input d (mkHost (Some payload) (Some domain) reset')
    = GuestEntry.runtime_input d (mkHost (Some payload) (Some domain) reset)) as ->; [|done].
  unfold GuestEntry.runtime_input in *. destruct (GuestRuntime.descriptor d); [|done]. cbn [rbind gh_reset_runtime] in *. rewrite Hreset.
  by apply bail_if_Ok in Hi as [-> _].
Qed.

(** A prediction is what refine computes on the input. *)
Lemma refine_runs pvm d i encoded domain id prediction :
  runs_service (PvmApplication.code pvm) d -> RefineInput.valid i -> RefineInput.encode i = Ok encoded ->
  PvmApplication.refine_for_service_id pvm encoded domain id = Ok prediction ->
  refines_to d domain encoded prediction /\ exists t, refine_internal (GuestRuntime.execute d) i domain = Ok t /\ publish t = Ok prediction.
Proof.
  intros Hruns Hv He Hr. apply rbind_Ok in Hr as (output & Ho & Hd%map_err_Ok).
  destruct (Hruns _ _ _ _ Ho) as (reset & -> & Hroots). split; [by eapply refines_anywhere|]. apply published_iff in Hd as [Hrun _]; [|done].
  apply rbind_Ok in Hrun as ([i' domain'] & Hi & Hrun). unfold GuestEntry.runtime_input in Hi.
  apply rbind_Ok in Hi as (u & _ & Hi). apply bail_if_Ok in Hi as [_ Hi]. cbn [gh_payload gh_network_domain ok_or rbind] in Hi.
  apply rbind_Ok in Hi as (i'' & Hdec%map_err_Ok & [= -> <-]).
  rewrite (proj2 (RefineInput.refine_input_decode_iff encoded i (refine_input_slice i encoded Hv He)) (conj Hv He)) in Hdec.
  injection Hdec as <-. apply rbind_Ok in Hrun as (t & Ht & Hp). by exists t.
Qed.

Lemma predicted_typed pvm encoded domain id prediction :
  PvmApplication.refine_for_service_id pvm encoded domain id = Ok prediction -> RefineOutput.typed prediction.
Proof.
  intros (output & _ & (_ & Hr & _)%map_err_Ok%RefineOutput.refine_output_decode_Ok)%rbind_Ok.
  by destruct (run_to_end_yields _ _ _ _ _ RefineOutput.refine_output_yields_parse Hr).
Qed.

(** *** Submitted work *)

Lemma predict_Ok pvm d actions context domain id key root keys external (e : engine) encoded prediction e' :
  BackendState.core (e_state e) -> array_ok 32 root -> runs_service (PvmApplication.code pvm) d ->
  predict pvm actions context domain id key root keys external e = (Ok (encoded, prediction), e') ->
  exists i m effects m',
    RefineOutput.typed prediction /\ RefineInput.encode i = Ok encoded /\ RefineInput.actions i = actions
    /\ refines_to d domain encoded prediction
    /\ FullStateProvider.holds (BackendState.provider (e_state e)) key root m
    /\ RefineOutput.parent_root prediction = root_of m /\ RefineOutput.new_root prediction = root_of m'
    /\ ledger d domain m actions (RefineOutput.receipts prediction) effects m'
    /\ FullStateProvider.recovers (BackendState.provider (e_state e)) key prediction m'.
Proof.
  intros Hs Hroot Hruns Hp. unfold predict in Hp. io_step Hp.
  destruct (build_witness_Ok _ _ _ _ _ _ (BackendState.ok_provider _ Hs) Hroot Hx) as (-> & Hwv & Hwr & m & Hm & Hrm). clear Hx.
  io_step Hp. destruct (externals_Ok _ _ _ _ _ Hs Hx) as (_ & Hev & others & Hothers & _). clear Hx. io_step Hp. apply lift_Ok in Hx as [Henc%map_err_Ok ->].
  io_step Hp. apply lift_Ok in Hx as [Href ->]. io_step Hp. injection Hx as _ <-. io_step Hp. injection Hx as _ <-.
  injection Hp as -> -> <-. set (i := RefineInput.mk _ _ _ _) in *.
  destruct (refine_runs pvm d i encoded domain (Some id) prediction Hruns) as (Hrefines & t & Ht & Hpub); [by split_and!|done|done|].
  destruct (refine_ledger d i domain m others t) as (effects & L & Hnew & _); [by cbn; rewrite Hwr|done|done|].
  assert (tr_parent_root t = root_of m /\ key_ssorted StateView.key (StateDiff.changes (tr_diff t))) as [Hpar Hsort].
  { destruct (refine_with_code_sound GENERIC_ERROR (GuestRuntime.execute d) i domain m others t) as (o & _ & Hpar & _ & _ & _ & _ & Hsort & _); try done.
    - apply Forall_forall. intros a _. apply execute_disciplined.
    - by cbn; rewrite Hwr. }
  pose proof (publish_Ok _ _ Hpub) as (Hp1 & Hp2 & Hp3 & _). exists i, m, effects, (apply_changes (StateDiff.changes (tr_diff t)) m).
  rewrite Hp1, Hp2, Hp3. split_and!; try done; [by eapply predicted_typed|]. eapply published_recovers; try done. by rewrite <- Hrm.
Qed.

Lemma committed_root_sized commitment root : committed_root commitment = Ok root -> array_ok 32 root.
Proof.
  unfold committed_root. destruct commitment as [bytes|]; [|by intros [= <-]].
  intros (c & Hc%map_err_Ok & [= <-])%rbind_Ok. by eapply commitment_array.
Qed.



(** The service of some artifact: whatever the store has under its digest. *)
Definition serves (s : BackendState.t (P := P)) (id : Z) (d : ServiceDescriptor) : Prop :=
  forall record n code n', BackendState.get_service s id = Ok record ->
    as_get_verified (ar_digest (sr_application_artifact record)) n = (Ok code, n') -> runs_service code d.

(** [work_of s id record d domain actions payload prediction m m' effects]: the
    input in [payload] is over the map [m] the service is at; the entry point of the
    service, run on it for the network with genesis [domain], writes the prediction,
    whose receipts tell how the actions turned [m] into [m']. *)
Record work_of (s : BackendState.t (P := P)) (id : Z) (record : ServiceRecord) (d : ServiceDescriptor) (domain : bytes)
    (actions : list bytes) (payload : bytes) (prediction : RefineOutput.t) (m m' : kv) (effects : list (option effect)) : Prop := {
  wo_record : BackendState.get_service s id = Ok record;
  wo_domain : exists n n' : N, n_genesis_hash n = (Ok domain, n');
  wo_refines : refines_to d domain payload prediction;
  wo_input : exists i, RefineInput.encode i = Ok payload /\ RefineInput.actions i = actions;
  wo_typed : RefineOutput.typed prediction;
  wo_head : BackendState.at_head s (sr_service_key record) m;
  wo_parent : RefineOutput.parent_root prediction = root_of m;
  wo_new : RefineOutput.new_root prediction = root_of m';
  wo_ledger : ledger d domain m actions (RefineOutput.receipts prediction) effects m';
  wo_recovers : FullStateProvider.recovers (BackendState.provider s) (sr_service_key record) prediction m'
}.

Lemma prepared_work d params actions (e : engine) forwarded prediction id e1 :
  BackendState.core (e_state e) ->
  (forall id, required_u32 params (bstr "serviceId") = Ok id -> serves (e_state e) id d) ->
  prepare_work params actions e = (Ok (forwarded, prediction, id), e1) ->
  required_u32 params (bstr "serviceId") = Ok id
  /\ exists record domain payload m m' effects,
       work_of (e_state e) id record d domain actions payload prediction m m' effects
       /\ v_get forwarded (bstr "payloadBase64") = Some (v_string (b64_encode payload)).
Proof.
  intros Hs Hd Hp. unfold prepare_work in Hp. io_step Hp. apply lift_Ok in Hx as [Hid ->]. io_step Hp. apply lift_Ok in Hx as [_ ->].
  io_step Hp. injection Hx as Hg <-. io_step Hp. injection Hx as _ <-. io_step Hp. injection Hx as _ <-.
  io_step Hp. apply net_Ok in Hx as [_ Hst1]. io_step Hp. apply net_Ok in Hx as [Hgen Hst2]. io_step Hp. apply lift_Ok in Hx as [_ ->].
  io_step Hp. apply net_Ok in Hx as [Hload Hst3]. io_step Hp. apply lift_Ok in Hx as [_ ->].
  io_step Hp. apply net_Ok in Hx as [_ Hst4]. io_step Hp. apply lift_Ok in Hx as [Hcom ->].
  io_step Hp. injection Hx as Hcur <-. io_step Hp. unfold ensure in Hx. case_bool_decide as Hroot; [|discriminate Hx]. injection Hx as _ <-. subst.
  io_step Hp. destruct (silent_rounds _ _ _ _ _ _ _ _ _ _ _ _ _ Hx) as [Hst5 _]. clear Hx. destruct x11 as [keys external].
  io_step Hp. destruct x11 as [payload prediction']. injection Hp as <- <- <- _. split; [done|].
  assert (e_state e5 = e_state e) as Hst by congruence. rewrite Hst4, Hst3, Hst2, Hst1 in Hcur.
  assert (runs_service (PvmApplication.code x7) d) as Hruns.
  { unfold PvmApplication.load_pvm in Hload. io_step Hload. io_step Hload. injection Hload as <- _. cbn. by eapply (Hd x Hid x1). }
  rewrite <- Hst in Hs. destruct (predict_Ok _ d _ _ _ _ _ _ _ _ _ _ _ _ Hs (committed_root_sized _ _ Hcom) Hruns Hx)
    as (i & m & effects & m' & Hty & He & Ha & Href & Hm & Hpar & Hnew & L & Hrec).
  rewrite Hst in *. exists x1, x5, payload, m, m', effects. split.
  - split; try done; [by eexists _, _|by exists i|]. unfold BackendState.at_head. unfold BackendState.current_root in Hcur.
    apply bail_if_Ok in Hcur as [_ Hcur]. rewrite Hg in Hcur. cbn [rbind] in Hcur. by injection Hcur as ->.
  - assert (v_is_object params = true) as Ho.
    { destruct (v_is_object params) eqn:Ho; [done|]. unfold required_u32 in Hid. by rewrite get_no_object in Hid. }
    rewrite get_set by (by apply set_is_object). by rewrite decide_True.
Qed.

Lemma get_set_set v k x k' x' : v_is_object v = true -> k' <> k -> v_get (v_set (v_set v k x) k' x') k = Some x.
Proof.
  intros Ho Hne. rewrite get_set by (by apply set_is_object). rewrite decide_False by done. rewrite get_set by done. by rewrite decide_True.
Qed.

Lemma optional_hash_Some v name h : optional_hash v name = Ok (Some h) -> v_is_object v = true /\ hash_ok h.
Proof.
  unfold optional_hash. intros Hh. destruct (v_is_object v) eqn:Ho; [|by rewrite get_no_object in Hh]. split; [done|].
  destruct (v_get v name ≫= v_as_str) as [text|]; [|done]. apply rbind_Ok in Hh as (h' & Hp & [= ->]). by eapply parse_hash_ok.
Qed.

(** The whole submission. *)
Lemma submitted_work d params actions (e : engine) answer prediction e' :
  BackendState.core (e_state e) ->
  (forall id, required_u32 params (bstr "serviceId") = Ok id -> serves (e_state e) id d) ->
  submit_actions params actions e = (Ok (answer, prediction), e') ->
  exists id record domain payload m m' effects forwarded n n' response package,
    required_u32 params (bstr "serviceId") = Ok id
    /\ work_of (e_state e) id record d domain actions payload prediction m m' effects
    /\ v_get forwarded (bstr "payloadBase64") = Some (v_string (b64_encode payload))
    /\ n_submit_work forwarded n = (Ok response, n') /\ e_answers e' = e_answers e ++ [Ok response]
    /\ v_get answer (bstr "packageHash") = Some (v_hash package) /\ hash_ok package
    /\ e_state e' = (BackendState.track_prediction id package prediction (e_state e)).2
    /\ BackendState.pending (e_state e') !! mkWorkKey id package = Some prediction
    /\ FullStateProvider.recovers (BackendState.provider (e_state e')) (sr_service_key record) prediction m'.
Proof.
  intros Hs Hd [(error & [=] & _)|(forwarded & prediction' & id & e1 & Hp & Hsub)]%submit_actions_inv.
  destruct (silent_prepare _ _ _ _ _ Hp) as [Hst Han].
  destruct (prepared_work d _ _ _ _ _ _ _ Hs Hd Hp) as (Hid & record & domain & payload & m & m' & effects & Hw & Hpay).
  destruct (n_submit_work forwarded (e_net e1)) as [[response|error] n] eqn:Hn; [|by destruct Hsub].
  pose proof (quiet_settle _ _ _ _ _ _ Hsub) as Hq. cbn in Hq. unfold settle_submission in Hsub. io_step Hsub. apply lift_Ok in Hx as [Hh ->].
  io_step Hsub. apply lift_Ok in Hx as [Hpk ->]. destruct x as [package|]; [|discriminate Hpk]. injection Hpk as <-.
  destruct (optional_hash_Some _ _ _ Hh) as [Ho Hpk]. io_step Hsub. rewrite Ho in Hsub.
  apply pair_equal_spec in Hsub as [[<- <-]%result_Ok_inj%pair_equal_spec <-]. unfold on_state in Hx. cbn [e_state] in Hx. rewrite Hst in Hx.
  unfold BackendState.track_prediction in Hx. rewrite (wo_record _ _ _ _ _ _ _ _ _ _ _ Hw) in Hx.
  injection Hx as _ <-. destruct Hw as [Hr Hdom Href Hi Hty Hh' Hpar Hnew L Hrec].
  exists id, record, domain, payload, m, m', effects, forwarded, (e_net e1), n, response, package. split; [done|]. split; [by split|].
  split; [done|]. split; [done|]. split; [by rewrite <- Han|].
  split; [by apply get_set_set|]. split; [done|]. cbn [e_state].
  unfold BackendState.track_prediction. rewrite Hr. split; [done|]. split; [apply lookup_insert_eq|done].
Qed.
End Correct.

(** ** From submission to receipts *)

Section InForce.
Context `{Blake2} `{TrieLaws} `{RocksDbLaws} `{SerdeJsonLaws} {P : Type} `{ApplicationPlanner P}.
Context `{JsonLaws} {N : Type} `{!BackendNetwork N} `{!NetworkTyped} `{ArtifactStore N} `{Polkavm} `{PayloadBase64} `{ErrorText}.
Import BackendEngine.
Notation engine := (BackendEngine.t (P := P) (N := N)).


End InForce.

(** Submitted work carries a correct prediction. Let the artifact of a service
    run the guest runtime with descriptor [d]. If a submission of actions succeeds,
    then the network was asked exactly once, accepted, and got a payload that is the
    encoded refine input of exactly these actions over the map [m] the backend holds
    for the service (the chain's root); the prediction goes from the root of [m] to
    that of [m'], where its receipts tell how the actions, each authorized or
    refused, turned [m] into [m']; and it is now pending under the package hash of
    the answer, from where [m'] can be recovered. *)
Theorem submitted_prediction_correct `{Blake2} `{!Blake2Len} `{TrieLaws} `{RocksDb} `{SerdeJson} {P : Type} `{ApplicationPlanner P}
    `{JsonLaws} {N : Type} `{!BackendNetwork N} `{ArtifactStore N} `{Polkavm} `{PayloadBase64} `{ErrorText}
    `{Schnorrkel} `{Ed25519Dalek} `{K256} `{Sha3} `{UrlBase64}
    (d : ServiceDescriptor) (params answer : value) (actions : list bytes) (prediction : RefineOutput.t)
    (e e' : BackendEngine.t (P := P) (N := N)) :
  BackendState.core (BackendEngine.e_state e) ->
  (forall id, required_u32 params (bstr "serviceId") = Ok id -> serves (BackendEngine.e_state e) id d) ->
  BackendEngine.submit_actions params actions e = (Ok (answer, prediction), e') ->
  exists id record domain payload m m' effects forwarded n n' response package,
    required_u32 params (bstr "serviceId") = Ok id
    /\ work_of (BackendEngine.e_state e) id record d domain actions payload prediction m m' effects
    /\ v_get forwarded (bstr "payloadBase64") = Some (v_string (b64_encode payload))
    /\ n_submit_work forwarded n = (Ok response, n') /\ BackendEngine.e_answers e' = BackendEngine.e_answers e ++ [Ok response]
    /\ v_get answer (bstr "packageHash") = Some (v_hash package) /\ hash_ok package
    /\ BackendEngine.e_state e' = (BackendState.track_prediction id package prediction (BackendEngine.e_state e)).2
    /\ BackendState.pending (BackendEngine.e_state e') !! mkWorkKey id package = Some prediction
    /\ FullStateProvider.recovers (BackendState.provider (BackendEngine.e_state e')) (sr_service_key record) prediction m'.
Proof. apply submitted_work. Qed.

(** C10: receipts are shown only for transitions that are in force. If a status
    request answers with action receipts, then it named a service and a package;
    the engine had a prediction for them; the network said the package was
    imported; the state commitment of the service at the block the network then
    called final had exactly the predicted root; the receipts are those of that
    prediction (whatever receipts the network's own answer contained are dropped);
    and if the prediction was still pending, it is final now. *)
Theorem receipts_only_when_canonical `{Blake2} `{TrieLaws} `{RocksDb} `{SerdeJson} {P : Type} `{ApplicationPlanner P}
    `{JsonLaws} {N : Type} `{!BackendNetwork N} `{ArtifactStore N} `{Polkavm} `{PayloadBase64} `{ErrorText}
    (params result receipts : value) (e e' : BackendEngine.t (P := P) (N := N)) :
  BackendEngine.status params e = (Ok result, e') ->
  v_get result (bstr "actionReceipts") = Some receipts ->
  exists id text package output,
    v_get params (bstr "serviceId") ≫= as_u32 = Some id /\ v_get params (bstr "packageHash") ≫= v_as_str = Some text
    /\ parse_hash text = Ok package
    /\ BackendState.prediction (BackendEngine.e_state e) id package = Some output
    /\ canonical_on_chain params e id (RefineOutput.new_root output)
    /\ receipts = canonical_action_receipts (RefineOutput.receipts output)
    /\ (BackendState.pending (BackendEngine.e_state e) !! mkWorkKey id package = Some output ->
        BackendState.is_finalized (BackendEngine.e_state e') (mkWorkKey id package) = true).
Proof. apply status_receipts. Qed.


(** ** A small network *)

Module EngineToy.
(** The commitment of every service, if it has one. *)
Definition world : Type := option bytes.
Definition context : FinalizedContextV1 := BackendBase.mkContext (repeat x01 32) 3 (repeat x02 32) 7.
Definition package : bytes := repeat x03 32.

#[global] Instance network : BackendNetwork world := {|
  n_genesis_hash n := (Ok Toy.domain, n);
  n_finalized_context n := (Ok context, n);
  n_best_context n := (Ok context, n);
  n_context_at _ n := (Ok context, n);
  n_service_info _ id n := (Ok (Some (mkServiceInfo id (repeat x0b 32))), n);
  n_service_storage_at _ _ _ n := (Ok n, n);
  n_service_code _ _ _ n := (Ok None, n);
  n_submit_work _ n := (Ok (v_object [(bstr "packageHash", v_hash package)]), n);
  n_work_status _ n := (Ok (v_object [(bstr "status", v_string (bstr "imported")); (bstr "actionReceipts", v_array [])]), n)
|}.
#[global] Instance network_typed : NetworkTyped.
Proof. split; [by intros n h n' [= <- _]|by intros n c n' [= <- _]|by intros c id n info n' [= <- _]]. Qed.

#[global] Instance store : ArtifactStore world := {|
  as_put_verified _ _ n := (Ok 0, n);
  as_get_verified _ n := (Ok [x01], n);
  as_contains _ n := (Ok true, n)
|}.

(** A service whose one action is public and stores a byte; every artifact is it.
    The action that is submitted happens to name a signer, so that planning starts
    from a nonce. *)
Definition service : ServiceDescriptor :=
  mkDescriptor 2 1 (Some [mkAction Toy.selector GuestRuntime.AUTH_PUBLIC (Some (fun _ _ _ => GuestToy.entry [x2a] [] []))]) 1
    (Some [Some [x6e]]) Toy.service 65536 131072.
Definition signed (payload : bytes) : bytes :=
  ActionV1.fmt (ActionV1.mk x01 Toy.domain Toy.service Toy.selector x00 Toy.key 0 100 (Toy.blake2 payload) (repeat x00 64) payload []).
Definition actions : list bytes := [signed [x2a]].

#[global] Instance machine : Polkavm := {|
  canonical_pvm_code_hash _ := Ok (repeat x0b 32);
  pvm_invoke _ export payload domain _ :=
    let host := mkHost (Some payload) (Some domain) (fun _ _ => true) in
    if bool_decide (export = bstr "minijam_refine") then
      let output := GuestEntry.minijam_refine service host in
      match GuestEntry.run_refine service host with
      | Ok o => if blen (RefineOutput.new_root o) =? 32 then Ok output else Err BE_InvalidEnvelope
      | Err _ => Ok output
      end
    else Ok (GuestEntry.jamscript_plan_v1 service host)
|}.
#[global] Instance base64 : PayloadBase64 := {| b64_encode b := b; b64_decode b := Ok b |}.
#[global] Instance text : ErrorText := fun _ => [].

Notation engine := (BackendEngine.t (P := unit) (N := world)).
Definition start : engine := BackendEngine.mk sample_registered None [].
Definition params : value :=
  v_object [(bstr "serviceId", v_num 5); (bstr "serviceCodeHash", v_hash (repeat x0b 32))].
Definition query : value := v_object [(bstr "serviceId", v_num 5); (bstr "packageHash", v_hash package)].
Definition submitted : result (value * RefineOutput.t) BackendError * engine := BackendEngine.submit_actions params actions start.

Lemma runs code : runs_service code service.
Proof.
  intros payload domain id output Hi. unfold pvm_invoke, machine in Hi. rewrite bool_decide_eq_true_2 in Hi by reflexivity.
  exists (fun _ _ => true). cbv zeta in Hi |- *. set (host := mkHost _ _ _) in *. clearbody host.
  unfold roots_sized. destruct (GuestEntry.run_refine service host) as [o|er].
  - destruct (Z.eqb_spec (blen (RefineOutput.new_root o)) 32) as [Hl|_]; [|discriminate Hi]. apply result_Ok_inj in Hi as <-.
    split; [reflexivity|]. intros o' [= <-]. exact Hl.
  - apply result_Ok_inj in Hi as <-. split; [reflexivity|]. discriminate.
Qed.

Lemma state_ok : BackendState.ok sample_registered.
Proof.
  eapply (BackendState.steps_ok sample_start); [|apply BackendState.fresh_ok, sample_fresh].
  apply rtc_once. unfold sample_registered. apply BackendState.step_register. apply sample_record_ok.
Qed.

(** The answer and the state of the engine after the submission, and the world
    once the work is on the chain. *)
Definition answer : value := match submitted.1 with Ok (a, _) => a | Err _ => v_null end.
Definition prediction : RefineOutput.t :=
  match submitted.1 with Ok (_, p) => p | Err _ => RefineOutput.mk x00 [] [] [] None [] [] [] end.
Definition imported : engine :=
  BackendEngine.mk (BackendEngine.e_state submitted.2)
    (Some (Commitment.encode (Commitment.new (RefineOutput.new_root prediction)))) (BackendEngine.e_answers submitted.2).
Definition shown : result value BackendError * engine := BackendEngine.status query imported.
Definition result0 : value := match shown.1 with Ok v => v | Err _ => v_null end.
Definition receipts : value := default v_null (v_get result0 (bstr "actionReceipts")).

Lemma submitted_Ok : submitted = (Ok (answer, prediction), submitted.2).
Proof.
  assert (is_ok submitted.1 = true) as Hok by (vm_compute; reflexivity). unfold answer, prediction.
  destruct submitted as [[[a p]|er] e']; [reflexivity|discriminate Hok].
Qed.
Lemma shown_Ok : shown = (Ok result0, shown.2) /\ v_get result0 (bstr "actionReceipts") = Some receipts.
Proof.
  assert (match shown.1 with Ok v => bool_decide (is_Some (v_get v (bstr "actionReceipts"))) | Err _ => false end = true) as Hok
    by (vm_compute; reflexivity).
  unfold result0, receipts, result0. destruct shown as [[v|er] e']; [|discriminate Hok]. split; [reflexivity|]. cbn [fst].
  apply bool_decide_eq_true in Hok as [r ->]. reflexivity.
Qed.
End EngineToy.

Lemma receipts_only_when_canonical_witness :
  exists id package output, BackendState.prediction (BackendEngine.e_state EngineToy.imported) id package = Some output
    /\ EngineToy.receipts = canonical_action_receipts (RefineOutput.receipts output).
Proof.
  destruct EngineToy.shown_Ok as [Hs Hr].
  destruct (receipts_only_when_canonical EngineToy.query EngineToy.result0 EngineToy.receipts EngineToy.imported EngineToy.shown.2 Hs Hr)
    as (id & text & package & output & _ & _ & _ & Hp & _ & Hrec & _).
  exists id, package, output. split; [exact Hp|exact Hrec].
Defined.

Lemma submitted_prediction_correct_witness :
  exists id record domain payload m m' effects,
    work_of (BackendEngine.e_state EngineToy.start) id record EngineToy.service domain EngineToy.actions payload
      EngineToy.prediction m m' effects.
Proof.
  destruct (submitted_prediction_correct EngineToy.service EngineToy.params EngineToy.answer EngineToy.actions EngineToy.prediction
    EngineToy.start EngineToy.submitted.2) as (id & record & domain & payload & m & m' & effects & forwarded & n & n' & response & package & _ & Hw & _).
  - exact (proj1 EngineToy.state_ok).
  - intros id _ record n code n' _ _. apply EngineToy.runs.
  - exact EngineToy.submitted_Ok.
  - exists id, record, domain, payload, m, m', effects. exact Hw.
Defined.

