(* ===== verification/Dispatcher.v ===== *)
(** * The dispatcher of the backend

    The thread of [BackendDaemon::serve] that turns queued transactions into
    submitted work and follows it: [reconcile_in_flight_batches] and
    [dispatch_ready_batches] of [BackendRpcHandler], with
    [authoritative_expected_nonces]. The handler is the one the daemon builds,
    with a network, a loader and a database and without the flat-file store.

    The handler's state is behind two locks, one around [BackendState] and one
    inside the coordinator. Between any two of its critical sections the other
    threads may run: [yield] is where they do. *)

From S2P Require Import Prelude Ordering Reader Wire ServiceKeys StateView StateDiff Records Witness RefineInput Dependencies RefineOutput Ownership Crypto Actions ActionsV2 GuestMemory State Overlays Provider BackendBase Registry Envelope Database BackendState Selection JsonValue Coordinator CoordinatorInvariant Engine.

Module Dispatcher.
Section Ops.
Context `{Blake2} `{Trie} `{RocksDb} `{SerdeJson} {P : Type} `{ApplicationPlanner P}.
Context `{Json} {N : Type} `{!BackendNetwork N} `{ArtifactStore N} `{Polkavm} `{PayloadBase64} `{ErrorText}.
Context (cfg : Coordinator.config).
Import Coordinator BackendEngine.
Notation engine := (BackendEngine.t (P := P) (N := N)).

(** ** The world of the dispatcher *)

(** One critical section of another thread: whatever is done under the lock of
    the backend state or by the network, and the calls of the coordinator that
    requests make. *)
Inductive section :=
| OnEngine (f : engine -> engine)
| Submits (service_id : Z) (action : bytes) (params : value)
| Materializes (batch_id : bytes)
| SeesBest (id : bytes)
| Diagnoses (setting : Z) (batch_id : bytes)
| ReadsClock.

(** What the network told the dispatcher, for the record; nothing reads it: its
    answers to the submissions of a batch, and to questions about the work of one. *)
Inductive note :=
| Sent (batch_id : bytes) (answer : result value BackendError)
| Told (batch_id : bytes) (key : WorkKey) (answer : result value BackendError).

Record world := mkWorld {
  w_engine : engine;
  w_coordinator : Coordinator.t;
  (** the readings of the clock, and how many were made *)
  w_clock : nat -> Z;
  w_readings : nat;
  (** what the other threads do, each time the dispatcher lets them *)
  w_schedule : list (list section);
  (** history: the notes, what other threads could see of the coordinator and of
      the backend, and whether every transaction and batch got a name of its own *)
  w_notes : list note;
  w_seen : list (Coordinator.t * list note);
  w_engines : list engine;
  w_named : bool
}.

Definition set_engine (e : engine) (w : world) : world :=
  mkWorld e (w_coordinator w) (w_clock w) (w_readings w) (w_schedule w) (w_notes w) (w_seen w) (w_engines w) (w_named w).
Definition set_notes (l : list note) (w : world) : world :=
  mkWorld (w_engine w) (w_coordinator w) (w_clock w) (w_readings w) (w_schedule w) l (w_seen w) (w_engines w) (w_named w).
Definition tick (w : world) : world :=
  mkWorld (w_engine w) (w_coordinator w) (w_clock w) (S (w_readings w)) (w_schedule w) (w_notes w) (w_seen w) (w_engines w) (w_named w).
Definition look (w : world) : world :=
  mkWorld (w_engine w) (w_coordinator w) (w_clock w) (w_readings w) (w_schedule w) (w_notes w)
    (w_seen w ++ [(w_coordinator w, w_notes w)]) (w_engines w ++ [w_engine w]) (w_named w).

(** [Instant::now()]. *)
Definition clock : io world Z := fun w => (Ok (w_clock w (w_readings w)), tick w).

(** Whether a call finds a fresh name. *)
Definition possibleb (c : call) (s : Coordinator.t) : bool :=
  match c with
  | Enqueue id action _ _ _ => bool_decide (transactions s !! logical_id id (default 0 (next_sequences s !! id)) action = None)
  | TakeReadyBatch _ _ _ _ _ _ => next_batch_id s <? U64_MAX
  | _ => true
  end.

(** A call that changes the coordinator. *)
Definition performed (c : call) (w : world) : world :=
  mkWorld (w_engine w) (perform cfg c (w_coordinator w)) (w_clock w) (w_readings w) (w_schedule w) (w_notes w) (w_seen w) (w_engines w)
    (w_named w && possibleb c (w_coordinator w)).

Definition call_coordinator (c : call) : io world unit := fun w => (Ok tt, performed c w).
Definition ask_coordinator {A} (f : Coordinator.t -> A) : io world A := fun w => (Ok (f (w_coordinator w)), w).
Definition on_engine {A} (m : io engine A) : io world A := fun w =>
  let '(r, e) := m (w_engine w) in (r, set_engine e w).

Definition run_section (w : world) (s : section) : world :=
  look match s with
       | OnEngine f => set_engine (f (w_engine w)) w
       | Submits service_id action params =>
           performed (Enqueue service_id action params (w_clock w (w_readings w)) (w_clock w (S (w_readings w)))) (tick (tick w))
       | Materializes b => performed (MarkMaterialized b) w
       | SeesBest id => performed (MarkBestIncluded id) w
       | Diagnoses setting b => performed (EmitDiagnostics setting b) w
       | ReadsClock => tick w
       end.

Definition yield : io world unit := fun w =>
  match w_schedule w with
  | [] => (Ok tt, look w)
  | sections :: rest =>
      (Ok tt, fold_left run_section sections
                (look (mkWorld (w_engine w) (w_coordinator w) (w_clock w) (w_readings w) rest (w_notes w) (w_seen w) (w_engines w) (w_named w))))
  end.

(** [let r = f(); match r { .. }]: the error is a value. *)
Definition caught {W A} (m : io W A) : io W (result A BackendError) := fun w => let '(r, w) := m w in (Ok r, w).

Fixpoint io_iter {W A} (f : A -> io W unit) (l : list A) : io W unit :=
  match l with
  | [] => mret tt
  | x :: l' => f x;; io_iter f l'
  end.

(** ** [authoritative_expected_nonces] *)

Definition expected_nonce (s : BackendState.t (P := P)) (service_key root : bytes) (expected : gmap bytes Z) (sender : bytes * bytes)
    : result (gmap bytes Z) BackendError :=
  if bool_decide (is_Some (expected !! sender.1)) then Ok expected
  else
    let? v := map_err BE_Provider (FullStateProvider.value_at (BackendState.provider s) service_key root sender.2) in
    let? nonce := match v with
                  | None => Ok 0
                  | Some b => if blen b =? 8 then Ok (from_le_bytes b) else Err (BE_Rpc (bstr "managed-state nonce is not a fixed-width u64"))
                  end in
    Ok (<[sender.1 := nonce]> expected).

Definition canonical_root (commitment : option bytes) : bytes :=
  default EMPTY_STATE_ROOT_V1
    (commitment ≫= (fun b => match Commitment.decode b with Ok c => Some (Commitment.root c) | Err _ => None end)).

Definition authoritative_expected_nonces (service_id : Z) : io world (gmap bytes Z * Z) :=
  yield;; senders ← ask_coordinator (pending_senders service_id);
  yield;; context ← on_engine (net n_finalized_context);
  yield;; commitment ← on_engine (read_commitment context service_id);
  yield;;
  on_engine (reads (fun s =>
    let? record := BackendState.get_service s service_id in
    let? root := BackendState.current_root s service_id in
    bail_if negb (bool_decide (root = canonical_root commitment)) with BE_StateNotMaterialized ;;
    let? expected := rfold (expected_nonce s (sr_service_key record) root) ∅ senders in
    Ok (expected, fc_slot context))).

(** ** [dispatch_ready_batches] *)

Definition MAX_STALE_CONTEXT_RETRIES : nat := 3.

(** [submit_actions] under the lock; its answers from the network are noted. *)
Definition submit_batch (batch_id : bytes) (params : value) (actions : list bytes) : io world (value * RefineOutput.t) := fun w =>
  let '(r, e) := submit_actions params actions (w_engine w) in
  (r, set_notes (w_notes w ++ map (Sent batch_id) (drop (length (e_answers (w_engine w))) (e_answers e))) (set_engine e w)).

Fixpoint attempts (retries : nat) (batch_id : bytes) (params : value) (actions : list bytes)
    : io world (result (value * RefineOutput.t) BackendError) :=
  yield;; r ← caught (submit_batch batch_id params actions);
  match r, retries with
  | Err BE_StaleContext, S retries' => attempts retries' batch_id params actions
  | _, _ => mret r
  end.

Definition fail_batch_call (batch_id error : bytes) : io world unit := call_coordinator (FailBatch batch_id error None).

Definition settle_batch (service_id : Z) (batch_id : bytes) (r : result (value * RefineOutput.t) BackendError) : io world unit :=
  match r with
  | Ok (response, prediction) =>
      match optional_hash response (bstr "packageHash") with
      | Ok (Some package_hash) => call_coordinator (FinishBatch batch_id package_hash prediction)
      | Ok None =>
          call_coordinator (MarkSubmissionUnknown batch_id (bstr "Formal may have accepted the Work but omitted packageHash"))
      | Err error =>
          call_coordinator (MarkSubmissionUnknown batch_id
            (bstr "Formal may have accepted the Work but returned an invalid packageHash: " ++ error_text error))
      end
  | Err BE_StaleContext => fail_batch_call batch_id (bstr "STALE_CONTEXT")
  | Err (BE_NotSubmitted error) => fail_batch_call batch_id error
  | Err (BE_NotSubmittedGuestFault fault) =>
      let info := guest_fault_json fault in
      let code := default (bstr "GUEST_FAULT_UNKNOWN") (v_get info (bstr "code") ≫= v_as_str) in
      let message := default (bstr "guest execution failed") (v_get info (bstr "message") ≫= v_as_str) in
      call_coordinator (FailBatch batch_id (code ++ bstr ": " ++ message) (Some info))
  | Err (BE_NotSubmittedPvmOutOfGas _ code_hash stage) =>
      call_coordinator (FailBatch batch_id (bstr "PVM_OUT_OF_GAS: local guest preflight exceeded its gas budget")
        (Some (pvm_out_of_gas_info (Some service_id) code_hash stage)))
  | Err (BE_QueueFull retry_after_ms) =>
      fail_batch_call batch_id (bstr "QUEUE_FULL: retry after " ++ decimal retry_after_ms ++ bstr " ms")
  | Err error => call_coordinator (MarkSubmissionUnknown batch_id (bstr "submission outcome unknown: " ++ error_text error))
  end.

(** [take_ready_batch], which reads the clock three times. *)
Definition take_batch (service_id : Z) (expected : gmap bytes Z) (slot : Z) : io world (option BatchToSubmit) := fun w =>
  let now := w_clock w (w_readings w) in
  let now_deadline := w_clock w (S (w_readings w)) in
  let created_at := w_clock w (S (S (w_readings w))) in
  (Ok (take_ready_batch cfg service_id expected slot now now_deadline created_at (w_coordinator w)).1,
   performed (TakeReadyBatch service_id expected slot now now_deadline created_at) (tick (tick (tick w)))).

(** One turn of the loop over the services. *)
Definition dispatch_service (service_id : Z) : io world unit :=
  yield;; now ← clock;
  ready ← ask_coordinator (is_batch_ready cfg service_id now);
  if negb ready then mret tt
  else
    '(expected, slot) ← authoritative_expected_nonces service_id;
    yield;; taken ← take_batch service_id expected slot;
    match taken with
    | None => mret tt
    | Some batch =>
        let params := v_set (ts_params batch) (bstr "extrinsicsBase64") (v_array (map v_string (ts_extrinsics batch))) in
        r ← attempts MAX_STALE_CONTEXT_RETRIES (ts_batch_id batch) params (ts_actions batch);
        yield;; settle_batch service_id (ts_batch_id batch) r
    end.

Definition dispatch_ready_batches : io world unit :=
  yield;; services ← ask_coordinator queued_services;
  io_iter dispatch_service services.

(** ** [reconcile_in_flight_batches] *)

(** The question about the work. *)
Definition work_params (key : WorkKey) : value :=
  v_object [(bstr "serviceId", v_num (wk_service_id key)); (bstr "packageHash", v_hash (wk_package_hash key))].

(** The closure under the lock of the state: the answer, whether the work is
    final, and whether it failed. *)
Definition work_of_batch (key : WorkKey) : io engine (option (value * bool * bool)) :=
  r ← caught (status (work_params key));
  match r with
  | Err BE_WorkNotFound => mret None
  | Err error => fail error
  | Ok result =>
      if bool_decide (default [] (v_get result (bstr "status") ≫= v_as_str) = bstr "failed") then mret (Some (result, false, true))
      else
        finalized ← reads (fun s => Ok (BackendState.is_finalized s key));
        mret (Some (result, finalized, false))
  end.

(** It is run, and what the network answers to the question is noted. *)
Definition ask_work (batch_id : bytes) (key : WorkKey) : io world (option (value * bool * bool)) := fun w =>
  let '(r, e) := work_of_batch key (w_engine w) in
  (r, set_notes (w_notes w ++ [Told batch_id key (n_work_status (work_params key) (e_net (w_engine w))).1]) (set_engine e w)).

Definition reconcile_batch (batch : InFlightBatchSnapshot) : io world unit :=
  match fs_package_hash batch with
  | None => mret tt
  | Some package_hash =>
      yield;; r ← caught (ask_work (fs_batch_id batch) (mkWorkKey (fs_service_id batch) package_hash));
      match r with
      | Ok None => yield;; call_coordinator (RecordBatchStatus (fs_batch_id batch) (bstr "work_not_found"))
      | Ok (Some (result, _, true)) =>
          yield;; fail_batch_call (fs_batch_id batch)
            (default (bstr "Formal reported terminal failure") (v_get result (bstr "error") ≫= v_as_str))
      | Ok (Some (_, true, false)) => yield;; call_coordinator (MarkMaterialized (fs_batch_id batch))
      | Ok (Some (result, false, false)) =>
          yield;; call_coordinator (RecordBatchStatus (fs_batch_id batch)
            (default (bstr "unknown") (v_get result (bstr "status") ≫= v_as_str)))
      | Err error => fail error
      end
  end.

(** The first error is kept while the loop goes on. *)
Fixpoint reconcile_batches (batches : list InFlightBatchSnapshot) (first_error : option BackendError)
    : io world (option BackendError) :=
  match batches with
  | [] => mret first_error
  | batch :: batches' =>
      r ← caught (reconcile_batch batch);
      reconcile_batches batches' (match first_error, r with None, Err error => Some error | _, _ => first_error end)
  end.

Definition reconcile_in_flight_batches : io world unit :=
  yield;; now ← clock;
  snapshots ← ask_coordinator (in_flight_batches now);
  first_error ← reconcile_batches snapshots None;
  match first_error with Some error => fail error | None => mret tt end.

(** ** The thread *)

(** One turn of the dispatcher's loop; its state is when it last reconciled. *)
Definition dispatcher_turn (reconcile_interval last_reconcile : Z) : io world Z :=
  now ← clock;
  last_reconcile ← (if reconcile_interval <=? now - last_reconcile
                    then now ← clock; caught reconcile_in_flight_batches;; mret now
                    else mret last_reconcile);
  caught dispatch_ready_batches;;
  mret last_reconcile.

Fixpoint dispatcher (turns : nat) (reconcile_interval last_reconcile : Z) : io world unit :=
  match turns with
  | O => mret tt
  | S turns' => last_reconcile ← dispatcher_turn reconcile_interval last_reconcile; dispatcher turns' reconcile_interval last_reconcile
  end.

(** The dispatcher starts with an empty coordinator. *)
Definition start (e : engine) (clock : nat -> Z) (schedule : list (list section)) : world :=
  mkWorld e default_ clock 0 schedule [] [] [] true.
End Ops.
End Dispatcher.
