(* ===== verification/DispatcherCorrect.v ===== *)
(** * What the dispatcher guarantees

    However the other threads run between its critical sections, the dispatcher
    never has the network accept the work of one transaction twice, and what it
    reports as failed was not accepted, or failed by the network's own answer. *)

From S2P Require Import Prelude Ordering Reader Wire ServiceKeys StateView StateDiff Records Witness RefineInput Dependencies RefineOutput Ownership Crypto Actions ActionsV2 GuestMemory State ModelTrie Overlays Provider BackendBase Registry Envelope Database BackendState Selection JsonValue Coordinator CoordinatorInvariant Engine EngineCorrect Dispatcher.

Section Calls.
Context `{Blake2} `{Json} (cfg : Coordinator.config).
Import Coordinator.

(** ** What the calls do to transactions with an error *)

(** The transaction was told that it failed. *)
Definition told_failed (x : LogicalTransaction) : bool :=
  bool_decide (is_Some (lt_error x)) && negb (lt_submission_unknown x).

(** Whatever the call tells a transaction of a batch, it was told before. *)
Definition tells_nothing (s s' : Coordinator.t) : Prop :=
  forall id x' b, transactions s' !! id = Some x' -> told_failed x' = true -> lt_batch_id x' = Some b ->
  exists x, transactions s !! id = Some x /\ told_failed x = true /\ lt_batch_id x = Some b.

Lemma tells_same s s' : transactions s' = transactions s -> tells_nothing s s'.
Proof. intros Heq id x' b. rewrite Heq. eauto. Qed.

Lemma tells_update s s' (f : LogicalTransaction -> LogicalTransaction) ids :
  (forall x, told_failed (f x) = true -> told_failed x = true /\ lt_batch_id (f x) = lt_batch_id x) -> NoDup ids ->
  transactions s' = update_all f ids (transactions s) -> tells_nothing s s'.
Proof.
  intros Hf Hnd Heq id x' b. rewrite Heq, update_all_lookup by done. case_decide; [|eauto].
  intros (x & Hx & ->)%fmap_Some Ht Hb. destruct (Hf x Ht) as [Ht' Hb']. exists x. by rewrite <- Hb'.
Qed.

Lemma tells_take service_id nonces slot now now_deadline created_at s :
  ok cfg s -> tells_nothing s (take_ready_batch cfg service_id nonces slot now now_deadline created_at s).2.
Proof.
  intros Hok. rewrite take_cases. destruct (is_batch_ready cfg service_id now s) eqn:Hready; [|by apply tells_same]. cbn [negb].
  apply batch_ready_inv in Hready as (_ & q & Hq & Hqo & _). cbv zeta. rewrite Hqo.
  destruct (nonces_known q nonces); cbn [negb]; [|apply tells_same; by destruct q].
  set (tr := triage_queue cfg q nonces slot). pose proof (triage_perm cfg q nonces slot) as Hp. cbv zeta in Hp. fold tr in Hp.
  pose proof (queue_nodup cfg q (ok_queue _ _ _ _ Hok _ _ Hq)) as Hnd. rewrite Hp, !map_app in Hnd.
  apply NoDup_app in Hnd as (Hrej & _ & Hnd). apply NoDup_app in Hnd as (Hsel & _ & _).
  pose proof (update_all_rejects EXPIRED (map pa_logical_id (tr_expired tr)) STALE_NONCE (map pa_logical_id (tr_stale tr)) (transactions s) Hrej) as Hr.
  destruct (triaged_fields cfg service_id tr now_deadline s) as (_ & _ & _ & _ & _ & Htx). rewrite <- Htx in Hr.
  assert (tells_nothing s (triaged cfg service_id tr now_deadline s)) as Htells.
  { intros id x' b Hx' Ht Hb. destruct (Hr id) as [[Heq _]|[Hin (error & Heq)]]; [rewrite Heq in Hx'; eauto|]. exfalso.
    destruct (ok_waiting _ _ _ _ Hok service_id q id Hq) as [(x & Hx & _ & Hnb & _) _].
    { rewrite Hp, !map_app. set_solver. }
    rewrite Heq, Hx in Hx'. injection Hx' as <-. simpl in Hb. congruence. }
  assert (ok_but cfg service_id (map pa_logical_id (tr_selected tr)) (triaged cfg service_id tr now_deadline s)) as Hbut.
  { eapply ok_requeue; [done..|]. rewrite map_app. rewrite <- Htx. exact Hr. }
  destruct (tr_selected tr) as [|first sel] eqn:Hs; [done|]. rewrite <- Hs in *. cbn [open_batch snd].
  intros id x' b Hx' Ht Hb. cbn [transactions] in Hx'. destruct (decide (id ∈ map pa_logical_id (tr_selected tr))) as [Hin|Hnin].
  - exfalso. destruct (ok_taken _ _ _ _ Hbut id Hin) as (y & Hy & _ & _ & Herr). apply list_elem_of_lookup in Hin as [i Hi].
    rewrite (assign_batch_lookup _ _ _ _ i id Hsel Hi), Hy in Hx'. injection Hx' as <-. unfold told_failed in Ht. simpl in Ht. by rewrite Herr in Ht.
  - rewrite assign_batch_other in Hx' by done. by eapply Htells.
Qed.

Lemma batch_ids_nodup s b B : ok cfg s -> batches s !! b = Some B -> NoDup (ib_logical_transaction_ids B).
Proof. intros Hok HB. by destruct (ok_batch _ _ _ _ Hok b B HB). Qed.

Definition fails (c : call) : option bytes := match c with FailBatch b _ _ => Some b | _ => None end.

Lemma perform_tells c s : ok cfg s -> possible c s -> fails c = None -> tells_nothing s (perform cfg c s).
Proof.
  intros Hok Hpos Hc. destruct c; simpl in *; try discriminate Hc.
  - destruct (enqueue cfg service_id action params enqueued_at deadline_now s) as [[x|e] s'] eqn:He; simpl.
    2:{ apply enqueue_err in He as [-> _]. by apply tells_same. }
    apply enqueue_ok_inv in He as (-> & _ & _ & _ & _ & Htx & _). intros id x' b. rewrite Htx.
    intros [[<- <-]|[_ Hx]]%lookup_insert_Some; [done|eauto].
  - by apply tells_take.
  - unfold finish_batch. destruct (batches s !! batch_id) as [B|] eqn:HB; [|by apply tells_same].
    by eapply (tells_update _ _ (with_package package_hash)); [|by eapply batch_ids_nodup|].
  - unfold mark_batch_submission_unknown. destruct (batches s !! batch_id) as [B|] eqn:HB; [|by apply tells_same].
    eapply (tells_update _ _ (with_unknown error)); [|by eapply batch_ids_nodup|done].
    intros x. unfold told_failed. simpl. by rewrite ?andb_false_r.
  - unfold mark_materialized. destruct (batches s !! batch_id) as [B|]; [|by apply tells_same]. destruct (ib_materialized B); by apply tells_same.
  - intros x x' b. unfold mark_best_included. simpl. intros Hx Ht Hb. destruct (decide (id = x)) as [->|Hne].
    + rewrite lookup_alter_eq in Hx. apply fmap_Some in Hx as (y & Hy & ->). eauto.
    + rewrite lookup_alter_ne in Hx by done. eauto.
  - unfold record_batch_status. destruct (batches s !! batch_id) as [B|]; [|by apply tells_same]. case_match; by apply tells_same.
  - unfold emit_diagnostics. destruct (negb _); [by apply tells_same|]. destruct (batches s !! batch_id) as [B|]; [|by apply tells_same].
    destruct (ib_diagnostics_emitted B); [by apply tells_same|]. destruct (ib_predicted_output B); by apply tells_same.
Qed.

(** A failed batch: only its own transactions are told. *)
Lemma fail_tells b error info s id x' b' :
  ok cfg s -> transactions (fail_batch_with_info b error info s) !! id = Some x' -> told_failed x' = true ->
  lt_batch_id x' = Some b' ->
  b' = b \/ exists x, transactions s !! id = Some x /\ told_failed x = true /\ lt_batch_id x = Some b'.
Proof.
  intros Hok Hx' Ht Hb. unfold fail_batch_with_info in Hx'. destruct (batches s !! b) as [B|] eqn:HB; [|eauto].
  destruct (ib_materialized B); [eauto|]. cbn [release set_lanes set_transactions transactions] in Hx'.
  rewrite update_all_lookup in Hx' by (by eapply batch_ids_nodup). case_decide as Hin; [|eauto].
  apply list_elem_of_lookup in Hin as [i Hi]. destruct (ok_batch _ _ _ _ Hok b B HB) as [_ _ _ Hm].
  destruct (Hm i id Hi) as (x & Hx & _ & Hxb & _). left. rewrite Hx in Hx'. injection Hx' as <-.
  unfold with_failure in Hb. destruct (lt_error x); simpl in Hb; congruence.
Qed.

(** Batches stay known. *)
Lemma perform_batches c s b : is_Some (batches s !! b) -> is_Some (batches (perform cfg c s) !! b).
Proof.
  assert (forall b' B, is_Some (batches s !! b) -> is_Some (<[b' := B]> (batches s) !! b)) as Hins.
  { intros b' B Hb. destruct (decide (b' = b)) as [->|]; [by rewrite lookup_insert_eq|by rewrite lookup_insert_ne]. }
  intros Hb. destruct c; simpl.
  - destruct (enqueue cfg service_id action params enqueued_at deadline_now s) as [[x|e] s'] eqn:He; simpl.
    + by apply enqueue_ok_inv in He as (_ & _ & _ & _ & _ & _ & _ & _ & -> & _).
    + by apply enqueue_err in He as [-> _].
  - rewrite take_cases. destruct (negb _); [done|]. cbv zeta. destruct (negb _); [by unfold requeue; destruct (queue_of s service_id)|].
    set (tr := triage_queue _ _ _ _). destruct (triaged_fields cfg service_id tr now_deadline s) as (Hbt & _).
    destruct (tr_selected tr) as [|first sel]; [cbn [snd]; by rewrite Hbt|]. cbn [open_batch snd batches]. rewrite Hbt. by apply Hins.
  - unfold finish_batch. destruct (batches s !! batch_id); simpl; [by apply Hins|done].
  - unfold fail_batch_with_info. destruct (batches s !! batch_id) as [B|]; [|done]. by destruct (ib_materialized B).
  - unfold mark_batch_submission_unknown. by destruct (batches s !! batch_id).
  - unfold mark_materialized. destruct (batches s !! batch_id) as [B|]; [|done]. destruct (ib_materialized B); [done|]. simpl. by apply Hins.
  - done.
  - unfold record_batch_status. destruct (batches s !! batch_id) as [B|]; [|done]. case_match; [done|]. simpl. by apply Hins.
  - unfold emit_diagnostics. destruct (negb _); [done|]. destruct (batches s !! batch_id) as [B|]; [|done]. destruct (ib_diagnostics_emitted B); [done|].
    destruct (ib_predicted_output B); [|done]. simpl. by apply Hins.
Qed.

(** The work of a batch: its service and its package. *)
Definition has_work (s : Coordinator.t) (b : bytes) (id : Z) (package : bytes) : Prop :=
  exists B, batches s !! b = Some B /\ ib_service_id B = id /\ ib_package_hash B = Some package.
Definition finishes (c : call) : option bytes := match c with FinishBatch b _ _ => Some b | _ => None end.

Lemma work_same s s' b id h : batches s' = batches s -> has_work s b id h -> has_work s' b id h.
Proof. unfold has_work. by intros ->. Qed.
Lemma work_update s s' b' (B B' : InFlightBatch) b id h :
  batches s !! b' = Some B -> batches s' = <[b' := B']> (batches s) -> ib_service_id B' = ib_service_id B ->
  ib_package_hash B' = ib_package_hash B -> has_work s b id h -> has_work s' b id h.
Proof.
  intros HB Heq Hid Hh (C & HC & <- & HCh). unfold has_work. rewrite Heq. destruct (decide (b' = b)) as [->|Hne].
  - rewrite lookup_insert_eq. exists B'. assert (C = B) as -> by congruence. by rewrite Hid, Hh.
  - rewrite lookup_insert_ne by done. by exists C.
Qed.

(** It is set by [finish_batch] alone. *)
Lemma perform_work c s b id h : ok cfg s -> finishes c <> Some b -> has_work s b id h -> has_work (perform cfg c s) b id h.
Proof.
  intros Hok Hc Hw. destruct c; simpl in *.
  - destruct (enqueue cfg service_id action params enqueued_at deadline_now s) as [[x|e] s'] eqn:He; simpl.
    + apply enqueue_ok_inv in He as (_ & _ & _ & _ & _ & _ & _ & _ & Hb & _). by eapply work_same.
    + by apply enqueue_err in He as [-> _].
  - rewrite take_cases. destruct (negb _); [done|]. cbv zeta.
    destruct (negb _); [by eapply work_same; [|done]; unfold requeue; destruct (queue_of s service_id)|].
    set (tr := triage_queue _ _ _ _). destruct (triaged_fields cfg service_id tr now_deadline s) as (Hbt & _ & Hnb & _).
    destruct (tr_selected tr) as [|first sel]; [by eapply work_same|]. cbn [open_batch snd]. unfold has_work. cbn [batches].
    rewrite Hbt, Hnb. destruct Hw as (B & HB & HBw). exists B. split; [|done]. rewrite lookup_insert_ne; [done|]. intros <-.
    rewrite (batch_name_fresh cfg s Hok) in HB. discriminate HB.
  - unfold finish_batch. destruct (batches s !! batch_id); simpl; [|done]. destruct Hw as (B & HB & HBw). exists B. split; [|done].
    simpl. rewrite lookup_insert_ne; [done|]. congruence.
  - unfold fail_batch_with_info. destruct (batches s !! batch_id) as [B|]; [|done]. by destruct (ib_materialized B).
  - unfold mark_batch_submission_unknown. by destruct (batches s !! batch_id).
  - unfold mark_materialized. destruct (batches s !! batch_id) as [B|] eqn:HB; [|done]. destruct (ib_materialized B); [done|]. by eapply work_update.
  - done.
  - unfold record_batch_status. destruct (batches s !! batch_id) as [B|] eqn:HB; [|done]. case_match; [done|]. by eapply work_update.
  - unfold emit_diagnostics. destruct (negb _); [done|]. destruct (batches s !! batch_id) as [B|] eqn:HB; [|done]. destruct (ib_diagnostics_emitted B); [done|].
    destruct (ib_predicted_output B) eqn:Ho; [|done]. by eapply work_update.
Qed.

(** What is in flight has the work its snapshot names. *)
Definition known (s : Coordinator.t) (batch : InFlightBatchSnapshot) : Prop :=
  forall h, fs_package_hash batch = Some h -> has_work s (fs_batch_id batch) (fs_service_id batch) h.
Lemma in_flight_known s now : ok cfg s -> Forall (known s) (in_flight_batches now s).
Proof.
  intros Hok. apply Forall_forall. intros batch ([id b] & Hin & Hb)%list_elem_of_omap h. rewrite sort_by_key_perm in Hin.
  apply elem_of_map_to_list in Hin. destruct (ok_lane _ _ _ _ Hok id b Hin) as (B & HB & Hid & _).
  rewrite HB in Hb. injection Hb as <-. simpl. intros Hh. by exists B.
Qed.

(** A batch that is taken is new. *)
Lemma taken_new service_id nonces slot now now_deadline created_at s batch :
  ok cfg s -> (take_ready_batch cfg service_id nonces slot now now_deadline created_at s).1 = Some batch ->
  batches s !! ts_batch_id batch = None
  /\ is_Some (batches (take_ready_batch cfg service_id nonces slot now now_deadline created_at s).2 !! ts_batch_id batch).
Proof.
  intros Hok. rewrite take_cases. destruct (negb _); [done|]. cbv zeta. destruct (negb _); [done|].
  set (tr := triage_queue _ _ _ _). destruct (triaged_fields cfg service_id tr now_deadline s) as (Hbt & _ & Hnb & _).
  destruct (tr_selected tr) as [|first sel]; [done|]. cbn [open_batch fst snd]. intros [= <-]. cbn [ts_batch_id batches].
  rewrite Hnb. split; [by apply (batch_name_fresh cfg)|by rewrite lookup_insert_eq].
Qed.
End Calls.

(** ** Runs *)

Section Runs.
Context `{Blake2} `{Trie} `{RocksDb} `{SerdeJson} {P : Type} `{ApplicationPlanner P}.
Context `{Json} {N : Type} `{!BackendNetwork N} `{ArtifactStore N} `{Polkavm} `{PayloadBase64} `{ErrorText}.
Context (cfg : Coordinator.config) (Hmax : 0 <= Coordinator.max_queued_per_sender cfg).
Import Coordinator Dispatcher.
Notation world := (Dispatcher.world (P := P) (N := N)).

(** The network accepted no work of the batch. *)
Definition refused (b : bytes) (l : list note) : Prop := forall a, Sent b a ∈ l -> may_be_accepted a = false.

(** The network was asked about work of the batch, and the answer came to a failure. *)
Definition reported (b : bytes) (l : list note) : Prop :=
  exists key (e : BackendEngine.t (P := P) (N := N)) result finalized,
    Told b key (n_work_status (work_params key) (BackendEngine.e_net e)).1 ∈ l
    /\ (work_of_batch key e).1 = Ok (Some (result, finalized, true)).

(** It was not asked. *)
Definition untold (b : bytes) (l : list note) : Prop := forall key a, Told b key a ∉ l.

(** What holds of the coordinator and the notes, whenever someone looks. *)
Record good (s : Coordinator.t) (l : list note) : Prop := {
  gd_ok : ok cfg s;
  gd_sent b a : Sent b a ∈ l -> is_Some (batches s !! b);
  gd_once i j b a a' : l !! i = Some (Sent b a) -> l !! j = Some (Sent b a') ->
    may_be_accepted a = true -> may_be_accepted a' = true -> i = j;
  gd_failed id x b : transactions s !! id = Some x -> told_failed x = true -> lt_batch_id x = Some b ->
    refused b l \/ reported b l;
  gd_told b key a : Told b key a ∈ l -> has_work s b (wk_service_id key) (wk_package_hash key)
}.

(** As long as names were fresh. *)
Definition sound (w : world) : Prop :=
  w_named w = true -> good (w_coordinator w) (w_notes w) /\ Forall (fun o => good o.1 o.2) (w_seen w).

(** A batch that is being submitted: nobody was told that it failed and no work of
    it was accepted. *)
Definition open (b : bytes) (w : world) : Prop :=
  is_Some (batches (w_coordinator w) !! b)
  /\ (forall id x, transactions (w_coordinator w) !! id = Some x -> lt_batch_id x = Some b -> told_failed x = false)
  /\ refused b (w_notes w).

(** The work of batches stays what it is. *)
Definition follows (w w' : world) : Prop :=
  (w_named w' = true -> w_named w = true)
  /\ (w_named w' = true -> sound w -> forall b id h, has_work (w_coordinator w) b id h -> has_work (w_coordinator w') b id h).

(** What the sections of other threads leave alone. *)
Definition quietly (w w' : world) : Prop :=
  w_notes w' = w_notes w /\ follows w w' /\ forall b, w_named w' = true -> sound w -> open b w -> open b w'.

Lemma quietly_refl w : quietly w w.
Proof. done. Qed.

Lemma possibleb_possible c s : possibleb c s = true -> possible c s.
Proof. destruct c; simpl; try done; [apply bool_decide_eq_true|apply Z.ltb_lt]. Qed.

Lemma performed_good c s l :
  good s l -> possible c s -> (match fails c with Some b => refused b l \/ reported b l | None => True end) ->
  (match finishes c with Some b => untold b l | None => True end) -> good (perform cfg c s) l.
Proof.
  intros [Hok Hsent Honce Hfailed Htold] Hp Hc Hfin. split; try done.
  - by apply ok_perform.
  - intros b a Ha. by eapply perform_batches, Hsent.
  - intros id x b Hx Ht Hb. destruct (fails c) as [b'|] eqn:Hf.
    + destruct c; try discriminate Hf. injection Hf as ->. simpl in Hx.
      destruct (fail_tells cfg _ _ _ _ _ _ _ Hok Hx Ht Hb) as [->|(y & ? & ? & ?)]; [done|by eapply Hfailed].
    + destruct (perform_tells cfg c s Hok Hp Hf id x b Hx Ht Hb) as (y & ? & ? & ?). by eapply Hfailed.
  - intros b key a Ha. apply perform_work; [done| |by eapply Htold]. intros Hb. rewrite Hb in Hfin. by apply (Hfin key a).
Qed.

Lemma performed_sound c (w : world) :
  sound w -> (match fails c with Some b => w_named w = true -> refused b (w_notes w) \/ reported b (w_notes w) | None => True end) ->
  (match finishes c with Some b => w_named w = true -> untold b (w_notes w) | None => True end) ->
  sound (performed cfg c w).
Proof.
  intros Hs Hc Hfin. unfold sound. simpl. intros [Hn Hp%possibleb_possible]%andb_prop. destruct (Hs Hn) as [Hg Hseen]. split; [|done].
  apply performed_good; [done..| |]; [destruct (fails c)|destruct (finishes c)]; auto.
Qed.

Lemma performed_follows c (w : world) : finishes c = None -> follows w (performed cfg c w).
Proof.
  intros Hc. split; [simpl; by intros [? _]%andb_prop|]. simpl. intros [Hn _]%andb_prop Hs b id h. destruct (Hs Hn) as [Hg _].
  apply perform_work; [by destruct Hg|]. by rewrite Hc.
Qed.

Lemma performed_quietly c (w : world) : fails c = None -> finishes c = None -> quietly w (performed cfg c w).
Proof.
  intros Hf Hfin. split; [done|]. split; [by apply performed_follows|]. intros b Hn Hs (Hb & Hu & Hr). simpl in Hn.
  apply andb_prop in Hn as [Hn Hp%possibleb_possible]. split; [by apply perform_batches|]. split; [|done].
  intros id x Hx Hxb. destruct (told_failed x) eqn:Ht; [|done]. destruct (Hs Hn) as [Hg _].
  destruct (perform_tells cfg c _ (gd_ok _ _ Hg) Hp Hf id x b Hx Ht Hxb) as (y & Hy & Hty & Hyb). by rewrite <- Hty, (Hu id y).
Qed.

Lemma follows_trans w1 w2 w3 : (sound w1 -> sound w2) -> follows w1 w2 -> follows w2 w3 -> follows w1 w3.
Proof. intros Hs [Hn Hw] [Hn' Hw']. split; [auto|]. intros Hnamed Hs1 b id h Hb. apply Hw'; auto. Qed.
Lemma quietly_trans w1 w2 w3 : (sound w1 -> sound w2) -> quietly w1 w2 -> quietly w2 w3 -> quietly w1 w3.
Proof.
  intros Hs (Hl & Hn & Ho) (Hl' & Hn' & Ho'). split; [congruence|]. split; [by eapply follows_trans|]. destruct Hn' as [Hn' _].
  intros b Hnamed Hs1 Hb. apply Ho'; auto.
Qed.

(** Updates of the world that touch neither coordinator nor notes. *)
Definition same_view (w w' : world) : Prop :=
  w_coordinator w' = w_coordinator w /\ w_notes w' = w_notes w /\ w_named w' = w_named w /\ w_seen w' = w_seen w.

Lemma same_sound w w' : same_view w w' -> sound w -> sound w'.
Proof. unfold sound. by intros (-> & -> & -> & ->). Qed.
Lemma same_quietly w w' : same_view w w' -> quietly w w'.
Proof. unfold quietly, follows, open. by intros (-> & -> & -> & _). Qed.

Lemma look_sound (w : world) : sound w -> sound (look w).
Proof. intros Hs Hn. destruct (Hs Hn) as [Hg Hl]. split; [done|]. simpl. apply Forall_app. split; [done|]. by apply Forall_singleton. Qed.
Lemma look_quietly (w : world) : quietly w (look w).
Proof. done. Qed.

(** Sections of other threads. *)
Lemma section_step (w : world) s : sound w -> sound (run_section cfg w s) /\ quietly w (run_section cfg w s).
Proof.
  intros Hs. unfold run_section.
  assert (forall w1 c, same_view w w1 -> fails c = None -> finishes c = None -> sound (look (performed cfg c w1)) /\ quietly w (look (performed cfg c w1))) as Hcall.
  { intros w1 c Hv Hc Hc'. pose proof (same_sound _ _ Hv Hs) as Hs1.
    assert (sound (performed cfg c w1)) as Hs2 by (apply performed_sound; [done|by rewrite Hc|by rewrite Hc']). split; [by apply look_sound|].
    eapply quietly_trans; [|apply same_quietly, Hv|]; [done|]. eapply quietly_trans; [|by apply performed_quietly|apply look_quietly]. done. }
  destruct s as [f|id action params|b|id|setting b|]; try (by apply Hcall); split; solve [by apply look_sound | done].
Qed.

Lemma sections_step l : forall w : world, sound w -> sound (fold_left (run_section cfg) l w) /\ quietly w (fold_left (run_section cfg) l w).
Proof.
  induction l as [|s l IH]; intros w Hs; [done|]. cbn [fold_left]. destruct (section_step w s Hs) as [Hs1 Hq1].
  destruct (IH _ Hs1) as [Hs2 Hq2]. split; [done|]. by eapply quietly_trans; [|exact Hq1|exact Hq2].
Qed.

Lemma yield_step (w : world) r w' : yield cfg w = (r, w') -> sound w -> sound w' /\ quietly w w'.
Proof.
  unfold yield. intros Hy Hs. destruct (w_schedule w) as [|sections rest]; injection Hy as _ <-; [split; [by apply look_sound|done]|].
  set (w1 := mkWorld _ _ _ _ rest _ _ _ _). assert (sound (look w1)) as Hs1 by (apply look_sound; exact Hs).
  destruct (sections_step sections _ Hs1) as [Hs2 Hq2]. split; [done|].
  by eapply (quietly_trans w (look w1)).
Qed.

(** *** The dispatcher's own steps *)

(** A computation that keeps the world sound, and one that also leaves open what
    is open. *)
Definition keeps {A} (m : io world A) : Prop := forall w r w', m w = (r, w') -> sound w -> sound w'.
Definition stays_quiet {A} (m : io world A) : Prop := forall w r w', m w = (r, w') -> sound w -> sound w' /\ quietly w w'.

Lemma quiet_keeps {A} (m : io world A) : stays_quiet m -> keeps m.
Proof. intros Hm w r w' Hw Hs. by destruct (Hm w r w' Hw Hs). Qed.

Lemma keeps_bind {A B} (m : io world A) (k : A -> io world B) : keeps m -> (forall a, keeps (k a)) -> keeps (m ≫= k).
Proof. intros Hm Hk w r w' [(a & w1 & Hw & Hw1)|(e & Hw & _)]%io_bind_inv Hs; [eapply Hk; [done|]|]; by eapply Hm. Qed.

Lemma quiet_bind' {A B} (m : io world A) (k : A -> io world B) : stays_quiet m -> (forall a, stays_quiet (k a)) -> stays_quiet (m ≫= k).
Proof.
  intros Hm Hk w r w' [(a & w1 & Hw & Hw1)|(e & Hw & _)]%io_bind_inv Hs; [|by eapply Hm].
  destruct (Hm _ _ _ Hw Hs) as [Hs1 Hq1]. destruct (Hk a _ _ _ Hw1 Hs1) as [Hs2 Hq2]. split; [done|]. exact (quietly_trans w w1 w' (fun _ => Hs1) Hq1 Hq2).
Qed.

Lemma keeps_caught {A} (m : io world A) : keeps m -> keeps (caught m).
Proof. intros Hm w r w'. unfold caught. destruct (m w) as [r1 w1] eqn:Hw. intros [= _ <-]. by eapply Hm. Qed.
Lemma keeps_iter {A} (f : A -> io world unit) l : (forall x, keeps (f x)) -> keeps (io_iter f l).
Proof. intros Hf. induction l as [|x l IH]; cbn [io_iter]; [by intros w r w' [= _ <-]|]. by apply keeps_bind. Qed.

Lemma quiet_same {A} (m : io world A) : (forall w, same_view w (m w).2) -> stays_quiet m.
Proof. intros Hm w r w' Hw Hs. specialize (Hm w). rewrite Hw in Hm. split; [by eapply same_sound|by apply same_quietly]. Qed.

Lemma quiet_ret {A} (a : A) : stays_quiet (mret a).
Proof. by apply quiet_same. Qed.
Lemma quiet_fail {A} error : stays_quiet (fail error : io world A).
Proof. by apply quiet_same. Qed.
Lemma quiet_clock : stays_quiet clock.
Proof. by apply quiet_same. Qed.
Lemma quiet_ask {A} (f : Coordinator.t -> A) : stays_quiet (ask_coordinator f).
Proof. by apply quiet_same. Qed.
Lemma quiet_engine {A} (m : io (BackendEngine.t (P := P) (N := N)) A) : stays_quiet (on_engine m).
Proof. apply quiet_same. intros w. unfold on_engine. by destruct (m (w_engine w)). Qed.
Lemma quiet_engine_caught {A} (m : io (BackendEngine.t (P := P) (N := N)) A) : stays_quiet (caught (on_engine m)).
Proof. apply quiet_same. intros w. unfold caught, on_engine. by destruct (m (w_engine w)). Qed.
Lemma quiet_yield : stays_quiet (yield cfg).
Proof. intros w r w' Hy Hs. by eapply yield_step. Qed.
Lemma keeps_call c : fails c = None -> finishes c = None -> keeps (call_coordinator cfg c).
Proof. intros Hc Hc' w r w' [= _ <-] Hs. apply performed_sound; [done|by rewrite Hc|by rewrite Hc']. Qed.

Hint Resolve quiet_ret quiet_fail quiet_clock quiet_ask quiet_engine quiet_engine_caught quiet_yield quiet_keeps keeps_call : dispatch.
Ltac quiets := repeat first [progress intros | solve [eauto with dispatch] | apply quiet_bind' | case_match].

Lemma quiet_nonces id : stays_quiet (authoritative_expected_nonces cfg id).
Proof. unfold authoritative_expected_nonces. quiets. Qed.

(** *** Submissions *)

Lemma refused_app b l l' : refused b (l ++ l') <-> refused b l /\ refused b l'.
Proof. unfold refused. setoid_rewrite elem_of_app. naive_solver. Qed.

Lemma reported_app b l l' : reported b l -> reported b (l ++ l').
Proof. intros (key & e & v & f & Hin & Hf). exists key, e, v, f. split; [apply elem_of_app; by left|done]. Qed.

Lemma sent_good b a s l :
  good s l -> is_Some (batches s !! b) -> refused b l ->
  (forall id x, transactions s !! id = Some x -> lt_batch_id x = Some b -> told_failed x = false) -> good s (l ++ [Sent b a]).
Proof.
  intros [Hok Hsent Honce Hfailed Htold] Hb Hr Hu. split; [done|..].
  - intros b' a' [Ha|Ha%list_elem_of_singleton]%elem_of_app; [by eapply Hsent|]. by injection Ha as -> ->.
  - assert (forall i b' a', (l ++ [Sent b a]) !! i = Some (Sent b' a') ->
      l !! i = Some (Sent b' a') \/ i = length l /\ b' = b /\ a' = a) as Hcases.
    { intros i b' a'. rewrite lookup_app. destruct (l !! i) as [n|] eqn:Hi; [intros [= ->]; by left|]. apply lookup_ge_None in Hi.
      intros [Hz [= -> ->]]%list_lookup_singleton_Some. right. split; [lia|done]. }
    assert (forall i a', l !! i = Some (Sent b a') -> may_be_accepted a' = false) as Hold
      by (intros i a' Hi; by eapply Hr, list_elem_of_lookup_2).
    intros i j b' a1 a2 [Hi|(-> & -> & ->)]%Hcases [Hj|(Hj & Hb' & ->)]%Hcases Hm Hm'.
    + by eapply Honce.
    + subst. apply Hold in Hi. congruence.
    + apply Hold in Hj. congruence.
    + by subst.
  - intros id x b' Hx Ht Hxb. destruct (decide (b' = b)) as [->|Hne]; [by rewrite (Hu id x Hx Hxb) in Ht|].
    destruct (Hfailed id x b' Hx Ht Hxb) as [Hf|Hf]; [|right; by apply reported_app]. left. apply refused_app. split; [done|].
    intros a' Ha'%list_elem_of_singleton. by injection Ha' as -> ->.
  - intros b' key a' [Ha|Ha%list_elem_of_singleton]%elem_of_app; [by eapply Htold|discriminate Ha].
Qed.

Lemma untold_sent b b' l answers : untold b l -> untold b (l ++ map (Sent b') answers).
Proof. intros Hl key a [Ha|(x & Hx & _)%list_elem_of_fmap]%elem_of_app; [by apply (Hl key a)|discriminate Hx]. Qed.

(** One call of the engine, with its outcome. *)
Lemma submit_step b params actions (w : world) r w' :
  submit_batch b params actions w = (r, w') -> sound w -> (w_named w = true -> open b w) ->
  sound w' /\ w_named w' = w_named w /\ (untold b (w_notes w) -> untold b (w_notes w'))
  /\ (w_named w = true -> match r with
       | Ok _ => True
       | Err error => refusal error = true -> open b w'
       end).
Proof.
  unfold submit_batch. destruct (BackendEngine.submit_actions params actions (w_engine w)) as [r' e'] eqn:Hsub.
  intros [= <- <-] Hs Ho. split_and!; [|done|apply untold_sent|]; destruct (submit_actions_cases _ _ _ _ _ Hsub) as [(error & -> & _ & Ha & _)|(answer & Ha & Hr)]; rewrite Ha.
  - rewrite drop_all, app_nil_r. exact Hs.
  - rewrite drop_app_length. intros Hn. destruct (Hs Hn) as [Hg Hl]. split; [|done]. destruct (Ho Hn) as (Hb & Hu & Hrf). by apply sent_good.
  - rewrite drop_all, app_nil_r. intros Hn _. exact (Ho Hn).
  - rewrite drop_app_length. intros Hn. destruct r' as [v|error]; [done|]. intros Href. destruct (Ho Hn) as (Hb & Hu & Hrf). split; [done|]. split; [done|].
      cbn. apply refused_app. split; [done|]. intros a Ha'%list_elem_of_singleton. injection Ha' as ->.
      destruct Hr as [->|[_ Hno]]; [|congruence]. unfold may_be_accepted. by rewrite Href.
Qed.

Lemma attempts_step b params actions retries : forall (w : world) r w',
  attempts cfg retries b params actions w = (r, w') -> sound w -> (w_named w = true -> open b w) ->
  sound w' /\ (w_named w' = true -> w_named w = true) /\ (untold b (w_notes w) -> untold b (w_notes w'))
  /\ (w_named w' = true -> exists r', r = Ok r' /\ match r' with Ok _ => True | Err error => refusal error = true -> open b w' end).
Proof.
  induction retries as [|retries IH]; intros w r w'; cbn [attempts];
    (intros [(u & w1 & Hy & Hw)|(e & Hy & _)]%io_bind_inv Hs Ho; [|unfold yield in Hy; case_match; discriminate Hy]);
    destruct (yield_step _ _ _ Hy Hs) as [Hs1 (Hnotes & [Hn1 _] & Ho1)];
    (assert (w_named w1 = true -> open b w1) as Hop1 by (intros Hn; apply Ho1; auto));
    unfold caught in Hw; unfold mbind, io_bind in Hw;
    destruct (submit_batch b params actions w1) as [r1 w2] eqn:Hsub;
    destruct (submit_step _ _ _ _ _ _ Hsub Hs1 Hop1) as (Hs2 & Hn2 & Ht & Hr); rewrite Hnotes in Ht; rewrite <- Hn2 in Hn1.
  - destruct r1 as [v|error]; [injection Hw as <- <-; split_and!; [done..|]; by eexists|].
    assert (r = Ok (Err error) /\ w' = w2) as [-> ->] by (destruct error; by injection Hw as <- <-).
    split_and!; [done..|]. intros Hn. rewrite Hn2 in Hn. exists (Err error). by split; [|apply Hr].
  - destruct r1 as [v|error]; [injection Hw as <- <-; split_and!; [done..|]; by eexists|].
    assert (error = BE_StaleContext /\ attempts cfg retries b params actions w2 = (r, w') \/ r = Ok (Err error) /\ w' = w2) as [[-> Hw']|[-> ->]].
    { destruct error; try (right; by injection Hw as <- <-). left. done. }
    + destruct (IH _ _ _ Hw' Hs2) as (Hs3 & Hn3 & Ht3 & Hr3); [intros Hn; rewrite Hn2 in Hn; by apply Hr|]. split_and!; auto.
    + split_and!; [done..|]. intros Hn. rewrite Hn2 in Hn. exists (Err error). by split; [|apply Hr].
Qed.

(** The end of a batch: only a refused one fails. *)
Lemma settle_step id b r0 (w : world) r w' :
  settle_batch cfg id b r0 w = (r, w') -> sound w -> (w_named w = true -> untold b (w_notes w)) ->
  (w_named w = true -> match r0 with Ok _ => True | Err error => refusal error = true -> open b w end) -> sound w'.
Proof.
  intros Hw Hs Hunt Ho.
  assert (forall c, fails c = None -> (forall b', finishes c = Some b' -> b' = b) -> (Ok tt, performed cfg c w) = (r, w') -> sound w -> sound w') as Hcall.
  { intros c Hc Hf [= _ <-] _. apply performed_sound; [done|by rewrite Hc|]. destruct (finishes c); [by rewrite (Hf _ eq_refl)|done]. }
  assert (forall error info, (w_named w = true -> open b w) -> (Ok tt, performed cfg (FailBatch b error info) w) = (r, w') -> sound w -> sound w') as Hfail.
  { intros error info Hb [= _ <-] _. apply performed_sound; [done| |done]. simpl. intros Hn. left. by destruct (Hb Hn) as (_ & _ & ?). }
  unfold settle_batch in Hw. destruct r0 as [[response prediction]|error].
  - destruct (optional_hash response _) as [[h|]|error]; (refine (Hcall _ _ _ Hw Hs); [reflexivity|by intros b' [=]]).
  - destruct error; try (refine (Hcall _ _ _ Hw Hs); [reflexivity|by intros b' [=]]); (refine (Hfail _ _ _ Hw Hs)); intros Hn; exact (Ho Hn eq_refl).
Qed.

(** A batch that was just taken is open. *)
Lemma take_step id expected slot (w : world) taken w' :
  take_batch cfg id expected slot w = (Ok taken, w') -> sound w ->
  sound w' /\ (w_named w' = true -> match taken with
    | Some batch => open (ts_batch_id batch) w' /\ untold (ts_batch_id batch) (w_notes w')
    | None => True
    end).
Proof.
  unfold take_batch. set (c := TakeReadyBatch _ _ _ _ _ _). intros [= Ht <-] Hs.
  assert (sound (performed cfg c (tick (tick (tick w))))) as Hs' by (by apply performed_sound).
  split; [done|]. intros Hn. destruct taken as [batch|]; [|done]. simpl in Hn. apply andb_prop in Hn as [Hn _].
  destruct (Hs Hn) as [[Hok Hsent _ _ Htold] _]. destruct (taken_new cfg _ _ _ _ _ _ _ batch Hok Ht) as [Hnone Hsome].
  split; [|intros key a Ha; destruct (Htold _ _ _ Ha) as (B & HB & _); congruence].
  split; [exact Hsome|]. split.
  - intros x y Hy Hyb. destruct (told_failed y) eqn:Hty; [|done]. exfalso.
    destruct (tells_take cfg _ _ _ _ _ _ _ Hok x y _ Hy Hty Hyb) as (z & Hz & _ & Hzb).
    pose proof (ok_placed _ _ _ _ Hok x z Hz (not_elem_of_nil x)) as Hp. unfold placed in Hp. rewrite Hzb in Hp.
    destruct Hp as (B & k & HB & _). congruence.
  - intros a Ha. destruct (Hsent _ _ Ha) as [B HB]. congruence.
Qed.

Lemma keeps_dispatch id : keeps (dispatch_service cfg id).
Proof.
  unfold dispatch_service. apply keeps_bind; [eauto with dispatch|intros _]. apply keeps_bind; [eauto with dispatch|intros now].
  apply keeps_bind; [eauto with dispatch|intros ready]. destruct (negb ready); [eauto with dispatch|].
  apply keeps_bind; [apply quiet_keeps, quiet_nonces|intros [expected slot]]. apply keeps_bind; [eauto with dispatch|intros _].
  intros w r w' [(taken & w1 & Ht & Hw)|(e & Ht & _)]%io_bind_inv Hs; [|discriminate Ht].
  destruct (take_step _ _ _ _ _ _ Ht Hs) as [Hs1 Ho1]. destruct taken as [batch|]; [|by injection Hw as _ <-].
  assert (w_named w1 = true -> open (ts_batch_id batch) w1) as Hop1 by (intros Hn; by apply Ho1).
  cbv zeta in Hw. apply io_bind_inv in Hw as [(r1 & w2 & Ha & Hw)|(e & Ha & _)]; [|by destruct (attempts_step _ _ _ _ _ _ _ Ha Hs1 Hop1)].
  destruct (attempts_step _ _ _ _ _ _ _ Ha Hs1 Hop1) as (Hs2 & Hn2 & Ht2 & Hr2).
  apply io_bind_inv in Hw as [(u & w3 & Hy & Hw)|(e & Hy & _)]; [|by destruct (yield_step _ _ _ Hy Hs2)].
  destruct (yield_step _ _ _ Hy Hs2) as [Hs3 (Hnotes & [Hn3 _] & Ho3)]. eapply settle_step; [exact Hw|done|..]; intros Hn.
  { rewrite Hnotes. apply Ht2, Ho1; auto. }
  destruct (Hr2 (Hn3 Hn)) as (r' & [= <-] & Hr). destruct r1 as [v|error]; [done|]. intros Href. apply Ho3; auto.
Qed.

(** *** Following work *)

(** A computation that leaves the work of batches what it is. *)
Definition stays_on {A} (m : io world A) : Prop := forall w r w', m w = (r, w') -> sound w -> sound w' /\ follows w w'.

Lemma on_quiet {A} (m : io world A) : stays_quiet m -> stays_on m.
Proof. intros Hm w r w' Hw Hs. by destruct (Hm w r w' Hw Hs) as (? & _ & ? & _). Qed.
Lemma on_bind {A B} (m : io world A) (k : A -> io world B) : stays_on m -> (forall a, stays_on (k a)) -> stays_on (m ≫= k).
Proof.
  intros Hm Hk w r w' [(a & w1 & Hw & Hw1)|(e & Hw & _)]%io_bind_inv Hs; [|by eapply Hm].
  destruct (Hm _ _ _ Hw Hs) as [Hs1 Hf1]. destruct (Hk a _ _ _ Hw1 Hs1) as [Hs2 Hf2]. split; [done|]. exact (follows_trans w w1 w' (fun _ => Hs1) Hf1 Hf2).
Qed.
Lemma on_call c : fails c = None -> finishes c = None -> stays_on (call_coordinator cfg c).
Proof. intros Hc Hc' w r w' Hw Hs. split; [by eapply keeps_call|]. injection Hw as _ <-. by apply performed_follows. Qed.

(** A question about the work of a batch. *)
Lemma told_good b key a s l :
  good s l -> has_work s b (wk_service_id key) (wk_package_hash key) -> good s (l ++ [Told b key a]).
Proof.
  intros [Hok Hsent Honce Hfailed Htold] Hw.
  assert (forall b' a', Sent b' a' ∈ l ++ [Told b key a] -> Sent b' a' ∈ l) as Hin.
  { intros b' a' [?|Ha%list_elem_of_singleton]%elem_of_app; [done|discriminate Ha]. }
  assert (forall i b' a', (l ++ [Told b key a]) !! i = Some (Sent b' a') -> l !! i = Some (Sent b' a')) as Hat.
  { intros i b' a'. rewrite lookup_app. destruct (l !! i) as [n|]; [done|]. by intros [_ ?]%list_lookup_singleton_Some. }
  split; [done|by eauto|by eauto|..].
  - intros id x b' Hx Ht Hb. destruct (Hfailed id x b' Hx Ht Hb) as [Hf|Hf]; [left|right; by apply reported_app]. intros a' Ha'. by apply Hf, Hin.
  - intros b' key' a' [Ha|Ha%list_elem_of_singleton]%elem_of_app; [by eapply Htold|]. by injection Ha as -> -> ->.
Qed.

Lemma ask_step b key (w : world) r w' :
  ask_work b key w = (r, w') -> sound w -> (w_named w = true -> has_work (w_coordinator w) b (wk_service_id key) (wk_package_hash key)) ->
  sound w' /\ follows w w' /\ (forall result finalized, r = Ok (Some (result, finalized, true)) -> reported b (w_notes w')).
Proof.
  unfold ask_work. destruct (work_of_batch key (w_engine w)) as [r1 e1] eqn:Hr. intros [= <- <-] Hs Hw. split_and!.
  - intros Hn. destruct (Hs Hn) as [Hg Hl]. split; [|done]. apply told_good; auto.
  - by split.
  - intros result finalized ->. exists key, (w_engine w), result, finalized. rewrite Hr. split; [|done]. simpl. apply elem_of_app. right.
    by apply list_elem_of_singleton.
Qed.

Lemma reconcile_step batch (w : world) r w' :
  reconcile_batch cfg batch w = (r, w') -> sound w -> (w_named w = true -> known (w_coordinator w) batch) -> sound w' /\ follows w w'.
Proof.
  intros Hr Hs Hk. unfold reconcile_batch in Hr. destruct (fs_package_hash batch) as [h|] eqn:Hh; [|by eapply on_quiet, Hs; [apply quiet_ret|]].
  apply io_bind_inv in Hr as [(u & w1 & Hy & Hr)|(e & Hy & _)]; [|by eapply on_quiet, Hs; [apply quiet_yield|]].
  destruct (on_quiet _ quiet_yield _ _ _ Hy Hs) as [Hs1 Hf1].
  apply io_bind_inv in Hr as [(a & w2 & Ha & Hr)|(e & Ha & _)]; unfold caught in Ha;
    destruct (ask_work (fs_batch_id batch) (mkWorkKey (fs_service_id batch) h) w1) as [r1 w3] eqn:Hask; [|discriminate Ha]. injection Ha as <- <-.
  destruct (ask_step _ _ _ _ _ Hask Hs1) as (Hs2 & Hf2 & Hrep).
  { intros Hn. apply Hf1; [done..|]. apply Hk, Hh. by apply Hf1. }
  pose proof (follows_trans _ _ _ (fun _ => Hs1) Hf1 Hf2) as Hf. clear Hask Hf1 Hf2 Hy Hk.
  enough (sound w' /\ follows w3 w') as [Hs' Hf'] by (split; [done|]; exact (follows_trans _ _ _ (fun _ => Hs2) Hf Hf')).
  assert (forall c, fails c = None -> finishes c = None -> stays_on (yield cfg;; call_coordinator cfg c)) as Hcall.
  { intros c Hc Hc'. apply on_bind; [apply on_quiet, quiet_yield|intros _; by apply on_call]. }
  destruct r1 as [[[[v fin] []]|]|error]; [|destruct fin; by eapply Hcall, Hs2; [..|exact Hr]|by eapply Hcall, Hs2; [..|exact Hr]|by injection Hr as _ <-].
  assert (reported (fs_batch_id batch) (w_notes w3)) as Hin by (by eapply Hrep).
  assert (exists error, (yield cfg;; fail_batch_call cfg (fs_batch_id batch) error) w3 = (r, w')) as [error Hfail] by (eexists; by destruct fin).
  apply io_bind_inv in Hfail as [(u' & w4 & Hy & Hw)|(e & Hy & _)]; [|by eapply on_quiet, Hs2; [apply quiet_yield|]].
  destruct (yield_step _ _ _ Hy Hs2) as [Hs4 (Hnotes & Hf4 & _)]. injection Hw as _ <-. split.
  - apply performed_sound; [done| |done]. simpl. intros _. right. by rewrite Hnotes.
  - eapply follows_trans; [intros _; exact Hs4|done|]. by apply performed_follows.
Qed.

Lemma reconciles_step batches : forall first (w : world) r w', reconcile_batches cfg batches first w = (r, w') -> sound w ->
  (w_named w = true -> Forall (known (w_coordinator w)) batches) -> sound w'.
Proof.
  induction batches as [|batch batches IH]; intros first w r w' Hr Hs Hk; cbn [reconcile_batches] in Hr; [by injection Hr as _ <-|].
  unfold caught, mbind, io_bind in Hr. destruct (reconcile_batch cfg batch w) as [r1 w1] eqn:Hb.
  destruct (reconcile_step _ _ _ _ Hb Hs) as [Hs1 [Hn1 Hw1]]; [intros Hn; by apply Forall_cons in Hk as [? _]|].
  eapply IH; [exact Hr|done|]. intros Hn. specialize (Hk (Hn1 Hn)). apply Forall_cons in Hk as [_ Hk]. eapply Forall_impl; [exact Hk|].
  intros b Hb' h Hh. apply Hw1; [done..|]. by apply Hb'.
Qed.

Lemma keeps_reconcile : keeps (reconcile_in_flight_batches cfg).
Proof.
  unfold reconcile_in_flight_batches. apply keeps_bind; [eauto with dispatch|intros _]. apply keeps_bind; [eauto with dispatch|intros t].
  intros w r w' Hw Hs. apply io_bind_inv in Hw as [(l & w1 & [= <- <-] & Hw)|(e & He & _)]; [|discriminate He].
  assert (w_named w = true -> Forall (known (w_coordinator w)) (in_flight_batches t (w_coordinator w))) as Hk.
  { intros Hn. destruct (Hs Hn) as [[Hok _] _]. by eapply in_flight_known. }
  apply io_bind_inv in Hw as [(first & w2 & Hl & Hw)|(e & Hl & _)]; [|by eapply reconciles_step]. pose proof (reconciles_step _ _ _ _ _ Hl Hs Hk).
  destruct first; by injection Hw as _ <-.
Qed.

Lemma keeps_turn interval last : keeps (dispatcher_turn cfg interval last).
Proof.
  unfold dispatcher_turn. apply keeps_bind; [eauto with dispatch|intros now]. apply keeps_bind.
  - destruct (interval <=? now - last); [|eauto with dispatch]. apply keeps_bind; [eauto with dispatch|intros now'].
    apply keeps_bind; [|eauto with dispatch]. apply keeps_caught, keeps_reconcile.
  - intros last'. apply keeps_bind; [|eauto with dispatch]. apply keeps_caught. unfold dispatch_ready_batches.
    apply keeps_bind; [eauto with dispatch|intros _]. apply keeps_bind; [eauto with dispatch|intros l]. apply keeps_iter, keeps_dispatch.
Qed.

Lemma dispatcher_sound turns interval : forall last, keeps (dispatcher cfg turns interval last).
Proof.
  induction turns as [|turns IH]; intros last; cbn [dispatcher]; [eauto with dispatch|]. apply keeps_bind; [apply keeps_turn|apply IH].
Qed.

Lemma start_sound e clock schedule : sound (start e clock schedule).
Proof.
  intros _. split; [|constructor]. split; [apply ok_start|set_solver|done| |set_solver]. intros id x b Hx. simpl in Hx. by rewrite lookup_empty in Hx.
Qed.

(** Every view of a run, and its end. *)
Definition view_of (w : world) (s : Coordinator.t) (l : list note) : Prop := (s, l) ∈ w_seen w ++ [(w_coordinator w, w_notes w)].

Lemma run_good e clock schedule turns interval last r (w : world) s l :
  dispatcher cfg turns interval last (start e clock schedule) = (r, w) -> w_named w = true -> view_of w s l -> good s l.
Proof.
  intros Hd Hn Hv. destruct (dispatcher_sound turns interval last _ _ _ Hd (start_sound e clock schedule) Hn) as [Hg Hl].
  apply elem_of_app in Hv as [Hv|Hv%list_elem_of_singleton]; [|by injection Hv as -> ->]. rewrite Forall_forall in Hl. exact (Hl _ Hv).
Qed.
End Runs.

(** C8: no transaction is submitted twice. Let the dispatcher run for any number of
    turns, from an empty coordinator, with any answers of the network, any clock and
    any interleaving with the requests of other threads, where the names of
    transactions and batches do not collide. Whenever anyone looks, two submissions
    the network may have accepted (it did, or it answered something other than an
    explicit refusal) are of batches that have no transaction in common. *)
Theorem submitted_at_most_once `{Blake2} `{Trie} `{RocksDb} `{SerdeJson} {P : Type} `{ApplicationPlanner P}
    `{Json} {N : Type} `{!BackendNetwork N} `{ArtifactStore N} `{Polkavm} `{PayloadBase64} `{ErrorText}
    (cfg : Coordinator.config) (e : BackendEngine.t (P := P) (N := N)) (clock : nat -> Z) (schedule : list (list Dispatcher.section))
    (turns : nat) (interval last : Z) r (w : Dispatcher.world (P := P) (N := N)) s l i j b b' a a' B B' :
  0 <= Coordinator.max_queued_per_sender cfg ->
  Dispatcher.dispatcher cfg turns interval last (Dispatcher.start e clock schedule) = (r, w) ->
  Dispatcher.w_named w = true -> view_of w s l ->
  l !! i = Some (Dispatcher.Sent b a) -> l !! j = Some (Dispatcher.Sent b' a') -> i <> j ->
  may_be_accepted a = true -> may_be_accepted a' = true ->
  Coordinator.batches s !! b = Some B -> Coordinator.batches s !! b' = Some B' ->
  forall id, id ∈ Coordinator.ib_logical_transaction_ids B -> id ∉ Coordinator.ib_logical_transaction_ids B'.
Proof.
  intros Hmax Hd Hn Hv Hi Hj Hne Hm Hm' HB HB' id Hin Hin'. destruct (run_good cfg Hmax _ _ _ _ _ _ _ _ _ _ Hd Hn Hv) as [Hok _ Honce _ _].
  apply list_elem_of_lookup in Hin as [k Hk], Hin' as [k' Hk'].
  destruct (ok_batch _ _ _ _ Hok b B HB) as [_ _ _ Hin1], (ok_batch _ _ _ _ Hok b' B' HB') as [_ _ _ Hin2].
  destruct (Hin1 k id Hk) as (x & Hx & _ & Hxb & _), (Hin2 k' id Hk') as (x' & Hx' & _ & Hxb' & _).
  assert (b' = b) as -> by congruence. exact (Hne (Honce i j b a a' Hi Hj Hm Hm')).
Qed.

(** A failure found in the answer is one the network reported. *)
Lemma work_failure `{Blake2} `{Trie} `{RocksDb} `{SerdeJson} {P : Type} `{ApplicationPlanner P}
    `{JsonLaws} {N : Type} `{!BackendNetwork N} `{ArtifactStore N} `{Polkavm} `{PayloadBase64} `{ErrorText}
    (key : WorkKey) (e : BackendEngine.t (P := P) (N := N)) result finalized :
  (Dispatcher.work_of_batch key e).1 = Ok (Some (result, finalized, true)) ->
  exists answer, (n_work_status (Dispatcher.work_params key) (BackendEngine.e_net e)).1 = Ok answer
    /\ v_get answer (bstr "status") ≫= v_as_str = Some (bstr "failed").
Proof.
  unfold Dispatcher.work_of_batch, Dispatcher.caught. unfold mbind at 1, io_bind at 1.
  destruct (BackendEngine.status (Dispatcher.work_params key) e) as [[v|error] e'] eqn:Hst; [|by destruct error].
  destruct (status_reported _ _ _ _ Hst) as (answer & n & Hn & Hfield). case_bool_decide as Hf; [|done]. intros _. exists answer. split; [by rewrite Hn|].
  rewrite <- Hfield. destruct (v_get v (bstr "status") ≫= v_as_str); [by simpl in Hf; subst|discriminate Hf].
Qed.

(** C9: what is reported as failed may be submitted again. In every such run,
    whenever anyone looks: if a transaction has an error and is not marked as of
    unknown fate, then either it never was in a batch and no submission carried it,
    or every submission of its batch was refused by the engine or the network, or
    the network, asked about the package of the batch, answered with the status
    "failed". *)
Theorem failed_means_not_accepted `{Blake2} `{Trie} `{RocksDb} `{SerdeJson} {P : Type} `{ApplicationPlanner P}
    `{JsonLaws} {N : Type} `{!BackendNetwork N} `{ArtifactStore N} `{Polkavm} `{PayloadBase64} `{ErrorText}
    (cfg : Coordinator.config) (e : BackendEngine.t (P := P) (N := N)) (clock : nat -> Z) (schedule : list (list Dispatcher.section))
    (turns : nat) (interval last : Z) r (w : Dispatcher.world (P := P) (N := N)) s l id x :
  0 <= Coordinator.max_queued_per_sender cfg ->
  Dispatcher.dispatcher cfg turns interval last (Dispatcher.start e clock schedule) = (r, w) ->
  Dispatcher.w_named w = true -> view_of w s l ->
  Coordinator.transactions s !! id = Some x -> is_Some (Coordinator.lt_error x) -> Coordinator.lt_submission_unknown x = false ->
  match Coordinator.lt_batch_id x with
  | None => forall b B, Coordinator.batches s !! b = Some B -> id ∉ Coordinator.ib_logical_transaction_ids B
  | Some b => (forall a, Dispatcher.Sent b a ∈ l -> may_be_accepted a = false)
      \/ exists key answer, has_work s b (wk_service_id key) (wk_package_hash key)
           /\ Dispatcher.Told b key (Ok answer) ∈ l /\ v_get answer (bstr "status") ≫= v_as_str = Some (bstr "failed")
  end.
Proof.
  intros Hmax Hd Hn Hv Hx He Hu. destruct (run_good cfg Hmax _ _ _ _ _ _ _ _ _ _ Hd Hn Hv) as [Hok _ _ Hfailed Htold].
  destruct (Coordinator.lt_batch_id x) as [b|] eqn:Hb.
  - destruct (Hfailed id x b) as [Hr|(key & e' & v & f & Hin & Hwork)]; try done; [unfold told_failed; rewrite Hu; by rewrite bool_decide_eq_true_2|by left|].
    right. destruct (work_failure key e' v f Hwork) as (answer & Ha & Hs). rewrite Ha in Hin. exists key, answer.
    split; [by eapply Htold|]. by split.
  - intros b B HB [k Hk]%list_elem_of_lookup. destruct (ok_batch _ _ _ _ Hok b B HB) as [_ _ _ Hm].
    destruct (Hm k id Hk) as (y & Hy & _ & Hyb & _). congruence.
Qed.

(** A batch whose prediction the chain went past is stuck: reconciling it is an error,
    its lane stays taken and the next turn finds the same. *)
Lemma stale_prediction_holds_lane `{Blake2} `{TrieLaws} `{RocksDb} `{SerdeJson} {P : Type} `{ApplicationPlanner P}
    `{JsonLaws} {N : Type} `{!BackendNetwork N} `{ArtifactStore N} `{Polkavm} `{PayloadBase64} `{ErrorText}
    (cfg : Coordinator.config) (batch : Coordinator.InFlightBatchSnapshot) (w : Dispatcher.world (P := P) (N := N)) h output root :
  Coordinator.fs_package_hash batch = Some h -> hash_ok h -> u32_ok (Coordinator.fs_service_id batch) ->
  Dispatcher.w_schedule w = [] ->
  let id := Coordinator.fs_service_id batch in
  canonical_on_chain (v_object [(bstr "serviceId", v_num id); (bstr "packageHash", v_hash h)]) (Dispatcher.w_engine w) id root ->
  BackendState.prediction (BackendEngine.e_state (Dispatcher.w_engine w)) id h = Some output ->
  root <> RefineOutput.parent_root output -> root <> RefineOutput.new_root output ->
  exists w', Dispatcher.reconcile_batch cfg batch w = (Err BE_PredictionStale, w')
    /\ Dispatcher.w_coordinator w' = Dispatcher.w_coordinator w
    /\ BackendState.prediction (BackendEngine.e_state (Dispatcher.w_engine w')) id h = Some output.
Proof.
  intros Hh Hok Hid Hsch id Hchain Hpred Hne1 Hne2.
  set (params := v_object _) in *.
  assert (NoDup (map fst [(bstr "serviceId", v_num id); (bstr "packageHash", v_hash h)])) as Hnd.
  { apply (bool_decide_unpack _). vm_compute. exact I. }
  destruct (status_stale params (Dispatcher.w_engine w) id (hash_hex h) h output root) as (e' & Hst & Hp & _); try done.
  - unfold params. rewrite get_object by done. cbn [assoc]. rewrite bool_decide_eq_true_2 by done. cbn [mbind option_bind].
    unfold as_u32. rewrite num_is_u64 by (unfold u64_ok, u32_ok, U32_MAX, U64_MAX in *; lia). cbn [mbind option_bind].
    unfold u32_try_from, try_from_max. unfold u32_ok in Hid. by rewrite (proj2 (Z.leb_le _ _)) by (apply Hid).
  - unfold params. rewrite get_object by done. cbn [assoc]. rewrite bool_decide_eq_false_2 by done.
    rewrite bool_decide_eq_true_2 by done. cbn [mbind option_bind]. apply string_is_str.
  - by apply parse_hash_hex.
  - unfold Dispatcher.reconcile_batch. rewrite Hh. unfold mbind at 1, io_bind at 1, Dispatcher.yield. rewrite Hsch.
    unfold mbind, io_bind, Dispatcher.caught, Dispatcher.ask_work, Dispatcher.work_of_batch, Dispatcher.work_params, mbind, io_bind, Dispatcher.caught.
    cbn [Dispatcher.look Dispatcher.w_engine wk_service_id wk_package_hash]. fold id. fold params. rewrite Hst.
    eexists. split; [reflexivity|]. by split.
Qed.

(** ** Two runs *)

Module DispatcherToy.
Import Dispatcher.
#[global] Instance hash : Blake2 := Toy.blake2.
Definition cfg : Coordinator.config := (Coordinator.new (Some 2) (Some 50) None None).1.
Definition engine : BackendEngine.t (P := unit) (N := EngineToy.world) :=
  BackendEngine.mk (BackendState.register (sample_record 6 x02) sample_registered).2 None [].
Definition params (service_id : Z) (code : byte) : value :=
  v_object [(bstr "serviceId", v_num service_id); (bstr "serviceCodeHash", v_hash (repeat code 32))].
Definition time (n : nat) : Z := 100 * Z.of_nat n.

(** Two services get a transaction each. *)
Definition both : world := (dispatcher cfg 1 1000000 0 (start engine time
  [[Submits 5 (EngineToy.signed [x2a]) (params 5 x0b); Submits 6 (EngineToy.signed [x2b]) (params 6 x0b)]])).2.
(** A transaction that names other code than the service has. *)
Definition wrong_code : list (list (section (P := unit) (N := EngineToy.world))) := [[Submits 5 (EngineToy.signed [x2a]) (params 5 x0c)]].
Definition wrong : world := (dispatcher cfg 1 1000000 0 (start engine time wrong_code)).2.

Definition accepted (n : note) : option bytes := match n with Sent b (Ok _) => Some b | _ => None end.
Definition failures (w : world (P := unit) (N := EngineToy.world)) : list (option bytes) :=
  map (fun e => Coordinator.lt_error e.2 ≫= fun _ => Coordinator.lt_batch_id e.2)
    (map_to_list (Coordinator.transactions (w_coordinator w))).
End DispatcherToy.

Lemma submitted_at_most_once_witness :
  exists n n' b b', Dispatcher.w_notes DispatcherToy.both = [n; n'] /\ DispatcherToy.accepted n = Some b /\ DispatcherToy.accepted n' = Some b'
    /\ forall B B' id, Coordinator.batches (Dispatcher.w_coordinator DispatcherToy.both) !! b = Some B ->
         Coordinator.batches (Dispatcher.w_coordinator DispatcherToy.both) !! b' = Some B' ->
         id ∈ Coordinator.ib_logical_transaction_ids B -> id ∉ Coordinator.ib_logical_transaction_ids B'.
Proof.
  assert (map DispatcherToy.accepted (Dispatcher.w_notes DispatcherToy.both) = [Some (bstr "batch-0"); Some (bstr "batch-1")]) as Hnotes
    by (vm_compute; reflexivity).
  destruct (Dispatcher.w_notes DispatcherToy.both) as [|n [|n' [|n'' l]]] eqn:Hl; try discriminate Hnotes. injection Hnotes as Hn Hn'.
  exists n, n', (bstr "batch-0"), (bstr "batch-1"). split; [reflexivity|]. split; [exact Hn|]. split; [exact Hn'|].
  destruct n as [b a|b key a]; [|discriminate Hn]. destruct n' as [b' a'|b' key' a']; [|discriminate Hn'].
  destruct a as [v|er]; [|discriminate Hn]. destruct a' as [v'|er']; [|discriminate Hn'].
  intros B B' id HB HB'. unfold DispatcherToy.both in *.
  destruct (Dispatcher.dispatcher DispatcherToy.cfg 1 1000000 0 _) as [r w] eqn:Hd. cbn [snd] in *.
  assert (Dispatcher.w_named w = true) as Hnamed.
  { change w with (snd (r, w)). rewrite <- Hd. vm_compute. reflexivity. }
  eapply (submitted_at_most_once DispatcherToy.cfg DispatcherToy.engine DispatcherToy.time _ 1 1000000 0 r w
    (Dispatcher.w_coordinator w) (Dispatcher.w_notes w) 0%nat 1%nat b b'); [vm_compute; discriminate|exact Hd|exact Hnamed|..].
  - unfold view_of. apply elem_of_app. right. apply list_elem_of_singleton. reflexivity.
  - rewrite Hl. reflexivity.
  - rewrite Hl. reflexivity.
  - discriminate.
  - reflexivity.
  - reflexivity.
  - injection Hn as ->. exact HB.
  - injection Hn' as ->. exact HB'.
Defined.

Lemma failed_means_not_accepted_witness :
  exists id x b, Coordinator.transactions (Dispatcher.w_coordinator DispatcherToy.wrong) !! id = Some x
    /\ Coordinator.lt_batch_id x = Some b
    /\ ((forall a, Dispatcher.Sent b a ∈ Dispatcher.w_notes DispatcherToy.wrong -> may_be_accepted a = false)
        \/ exists key answer, has_work (Dispatcher.w_coordinator DispatcherToy.wrong) b (wk_service_id key) (wk_package_hash key)
             /\ Dispatcher.Told b key (Ok answer) ∈ Dispatcher.w_notes DispatcherToy.wrong
             /\ v_get answer (bstr "status") ≫= v_as_str = Some (bstr "failed")).
Proof.
  assert (forallb (fun e => bool_decide (is_Some (Coordinator.lt_error e.2)) && negb (Coordinator.lt_submission_unknown e.2)
      && bool_decide (Coordinator.lt_batch_id e.2 = Some (bstr "batch-0")))
    (map_to_list (Coordinator.transactions (Dispatcher.w_coordinator DispatcherToy.wrong))) = true
    /\ map_to_list (Coordinator.transactions (Dispatcher.w_coordinator DispatcherToy.wrong)) <> []) as [Hall Hne].
  { split; [vm_compute; reflexivity|]. intros Hnil. apply (f_equal length) in Hnil. vm_compute in Hnil. discriminate Hnil. }
  destruct (map_to_list _) as [|[id x] l] eqn:Hm; [contradiction|]. cbn [forallb snd] in Hall. apply andb_prop in Hall as [Hx _].
  apply andb_prop in Hx as [Hx Hb]. apply andb_prop in Hx as [Herr Hunk].
  apply bool_decide_eq_true in Herr, Hb. apply negb_true_iff in Hunk.
  assert (Coordinator.transactions (Dispatcher.w_coordinator DispatcherToy.wrong) !! id = Some x) as Hid.
  { apply elem_of_map_to_list. rewrite Hm. apply elem_of_cons. left. reflexivity. }
  exists id, x, (bstr "batch-0"). split; [exact Hid|]. split; [exact Hb|]. clear Hm. unfold DispatcherToy.wrong in *.
  destruct (Dispatcher.dispatcher DispatcherToy.cfg 1 1000000 0 _) as [r w] eqn:Hd. cbn [snd] in *.
  assert (Dispatcher.w_named w = true) as Hnamed.
  { change w with (snd (r, w)). rewrite <- Hd. vm_compute. reflexivity. }
  pose proof (failed_means_not_accepted DispatcherToy.cfg DispatcherToy.engine DispatcherToy.time DispatcherToy.wrong_code 1 1000000 0 r w
    (Dispatcher.w_coordinator w) (Dispatcher.w_notes w) id x) as Hf. rewrite Hb in Hf. apply Hf.
  - vm_compute. discriminate.
  - exact Hd.
  - exact Hnamed.
  - unfold view_of. apply elem_of_app. right. apply list_elem_of_singleton. reflexivity.
  - exact Hid.
  - exact Herr.
  - exact Hunk.
Defined.
