(* ===== verification/Gateway.v ===== *)
(** * The MiniJAM gateway

    [MiniJamNetworkGateway]: the network of the backend over a JSON-RPC
    transport to the node and to the formal service. The transport is a
    parameter ([JsonRpcTransport]), as are the SCALE and JAM codecs of the
    values the node answers with. *)

From S2P Require Import Prelude Ordering Reader Wire ServiceKeys StateView StateDiff Records Witness RefineInput Dependencies RefineOutput Ownership Crypto Actions ActionsV2 GuestMemory State Overlays Provider BackendBase Registry Envelope Database BackendState JsonValue Engine.

(** ** Transport and codecs *)

(** [jamscript_deployment::ErrorCode] and [DeploymentError]. *)
Inductive ErrorCode :=
| NetworkNotFound | NetworkConfigInvalid | UnsupportedNetworkKind | NetworkUnreachable | NetworkIdentityMismatch
| DeploymentArtifactNotFound | ArtifactInvalid | ArtifactCodeHashMismatch | RpcInvalidResponse | RpcMethodNotFound
| DeploymentRejected | DeploymentNotFinalized | DeploymentCodeHashMismatch | DeploymentOutcomeUnknown
| BackendRegistrationFailed | DeploymentRecordWriteFailed.
#[global] Instance error_code_eq_dec : EqDecision ErrorCode.
Proof. solve_decision. Defined.

Record DeploymentError := mkDeploymentError { de_code : ErrorCode; de_message : bytes }.

(** The trait [JsonRpcTransport]: endpoint, method, parameters, timeout in
    milliseconds, and whether the call changes something. *)
Class JsonRpcTransport `{Json} (T : Type) :=
  rpc_call : bytes -> bytes -> value -> Z -> bool -> T -> result value DeploymentError * T.

(** [BoundedVec<u8, ConstU32<max>>] in SCALE: the value and what follows it, or
    the text of an error. *)
Class ScaleBytes := {
  scale_encode : bytes -> bytes;
  scale_decode : Z -> bytes -> result (bytes * bytes) bytes
}.
Class ScaleLaws `{ScaleBytes} : Prop := {
  scale_round_trip max b rest : blen b <= max -> scale_decode max (scale_encode b ++ rest) = Ok (b, rest);
  scale_bounded max input b rest : scale_decode max input = Ok (b, rest) -> blen b <= max
}.

(** The code hash of a JAM service info, and what follows the info. *)
Class JamServiceInfo := jam_service_info : bytes -> result (bytes * bytes) bytes.
Class JamServiceInfoLaws `{JamServiceInfo} : Prop :=
  jam_code_hash input hash rest : jam_service_info input = Ok (hash, rest) -> hash_ok hash.

Definition MINIJAM_STATE_VALUE_MAX_BYTES : Z := 1048576.

Section Values.
Context `{ScaleBytes}.

Definition decode_minijam_state_value (input : bytes) : result bytes BackendError :=
  let? '(v, rest) := map_err (fun error => BE_Rpc (bstr "invalid MiniJAM StateValue: " ++ error))
                       (scale_decode MINIJAM_STATE_VALUE_MAX_BYTES input) in
  bail_if negb (blen rest =? 0) with BE_Rpc (bstr "trailing bytes after MiniJAM StateValue") ;;
  Ok v.

Definition encode_minijam_state_value (v : bytes) : result bytes BackendError :=
  bail_if blen v >? MINIJAM_STATE_VALUE_MAX_BYTES with BE_Rpc (bstr "MiniJAM StateValue exceeds its bound") ;;
  Ok (scale_encode v).
End Values.

(** ** Numbers in hexadecimal *)

(** [text.trim_start_matches("0x")]. *)
Fixpoint trim_0x (text : bytes) : bytes :=
  match text with
  | x30 :: x78 :: rest => trim_0x rest
  | _ => text
  end.

(** [u32::from_str_radix(text, 16).ok()]. *)
Fixpoint hex_digits (acc : Z) (text : bytes) : option Z :=
  match text with
  | [] => Some acc
  | c :: rest =>
      match nibble c with
      | Ok d => shifted ← checked_mul U32_MAX acc 16; next ← checked_add U32_MAX shifted d; hex_digits next rest
      | Err _ => None
      end
  end.
Definition u32_from_hex (text : bytes) : option Z :=
  match text with
  | [] => None
  | x2b :: c :: rest => hex_digits 0 (c :: rest)
  | _ => hex_digits 0 text
  end.

(** ** The gateway *)

Module Gateway.
Section Ops.
Context `{Json} {T : Type} `{!JsonRpcTransport T} `{ScaleBytes} `{JamServiceInfo}.

(** Where the node and the formal service are, and how long to wait. *)
Record t := mk { transport : T; node_rpc : bytes; formal_rpc : bytes; timeout : Z }.

Definition new (transport : T) (node_rpc formal_rpc : bytes) : t := mk transport node_rpc formal_rpc 30000.
Definition with_timeout (timeout : Z) (g : t) : t := mk (transport g) (node_rpc g) (formal_rpc g) timeout.

(** A call of the transport, with its error mapped. *)
Definition call (endpoint : t -> bytes) (method : bytes) (params : value) (mutating : bool) (f : DeploymentError -> BackendError)
    : io t value := fun g =>
  let '(r, transport) := rpc_call (endpoint g) method params (timeout g) mutating (transport g) in
  (map_err f r, mk transport (node_rpc g) (formal_rpc g) (timeout g)).

Definition rpc_message (error : DeploymentError) : BackendError := BE_Rpc (de_message error).

Definition genesis_hash : io t bytes :=
  v ← call node_rpc (bstr "chain_getBlockHash") (v_array [v_num 0]) false rpc_message;
  text ← lift (ok_or (v_as_str v) (BE_Rpc (bstr "genesis RPC returned no hash")));
  lift (parse_hash text).

(** The fields of a context the node answered with. *)
Definition parse_context (v : value) : result FinalizedContextV1 BackendError :=
  let lacks name := BE_Rpc (bstr "finalized context lacks " ++ name) in
  let? text := ok_or (v_get v (bstr "blockHash") ≫= v_as_str) (lacks (bstr "blockHash")) in
  let? block_hash := parse_hash text in
  let? block_number := ok_or (v_get v (bstr "blockNumber") ≫= as_u32) (lacks (bstr "blockNumber")) in
  let? text := ok_or (v_get v (bstr "stateRoot") ≫= v_as_str) (lacks (bstr "stateRoot")) in
  let? state_root := parse_hash text in
  let? slot := ok_or (v_get v (bstr "slot") ≫= as_u32) (lacks (bstr "slot")) in
  Ok (mkContext block_hash block_number state_root slot).

Definition finalized_context : io t FinalizedContextV1 :=
  v ← call node_rpc (bstr "minijam_getFinalizedContext") (v_array []) false rpc_message;
  lift (parse_context v).

Definition header_number (header : value) : option Z :=
  text ← v_get header (bstr "number") ≫= v_as_str; u32_from_hex (trim_0x text).

Definition best_context : io t FinalizedContextV1 :=
  let unavailable {A} (r : result A BackendError) := map_err (fun _ => BE_BestContextUnavailable) r in
  best ← call node_rpc (bstr "chain_getBlockHash") (v_array []) false (fun _ => BE_BestContextUnavailable);
  text ← lift (ok_or (v_as_str best) BE_BestContextUnavailable);
  block_hash ← lift (unavailable (parse_hash text));
  header ← call node_rpc (bstr "chain_getHeader") (v_array [v_hash block_hash]) false (fun _ => BE_BestContextUnavailable);
  block_number ← lift (ok_or (header_number header) BE_BestContextUnavailable);
  text ← lift (ok_or (v_get header (bstr "stateRoot") ≫= v_as_str) BE_BestContextUnavailable);
  state_root ← lift (unavailable (parse_hash text));
  mret (mkContext block_hash block_number state_root block_number).

Definition context_at (block_hash : bytes) : io t FinalizedContextV1 :=
  header ← call node_rpc (bstr "chain_getHeader") (v_array [v_hash block_hash]) false rpc_message;
  number ← lift (ok_or (header_number header) (BE_Rpc (bstr "context header lacks a valid number")));
  text ← lift (ok_or (v_get header (bstr "stateRoot") ≫= v_as_str) (BE_Rpc (bstr "context header lacks stateRoot")));
  state_root ← lift (parse_hash text);
  canonical ← call node_rpc (bstr "chain_getBlockHash") (v_array [v_num number]) false (fun _ => BE_StaleContext);
  canonical_hash ← lift (match v_as_str canonical with
                         | Some text => let? hash := parse_hash text in Ok (Some hash)
                         | None => Ok None
                         end);
  ensure (bool_decide (canonical_hash = Some block_hash)) BE_StaleContext;;
  mret (mkContext block_hash number state_root number).

Definition parse_service_info (service_id : Z) (encoded : bytes) : result ChainServiceInfoV1 BackendError :=
  let? text := decode_hex encoded in
  let? service_info := decode_minijam_state_value text in
  let? '(code_hash, rest) := map_err (fun error => BE_Rpc (bstr "invalid JAM ServiceInfo: " ++ error))
                               (jam_service_info service_info) in
  bail_if negb (blen rest =? 0) with BE_Rpc (bstr "trailing bytes after JAM ServiceInfo") ;;
  Ok (mkServiceInfo service_id code_hash).

Definition service_info (context : FinalizedContextV1) (service_id : Z) : io t (option ChainServiceInfoV1) :=
  v ← call node_rpc (bstr "minijam_getServiceInfoAt") (v_array [v_hash (fc_block_hash context); v_num service_id]) false rpc_message;
  match v_as_str v with
  | None => mret None
  | Some encoded => info ← lift (parse_service_info service_id encoded); mret (Some info)
  end.

(** [value.as_str().map(decode_hex).transpose()?.map(decode_minijam_state_value).transpose()]. *)
Definition parse_state_value (v : value) : result (option bytes) BackendError :=
  match v_as_str v with
  | None => Ok None
  | Some text =>
      let? encoded := decode_hex text in
      let? b := decode_minijam_state_value encoded in
      Ok (Some b)
  end.

Definition service_storage_at (context : FinalizedContextV1) (service_id : Z) (key : bytes) : io t (option bytes) :=
  v ← call node_rpc (bstr "minijam_getServiceStorageAt")
        (v_array [v_hash (fc_block_hash context); v_num service_id; v_hash key]) false rpc_message;
  lift (parse_state_value v).

Definition service_code (context : FinalizedContextV1) (service_id : Z) (code_hash : bytes) : io t (option bytes) :=
  v ← call node_rpc (bstr "minijam_getServicePreimageAt")
        (v_array [v_hash (fc_block_hash context); v_num service_id; v_hash code_hash]) false rpc_message;
  lift (parse_state_value v).

(** What an error of the formal service says about a submission. *)
Definition submission_error (error : DeploymentError) : BackendError :=
  if bool_decide (de_message error = bstr "stale finalized context") then BE_StaleContext
  else if bool_decide (de_code error = DeploymentRejected) then BE_NotSubmitted (bstr "Formal rejected Work: " ++ de_message error)
  else BE_Rpc (de_message error).

Definition submit_work (params : value) : io t value :=
  call formal_rpc (bstr "minijam_submitWorkV1") params true submission_error.

Definition status_error (error : DeploymentError) : BackendError :=
  if bool_decide (de_message error = bstr "work not found") then BE_WorkNotFound else BE_Rpc (de_message error).

Definition work_status (params : value) : io t value :=
  call formal_rpc (bstr "minijam_getWorkStatusV1")
    (if v_is_object params then v_remove params (bstr "serviceId") else params) false status_error.

(** [impl BackendNetwork for MiniJamNetworkGateway]; the network domain is the
    genesis hash. *)
#[global] Instance gateway_network : BackendNetwork t := {|
  n_genesis_hash := genesis_hash;
  n_finalized_context := finalized_context;
  n_best_context := best_context;
  n_context_at := context_at;
  n_service_info := service_info;
  n_service_storage_at := service_storage_at;
  n_service_code := service_code;
  n_submit_work := submit_work;
  n_work_status := work_status
|}.
End Ops.
End Gateway.
