(* ===== verification/Deployment.v ===== *)
(** * Deployment

    [jamscript-deployment]: named networks and their resolution, the checks of a
    built service, JSON-RPC over [curl], the creation of a service on MiniJAM and
    its registration with a backend, and the record of a deployment. The process
    that is run, the files, the clock and the URL parser are parameters. *)

From S2P Require Import Prelude Ordering Reader Wire ServiceKeys StateView StateDiff Records Witness RefineInput Dependencies RefineOutput Ownership Crypto Actions ActionsV2 GuestMemory State Overlays Provider BackendBase Registry Envelope Database BackendState Codec Text JsonValue Engine Gateway.

(** ** Errors *)

(** How a computation of the library stops early: with an error, or with a panic. *)
Inductive stop := Fails (error : DeploymentError) | Panics.

Definition fails (code : ErrorCode) (message : bytes) : stop := Fails (mkDeploymentError code message).

Definition code_text (code : ErrorCode) : bytes :=
  match code with
  | NetworkNotFound => bstr "NETWORK_NOT_FOUND"
  | NetworkConfigInvalid => bstr "NETWORK_CONFIG_INVALID"
  | UnsupportedNetworkKind => bstr "UNSUPPORTED_NETWORK_KIND"
  | NetworkUnreachable => bstr "NETWORK_UNREACHABLE"
  | NetworkIdentityMismatch => bstr "NETWORK_IDENTITY_MISMATCH"
  | DeploymentArtifactNotFound => bstr "ARTIFACT_NOT_FOUND"
  | ArtifactInvalid => bstr "ARTIFACT_INVALID"
  | ArtifactCodeHashMismatch => bstr "ARTIFACT_CODE_HASH_MISMATCH"
  | RpcInvalidResponse => bstr "RPC_INVALID_RESPONSE"
  | RpcMethodNotFound => bstr "RPC_METHOD_NOT_FOUND"
  | DeploymentRejected => bstr "DEPLOYMENT_REJECTED"
  | DeploymentNotFinalized => bstr "DEPLOYMENT_NOT_FINALIZED"
  | DeploymentCodeHashMismatch => bstr "DEPLOYMENT_CODE_HASH_MISMATCH"
  | DeploymentOutcomeUnknown => bstr "DEPLOYMENT_OUTCOME_UNKNOWN"
  | BackendRegistrationFailed => bstr "BACKEND_REGISTRATION_FAILED"
  | DeploymentRecordWriteFailed => bstr "DEPLOYMENT_RECORD_WRITE_FAILED"
  end.
(** [error.to_string()]. *)
Definition display (error : DeploymentError) : bytes := code_text (de_code error) ++ bstr ": " ++ de_message error.

(** [map_err] touches errors, not panics. *)
Definition on_error {A} (f : DeploymentError -> DeploymentError) (r : result A stop) : result A stop :=
  map_err (fun s => match s with Fails error => Fails (f error) | Panics => Panics end) r.

(** *** Hashes *)

Definition hex_value (c : byte) : option Z := match nibble c with Ok n => Some n | Err _ => None end.

(** [u8::from_str_radix(pair, 16)], which takes a sign. *)
Definition radix_pair (high low : byte) : option byte :=
  if bool_decide (high = x2b) then z2b <$> hex_value low
  else h ← hex_value high; l ← hex_value low; Some (z2b (16 * h + l)).

(** The pairs of [normalize_hash]: a slice that ends inside a character panics. *)
Fixpoint hash_pairs (value : bytes) : result bytes stop :=
  match value with
  | high :: low :: rest =>
      bail_if match rest with c :: _ => is_cont c | [] => false end with Panics ;;
      let? b := ok_or (radix_pair high low) (fails ArtifactInvalid (bstr "hash contains invalid hexadecimal data")) in
      let? bs := hash_pairs rest in
      Ok (b :: bs)
  | _ => Ok []
  end.

Definition normalize_hash (value : bytes) : result bytes stop :=
  let value := strip_0x value in
  bail_if negb (blen value =? 64) with fails ArtifactInvalid (bstr "hash must contain exactly 32 bytes of hexadecimal data") ;;
  hash_pairs value.

Definition normalize_rpc_hash (value field : bytes) : result bytes stop :=
  on_error (fun error => mkDeploymentError RpcInvalidResponse
      (field ++ bstr " is not a 32-byte hexadecimal hash: " ++ de_message error))
    (normalize_hash value).

(** ** Named networks *)

Inductive NetworkKind := MiniJam | Jam.
#[global] Instance network_kind_eq_dec : EqDecision NetworkKind.
Proof. solve_decision. Defined.

Definition kind_parse (value : bytes) : result NetworkKind stop :=
  if bool_decide (value = bstr "minijam") then Ok MiniJam
  else if bool_decide (value = bstr "jam") then Ok Jam
  else Err (fails UnsupportedNetworkKind (bstr "unsupported deployment backend '" ++ value ++ bstr "'; supported backends: minijam")).

(** [url::Url]. *)
Class Urls := {
  url : Type;
  url_parse : bytes -> result url bytes;
  url_scheme : url -> bytes;
  url_host : url -> option bytes;
  url_set_username : bytes -> url -> url;
  url_set_password : option bytes -> url -> url;
  url_set_query : option bytes -> url -> url;
  url_set_fragment : option bytes -> url -> url;
  url_text : url -> bytes
}.

Module Network.
Section Ops.
Context `{Urls}.

Record config := mkConfig {
  nc_kind : bytes;
  nc_deployment_rpc : option bytes;
  nc_node_rpc : option bytes;
  nc_backend_rpc : option bytes;
  nc_genesis_hash : option bytes
}.

(** [BTreeMap<String, NetworkConfig>], by name. *)
Notation table := (list (bytes * config)).

Record overrides := mkOverrides {
  o_network : option bytes;
  o_kind : option bytes;
  o_deployment_rpc : option bytes;
  o_node_rpc : option bytes;
  o_backend_rpc : option bytes
}.

Record resolved := mkResolved {
  rn_name : option bytes;
  rn_kind : NetworkKind;
  rn_deployment_rpc : bytes;
  rn_node_rpc : option bytes;
  rn_backend_rpc : option bytes;
  rn_genesis_hash : option bytes;
  rn_genesis_pinned : bool
}.

Definition validate_http_url (value field : bytes) : result unit stop :=
  match url_parse value with
  | Err error => Err (fails NetworkConfigInvalid (field ++ bstr " is not a valid URL: " ++ error))
  | Ok parsed =>
      bail_if negb (bool_decide (url_scheme parsed = bstr "http") || bool_decide (url_scheme parsed = bstr "https"))
              || negb (bool_decide (is_Some (url_host parsed)))
        with fails NetworkConfigInvalid (field ++ bstr " must use an http or https URL with a host") ;;
      Ok tt
  end.

(** An optional address. *)
Definition validate_optional_url (value : option bytes) (field : bytes) : result unit stop :=
  match value with Some value => validate_http_url value field | None => Ok tt end.

Definition redact_url (value : bytes) : bytes :=
  match url_parse value with
  | Err _ => bstr "<invalid-url>"
  | Ok parsed => url_text (url_set_fragment None (url_set_query None (url_set_password None (url_set_username [] parsed))))
  end.

Definition validate_network_name (value : bytes) : result unit stop :=
  bail_if bool_decide (trim value = []) || existsb is_control (chars value)
    with fails NetworkConfigInvalid (bstr "network names must not be empty or contain control characters") ;;
  Ok tt.

(** One network of [validate_networks]. *)
Definition validate_network (entry : bytes * config) : result unit stop :=
  let '(name, c) := entry in
  let invalid message := fails NetworkConfigInvalid (bstr "network '" ++ name ++ message) in
  let? _ := validate_network_name name in
  let? kind := on_error (fun error => mkDeploymentError NetworkConfigInvalid (bstr "network '" ++ name ++ bstr "': " ++ display error))
                 (kind_parse (nc_kind c)) in
  match kind with
  | MiniJam =>
      let? deployment_rpc := ok_or (nc_deployment_rpc c) (invalid (bstr "' with kind 'minijam' requires deployment_rpc")) in
      let? _ := validate_http_url deployment_rpc (bstr "deployment_rpc") in
      let? _ := validate_optional_url (nc_node_rpc c) (bstr "node_rpc") in
      let? _ := validate_optional_url (nc_backend_rpc c) (bstr "backend_rpc") in
      match nc_genesis_hash c with
      | None => Ok tt
      | Some genesis_hash =>
          let? _ := on_error (fun error => mkDeploymentError NetworkConfigInvalid
                        (bstr "network '" ++ name ++ bstr "' genesis_hash: " ++ display error)) (normalize_hash genesis_hash) in
          bail_if negb (bool_decide (is_Some (nc_node_rpc c))) with invalid (bstr "' pins genesis_hash but has no node_rpc") ;;
          Ok tt
      end
  | Jam =>
      let? _ := validate_optional_url (nc_deployment_rpc c) (bstr "deployment_rpc") in
      validate_optional_url (nc_node_rpc c) (bstr "node_rpc")
  end.

(** [networks.cloned().unwrap_or_default()] is the table; [deployment] is
    [DeploymentConfig::default_network]. *)
Definition validate_networks (networks : table) (deployment : option bytes) : result unit stop :=
  let? _ := rfor validate_network networks in
  match deployment with
  | Some default_network =>
      bail_if negb (bool_decide (is_Some (assoc networks default_network)))
        with fails NetworkConfigInvalid (bstr "deployment.default_network references unknown network '" ++ default_network ++ bstr "'") ;;
      Ok tt
  | None => Ok tt
  end.

(** [overrides.x.or(environment.x)] for every field. *)
Definition or_else {A} (a b : option A) : option A := match a with Some _ => a | None => b end.
Definition with_environment (o e : overrides) : overrides :=
  mkOverrides (or_else (o_network o) (o_network e)) (or_else (o_kind o) (o_kind e))
    (or_else (o_deployment_rpc o) (o_deployment_rpc e)) (or_else (o_node_rpc o) (o_node_rpc e))
    (or_else (o_backend_rpc o) (o_backend_rpc e)).

(** The environment variables that are text. *)
Definition environment (var : bytes -> option bytes) : overrides :=
  mkOverrides (var (bstr "JAMSCRIPT_NETWORK")) (var (bstr "JAMSCRIPT_NETWORK_KIND"))
    (or_else (var (bstr "JAMSCRIPT_DEPLOYMENT_RPC")) (var (bstr "JAMSCRIPT_FORMAL_RPC")))
    (var (bstr "JAMSCRIPT_NODE_RPC")) (var (bstr "JAMSCRIPT_BACKEND_RPC")).

Definition selected_name (deployment default_profile : option bytes) (o : overrides) : option bytes :=
  or_else (o_network o) (or_else deployment default_profile).

Definition no_network (networks : table) : stop :=
  let configured := join (bstr "  ") (map fst networks) in
  let suffix := if bool_decide (configured = []) then [] else [x0a] ++ bstr "Configured networks:" ++ [x0a] ++ bstr "  " ++ configured in
  fails NetworkNotFound (bstr "No deployment network selected." ++ suffix ++ [x0a; x0a] ++ bstr "Use: jams deploy --network <name>").

(** The genesis hash of the configuration, in its normal form. *)
Definition pinned_hash (base : option config) : result (option bytes) stop :=
  match base ≫= nc_genesis_hash with
  | None => Ok None
  | Some text => let? hash := normalize_hash text in Ok (Some (hash_hex hash))
  end.

Definition resolve_network_with_environment (networks : table) (deployment : option bytes) (o e : overrides)
    (default_profile : option bytes) : result resolved stop :=
  let o := with_environment o e in
  let? '(name, base) := match selected_name deployment default_profile o with
                        | Some name =>
                            let? base := ok_or (assoc networks name)
                              (fails NetworkNotFound (bstr "network '" ++ name ++ bstr "' is not configured")) in
                            Ok (Some name, Some base)
                        | None => Ok (None, None)
                        end in
  let? _ := validate_networks networks deployment in
  let? raw_kind := ok_or (or_else (o_kind o) (nc_kind <$> base)) (no_network networks) in
  let? kind := kind_parse raw_kind in
  let deployment_rpc := or_else (o_deployment_rpc o) (base ≫= nc_deployment_rpc) in
  let node_rpc := or_else (o_node_rpc o) (base ≫= nc_node_rpc) in
  let backend_rpc := or_else (o_backend_rpc o) (base ≫= nc_backend_rpc) in
  let? genesis_hash := pinned_hash base in
  match kind with
  | MiniJam =>
      let? deployment_rpc := ok_or deployment_rpc (fails NetworkConfigInvalid (bstr "MiniJAM deployment requires deployment_rpc")) in
      let? _ := validate_http_url deployment_rpc (bstr "deployment_rpc") in
      let? _ := validate_optional_url node_rpc (bstr "node_rpc") in
      let? _ := validate_optional_url backend_rpc (bstr "backend_rpc") in
      bail_if bool_decide (is_Some genesis_hash) && negb (bool_decide (is_Some node_rpc))
        with fails NetworkConfigInvalid (bstr "genesis_hash verification requires node_rpc") ;;
      Ok (mkResolved name kind deployment_rpc node_rpc backend_rpc genesis_hash (bool_decide (is_Some (base ≫= nc_genesis_hash))))
  | Jam => Err (fails UnsupportedNetworkKind
                  (bstr "JAM deployment is not supported in v0.1; JamScript currently supports: minijam"))
  end.

Definition resolve_network_with_default_profile (var : bytes -> option bytes) (networks : table) (deployment : option bytes)
    (o : overrides) (default_profile : option bytes) : result resolved stop :=
  resolve_network_with_environment networks deployment o (environment var) default_profile.

Definition resolve_network (var : bytes -> option bytes) (networks : table) (deployment : option bytes) (o : overrides)
    : result resolved stop :=
  resolve_network_with_default_profile var networks deployment o None.
End Ops.
End Network.

(** ** The world of the library *)

Definition eff (W A : Type) : Type := W -> result A stop * W.

#[export] Instance eff_ret W : MRet (eff W) := fun A v w => (Ok v, w).
#[export] Instance eff_bind W : MBind (eff W) := fun A B k m w =>
  match m w with
  | (Ok v, w) => k v w
  | (Err e, w) => (Err e, w)
  end.
Definition pure_ {W A} (r : result A stop) : eff W A := fun w => (r, w).
Definition check {W} (c : bool) (e : stop) : eff W unit := fun w => (if c then Ok tt else Err e, w).
(** [let r = f(); match r { .. }] for errors. *)
Definition attempt {W A} (m : eff W A) : eff W (result A DeploymentError) := fun w =>
  match m w with
  | (Ok v, w) => (Ok (Ok v), w)
  | (Err (Fails error), w) => (Ok (Err error), w)
  | (Err Panics, w) => (Err Panics, w)
  end.

(** Files; an error is its text. *)
Class Files (W : Type) := {
  fs_canonicalize : bytes -> W -> result bytes bytes * W;
  fs_read : bytes -> W -> result bytes bytes * W;
  fs_create_dir_all : bytes -> W -> result unit bytes * W;
  fs_write : bytes -> bytes -> W -> result unit bytes * W;
  fs_rename : bytes -> bytes -> W -> result unit bytes * W
}.

(** [Path::join]. *)
Definition join_path (directory name : bytes) : bytes :=
  if bool_decide (head name = Some x2f) then name
  else match last directory with
       | None => name
       | Some c => if bool_decide (c = x2f) then directory ++ name else directory ++ [x2f] ++ name
       end.
#[global] Arguments join_path : simpl never.

(** A call of the file system with its error. *)
Definition file_op {W A} (f : W -> result A bytes * W) (error : bytes -> stop) : eff W A := fun w =>
  let '(r, w) := f w in (map_err error r, w).

(** SHA-256. *)
Class Sha256 := sha256 : bytes -> bytes.

(** ** The checks of a built service *)

(** [checksums.json], with [files] by name. *)
Record Checksums := mkChecksums { ck_version : Z; ck_algorithm : bytes; ck_files : list (bytes * bytes) }.

(** [serde_json] on texts: a value, or a struct derived from it. *)
Class JsonTexts `{Json} := {
  json_parse : bytes -> result value bytes;
  json_print : value -> bytes;
  parse_checksums : bytes -> result Checksums bytes
}.

Module Artifact.
Section Ops.
Context `{Blake2} `{Json} `{!JsonTexts} `{Sha256} {W : Type} `{!Files W}.

Record t := mk {
  sa_directory : bytes;
  sa_blob_path : bytes;
  sa_pvm_path : option bytes;
  sa_blob : bytes;
  sa_pvm : option bytes;
  sa_code_hash : bytes;
  sa_build_id : bytes;
  sa_service_key : option bytes;
  sa_min_item_gas : Z;
  sa_min_memo_gas : Z
}.

Definition hex_bytes (b : bytes) : bytes := concat (map hex_byte b).

Definition value_string (v : value) (name : bytes) : result bytes stop :=
  ok_or (v_get v name ≫= v_as_str) (fails ArtifactInvalid (bstr "build.json is missing string field '" ++ name ++ bstr "'")).

(** The first of several names with a number. *)
Fixpoint find_u64 (v : value) (names : list bytes) : option Z :=
  match names with
  | [] => None
  | name :: names' => match v_get v name ≫= v_as_u64 with Some n => Some n | None => find_u64 v names' end
  end.
Definition value_u64 (v : value) (names : list bytes) : result Z stop :=
  ok_or (find_u64 v names)
    (fails ArtifactInvalid (bstr "build.json is missing integer field '" ++ default [] (head names) ++ bstr "'")).

(** [relative.is_absolute()], a backslash, or a [..] among the components. *)
Definition unsafe_name (name : bytes) : bool :=
  bool_decide (name = []) || bool_decide (head name = Some x2f) || contains [x5c] name
  || existsb (fun component => bool_decide (component = [x2e; x2e])) (split_on [x2f] name).

Definition verify_file (directory : bytes) (entry : bytes * bytes) : eff W unit :=
  let '(name, expected) := entry in
  check (negb (unsafe_name name)) (fails ArtifactInvalid (bstr "unsafe checksum path '" ++ name ++ bstr "'"));;
  contents ← file_op (fs_read (join_path directory name))
    (fun error => fails ArtifactInvalid (bstr "checksum file '" ++ name ++ bstr "' is missing: " ++ error));
  expected ← pure_ (normalize_hash expected);
  check (bool_decide (blake2_256 contents = expected))
    (fails ArtifactCodeHashMismatch (bstr "checksum mismatch for artifact file '" ++ name ++ bstr "'")).

Fixpoint verify_files (directory : bytes) (files : list (bytes * bytes)) : eff W unit :=
  match files with
  | [] => mret tt
  | entry :: files' => verify_file directory entry;; verify_files directory files'
  end.

Definition verify_checksums (directory path : bytes) : eff W unit :=
  text ← file_op (fs_read path) (fun error => fails DeploymentArtifactNotFound (bstr "missing checksums.json: " ++ error));
  checksums ← pure_ (map_err (fun error => fails ArtifactInvalid (bstr "checksums.json is not valid: " ++ error)) (parse_checksums text));
  check ((ck_version checksums =? 1) && bool_decide (ck_algorithm checksums = bstr "blake2b-256")
         && negb (bool_decide (ck_files checksums = [])))
    (fails ArtifactInvalid (bstr "unsupported checksums.json format"));;
  check (bool_decide (is_Some (assoc (ck_files checksums) (bstr "service.blob"))))
    (fails ArtifactInvalid (bstr "checksums.json does not cover service.blob"));;
  check (bool_decide (is_Some (assoc (ck_files checksums) (bstr "build.json"))))
    (fails ArtifactInvalid (bstr "checksums.json does not cover build.json"));;
  verify_files directory (ck_files checksums).

(** What [build.json] says: the key of the service and the gas it needs at least. *)
Definition parse_metadata (blob build_bytes : bytes) : result (bytes * Z * Z * option bytes) stop :=
  let? metadata := map_err (fun error => fails ArtifactInvalid (bstr "build.json is not valid JSON: " ++ error)) (json_parse build_bytes) in
  let? text := value_string metadata (bstr "code_hash") in
  let? code_hash := normalize_hash text in
  let actual_code_hash := blake2_256 blob in
  bail_if negb (bool_decide (code_hash = actual_code_hash))
    with fails ArtifactCodeHashMismatch (bstr "build.json code_hash " ++ hash_hex code_hash
           ++ bstr " does not match service.blob " ++ hash_hex actual_code_hash) ;;
  let? min_item_gas := value_u64 metadata [bstr "min_item_gas"; bstr "minItemGas"] in
  let? min_memo_gas := value_u64 metadata [bstr "min_memo_gas"; bstr "minMemoGas"] in
  bail_if (min_item_gas =? 0) || (min_memo_gas =? 0)
    with fails ArtifactInvalid (bstr "build.json deployment gas values must be greater than zero") ;;
  match v_get metadata (bstr "serviceKey") ≫= v_as_str with
  | None => Ok (code_hash, min_item_gas, min_memo_gas, None)
  | Some text => let? key := normalize_hash text in Ok (code_hash, min_item_gas, min_memo_gas, Some key)
  end.

(** A file that may be missing. *)
Definition read_optional (path : bytes) : eff W (option bytes) := fun w =>
  let '(r, w) := fs_read path w in (Ok (match r with Ok b => Some b | Err _ => None end), w).

Definition load_service_artifact (directory : bytes) : eff W t :=
  directory ← file_op (fs_canonicalize directory)
    (fun error => fails DeploymentArtifactNotFound (bstr "cannot locate artifact directory " ++ lossy directory ++ bstr ": " ++ error));
  let blob_path := join_path directory (bstr "service.blob") in
  let pvm_path := join_path directory (bstr "service.pvm") in
  blob ← file_op (fs_read blob_path) (fun error => fails DeploymentArtifactNotFound (bstr "missing service.blob: " ++ error));
  pvm ← read_optional pvm_path;
  build_bytes ← file_op (fs_read (join_path directory (bstr "build.json")))
    (fun error => fails DeploymentArtifactNotFound (bstr "missing build.json: " ++ error));
  verify_checksums directory (join_path directory (bstr "checksums.json"));;
  '(code_hash, min_item_gas, min_memo_gas, service_key) ← pure_ (parse_metadata blob build_bytes);
  mret (mk directory blob_path (if bool_decide (is_Some pvm) then Some pvm_path else None) blob pvm code_hash
          (hex_bytes (sha256 build_bytes)) service_key min_item_gas min_memo_gas).
End Ops.
End Artifact.

(** ** JSON-RPC over curl *)

(** How a run of [curl] with these arguments and this input went. *)
Inductive CurlOutcome :=
| CurlNotRun (error : bytes)
| CurlNotSent (error : bytes)
| CurlLost (error : bytes)
| CurlExited (code : option Z) (stdout stderr : bytes).
Class Curl (W : Type) := run_curl : list bytes -> bytes -> W -> CurlOutcome * W.

Module CurlTransport.
Section Ops.
Context `{Urls} `{Json} `{!JsonTexts} {W : Type} `{!Curl W}.

(** [timeout.as_secs_f64().max(1.0).to_string()], for a time in milliseconds. *)
Definition seconds (timeout : Z) : bytes :=
  let ms := Z.max timeout 1000 in
  let thousandths := ms mod 1000 in
  decimal (ms / 1000)
  ++ (if thousandths =? 0 then []
      else if thousandths mod 100 =? 0 then [x2e] ++ decimal (thousandths / 100)
      else if thousandths mod 10 =? 0 then [x2e] ++ drop 1 (decimal (100 + thousandths / 10))
      else [x2e] ++ drop 1 (decimal (1000 + thousandths))).

Definition MARKER : bytes := [x0a] ++ bstr "JAMSCRIPT_HTTP_STATUS:".

Definition curl_arguments (seconds endpoint : bytes) : list bytes :=
  [bstr "--silent"; bstr "--show-error"; bstr "--location"; bstr "--connect-timeout"; seconds; bstr "--max-time"; seconds;
   bstr "--header"; bstr "content-type: application/json"; bstr "--data-binary"; bstr "@-"; bstr "--write-out";
   MARKER ++ bstr "%{http_code}"; endpoint].

Definition RESPONSE_PREVIEW_LIMIT : nat := 512.

Definition response_preview (body : bytes) : bytes :=
  if bool_decide (body = []) then bstr "<empty>"
  else
    let preview := replace [x0d] (bstr "\r") (replace [x0a] (bstr "\n") (lossy (take RESPONSE_PREVIEW_LIMIT body))) in
    if (RESPONSE_PREVIEW_LIMIT <? length body)%nat then preview ++ [xe2; x80; xa6] else preview.

(** What is told of a response: its length and its beginning. *)
Definition body_text (body : bytes) : bytes :=
  bstr "; response_body_bytes=" ++ decimal (blen body) ++ bstr "; response_body_preview=" ++ response_preview body.
Definition stderr_text (endpoint stderr : bytes) : bytes :=
  bstr "; stderr=" ++ replace endpoint (Network.redact_url endpoint) (trim (lossy stderr)).

Definition mutating_http_error_code (status : Z) : ErrorCode :=
  if (400 <=? status) && (status <? 500) && negb ((status =? 408) || (status =? 425) || (status =? 429))
  then DeploymentRejected else DeploymentOutcomeUnknown.

(** A connection that [curl] could not make. *)
Definition connection_failure (status : option Z) (stderr : bytes) : bool :=
  let stderr := lossy stderr in
  (default 0 status =? 0)
  && (contains (bstr "Could not resolve") stderr || contains (bstr "Failed to connect") stderr
      || contains (bstr "Connection refused") stderr || contains (bstr "Could not connect") stderr).

Definition curl_transport_error (method endpoint : bytes) (exit_code status : option Z) (body stderr : bytes) (mutating : bool)
    : DeploymentError :=
  let code := if mutating && negb (connection_failure status stderr) then DeploymentOutcomeUnknown else NetworkUnreachable in
  let number default_ o := match o with Some n => (if n <? 0 then bstr "-" ++ decimal (- n) else decimal n) | None => default_ end in
  mkDeploymentError code
    (method ++ bstr ": curl_exit_code=" ++ number (bstr "signal/unknown") exit_code
     ++ bstr "; http_status=" ++ number (bstr "unknown") status ++ body_text body ++ stderr_text endpoint stderr).

Definition format_http_error (method endpoint : bytes) (status : Z) (body stderr : bytes) : bytes :=
  method ++ bstr ": HTTP " ++ decimal status ++ bstr " from " ++ Network.redact_url endpoint ++ body_text body ++ stderr_text endpoint stderr.

(** The code of an error that leaves open what a mutating call did. *)
Definition unless_mutating (mutating : bool) (code : ErrorCode) : ErrorCode :=
  if mutating then DeploymentOutcomeUnknown else code.

Definition parse_json_rpc_response (v : value) (method : bytes) (mutating : bool) : result value DeploymentError :=
  bail_if negb (bool_decide (v_get v (bstr "jsonrpc") ≫= v_as_str = Some (bstr "2.0")))
    with mkDeploymentError (unless_mutating mutating RpcInvalidResponse) (method ++ bstr " returned a non-JSON-RPC 2.0 response") ;;
  match v_get v (bstr "error") with
  | Some error =>
      let code := v_get error (bstr "code") ≫= v_as_i64 in
      let message := default (bstr "JSON-RPC error") (v_get error (bstr "message") ≫= v_as_str) in
      Err (mkDeploymentError
             (if bool_decide (code = Some (-32601)) then RpcMethodNotFound
              else if mutating then DeploymentRejected else RpcInvalidResponse) message)
  | None =>
      ok_or (v_get v (bstr "result"))
        (mkDeploymentError (unless_mutating mutating RpcInvalidResponse) (method ++ bstr " response has neither result nor error"))
  end.

(** The body and the status in the output of [curl]. *)
Definition split_output (stdout : bytes) : option (bytes * Z) :=
  '(body, status) ← rsplit_once MARKER (lossy stdout);
  Some (body, default 0 (parse_unsigned U16_MAX (trim status))).

(** The answer, once [curl] has ended. *)
Definition read_output (method endpoint : bytes) (mutating : bool) (code : option Z) (stdout stderr : bytes) : result value DeploymentError :=
  match split_output stdout with
  | None => Err (curl_transport_error method endpoint code None (lossy stdout) stderr mutating)
  | Some (body, status) =>
      if negb (bool_decide (code = Some 0)) || (status =? 0)
      then Err (curl_transport_error method endpoint code (Some status) body stderr mutating)
      else if 400 <=? status
      then Err (mkDeploymentError (if mutating then mutating_http_error_code status else NetworkUnreachable)
                  (format_http_error method endpoint status body stderr))
      else
        let? parsed := map_err (fun error => mkDeploymentError (unless_mutating mutating RpcInvalidResponse)
              (bstr "invalid JSON-RPC response from " ++ Network.redact_url endpoint ++ bstr ": " ++ error ++ body_text body))
            (json_parse (trim body)) in
        parse_json_rpc_response parsed method mutating
  end.

(** What is told when the process failed. *)
Definition process_error (mutating : bool) (message : bytes) : DeploymentError :=
  mkDeploymentError (unless_mutating mutating NetworkUnreachable) message.

Definition request (method : bytes) (params : value) : value :=
  v_object [(bstr "jsonrpc", v_string (bstr "2.0")); (bstr "id", v_num 1); (bstr "method", v_string method); (bstr "params", params)].

#[export] Instance curl_transport : JsonRpcTransport W := fun endpoint method params timeout mutating w =>
  let '(outcome, w) := run_curl (curl_arguments (seconds timeout) endpoint) (json_print (request method params)) w in
  (match outcome with
   | CurlNotRun error => Err (process_error mutating (bstr "cannot run curl for " ++ Network.redact_url endpoint ++ bstr ": " ++ error))
   | CurlNotSent error =>
       Err (process_error mutating (bstr "cannot send JSON-RPC request to " ++ Network.redact_url endpoint ++ bstr ": " ++ error))
   | CurlLost error => Err (process_error mutating (bstr "cannot finish curl for " ++ Network.redact_url endpoint ++ bstr ": " ++ error))
   | CurlExited code stdout stderr => read_output method endpoint mutating code stdout stderr
   end, w).
End Ops.
End CurlTransport.

(** ** Deploying *)

Record FinalizedBlock := mkFinalizedBlock { fb_block_hash : bytes; fb_block_number : Z; fb_state_root : option bytes; fb_slot : option Z }.

(** [MiniJamCreateResponse] and its context. *)
Record CreateResponse := mkCreateResponse {
  cr_operation_id : bytes;
  cr_service_id : Z;
  cr_code_hash : bytes;
  cr_finalized : bool;
  cr_context : FinalizedBlock
}.

Inductive IdentityVerification := Verified | Unpinned.
Record NetworkIdentity := mkIdentity {
  ni_name : option bytes;
  ni_kind : NetworkKind;
  ni_genesis_hash : option bytes;
  ni_network_domain : option bytes;
  ni_verification : IdentityVerification
}.
Record ArtifactIdentity := mkArtifactIdentity { ai_code_hash : bytes; ai_build_id : bytes; ai_service_key : option bytes }.
Record DeploymentResult := mkDeploymentResult {
  dr_network : NetworkIdentity;
  dr_service_id : Z;
  dr_code_hash : bytes;
  dr_finalized : bool;
  dr_finalized_context : option FinalizedBlock;
  dr_operation_id : option bytes;
  dr_artifact : ArtifactIdentity
}.

(** [DeploymentRecord]; its format is 1 and its protocol minijam-create-service-v1. *)
Record DeploymentRecord := mkDeploymentRecord {
  rec_format : Z;
  rec_network : NetworkIdentity;
  rec_artifact : ArtifactIdentity;
  rec_service : Z;
  rec_finalized : FinalizedBlock;
  rec_protocol : bytes;
  rec_operation_id : option bytes
}.

(** [serde_json] for these structs. *)
Class DeploymentTexts `{Json} := {
  parse_create_response : value -> result CreateResponse bytes;
  record_text : DeploymentRecord -> result bytes bytes
}.

Module Deploy.
Section Ops.
Context `{Urls} `{Blake2} `{Json} `{!DeploymentTexts} `{PayloadBase64} {W : Type} `{!JsonRpcTransport W}.
Notation artifact := Artifact.t.

(** A call of the transport. *)
Definition call (endpoint method : bytes) (params : value) (timeout : Z) (mutating : bool) : eff W value := fun w =>
  let '(r, w) := rpc_call endpoint method params timeout mutating w in (map_err Fails r, w).

(** *** The creation of a service *)

Definition create_params (a : artifact) : value :=
  v_object [(bstr "codeHash", v_hash (Artifact.sa_code_hash a)); (bstr "blobBase64", v_string (b64_encode (Artifact.sa_blob a)));
            (bstr "minItemGas", v_num (Artifact.sa_min_item_gas a)); (bstr "minMemoGas", v_num (Artifact.sa_min_memo_gas a))].

Definition optional_rpc_hash (value : option bytes) (field : bytes) : result (option bytes) stop :=
  match value with
  | None => Ok None
  | Some text => let? hash := normalize_rpc_hash text field in Ok (Some (hash_hex hash))
  end.

(** The checks of the answer to the creation. *)
Definition check_response (a : artifact) (network : Network.resolved) (response : CreateResponse) : result DeploymentResult stop :=
  let? returned_hash := normalize_rpc_hash (cr_code_hash response) (bstr "codeHash") in
  let? block_hash := normalize_rpc_hash (fb_block_hash (cr_context response)) (bstr "context.blockHash") in
  let? state_root := optional_rpc_hash (fb_state_root (cr_context response)) (bstr "context.stateRoot") in
  bail_if negb (cr_finalized response)
    with fails DeploymentNotFinalized (bstr "MiniJAM create-Service response was not finalized") ;;
  bail_if negb (bool_decide (returned_hash = Artifact.sa_code_hash a))
    with fails DeploymentCodeHashMismatch (bstr "MiniJAM returned codeHash " ++ hash_hex returned_hash
           ++ bstr " but local artifact is " ++ hash_hex (Artifact.sa_code_hash a)) ;;
  bail_if bool_decide (trim (cr_operation_id response) = [])
    with fails RpcInvalidResponse (bstr "MiniJAM deployment response has an empty operationId") ;;
  Ok (mkDeploymentResult
        (mkIdentity (Network.rn_name network) (Network.rn_kind network) (Network.rn_genesis_hash network) (Network.rn_genesis_hash network)
           (if Network.rn_genesis_pinned network then Verified else Unpinned))
        (cr_service_id response) (hash_hex returned_hash) true
        (Some (mkFinalizedBlock (hash_hex block_hash) (fb_block_number (cr_context response)) state_root (fb_slot (cr_context response))))
        (Some (cr_operation_id response))
        (mkArtifactIdentity (hash_hex (Artifact.sa_code_hash a)) (Artifact.sa_build_id a) (hash_hex <$> Artifact.sa_service_key a))).

(** [MiniJamDeploymentBackend::create]. *)
Definition create (a : artifact) (network : Network.resolved) (timeout : Z) : eff W DeploymentResult :=
  v ← call (Network.rn_deployment_rpc network) (bstr "minijam_createServiceV1") (create_params a) timeout true;
  response ← pure_ (map_err (fun error => fails RpcInvalidResponse (bstr "invalid minijam_createServiceV1 result: " ++ error))
                      (parse_create_response v));
  pure_ (check_response a network response).

Definition read_genesis (endpoint : bytes) (timeout : Z) : eff W bytes :=
  v ← call endpoint (bstr "chain_getBlockHash") (v_array [v_num 0]) timeout false;
  text ← pure_ (ok_or (v_as_str v) (fails RpcInvalidResponse (bstr "chain_getBlockHash returned a non-string result")));
  hash ← pure_ (normalize_rpc_hash text (bstr "chain_getBlockHash"));
  mret (hash_hex hash).

Definition mismatch (expected : bytes) (observed : option bytes) : stop :=
  let lf := [x0a] in
  fails NetworkIdentityMismatch
    (bstr "NETWORK_IDENTITY_MISMATCH" ++ lf ++ lf ++ bstr "Configured genesis:" ++ lf ++ bstr "  " ++ expected ++ lf ++ lf
     ++ bstr "Connected genesis:" ++ lf ++ bstr "  " ++ default (bstr "<unavailable>") observed ++ lf ++ lf
     ++ bstr "No deployment was submitted.").

Definition set_genesis (genesis_hash : option bytes) (n : Network.resolved) : Network.resolved :=
  Network.mkResolved (Network.rn_name n) (Network.rn_kind n) (Network.rn_deployment_rpc n) (Network.rn_node_rpc n)
    (Network.rn_backend_rpc n) genesis_hash (Network.rn_genesis_pinned n).

(** [DeploymentEngine::deploy]. *)
Definition deploy (network : Network.resolved) (a : artifact) (timeout : Z) : eff W DeploymentResult :=
  check (bool_decide (Network.rn_kind network = MiniJam)) (fails UnsupportedNetworkKind (bstr "JAM deployment is not supported in v0.1"));;
  observed_genesis ← match Network.rn_node_rpc network with
                     | Some node_rpc => genesis ← read_genesis node_rpc timeout; mret (Some genesis)
                     | None => mret None
                     end;
  match Network.rn_genesis_hash network with
  | Some expected => check (bool_decide (Some expected = observed_genesis)) (mismatch expected observed_genesis)
  | None => mret tt
  end;;
  create a (set_genesis (Network.or_else observed_genesis (Network.rn_genesis_hash network)) network) timeout.

(** *** Registration with a backend *)

Definition registration (service_id : Z) (a : artifact) (digest network_domain : option bytes) : value :=
  let v := v_object ([(bstr "serviceId", v_num service_id); (bstr "expectedCodeHash", v_hash (Artifact.sa_code_hash a))]
                     ++ match digest with Some digest => [(bstr "artifactDigest", v_hash digest)] | None => [] end) in
  match network_domain with
  | Some domain => v_set v (bstr "networkDomain") (v_string domain)
  | None => v
  end.

Definition registration_failed (message : bytes) : DeploymentError := mkDeploymentError BackendRegistrationFailed message.

(** The artifact is uploaded, and the service is registered with its digest. *)
Definition upload_and_register (endpoint : bytes) (service_id : Z) (a : artifact) (pvm : bytes) (timeout : Z) (network_domain : option bytes)
    : eff W value :=
  let digest := blake2_256 pvm in
  uploaded ← attempt (call endpoint (bstr "jamscript_putArtifactV1")
    (v_object [(bstr "format", v_string (bstr "jamscript-pvm-v1")); (bstr "digest", v_hash digest); (bstr "bytesBase64", v_string (b64_encode pvm))])
    timeout true);
  pure_ (map_err (fun error => Fails (registration_failed
           (bstr "backend artifact upload failed after registration fallback: " ++ de_message error))) uploaded);;
  registered ← attempt (call endpoint (bstr "jamscript_registerServiceV1") (registration service_id a (Some digest) network_domain) timeout true);
  pure_ (map_err (fun error => Fails (registration_failed
           (bstr "backend registration failed after artifact upload: " ++ de_message error))) registered).

Definition register_backend_service_with_network_domain (endpoint : bytes) (service_id : Z) (a : artifact) (timeout : Z)
    (network_domain : option bytes) : eff W value :=
  first ← attempt (call endpoint (bstr "jamscript_registerServiceV1") (registration service_id a None network_domain) timeout true);
  result ← match first, Artifact.sa_pvm a with
           | Ok result, _ => mret result
           | Err first_error, None =>
               pure_ (Err (Fails (registration_failed (bstr "on-chain Service " ++ decimal service_id
                 ++ bstr " is deployed, but backend registration failed: " ++ de_message first_error))))
           | Err _, Some pvm => upload_and_register endpoint service_id a pvm timeout network_domain
           end;
  returned_id ← pure_ (ok_or (v_get result (bstr "serviceId") ≫= as_u32)
                        (Fails (registration_failed (bstr "backend registration response omitted serviceId"))));
  check (returned_id =? service_id) (Fails (registration_failed (bstr "backend registered unexpected serviceId " ++ decimal returned_id
     ++ bstr "; expected " ++ decimal service_id)));;
  mret result.

Definition register_backend_service (endpoint : bytes) (service_id : Z) (a : artifact) (timeout : Z) : eff W value :=
  register_backend_service_with_network_domain endpoint service_id a timeout None.
End Ops.

(** *** The record of a deployment *)

Section Records.
Context `{Json} `{!DeploymentTexts} {W : Type} `{!Files W}.

Definition safe_char (char : bytes) : bytes :=
  if is_ascii_alphanumeric char || bool_decide (char ∈ [[x2d]; [x5f]; [x2e]]) then char else [x2d].
Definition safe_file_component (value : bytes) : bytes :=
  let sanitized := concat (map safe_char (chars value)) in
  if bool_decide (sanitized = []) then bstr "network" else sanitized.

Definition record_of (result : DeploymentResult) (finalized : FinalizedBlock) : DeploymentRecord :=
  mkDeploymentRecord 1 (dr_network result) (dr_artifact result) (dr_service_id result) finalized
    (bstr "minijam-create-service-v1") (dr_operation_id result).

Definition record_name (result : DeploymentResult) (timestamp : Z) : bytes :=
  safe_file_component (default (bstr "custom") (ni_name (dr_network result))) ++ bstr "-" ++ decimal (dr_service_id result)
  ++ bstr "-" ++ decimal timestamp ++ bstr ".json".

(** [write_deployment_record], with the time and the number of the process. *)
Definition write_deployment_record (project_root : bytes) (result : DeploymentResult) (timestamp process_id : Z) : eff W bytes :=
  let failed message := fails DeploymentRecordWriteFailed message in
  finalized ← pure_ (ok_or (dr_finalized_context result)
                (fails DeploymentNotFinalized (bstr "cannot record a deployment without finalized context")));
  let directory := join_path project_root (bstr ".jamscript/deployments") in
  file_op (fs_create_dir_all directory) (fun error => failed (bstr "cannot create deployment record directory: " ++ error));;
  let path := join_path directory (record_name result timestamp) in
  let temporary := join_path directory (bstr "." ++ decimal process_id ++ bstr ".tmp") in
  text ← pure_ (map_err (fun error => failed (bstr "cannot encode deployment record: " ++ error)) (record_text (record_of result finalized)));
  let unwritten error := failed (bstr "cannot write deployment record " ++ lossy path ++ bstr ": " ++ error) in
  file_op (fs_write temporary text) unwritten;;
  file_op (fs_rename temporary path) unwritten;;
  mret path.
End Records.
End Deploy.
