(* ===== verification/DeploymentCorrect.v ===== *)
(** * Deployment: what its outcomes mean

    The order of the calls a deployment makes, what is known of a service that
    was deployed and of the artifact it was built from, which errors of the
    transport are a refusal, and what registration with a backend leaves there. *)

From S2P Require Import Prelude Ordering Reader Wire Fields ServiceKeys StateView StateDiff Records Witness RefineInput Dependencies RefineOutput Ownership Crypto Actions ActionsV2 GuestMemory State ModelTrie Overlays Provider BackendBase Registry Envelope Database BackendState Selection Codec Text JsonValue Coordinator CoordinatorInvariant Engine EngineCorrect Dispatcher DispatcherCorrect Gateway Deployment.

(** ** The monad *)

Lemma eff_bind_inv {W A B} (m : eff W A) (k : A -> eff W B) w r w' :
  (m ≫= k) w = (r, w') ->
  (exists a w1, m w = (Ok a, w1) /\ k a w1 = (r, w')) \/ (exists e, m w = (Err e, w') /\ r = Err e).
Proof. unfold mbind, eff_bind. destruct (m w) as [[a|e] w1]; [intros Hk; left; eauto|]. intros [= <- <-]. right. eauto. Qed.

Lemma eff_bind_Ok {W A B} (m : eff W A) (k : A -> eff W B) w b w' :
  (m ≫= k) w = (Ok b, w') -> exists a w1, m w = (Ok a, w1) /\ k a w1 = (Ok b, w').
Proof. intros [?|(? & _ & ?)]%eff_bind_inv; [done|discriminate]. Qed.
Lemma pure_Ok {W A} (r : result A stop) (w : W) a w' : pure_ r w = (Ok a, w') -> r = Ok a /\ w' = w.
Proof. by intros [= -> <-]. Qed.
Lemma check_Ok {W} c e (w w' : W) : check c e w = (Ok tt, w') -> c = true /\ w' = w.
Proof. destruct c; by intros [= <-]. Qed.
Lemma file_Ok {W A} (f : W -> result A bytes * W) error w a w' : file_op f error w = (Ok a, w') -> f w = (Ok a, w').
Proof. unfold file_op. destruct (f w) as [[]]; by intros [= -> ->]. Qed.
Lemma on_error_Ok {A} f (r : result A stop) a : on_error f r = Ok a -> r = Ok a.
Proof. apply map_err_Ok. Qed.

(** Takes apart a computation that succeeded, one step at a time. *)
Ltac step H x Hx :=
  let w := fresh "w" in
  apply eff_bind_Ok in H as (x & w & Hx & H);
  first [ destruct x; apply check_Ok in Hx as [Hx ->] | apply pure_Ok in Hx as [Hx ->] | apply file_Ok in Hx | idtac ].

(** ** Hashes *)

Lemma hash_pairs_length v h : hash_pairs v = Ok h -> blen v = 64 -> blen h = 32.
Proof.
  enough (forall n v h, (length v <= n)%nat -> hash_pairs v = Ok h -> blen h = blen v / 2) as Hl.
  { intros Hh Hv. rewrite (Hl _ v h (Nat.le_refl _) Hh), Hv. done. }
  clear. induction n as [|n IH]; intros v h Hn Hh.
  - destruct v; [|simpl in Hn; lia]. by injection Hh as <-.
  - destruct v as [|a [|b v]]; [by injection Hh as <-..|]. simpl in Hh, Hn.
    destruct (match v with c :: _ => is_cont c | [] => false end); [done|]. apply rbind_Ok in Hh as (x & _ & Hh).
    apply rbind_Ok in Hh as (bs & Hbs & Hh). injection Hh as <-. apply IH in Hbs; [|lia]. rewrite !blen_cons, Hbs.
    replace (1 + (1 + blen v)) with (blen v + 1 * 2) by lia. rewrite Z.div_add by lia. lia.
Qed.
Lemma normalize_hash_ok text h : normalize_hash text = Ok h -> hash_ok h.
Proof.
  unfold normalize_hash. intros [Hl%negb_false_iff%Z.eqb_eq Hh]%bail_if_Ok. unfold hash_ok, array_ok. by eapply hash_pairs_length.
Qed.

(** The text of a hash is read back. *)
Lemma hex_digit_ascii n : 0 <= n < 16 -> is_cont (hex_digit n) = false /\ bool_decide (hex_digit n = x2b) = false /\ hex_value (hex_digit n) = Some n.
Proof.
  intros Hn. assert (Forall (fun n => is_cont (hex_digit n) = false /\ bool_decide (hex_digit n = x2b) = false /\ hex_value (hex_digit n) = Some n)
    (seqZ 0 16)) as Hall by (vm_compute; repeat constructor).
  rewrite Forall_forall in Hall. apply Hall, elem_of_seqZ. lia.
Qed.
Lemma byte_nibbles b : 0 <= b2z b / 16 < 16 /\ 0 <= b2z b mod 16 < 16.
Proof.
  pose proof (b2z_range b). split; [split; [apply Z.div_pos; lia|apply Z.div_lt_upper_bound; lia]|]. by apply Z.mod_pos_bound.
Qed.
Lemma hash_pairs_hex b : hash_pairs (concat (map hex_byte b)) = Ok b.
Proof.
  induction b as [|x b IH]; [done|]. cbn [map concat hex_byte app hash_pairs]. destruct (byte_nibbles x) as [Hh Hl].
  destruct (hex_digit_ascii _ Hh) as (_ & Hp & Hv), (hex_digit_ascii _ Hl) as (_ & _ & Hv').
  assert (match concat (map hex_byte b) with c :: _ => is_cont c | [] => false end = false) as ->.
  { destruct b as [|y b]; [done|]. simpl. by apply hex_digit_ascii, byte_nibbles. }
  unfold radix_pair. rewrite Hp, Hv, Hv'. cbn [mbind option_bind ok_or rbind]. rewrite IH. cbn [rbind].
  replace (z2b _) with x; [done|]. rewrite Z.add_comm, Z.mul_comm, Z.add_comm, (Z.mul_comm _ 16), <- Z.div_mod by lia. by rewrite z2b_b2z.
Qed.
Lemma normalize_hash_hex h : hash_ok h -> normalize_hash (hash_hex h) = Ok h.
Proof.
  intros Hh. unfold normalize_hash. rewrite strip_hex, blen_hex, Hh. simpl negb. by rewrite hash_pairs_hex.
Qed.

(** ** What a deployment does *)

Section Deploying.
Context `{Urls} `{Blake2} `{Json} `{!DeploymentTexts} `{PayloadBase64} {W : Type} `{!JsonRpcTransport W}.
Import Deploy.

(** The network was asked for its genesis, which is the configured one if there is one. *)
Definition identified (network : Network.resolved) (timeout : Z) (w w1 : W) (observed : option bytes) : Prop :=
  match Network.rn_node_rpc network with
  | None => w1 = w /\ observed = None
  | Some node_rpc => exists v text hash, rpc_call node_rpc (bstr "chain_getBlockHash") (v_array [v_num 0]) timeout false w = (Ok v, w1)
      /\ v_as_str v = Some text /\ normalize_hash text = Ok hash /\ observed = Some (hash_hex hash)
  end
  /\ match Network.rn_genesis_hash network with None => True | Some expected => observed = Some expected end.

(** The only call that changes anything. *)
Definition created (network : Network.resolved) (a : Artifact.t) (timeout : Z) (w1 : W) (answer : result value DeploymentError) (w' : W) : Prop :=
  rpc_call (Network.rn_deployment_rpc network) (bstr "minijam_createServiceV1") (create_params a) timeout true w1 = (answer, w').

(** What the chain answered, and the result says: the service is final, runs the
    code of the artifact, and is on the network that was asked. *)
Definition deployed (a : Artifact.t) (network : Network.resolved) (observed : option bytes) (v : value) (d : DeploymentResult) : Prop :=
  exists response, parse_create_response v = Ok response
    /\ cr_finalized response = true /\ normalize_hash (cr_code_hash response) = Ok (Artifact.sa_code_hash a)
    /\ dr_finalized d = true /\ dr_code_hash d = hash_hex (Artifact.sa_code_hash a) /\ dr_service_id d = cr_service_id response
    /\ dr_operation_id d = Some (cr_operation_id response) /\ trim (cr_operation_id response) <> []
    /\ ni_genesis_hash (dr_network d) = Network.or_else observed (Network.rn_genesis_hash network)
    /\ ai_code_hash (dr_artifact d) = dr_code_hash d.

Lemma check_response_Ok a network response d :
  check_response a network response = Ok d ->
  cr_finalized response = true /\ normalize_hash (cr_code_hash response) = Ok (Artifact.sa_code_hash a)
  /\ dr_finalized d = true /\ dr_code_hash d = hash_hex (Artifact.sa_code_hash a) /\ dr_service_id d = cr_service_id response
  /\ dr_operation_id d = Some (cr_operation_id response) /\ trim (cr_operation_id response) <> []
  /\ ni_genesis_hash (dr_network d) = Network.rn_genesis_hash network /\ ai_code_hash (dr_artifact d) = dr_code_hash d.
Proof.
  unfold check_response. intros (hash & Hhash%on_error_Ok & Hd)%rbind_Ok. apply rbind_Ok in Hd as (block & _ & Hd).
  apply rbind_Ok in Hd as (root & _ & Hd). apply bail_if_Ok in Hd as [Hf%negb_false_iff Hd].
  apply bail_if_Ok in Hd as [Hc%negb_false_iff%bool_decide_eq_true Hd]. subst hash. apply bail_if_Ok in Hd as [Ho%bool_decide_eq_false Hd].
  injection Hd as <-. by split_and!.
Qed.

(** A result of the check that is an error leaves the world as it is. *)
Lemma create_outcome network a timeout w r w' :
  create a network timeout w = (r, w') ->
  exists answer, created network a timeout w answer w'
    /\ match r with
       | Ok d => exists v, answer = Ok v /\ deployed a network (Network.rn_genesis_hash network) v d
       | Err _ => True
       end
    /\ forall error, answer = Err error -> r = Err (Fails error).
Proof.
  unfold create. intros [(v & w1 & Hc & Hr)|(e & Hc & ->)]%eff_bind_inv; unfold call in Hc; unfold created;
    destruct (rpc_call _ _ _ _ _ w) as [[v0|error] w0]; try discriminate Hc.
  2: { injection Hc as <- <-. eexists. split; [done|]. split; [done|]. by intros ? [= ->]. }
  injection Hc as -> ->. exists (Ok v). apply eff_bind_inv in Hr as [(response & w2 & Hp & Hr)|(e & Hp & ->)].
  - apply pure_Ok in Hp as [Hp%map_err_Ok ->]. injection Hr as Hr <-. split; [done|]. split; [|done].
    destruct r as [d|]; [|done]. exists v. split; [done|]. exists response. split; [done|].
    destruct (check_response_Ok _ _ _ _ Hr) as (? & ? & ? & ? & ? & ? & ? & -> & ?). split_and!; try done.
    by destruct (Network.rn_genesis_hash network).
  - injection Hp as _ <-. split; [done|]. by split.
Qed.

Lemma read_genesis_Ok endpoint timeout w genesis w' :
  read_genesis endpoint timeout w = (Ok genesis, w') ->
  exists v text hash, rpc_call endpoint (bstr "chain_getBlockHash") (v_array [v_num 0]) timeout false w = (Ok v, w')
    /\ v_as_str v = Some text /\ normalize_hash text = Ok hash /\ genesis = hash_hex hash.
Proof.
  unfold read_genesis. intros Hr. step Hr v Hv. step Hr text Ht. step Hr hash Hh. injection Hr as <- <-.
  unfold call in Hv. destruct (rpc_call _ _ _ _ _ w) as [[v0|] w0'] eqn:Hc; [|discriminate Hv]. injection Hv as -> ->.
  exists v, text, hash. apply ok_or_Ok in Ht. apply on_error_Ok in Hh. done.
Qed.

(** Only the genesis was asked for, if anything. *)
Definition only_read (network : Network.resolved) (timeout : Z) (w w' : W) : Prop :=
  w' = w \/ exists node_rpc answer, Network.rn_node_rpc network = Some node_rpc
    /\ rpc_call node_rpc (bstr "chain_getBlockHash") (v_array [v_num 0]) timeout false w = (answer, w').

Lemma observe_outcome network timeout w r w' :
  (match Network.rn_node_rpc network with
   | Some node_rpc => genesis ← read_genesis node_rpc timeout; mret (Some genesis)
   | None => mret None
   end) w = (r, w') ->
  only_read network timeout w w'
  /\ match r with
     | Ok observed => match Network.rn_genesis_hash network with None => True | Some expected => observed = Some expected end ->
                      identified network timeout w w' observed
     | Err _ => True
     end.
Proof.
  unfold only_read, identified. destruct (Network.rn_node_rpc network) as [node_rpc|]; [|intros [= <- <-]; by split; [left|]].
  intros [(genesis & w1 & Hg & Hr)|(e & Hg & ->)]%eff_bind_inv.
  - injection Hr as <- <-. destruct (read_genesis_Ok _ _ _ _ _ Hg) as (v & text & hash & Hc & ? & ? & ->). split.
    + right. by exists node_rpc, (Ok v).
    + intros Hm. split; [|done]. by exists v, text, hash.
  - split; [|done]. unfold read_genesis in Hg.
    destruct (rpc_call node_rpc (bstr "chain_getBlockHash") (v_array [v_num 0]) timeout false w) as [answer w1] eqn:Hc.
    assert (w' = w1) as ->; [|right; by exists node_rpc, answer].
    apply eff_bind_inv in Hg as [(v & w2 & Hv & Hg)|(? & Hv & _)]; unfold call in Hv; rewrite Hc in Hv; injection Hv as _ Hv; [subst w2|done].
    apply eff_bind_inv in Hg as [(text & w3 & [= _ ->] & Hg)|(? & [= _ ->] & _)]; [|done].
    by apply eff_bind_inv in Hg as [(hash & w4 & [= _ ->] & [=])|(? & [= _ ->] & _)].
Qed.

(** C16: a deployment makes one call that changes anything, and makes it only when
    the network is a MiniJAM whose genesis, where one is configured, is the one its
    node answers with; otherwise it fails having read at most the genesis. When it
    succeeds, the service it reports is final and runs the code of the artifact;
    when the call failed, its error is reported as it is. *)
Theorem deployment_exact (network : Network.resolved) (a : Artifact.t) (timeout : Z) (w w' : W) (r : result DeploymentResult stop) :
  deploy network a timeout w = (r, w') ->
  (is_ok r = false /\ only_read network timeout w w')
  \/ (Network.rn_kind network = MiniJam
      /\ exists observed w1 answer, identified network timeout w w1 observed /\ created network a timeout w1 answer w'
         /\ match r with
            | Ok d => exists v, answer = Ok v /\ deployed a network observed v d
            | Err e => forall error, answer = Err error -> e = Fails error
            end).
Proof.
  unfold deploy. intros [([] & w1 & Hk & Hr)|(e & [= _ <-] & ->)]%eff_bind_inv; [|left; by split; [|left]].
  apply check_Ok in Hk as [Hk%bool_decide_eq_true ->]. apply eff_bind_inv in Hr as [(observed & w1 & Ho & Hr)|(e & Ho & ->)];
    apply observe_outcome in Ho as [Hread Hid]; [|by left].
  apply eff_bind_inv in Hr as [([] & w2 & Hm & Hr)|(e & Hm & ->)].
  2: { left. split; [done|]. destruct (Network.rn_genesis_hash network); by injection Hm as _ <-. }
  assert (w2 = w1 /\ match Network.rn_genesis_hash network with None => True | Some expected => observed = Some expected end) as [-> Hmatch].
  { destruct (Network.rn_genesis_hash network); [apply check_Ok in Hm as [Hm%bool_decide_eq_true ->]|injection Hm as <-]; by split. }
  right. split; [done|]. destruct (create_outcome _ _ _ _ _ _ Hr) as (answer & Hc & Hout & Herr).
  exists observed, w1, answer. split; [by apply Hid|]. split; [exact Hc|]. destruct r as [d|e].
  - destruct Hout as (v & -> & response & Hp & ? & ? & ? & ? & ? & ? & ? & Hg & ?). exists v. split; [done|]. exists response.
    split_and!; try done. rewrite Hg. unfold set_genesis. cbn. by destruct observed, (Network.rn_genesis_hash network).
  - intros error Ha. by injection (Herr _ Ha).
Qed.
End Deploying.

(** ** What a checked artifact is *)

Section Artifacts.
Context `{Blake2} `{JsonLaws} `{!JsonTexts} `{Sha256} {W : Type} `{!Files W}.
Import Artifact.

(** Nothing else writes files while the artifact is read. *)
Definition unchanged (contents : bytes -> result bytes bytes) : Prop :=
  forall path w r w', fs_read path w = (r, w') -> r = contents path.

(** The path of a name below a directory does not lead out of it. *)
Definition stays_inside (name : bytes) : Prop := name <> [] /\ head name <> Some x2f /\ [x2e; x2e] ∉ split_on [x2f] name.

Lemma unsafe_name_spec name : unsafe_name name = false -> stays_inside name.
Proof.
  unfold unsafe_name, stays_inside. intros [[[Hn%bool_decide_eq_false Ha%bool_decide_eq_false]%orb_false_iff _]%orb_false_iff Hc]%orb_false_iff.
  split_and!; [done..|]. intros Hin. apply not_true_iff_false in Hc. apply Hc, existsb_exists. eexists. split; [by apply list_elem_of_In|].
  by apply bool_decide_eq_true.
Qed.

(** A file listed with the digest of its contents. *)
Definition covered (contents : bytes -> result bytes bytes) (directory : bytes) (entry : bytes * bytes) : Prop :=
  stays_inside entry.1
  /\ exists c, contents (join_path directory entry.1) = Ok c /\ normalize_hash entry.2 = Ok (blake2_256 c).

Lemma verify_files_covered contents directory files w w' :
  unchanged contents -> verify_files directory files w = (Ok tt, w') -> Forall (covered contents directory) files.
Proof.
  intros Hc. revert w. induction files as [|[name expected] files IH]; intros w Hv; [constructor|]. cbn [verify_files] in Hv.
  step Hv x Hx. destruct x. constructor; [|by eapply IH]. unfold verify_file in Hx. step Hx y Hu. step Hx c Hr. step Hx h Hh.
  apply check_Ok in Hx as [Hx%bool_decide_eq_true ->]. apply negb_true_iff, unsafe_name_spec in Hu. split; [done|].
  exists c. split; [symmetry; exact (Hc _ _ _ _ Hr)|]. by rewrite Hx.
Qed.

(** The checksums of a directory: they cover the program and the metadata, and
    every file they list is inside and has its digest. *)
Definition checksums_hold (contents : bytes -> result bytes bytes) (directory : bytes) : Prop :=
  exists text checksums, contents (join_path directory (bstr "checksums.json")) = Ok text /\ parse_checksums text = Ok checksums
    /\ ck_version checksums = 1 /\ ck_algorithm checksums = bstr "blake2b-256"
    /\ is_Some (assoc (ck_files checksums) (bstr "service.blob")) /\ is_Some (assoc (ck_files checksums) (bstr "build.json"))
    /\ Forall (covered contents directory) (ck_files checksums).

Lemma verify_checksums_hold contents directory w w' :
  unchanged contents -> verify_checksums directory (join_path directory (bstr "checksums.json")) w = (Ok tt, w') ->
  checksums_hold contents directory.
Proof.
  intros Hc Hv. unfold verify_checksums in Hv. step Hv text Ht. step Hv checksums Hk. step Hv x Hf. step Hv x Hb. step Hv x Hj.
  apply map_err_Ok in Hk. apply andb_prop in Hf as [[Hf%Z.eqb_eq Ha%bool_decide_eq_true]%andb_prop _]. apply bool_decide_eq_true in Hb, Hj.
  exists text, checksums. split; [symmetry; exact (Hc _ _ _ _ Ht)|]. split_and!; try done. by eapply verify_files_covered.
Qed.

Lemma find_u64_range v names n : find_u64 v names = Some n -> u64_ok n.
Proof.
  induction names as [|name names IH]; [done|]. cbn [find_u64]. destruct (v_get v name ≫= v_as_u64) as [m|] eqn:Hv; [|done].
  intros [= <-]. destruct (v_get v name); [|done]. by eapply u64_in_range.
Qed.

(** What the metadata says: the hash of the code, the gas, and perhaps the key. *)
Definition metadata_says (metadata : value) (code_hash : bytes) (item memo : Z) (key : option bytes) : Prop :=
  (exists text, v_get metadata (bstr "code_hash") ≫= v_as_str = Some text /\ normalize_hash text = Ok code_hash)
  /\ find_u64 metadata [bstr "min_item_gas"; bstr "minItemGas"] = Some item
  /\ find_u64 metadata [bstr "min_memo_gas"; bstr "minMemoGas"] = Some memo
  /\ match v_get metadata (bstr "serviceKey") ≫= v_as_str with
     | Some text => exists k, normalize_hash text = Ok k /\ key = Some k
     | None => key = None
     end.

Lemma parse_metadata_Ok blob build code_hash item memo key :
  parse_metadata blob build = Ok (code_hash, item, memo, key) ->
  code_hash = blake2_256 blob /\ 0 < item <= U64_MAX /\ 0 < memo <= U64_MAX
  /\ exists metadata, json_parse build = Ok metadata /\ metadata_says metadata code_hash item memo key.
Proof.
  unfold parse_metadata. intros (metadata & Hj%map_err_Ok & Hp)%rbind_Ok. apply rbind_Ok in Hp as (text & Ht%ok_or_Ok & Hp).
  apply rbind_Ok in Hp as (hash & Hh & Hp). cbv zeta in Hp. apply bail_if_Ok in Hp as [Heq%negb_false_iff%bool_decide_eq_true Hp].
  apply rbind_Ok in Hp as (i & Hi%ok_or_Ok & Hp). apply rbind_Ok in Hp as (m & Hm%ok_or_Ok & Hp).
  apply bail_if_Ok in Hp as [[Hi0%Z.eqb_neq Hm0%Z.eqb_neq]%orb_false_iff Hp].
  pose proof (find_u64_range _ _ _ Hi) as Hir. pose proof (find_u64_range _ _ _ Hm) as Hmr. unfold u64_ok in *.
  assert (match v_get metadata (bstr "serviceKey") ≫= v_as_str with
     | Some text => exists k, normalize_hash text = Ok k /\ key = Some k
     | None => key = None
     end /\ code_hash = hash /\ item = i /\ memo = m) as (Hkey & -> & -> & ->).
  { destruct (v_get metadata (bstr "serviceKey") ≫= v_as_str); [apply rbind_Ok in Hp as (k & Hk & Hp)|]; injection Hp as <- <- <- <-; split_and!; eauto. }
  split; [done|]. split; [lia|]. split; [lia|]. exists metadata. split; [done|]. split_and!; try done. by exists text.
Qed.

(** *** The files that are read *)

(** A file below the directory is read. *)
Definition reads_inside (root : bytes) (w w' : W) : Prop :=
  exists name r, stays_inside name /\ fs_read (join_path root name) w = (r, w').

(** A computation that reads no other files. *)
Definition inside {A} (root : bytes) (m : eff W A) : Prop := forall w r w', m w = (r, w') -> rtc (reads_inside root) w w'.

Lemma inside_bind {A B} root (m : eff W A) (k : A -> eff W B) : inside root m -> (forall a, inside root (k a)) -> inside root (m ≫= k).
Proof.
  intros Hm Hk w r w' [(a & w1 & Hw & Hw1)|(e & Hw & _)]%eff_bind_inv; [|by eapply Hm]. etransitivity; [by eapply Hm|by eapply Hk].
Qed.
Lemma inside_still {A} root (f : W -> result A stop) : inside root (fun w => (f w, w)).
Proof. by intros w r w' [= _ <-]. Qed.
Lemma inside_read root name error : stays_inside name -> inside root (file_op (fs_read (join_path root name)) error).
Proof.
  intros Hn w r w'. unfold file_op. destruct (fs_read (join_path root name) w) as [r1 w1] eqn:Hr. intros [= _ <-].
  apply rtc_once. by exists name, r1.
Qed.
Lemma inside_optional root name : stays_inside name -> inside root (read_optional (join_path root name)).
Proof.
  intros Hn w r w'. unfold read_optional. destruct (fs_read (join_path root name) w) as [r1 w1] eqn:Hr. intros [= _ <-].
  apply rtc_once. by exists name, r1.
Qed.

Lemma inside_file root entry : inside root (verify_file root entry).
Proof.
  destruct entry as [name expected]. unfold verify_file. destruct (unsafe_name name) eqn:Hu; [by intros w r w' [= _ <-]|].
  apply inside_bind; [apply inside_still|intros _]. apply inside_bind; [by apply inside_read, unsafe_name_spec|intros c].
  apply inside_bind; [apply inside_still|intros h]. apply inside_still.
Qed.
Lemma inside_files root files : inside root (verify_files root files).
Proof. induction files as [|entry files IH]; cbn [verify_files]; [apply inside_still|]. apply inside_bind; [apply inside_file|by intros _]. Qed.

Lemma inside_checksums root : inside root (verify_checksums root (join_path root (bstr "checksums.json"))).
Proof.
  unfold verify_checksums. apply inside_bind; [by apply inside_read, unsafe_name_spec|intros text].
  apply inside_bind; [apply inside_still|intros checksums]. do 3 (apply inside_bind; [apply inside_still|intros _]). apply inside_files.
Qed.

(** What an artifact has from the files of its directory. *)
Record described (contents : bytes -> result bytes bytes) (a : Artifact.t) : Prop := {
  ds_blob : contents (join_path (sa_directory a) (bstr "service.blob")) = Ok (sa_blob a);
  ds_pvm pvm : sa_pvm a = Some pvm <-> contents (join_path (sa_directory a) (bstr "service.pvm")) = Ok pvm;
  ds_build : exists build metadata, contents (join_path (sa_directory a) (bstr "build.json")) = Ok build
    /\ sa_build_id a = hex_bytes (sha256 build) /\ json_parse build = Ok metadata
    /\ metadata_says metadata (sa_code_hash a) (sa_min_item_gas a) (sa_min_memo_gas a) (sa_service_key a);
  ds_code : sa_code_hash a = blake2_256 (sa_blob a);
  ds_gas : 0 < sa_min_item_gas a <= U64_MAX /\ 0 < sa_min_memo_gas a <= U64_MAX;
  ds_checksums : checksums_hold contents (sa_directory a)
}.

Lemma load_described contents directory w a w' :
  unchanged contents -> load_service_artifact directory w = (Ok a, w') ->
  (exists w1, fs_canonicalize directory w = (Ok (sa_directory a), w1)) /\ described contents a.
Proof.
  intros Hc Hl. unfold load_service_artifact in Hl. step Hl root Hroot. cbv zeta in Hl. step Hl blob Hblob. step Hl pvm Hpvm. step Hl build Hbuild.
  step Hl x Hsums. destruct x. step Hl meta Hmeta. destruct meta as [[[code_hash item] memo] key].
  destruct (parse_metadata_Ok _ _ _ _ _ _ Hmeta) as (Hcode & ? & ? & metadata & Hj & Hsays). injection Hl as <- _. split; [by eexists|].
  split; cbn [sa_blob sa_directory sa_pvm sa_build_id sa_code_hash sa_min_item_gas sa_min_memo_gas sa_service_key]; try done.
  - symmetry. exact (Hc _ _ _ _ Hblob).
  - intros p. unfold read_optional in Hpvm. destruct (fs_read (join_path root (bstr "service.pvm")) _) as [r w9] eqn:Hr.
    apply Hc in Hr. injection Hpvm as <- _. rewrite <- Hr. destruct r; naive_solver.
  - exists build, metadata. split; [symmetry; exact (Hc _ _ _ _ Hbuild)|done].
  - by eapply verify_checksums_hold.
Qed.

(** C20: an artifact that was loaded is the one its directory describes: the program
    hashes to the code hash that [build.json] names, the gas values and the key are
    the ones of [build.json] and the gas is positive, and the checksums cover program
    and metadata and hold of every file they list. Whether loading succeeds or not,
    every file it reads is named by a relative path without [..] below the directory
    (symbolic links below it are not looked at). *)
Theorem artifact_verified (contents : bytes -> result bytes bytes) (directory : bytes) (w w' : W) r :
  unchanged contents -> load_service_artifact directory w = (r, w') ->
  (forall a, r = Ok a -> (exists w1, fs_canonicalize directory w = (Ok (sa_directory a), w1)) /\ described contents a)
  /\ exists root w1, fs_canonicalize directory w = (root, w1)
     /\ match root with Ok root => rtc (reads_inside root) w1 w' | Err _ => w' = w1 end.
Proof.
  intros Hc Hl. split; [intros a ->; by eapply load_described|]. unfold load_service_artifact in Hl.
  destruct (fs_canonicalize directory w) as [root w1] eqn:Hroot. exists root, w1. split; [done|].
  unfold mbind at 1, eff_bind at 1, file_op at 1 in Hl. rewrite Hroot in Hl. destruct root as [root|error]; [|by injection Hl as _ <-].
  cbn [map_err] in Hl. cbv zeta in Hl. revert Hl. apply inside_bind; [by apply inside_read, unsafe_name_spec|intros blob].
  apply inside_bind; [by apply inside_optional, unsafe_name_spec|intros pvm]. apply inside_bind; [by apply inside_read, unsafe_name_spec|intros build].
  apply inside_bind; [apply inside_checksums|intros _]. apply inside_bind; [apply inside_still|intros [[[code item] memo] key]]. apply inside_still.
Qed.
End Artifacts.

(** ** What the errors of the transport say *)

Section Outcomes.
Context `{Urls} `{Json} `{!JsonTexts} {W : Type} `{!Curl W}.
Import CurlTransport.

(** The server answered with JSON-RPC. *)
Definition answered (outcome : CurlOutcome) (v : value) : Prop :=
  exists stdout stderr body status, outcome = CurlExited (Some 0) stdout stderr /\ split_output stdout = Some (body, status)
    /\ 0 < status < 400 /\ json_parse (trim body) = Ok v /\ v_get v (bstr "jsonrpc") ≫= v_as_str = Some (bstr "2.0").

(** The server answered that it did not take the request, with a status that
    says so or with a JSON-RPC error. *)
Definition refused_by_server (outcome : CurlOutcome) : Prop :=
  (exists stdout stderr body status, outcome = CurlExited (Some 0) stdout stderr /\ split_output stdout = Some (body, status)
     /\ 400 <= status < 500 /\ status <> 408 /\ status <> 425 /\ status <> 429)
  \/ exists v error, answered outcome v /\ v_get v (bstr "error") = Some error.

(** [curl] ended without a status and says that there was no connection. *)
Definition never_connected (outcome : CurlOutcome) : Prop :=
  exists code stdout stderr, outcome = CurlExited code stdout stderr
    /\ match split_output stdout with Some (_, status) => status = 0 | None => True end
    /\ connection_failure None stderr = true.

(** What is known of a mutating call from its result. *)
Definition known (outcome : CurlOutcome) (r : result value DeploymentError) : Prop :=
  match r with
  | Ok result => exists v, answered outcome v /\ v_get v (bstr "error") = None /\ v_get v (bstr "result") = Some result
  | Err error =>
      match de_code error with
      | DeploymentRejected => refused_by_server outcome
      | RpcMethodNotFound => exists v e, answered outcome v /\ v_get v (bstr "error") = Some e /\ v_get e (bstr "code") ≫= v_as_i64 = Some (-32601)
      | NetworkUnreachable => never_connected outcome
      | DeploymentOutcomeUnknown => True
      | _ => False
      end
  end.

Lemma transport_error_known method endpoint code stdout status body stderr :
  match split_output stdout with Some (_, s) => status = Some s | None => status = None end ->
  known (CurlExited code stdout stderr) (Err (curl_transport_error method endpoint code status body stderr true)).
Proof.
  intros Hs. unfold known, curl_transport_error. cbn [de_code andb]. destruct (connection_failure status stderr) eqn:Hc; [|done]. simpl negb.
  cbv iota. unfold connection_failure in Hc. apply andb_prop in Hc as [Hz%Z.eqb_eq Ht].
  exists code, stdout, stderr. split; [done|]. split; [|exact Ht]. destruct (split_output stdout) as [[b s]|]; [by rewrite Hs in Hz|done].
Qed.

Lemma split_output_range stdout body status : split_output stdout = Some (body, status) -> 0 <= status.
Proof.
  unfold split_output. destruct (rsplit_once MARKER (lossy stdout)) as [[b s]|]; [|done]. intros [= _ <-].
  destruct (parse_unsigned U16_MAX (trim s)) as [n|] eqn:Hn; [|done]. simpl.
  enough (forall text acc, 0 <= acc -> digits U16_MAX acc text = Some n -> 0 <= n) as Hd.
  { unfold parse_unsigned in Hn. repeat case_match; try done; by eapply Hd in Hn. }
  clear. induction text as [|c text IH]; cbn [digits]; [by intros acc ? [= <-]|]. intros acc Ha. case_match eqn:Hb; [|done].
  unfold checked_mul, checked_add. repeat (case_match; simpl; [|done]). apply IH. unfold between in Hb. lia.
Qed.

(** C19: over [curl], what a mutating call reports is what the server did: a result
    or a missing method is a JSON-RPC answer, a rejection is a status or an answer
    that refuses, a network that was not reached is a connection that failed before
    any status, and in every other case the outcome is reported as unknown. *)
Theorem transport_outcomes_exact (endpoint method : bytes) (params : value) (timeout : Z) (w w' : W) (r : result value DeploymentError) :
  rpc_call endpoint method params timeout true w = (r, w') ->
  exists outcome, run_curl (curl_arguments (seconds timeout) endpoint) (json_print (request method params)) w = (outcome, w') /\ known outcome r.
Proof.
  unfold rpc_call, curl_transport. destruct (run_curl _ _ w) as [outcome w1]. intros [= <- <-]. exists outcome. split; [done|].
  destruct outcome as [error|error|error|code stdout stderr]; [done..|]. unfold read_output.
  destruct (split_output stdout) as [[body status]|] eqn:Hs; [|apply transport_error_known; by rewrite Hs].
  case_match eqn:Hexit; [apply transport_error_known; by rewrite Hs|]. apply orb_false_iff in Hexit as [Hcode%negb_false_iff%bool_decide_eq_true Hz%Z.eqb_neq].
  subst code. pose proof (split_output_range _ _ _ Hs) as Hrange. case_match eqn:H400.
  - unfold known, mutating_http_error_code. cbn [de_code].
    match goal with |- context [if ?c then DeploymentRejected else _] => destruct c eqn:Hm; [|done] end.
    left. exists stdout, stderr, body, status. split_and!; [done..|lia|lia|lia|lia|lia].
  - destruct (json_parse (trim body)) as [v|e] eqn:Hj; [|done]. cbn [map_err rbind]. unfold parse_json_rpc_response.
    case_bool_decide as H2; [|done]. assert (answered (CurlExited (Some 0) stdout stderr) v) as Ha.
    { exists stdout, stderr, body, status. split_and!; try done; lia. }
    simpl negb. cbv iota. destruct (v_get v (bstr "error")) as [error|] eqn:He.
    + case_bool_decide as Hc; [by exists v, error|]. right. by exists v, error.
    + destruct (v_get v (bstr "result")) as [result|] eqn:Hr; [|done]. by exists v.
Qed.
End Outcomes.

(** ** The gateway of the backend over curl *)

Section GatewayOutcomes.
Context `{Urls} `{Json} `{!JsonTexts} {W : Type} `{!Curl W} `{ScaleBytes} `{JamServiceInfo}.
Import CurlTransport.

(** The messages of the transport itself are none of the formal service's. *)
Lemma message_of_answer endpoint params timeout (w w' : W) error :
  rpc_call endpoint (bstr "minijam_submitWorkV1") params timeout true w = (Err error, w') ->
  de_message error = bstr "stale finalized context" ->
  exists outcome v e, run_curl (curl_arguments (seconds timeout) endpoint) (json_print (request (bstr "minijam_submitWorkV1") params)) w = (outcome, w')
    /\ answered outcome v /\ v_get v (bstr "error") = Some e.
Proof.
  unfold rpc_call, curl_transport. destruct (run_curl _ _ w) as [outcome w1]. intros [= Hr <-] Hm.
  destruct outcome as [text|text|text|code stdout stderr]; [injection Hr as <-; discriminate Hm..|]. unfold read_output in Hr.
  destruct (split_output stdout) as [[body status]|] eqn:Hs; [|injection Hr as <-; discriminate Hm].
  destruct (negb (bool_decide (code = Some 0)) || (status =? 0)) eqn:Hexit; [injection Hr as <-; discriminate Hm|].
  apply orb_false_iff in Hexit as [Hcode%negb_false_iff%bool_decide_eq_true Hz%Z.eqb_neq]. subst code.
  destruct (400 <=? status) eqn:H400; [injection Hr as <-; discriminate Hm|].
  destruct (json_parse (trim body)) as [v|e] eqn:Hj; [|injection Hr as <-; discriminate Hm]. cbn [map_err rbind] in Hr.
  unfold parse_json_rpc_response in Hr.
  destruct (bool_decide (v_get v (bstr "jsonrpc") ≫= v_as_str = Some (bstr "2.0"))) eqn:Hver; cbn [negb] in Hr; [|injection Hr as <-; discriminate Hm].
  apply bool_decide_eq_true in Hver.
  destruct (v_get v (bstr "error")) as [e|] eqn:He.
  - exists (CurlExited (Some 0) stdout stderr), v, e. split_and!; [done| |done]. exists stdout, stderr, body, status.
    pose proof (split_output_range _ _ _ Hs). split_and!; try done; lia.
  - destruct (v_get v (bstr "result")); [done|injection Hr as <-; discriminate Hm].
Qed.

(** C18: over [curl], the backend takes a submission as refused, and sends the batch
    again or reports its transactions as failed, only when the formal service
    answered that it did not take the work. *)
Theorem submission_refusal_definite (params : value) (g g' : Gateway.t (T := W)) (answer : result value BackendError) :
  n_submit_work params g = (answer, g') -> may_be_accepted answer = false ->
  exists outcome, run_curl (curl_arguments (seconds (Gateway.timeout g)) (Gateway.formal_rpc g))
      (json_print (request (bstr "minijam_submitWorkV1") params)) (Gateway.transport g) = (outcome, Gateway.transport g')
    /\ refused_by_server outcome.
Proof.
  unfold n_submit_work, Gateway.gateway_network, Gateway.submit_work, Gateway.call.
  destruct (rpc_call (Gateway.formal_rpc g) _ params (Gateway.timeout g) true (Gateway.transport g)) as [r w'] eqn:Hc.
  intros [= <- <-] Hm. cbn [Gateway.transport]. destruct r as [v|error]; [done|]. cbn [map_err] in Hm. unfold Gateway.submission_error in Hm.
  case_bool_decide as Hstale.
  - destruct (message_of_answer _ _ _ _ _ _ Hc Hstale) as (outcome & v & e & Hrun & Ha & He). exists outcome. split; [exact Hrun|]. right. by exists v, e.
  - case_bool_decide as Hcode; [|done]. destruct (transport_outcomes_exact _ _ _ _ _ _ _ Hc) as (outcome & Hrun & Hk). exists outcome.
    split; [exact Hrun|]. unfold known in Hk. by rewrite Hcode in Hk.
Qed.
End GatewayOutcomes.

(** ** Which network is used *)

Section Resolution.
Context `{Urls}.
Import Network.

(** An address a client may use. *)
Definition valid_url (text : bytes) : Prop :=
  exists u, url_parse text = Ok u /\ (url_scheme u = bstr "http" \/ url_scheme u = bstr "https") /\ is_Some (url_host u).

Lemma validate_http_url_Ok text field : validate_http_url text field = Ok tt -> valid_url text.
Proof.
  unfold validate_http_url, valid_url. destruct (url_parse text) as [u|]; [|done].
  intros [[Hs%negb_false_iff%orb_prop Hh%negb_false_iff%bool_decide_eq_true]%orb_false_iff _]%bail_if_Ok. exists u. split; [done|]. split; [|done].
  destruct Hs as [Hs%bool_decide_eq_true|Hs%bool_decide_eq_true]; auto.
Qed.
Lemma validate_optional_url_Ok text field : validate_optional_url text field = Ok tt -> opt_ok valid_url text.
Proof. destruct text; [apply validate_http_url_Ok|done]. Qed.

Lemma pinned_hash_Ok base genesis :
  pinned_hash base = Ok genesis ->
  match base ≫= nc_genesis_hash with
  | Some text => exists hash, normalize_hash text = Ok hash /\ genesis = Some (hash_hex hash)
  | None => genesis = None
  end.
Proof.
  unfold pinned_hash. destruct (base ≫= nc_genesis_hash) as [text|]; [|by intros [= <-]].
  intros (hash & Hh & Hg)%rbind_Ok. injection Hg as <-. eauto.
Qed.

(** The network that is used is a MiniJAM; its name and addresses come from the
    arguments, else the environment, else the configuration of the named network,
    the addresses are HTTP URLs, and a genesis hash that the configuration pins is
    used in its normal form and comes with a node to check it at. *)
Theorem network_resolution_exact (networks : list (bytes * config)) (deployment profile : option bytes) (o e : overrides) (r : resolved) :
  resolve_network_with_environment networks deployment o e profile = Ok r ->
  let name := or_else (o_network o) (or_else (o_network e) (or_else deployment profile)) in
  let base := name ≫= assoc networks in
  rn_kind r = MiniJam /\ rn_name r = name /\ (is_Some name -> is_Some base)
  /\ Some (rn_deployment_rpc r) = or_else (o_deployment_rpc o) (or_else (o_deployment_rpc e) (base ≫= nc_deployment_rpc))
  /\ rn_node_rpc r = or_else (o_node_rpc o) (or_else (o_node_rpc e) (base ≫= nc_node_rpc))
  /\ rn_backend_rpc r = or_else (o_backend_rpc o) (or_else (o_backend_rpc e) (base ≫= nc_backend_rpc))
  /\ valid_url (rn_deployment_rpc r) /\ opt_ok valid_url (rn_node_rpc r) /\ opt_ok valid_url (rn_backend_rpc r)
  /\ match base ≫= nc_genesis_hash with
     | Some text => exists hash, normalize_hash text = Ok hash /\ rn_genesis_hash r = Some (hash_hex hash)
                      /\ is_Some (rn_node_rpc r) /\ rn_genesis_pinned r = true
     | None => rn_genesis_hash r = None /\ rn_genesis_pinned r = false
     end.
Proof.
  intros Hr. unfold resolve_network_with_environment in Hr. cbv zeta in Hr. apply rbind_Ok in Hr as ([name base] & Hb & Hr).
  assert (selected_name deployment profile (with_environment o e)
          = or_else (o_network o) (or_else (o_network e) (or_else deployment profile))) as Hsel
    by (unfold selected_name, with_environment; cbn; by destruct (o_network o), (o_network e)).
  rewrite Hsel in Hb. cbv zeta. set (selected := or_else (o_network o) _) in *.
  assert (name = selected /\ base = selected ≫= assoc networks /\ (is_Some selected -> is_Some base)) as (-> & -> & Hknown).
  { destruct selected as [n|]; [|injection Hb as <- <-; by split_and!; [..|intros []]].
    apply rbind_Ok in Hb as (c & Hc%ok_or_Ok & Hb). injection Hb as <- <-. cbn. by rewrite Hc. }
  set (base := selected ≫= assoc networks) in *. clearbody base. apply rbind_Ok in Hr as (_ & _ & Hr). apply rbind_Ok in Hr as (kind_text & _ & Hr).
  apply rbind_Ok in Hr as (kind & _ & Hr). apply rbind_Ok in Hr as (genesis & Hg%pinned_hash_Ok & Hr). destruct kind; [|done].
  apply rbind_Ok in Hr as (rpc & Hrpc%ok_or_Ok & Hr). apply rbind_Ok in Hr as ([] & Hu1%validate_http_url_Ok & Hr).
  apply rbind_Ok in Hr as ([] & Hu2%validate_optional_url_Ok & Hr). apply rbind_Ok in Hr as ([] & Hu3%validate_optional_url_Ok & Hr).
  apply bail_if_Ok in Hr as [Hn Hr]. injection Hr as <-. unfold with_environment in *. cbn in *.
  split_and!; try done.
  - rewrite <- Hrpc. by destruct (o_deployment_rpc o).
  - by destruct (o_node_rpc o).
  - by destruct (o_backend_rpc o).
  - destruct (base ≫= nc_genesis_hash) as [text|]; [|by subst genesis]. destruct Hg as (hash & Hh & ->). exists hash. split_and!; try done.
    apply andb_false_iff in Hn as [Hn|Hn%negb_false_iff%bool_decide_eq_true]; [by rewrite bool_decide_eq_true_2 in Hn|done].
Qed.
End Resolution.
