(* ===== verification/Disk.v ===== *)
(** * The files of the backend

    [DiskArtifactStore], the artifact store of the daemon, and the registry file of
    [DiskBackendStore], over a directory tree whose operations may fail. Artifacts
    are written beside their place and renamed into it: whatever fails, a file in
    its place is one that was verified. *)

From S2P Require Import Prelude Ordering Reader Wire ServiceKeys StateView StateDiff Records Witness RefineInput Dependencies RefineOutput Ownership Crypto Actions ActionsV2 GuestMemory State Overlays Provider BackendBase Registry Envelope Database BackendState Codec Text JsonValue Engine Gateway Deployment.

(** An error of the file system, and whether it says that a file is missing. *)
Record IoError := mkIoError { io_not_found : bool; io_text : bytes }.

(** The file system. *)
Class Disk (W : Type) := {
  dk_exists : bytes -> W -> bool;
  dk_create_dir_all : bytes -> W -> result unit IoError * W;
  dk_read : bytes -> W -> result bytes IoError * W;
  (** opening with [create_new], [write_all] to and [sync_all] of the open file *)
  dk_create_new : bytes -> W -> result unit IoError * W;
  dk_write_all : bytes -> bytes -> W -> result unit IoError * W;
  dk_sync_all : bytes -> W -> result unit IoError * W;
  (** [fs::write], which replaces a file *)
  dk_write : bytes -> bytes -> W -> result unit IoError * W;
  dk_rename : bytes -> bytes -> W -> result unit IoError * W;
  dk_remove_file : bytes -> W -> result unit IoError * W
}.

(** What the operations do to the files, as paths with their contents. A write that
    fails may leave any part of what it was to write; nobody else writes. *)
Class DiskLaws (W : Type) `{Disk W} := {
  dk_files : W -> gmap bytes bytes;
  exists_spec path w : dk_exists path w = bool_decide (is_Some (dk_files w !! path));
  create_dir_spec path w r w' : dk_create_dir_all path w = (r, w') -> dk_files w' = dk_files w;
  read_spec path w r w' : dk_read path w = (r, w') ->
    dk_files w' = dk_files w /\ forall b, r = Ok b -> dk_files w !! path = Some b;
  create_new_spec path w r w' : dk_create_new path w = (r, w') ->
    match r with Ok _ => dk_files w !! path = None /\ dk_files w' = <[path := []]> (dk_files w) | Err _ => dk_files w' = dk_files w end;
  write_all_spec path b w r w' : dk_write_all path b w = (r, w') ->
    exists c, dk_files w' = <[path := c]> (dk_files w) /\ (r = Ok tt -> dk_files w !! path = Some [] -> c = b);
  sync_all_spec path w r w' : dk_sync_all path w = (r, w') -> dk_files w' = dk_files w;
  write_spec path b w r w' : dk_write path b w = (r, w') ->
    match r with
    | Ok _ => dk_files w' = <[path := b]> (dk_files w)
    | Err _ => dk_files w' = dk_files w \/ exists c, dk_files w' = <[path := c]> (dk_files w)
    end;
  rename_spec path path' w r w' : dk_rename path path' w = (r, w') ->
    match r with
    | Ok _ => exists b, dk_files w !! path = Some b /\ dk_files w' = <[path' := b]> (delete path (dk_files w))
    | Err _ => dk_files w' = dk_files w
    end;
  remove_spec path w r w' : dk_remove_file path w = (r, w') -> dk_files w' = dk_files w \/ dk_files w' = delete path (dk_files w)
}.

(** An operation with its error told. *)
Definition disk {W A} (f : W -> result A IoError * W) : io W A := fun w =>
  let '(r, w) := f w in (map_err (fun error => BE_ArtifactStore (io_text error)) r, w).
Definition looks {W A} (f : W -> A) : io W A := fun w => (Ok (f w), w).
(** What is done whatever the result was: its own result is lost. *)
Definition finally {W A B} (m : io W A) (after : W -> B * W) : io W A := fun w =>
  let '(r, w) := m w in (r, (after w).2).

Module DiskArtifactStore.
Section Ops.
Context `{Blake2} {W : Type} `{!Disk W}.

(** The root of the store. *)
Definition new (root : bytes) : io W bytes := disk (dk_create_dir_all root);; mret root.

(** The name of an artifact has no dot before the extension. *)
Definition path (root digest : bytes) : bytes := join_path root (hash_hex digest ++ bstr ".pvm").
Definition temporary (root digest : bytes) (stamp : Z) : bytes :=
  join_path root (bstr "." ++ hash_hex digest ++ bstr "." ++ decimal stamp ++ bstr ".tmp").

(** An artifact that is there already must have its digest. *)
Definition check_existing (target digest : bytes) : io W Z :=
  existing ← disk (dk_read target);
  ensure (bool_decide (blake2_256 existing = digest)) BE_ArtifactCorrupt;;
  mret (blen existing).

(** [fs::rename(&temp, &target)], with another writer that may have been faster. *)
Definition move_into_place (temp target digest content : bytes) : io W Z := fun w =>
  match dk_rename temp target w with
  | (Ok _, w) => (Ok (blen content), w)
  | (Err error, w) => if dk_exists target w then check_existing target digest w else (Err (BE_ArtifactStore (io_text error)), w)
  end.

(** [put_verified] at the time [stamp]. *)
Definition put_verified (root : bytes) (stamp : Z) (digest content : bytes) : io W Z :=
  ensure (negb (bool_decide (content = []) || (blen content >? MAX_PVM_ARTIFACT_BYTES))) BE_ArtifactTooLarge;;
  ensure (bool_decide (blake2_256 content = digest)) BE_ArtifactDigestMismatch;;
  let target := path root digest in
  present ← looks (dk_exists target);
  if bool_decide (present = true) then check_existing target digest
  else
    let temp := temporary root digest stamp in
    finally (disk (dk_create_new temp);; disk (dk_write_all temp content);; disk (dk_sync_all temp);;
             move_into_place temp target digest content)
      (dk_remove_file temp).

Definition get_verified (root digest : bytes) : io W bytes :=
  content ← (fun w => let '(r, w) := dk_read (path root digest) w in
                      (map_err (fun error => if io_not_found error then BE_ArtifactNotFound else BE_ArtifactStore (io_text error)) r, w));
  ensure (negb (blen content >? MAX_PVM_ARTIFACT_BYTES)) BE_ArtifactTooLarge;;
  ensure (bool_decide (blake2_256 content = digest)) BE_ArtifactCorrupt;;
  mret content.

Definition contains (root digest : bytes) : io W bool := fun w =>
  match get_verified root digest w with
  | (Ok _, w) => (Ok true, w)
  | (Err BE_ArtifactNotFound, w) => (Ok false, w)
  | (Err error, w) => (Err error, w)
  end.
End Ops.
End DiskArtifactStore.

(** The trait [ArtifactStore] for a store on disk, with the clock of its world. *)
Class Stamps (W : Type) := stamp : W -> Z * W.
Definition disk_artifacts `{Blake2} {W} `{!Disk W} `{!Stamps W} (root : bytes) : ArtifactStore W := {|
  as_put_verified digest content w := let '(now, w) := stamp w in DiskArtifactStore.put_verified root now digest content w;
  as_get_verified digest := DiskArtifactStore.get_verified root digest;
  as_contains digest := DiskArtifactStore.contains root digest
|}.

(** ** The registry file *)

(** [serde_json] for a list of records. *)
Class RecordTexts := {
  records_to_vec : list PersistedServiceRecord -> result bytes bytes;
  records_from_slice : bytes -> result (list PersistedServiceRecord) bytes
}.
Class RecordTextsLaws `{RecordTexts} : Prop :=
  records_round_trip l b : records_to_vec l = Ok b -> records_from_slice b = Ok l.

Module DiskBackendStore.
Section Ops.
Context `{RecordTexts} {W : Type} `{!Disk W}.
Record t := mk { root : bytes; registry_path : bytes; recovery_path : bytes }.

Definition new (root : bytes) : io W t :=
  disk (dk_create_dir_all root);;
  mret (mk root (join_path root (bstr "registry.json")) (join_path root (bstr "recovery.log"))).
Definition artifact_store (s : t) : io W bytes := DiskArtifactStore.new (join_path (root s) (bstr "artifacts")).

(** One record of the file. *)
Definition load_record (registry : ServiceRegistry.t) (r : PersistedServiceRecord) : result ServiceRegistry.t BackendError :=
  let? record := of_persisted r in
  match ServiceRegistry.register record registry with
  | (Ok _, registry) => Ok registry
  | (Err error, _) => Err (BE_Registry error)
  end.

Definition load_registry (s : t) : io W ServiceRegistry.t := fun w =>
  match dk_read (registry_path s) w with
  | (Err error, w) => (if io_not_found error then Ok ServiceRegistry.default_ else Err (BE_ArtifactStore (io_text error)), w)
  | (Ok b, w) =>
      (let? records := map_err BE_ArtifactStore (records_from_slice b) in rfold load_record ServiceRegistry.default_ records, w)
  end.

Definition temporary (s : t) : bytes := join_path (root s) (bstr "registry.json.tmp").
Definition persist_registry (registry : ServiceRegistry.t) (s : t) : io W unit :=
  text ← lift (map_err BE_ArtifactStore (records_to_vec (map to_persisted (ServiceRegistry.iter registry))));
  disk (dk_write (temporary s) text);;
  disk (dk_rename (temporary s) (registry_path s)).
End Ops.
End DiskBackendStore.
