(* ===== verification/DiskCorrect.v ===== *)
(** * What the files of the backend hold

    The artifact store holds verified programs only, whatever fails while one is
    put into it; the registry file gives back the registry that was written, and
    keeps the old one when writing fails. *)

From S2P Require Import Prelude Ordering Reader Wire ServiceKeys StateView StateDiff Records Witness RefineInput Dependencies RefineOutput Ownership Crypto Actions ActionsV2 GuestMemory State Overlays Provider BackendBase Registry Envelope Database BackendState Codec Text JsonValue Engine EngineCorrect Gateway Deployment Disk.

(** ** Paths *)

(** What stands before a relative name. *)
Definition path_prefix (root : bytes) : bytes :=
  match last root with None => [] | Some c => if bool_decide (c = x2f) then root else root ++ [x2f] end.
Lemma join_path_prefix root name : head name <> Some x2f -> join_path root name = path_prefix root ++ name.
Proof.
  intros Hn. unfold join_path, path_prefix. rewrite bool_decide_eq_false_2 by done. destruct (last root); [|done]. case_bool_decide; [done|].
  by rewrite <- app_assoc.
Qed.
Lemma join_path_inj root a b :
  head a <> Some x2f -> head b <> Some x2f -> join_path root a = join_path root b -> a = b.
Proof. intros Ha Hb. rewrite !join_path_prefix by done. apply app_inv_head. Qed.

(** ** The artifact store *)

Section Artifacts.
Context `{Blake2} {W : Type} `{DiskLaws W}.
Import DiskArtifactStore.

Lemma path_inj root digest digest' : path root digest = path root digest' -> digest = digest'.
Proof. unfold path. intros Hp%join_path_inj; [|done..]. apply hash_hex_inj. by apply app_inv_tail in Hp. Qed.
Lemma temporary_no_path root digest now digest' : temporary root digest now <> path root digest'.
Proof. unfold temporary, path. intros Hp%join_path_inj; done. Qed.

(** A file in the place of an artifact is that artifact. *)
Definition sound (root : bytes) (w : W) : Prop :=
  forall digest b, dk_files w !! path root digest = Some b -> blake2_256 b = digest.

(** Between two states nothing changed but, maybe, one file. *)
Definition only (p : bytes) (w w' : W) : Prop := forall q, q <> p -> dk_files w' !! q = dk_files w !! q.
Lemma only_refl p w w' : dk_files w' = dk_files w -> only p w w'.
Proof. intros Hf q _. by rewrite Hf. Qed.
Lemma only_trans p w w1 w2 : only p w w1 -> only p w1 w2 -> only p w w2.
Proof. intros Ha Hb q Hq. by rewrite Hb, Ha. Qed.

(** The steps on the temporary file change nothing else, and end with the content in it. *)
Lemma temp_written temp content (w w' : W) r :
  (disk (dk_create_new temp);; disk (dk_write_all temp content);; disk (dk_sync_all temp)) w = (r, w') ->
  only temp w w' /\ (r = Ok tt -> dk_files w' !! temp = Some content).
Proof.
  unfold mbind, io_bind, disk. destruct (dk_create_new temp w) as [[[]|e] w1] eqn:Hc; apply create_new_spec in Hc; cbn [map_err].
  2: { intros [= <- <-]. split; [by apply only_refl|done]. }
  destruct Hc as [_ Hc]. destruct (dk_write_all temp content w1) as [r2 w2] eqn:Hw. apply write_all_spec in Hw as (c & Hw & Hok).
  assert (only temp w w2) as Ho. { intros q Hq. by rewrite Hw, Hc, !lookup_insert_ne by done. }
  destruct r2 as [[]|e]; cbn [map_err]; [|intros [= <- <-]; by split].
  destruct (dk_sync_all temp w2) as [r3 w3] eqn:Hs. apply sync_all_spec in Hs. intros [= <- <-]. split; [by eapply only_trans, only_refl|].
  intros _. rewrite Hs, Hw, lookup_insert_eq. f_equal. apply Hok; [done|]. by rewrite Hc, lookup_insert_eq.
Qed.

(** The artifact [digest] is in its place. *)
Definition stored (root digest : bytes) (size : Z) (w : W) : Prop :=
  exists b, dk_files w !! path root digest = Some b /\ blake2_256 b = digest /\ blen b = size.

Lemma check_existing_spec root digest (w w' : W) r :
  check_existing (path root digest) digest w = (r, w') ->
  dk_files w' = dk_files w /\ forall size, r = Ok size -> stored root digest size w'.
Proof.
  unfold check_existing, disk. unfold mbind, io_bind. destruct (dk_read _ w) as [r1 w1] eqn:Hr. apply read_spec in Hr as [Hf Hb].
  destruct r1 as [b|e]; cbn [map_err]; [|intros [= <- <-]; by split]. unfold ensure. case_bool_decide as Hd; intros [= <- <-]; split; try done.
  intros size [= <-]. exists b. rewrite Hf. auto.
Qed.

Lemma move_into_place_spec root temp digest content (w w' : W) r :
  dk_files w !! temp = Some content -> blake2_256 content = digest ->
  move_into_place temp (path root digest) digest content w = (r, w') ->
  (dk_files w' = dk_files w \/ dk_files w' = <[path root digest := content]> (delete temp (dk_files w)))
  /\ forall size, r = Ok size -> stored root digest size w'.
Proof.
  intros Ht Hd. unfold move_into_place. destruct (dk_rename temp _ w) as [[[]|e] w1] eqn:Hr; apply rename_spec in Hr.
  - destruct Hr as (b & Hb & Hf). rewrite Ht in Hb. injection Hb as <-. intros [= <- <-]. split; [by right|]. intros size [= <-].
    exists content. rewrite Hf, lookup_insert_eq. auto.
  - destruct (dk_exists _ w1).
    + intros [Hf Hs]%check_existing_spec. split; [left; congruence|done].
    + intros [= <- <-]. split; [by left|done].
Qed.

Lemma io_bind_assoc {A B C} (m : io W A) (f : A -> io W B) (g : B -> io W C) w : ((m ≫= f) ≫= g) w = (m ≫= (fun a => f a ≫= g)) w.
Proof. unfold mbind, io_bind. by destruct (m w) as [[] ?]. Qed.

(** What a put may leave behind: the artifact in its place as it was or verified,
    and nothing else changed but the temporary file. *)
Definition after_put (root temp digest content : bytes) (w w' : W) (r : result Z BackendError) : Prop :=
  (forall q, q <> temp -> q <> path root digest -> dk_files w' !! q = dk_files w !! q)
  /\ (dk_files w' !! path root digest = dk_files w !! path root digest
      \/ dk_files w' !! path root digest = Some content /\ blake2_256 content = digest)
  /\ forall size, r = Ok size -> stored root digest size w'.

Lemma temp_moved root temp digest content (w w' : W) r :
  path root digest <> temp -> blake2_256 content = digest ->
  (disk (dk_create_new temp);; disk (dk_write_all temp content);; disk (dk_sync_all temp);; move_into_place temp (path root digest) digest content) w
    = (r, w') ->
  after_put root temp digest content w w' r.
Proof.
  intros Hne Hd Hrun.
  assert (((disk (dk_create_new temp);; disk (dk_write_all temp content);; disk (dk_sync_all temp))
           ≫= (fun _ => move_into_place temp (path root digest) digest content)) w = (r, w')) as Hrun'.
  { rewrite <- Hrun. unfold mbind, io_bind. by destruct (disk _ w) as [[] ?]; [destruct (disk _ w0) as [[] ?]|]. }
  clear Hrun. apply io_bind_inv in Hrun' as [([] & w1 & Hw & Hm)|(e & Hw & ->)]; apply temp_written in Hw as [Ho Hc].
  - apply move_into_place_spec in Hm as [Hf Hs]; [|by apply Hc|done]. split_and!; [|..|done].
    + intros q Hq Hq'. destruct Hf as [->| ->]; [by apply Ho|]. by rewrite lookup_insert_ne, lookup_delete_ne, Ho.
    + destruct Hf as [->| ->]; [left; by apply Ho|right; by rewrite lookup_insert_eq].
  - split_and!; [auto|left; by apply Ho|done].
Qed.

Lemma put_verified_spec root now digest content (w w' : W) r :
  put_verified root now digest content w = (r, w') -> after_put root (temporary root digest now) digest content w w' r.
Proof.
  intros Hp. assert (path root digest <> temporary root digest now) as Hne by (intros Heq; by apply (temporary_no_path root digest now digest)).
  unfold put_verified in Hp. apply io_bind_inv in Hp as [([] & w1 & [= _ <-] & Hp)|(e & [= _ <-] & ->)]; [|by split_and!; [|left|]].
  apply io_bind_inv in Hp as [([] & w1 & Hd & Hp)|(e & [= _ <-] & ->)]; [|by split_and!; [|left|]].
  injection Hd as Hd <-. case_bool_decide as Hdigest; [|done]. cbv zeta in Hp.
  apply io_bind_inv in Hp as [(present & w1 & [= <- <-] & Hp)|(e & [=] & _)].
  case_bool_decide; [apply check_existing_spec in Hp as [Hf Hs]; unfold after_put; rewrite Hf; by split_and!; [|left|]|].
  unfold finally in Hp. set (temp := temporary root digest now) in *.
  match type of Hp with (let '(_, _) := ?m in _) = _ => destruct m as [r1 w1] eqn:Hrun end. injection Hp as <- <-.
  apply temp_moved in Hrun as (Ho & Ht & Hs); [|done..]. destruct (dk_remove_file temp w1) as [r2 w2] eqn:Hrm. apply remove_spec in Hrm.
  assert (forall q, q <> temp -> dk_files w2 !! q = dk_files w1 !! q) as Hrest.
  { intros q Hq. destruct Hrm as [->| ->]; [done|by rewrite lookup_delete_ne]. }
  cbn [snd]. split_and!.
  - intros q Hq Hq'. rewrite Hrest by done. by apply Ho.
  - by rewrite Hrest.
  - intros size Hr. destruct (Hs size Hr) as (b & Hb & ?). exists b. by rewrite Hrest.
Qed.

(** C21: the artifact store holds verified programs only: whatever fails while an
    artifact is put, every file in the place of an artifact still has its digest and
    no other artifact changes, a put that succeeds leaves the artifact in its place,
    and what is read has the digest it was asked by and a size within the limit. *)
Theorem artifact_store_sound (root : bytes) (w w' : W) :
  sound root w ->
  (forall now digest content r, put_verified root now digest content w = (r, w') ->
     sound root w' /\ (forall digest', digest' <> digest -> dk_files w' !! path root digest' = dk_files w !! path root digest')
     /\ forall size, r = Ok size -> stored root digest size w')
  /\ (forall digest b, get_verified root digest w = (Ok b, w') ->
        dk_files w' = dk_files w /\ dk_files w !! path root digest = Some b /\ blake2_256 b = digest /\ blen b <= MAX_PVM_ARTIFACT_BYTES).
Proof.
  intros Hsound. split.
  - intros now digest content r (Ho & Ht & Hs)%put_verified_spec.
    assert (forall digest', digest' <> digest -> dk_files w' !! path root digest' = dk_files w !! path root digest') as Hother.
    { intros d Hd. apply Ho; [intros Heq; symmetry in Heq; by apply temporary_no_path in Heq|]. intros Heq. by apply path_inj in Heq. }
    split_and!; [|done..]. intros d b Hb. destruct (decide (d = digest)) as [->|Hd].
    + destruct Ht as [Ht|[Ht Hd]]; rewrite Ht in Hb; [by apply Hsound|]. by injection Hb as <-.
    + apply Hsound. by rewrite <- Hother.
  - intros digest b Hg. unfold get_verified in Hg. apply io_bind_inv in Hg as [(content & w1 & Hr & Hg)|(e & _ & Hg)]; [|done].
    destruct (dk_read (path root digest) w) as [r w2] eqn:Hread. apply read_spec in Hread as [Hf Hb]. injection Hr as Hr <-.
    apply map_err_Ok in Hr. apply io_bind_inv in Hg as [([] & w3 & [= Hsize <-] & Hg)|(e & _ & Hg)]; [|done].
    apply io_bind_inv in Hg as [([] & w3 & [= Hd <-] & [= -> <-])|(e & _ & Hg)]; [|done]. case_bool_decide as Hdigest; [|done].
    split_and!; [done|by apply Hb|done|]. destruct (blen b >? MAX_PVM_ARTIFACT_BYTES) eqn:Hz; [done|]. lia.
Qed.
End Artifacts.

(** ** The registry file *)

Lemma of_to_persisted record : record_ok record -> of_persisted (to_persisted record) = Ok record.
Proof.
  intros (_ & Hk & Hc & Hd & Hm & Hn).
  unfold of_persisted. cbn [to_persisted pr_service_key pr_code_hash pr_artifact_digest pr_artifact_format
    pr_manifest_digest pr_network_domain pr_service_id pr_abi_version pr_registered_at].
  rewrite (parse_hash_hex (sr_service_key record)) by done. cbn [rbind].
  rewrite (parse_hash_hex (sr_code_hash record)) by done. cbn [rbind].
  rewrite parse_hash_hex by done. cbn [rbind]. unfold artifact_format_parse. rewrite bool_decide_eq_true_2 by done.
  cbn [rbind]. rewrite !map_transpose_hex by done. cbn [rbind].
  destruct record as [i k c a [g []] [m r n]]. done.
Qed.

Section Registry.
Context `{RecordTextsLaws} {W : Type} `{DiskLaws W}.
Import DiskBackendStore.

Notation by_ids := (fun records : list ServiceRecord => list_to_map (map (fun r => (sr_service_id r, r)) records) : gmap Z ServiceRecord).
Notation by_keys := (fun records : list ServiceRecord => list_to_map (map (fun r => (sr_service_key r, sr_service_id r)) records) : gmap bytes Z).

(** Records with numbers and keys of their own are all registered. *)
Lemma load_all records : forall registry,
  Forall record_ok records -> NoDup (map sr_service_id records) -> NoDup (map sr_service_key records) ->
  Forall (fun r => ServiceRegistry.by_id registry !! sr_service_id r = None /\ ServiceRegistry.by_key registry !! sr_service_key r = None) records ->
  rfold load_record registry (map to_persisted records) =
  Ok (ServiceRegistry.mk (by_ids records ∪ ServiceRegistry.by_id registry) (by_keys records ∪ ServiceRegistry.by_key registry)).
Proof.
  induction records as [|r records IH]; intros registry Hok Hids Hkeys Hfresh; cbn [map rfold list_to_map].
  { cbn. rewrite !map_empty_union. by destruct registry. }
  apply Forall_cons in Hok as [Hr Hok], Hfresh as [[Hid Hkey] Hfresh]. apply NoDup_cons in Hids as [Hid' Hids], Hkeys as [Hkey' Hkeys].
  assert (load_record registry (to_persisted r) = Ok (ServiceRegistry.mk (<[sr_service_id r := r]> (ServiceRegistry.by_id registry))
    (<[sr_service_key r := sr_service_id r]> (ServiceRegistry.by_key registry)))) as ->.
  { unfold load_record. rewrite of_to_persisted by done. cbn [rbind]. unfold ServiceRegistry.register. by rewrite Hid, Hkey. }
  cbn [rbind]. rewrite IH; [|done..|].
  - cbn. do 2 f_equal; by rewrite <- insert_union_r, insert_union_l by (apply not_elem_of_list_to_map_1; rewrite <- list_fmap_compose; done).
  - rewrite Forall_forall in *. intros x Hx. destruct (Hfresh x Hx) as [Hxi Hxk]. cbn. split; rewrite lookup_insert_ne; try done.
    + intros Heq. apply Hid'. rewrite Heq. by apply list_elem_of_fmap_2.
    + intros Heq. apply Hkey'. rewrite Heq. by apply list_elem_of_fmap_2.
Qed.

(** The records of a registry determine it. *)
Lemma registry_of_records registry :
  ServiceRegistry.ok registry -> let records := ServiceRegistry.iter registry in
  by_ids records = ServiceRegistry.by_id registry /\ by_keys records = ServiceRegistry.by_key registry
  /\ NoDup (map sr_service_id records) /\ NoDup (map sr_service_key records)
  /\ forall r, r ∈ records <-> ServiceRegistry.by_id registry !! sr_service_id r = Some r.
Proof.
  intros [Hid Hkey]. cbv zeta. unfold ServiceRegistry.iter. set (entries := sort_by_key fst (map_to_list (ServiceRegistry.by_id registry))).
  assert (forall e, e ∈ entries <-> ServiceRegistry.by_id registry !! e.1 = Some e.2) as Hin.
  { intros [id r]. unfold entries. rewrite sort_by_key_perm. apply elem_of_map_to_list. }
  assert (map (fun r => (sr_service_id r, r)) (map snd entries) = entries) as Hentries.
  { rewrite map_map. rewrite <- (map_id entries) at 2. apply map_ext_in. intros [id r] He%list_elem_of_In%Hin. simpl in *.
    by destruct (Hid _ _ He) as [-> _]. }
  assert (NoDup (map fst entries)) as Hnd.
  { unfold entries. rewrite sort_by_key_perm. apply NoDup_fst_map_to_list. }
  assert (map sr_service_id (map snd entries) = map fst entries) as Hids.
  { rewrite <- Hentries at 2. by rewrite !map_map. }
  assert (forall r, r ∈ map snd entries <-> ServiceRegistry.by_id registry !! sr_service_id r = Some r) as Hrecords.
  { intros r. rewrite list_elem_of_fmap. split.
    - intros ([id r'] & -> & He%Hin). simpl in *. by destruct (Hid _ _ He) as [-> _].
    - intros Hr. exists (sr_service_id r, r). split; [done|]. by apply Hin. }
  assert (NoDup (map sr_service_key (map snd entries))) as Hkeys.
  { apply (NoDup_fmap_2_strong sr_service_key).
    - intros r r' Hr%Hrecords Hr'%Hrecords Heq. destruct (Hid _ _ Hr) as [_ Hk], (Hid _ _ Hr') as [_ Hk'].
      rewrite Heq, Hk' in Hk. injection Hk as Hk. rewrite <- Hk, Hr' in Hr. by injection Hr.
    - apply (NoDup_fmap_1 sr_service_id). change (NoDup (map sr_service_id (map snd entries))). by rewrite Hids. }
  split_and!; [..|done|done].
  - rewrite Hentries. unfold entries. rewrite (list_to_map_proper _ (map_to_list (ServiceRegistry.by_id registry))); [apply list_to_map_to_list|done|apply sort_by_key_perm].
  - apply map_eq. intros k. apply option_eq. intros id. rewrite <- elem_of_list_to_map.
    + rewrite list_elem_of_fmap. split.
      * intros (r & [= -> ->] & Hr%Hrecords). by apply Hid in Hr as [_ ?].
      * intros Hk. destruct (Hkey _ _ Hk) as (r & Hr & <-). destruct (Hid _ _ Hr) as [<- _]. exists r. split; [done|by apply Hrecords].
    + rewrite <- list_fmap_compose. exact Hkeys.
  - by rewrite Hids.
Qed.

(** A store opened at a directory. *)
Definition at_root (root : bytes) : t := mk root (join_path root (bstr "registry.json")) (join_path root (bstr "recovery.log")).
Lemma new_at_root root (w w' : W) s : new root w = (Ok s, w') -> s = at_root root.
Proof. unfold new. intros [(? & ? & _ & [= <- _])|(? & _ & [=])]%io_bind_inv. done. Qed.

(** C23: the registry that is read from the file is the one that was written to it,
    and a write that fails leaves the file as it was. *)
Theorem registry_file_round_trip (root : bytes) (registry : ServiceRegistry.t) (w w1 : W) (r : result unit BackendError) :
  ServiceRegistry.ok registry -> (forall id record, ServiceRegistry.by_id registry !! id = Some record -> record_ok record) ->
  persist_registry registry (at_root root) w = (r, w1) ->
  (r <> Ok tt -> dk_files w1 !! registry_path (at_root root) = dk_files w !! registry_path (at_root root))
  /\ (r = Ok tt -> is_Some (dk_files w1 !! registry_path (at_root root))
        /\ forall b w2, dk_read (registry_path (at_root root)) w1 = (Ok b, w2) -> load_registry (at_root root) w1 = (Ok registry, w2)).
Proof.
  intros Hreg Htyped Hp. set (s := at_root root) in *.
  assert (registry_path s <> temporary s) as Hne by (unfold s, temporary; cbn; by intros Heq%join_path_inj).
  unfold persist_registry, disk in Hp. apply io_bind_inv in Hp as [(text & w0 & [= Htext <-] & Hp)|(e & [= _ <-] & ->)]; [|done].
  unfold mbind, io_bind in Hp. destruct (dk_write (temporary s) text w) as [r1 w2] eqn:Hw. apply write_spec in Hw.
  destruct r1 as [[]|e]; cbn [map_err] in Hp.
  2: { injection Hp as <- <-. split; [|done]. intros _. destruct Hw as [->|[c ->]]; [done|by rewrite lookup_insert_ne]. }
  destruct (dk_rename (temporary s) (registry_path s) w2) as [r2 w3] eqn:Hr. apply rename_spec in Hr. injection Hp as <- <-.
  destruct r2 as [[]|e]; cbn [map_err]; [|split; [|done]; intros _; by rewrite Hr, Hw, lookup_insert_ne].
  split; [done|]. intros _. destruct Hr as (b & Hb & Hf). rewrite Hw, lookup_insert_eq in Hb. injection Hb as <-.
  split; [by rewrite Hf, lookup_insert_eq|]. intros b w4 Hread. unfold load_registry. rewrite Hread. apply read_spec in Hread as [_ Hread].
  specialize (Hread b eq_refl). rewrite Hf, lookup_insert_eq in Hread. injection Hread as <-.
  apply map_err_Ok, records_round_trip in Htext. rewrite Htext. cbn [map_err rbind].
  destruct (registry_of_records registry Hreg) as (Hi & Hk & Hids & Hkeys & Hin). rewrite load_all; [|..|done|done|].
  - f_equal. rewrite Hi, Hk. f_equal. cbn. rewrite !map_union_empty. by destruct registry.
  - apply Forall_forall. intros x Hx%Hin. by eapply Htyped.
  - apply Forall_forall. intros x _. cbn. by rewrite !lookup_empty.
Qed.
End Registry.

(** ** A directory in memory *)

Module DiskToy.
Notation tree := (gmap bytes bytes).
#[global] Instance disk_ops : Disk tree := {|
  dk_exists path w := bool_decide (is_Some (w !! path));
  dk_create_dir_all _ w := (Ok tt, w);
  dk_read path w := (ok_or (w !! path) (mkIoError true (bstr "not found")), w);
  dk_create_new path w := if bool_decide (w !! path = None) then (Ok tt, <[path := []]> w) else (Err (mkIoError false (bstr "exists")), w);
  dk_write_all path b w := (Ok tt, <[path := b]> w);
  dk_sync_all _ w := (Ok tt, w);
  dk_write path b w := (Ok tt, <[path := b]> w);
  dk_rename path path' w := match w !! path with
                            | Some b => (Ok tt, <[path' := b]> (delete path w))
                            | None => (Err (mkIoError true (bstr "not found")), w)
                            end;
  dk_remove_file path w := (Ok tt, delete path w)
|}.
#[global] Instance disk_laws : DiskLaws tree.
Proof.
  refine {| dk_files w := w |}; cbn.
  - done.
  - intros path w r w' Hr. by injection Hr as <- <-.
  - intros path w r w' Hr. injection Hr as <- <-. split; [done|]. intros b Hb.
    match type of Hb with ok_or ?x _ = _ => change (x = Some b); destruct x; [by injection Hb as ->|done] end.
  - intros path w r w'. case_bool_decide; intros Hr; by injection Hr as <- <-.
  - intros path b w r w' Hr. injection Hr as <- <-. by exists b.
  - intros path w r w' Hr. by injection Hr as <- <-.
  - intros path b w r w' Hr. by injection Hr as <- <-.
  - intros path path' w r w'. destruct (w !! path) as [b|] eqn:Hb; intros Hr; injection Hr as <- <-; [by exists b|done].
  - intros path w r w' Hr. injection Hr as <- <-. by right.
Defined.

#[global] Instance hash : Blake2 := zero_hash.
Definition root : bytes := bstr "/data".
Definition program : bytes := [x01; x02].
Definition digest : bytes := repeat x00 32.
Definition put : result Z BackendError * tree := DiskArtifactStore.put_verified root 7 digest program ∅.

(** A text for the one list of records the registry below has. *)
Definition record : ServiceRecord := sample_record 5 x01.
Definition registry : ServiceRegistry.t := (ServiceRegistry.register record ServiceRegistry.default_).2.
#[local] Instance persisted_eq_dec : EqDecision PersistedServiceRecord.
Proof. solve_decision. Defined.
#[global] Instance record_texts : RecordTexts := {|
  records_to_vec l := if bool_decide (l = [to_persisted record]) then Ok [x01] else Err [];
  records_from_slice b := if bool_decide (b = [x01]) then Ok [to_persisted record] else Err []
|}.
#[global] Instance record_texts_laws : RecordTextsLaws.
Proof. intros l b. cbn. case_bool_decide as Hl; intros Hb; [|done]. injection Hb as <-. by rewrite Hl. Defined.
Definition written : result unit BackendError * tree :=
  DiskBackendStore.persist_registry registry (at_root root) put.2.

Lemma registry_ok : ServiceRegistry.ok registry.
Proof. apply ServiceRegistry.registered_ok, ServiceRegistry.empty_registry_ok. Qed.
Lemma registry_typed id r : ServiceRegistry.by_id registry !! id = Some r -> record_ok r.
Proof.
  assert (ServiceRegistry.by_id registry = {[5 := record]}) as -> by reflexivity.
  intros [_ <-]%lookup_singleton_Some. apply sample_record_ok.
Qed.
End DiskToy.

Lemma artifact_store_sound_witness :
  sound DiskToy.root (∅ : DiskToy.tree) /\ stored DiskToy.root DiskToy.digest 2 DiskToy.put.2.
Proof.
  assert (sound DiskToy.root (∅ : DiskToy.tree)) as Hs by (intros d b Hb; discriminate).
  split; [exact Hs|].
  destruct (artifact_store_sound DiskToy.root ∅ DiskToy.put.2 Hs) as [Hput _].
  destruct (Hput 7 DiskToy.digest DiskToy.program DiskToy.put.1 (surjective_pairing DiskToy.put)) as (_ & _ & Hst).
  assert (DiskToy.put.1 = Ok 2) as Hput2 by (vm_compute; reflexivity). exact (Hst 2 Hput2).
Defined.

Lemma registry_file_round_trip_witness :
  exists text w, dk_read (DiskBackendStore.registry_path (at_root DiskToy.root)) DiskToy.written.2 = (Ok text, w)
    /\ DiskBackendStore.load_registry (at_root DiskToy.root) DiskToy.written.2 = (Ok DiskToy.registry, w).
Proof.
  exists [x01], DiskToy.written.2.
  assert (dk_read (DiskBackendStore.registry_path (at_root DiskToy.root)) DiskToy.written.2 = (Ok [x01], DiskToy.written.2)) as Hread.
  { assert ((dk_read (DiskBackendStore.registry_path (at_root DiskToy.root)) DiskToy.written.2).1 = Ok [x01]) as Hr by (vm_compute; reflexivity).
    exact (f_equal (fun r => (r, DiskToy.written.2)) Hr). }
  split; [exact Hread|].
  destruct (registry_file_round_trip DiskToy.root DiskToy.registry DiskToy.put.2 DiskToy.written.2 DiskToy.written.1
    DiskToy.registry_ok DiskToy.registry_typed (surjective_pairing DiskToy.written)) as [_ Hok].
  assert (DiskToy.written.1 = Ok tt) as Hwritten by (vm_compute; reflexivity).
  destruct (Hok Hwritten) as [_ Hload]. exact (Hload _ _ Hread).
Defined.
