(* ===== verification/Handler.v ===== *)
(** * The requests of the backend

    [BackendRpcHandler] of [jamscript-service-backend]: every JSON-RPC method,
    with [handle] and the answer of [handle_json]. The handler is the one the
    daemon builds: its artifact loader is the [PvmArtifactLoader], it has an
    artifact store and a database, the network may be missing, the work gateway
    is [UnconfiguredWorkGateway], and there is neither a registration validator
    nor a flat-file store.

    A request runs beside the dispatcher and other requests: [locked] is what it
    does under the lock of the state, and before each critical section and each
    call of the network or the coordinator the other threads may run. *)

From S2P Require Import Prelude Ordering Reader Wire ServiceKeys StateView StateDiff Records Witness RefineInput Dependencies RefineOutput Ownership Crypto Actions ActionsV2 GuestMemory State Overlays Provider BackendBase Registry Envelope Database BackendState Selection JsonValue Coordinator CoordinatorInvariant Engine Dispatcher Gateway.

(** ** Values in answers *)

Module Answers.
Section Values.
Context `{Json} `{PayloadBase64} `{ErrorText}.

Definition service_json (record : ServiceRecord) : value :=
  v_object
    [(bstr "serviceId", v_num (sr_service_id record)); (bstr "serviceKey", v_hash (sr_service_key record));
     (bstr "codeHash", v_hash (sr_code_hash record)); (bstr "abiVersion", v_num (sr_abi_version record));
     (bstr "artifact", v_object
        [(bstr "format", v_string ARTIFACT_WIRE_NAME); (bstr "digest", v_hash (ar_digest (sr_application_artifact record)))]);
     (bstr "networkDomain", null_or v_hash (dm_network_domain (sr_deployment record)))].

(** The digest named by a registration, in an artifact object or by itself. *)
Definition record_digest (params : value) (artifact : option value) : result bytes BackendError :=
  match (a ← artifact; if v_is_object a then v_get a (bstr "digest") ≫= v_as_str else None) with
  | Some text => parse_hash text
  | None =>
      match v_get params (bstr "plannerArtifactDigest") ≫= v_as_str with
      | Some text => parse_hash text
      | None => Err (BE_Rpc (bstr "plannerArtifact.digest is required"))
      end
  end.

Definition record_format (artifact : option value) : result ArtifactFormat BackendError :=
  match (a ← artifact; if v_is_object a then v_get a (bstr "format") ≫= v_as_str else None) with
  | Some text => artifact_format_parse text
  | None => Ok JamScriptPvmV1
  end.

Definition parse_service_record (params : value) : result ServiceRecord BackendError :=
  let artifact := match v_get params (bstr "artifact") with
                  | Some a => Some a
                  | None => v_get params (bstr "plannerArtifact")
                  end in
  let? digest := record_digest params artifact in
  let? format := record_format artifact in
  let? service_id := required_u32 params (bstr "serviceId") in
  let? service_key := required_hash params (bstr "serviceKey") in
  let? code_hash := required_hash params (bstr "codeHash") in
  let? abi_version := required_u32 params (bstr "abiVersion") in
  let? manifest_digest := optional_hash params (bstr "manifestDigest") in
  let? network_domain := optional_hash params (bstr "networkDomain") in
  Ok (mkServiceRecord service_id service_key code_hash abi_version (mkArtifact digest format)
        (mkDeployment manifest_digest (v_get params (bstr "registeredAt") ≫= v_as_u64) network_domain)).

(** The fields of a context, and with its kind. *)
Definition context_fields (context : FinalizedContextV1) : list (bytes * value) :=
  [(bstr "blockHash", v_hash (fc_block_hash context)); (bstr "blockNumber", v_num (fc_block_number context));
   (bstr "stateRoot", v_hash (fc_state_root context)); (bstr "slot", v_num (fc_slot context))].
Definition typed_context (kind : bytes) (context : FinalizedContextV1) : value :=
  v_object (context_fields context ++ [(bstr "contextType", v_string kind)]).

Definition query_json (service_id : Z) (response : StateQueryResponse) : value :=
  v_object
    [(bstr "serviceId", v_num service_id); (bstr "stateRoot", v_hash (qr_state_root response));
     (bstr "keyBase64", v_string (b64_encode (qr_key response)));
     (bstr "valueBase64", null_or (fun v => v_string (b64_encode v)) (qr_value response));
     (bstr "proofBase64", v_array (map (fun node => v_string (b64_encode node)) (qr_proof response)))].

(** *** Errors *)

Definition coded (code : Z) (message : bytes) : value :=
  v_object [(bstr "code", v_num code); (bstr "message", v_string message)].
Definition coded_with (code : Z) (message data : value) : value :=
  v_object [(bstr "code", v_num code); (bstr "message", message); (bstr "data", data)].
Definition not_submitted_data (cause : value) : value :=
  v_object [(bstr "code", v_string (bstr "NOT_SUBMITTED")); (bstr "cause", cause)].

Definition rpc_error (error : BackendError) : value :=
  match error with
  | BE_QueueFull retry_after_ms =>
      coded_with (-32044) (v_string (bstr "QUEUE_FULL")) (v_object [(bstr "retryAfterMs", v_num retry_after_ms)])
  | BE_GuestFault fault =>
      let info := guest_fault_json fault in
      coded_with (-32046) (default v_null (v_get info (bstr "code"))) info
  | BE_PvmOutOfGas service_id code_hash stage =>
      coded_with (-32047) (v_string (bstr "PVM_OUT_OF_GAS")) (pvm_out_of_gas_info service_id code_hash stage)
  | BE_NotSubmittedGuestFault fault =>
      let fault := guest_fault_json fault in
      coded_with (-32045)
        (v_string (bstr "NOT_SUBMITTED: " ++ default (bstr "GUEST_FAULT_UNKNOWN") (v_get fault (bstr "code") ≫= v_as_str)))
        (not_submitted_data fault)
  | BE_NotSubmittedPvmOutOfGas service_id code_hash stage =>
      coded_with (-32045) (v_string (bstr "NOT_SUBMITTED: PVM_OUT_OF_GAS"))
        (not_submitted_data (pvm_out_of_gas_info service_id code_hash stage))
  | BE_Rpc message => coded (-32000) message
  | BE_NotSubmitted message => coded (-32045) (bstr "NOT_SUBMITTED: " ++ message)
  | BE_Registry _ => coded (-32011) (bstr "unknown or invalid Service")
  | BE_Provider _ => coded (-32030) (bstr "STATE_ROOT_UNAVAILABLE")
  | BE_StateNotMaterialized =>
      coded (-32031) (bstr "STATE_NOT_MATERIALIZED: finalized managed-state root is not materialized")
  | BE_ServiceCorrupt service_id =>
      coded (-32032) (bstr "SERVICE_STATE_CORRUPT: Service " ++ decimal service_id ++ bstr " is isolated")
  | BE_DatabaseInUse _ => coded (-32033) (bstr "backend data directory is already in use")
  | BE_StaleContext => coded (-32010) (bstr "STALE_CONTEXT")
  | BE_BestContextUnavailable => coded (-32043) (bstr "BEST_CONTEXT_UNAVAILABLE")
  | BE_WrongNetwork =>
      coded (-32003) (bstr "WrongNetwork: signed action network domain does not match the connected chain")
  | BE_PredictionStale =>
      coded (-32042) (bstr "canonical managed-state root disagrees with the predicted transition")
  | BE_WorkNotFound => coded (-32013) (bstr "work not found")
  | _ => coded (-32030) (bstr "backend request failed: " ++ error_text error)
  end.

(** The response of [handle_json] to a request it could read. *)
Definition json_response (id : value) (r : result value BackendError) : value :=
  match r with
  | Ok result => v_object [(bstr "jsonrpc", v_string (bstr "2.0")); (bstr "id", id); (bstr "result", result)]
  | Err error => v_object [(bstr "jsonrpc", v_string (bstr "2.0")); (bstr "id", id); (bstr "error", rpc_error error)]
  end.
End Values.
End Answers.

Module Handler.
Section Ops.
Context `{Blake2} `{Trie} `{RocksDb} `{SerdeJson} `{Json} {N : Type} `{!BackendNetwork N} `{ArtifactStore N} `{Polkavm}.
Context `{PayloadBase64} `{ErrorText} `{ScaleBytes}.
Context (cfg : Coordinator.config).
Import Coordinator BackendEngine Dispatcher Answers.
Notation engine := (BackendEngine.t (P := PvmApplication.t) (N := N)).
Notation world := (Dispatcher.world (P := PvmApplication.t) (N := N)).

(** What the daemon was started with; [h_diagnostics] is the number in
    [MINIJAM_E2E_DIAGNOSTICS], 0 without one. *)
Record options := mkOptions { h_network : bool; h_admin_token : option bytes; h_diagnostics : Z }.
Context (opts : options).

(** ** Critical sections and calls *)

Definition locked {A} (m : io engine A) : io world A := yield cfg;; on_engine m.
Definition network {A} (m : io N A) : io world A := locked (net m).
Definition asked {A} (f : Coordinator.t -> A) : io world A := yield cfg;; ask_coordinator f.
Definition called (c : call) : io world unit := yield cfg;; call_coordinator cfg c.

Definition require_network : io world unit :=
  ensure (h_network opts) (BE_Rpc (bstr "network gateway is not configured")).

(** [enqueue], which reads the clock twice. *)
Definition enqueued (service_id : Z) (action : bytes) (params : value) : io world bytes := fun w =>
  let enqueued_at := w_clock w (w_readings w) in
  let deadline_now := w_clock w (S (w_readings w)) in
  ((enqueue cfg service_id action params enqueued_at deadline_now (w_coordinator w)).1,
   performed cfg (Enqueue service_id action params enqueued_at deadline_now) (tick (tick w))).
(** ** The chain *)

Definition chain_get_block_hash (params : value) : io world value :=
  let number := default 0 ((v_as_array params ≫= head) ≫= v_as_u64) in
  ensure (number =? 0) (BE_Rpc (bstr "only genesis hash is exposed by the backend"));;
  require_network;;
  hash ← network n_genesis_hash;
  mret (v_hash hash).

Definition finalized_context : io world value :=
  require_network;; context ← network n_finalized_context; mret (typed_context (bstr "finalized") context).

Definition best_context : io world value :=
  require_network;; context ← network n_best_context; mret (typed_context (bstr "best") context).

(** Block and service, the first two parameters of the storage queries. *)
Definition block_and_service (values : list value) : result (bytes * Z) BackendError :=
  let? text := ok_or (head values ≫= v_as_str) (BE_Rpc (bstr "block hash is required")) in
  let? block_hash := parse_hash text in
  let? service_id := ok_or (values !! 1%nat ≫= as_u32) (BE_Rpc (bstr "serviceId must be a u32")) in
  Ok (block_hash, service_id).

Definition service_storage_at (params : value) : io world value :=
  values ← lift (ok_or (v_as_array params) (BE_Rpc (bstr "service storage params must be an array")));
  '(block_hash, service_id) ← lift (block_and_service values);
  text ← lift (ok_or (values !! 2%nat ≫= v_as_str) (BE_Rpc (bstr "storage key is required")));
  key ← lift (decode_hex text);
  require_network;;
  context ← network (n_context_at block_hash);
  v ← network (n_service_storage_at context service_id key);
  match v with
  | None => mret v_null
  | Some b => encoded ← lift (encode_minijam_state_value b); mret (v_hash encoded)
  end.

Definition service_info_at (params : value) : io world value :=
  values ← lift (ok_or (v_as_array params) (BE_Rpc (bstr "service info params must be an array")));
  '(block_hash, service_id) ← lift (block_and_service values);
  require_network;;
  context ← network (n_context_at block_hash);
  info ← network (n_service_info context service_id);
  mret (null_or (fun info => v_hash (si_code_hash info)) info).

(** ** Services *)

Definition capabilities : value :=
  v_object
    [(bstr "protocolVersion", v_num BACKEND_PROTOCOL_VERSION_V1); (bstr "managedStateVersion", v_num 1);
     (bstr "multiService", v_bool true); (bstr "externalStateWitness", v_bool true); (bstr "dynamicPvmServices", v_bool true);
     (bstr "transactionLifecycleVersion", v_num 1); (bstr "bestChainTracking", v_bool (h_network opts));
     (bstr "strictFinalizedReceipts", v_bool (h_network opts)); (bstr "durableTransactionLookup", v_bool false)].

Definition list_services : io world value :=
  locked (reads (fun s => Ok (v_array (map service_json (ServiceRegistry.iter (BackendState.registry s)))))).

Definition get_service (params : value) : io world value :=
  service_id ← lift (required_u32 params (bstr "serviceId"));
  locked (reads (fun s => let? record := BackendState.get_service s service_id in Ok (service_json record))).

(** [ApplicationArtifactLoader] of [PvmArtifactLoader]; its errors are lost. *)
Definition loader {A} (f : PvmApplication.t -> result A BackendError) (artifact : ApplicationArtifactRef) : io world A :=
  r ← caught (network (PvmApplication.load_pvm artifact));
  lift (map_err (fun _ => BE_Planner PL_InvalidArtifact) (rbind r f)).

(** The last section of both ways of registering: an existing service changes only
    by an upgrade that was asked for. *)
Definition register_locked (record : ServiceRecord) (allow_upgrade : bool) (planner : PvmApplication.t) : io engine value :=
  reads (fun s =>
    match BackendState.get_service s (sr_service_id record) with
    | Ok existing =>
        bail_if negb (bool_decide (sr_service_key existing = sr_service_key record)) || negb allow_upgrade
          with BE_Rpc (bstr "Service is already registered; use an explicit validated upgrade") ;;
        Ok tt
    | Err _ => Ok tt
    end);;
  on_state (BackendState.register record);;
  on_state (BackendState.register_planner (sr_service_id record) planner);;
  on_state (BackendState.persist_service record);;
  mret (service_json record).

Definition allow_upgrade (params : value) : bool := default false (v_get params (bstr "allowUpgrade") ≫= v_as_bool).

(** The artifact of a service on chain is put into the store. *)
Definition fetch_artifact (context : FinalizedContextV1) (service_id : Z) (code_hash : bytes) : io world bytes :=
  code ← network (n_service_code context service_id code_hash);
  lift (ok_or code BE_ArtifactNotFound).

Definition stored_artifact (context : FinalizedContextV1) (service_id : Z) (code_hash : bytes) (expected : option bytes)
    : io world bytes :=
  match expected with
  | Some digest =>
      present ← network (as_contains digest);
      if bool_decide (present = true) then mret digest
      else code ← fetch_artifact context service_id code_hash; network (as_put_verified digest code);; mret digest
  | None =>
      code ← fetch_artifact context service_id code_hash;
      network (as_put_verified (blake2_256 code) code);; mret (blake2_256 code)
  end.

Definition expected_digest (params : value) : result (option bytes) BackendError :=
  match match v_get params (bstr "artifactDigest") with
        | Some v => Some v
        | None => v_get params (bstr "plannerArtifactDigest")
        end ≫= v_as_str with
  | None => Ok None
  | Some text => let? digest := parse_hash text in Ok (Some digest)
  end.

Definition discover_service (params : value) : io world value :=
  service_id ← lift (required_u32 params (bstr "serviceId"));
  require_network;;
  context ← network n_finalized_context;
  network_domain ← network n_genesis_hash;
  chain ← network (n_service_info context service_id);
  chain ← lift (ok_or chain BE_UnknownService);
  expected ← lift (optional_hash params (bstr "expectedCodeHash"));
  ensure (match expected with Some hash => bool_decide (hash = si_code_hash chain) | None => true end) BE_CodeHashMismatch;;
  digest ← lift (expected_digest params);
  digest ← stored_artifact context service_id (si_code_hash chain) digest;
  let artifact := mkArtifact digest JamScriptPvmV1 in
  canonical_hash ← loader (fun a => Ok (PvmApplication.canonical_code_hash a)) artifact;
  ensure (bool_decide (canonical_hash = si_code_hash chain)) BE_CodeHashMismatch;;
  metadata ← loader PvmApplication.metadata artifact;
  match v_get params (bstr "serviceKey") ≫= v_as_str with
  | Some text =>
      key ← lift (parse_hash text);
      ensure (bool_decide (BackendMetadata.service_key metadata = key)) BE_ServiceKeyMismatch
  | None => mret tt
  end;;
  let record := mkServiceRecord service_id (BackendMetadata.service_key metadata) (si_code_hash chain)
                  (BackendMetadata.abi_version metadata) artifact (mkDeployment None None (Some network_domain)) in
  planner ← loader Ok artifact;
  locked (register_locked record (allow_upgrade params) planner).

Definition admin (params : value) : bool :=
  match h_admin_token opts with
  | Some token => bool_decide (v_get params (bstr "adminToken") ≫= v_as_str = Some token)
  | None => false
  end.

Definition register_service (params : value) : io world value :=
  ensure (v_is_object params) (BE_Rpc (bstr "registration params must be an object"));;
  if negb (bool_decide (is_Some (v_get params (bstr "serviceKey"))) && bool_decide (is_Some (v_get params (bstr "codeHash"))))
  then discover_service params
  else
    ensure (admin params) (BE_Rpc (bstr "Service registration requires the backend control-plane token"));;
    record ← lift (parse_service_record params);
    match dm_network_domain (sr_deployment record) with
    | Some expected =>
        if h_network opts then domain ← network n_genesis_hash; ensure (bool_decide (expected = domain)) BE_WrongNetwork
        else mret tt
    | None => mret tt
    end;;
    planner ← loader Ok (sr_application_artifact record);
    locked (register_locked record (allow_upgrade params) planner).

Definition put_artifact (params : value) : io world value :=
  format ← lift (required_str params (bstr "format"));
  lift (artifact_format_parse format);;
  digest ← lift (required_hash params (bstr "digest"));
  encoded ← lift (required_str params (bstr "bytesBase64"));
  bytes ← lift (decode_base64 (bstr "bytesBase64") encoded);
  size ← network (as_put_verified digest bytes);
  mret (v_object [(bstr "format", v_string ARTIFACT_WIRE_NAME); (bstr "digest", v_hash digest);
                  (bstr "size", v_num size); (bstr "idempotent", v_bool true)]).
(** ** Managed state *)

(** The root a commitment stands for; a missing one stands for the empty state. *)
Definition commitment_at (context : FinalizedContextV1) (service_id : Z) : io world bytes :=
  commitment ← locked (read_commitment context service_id);
  lift (committed_root commitment).

(** The context a query names, checked against the chain. *)
Definition queried_context (request : value) (service_id : Z) (root : bytes) : io world (bytes * FinalizedContextV1) :=
  kind ← lift (required_str request (bstr "contextType"));
  ensure (bool_decide (kind = bstr "best") || bool_decide (kind = bstr "finalized")) (BE_Rpc (bstr "INVALID_CONTEXT_TYPE"));;
  block_hash ← lift (required_hash request (bstr "blockHash"));
  number ← lift (required_u32 request (bstr "blockNumber"));
  state_root ← lift (required_hash request (bstr "stateRoot"));
  slot ← lift (required_u32 request (bstr "slot"));
  require_network;;
  actual ← network (n_context_at block_hash);
  ensure ((fc_block_number actual =? number) && bool_decide (fc_state_root actual = state_root) && (fc_slot actual =? slot)) BE_StaleContext;;
  (if bool_decide (kind = bstr "finalized")
   then finalized ← network n_finalized_context;
        ensure (fc_block_number actual <=? fc_block_number finalized) BE_StaleContext
   else mret tt);;
  committed ← commitment_at actual service_id;
  ensure (bool_decide (committed = root)) BE_StaleContext;;
  mret (kind, actual).

(** A value at a root: the root is held, or a prediction leads to it and the chain
    committed to it. *)
Definition query_locked (service_id : Z) (root key : bytes) (on_chain : bool) : io engine value :=
  record ← reads (fun s => BackendState.get_service s service_id);
  let service_key := sr_service_key record in
  held ← reads (fun s => Ok (FullStateProvider.contains_root (BackendState.provider s) service_key root));
  held ← (if bool_decide (held = true) then mret true
          else if on_chain then on_state (BackendState.materialize_prediction_snapshot service_id root)
          else mret false);
  ensure held (BE_Provider PE_UnavailableRoot);;
  reads (fun s =>
    let? response := map_err BE_Provider (FullStateProvider.get (BackendState.provider s) service_key root key) in
    Ok (query_json service_id response)).

Definition get_managed_state (params : value) : io world value :=
  service_id ← lift (required_u32 params (bstr "serviceId"));
  root ← lift (required_hash params (bstr "stateRoot"));
  text ← lift (required_str params (bstr "keyBase64"));
  key ← lift (decode_base64 (bstr "keyBase64") text);
  context ← match v_get params (bstr "context") with
            | None => mret None
            | Some request => c ← queried_context request service_id root; mret (Some c)
            end;
  output ← locked (query_locked service_id root key (bool_decide (is_Some context)));
  mret (match context with
        | Some (kind, context) => v_set output (bstr "context") (typed_context kind context)
        | None => output
        end).

Definition canonical_state_root (service_id : Z) : io world (option FinalizedContextV1 * bytes) :=
  if h_network opts then
    context ← network n_finalized_context;
    root ← commitment_at context service_id;
    mret (Some context, root)
  else
    root ← locked (reads (fun s => BackendState.current_root s service_id));
    mret (None, root).

Definition get_state (params : value) (with_proof : bool) : io world value :=
  service_id ← lift (required_u32 params (bstr "serviceId"));
  text ← lift (required_str params (bstr "keyBase64"));
  key ← lift (decode_base64 (bstr "keyBase64") text);
  '(service_key, materialized_root) ← locked (reads (fun s =>
     let? record := BackendState.get_service s service_id in
     let? root := BackendState.current_root s service_id in
     Ok (sr_service_key record, root)));
  '(context, canonical_root) ← canonical_state_root service_id;
  ensure (bool_decide (materialized_root = canonical_root)) BE_StateNotMaterialized;;
  response ← locked (reads (fun s =>
     let? root := BackendState.current_root s service_id in
     bail_if negb (bool_decide (root = canonical_root)) with BE_StateNotMaterialized ;;
     map_err BE_Provider (FullStateProvider.get (BackendState.provider s) service_key canonical_root key)));
  let output := query_json service_id response in
  let output := if with_proof then output else v_remove output (bstr "proofBase64") in
  let output := match context with
                | Some context =>
                    v_set (v_set output (bstr "context") (v_object (context_fields context))) (bstr "finalizedContext")
                      (v_object (context_fields context))
                | None => output
                end in
  let output := v_set output (bstr "serviceKey") (v_hash service_key) in
  mret (v_set output (bstr "managedStateRoot") (v_hash canonical_root)).

Definition get_state_status (params : value) : io world value :=
  service_id ← lift (required_u32 params (bstr "serviceId"));
  '(context, canonical_root) ← canonical_state_root service_id;
  output ← locked (reads (fun s =>
    let? record := BackendState.get_service s service_id in
    let corrupt := BackendState.is_corrupt s service_id in
    let? state_root := if corrupt then Ok None else let? root := BackendState.current_root s service_id in Ok (Some root) in
    let materialized := bool_decide (state_root = Some canonical_root) in
    let? sequence := BackendState.state_sequence s service_id in
    Ok (v_object
      [(bstr "serviceId", v_num service_id); (bstr "serviceKey", v_hash (sr_service_key record));
       (bstr "stateRoot", null_or v_hash state_root); (bstr "materializedRoot", null_or v_hash state_root);
       (bstr "canonicalRoot", v_hash canonical_root); (bstr "sequence", v_num sequence);
       (bstr "materialized", v_bool materialized); (bstr "synced", v_bool materialized);
       (bstr "status", v_string (if corrupt then bstr "corrupt" else if materialized then bstr "ready" else bstr "not_materialized"))])));
  mret (match context with
        | Some context =>
            v_set (v_set (v_set output (bstr "finalizedBlockHash") (v_hash (fc_block_hash context)))
                     (bstr "context") (v_object (context_fields context)))
              (bstr "finalizedContext") (v_object (context_fields context))
        | None => output
        end).

(** ** Work and transactions *)

(** A service that is not known yet is discovered on the chain. *)
Definition discover_unknown (service_id : Z) (params : value) : io world unit :=
  unknown ← locked (reads (fun s => Ok (negb (is_ok (BackendState.get_service s service_id)))));
  if bool_decide (unknown = true)
  then discover_service (v_object [(bstr "serviceId", v_num service_id);
                                   (bstr "artifactDigest", default v_null (v_get params (bstr "artifactDigest")))]);; mret tt
  else mret tt.

Definition unconfigured : BackendError := BE_Rpc (bstr "work gateway is not configured").

Definition submit_work (params : value) : io world value :=
  service_id ← lift (required_u32 params (bstr "serviceId"));
  code_hash ← lift (required_hash params (bstr "serviceCodeHash"));
  if h_network opts then discover_unknown service_id params;; locked (submit params)
  else
    record ← locked (reads (fun s => BackendState.get_service s service_id));
    ensure (bool_decide (sr_code_hash record = code_hash)) (BE_Rpc (bstr "Service code hash mismatch"));;
    fail unconfigured.

Definition submit_transaction (params : value) : io world value :=
  service_id ← lift (required_u32 params (bstr "serviceId"));
  code_hash ← lift (required_hash params (bstr "serviceCodeHash"));
  ensure (h_network opts) (BE_Rpc (bstr "transaction coordinator is not configured"));;
  discover_unknown service_id params;;
  locked (reads (fun s =>
    let? record := BackendState.get_service s service_id in
    bail_if negb (bool_decide (sr_code_hash record = code_hash)) with BE_CodeHashMismatch ;;
    Ok tt));;
  text ← lift (required_str params (bstr "payloadBase64"));
  action ← lift (decode_base64 (bstr "payloadBase64") text);
  yield cfg;; id ← enqueued service_id action params;
  x ← asked (fun s => transaction s id);
  x ← lift (ok_or x (BE_Rpc (bstr "transaction disappeared from coordinator")));
  mret (v_object
    [(bstr "transactionId", v_string id); (bstr "status", v_string (bstr "queued"));
     (bstr "packageHash", null_or v_hash (lt_package_hash x)); (bstr "itemIndex", v_null);
     (bstr "actionIndex", null_or (fun i => v_num (Z.of_nat i)) (lt_action_index x))]).
(** The fields every answer about a transaction has. *)
Definition transaction_fields (id : bytes) (status : bytes) (package_hash : option bytes) (action_index : option nat)
    (error : value) : list (bytes * value) :=
  [(bstr "transactionId", v_string id); (bstr "status", v_string status);
   (bstr "packageHash", null_or v_hash package_hash); (bstr "itemIndex", v_null);
   (bstr "actionIndex", null_or (fun i => v_num (Z.of_nat i)) action_index); (bstr "executionReceipt", v_null);
   (bstr "error", error)].

(** What the coordinator alone knows. *)
Definition settled_answer (id : bytes) (x : LogicalTransaction) : option value :=
  let answer status error info :=
    Some (v_object (transaction_fields id status (lt_package_hash x) (lt_action_index x) error ++ [(bstr "errorInfo", info)])) in
  if lt_submission_unknown x
  then answer (bstr "submission_unknown") (null_or v_string (lt_error x)) (default v_null (lt_error_info x))
  else match lt_error x with
       | Some error => answer (bstr "failed") (v_string error) (default v_null (lt_error_info x))
       | None => if bool_decide (is_Some (lt_package_hash x)) then None else answer (bstr "queued") v_null v_null
       end.

(** What the best chain says about a prediction. *)
Inductive best_chain := BestIncluded (context : FinalizedContextV1) | Reorged | BestNotIncluded | BestUnknown.

Definition look_at_best (id : bytes) (x : LogicalTransaction) (package_hash : bytes) : io world best_chain :=
  prediction ← locked (reads (fun s => Ok (BackendState.prediction s (lt_service_id x) package_hash)));
  match prediction with
  | None => mret BestUnknown
  | Some prediction =>
      r ← caught (context ← network n_best_context;
                  root ← commitment_at context (lt_service_id x);
                  mret (context, root));
      match r with
      | Err _ => mret BestUnknown
      | Ok (context, root) =>
          if bool_decide (root = RefineOutput.new_root prediction)
          then called (MarkBestIncluded id);; mret (BestIncluded context)
          else if bool_decide (root = RefineOutput.parent_root prediction)
          then mret (if lt_best_included x then Reorged else BestNotIncluded)
          else mret BestUnknown
      end
  end.

(** The state of the work as the client sees it. Work that is voted on, accepted,
    imported without receipts or in a state not listed is reported; imported work
    with receipts is final already. *)
Definition shown_status (work_status : bytes) (reorged included : bool) : bytes :=
  if reorged then bstr "reorged"
  else if included then bstr "imported"
  else if bool_decide (work_status = bstr "insufficient_workers") || bool_decide (work_status = bstr "pending") then bstr "packaged"
  else if bool_decide (work_status = bstr "awaiting_candidate") then bstr "refining"
  else if bool_decide (work_status = bstr "failed") then bstr "failed"
  else bstr "reported".

Definition get_or_null (v : value) (name : bytes) : value := default v_null (v_get v name).
Definition is_array (o : option value) : bool :=
  match o with Some v => bool_decide (is_Some (v_as_array v)) | None => false end.

Definition status_answer (id : bytes) (x : LogicalTransaction) (package_hash : bytes) (result : value) (finalized : bool)
    (best : option best_chain) : value :=
  let work_status := default [] (v_get result (bstr "status") ≫= v_as_str) in
  let reorged := match best with Some Reorged => true | _ => false end in
  let included := match best with Some (BestIncluded _) => true | _ => finalized end in
  let unknown := match best with Some BestUnknown => true | _ => false end in
  let output := v_object
    [(bstr "transactionId", v_string id); (bstr "status", v_string (shown_status work_status reorged included));
     (bstr "packageHash", v_hash package_hash); (bstr "itemIndex", get_or_null result (bstr "itemIndex"));
     (bstr "actionIndex", null_or (fun i => v_num (Z.of_nat i)) (lt_action_index x));
     (bstr "executionReceipt", match v_get result (bstr "executionReceipt") with
                               | Some receipt => receipt
                               | None => get_or_null result (bstr "receipt")
                               end);
     (bstr "error", if reorged then v_string (bstr "TRANSACTION_REORGED") else get_or_null result (bstr "error"));
     (bstr "bestChainStatus", v_string (if included then bstr "included" else if unknown then bstr "unknown" else bstr "not_included"));
     (bstr "finalized", v_bool finalized)] in
  let output := match best with
                | Some (BestIncluded context) => v_set output (bstr "bestContext") (typed_context (bstr "best") context)
                | _ => output
                end in
  match v_get result (bstr "actionReceipts") with
  | Some receipts => v_set output (bstr "actionReceipts") receipts
  | None => output
  end.

(** The status of the work and whether it is final, under the lock of the state. *)
Definition work_locked (key : WorkKey) : io engine (value * bool) :=
  result ← status (v_object [(bstr "serviceId", v_num (wk_service_id key)); (bstr "packageHash", v_hash (wk_package_hash key))]);
  finalized ← reads (fun s => Ok (BackendState.is_finalized s key));
  mret (result, finalized).

Definition packaged_answer (id : bytes) (x : LogicalTransaction) (package_hash : bytes) : value :=
  v_object (transaction_fields id (bstr "packaged") (Some package_hash) (lt_action_index x) v_null).

Definition transaction_status (params : value) : io world value :=
  id ← lift (required_str params (bstr "transactionId"));
  x ← asked (fun s => transaction s id);
  x ← lift (ok_or x BE_WorkNotFound);
  match settled_answer id x, lt_package_hash x with
  | Some answer, _ => mret answer
  | None, None => fail BE_WorkNotFound (* there is an answer when there is no package *)
  | None, Some package_hash =>
      if negb (h_network opts) then fail unconfigured
      else
        r ← caught (locked (work_locked (mkWorkKey (lt_service_id x) package_hash)));
        match r with
        | Err BE_WorkNotFound => mret (packaged_answer id x package_hash)
        | Err error => fail error
        | Ok (result, finalized_work) =>
            match lt_batch_id x with
            | Some batch_id =>
                called (EmitDiagnostics (h_diagnostics opts) batch_id);;
                if bool_decide (finalized_work = true) then called (MarkMaterialized batch_id) else mret tt
            | None => mret tt
            end;;
            let finalized := is_array (v_get result (bstr "actionReceipts")) in
            let imported := bool_decide (v_get result (bstr "status") ≫= v_as_str = Some (bstr "imported")) in
            best ← (if negb finalized && (imported || lt_best_included x)
                    then b ← look_at_best id x package_hash; mret (Some b)
                    else mret None);
            mret (status_answer id x package_hash result finalized best)
        end
  end.

Definition work_status (params : value) : io world value :=
  match v_get params (bstr "serviceId") with
  | None => mret tt
  | Some v =>
      service_id ← lift (ok_or (as_u32 v) (BE_Rpc (bstr "serviceId must be a u32")));
      locked (reads (fun s => let? _ := BackendState.get_service s service_id in Ok tt))
  end;;
  if h_network opts then lift (optional_hash params (bstr "packageHash"));; locked (status params)
  else fail unconfigured.

Definition get_prediction (params : value) : io world value :=
  service_id ← lift (required_u32 params (bstr "serviceId"));
  package_hash ← lift (required_hash params (bstr "packageHash"));
  locked (reads (fun s =>
    let? output := ok_or (BackendState.prediction s service_id package_hash) (BE_Rpc (bstr "prediction not found")) in
    Ok (v_object
      [(bstr "serviceId", v_num service_id); (bstr "packageHash", v_hash package_hash);
       (bstr "parentRoot", v_hash (RefineOutput.parent_root output)); (bstr "newRoot", v_hash (RefineOutput.new_root output));
       (bstr "externalDependencies", v_array (map (fun d => v_object
          [(bstr "serviceId", v_num (Dependency.service_id d)); (bstr "stateRoot", v_hash (Dependency.state_root d))])
          (RefineOutput.external_dependencies output)));
       (bstr "validUntil", null_or v_num (RefineOutput.transition_valid_until output))]))).

(** ** Diagnostics *)

Definition queued_json (item : QueuedTransactionSnapshot) : value :=
  v_object
    [(bstr "transactionId", v_string (qs_transaction_id item)); (bstr "serviceId", v_num (qs_service_id item));
     (bstr "senderKeyHash", null_or (fun sender => v_hash (blake2_256 sender)) (qs_sender item));
     (bstr "nonce", null_or v_num (qs_nonce item)); (bstr "validUntil", null_or v_num (qs_valid_until item));
     (bstr "arrivalSequence", v_num (qs_arrival_sequence item)); (bstr "ageMs", v_num (qs_age item))].

Definition batch_fields (batch : InFlightBatchSnapshot) : list (bytes * value) :=
  [(bstr "packageHash", null_or v_hash (fs_package_hash batch));
   (bstr "transactionIds", v_array (map v_string (fs_logical_transaction_ids batch)));
   (bstr "materialized", v_bool (fs_materialized batch)); (bstr "ageMs", v_num (fs_age batch))].

Definition in_flight_json (batch : InFlightBatchSnapshot) : value :=
  v_object ([(bstr "batchId", v_string (fs_batch_id batch)); (bstr "serviceId", v_num (fs_service_id batch))] ++ batch_fields batch).

Definition max_age (items : list QueuedTransactionSnapshot) : option Z :=
  match map qs_age items with
  | [] => None
  | age :: ages => Some (fold_left Z.max ages age)
  end.

Definition lane_json (queued : list QueuedTransactionSnapshot) (in_flight : list InFlightBatchSnapshot) (id : Z) : io world value :=
  flushing ← asked (is_flushing id);
  let items := List.filter (fun item => qs_service_id item =? id) queued in
  mret (v_object
    [(bstr "serviceId", v_num id); (bstr "queuedCount", v_num (blen items)); (bstr "oldestQueuedAgeMs", null_or v_num (max_age items));
     (bstr "flushing", v_bool flushing);
     (bstr "inFlight", null_or (fun batch => v_object ((bstr "batchId", v_string (fs_batch_id batch)) :: batch_fields batch))
                         (List.find (fun batch => fs_service_id batch =? id) in_flight))]).

Definition coordinator_status (params : value) : io world value :=
  ensure (admin params) (BE_Rpc (bstr "coordinator diagnostics require the backend control-plane token"));;
  service_id ← match v_get params (bstr "serviceId") with
               | None => mret None
               | Some v => id ← lift (ok_or (as_u32 v) (BE_Rpc (bstr "serviceId must be a u32"))); mret (Some id)
               end;
  yield cfg;; now ← clock; queued ← ask_coordinator (queued_transactions service_id now);
  yield cfg;; now ← clock; in_flight ← ask_coordinator (in_flight_batches now);
  let in_flight := List.filter (fun batch => match service_id with Some id => id =? fs_service_id batch | None => true end) in_flight in
  let ids := match service_id with
             | Some id => [id]
             | None => dedup (sort_by_key (fun id => id) (map qs_service_id queued ++ map fs_service_id in_flight))
             end in
  services ← io_map (lane_json queued in_flight) ids;
  mret (v_object [(bstr "services", v_array services); (bstr "queued", v_array (map queued_json queued));
                  (bstr "inFlight", v_array (map in_flight_json in_flight))]).

(** ** [handle] *)

Inductive method :=
| ChainGetBlockHash | GetFinalizedContext | GetBestContext | GetServiceStorageAt | GetServiceInfoAt | GetCapabilities
| ListServices | RegisterService | GetService | PutArtifact | SubmitWork | GetWorkStatus | SubmitTransaction
| GetTransactionStatus | GetCoordinatorStatus | GetManagedState | GetState | GetStateProof | GetServiceStateStatus | GetPrediction.

Definition methods : list (bytes * method) :=
  [(bstr "chain_getBlockHash", ChainGetBlockHash); (bstr "minijam_getFinalizedContext", GetFinalizedContext);
   (bstr "minijam_getBestContext", GetBestContext); (bstr "minijam_getServiceStorageAt", GetServiceStorageAt);
   (bstr "minijam_getServiceInfoAt", GetServiceInfoAt); (bstr "jamscript_getCapabilitiesV1", GetCapabilities);
   (bstr "jamscript_listServicesV1", ListServices); (bstr "jamscript_registerServiceV1", RegisterService);
   (bstr "jamscript_getServiceV1", GetService); (bstr "jamscript_putArtifactV1", PutArtifact);
   (bstr "minijam_submitWorkV1", SubmitWork); (bstr "minijam_getWorkStatusV1", GetWorkStatus);
   (bstr "jamscript_submitTransactionV1", SubmitTransaction); (bstr "jamscript_getTransactionStatusV1", GetTransactionStatus);
   (bstr "jamscript_getCoordinatorStatusV1", GetCoordinatorStatus); (bstr "minijam_getManagedStateV1", GetManagedState);
   (bstr "jamscript_getStateV1", GetState); (bstr "jamscript_getStateProofV1", GetStateProof);
   (bstr "jamscript_getServiceStateStatusV1", GetServiceStateStatus); (bstr "jamscript_getPredictionV1", GetPrediction)].

Definition perform_method (m : method) (params : value) : io world value :=
  match m with
  | ChainGetBlockHash => chain_get_block_hash params
  | GetFinalizedContext => finalized_context
  | GetBestContext => best_context
  | GetServiceStorageAt => service_storage_at params
  | GetServiceInfoAt => service_info_at params
  | GetCapabilities => mret capabilities
  | ListServices => list_services
  | RegisterService => register_service params
  | GetService => get_service params
  | PutArtifact => put_artifact params
  | SubmitWork => submit_work params
  | GetWorkStatus => work_status params
  | SubmitTransaction => submit_transaction params
  | GetTransactionStatus => transaction_status params
  | GetCoordinatorStatus => coordinator_status params
  | GetManagedState => get_managed_state params
  | GetState => get_state params false
  | GetStateProof => get_state params true
  | GetServiceStateStatus => get_state_status params
  | GetPrediction => get_prediction params
  end.

Definition handle (name : bytes) (params : value) : io world value :=
  match assoc methods name with
  | Some m => perform_method m params
  | None => fail (BE_Rpc (bstr "method not found: " ++ name))
  end.

(** A request that could be read is always answered. *)
Definition handle_request (id : value) (name : bytes) (params : value) : io world value :=
  r ← caught (handle name params); mret (json_response id r).
End Ops.
End Handler.
