(* ===== verification/Http.v ===== *)
(** * The HTTP server of the backend

    [read_http_request], [handle_json] and [serve_connection]. A connection is the
    sequence of the results of its reads; what is written is the answer. Whatever
    pieces a request arrives in, the same request is read. *)

From S2P Require Import Prelude Ordering Reader Wire ServiceKeys StateView StateDiff Records Witness RefineInput Dependencies RefineOutput Ownership Crypto Actions ActionsV2 GuestMemory State Overlays Provider BackendBase Registry Envelope Database BackendState Selection Codec Text JsonValue Coordinator CoordinatorInvariant Engine Dispatcher Gateway Deployment Handler.

(** The text of a [Utf8Error]: where the valid text ends, and how many bytes follow
    that belong to no character, unless the text only ended too early. *)
Definition broken_bytes (rest : bytes) : option Z :=
  match rest with
  | c :: s1 =>
      if between 194 223 c then match s1 with [] => None | _ => Some 1 end
      else if between 224 239 c then
        match s1 with
        | [] => None
        | d :: s2 => if second_of_three c d then match s2 with [] => None | _ => Some 2 end else Some 1
        end
      else if between 240 244 c then
        match s1 with
        | [] => None
        | d :: s2 =>
            if second_of_four c d then
              match s2 with
              | [] => None
              | e :: s3 => if is_cont e then match s3 with [] => None | _ => Some 3 end else Some 2
              end
            else Some 1
        end
      else Some 1
  | [] => None
  end.
Fixpoint valid_up_to (l : list (option bytes)) : nat :=
  match l with
  | Some char :: l' => (length char + valid_up_to l')%nat
  | _ => 0
  end.
Definition utf8_error_text (s : bytes) : bytes :=
  let index := valid_up_to (utf8_chunks s) in
  match broken_bytes (drop index s) with
  | Some n => bstr "invalid utf-8 sequence of " ++ decimal n ++ bstr " bytes from index " ++ decimal (Z.of_nat index)
  | None => bstr "incomplete utf-8 byte sequence from index " ++ decimal (Z.of_nat index)
  end.

Module Http.

(** What a read of the connection answers; no bytes are its end. *)
Notation reads := (list (result bytes bytes)).

(** [MAX_HTTP_BYTES] and [MAX_HTTP_HEADER_BYTES]; a read gives at most [BUFFER] bytes. *)
Definition MAX_HTTP_BYTES : Z := 33554432.
Definition MAX_HTTP_HEADER_BYTES : Z := 65536.
Definition BUFFER : Z := 8192.

Fixpoint find_bytes (needle haystack : bytes) : option nat :=
  match strip_prefix needle haystack with
  | Some _ => Some 0%nat
  | None => match haystack with [] => None | _ :: rest => S <$> find_bytes needle rest end
  end.
Definition CRLF : bytes := [x0d; x0a].
Definition TERMINATOR : bytes := CRLF ++ CRLF.

(** One read, which fails at the end of the connection. *)
Definition read_more (truncated : bytes) (r : reads) : result (bytes * reads) BackendError :=
  match r with
  | [] | Ok [] :: _ => Err (BE_Rpc truncated)
  | Ok chunk :: r' => Ok (chunk, r')
  | Err error :: _ => Err (BE_Rpc error)
  end.

(** The first loop: what has been read, and where the headers end. *)
Fixpoint read_headers (received : bytes) (r : reads) : result (bytes * nat * reads) BackendError :=
  match r with
  | [] => Err (BE_Rpc (bstr "truncated HTTP request"))
  | c :: r' =>
      let? '(chunk, _) := read_more (bstr "truncated HTTP request") [c] in
      let received := received ++ chunk in
      bail_if blen received >? MAX_HTTP_BYTES with BE_Rpc (bstr "HTTP request too large") ;;
      match find_bytes TERMINATOR received with
      | Some index =>
          let header_end := (index + 4)%nat in
          bail_if Z.of_nat header_end >? MAX_HTTP_HEADER_BYTES with BE_Rpc (bstr "HTTP headers too large") ;;
          Ok (received, header_end, r')
      | None => read_headers received r'
      end
  end.

(** The headers the server uses. *)
Record headers := mkHeaders { hd_content_length : option Z; hd_origin : option bytes }.

Definition read_content_length (name v : bytes) (h : headers) : result headers BackendError :=
  if eq_ignore_ascii_case name (bstr "content-length") then
    let? parsed := ok_or (parse_unsigned USIZE_MAX (trim v)) (BE_Rpc (bstr "invalid Content-Length")) in
    bail_if bool_decide (is_Some (hd_content_length h)) with BE_Rpc (bstr "duplicate Content-Length") ;;
    Ok (mkHeaders (Some parsed) (hd_origin h))
  else Ok h.
Definition read_origin (name v : bytes) (h : headers) : result headers BackendError :=
  if eq_ignore_ascii_case name (bstr "origin") then
    bail_if bool_decide (is_Some (hd_origin h)) with BE_Rpc (bstr "duplicate Origin") ;;
    Ok (mkHeaders (hd_content_length h) (Some (trim v)))
  else Ok h.
Definition read_line (h : headers) (line : bytes) : result headers BackendError :=
  if bool_decide (line = []) then Ok h
  else
    let? '(name, v) := ok_or (split_once (bstr ":") line) (BE_Rpc (bstr "malformed HTTP header")) in
    let? h := read_content_length name v h in
    read_origin name v h.

(** Method, path and headers of a request. *)
Definition parse_head (head : bytes) : result (bytes * bytes * headers) BackendError :=
  bail_if negb (utf8_valid head) with BE_Rpc (utf8_error_text head) ;;
  match split_on CRLF head with
  | [] => Err (BE_Rpc (bstr "missing HTTP request line"))
  | request_line :: lines =>
      let parts := split_whitespace request_line in
      let? method := ok_or (parts !! 0%nat) (BE_Rpc (bstr "missing HTTP method")) in
      let? path := ok_or (parts !! 1%nat) (BE_Rpc (bstr "missing HTTP path")) in
      let? h := rfold read_line (mkHeaders None None) lines in
      Ok (method, path, h)
  end.

(** How long the body is. *)
Definition body_length (header_end : nat) (h : headers) : result Z BackendError :=
  let length := default 0 (hd_content_length h) in
  bail_if (length >? MAX_HTTP_BYTES) || bool_decide (checked_add USIZE_MAX (Z.of_nat header_end) length = None)
    with BE_Rpc (bstr "HTTP request too large") ;;
  Ok length.

(** The second loop: everything up to the end of the body. *)
Fixpoint read_body (wanted : Z) (received : bytes) (r : reads) : result bytes BackendError :=
  if wanted <=? blen received then Ok received
  else match r with
       | [] => Err (BE_Rpc (bstr "truncated HTTP body"))
       | c :: r' => let? '(chunk, _) := read_more (bstr "truncated HTTP body") [c] in read_body wanted (received ++ chunk) r'
       end.

Record request := mkRequest { rq_method : bytes; rq_path : bytes; rq_body : bytes; rq_origin : option bytes }.

Definition read_http_request (r : reads) : result request BackendError :=
  let? '(received, header_end, r) := read_headers [] r in
  let? '(method, path, h) := parse_head (take header_end received) in
  let? length := body_length header_end h in
  let? received := read_body (Z.of_nat header_end + length) received r in
  Ok (mkRequest method path (take (Z.to_nat length) (drop header_end received)) (hd_origin h)).

(** ** Requests that arrive in pieces *)

(** A request read from all its bytes at once. *)
Definition read_complete (whole : bytes) : result request BackendError :=
  match find_bytes TERMINATOR whole with
  | None => Err (BE_Rpc (bstr "truncated HTTP request"))
  | Some index =>
      let header_end := (index + 4)%nat in
      bail_if Z.of_nat header_end >? MAX_HTTP_HEADER_BYTES with BE_Rpc (bstr "HTTP headers too large") ;;
      let? '(method, path, h) := parse_head (take header_end whole) in
      let? length := body_length header_end h in
      bail_if negb (Z.of_nat header_end + length <=? blen whole) with BE_Rpc (bstr "truncated HTTP body") ;;
      Ok (mkRequest method path (take (Z.to_nat length) (drop header_end whole)) (hd_origin h))
  end.

(** The reads of a connection that delivers these bytes and is then closed. *)
Definition delivers (r : reads) (whole : bytes) : Prop :=
  exists chunks, r = map Ok chunks /\ Forall (fun chunk => chunk <> []) chunks /\ concat chunks = whole.

Lemma strip_prefix_app pattern s t rest : strip_prefix pattern s = Some rest -> strip_prefix pattern (s ++ t) = Some (rest ++ t).
Proof.
  revert s. induction pattern as [|p pattern IH]; intros s; [by intros [= ->]|]. destruct s as [|c s]; [done|]. simpl. case_bool_decide; [apply IH|done].
Qed.
Lemma strip_prefix_short pattern s t : strip_prefix pattern s = None -> (length pattern <= length s)%nat -> strip_prefix pattern (s ++ t) = None.
Proof.
  revert s. induction pattern as [|p pattern IH]; intros s; [done|]. destruct s as [|c s]; simpl; [lia|]. case_bool_decide; [|done].
  intros Hs Hl. apply IH; [done|lia].
Qed.
Lemma strip_prefix_length pattern s rest : strip_prefix pattern s = Some rest -> (length s = length pattern + length rest)%nat.
Proof.
  revert s. induction pattern as [|p pattern IH]; intros [|c s]; simpl; try (by intros [= <-]). case_bool_decide; [|done].
  intros Hs%IH. lia.
Qed.

(** The first occurrence stays the first when more bytes arrive. *)
Lemma find_bytes_app needle s t i : find_bytes needle s = Some i -> find_bytes needle (s ++ t) = Some i.
Proof.
  revert i. induction s as [|c s IH]; intros i; cbn [find_bytes app].
  - destruct (strip_prefix needle []) as [rest|] eqn:Hp; [|done]. intros [= <-]. apply (strip_prefix_app _ _ t) in Hp. cbn [app] in Hp.
    destruct t; simpl; by rewrite Hp.
  - destruct (strip_prefix needle (c :: s)) as [rest|] eqn:Hp; [intros [= <-]; apply (strip_prefix_app _ _ t) in Hp; cbn [app] in Hp; by rewrite Hp|].
    intros (j & Hj & ->)%fmap_Some. pose proof (IH _ Hj) as IHj.
    assert (length needle <= length (c :: s))%nat as Hl.
    { clear IH IHj Hp. revert j Hj. induction s as [|d s IH]; intros j; cbn [find_bytes].
      - destruct (strip_prefix needle []) as [rest|] eqn:Hp; [|done]. intros _. apply strip_prefix_length in Hp. simpl in *. lia.
      - destruct (strip_prefix needle (d :: s)) as [rest|] eqn:Hp; [intros _; apply strip_prefix_length in Hp; simpl in *; lia|].
        intros (k & Hk & _)%fmap_Some. apply IH in Hk. simpl in *. lia. }
    change (c :: s ++ t) with ((c :: s) ++ t). rewrite (strip_prefix_short _ _ _ Hp Hl). by rewrite IHj.
Qed.
Lemma find_bytes_bound needle s i : find_bytes needle s = Some i -> (i + length needle <= length s)%nat.
Proof.
  revert i. induction s as [|c s IH]; intros i; cbn [find_bytes].
  - destruct (strip_prefix needle []) as [rest|] eqn:Hp; [|done]. intros [= <-]. apply strip_prefix_length in Hp. simpl in *. lia.
  - destruct (strip_prefix needle (c :: s)) as [rest|] eqn:Hp; [intros [= <-]; apply strip_prefix_length in Hp; simpl in *; lia|].
    intros (j & Hj%IH & ->)%fmap_Some. simpl. lia.
Qed.

(** The first loop stops with the terminator at its place in the whole. *)
Lemma read_headers_whole chunks : forall received,
  Forall (fun chunk => chunk <> []) chunks -> find_bytes TERMINATOR received = None ->
  blen (received ++ concat chunks) <= MAX_HTTP_BYTES ->
  let whole := received ++ concat chunks in
  match find_bytes TERMINATOR whole with
  | None => read_headers received (map Ok chunks) = Err (BE_Rpc (bstr "truncated HTTP request"))
  | Some index =>
      if Z.of_nat (index + 4) >? MAX_HTTP_HEADER_BYTES
      then read_headers received (map Ok chunks) = Err (BE_Rpc (bstr "HTTP headers too large"))
      else exists rest, read_headers received (map Ok chunks)
             = Ok (received ++ concat (take (length chunks - length rest) chunks), (index + 4)%nat, map Ok rest)
           /\ chunks = take (length chunks - length rest) chunks ++ rest
           /\ (index + 4 <= length (received ++ concat (take (length chunks - length rest) chunks)))%nat
  end.
Proof.
  induction chunks as [|chunk chunks IH]; intros received Hne Hno Hmax; cbv zeta; cbn [concat map read_headers]; [by rewrite app_nil_r, Hno|].
  apply Forall_cons in Hne as [Hc Hne]. cbn [concat] in Hmax. rewrite app_assoc in Hmax |- *.
  assert (read_more (bstr "truncated HTTP request") [Ok chunk] = Ok (chunk, [])) as -> by (by destruct chunk). cbn [rbind].
  assert (blen (received ++ chunk) >? MAX_HTTP_BYTES = false) as ->.
  { rewrite blen_app in Hmax. pose proof (blen_nonneg (concat chunks)). rewrite Z.gtb_ltb. apply Z.ltb_ge. lia. }
  destruct (find_bytes TERMINATOR (received ++ chunk)) as [index|] eqn:Hf.
  - rewrite (find_bytes_app _ _ (concat chunks) _ Hf). destruct (Z.of_nat (index + 4) >? MAX_HTTP_HEADER_BYTES); [done|].
    exists chunks. cbn [length]. replace (S (length chunks) - length chunks)%nat with 1%nat by lia. cbn [take concat]. rewrite app_nil_r.
    split; [done|]. split; [done|]. by apply find_bytes_bound in Hf.
  - specialize (IH (received ++ chunk) Hne Hf Hmax). cbv zeta in IH.
    destruct (find_bytes TERMINATOR ((received ++ chunk) ++ concat chunks)) as [index|]; [|done].
    destruct (Z.of_nat (index + 4) >? MAX_HTTP_HEADER_BYTES); [done|]. destruct IH as (rest & IH & Hchunks & Hlen). exists rest.
    assert (length rest <= length chunks)%nat as Hrest by (rewrite Hchunks, length_app; lia).
    cbn [length]. replace (S (length chunks) - length rest)%nat with (S (length chunks - length rest)) by lia. cbn [take concat].
    rewrite app_assoc. split; [done|]. split; [by rewrite Hchunks at 1|done].
Qed.

(** The second loop stops with enough of the bytes, or at the end. *)
Lemma read_body_whole wanted chunks : forall received,
  Forall (fun chunk => chunk <> []) chunks ->
  if wanted <=? blen (received ++ concat chunks)
  then exists read rest, concat chunks = read ++ rest /\ read_body wanted received (map Ok chunks) = Ok (received ++ read)
         /\ wanted <= blen (received ++ read)
  else read_body wanted received (map Ok chunks) = Err (BE_Rpc (bstr "truncated HTTP body")).
Proof.
  induction chunks as [|chunk chunks IH]; intros received Hne; cbn [concat map read_body].
  - rewrite app_nil_r. destruct (Z.leb_spec wanted (blen received)); [|done]. exists [], []. by rewrite !app_nil_r.
  - apply Forall_cons in Hne as [Hc Hne]. destruct (Z.leb_spec wanted (blen received)) as [Hw|Hw].
    + assert (wanted <=? blen (received ++ chunk ++ concat chunks) = true) as ->.
      { apply Z.leb_le. rewrite blen_app. pose proof (blen_nonneg (chunk ++ concat chunks)). lia. }
      exists [], (chunk ++ concat chunks). rewrite app_nil_r. done.
    + assert (read_more (bstr "truncated HTTP body") [Ok chunk] = Ok (chunk, [])) as -> by (by destruct chunk). cbn [rbind].
      specialize (IH (received ++ chunk) Hne). rewrite <- app_assoc in IH. destruct (wanted <=? blen (received ++ chunk ++ concat chunks)); [|done].
      destruct IH as (read & rest & Hsplit & Hread & Hl). exists (chunk ++ read), rest. rewrite Hsplit, <- !app_assoc in *. done.
Qed.

Lemma take_app_prefix {A} n (l l' : list A) : (n <= length l)%nat -> take n (l ++ l') = take n l.
Proof. intros Hn. rewrite take_app. replace (n - length l)%nat with 0%nat by lia. by rewrite take_0, app_nil_r. Qed.
Lemma slice_app_prefix {A} n k (l l' : list A) : (n + k <= length l)%nat -> take k (drop n (l ++ l')) = take k (drop n l).
Proof.
  intros Hl. rewrite drop_app. replace (n - length l)%nat with 0%nat by lia. rewrite drop_0. apply take_app_prefix. rewrite length_drop. lia.
Qed.

(** C22: the request that is read does not depend on the pieces it arrives in: up to
    the size limit, it is, errors included, the one read from all the bytes that
    arrive before the connection is closed. *)
Theorem http_request_in_pieces (r : reads) (whole : bytes) :
  delivers r whole -> blen whole <= MAX_HTTP_BYTES -> read_http_request r = read_complete whole.
Proof.
  intros (chunks & -> & Hne & <-) Hmax. unfold read_http_request, read_complete.
  pose proof (read_headers_whole chunks [] Hne eq_refl Hmax) as Hh. cbv zeta in Hh. cbn [app] in Hh.
  destruct (find_bytes TERMINATOR (concat chunks)) as [index|]; [|by rewrite Hh]. cbv zeta. destruct (_ >? MAX_HTTP_HEADER_BYTES); [by rewrite Hh|].
  destruct Hh as (rest & -> & Hchunks & Hlen). set (first := take (length chunks - length rest) chunks) in *. cbn [rbind].
  rewrite Hchunks, concat_app, take_app_prefix by done. destruct (parse_head (take (index + 4) (concat first))) as [[[method path] h]|]; [|done].
  cbn [rbind]. destruct (body_length (index + 4) h) as [length|] eqn:Hbody; [|done]. cbn [rbind].
  assert (Forall (fun chunk => chunk <> []) rest) as Hne' by (rewrite Hchunks in Hne; by apply Forall_app in Hne as [_ Hr]).
  pose proof (read_body_whole (Z.of_nat (index + 4) + length) rest (concat first) Hne') as Hb.
  destruct (Z.of_nat (index + 4) + length <=? blen (concat first ++ concat rest)); [|by rewrite Hb].
  destruct Hb as (read & tail & Hsplit & -> & Hwanted). cbn [rbind negb]. do 2 f_equal. rewrite Hsplit, app_assoc. symmetry.
  apply slice_app_prefix. unfold blen in Hwanted. rewrite length_app in *. lia.
Qed.

(** ** Answers *)

(** The request of a JSON-RPC body: its identifier, method and parameters. *)
Class RpcRequests `{Json} := parse_request : bytes -> result (value * bytes * value) bytes.

(** [store.root()] and whether it is a directory. *)
Class ArtifactRoot (N : Type) := artifact_root : N -> option bool.

Section Server.
Context `{Blake2} `{Trie} `{RocksDb} `{SerdeJson} `{Json} {N : Type} `{!BackendNetwork N} `{ArtifactStore N} `{!ArtifactRoot N} `{Polkavm}.
Context `{PayloadBase64} `{ErrorText} `{ScaleBytes} `{!JsonTexts} `{!RpcRequests}.
Context (cfg : Coordinator.config) (opts : Handler.options).
Import Dispatcher Answers Handler.
Notation world := (Dispatcher.world (P := PvmApplication.t) (N := N)).

(** The answer to a body that is no request. *)
Definition invalid_request (error : bytes) : value :=
  v_object [(bstr "jsonrpc", v_string (bstr "2.0")); (bstr "id", v_null);
            (bstr "error", v_object [(bstr "code", v_num (-32600)); (bstr "message", v_string error)])].

Definition handle_json (body : bytes) : io world bytes :=
  match parse_request body with
  | Ok (id, method, params) => response ← handle_request cfg opts id method params; mret (json_print response)
  | Err error => mret (json_print (invalid_request error))
  end.

Definition readiness : io world unit :=
  locked cfg (fun e => (match artifact_root (BackendEngine.e_net e) with
                        | Some false => Err (BE_ArtifactStore (bstr "artifact store is unavailable"))
                        | _ => Ok tt
                        end, e));;
  if h_network opts then network cfg n_finalized_context;; mret tt else mret tt.

(** The origin a browser is told to accept. *)
Definition allowed_origin (cors : list bytes) (origin : option bytes) : bytes :=
  let wildcard := existsb (fun allowed => bool_decide (allowed = bstr "*")) cors in
  match origin with
  | Some o =>
      if existsb (fun allowed => bool_decide (allowed = bstr "*") || bool_decide (allowed = o)) cors then o
      else if wildcard then bstr "*" else []
  | None => if wildcard then bstr "*" else []
  end.

Definition READY : bytes := [x7b; x22] ++ bstr "status" ++ [x22; x3a; x22] ++ bstr "ready" ++ [x22; x7d].

(** Status and body of the answer to a request. *)
Definition respond (rq : request) : io world (bytes * bytes) :=
  let is_get := bool_decide (rq_method rq = bstr "GET") in
  let at_ path := bool_decide (rq_path rq = bstr path) in
  if bool_decide (rq_method rq = bstr "OPTIONS") then mret (bstr "204 No Content", [])
  else if is_get && (at_ "/healthz" || at_ "/health/ready") then mret (bstr "200 OK", READY)
  else if is_get && at_ "/readinessz" then
    r ← caught readiness;
    mret (match r with
          | Ok _ => (bstr "200 OK", READY)
          | Err error => (bstr "503 Service Unavailable",
                          json_print (v_object [(bstr "status", v_string (bstr "not_ready")); (bstr "error", rpc_error error)]))
          end)
  else if bool_decide (rq_method rq = bstr "POST") && at_ "/" then
    body ← handle_json (rq_body rq); mret (bstr "200 OK", body)
  else mret (bstr "404 Not Found", bstr "not found").

Definition response_text (origin status body : bytes) : bytes :=
  bstr "HTTP/1.1 " ++ status ++ CRLF ++ bstr "content-type: application/json" ++ CRLF
  ++ bstr "access-control-allow-origin: " ++ origin ++ CRLF
  ++ bstr "access-control-allow-methods: GET, POST, OPTIONS" ++ CRLF
  ++ bstr "access-control-allow-headers: content-type, authorization" ++ CRLF
  ++ bstr "content-length: " ++ decimal (blen body) ++ CRLF ++ bstr "connection: close" ++ CRLF ++ CRLF ++ body.

(** What is written on a connection. *)
Definition serve_connection (cors : list bytes) (r : reads) : io world bytes :=
  rq ← lift (read_http_request r);
  '(status, body) ← respond rq;
  mret (response_text (allowed_origin cors (rq_origin rq)) status body).

(** *** A request that was read is answered, and with an origin that may have it *)

Lemma respond_total rq w : exists status body w', respond rq w = (Ok (status, body), w').
Proof.
  unfold respond. destruct (bool_decide (rq_method rq = bstr "OPTIONS")); [by eexists _, _, _|]. destruct (_ && (_ || _)); [by eexists _, _, _|].
  destruct (bool_decide (rq_method rq = bstr "GET") && _); [|destruct (bool_decide (rq_method rq = bstr "POST") && _); [|by eexists _, _, _]].
  - unfold mbind, io_bind, caught. destruct (readiness w) as [[] w1]; by eexists _, _, _.
  - unfold handle_json. destruct (parse_request (rq_body rq)) as [[[id method] params]|]; [|by eexists _, _, _].
    unfold handle_request, mbind, io_bind, caught. destruct (handle cfg opts method params w) as [r w1]. by eexists _, _, _.
Qed.

Lemma allowed_origin_spec cors origin :
  let o := allowed_origin cors origin in
  o = [] \/ (o = bstr "*" /\ bstr "*" ∈ cors) \/ (origin = Some o /\ (o ∈ cors \/ bstr "*" ∈ cors)).
Proof.
  assert (existsb (fun allowed => bool_decide (allowed = bstr "*")) cors = true -> bstr "*" ∈ cors) as Hw.
  { intros (a & Ha%list_elem_of_In & Heq%bool_decide_eq_true)%existsb_exists. by subst a. }
  unfold allowed_origin. destruct origin as [o|]; [|destruct (existsb _ cors) eqn:He; auto]. destruct (existsb (fun allowed => _ || _) cors) eqn:He; [|destruct (existsb _ cors) eqn:He'; auto].
  right. right. split; [done|]. apply existsb_exists in He as (a & Ha%list_elem_of_In & Ho%orb_prop).
  destruct Ho as [Ho%bool_decide_eq_true|Ho%bool_decide_eq_true]; subst a; auto.
Qed.
End Server.

(** What is read from the example of a request, in three pieces. *)
Definition example_request : bytes :=
  bstr "POST / HTTP/1.1" ++ CRLF ++ bstr "Content-Length: 2" ++ CRLF ++ bstr "Origin:  http://app" ++ CRLF ++ CRLF ++ bstr "{}".
Definition example_pieces : reads := [Ok (take 20 example_request); Ok (take 40 (drop 20 example_request)); Ok (drop 60 example_request)].
End Http.

Lemma http_request_in_pieces_witness :
  Http.read_http_request Http.example_pieces = Ok (Http.mkRequest (bstr "POST") (bstr "/") (bstr "{}") (Some (bstr "http://app"))).
Proof.
  rewrite (Http.http_request_in_pieces Http.example_pieces Http.example_request).
  - vm_compute. reflexivity.
  - exists [take 20 Http.example_request; take 40 (drop 20 Http.example_request); drop 60 Http.example_request].
    split; [reflexivity|]. split; [|vm_compute; reflexivity]. repeat constructor; vm_compute; discriminate.
  - vm_compute. discriminate.
Defined.
