(* ===== verification/HandlerCorrect.v ===== *)
(** * What the requests of the backend guarantee

    Requests run beside the dispatcher and each other. Each of them does no more
    than the critical sections the dispatcher allows for, and, as long as the
    others do the same, moves the state of the backend only by the steps
    [BackendState.step]. *)

From S2P Require Import Prelude Ordering Reader Wire Fields ServiceKeys StateView StateDiff Records Witness RefineInput Dependencies RefineOutput Ownership Crypto Actions ActionsV2 GuestMemory State ModelTrie Overlays Provider BackendBase Registry Envelope Database BackendState Selection JsonValue Coordinator CoordinatorInvariant Engine EngineCorrect Dispatcher DispatcherCorrect Gateway Handler.

(** ** Runs as sections *)

Section Sections.
Context `{Blake2} `{Trie} `{RocksDb} `{SerdeJson} `{Json} {N : Type} `{!BackendNetwork N} `{ArtifactStore N} `{Polkavm}.
Context `{PayloadBase64} `{ErrorText} `{ScaleBytes}.
Context (cfg : Coordinator.config) (opts : Handler.options).
Import Coordinator BackendEngine Dispatcher Answers Handler.
Notation world := (Dispatcher.world (P := PvmApplication.t) (N := N)).

(** The same to everybody: what is shared and what was noted. *)
Definition same_shared (w w' : world) : Prop :=
  w_engine w = w_engine w' /\ w_coordinator w = w_coordinator w' /\ w_clock w = w_clock w' /\ w_readings w = w_readings w'
  /\ w_notes w = w_notes w' /\ w_named w = w_named w'.

Lemma same_shared_refl w : same_shared w w.
Proof. done. Qed.
Lemma same_shared_trans w1 w2 w3 : same_shared w1 w2 -> same_shared w2 w3 -> same_shared w1 w3.
Proof. unfold same_shared. intuition congruence. Qed.

Lemma section_same s w w' : same_shared w w' -> same_shared (run_section cfg w s) (run_section cfg w' s).
Proof.
  destruct w, w'. unfold same_shared. simpl. intros (-> & -> & -> & -> & -> & ->). by destruct s.
Qed.
Lemma sections_same l : forall w w', same_shared w w' -> same_shared (fold_left (run_section cfg) l w) (fold_left (run_section cfg) l w').
Proof. induction l as [|s l IH]; intros w w' Hw; [done|]. by apply IH, section_same. Qed.

(** A computation whose every run is one of sections. *)
Definition sectioned {A} (m : io world A) : Prop :=
  forall w r w', m w = (r, w') -> exists l, same_shared w' (fold_left (run_section cfg) l w).

Lemma sectioned_bind {A B} (m : io world A) (k : A -> io world B) : sectioned m -> (forall a, sectioned (k a)) -> sectioned (m ≫= k).
Proof.
  intros Hm Hk w r w' [(a & w1 & Hw & Hw1)|(e & Hw & _)]%io_bind_inv; [|by eapply Hm].
  destruct (Hm _ _ _ Hw) as [l Hl]. destruct (Hk a _ _ _ Hw1) as [l' Hl']. exists (l ++ l'). rewrite fold_left_app.
  eapply same_shared_trans; [exact Hl'|]. by apply sections_same.
Qed.

Lemma sectioned_none {A} (m : io world A) : (forall w, same_shared (m w).2 w) -> sectioned m.
Proof. intros Hm w r w' Hw. exists []. specialize (Hm w). by rewrite Hw in Hm. Qed.
Lemma sectioned_one {A} (m : io world A) s : (forall w, same_shared (m w).2 (run_section cfg w s)) -> sectioned m.
Proof. intros Hm w r w' Hw. exists [s]. specialize (Hm w). by rewrite Hw in Hm. Qed.

Lemma sectioned_ret {A} (a : A) : sectioned (mret a).
Proof. by apply sectioned_none. Qed.
Lemma sectioned_lift {A} (r : result A BackendError) : sectioned (lift r).
Proof. by apply sectioned_none. Qed.
Lemma sectioned_fail {A} error : sectioned (fail error : io world A).
Proof. by apply sectioned_none. Qed.
Lemma sectioned_ensure c error : sectioned (ensure c error).
Proof. by apply sectioned_none. Qed.
Lemma sectioned_ask {A} (f : Coordinator.t -> A) : sectioned (ask_coordinator f).
Proof. by apply sectioned_none. Qed.
Lemma sectioned_clock : sectioned clock.
Proof. by apply (sectioned_one _ ReadsClock). Qed.
Lemma sectioned_engine {A} (m : io _ A) : sectioned (on_engine m).
Proof.
  apply (sectioned_one _ (OnEngine (fun e => (m e).2))). intros w.
  unfold on_engine, same_shared, run_section. by destruct (m (w_engine w)).
Qed.
Lemma sectioned_enqueued id action params : sectioned (enqueued cfg id action params).
Proof. by apply (sectioned_one _ (Submits id action params)). Qed.
Lemma sectioned_yield : sectioned (yield cfg).
Proof.
  intros w r w'. unfold yield. destruct (w_schedule w) as [|sections rest]; intros [= _ <-]; [by exists []|].
  exists sections. by apply sections_same.
Qed.
Lemma sectioned_caught {A} (m : io world A) : sectioned m -> sectioned (caught m).
Proof. intros Hm w r w'. unfold caught. destruct (m w) as [r1 w1] eqn:Hw. intros [= _ <-]. by eapply Hm. Qed.
Lemma sectioned_map {A B} (f : A -> io world B) l : (forall a, sectioned (f a)) -> sectioned (io_map f l).
Proof.
  intros Hf. induction l as [|a l IH]; cbn [io_map]; [apply sectioned_ret|]. apply sectioned_bind; [apply Hf|intros b].
  apply sectioned_bind; [exact IH|intros bs]. apply sectioned_ret.
Qed.

(** The calls of the coordinator that requests make. *)
Definition requested (c : call) : bool :=
  match c with MarkMaterialized _ | MarkBestIncluded _ | EmitDiagnostics _ _ => true | _ => false end.
Lemma sectioned_called c : requested c = true -> sectioned (called cfg c).
Proof.
  intros Hc. apply sectioned_bind; [apply sectioned_yield|intros _]. destruct c; try discriminate Hc.
  - by apply (sectioned_one _ (Materializes batch_id)).
  - by apply (sectioned_one _ (SeesBest id)).
  - by apply (sectioned_one _ (Diagnoses setting batch_id)).
Qed.

Create HintDb sections.
Hint Resolve sectioned_ret sectioned_lift sectioned_fail sectioned_ensure sectioned_ask sectioned_clock sectioned_engine
  sectioned_enqueued sectioned_yield : sections.
Ltac sections :=
  repeat first [progress intros | solve [eauto with sections] | by apply sectioned_called | apply sectioned_bind
               | apply sectioned_caught | apply sectioned_map | case_match].

Lemma sectioned_locked {A} (m : io _ A) : sectioned (locked cfg m).
Proof. unfold locked. sections. Qed.
Lemma sectioned_network {A} (m : io N A) : sectioned (network cfg m).
Proof. apply sectioned_locked. Qed.
Lemma sectioned_asked {A} (f : Coordinator.t -> A) : sectioned (asked cfg f).
Proof. unfold asked. sections. Qed.
Lemma sectioned_require : sectioned (require_network opts).
Proof. apply sectioned_ensure. Qed.
Hint Resolve sectioned_locked sectioned_network sectioned_asked sectioned_require : sections.

Lemma sectioned_loader {A} (f : _ -> result A BackendError) artifact : sectioned (loader cfg f artifact).
Proof. unfold loader. sections. Qed.
Hint Resolve sectioned_loader : sections.
Lemma sectioned_discover params : sectioned (discover_service cfg opts params).
Proof. unfold discover_service, stored_artifact, fetch_artifact. sections. Qed.
Hint Resolve sectioned_discover : sections.
Lemma sectioned_unknown id params : sectioned (discover_unknown cfg opts id params).
Proof. unfold discover_unknown. sections. Qed.
Lemma sectioned_commitment context id : sectioned (commitment_at cfg context id).
Proof. unfold commitment_at. sections. Qed.
Hint Resolve sectioned_unknown sectioned_commitment : sections.
Lemma sectioned_canonical id : sectioned (canonical_state_root cfg opts id).
Proof. unfold canonical_state_root. sections. Qed.
Hint Resolve sectioned_canonical : sections.
Lemma sectioned_best id x h : sectioned (look_at_best cfg id x h).
Proof. unfold look_at_best. sections. Qed.
Lemma sectioned_lane q f id : sectioned (lane_json cfg q f id).
Proof. unfold lane_json. sections. Qed.
Hint Resolve sectioned_best sectioned_lane : sections.

Lemma sectioned_method m params : sectioned (perform_method cfg opts m params).
Proof.
  destruct m; cbn [perform_method]; unfold chain_get_block_hash, finalized_context, best_context, service_storage_at, service_info_at,
    list_services, register_service, get_service, put_artifact, submit_work, work_status, submit_transaction, transaction_status,
    coordinator_status, get_managed_state, queried_context, get_state, get_state_status, get_prediction; sections.
Qed.

(** C15: whatever a request does, also when other threads run between its steps, is
    a sequence of the critical sections the dispatcher expects of other threads:
    updates under the lock of the state, submissions, and the marks for
    materialized, best-included and diagnosed work. So what is proved of the
    dispatcher holds beside any requests. *)
Theorem requests_are_sections (name : bytes) (params : value) (w w' : world) r :
  handle cfg opts name params w = (r, w') ->
  exists sections, same_shared w' (fold_left (run_section cfg) sections w).
Proof.
  unfold handle. destruct (assoc methods name) as [m|]; [apply sectioned_method|apply sectioned_fail].
Qed.
End Sections.

(** ** Relying on the other threads *)

Section Guarantee.
Context `{Blake2} `{Trie} `{RocksDb} `{SerdeJson} `{Json} {N : Type} `{!BackendNetwork N} `{ArtifactStore N} `{Polkavm}.
Context `{PayloadBase64} `{ErrorText} `{ScaleBytes}.
Context (cfg : Coordinator.config) (opts : Handler.options).
Import Coordinator BackendEngine Dispatcher Answers Handler.
Notation state := (BackendState.t (P := PvmApplication.t)).
Notation engine := (BackendEngine.t (P := PvmApplication.t) (N := N)).
Notation world := (Dispatcher.world (P := PvmApplication.t) (N := N)).

(** Every thread changes the state of the backend within [R]. *)
Context {R : state -> state -> Prop} {HPre : PreOrder R}.

Definition backend (w : world) : state := e_state (w_engine w).
Definition section_within (s : section) : Prop :=
  match s with OnEngine f => forall e : engine, R (e_state e) (e_state (f e)) | _ => True end.
Definition friendly (w : world) : Prop := Forall (Forall section_within) (w_schedule w).

(** The record of what was seen only grows. *)
Definition remembers (w w' : world) : Prop := w_engines w `prefix_of` w_engines w'.
Lemma remembers_same w w' : w_engines w' = w_engines w -> remembers w w'.
Proof. unfold remembers. by intros ->. Qed.
Lemma remembers_section w s : remembers w (run_section cfg w s).
Proof. destruct s; by eexists. Qed.
Lemma remembers_sections l : forall w, remembers w (fold_left (run_section cfg) l w).
Proof. induction l as [|s l IH]; intros w; cbn [fold_left]; unfold remembers; [done|]. etransitivity; [apply remembers_section|apply IH]. Qed.

Lemma section_backend w s : section_within s -> R (backend w) (backend (run_section cfg w s)) /\ w_schedule (run_section cfg w s) = w_schedule w.
Proof. intros Hs. unfold backend. destruct s; simpl; split; first [done | reflexivity | apply Hs]. Qed.
Lemma sections_backend l : forall w, Forall section_within l ->
  R (backend w) (backend (fold_left (run_section cfg) l w)) /\ w_schedule (fold_left (run_section cfg) l w) = w_schedule w.
Proof.
  induction l as [|s l IH]; intros w Hl; [done|]. apply Forall_cons in Hl as [Hs Hl]. cbn [fold_left].
  destruct (section_backend w s Hs) as [HR Hsch]. destruct (IH (run_section cfg w s) Hl) as [HR' Hsch']. split; [|congruence].
  by etransitivity.
Qed.

(** What a computation guarantees beside friendly threads, and of its result. *)
Definition holds_of {A} (Q : A -> Prop) (r : result A BackendError) : Prop := match r with Ok a => Q a | Err _ => True end.
Definition guarantees {A} (m : io world A) (Q : A -> Prop) : Prop :=
  forall w r w', m w = (r, w') -> friendly w -> friendly w' /\ R (backend w) (backend w') /\ holds_of Q r /\ remembers w w'.
Definition locally {A} (m : io engine A) (Q : A -> Prop) : Prop :=
  forall e r e', m e = (r, e') -> R (e_state e) (e_state e') /\ holds_of Q r.

Lemma locally_bind {A B} (m : io engine A) (k : A -> io engine B) Q Q' :
  locally m Q -> (forall a, Q a -> locally (k a) Q') -> locally (m ≫= k) Q'.
Proof.
  intros Hm Hk e r e' [(a & e1 & He & He1)|(error & He & ->)]%io_bind_inv; destruct (Hm _ _ _ He) as [HR Ha]; [|done].
  destruct (Hk a Ha _ _ _ He1) as [HR' Hr]. split; [by etransitivity|done].
Qed.
Lemma locally_silent {A} (m : io engine A) : silent m -> locally m (fun _ => True).
Proof. intros Hm e r e' He. destruct (Hm _ _ _ He) as [-> _]. split; [reflexivity|by destruct r]. Qed.
Lemma locally_state {A} (m : state -> result A BackendError * state) : (forall s, R s (m s).2) -> locally (on_state m) (fun _ => True).
Proof.
  intros Hm e r e'. unfold on_state. specialize (Hm (e_state e)). destruct (m (e_state e)) as [r1 s]. intros [= <- <-].
  split; [done|by destruct r1].
Qed.

Lemma guarantees_bind {A B} (m : io world A) (k : A -> io world B) Q Q' :
  guarantees m Q -> (forall a, Q a -> guarantees (k a) Q') -> guarantees (m ≫= k) Q'.
Proof.
  intros Hm Hk w r w' [(a & w1 & Hw & Hw1)|(error & Hw & ->)]%io_bind_inv Hf; destruct (Hm _ _ _ Hw Hf) as (Hf1 & HR & Ha & Hl); [|done].
  destruct (Hk a Ha _ _ _ Hw1 Hf1) as (Hf2 & HR' & Hr & Hl'). split_and!; [done|by etransitivity|done|]. unfold remembers in *. by etransitivity.
Qed.
Lemma guarantees_weaken {A} (m : io world A) (Q Q' : A -> Prop) : guarantees m Q -> (forall a, Q a -> Q' a) -> guarantees m Q'.
Proof. intros Hm HQ w r w' Hw Hf. destruct (Hm _ _ _ Hw Hf) as (? & ? & Hr & ?). split_and!; try done. destruct r; [by apply HQ|done]. Qed.

(** Computations that leave state and schedule alone. *)
Lemma guarantees_idle {A} (m : io world A) (Q : A -> Prop) :
  (forall w, backend (m w).2 = backend w /\ w_schedule (m w).2 = w_schedule w /\ w_engines (m w).2 = w_engines w /\ holds_of Q (m w).1) ->
  guarantees m Q.
Proof.
  intros Hm w r w' Hw Hf. specialize (Hm w). rewrite Hw in Hm. simpl in Hm. destruct Hm as (Hb & Hs & Hl & Hr).
  unfold friendly. rewrite Hb, Hs. split_and!; [done|done|done|by apply remembers_same].
Qed.
Lemma guarantees_ret {A} (a : A) (Q : A -> Prop) : Q a -> guarantees (mret a) Q.
Proof. intros Ha. by apply guarantees_idle. Qed.
Lemma guarantees_lift {A} (r : result A BackendError) : guarantees (lift r) (fun a => r = Ok a).
Proof. apply guarantees_idle. intros w. by destruct r. Qed.
Lemma guarantees_fail {A} error (Q : A -> Prop) : guarantees (fail error) Q.
Proof. by apply guarantees_idle. Qed.
Lemma guarantees_ensure c error : guarantees (ensure c error) (fun _ => c = true).
Proof. apply guarantees_idle. intros w. by destruct c. Qed.
Lemma guarantees_ask {A} (f : Coordinator.t -> A) : guarantees (ask_coordinator f) (fun _ => True).
Proof. by apply guarantees_idle. Qed.
Lemma guarantees_clock : guarantees clock (fun _ => True).
Proof. by apply guarantees_idle. Qed.
Lemma guarantees_call c : guarantees (call_coordinator cfg c) (fun _ => True).
Proof. by apply guarantees_idle. Qed.
Lemma guarantees_enqueued id action params : guarantees (enqueued cfg id action params) (fun _ => True).
Proof. apply guarantees_idle. intros w. split_and!; try done. simpl. by destruct (enqueue _ _ _ _ _ _ _) as [[] ?]. Qed.
Lemma guarantees_yield : guarantees (yield cfg) (fun _ => True).
Proof.
  intros w r w'. unfold yield, friendly. destruct (w_schedule w) as [|sections rest] eqn:Hs; intros [= <- <-] Hf.
  { simpl. rewrite Hs. split_and!; [done|reflexivity|done|by eexists]. }
  apply Forall_cons in Hf as [Hsec Hrest]. set (w1 := look _). destruct (sections_backend sections w1 Hsec) as [HR ->].
  split_and!; [done|exact HR|done|]. unfold remembers. etransitivity; [|apply remembers_sections]. by eexists.
Qed.
Lemma guarantees_engine {A} (m : io engine A) Q : locally m Q -> guarantees (on_engine m) Q.
Proof.
  intros Hm w r w'. unfold on_engine, friendly, backend. destruct (m (w_engine w)) as [r1 e] eqn:He. intros [= <- <-] Hf.
  destruct (Hm _ _ _ He) as [HR Hr]. split_and!; [done..|by apply remembers_same].
Qed.
Lemma guarantees_caught {A} (m : io world A) Q : guarantees m Q -> guarantees (caught m) (holds_of Q).
Proof. intros Hm w r w'. unfold caught. destruct (m w) as [r1 w1] eqn:Hw. intros [= <- <-] Hf. by apply (Hm w r1). Qed.
Lemma guarantees_map {A B} (f : A -> io world B) l : (forall a, guarantees (f a) (fun _ => True)) -> guarantees (io_map f l) (fun _ => True).
Proof.
  intros Hf. induction l as [|a l IH]; cbn [io_map]; [by apply guarantees_ret|]. eapply guarantees_bind; [apply Hf|intros b _].
  eapply guarantees_bind; [exact IH|intros bs _]. by apply guarantees_ret.
Qed.

Lemma guarantees_locked {A} (m : io engine A) Q : locally m Q -> guarantees (locked cfg m) Q.
Proof. intros Hm. eapply guarantees_bind; [apply guarantees_yield|intros _ _]. by apply guarantees_engine. Qed.
Lemma guarantees_reads {A} (f : state -> result A BackendError) : guarantees (locked cfg (reads f)) (fun _ => True).
Proof. apply guarantees_locked, locally_silent, silent_reads. Qed.
Lemma guarantees_network {A} (m : io N A) (Q : A -> Prop) :
  (forall n a n', m n = (Ok a, n') -> Q a) -> guarantees (network cfg m) Q.
Proof.
  intros Hm. apply guarantees_locked. intros e r e'. unfold net. destruct (m (e_net e)) as [[a|error] n] eqn:He; intros [= <- <-];
    (split; [reflexivity|]); [by eapply Hm|done].
Qed.
Lemma guarantees_asked {A} (f : Coordinator.t -> A) : guarantees (asked cfg f) (fun _ => True).
Proof. eapply guarantees_bind; [apply guarantees_yield|intros _ _]. apply guarantees_ask. Qed.
Lemma guarantees_called c : guarantees (called cfg c) (fun _ => True).
Proof. eapply guarantees_bind; [apply guarantees_yield|intros _ _]. apply guarantees_call. Qed.
Lemma guarantees_commitment context id : guarantees (commitment_at cfg context id) (fun _ => True).
Proof.
  eapply guarantees_bind; [by apply guarantees_locked, locally_silent, silent_commitment|intros c _].
  by eapply guarantees_weaken; [apply guarantees_lift|].
Qed.
Lemma guarantees_loader {A} (f : _ -> result A BackendError) artifact (Q : A -> Prop) :
  (forall a b, f a = Ok b -> Q b) -> guarantees (loader cfg f artifact) Q.
Proof.
  intros Hf. eapply guarantees_bind; [by apply guarantees_caught, (guarantees_network _ (fun _ => True))|intros r _].
  eapply guarantees_weaken; [apply guarantees_lift|]. intros b Hb%map_err_Ok. destruct r as [a|]; [|done]. by eapply Hf.
Qed.
(** *** Requests *)

Lemma guarantees_true {A} (m : io world A) Q : guarantees m Q -> guarantees m (fun _ => True).
Proof. intros Hm. by eapply guarantees_weaken. Qed.
Lemma guarantees_lifted {A} (r : result A BackendError) : guarantees (lift r) (fun _ => True).
Proof. eapply guarantees_true, guarantees_lift. Qed.
Lemma guarantees_ensured c error : guarantees (ensure c error) (fun _ => True).
Proof. eapply guarantees_true, guarantees_ensure. Qed.
Lemma guarantees_returned {A} (a : A) : guarantees (mret a) (fun _ => True).
Proof. by apply guarantees_ret. Qed.
Lemma guarantees_failed {A} error : guarantees (fail error : io world A) (fun _ => True).
Proof. apply guarantees_fail. Qed.
Lemma guarantees_answer {A} (m : io N A) (Q : A -> Prop) :
  (forall n a n', m n = (Ok a, n') -> Q a) -> guarantees (network cfg m) Q.
Proof. apply guarantees_network. Qed.
Lemma guarantees_net {A} (m : io N A) : guarantees (network cfg m) (fun _ => True).
Proof. by apply guarantees_answer. Qed.
Lemma guarantees_caught' {A} (m : io world A) : guarantees m (fun _ => True) -> guarantees (caught m) (fun _ => True).
Proof. intros Hm. by eapply guarantees_true, guarantees_caught. Qed.
Lemma guarantees_do {A} (m : io engine A) : locally m (fun _ => True) -> guarantees (locked cfg m) (fun _ => True).
Proof. apply guarantees_locked. Qed.
Lemma guarantees_loaded {A} (f : _ -> result A BackendError) artifact : guarantees (loader cfg f artifact) (fun _ => True).
Proof. by apply guarantees_loader. Qed.
Lemma guarantees_then {A B} (m : io world A) (k : A -> io world B) :
  guarantees m (fun _ => True) -> (forall a, guarantees (k a) (fun _ => True)) -> guarantees (m ≫= k) (fun _ => True).
Proof. intros Hm Hk. eapply guarantees_bind; [exact Hm|intros a _; apply Hk]. Qed.
Lemma guarantees_read {A} (f : state -> result A BackendError) : guarantees (locked cfg (reads f)) (fun _ => True).
Proof. apply guarantees_reads. Qed.
Lemma guarantees_wait : guarantees (yield cfg) (fun _ => True).
Proof. apply guarantees_yield. Qed.
Lemma guarantees_asks {A} (f : Coordinator.t -> A) : guarantees (ask_coordinator f) (fun _ => True).
Proof. apply guarantees_ask. Qed.
Lemma guarantees_asked' {A} (f : Coordinator.t -> A) : guarantees (asked cfg f) (fun _ => True).
Proof. apply guarantees_asked. Qed.
Lemma guarantees_called' c : guarantees (called cfg c) (fun _ => True).
Proof. apply guarantees_called. Qed.
Lemma guarantees_calls c : guarantees (call_coordinator cfg c) (fun _ => True).
Proof. apply guarantees_call. Qed.
Lemma guarantees_time : guarantees clock (fun _ => True).
Proof. apply guarantees_clock. Qed.
Lemma guarantees_enqueues id action params : guarantees (enqueued cfg id action params) (fun _ => True).
Proof. apply guarantees_enqueued. Qed.
Lemma guarantees_committed context id : guarantees (commitment_at cfg context id) (fun _ => True).
Proof. apply guarantees_commitment. Qed.
Create HintDb requests.
Hint Resolve guarantees_lifted guarantees_ensured guarantees_returned guarantees_failed guarantees_net guarantees_loaded guarantees_read
  guarantees_wait guarantees_asks guarantees_asked' guarantees_called' guarantees_calls guarantees_time guarantees_enqueues
  guarantees_committed : requests.
Ltac goes :=
  repeat first [progress intros | solve [eauto with requests] | apply guarantees_then | apply guarantees_caught' | apply guarantees_map | case_match].

Lemma guarantees_require : guarantees (require_network opts) (fun _ => True).
Proof. apply guarantees_ensured. Qed.
Hint Resolve guarantees_require : requests.


(** A request keeps to [R] when what it does under the lock and its registrations
    do. *)
Context (Hstatus : forall params, locally (status params) (fun _ => True)) (Hsubmit : forall params, locally (submit params) (fun _ => True)).
Context (Hwork : forall key, locally (work_locked key) (fun _ => True)).
Context (Hquery : forall id root key on_chain, locally (query_locked id root key on_chain) (fun _ => True)).
Context (Hdiscover : forall params, guarantees (discover_service cfg opts params) (fun _ => True)).
Hint Resolve Hstatus Hsubmit Hwork Hquery Hdiscover guarantees_do : requests.

Lemma guarantees_unknown id params : guarantees (discover_unknown cfg opts id params) (fun _ => True).
Proof. unfold discover_unknown. goes. Qed.
Lemma guarantees_canonical id : guarantees (canonical_state_root cfg opts id) (fun _ => True).
Proof. unfold canonical_state_root. goes. Qed.
Lemma guarantees_best id x h : guarantees (look_at_best cfg id x h) (fun _ => True).
Proof. unfold look_at_best. goes. Qed.
Lemma guarantees_lane q f id : guarantees (lane_json cfg q f id) (fun _ => True).
Proof. unfold lane_json. goes. Qed.
Lemma guarantees_queried request id root : guarantees (queried_context cfg opts request id root) (fun _ => True).
Proof. unfold queried_context. goes. Qed.
Hint Resolve guarantees_unknown guarantees_canonical guarantees_best guarantees_lane guarantees_queried : requests.

Lemma guarantees_methods m params :
  guarantees (register_service cfg opts params) (fun _ => True) -> guarantees (perform_method cfg opts m params) (fun _ => True).
Proof.
  intros Hregister. destruct m; cbn [perform_method]; unfold chain_get_block_hash, finalized_context, best_context, service_storage_at, service_info_at,
    list_services, get_service, put_artifact, submit_work, work_status, submit_transaction, transaction_status,
    coordinator_status, get_managed_state, get_state, get_state_status, get_prediction; first [exact Hregister | goes].
Qed.
End Guarantee.

(** ** The steps of the backend *)

Section Steps.
Context `{Blake2} `{!Blake2Len} `{TrieLaws} `{RocksDbLaws} `{SerdeJsonLaws} `{JsonLaws}.
Context {N : Type} `{!BackendNetwork N} `{!NetworkTyped} `{ArtifactStore N} `{Polkavm} `{PayloadBase64} `{ErrorText} `{ScaleBytes}.
Context (cfg : Coordinator.config) (opts : Handler.options).
Import Coordinator BackendEngine Dispatcher Answers Handler.
Notation state := (BackendState.t (P := PvmApplication.t)).
Notation engine := (BackendEngine.t (P := PvmApplication.t) (N := N)).
Notation world := (Dispatcher.world (P := PvmApplication.t) (N := N)).
Notation steps := (rtc (BackendState.step (P := PvmApplication.t))).
Notation locally := (locally (N := N) (R := steps)).
Notation guarantees := (guarantees (N := N) (R := steps)).

#[local] Instance steps_preorder : PreOrder steps.
Proof. apply relations.rtc_po. Qed.

(** *** Under the lock *)

Lemma locally_net {A} (m : io N A) (Q : A -> Prop) : (forall n a n', m n = (Ok a, n') -> Q a) -> locally (net m) Q.
Proof.
  intros Hm e r e'. unfold net. destruct (m (e_net e)) as [[a|error] n] eqn:He; intros [= <- <-]; (split; [reflexivity|]); [by eapply Hm|done].
Qed.
Lemma locally_lift {A} (r : result A BackendError) : locally (lift r) (fun a => r = Ok a).
Proof. intros e r' e' [= <- <-]. split; [reflexivity|by destruct r]. Qed.
Lemma locally_step {A} (m : state -> result A BackendError * state) :
  (forall s, BackendState.step s (m s).2) -> locally (on_state m) (fun _ => True).
Proof. intros Hm. apply locally_state. intros s. apply rtc_once, Hm. Qed.

Lemma locally_calm {A} (m : io engine A) : silent m -> locally m (fun _ => True).
Proof. apply locally_silent. Qed.

Create HintDb steps.
Hint Resolve silent_ret silent_lift silent_ensure silent_reads silent_net silent_commitment locally_calm : steps.

Lemma locally_drop key output root : locally (drop_stale key output root) (fun _ => True).
Proof.
  intros e r e'. unfold drop_stale. case_match; intros [= <- <-]; split; try done. simpl. apply rtc_once. constructor.
Qed.

Lemma locally_settle key context root result : hash_ok (fc_block_hash context) -> locally (settle_status key context root result) (fun _ => True).
Proof.
  intros Hc. eapply locally_bind; [eauto with steps|intros expected _].
  eapply locally_bind; [destruct expected; [apply locally_drop|eauto with steps]|intros [] _].
  eapply locally_bind; [by apply locally_step; intros s; constructor|intros [] _].
  eapply locally_bind; [apply locally_step; intros s; constructor|intros b _]. eauto with steps.
Qed.

Lemma locally_status params : locally (status params) (fun _ => True).
Proof.
  unfold status. eapply locally_bind; [eauto with steps|intros result _]. cbv zeta. case_match; [|eauto with steps].
  eapply locally_bind; [eauto with steps|intros hash _]. case_match; [|eauto with steps]. case_match; [eauto with steps|].
  eapply locally_bind; [apply locally_net; intros n c n'; apply finalized_typed|intros context Hc].
  eapply locally_bind; [eauto with steps|intros commitment _].
  destruct (commitment ≫= _) as [root|]; [by apply locally_settle|eauto with steps].
Qed.

Lemma locally_settle_submission id prediction response :
  RefineOutput.typed prediction -> locally (settle_submission id prediction response) (fun _ => True).
Proof.
  intros Hp. eapply locally_bind; [eauto with steps|intros h _]. eapply locally_bind; [eauto with steps|intros hash _].
  eapply locally_bind; [by apply locally_step; intros s; constructor|intros key _]. eauto with steps.
Qed.

(** A step whose result does not matter. *)
Ltac calm := eapply locally_bind; [solve [eauto with steps]|intros ? _].

Lemma locally_ret {A} (a : A) (Q : A -> Prop) : Q a -> locally (mret a) Q.
Proof. intros Ha e r e' [= <- <-]. by split. Qed.

Lemma locally_predict pvm actions context domain id key root keys external :
  locally (predict pvm actions context domain id key root keys external) (fun p => RefineOutput.typed p.2).
Proof.
  unfold predict. eapply locally_bind; [apply locally_calm, silent_witness|intros w _].
  eapply locally_bind; [apply locally_calm, silent_externals|intros ws _]. calm.
  eapply locally_bind; [apply locally_lift|intros o Ho%predicted_typed]. calm. calm. by apply locally_ret.
Qed.

Lemma locally_prepare params actions : locally (prepare_work params actions) (fun p => RefineOutput.typed p.1.2).
Proof.
  unfold prepare_work. do 14 calm. eapply locally_bind; [apply locally_calm, silent_rounds|intros [keys external] _].
  eapply locally_bind; [apply locally_predict|intros [encoded prediction] Hp]. by apply locally_ret.
Qed.

Lemma locally_submit_actions params actions : locally (submit_actions params actions) (fun _ => True).
Proof.
  eapply locally_bind with (Q := fun p => RefineOutput.typed p.1.2).
  { intros e r e'. unfold map_error. destruct (prepare_work params actions e) as [r1 e1] eqn:Hp. intros [= <- <-].
    destruct (locally_prepare _ _ _ _ _ Hp) as [HR Hr]. split; [done|]. by destruct r1. }
  intros [[forwarded prediction] id] Hp.
  eapply locally_bind with (Q := fun _ => True); [|intros response _; by apply locally_settle_submission].
  intros e r e'. unfold call_submit_work. destruct (n_submit_work forwarded (e_net e)) as [r1 n]. intros [= <- <-].
  split; [reflexivity|by destruct r1].
Qed.

Lemma locally_submit params : locally (submit params) (fun _ => True).
Proof.
  unfold submit. calm. calm. eapply locally_bind; [apply locally_submit_actions|intros [v o] _]. by apply locally_ret.
Qed.

Lemma locally_work key : locally (work_locked key) (fun _ => True).
Proof. eapply locally_bind; [apply locally_status|intros result _]. calm. by apply locally_ret. Qed.

Lemma locally_work_of_batch key : locally (work_of_batch key) (fun _ => True).
Proof.
  eapply locally_bind with (Q := fun _ => True).
  { intros e r e'. unfold caught. destruct (status _ e) as [r1 e1] eqn:He. intros [= <- <-].
    by destruct (locally_status _ _ _ _ He). }
  intros [result|[]] _; eauto with steps; try (intros e r e' [= <- <-]; by split). case_match; [eauto with steps|]. calm. eauto with steps.
Qed.

Lemma locally_query id root key on_chain : locally (query_locked id root key on_chain) (fun _ => True).
Proof.
  unfold query_locked. calm. calm. eapply locally_bind with (Q := fun _ => True); [|intros held _].
  - case_match; [eauto with steps|]. destruct on_chain; [|eauto with steps]. apply locally_step. intros s. constructor.
  - calm. eauto with steps.
Qed.

(** After a registration the registry has the record, and binding a planner keeps it. *)
Lemma registered_get record (s s' : state) u : BackendState.register record s = (Ok u, s') -> BackendState.get_service s' (sr_service_id record) = Ok record.
Proof.
  unfold BackendState.register. destruct (ServiceRegistry.register record (BackendState.registry s)) as [[[]|e] r] eqn:Hr; [|done].
  assert (ServiceRegistry.by_id r !! sr_service_id record = Some record) as Hg.
  { unfold ServiceRegistry.register in Hr. repeat case_match; try discriminate Hr; injection Hr as <-; apply lookup_insert_eq. }
  intros [= _ <-]. apply BackendState.get_service_Ok. by case_match.
Qed.

Lemma planned_get id planner (s : state) : BackendState.registry (BackendState.register_planner id planner s).2 = BackendState.registry s.
Proof. unfold BackendState.register_planner. destruct (BackendState.get_service s id); [|done]. by destruct (ApplicationRegistry.bind _ _ _). Qed.

Lemma on_state_inv {A} (m : state -> result A BackendError * state) (e : engine) r e' :
  on_state m e = (r, e') -> m (e_state e) = (r, e_state e').
Proof. unfold on_state. destruct (m (e_state e)). by intros [= <- <-]. Qed.

Lemma locally_register record upgrade planner : record_ok record -> locally (register_locked record upgrade planner) (fun _ => True).
Proof.
  intros Hok. unfold register_locked. calm. intros e r e' [([] & e1 & Hr1 & Hr)|(er & Hr1 & ->)]%io_bind_inv; apply on_state_inv in Hr1.
  2:{ split; [|done]. apply rtc_once. assert (e_state e' = (BackendState.register record (e_state e)).2) as -> by by rewrite Hr1. by constructor. }
  assert (BackendState.step (e_state e) (e_state e1)) as Hs1.
  { assert (e_state e1 = (BackendState.register record (e_state e)).2) as -> by by rewrite Hr1. by constructor. }
  pose proof (registered_get _ _ _ _ Hr1) as Hg. apply io_bind_inv in Hr as [([] & e2 & Hr2 & Hr)|(er & Hr2 & ->)]; apply on_state_inv in Hr2.
  2:{ split; [|done]. eapply rtc_l; [exact Hs1|]. apply rtc_once.
      assert (e_state e' = (BackendState.register_planner (sr_service_id record) planner (e_state e1)).2) as -> by by rewrite Hr2. constructor. }
  assert (e_state e2 = (BackendState.register_planner (sr_service_id record) planner (e_state e1)).2) as Hs2 by by rewrite Hr2.
  assert (BackendState.get_service (e_state e2) (sr_service_id record) = Ok record) as Hg2.
  { unfold BackendState.get_service in *. by rewrite Hs2, planned_get. }
  split; [|by destruct r]. eapply rtc_l; [exact Hs1|]. apply (rtc_l _ _ (e_state e2)); [rewrite Hs2; constructor|].
  assert (e_state e' = (BackendState.persist_service record (e_state e2)).2) as ->; [|by apply rtc_once; constructor].
  apply io_bind_inv in Hr as [([] & e3 & Hr3 & Hr)|(er & Hr3 & ->)]; apply on_state_inv in Hr3; rewrite Hr3; [by injection Hr as _ <-|done].
Qed.
(** *** Requests *)

Hint Extern 0 (PreOrder _) => apply steps_preorder : steps.
Hint Resolve guarantees_lifted guarantees_ensured guarantees_returned guarantees_failed guarantees_net guarantees_loaded guarantees_read
  guarantees_wait guarantees_asks guarantees_asked' guarantees_called' guarantees_calls guarantees_time guarantees_enqueues
  guarantees_committed : steps.
Hint Resolve guarantees_require : steps.
Ltac goes :=
  repeat first [progress intros | solve [eauto with steps] | apply guarantees_then | apply guarantees_caught' | apply guarantees_map
               | apply steps_preorder | case_match].

Lemma as_u32_ok v n : as_u32 v = Some n -> u32_ok n.
Proof.
  unfold as_u32, u32_try_from, try_from_max. intros (m & Hm%u64_in_range & Hn)%bind_Some. case_match eqn:Hle; [|done].
  injection Hn as <-. unfold u64_ok, u32_ok in *. lia.
Qed.
Lemma required_u32_ok params name n : required_u32 params name = Ok n -> u32_ok n.
Proof. intros Hn%ok_or_Ok. apply bind_Some in Hn as (v & _ & Hv). by eapply as_u32_ok. Qed.
Lemma required_hash_ok params name h : required_hash params name = Ok h -> hash_ok h.
Proof. intros (text & _ & Ht)%rbind_Ok. by eapply parse_hash_ok. Qed.
Lemma optional_hash_ok params name h : optional_hash params name = Ok h -> opt_ok hash_ok h.
Proof.
  unfold optional_hash. case_match; [|by intros [= <-]]. intros (x & Hx & [= <-])%rbind_Ok. simpl. by eapply parse_hash_ok.
Qed.
Lemma expected_digest_ok params h : expected_digest params = Ok h -> opt_ok hash_ok h.
Proof.
  unfold expected_digest. destruct (_ ≫= v_as_str); [|by intros [= <-]]. intros (x & Hx & [= <-])%rbind_Ok. simpl. by eapply parse_hash_ok.
Qed.
Lemma metadata_key_ok a m : PvmApplication.metadata a = Ok m -> hash_ok (BackendMetadata.service_key m).
Proof.
  intros (b & _ & Hd%map_err_Ok)%rbind_Ok. pose proof Hd as (k & v & p & s & -> & Hk & Hv & Hp & Hs)%BackendMetadata.decode_split.
  rewrite BackendMetadata.backend_metadata_decode_fields in Hd by done. apply bail_if_Ok in Hd as [_ Hd]. by injection Hd as <-.
Qed.

Lemma stored_artifact_ok context id hash expected :
  opt_ok hash_ok expected -> guarantees (stored_artifact cfg context id hash expected) hash_ok.
Proof.
  assert (guarantees (fetch_artifact cfg context id hash) (fun _ => True)) as Hf by (unfold fetch_artifact; goes).
  intros He. unfold stored_artifact. destruct expected as [digest|].
  - eapply guarantees_bind; [solve [eauto with steps]|intros present _]. case_match; [by apply guarantees_ret|].
    eapply guarantees_bind; [exact Hf|intros code _]. eapply guarantees_bind; [solve [eauto with steps]|intros size _]. by apply guarantees_ret.
  - eapply guarantees_bind; [exact Hf|intros code _]. eapply guarantees_bind; [solve [eauto with steps]|intros size _].
    apply guarantees_ret, blake2_256_len.
Qed.

Ltac past := eapply guarantees_bind; [solve [eauto with steps]|intros ? _].

Lemma guarantees_discover params : guarantees (discover_service cfg opts params) (fun _ => True).
Proof.
  unfold discover_service. eapply guarantees_bind; [apply guarantees_lift|intros id Hid%required_u32_ok]. past. past.
  eapply guarantees_bind; [apply guarantees_answer; [apply _|]; intros n h n'; apply genesis_typed|intros domain Hdomain].
  eapply guarantees_bind with (Q := fun info => opt_ok (fun i => hash_ok (si_code_hash i)) info).
  { apply guarantees_answer; [apply _|]. intros n [info|] n' Hn; [|done]. by eapply info_typed. }
  intros info Hinfo. eapply guarantees_bind; [apply guarantees_lift|intros chain Hchain%ok_or_Ok]. subst info. simpl in Hinfo. past. past.
  eapply guarantees_bind; [apply guarantees_lift|intros expected Hexp%expected_digest_ok].
  eapply guarantees_bind; [by apply stored_artifact_ok|intros digest Hdigest]. cbv zeta. past. past.
  eapply guarantees_bind; [apply guarantees_loader; [apply _|apply metadata_key_ok]|intros metadata Hkey].
  eapply guarantees_bind with (Q := fun _ => True); [goes|intros _ _]. past. apply guarantees_locked; [apply _|]. apply locally_register. by split_and!.
Qed.
Hint Resolve guarantees_discover : steps.

Lemma parsed_record_ok params record : parse_service_record params = Ok record -> record_ok record.
Proof.
  unfold parse_service_record. intros Hp. cbv zeta in Hp. apply rbind_Ok in Hp as (digest & Hd & Hp).
  apply rbind_Ok in Hp as (format & _ & Hp). apply rbind_Ok in Hp as (id & Hid%required_u32_ok & Hp).
  apply rbind_Ok in Hp as (key & Hk%required_hash_ok & Hp). apply rbind_Ok in Hp as (code & Hc%required_hash_ok & Hp).
  apply rbind_Ok in Hp as (abi & _ & Hp). apply rbind_Ok in Hp as (manifest & Hm%optional_hash_ok & Hp).
  apply rbind_Ok in Hp as (domain & Hn%optional_hash_ok & Hp). injection Hp as <-. split_and!; try done. cbn.
  unfold record_digest in Hd. repeat case_match; try discriminate Hd; by eapply parse_hash_ok.
Qed.

Lemma guarantees_register params : guarantees (register_service cfg opts params) (fun _ => True).
Proof.
  unfold register_service. past. case_match; [apply guarantees_discover|]. past.
  eapply guarantees_bind; [apply guarantees_lift|intros record Hr%parsed_record_ok].
  eapply guarantees_bind with (Q := fun _ => True); [goes|intros _ _]. past. apply guarantees_locked; [apply _|]. by apply locally_register.
Qed.

Lemma guarantees_method m params : guarantees (perform_method cfg opts m params) (fun _ => True).
Proof.
  apply guarantees_methods; [apply _|apply locally_status|apply locally_submit|apply locally_work|apply locally_query
    |apply guarantees_discover|apply guarantees_register].
Qed.

(** *** The dispatcher *)

Lemma guarantees_engine' {A} (m : io engine A) : locally m (fun _ => True) -> guarantees (on_engine m) (fun _ => True).
Proof. apply guarantees_engine. Qed.
Lemma guarantees_iter {A} (f : A -> io world unit) l : (forall a, guarantees (f a) (fun _ => True)) -> guarantees (io_iter f l) (fun _ => True).
Proof. intros Hf. induction l as [|a l IH]; cbn [io_iter]; [apply guarantees_returned|]. by apply guarantees_then. Qed.
Lemma guarantees_asked_work b key : guarantees (ask_work b key) (fun _ => True).
Proof.
  intros w r w'. unfold ask_work, friendly, backend. destruct (work_of_batch key (w_engine w)) as [r1 e] eqn:He.
  intros [= <- <-] Hf. destruct (locally_work_of_batch _ _ _ _ He) as [HR _]. split_and!; [done|exact HR|by destruct r1|by apply remembers_same].
Qed.
Lemma guarantees_take id expected slot : guarantees (take_batch cfg id expected slot) (fun _ => True).
Proof. by apply guarantees_idle. Qed.
Lemma guarantees_submit b params actions : guarantees (submit_batch b params actions) (fun _ => True).
Proof.
  intros w r w'. unfold submit_batch, friendly, backend. destruct (submit_actions params actions (w_engine w)) as [r1 e] eqn:He.
  intros [= <- <-] Hf. destruct (locally_submit_actions _ _ _ _ _ He) as [HR _]. split_and!; [done|exact HR|by destruct r1|by apply remembers_same].
Qed.
Hint Resolve guarantees_engine' guarantees_asked_work guarantees_take guarantees_submit : steps.

Lemma guarantees_nonces id : guarantees (authoritative_expected_nonces cfg id) (fun _ => True).
Proof. unfold authoritative_expected_nonces. goes. Qed.
Lemma guarantees_attempts retries b params actions : guarantees (attempts cfg retries b params actions) (fun _ => True).
Proof. induction retries as [|retries IH]; cbn [attempts]; goes. Qed.
Lemma guarantees_settle id b r : guarantees (settle_batch cfg id b r) (fun _ => True).
Proof. unfold settle_batch, fail_batch_call. goes. Qed.
Hint Resolve guarantees_nonces guarantees_attempts guarantees_settle : steps.
Lemma guarantees_service id : guarantees (dispatch_service cfg id) (fun _ => True).
Proof. unfold dispatch_service. goes. Qed.
Lemma guarantees_reconcile_batch batch : guarantees (reconcile_batch cfg batch) (fun _ => True).
Proof. unfold reconcile_batch, fail_batch_call. goes. Qed.
Hint Resolve guarantees_service guarantees_reconcile_batch : steps.
Lemma guarantees_batches l : forall first, guarantees (reconcile_batches cfg l first) (fun _ => True).
Proof. induction l as [|b l IH]; intros first; cbn [reconcile_batches]; goes. Qed.
Hint Resolve guarantees_batches : steps.
Lemma guarantees_turn interval last : guarantees (dispatcher_turn cfg interval last) (fun _ => True).
Proof.
  unfold dispatcher_turn, reconcile_in_flight_batches, dispatch_ready_batches.
  goes; apply guarantees_iter; goes.
Qed.
Lemma guarantees_dispatcher turns interval : forall last, guarantees (dispatcher cfg turns interval last) (fun _ => True).
Proof. induction turns as [|turns IH]; intros last; cbn [dispatcher]; [goes|]. apply guarantees_then; [apply guarantees_turn|done]. Qed.

(** C14: the daemon moves the state of the backend only by the steps
    [BackendState.step], whose states are the ones that survive a restart: any
    request and any number of turns of the dispatcher do, in every interleaving
    with threads that do. *)
Theorem daemon_moves_by_steps (w w' : world) :
  friendly (R := steps) w ->
  (exists name params r, handle cfg opts name params w = (r, w'))
  \/ (exists turns interval last r, dispatcher cfg turns interval last w = (r, w')) ->
  steps (backend w) (backend w') /\ friendly (R := steps) w'
  /\ (BackendState.ok (backend w) -> BackendState.ok (backend w')).
Proof.
  intros Hf Hrun. assert (friendly (R := steps) w' /\ steps (backend w) (backend w')) as [Hf' Hs].
  { destruct Hrun as [(name & params & r & Hr)|(turns & interval & last & r & Hr)].
    - unfold handle in Hr. destruct (assoc methods name) as [m|].
      + destruct (guarantees_method m params w r w' Hr Hf) as (? & ? & _). done.
      + destruct (guarantees_failed _ w r w' Hr Hf) as (? & ? & _). done.
    - destruct (guarantees_dispatcher _ _ _ w r w' Hr Hf) as (? & ? & _). done. }
  split_and!; [done..|]. by apply BackendState.steps_ok.
Qed.
End Steps.
