(* ===== verification/HandlerAnswers.v ===== *)
(** * What the answers of the backend mean

    The facts behind an answer: a value of the managed state is the one of the
    map the finalized commitment stands for, with a proof of it; a transaction
    is shown as final or included only when the chain has its root; a service
    is registered with the program that is on chain, unless the operator of
    the backend says otherwise. *)

From S2P Require Import Prelude Ordering Reader Wire Fields ServiceKeys StateView StateDiff Records Witness RefineInput Dependencies RefineOutput Ownership Crypto Actions ActionsV2 GuestMemory State ModelTrie Overlays Provider BackendBase Registry Envelope Database BackendState Selection JsonValue Coordinator CoordinatorInvariant Engine EngineCorrect Dispatcher DispatcherCorrect Gateway Handler HandlerCorrect.

(** What the node knows: which contexts are final and which are best, and, for
    every context, storage and services. Blocks do not change, so two questions
    about one context have the same answer. *)
Class ChainFacts `{Json} {N} `{!BackendNetwork N} := {
  final : FinalizedContextV1 -> Prop;
  best : FinalizedContextV1 -> Prop;
  storage_of : FinalizedContextV1 -> Z -> bytes -> option bytes;
  service_of : FinalizedContextV1 -> Z -> option ChainServiceInfoV1;
  finalized_is_final n c n' : n_finalized_context n = (Ok c, n') -> final c;
  best_is_best n c n' : n_best_context n = (Ok c, n') -> best c;
  storage_answer c id k n v n' : n_service_storage_at c id k n = (Ok v, n') -> v = storage_of c id k;
  info_answer c id n i n' : n_service_info c id n = (Ok i, n') -> i = service_of c id
}.

(** The root the chain commits to. *)
Definition committed `{ChainFacts} (context : FinalizedContextV1) (id : Z) (root : bytes) : Prop :=
  BackendEngine.committed_root (storage_of context id MANAGED_STATE_COMMITMENT_KEY_V1) = Ok root.

Section Answers.
Context `{Blake2} `{!Blake2Len} `{TrieLaws} `{RocksDbLaws} `{SerdeJsonLaws} `{JsonLaws}.
Context {N : Type} `{!BackendNetwork N} `{!NetworkTyped} `{!ChainFacts} `{ArtifactStore N} `{Polkavm} `{PayloadBase64} `{ErrorText} `{ScaleBytes}.
Context (cfg : Coordinator.config) (opts : Handler.options).
Import Coordinator BackendEngine Dispatcher Answers Handler.
Notation state := (BackendState.t (P := PvmApplication.t)).
Notation engine := (BackendEngine.t (P := PvmApplication.t) (N := N)).
Notation world := (Dispatcher.world (P := PvmApplication.t) (N := N)).
Notation steps := (rtc (BackendState.step (P := PvmApplication.t))).

(** ** Runs that end well *)

(** A world whose threads keep the state of the backend in order. *)
Definition orderly (w : world) : Prop := friendly (R := steps) w /\ BackendState.ok (backend w).

(** What holds of the result of a computation that succeeds in an orderly world,
    and of the states of the backend that were seen while it ran. *)
Definition ends_with {A} (m : io world A) (Q : list engine -> A -> Prop) : Prop :=
  forall w a w', m w = (Ok a, w') -> orderly w -> orderly w' /\ exists h, w_engines w' = w_engines w ++ h /\ Q h a.

Lemma orderly_after {A} (m : io world A) Q w r w' :
  guarantees (R := steps) m Q -> m w = (r, w') -> orderly w -> orderly w' /\ holds_of Q r /\ exists h, w_engines w' = w_engines w ++ h.
Proof.
  intros Hm Hw [Hf Hok]. destruct (Hm w _ w' Hw Hf) as (Hf' & Hs & Hq & Hl). split_and!; [|done|exact Hl]. split; [done|]. by eapply BackendState.steps_ok.
Qed.
Lemma ends_of {A} (m : io world A) Q : guarantees (R := steps) m Q -> ends_with m (fun _ => Q).
Proof. intros Hm w a w' Hw Ho. destruct (orderly_after _ _ _ _ _ Hm Hw Ho) as (Ho' & Hq & h & Hh). split; [done|]. by exists h. Qed.
Lemma ends_bind {A B} (m : io world A) (k : A -> io world B) Q Q' :
  ends_with m Q -> (forall h a, Q h a -> ends_with (k a) (fun h' => Q' (h ++ h'))) -> ends_with (m ≫= k) Q'.
Proof.
  intros Hm Hk w b w' [(a & w1 & Hw & Hw1)|(e & _ & Hb)]%io_bind_inv Ho; [|done]. destruct (Hm _ _ _ Hw Ho) as (Ho1 & h & Hh & Ha).
  destruct (Hk h a Ha w1 b w' Hw1 Ho1) as (Ho2 & h' & Hh' & Hb). split; [done|]. exists (h ++ h'). split; [|done]. by rewrite Hh', Hh, app_assoc.
Qed.
Lemma ends_weaken {A} (m : io world A) (Q Q' : list engine -> A -> Prop) : ends_with m Q -> (forall h a, Q h a -> Q' h a) -> ends_with m Q'.
Proof. intros Hm HQ w a w' Hw Ho. destruct (Hm _ _ _ Hw Ho) as (? & h & ? & ?). split; [done|]. exists h. auto. Qed.
Lemma ends_ret {A} (a : A) (Q : list engine -> A -> Prop) : Q [] a -> ends_with (mret a) Q.
Proof. intros Ha w a' w' [= <- <-] Ho. split; [done|]. exists []. by rewrite app_nil_r. Qed.
Lemma ends_lift {A} (r : result A BackendError) : ends_with (lift r) (fun _ a => r = Ok a).
Proof. apply ends_of, guarantees_lift. Qed.
Lemma ends_ensure c error : ends_with (ensure c error) (fun _ _ => c = true).
Proof. apply (ends_of _ (fun _ => c = true)), guarantees_ensure. Qed.
Lemma ends_fail {A} error (Q : list engine -> A -> Prop) : ends_with (fail error) Q.
Proof. by intros w a w' [=]. Qed.
Lemma ends_network {A} (m : io N A) (Q : A -> Prop) : (forall n a n', m n = (Ok a, n') -> Q a) -> ends_with (network cfg m) (fun _ => Q).
Proof. intros Hm. by apply ends_of, guarantees_answer; [apply _|]. Qed.
Lemma ends_caught {A} (m : io world A) Q :
  guarantees (R := steps) m (fun _ => True) -> ends_with m Q -> ends_with (caught m) (fun h r => match r with Ok a => Q h a | Err _ => True end).
Proof.
  intros Hg Hm w r w'. unfold caught. destruct (m w) as [[a|e] w1] eqn:Hw; intros [= <- <-] Ho; [by eapply Hm|].
  destruct (orderly_after _ _ _ _ _ Hg Hw Ho) as (Ho' & _ & h & Hh). split; [done|]. by exists h.
Qed.

(** Whoever has waited has seen the state of the backend that is there. *)
Lemma sections_seen l : forall h (w : world), w_engines w = h ++ [w_engine w] ->
  exists h', w_engines (fold_left (run_section cfg) l w) = h ++ h' ++ [w_engine (fold_left (run_section cfg) l w)].
Proof.
  induction l as [|s l IH]; intros h w Hw; cbn [fold_left]; [by exists []|].
  destruct (IH (w_engines w) (run_section cfg w s)) as [h' Hh']; [by destruct s|]. exists ([w_engine w] ++ h'). rewrite Hh', Hw. by rewrite <- !app_assoc.
Qed.
Lemma yield_seen (w w1 : world) r : yield cfg w = (r, w1) -> exists h, w_engines w1 = w_engines w ++ h /\ w_engine w1 ∈ h.
Proof.
  unfold yield. destruct (w_schedule w) as [|sections rest]; intros [= _ <-].
  { eexists. split; [done|]. by apply list_elem_of_singleton. }
  set (w0 := look _). destruct (sections_seen sections (w_engines w) w0) as [h Hh]; [done|]. eexists. split; [exact Hh|].
  apply elem_of_app. right. by apply list_elem_of_singleton.
Qed.

(** What is read under the lock is read from a state in order, which was seen. *)
Lemma ends_locked {A} (m : io engine A) (Q : list engine -> A -> Prop) :
  guarantees (R := steps) (locked cfg m) (fun _ => True) ->
  (forall h e a e', e ∈ h -> BackendState.ok (e_state e) -> m e = (Ok a, e') -> Q h a) -> ends_with (locked cfg m) Q.
Proof.
  intros Hg Hm w a w' Hw Ho. split; [by eapply orderly_after; [exact Hg|exact Hw|]|].
  unfold locked in Hw. apply io_bind_inv in Hw as [([] & w1 & Hy & Hw)|(e & _ & Hw)]; [|done].
  destruct (orderly_after _ _ _ _ _ (guarantees_wait (R := steps) cfg) Hy Ho) as [[_ Hok] _].
  destruct (yield_seen _ _ _ Hy) as (h & Hh & Hin). unfold on_engine in Hw.
  destruct (m (w_engine w1)) as [r e] eqn:He. injection Hw as -> <-. exists h. split; [done|]. by eapply Hm.
Qed.
Lemma ends_reads {A} (f : state -> result A BackendError) :
  ends_with (locked cfg (reads f)) (fun h a => exists e, e ∈ h /\ BackendState.ok (e_state e) /\ f (e_state e) = Ok a).
Proof.
  apply ends_locked; [apply guarantees_read, _|]. intros h e a e' Hin Hok [= Hf _]. by exists e.
Qed.

Lemma ends_finalized : ends_with (network cfg n_finalized_context) (fun _ => final).
Proof. apply ends_network. intros n c n'. apply finalized_is_final. Qed.
Lemma ends_commitment context id : ends_with (commitment_at cfg context id) (fun _ => committed context id).
Proof.
  eapply ends_bind with (Q := fun _ v => v = storage_of context id MANAGED_STATE_COMMITMENT_KEY_V1).
  { apply ends_locked; [apply guarantees_do; [apply _|apply locally_calm, silent_commitment]|]. intros h e a e' _ _ Ha.
    apply net_Ok in Ha as [Ha _]. by eapply storage_answer. }
  intros ? v ->. apply ends_lift.
Qed.

Create HintDb ends.
Hint Extern 0 (PreOrder _) => apply relations.rtc_po : ends.
Hint Resolve guarantees_lifted guarantees_ensured guarantees_returned guarantees_failed guarantees_net guarantees_loaded guarantees_read
  guarantees_wait guarantees_asks guarantees_asked' guarantees_called' guarantees_calls guarantees_time guarantees_enqueues
  guarantees_committed guarantees_require : ends.
(** A step whose result is not needed. *)
Ltac skip := eapply ends_bind; [eapply ends_of; solve [eauto with ends]|intros ? ? _].
(** A step of which the result is known. *)
Tactic Notation "given" simple_intropattern(x) simple_intropattern(H) := eapply ends_bind; [apply ends_lift|intros ? x H].

(** ** Managed state *)

(** A provider's answer is the value of the map of the root, with a proof of it. *)
Lemma provider_get_exact (p : FullStateProvider.t) service root key response :
  FullStateProvider.ok p -> FullStateProvider.get p service root key = Ok response ->
  exists m, root_of m = root /\ qr_state_root response = root /\ qr_key response = key /\ qr_value response = m !! key
    /\ trie_get (proof_into_db (qr_proof response)) root key = Some (m !! key).
Proof.
  intros Hp Hg. unfold FullStateProvider.get in Hg. apply rbind_Ok in Hg as (st & Hst & Hg).
  destruct (FullStateProvider.state_at_root _ _ _ _ Hp Hst) as [<- [m Hm]]. apply rbind_Ok in Hg as (v & Hv%map_err_Ok & Hg).
  apply rbind_Ok in Hg as (proof & Hproof%map_err_Ok & Hg). injection Hg as <-. rewrite (FullState.get_rep st m key Hm) in Hv. injection Hv as <-.
  destruct (FullState.proof_for_rep st m [key] Hm) as (nodes & Hn & Hall). rewrite Hn in Hproof. injection Hproof as ->.
  exists m. split_and!; try done; [by destruct Hm|]. cbn [qr_proof]. by apply Hall, list_elem_of_singleton.
Qed.

(** An answer that shows the value of [key] in the map of [root]. *)
Definition shows_value (v : value) (key root : bytes) (m : kv) : Prop :=
  root_of m = root /\ v_get v (bstr "stateRoot") = Some (v_hash root)
  /\ v_get v (bstr "valueBase64") = Some (null_or (fun b => v_string (b64_encode b)) (m !! key)).

(** An answer with a proof from which anybody who knows the root reads the value. *)
Definition shows_proof (v : value) (key root : bytes) (m : kv) : Prop :=
  exists proof, v_get v (bstr "proofBase64") = Some (v_array (map (fun node => v_string (b64_encode node)) proof))
    /\ trie_get (proof_into_db proof) root key = Some (m !! key).

(** The value is the one of the map whose root the chain has committed to in the
    finalized context the answer names. *)
Definition canonical_answer (params : value) (with_proof : bool) (v : value) : Prop :=
  exists id text key context root m,
    required_u32 params (bstr "serviceId") = Ok id /\ required_str params (bstr "keyBase64") = Ok text /\ b64_decode text = Ok key
    /\ final context /\ committed context id root
    /\ v_get v (bstr "finalizedContext") = Some (v_object (context_fields context))
    /\ v_get v (bstr "managedStateRoot") = Some (v_hash root)
    /\ shows_value v key root m
    /\ if with_proof then shows_proof v key root m else v_get v (bstr "proofBase64") = None.

(** C11: a value [get_state] answers with is the value of the key in the map whose
    root the chain has committed to in the finalized context the answer names,
    whatever other threads do in the meantime; with a proof, the proof gives that
    value to anybody who knows the root, and without one none is sent. *)
Theorem state_answer_exact (params : value) (with_proof : bool) (w w' : world) (v : value) :
  orderly w -> h_network opts = true -> get_state cfg opts params with_proof w = (Ok v, w') ->
  canonical_answer params with_proof v.
Proof.
  intros Ho Hnet Hv. enough (ends_with (get_state cfg opts params with_proof) (fun _ => canonical_answer params with_proof)) as He
    by (by destruct (He w v w' Hv Ho) as (_ & h & _ & ?)).
  clear w v w' Hv Ho. unfold get_state. given id Hid. given text Htext. given key Hkey%map_err_Ok. skip. destruct a as [service_key mroot].
  eapply ends_bind with (Q := fun _ p => exists context, p.1 = Some context /\ final context /\ committed context id p.2).
  { unfold canonical_state_root. rewrite Hnet. eapply ends_bind; [apply ends_finalized|intros ? context Hf].
    eapply ends_bind; [apply ends_commitment|intros ? root Hc]. apply ends_ret. eauto. }
  intros ? [c root] (context & Hc & Hf & Hroot). simpl in Hc, Hroot. subst c. skip.
  eapply ends_bind; [apply ends_reads|intros ? response (e & _ & Hs & Hr)]. cbv zeta.
  apply rbind_Ok in Hr as (current & _ & Hr). apply bail_if_Ok in Hr as [_ Hr%map_err_Ok].
  destruct (provider_get_exact _ _ _ _ _ (BackendState.ok_provider _ (proj1 Hs)) Hr) as (m & Hm & Hrs & Hrk & Hrv & Hrp).
  apply ends_ret. exists id, text, key, context, root, m. unfold shows_value, shows_proof, query_json.
  split_and!; try done; destruct with_proof; field_of; rewrite ?Hrs, ?Hrv; try done. by exists (qr_proof response).
Qed.
(** ** Transactions *)

Notation field v name := (v_get v (bstr name)).

(** In what follows [h] are the states of the backend, with its network, that were
    seen while a request ran. *)

(** The prediction the backend had for the work of the transaction. *)
Definition predicted (h : list engine) (x : LogicalTransaction) (package : bytes) (output : RefineOutput.t) : Prop :=
  exists e, e ∈ h /\ BackendState.prediction (e_state e) (lt_service_id x) package = Some output.

(** The work is final: the finalized chain is at its root, and its receipts are shown. *)
Definition shown_final (h : list engine) (x : LogicalTransaction) (package : bytes) (v : value) : Prop :=
  exists context output, final context /\ predicted h x package output /\ committed context (lt_service_id x) (RefineOutput.new_root output)
    /\ field v "actionReceipts" = Some (canonical_action_receipts (RefineOutput.receipts output)).

(** The work is on the best chain, which is shown. *)
Definition shown_included (h : list engine) (x : LogicalTransaction) (package : bytes) (v : value) : Prop :=
  exists context output, best context /\ predicted h x package output /\ committed context (lt_service_id x) (RefineOutput.new_root output)
    /\ field v "bestContext" = Some (typed_context (bstr "best") context).

(** The formal service, asked about the work, says that it failed. *)
Definition work_failed (h : list engine) (x : LogicalTransaction) (package : bytes) : Prop :=
  exists e answer n', e ∈ h /\ n_work_status (work_params (mkWorkKey (lt_service_id x) package)) (e_net e) = (Ok answer, n')
    /\ field answer "status" ≫= v_as_str = Some (bstr "failed").

Definition meant (h : list engine) (x : LogicalTransaction) (v : value) : Prop :=
  (field v "finalized" ≫= v_as_bool = Some true \/ is_Some (field v "actionReceipts") ->
     exists package, lt_package_hash x = Some package /\ shown_final h x package v)
  /\ (field v "status" ≫= v_as_str = Some (bstr "imported") ->
     exists package, lt_package_hash x = Some package /\ (shown_final h x package v \/ shown_included h x package v))
  /\ (field v "status" ≫= v_as_str = Some (bstr "failed") ->
     told_failed x = true \/ exists package, lt_package_hash x = Some package /\ work_failed h x package).

(** What an answer about the work says is so. *)
Definition work_known (h : list engine) (x : LogicalTransaction) (package : bytes) (result : value) : Prop :=
  (forall receipts, field result "actionReceipts" = Some receipts ->
     exists context output, final context /\ predicted h x package output /\ committed context (lt_service_id x) (RefineOutput.new_root output)
       /\ receipts = canonical_action_receipts (RefineOutput.receipts output))
  /\ (field result "status" ≫= v_as_str = Some (bstr "failed") -> work_failed h x package).
Definition best_known (h : list engine) (x : LogicalTransaction) (package : bytes) (b : option best_chain) : Prop :=
  match b with
  | Some (BestIncluded context) => best context
      /\ exists output, predicted h x package output /\ committed context (lt_service_id x) (RefineOutput.new_root output)
  | _ => True
  end.

Lemma predicted_more h h' x package output : h ⊆ h' -> predicted h x package output -> predicted h' x package output.
Proof. intros Hh (e & He & Hp). exists e. auto. Qed.
Lemma work_known_more h h' x package result : h ⊆ h' -> work_known h x package result -> work_known h' x package result.
Proof.
  intros Hh [Hr Hf]. split.
  - intros receipts (context & output & ? & Hp & ?)%Hr. exists context, output.
    split_and!; [done|by eapply predicted_more|naive_solver..].
  - intros (e & a & n & He & Hp)%Hf. exists e, a, n. auto.
Qed.
Lemma best_known_more h h' x package b : h ⊆ h' -> best_known h x package b -> best_known h' x package b.
Proof.
  intros Hh. destruct b as [[context| | |]|]; try done. intros (Hb & output & Hp & Hc). split; [done|]. exists output.
  split; [by eapply predicted_more|done].
Qed.

Lemma shown_imported ws reorged included : shown_status ws reorged included = bstr "imported" -> included = true.
Proof. unfold shown_status. destruct reorged, included; [done..|]. repeat case_match; intros Heq; vm_compute in Heq; discriminate Heq. Qed.
Lemma shown_failed ws reorged included : shown_status ws reorged included = bstr "failed" -> ws = bstr "failed".
Proof.
  unfold shown_status. destruct reorged, included; try (intros Heq; vm_compute in Heq; discriminate Heq).
  repeat case_match; try (intros Heq; vm_compute in Heq; discriminate Heq). intros _. by eapply bool_decide_eq_true_1.
Qed.

(** What [status] answers for work: receipts only when it is final, and the state
    the formal service reported. *)
Lemma work_answer (x : LogicalTransaction) package :
  ends_with (locked cfg (work_locked (mkWorkKey (lt_service_id x) package))) (fun h '(result, _) =>
    u32_ok (lt_service_id x) -> hash_ok package -> work_known h x package result).
Proof.
  apply ends_locked; [apply guarantees_do; [apply _|apply locally_work]|]. intros h e [result fin] e' Hin Hok Hw Hid Hpk. unfold work_locked in Hw.
  apply io_bind_inv in Hw as [(result' & e1 & Hst & Hw)|(? & _ & Hw)]; [|discriminate Hw].
  apply io_bind_inv in Hw as [(f & e2 & Hf & Hw)|(? & _ & Hw)]; [|discriminate Hw]. injection Hw as -> _ _. split.
  - intros receipts Hr. destruct (status_receipts _ _ _ _ _ Hst Hr) as (id & text & hash & output & Hi & Ht & Hh & Hp & Hc & -> & _).
    cbn [wk_service_id wk_package_hash] in *. revert Hi Ht Hc. field_of. cbn [mbind option_bind]. unfold as_u32, v_hash.
    rewrite num_is_u64 by (unfold u32_ok, u64_ok, U32_MAX, U64_MAX in *; lia). cbn [mbind option_bind]. rewrite string_is_str.
    intros Hi [= <-] (answer & n1 & context & n2 & commitment & n3 & c & _ & _ & Hctx & Hsto & Hdec & Hroot).
    rewrite parse_hash_hex in Hh by done. injection Hh as <-. unfold u32_try_from, try_from_max in Hi.
    destruct (lt_service_id x <=? U32_MAX); [|done]. injection Hi as <-.
    exists context, output. split_and!; [by eapply finalized_is_final|by exists e| |done].
    unfold committed. rewrite <- (storage_answer _ _ _ _ _ _ Hsto). unfold committed_root. by rewrite Hdec, <- Hroot.
  - intros Hs. destruct (status_reported _ _ _ _ Hst) as (answer & n' & Hn & Heq). exists e, answer, n'. by rewrite <- Heq.
Qed.

(** What the best chain is seen to be. *)
Lemma best_answer id (x : LogicalTransaction) package :
  ends_with (look_at_best cfg id x package) (fun h b => best_known h x package (Some b)).
Proof.
  unfold look_at_best. eapply ends_bind; [apply ends_reads|intros h prediction (e & Hin & _ & [= Hp])]. destruct prediction as [output|]; [|by apply ends_ret].
  eapply ends_bind with (Q := fun _ r => match r with Ok (context, root) => best context /\ committed context (lt_service_id x) root | Err _ => True end).
  { eapply ends_weaken; [apply ends_caught with (Q := fun _ p => best p.1 /\ committed p.1 (lt_service_id x) p.2)|].
    - apply guarantees_then; [eauto with ends..|intros c]. apply guarantees_then; eauto with ends.
    - eapply ends_bind; [apply ends_network; intros n c n'; apply best_is_best|intros ? context Hc].
      eapply ends_bind; [apply ends_commitment|intros ? root Hr]. by apply ends_ret.
    - by intros _ [[context root]|]. }
  intros h' [[context root]|] Hr; [|by apply ends_ret]. case_bool_decide as Hroot.
  - skip. apply ends_ret. destruct Hr as [Hb Hc]. split; [done|]. exists output. subst root. split; [exists e; split; [set_solver|done]|done].
  - case_match; apply ends_ret; by destruct (lt_best_included x).
Qed.
(** The answers the coordinator gives by itself. *)
Lemma settled_meant h id x v : settled_answer id x = Some v -> meant h x v.
Proof.
  unfold settled_answer, meant, transaction_fields. cbn [app].
  destruct (lt_submission_unknown x) eqn:Hu; [|destruct (lt_error x) as [error|] eqn:He].
  - intros [= <-]. field_of. cbn [mbind option_bind]. rewrite string_is_str. split_and!; try (by intros [?|[]]); by intros [=].
  - intros [= <-]. field_of. cbn [mbind option_bind]. rewrite string_is_str. split_and!; [by intros [?|[]]|by intros [=]|]. intros _. left.
    unfold told_failed. by rewrite He, Hu.
  - case_bool_decide; [done|]. intros [= <-]. field_of. cbn [mbind option_bind]. rewrite string_is_str. split_and!; [by intros [?|[]]|by intros [=]..].
Qed.

Lemma packaged_meant h id x package : meant h x (packaged_answer id x package).
Proof.
  unfold packaged_answer, meant, transaction_fields. field_of. cbn [mbind option_bind]. rewrite string_is_str.
  split_and!; [by intros [?|[]]|by intros [=]..].
Qed.

(** The answer about work that is on its way. *)
Lemma status_meant h id x package result finalized b :
  lt_package_hash x = Some package -> work_known h x package result ->
  finalized = is_array (field result "actionReceipts") -> best_known h x package b ->
  meant h x (status_answer id x package result finalized b).
Proof.
  intros Hpk [Hfinal Hfailed] Hfin Hbest. set (v := status_answer id x package result finalized b).
  assert (field v "status" = Some (v_string (shown_status (default [] (field result "status" ≫= v_as_str))
    (match b with Some Reorged => true | _ => false end) (match b with Some (BestIncluded _) => true | _ => finalized end)))
    /\ field v "finalized" = Some (v_bool finalized)
    /\ field v "actionReceipts" = field result "actionReceipts"
    /\ (forall context, b = Some (BestIncluded context) -> field v "bestContext" = Some (typed_context (bstr "best") context))) as (Hs & Hf & Ha & Hb).
  { unfold v, status_answer. destruct (field result "actionReceipts"), b as [[]|]; (split_and!; [..|intros ? [=]; subst]); field_of; done. }
  clearbody v. assert (is_Some (field result "actionReceipts") -> shown_final h x package v) as Hshow.
  { intros [receipts Hr]. destruct (Hfinal _ Hr) as (context & output & ? & ? & ? & ->). exists context, output. rewrite Ha. done. }
  assert (finalized = true -> is_Some (field result "actionReceipts")) as Hfin'.
  { intros ->. unfold is_array in Hfin. destruct (field result "actionReceipts"); [done|discriminate Hfin]. }
  unfold meant. rewrite Hs, Hf, Ha. cbn [mbind option_bind]. rewrite string_is_str, bool_is_bool. split_and!.
  - intros [[= ->]|Hr]; exists package; auto.
  - intros [= Him%shown_imported]. exists package. split; [done|]. destruct b as [[context| | |]|]; auto.
    destruct Hbest as (Hbest & output & Hp & Hc). right. exists context, output. split_and!; auto.
  - intros [= Hf'%shown_failed]. right. exists package. split; [done|]. apply Hfailed. by destruct (field result "status" ≫= v_as_str); [simpl in Hf'; subst|].
Qed.

(** Rust's types: the number of the service and the hash of the work. *)
Definition typed_transaction (x : LogicalTransaction) : Prop := u32_ok (lt_service_id x) /\ opt_ok hash_ok (lt_package_hash x).

(** C12: what a client is told about a transaction is true, whatever other threads do
    in the meantime: it is shown as final, or with receipts, only when the finalized
    chain is at the root the backend, in a state it had while the request ran, predicts
    for its work, and the receipts are the ones of that prediction; as imported only when it is final or the best chain shown is at that root;
    and as failed only when the coordinator had it fail or the formal service says
    that its work failed. *)
Theorem transaction_status_exact (params : value) (w w' : world) (v : value) :
  orderly w -> transaction_status cfg opts params w = (Ok v, w') ->
  exists id w1 x h, required_str params (bstr "transactionId") = Ok id /\ yield cfg w = (Ok tt, w1)
    /\ transaction (w_coordinator w1) id = Some x /\ w_engines w' = w_engines w ++ h /\ (typed_transaction x -> meant h x v).
Proof.
  intros Ho Hv. unfold transaction_status in Hv. apply io_bind_inv in Hv as [(id & w0 & Hid & Hv)|(? & _ & Hv)]; [|discriminate Hv].
  apply lift_Ok in Hid as [Hid ->]. apply io_bind_inv in Hv as [(o & w2 & Hask & Hv)|(? & _ & Hv)]; [|discriminate Hv].
  unfold asked in Hask. apply io_bind_inv in Hask as [([] & w1 & Hy & Hask)|(? & _ & Hask)]; [|discriminate Hask].
  injection Hask as <- <-. apply io_bind_inv in Hv as [(x & w2 & Hx & Hv)|(? & _ & Hv)]; [|discriminate Hv].
  apply lift_Ok in Hx as [Hx%ok_or_Ok ->]. exists id, w1, x.
  destruct (orderly_after _ _ _ _ _ (guarantees_wait (R := steps) cfg) Hy Ho) as (Ho1 & _ & h1 & Hh1).
  match type of Hv with ?m _ = _ => enough (ends_with m (fun h v => typed_transaction x -> meant (h1 ++ h) x v)) as He end.
  { destruct (He _ _ _ Hv Ho1) as (_ & h & Hh & Hm). exists (h1 ++ h). split_and!; try done. by rewrite Hh, Hh1, app_assoc. }
  clear Hv Ho Ho1 Hy Hh1.
  destruct (settled_answer id x) as [answer|] eqn:Hset; [apply ends_ret; intros _; by apply (settled_meant _ id)|].
  destruct (lt_package_hash x) as [package|] eqn:Hpk; [|apply ends_fail]. case_match; [apply ends_fail|].
  eapply ends_bind; [apply ends_caught, (work_answer x package); apply guarantees_do; [apply _|apply locally_work]|].
  intros h2 [[result fin]|error] Hr. 2:{ destruct error; first [apply ends_fail | apply ends_ret; intros _; apply packaged_meant]. }
  eapply ends_bind with (Q := fun _ _ => True).
  { apply (ends_of _ (fun _ => True)). destruct (lt_batch_id x); [|eauto with ends]. apply guarantees_then; [eauto with ends..|intros _].
    case_match; eauto with ends. }
  intros h3 _ _. cbv zeta. eapply ends_bind with (Q := fun h => best_known h x package); [|intros h4 b Hb; apply ends_ret; intros [Hu Hh]; rewrite Hpk in Hh; apply status_meant; [done| |done|];
      [eapply work_known_more, Hr; [set_solver|done..]|eapply best_known_more, Hb; set_solver]].
  case_match; [|by apply ends_ret]. eapply ends_bind; [apply best_answer|intros h4 b Hb]. apply ends_ret. rewrite app_nil_r. exact Hb.
Qed.
End Answers.
