(* ===== verification/HandlerRegistry.v ===== *)
(** * Which services requests register

    Requests register a service with the program the finalized chain runs for it,
    or with what the operator who knows the control-plane token says; no other
    request touches the registry. *)

From S2P Require Import Prelude Ordering Reader Wire Fields ServiceKeys StateView StateDiff Records Witness RefineInput Dependencies RefineOutput Ownership Crypto Actions ActionsV2 GuestMemory State ModelTrie Overlays Provider BackendBase Registry Envelope Database BackendState Selection JsonValue Coordinator CoordinatorInvariant Engine EngineCorrect Dispatcher DispatcherCorrect Gateway Handler HandlerCorrect HandlerAnswers.

Section Registrations.
Context `{Blake2} `{Trie} `{RocksDb} `{SerdeJson} `{Json}.
Context {N : Type} `{!BackendNetwork N} `{!ChainFacts} `{ArtifactStore N} `{Polkavm} `{PayloadBase64} `{ErrorText} `{ScaleBytes}.
Context (cfg : Coordinator.config) (opts : Handler.options).
Import Coordinator BackendEngine Dispatcher Answers Handler.
Notation state := (BackendState.t (P := PvmApplication.t)).
Notation engine := (BackendEngine.t (P := PvmApplication.t) (N := N)).
Notation world := (Dispatcher.world (P := PvmApplication.t) (N := N)).

(** ** What leaves the registry alone *)

Definition keeps_registry {A} (m : io engine A) : Prop :=
  forall e r e', m e = (r, e') -> BackendState.registry (e_state e') = BackendState.registry (e_state e).

Lemma kept_bind {A B} (m : io engine A) (k : A -> io engine B) : keeps_registry m -> (forall a, keeps_registry (k a)) -> keeps_registry (m ≫= k).
Proof.
  intros Hm Hk e r e' [(a & e1 & He & He1)|(er & He & _)]%io_bind_inv; [|by eapply Hm]. rewrite (Hk _ _ _ _ He1). by eapply Hm.
Qed.
Lemma kept_silent {A} (m : io engine A) : silent m -> keeps_registry m.
Proof. intros Hm e r e' He. by destruct (Hm _ _ _ He) as [-> _]. Qed.
Lemma kept_state {A} (m : state -> result A BackendError * state) :
  (forall s, BackendState.registry (m s).2 = BackendState.registry s) -> keeps_registry (on_state m).
Proof. intros Hm e r e'. unfold on_state. specialize (Hm (e_state e)). destruct (m (e_state e)). by intros [= _ <-]. Qed.

Create HintDb kept.
Hint Resolve silent_ret silent_lift silent_ensure silent_reads silent_net silent_commitment silent_prepare kept_silent : kept.
Ltac kept := repeat first [progress intros | solve [eauto with kept] | apply kept_bind | case_match].

Lemma kept_materialize key root (s : state) : BackendState.registry (BackendState.materialize_if_canonical key root s).2 = BackendState.registry s.
Proof.
  unfold BackendState.materialize_if_canonical. destruct (BackendState.pending s !! key) as [o|]; [|done]. case_match; [done|].
  destruct (BackendState.get_service s (wk_service_id key)); [|done].
  destruct (BackendState.commit_recovery _ _ _ _) as [[] s'] eqn:Hc; by apply BackendState.commit_recovery_fields in Hc as [? _].
Qed.
Lemma kept_snapshot id root (s : state) : BackendState.registry (BackendState.materialize_prediction_snapshot id root s).2 = BackendState.registry s.
Proof.
  unfold BackendState.materialize_prediction_snapshot. destruct (BackendState.find_prediction s id root); [|done].
  destruct (BackendState.get_service s id); [|done]. case_match; [done|]. by destruct (BackendState.next_state _ _ _ _) as [[]|].
Qed.

Lemma kept_drop key output root : keeps_registry (drop_stale key output root).
Proof. intros e r e'. unfold drop_stale. case_match; by intros [= _ <-]. Qed.
Lemma kept_settle key context root result : keeps_registry (settle_status key context root result).
Proof.
  unfold settle_status. apply kept_bind; [kept|intros expected]. apply kept_bind; [destruct expected; [apply kept_drop|kept]|intros []].
  apply kept_bind; [by apply kept_state|intros []]. apply kept_bind; [apply kept_state, kept_materialize|intros b]. kept.
Qed.
Hint Resolve kept_settle : kept.
Lemma kept_status params : keeps_registry (status params).
Proof. unfold status. kept. Qed.
Lemma kept_submit_actions params actions : keeps_registry (submit_actions params actions).
Proof.
  apply kept_bind.
  { intros e r e'. unfold map_error. destruct (prepare_work params actions e) as [r1 e1] eqn:Hp. intros [= _ <-].
    by destruct (silent_prepare _ _ _ _ _ Hp) as [-> _]. }
  intros [[forwarded prediction] id]. apply kept_bind.
  { intros e r e'. unfold call_submit_work. destruct (n_submit_work forwarded (e_net e)) as [r1 n]. by intros [= _ <-]. }
  intros response. unfold settle_submission. kept. apply kept_state. intros s. unfold BackendState.track_prediction.
  by destruct (BackendState.get_service s id).
Qed.
Hint Resolve kept_status kept_submit_actions : kept.
Lemma kept_submit params : keeps_registry (submit params).
Proof. unfold submit. kept. Qed.
Lemma kept_work key : keeps_registry (work_locked key).
Proof. unfold work_locked. kept. Qed.
Lemma kept_query id root key on_chain : keeps_registry (query_locked id root key on_chain).
Proof. unfold query_locked. kept. apply kept_state. intros s. apply kept_snapshot. Qed.

(** ** What is registered *)

(** The record of a service as the chain and its program have it: the code hash is
    the one of the service in a finalized context, the program in the artifact
    store under the digest of the record hashes to it, and the metadata of the
    program name the key of the service. *)
Definition on_chain (record : ServiceRecord) : Prop :=
  (exists context info, final context /\ service_of context (sr_service_id record) = Some info /\ sr_code_hash record = si_code_hash info)
  /\ (exists n a n', PvmApplication.load_pvm (sr_application_artifact record) n = (Ok a, n')
        /\ PvmApplication.canonical_code_hash a = sr_code_hash record)
  /\ (exists n a n' metadata, PvmApplication.load_pvm (sr_application_artifact record) n = (Ok a, n')
        /\ PvmApplication.metadata a = Ok metadata /\ BackendMetadata.service_key metadata = sr_service_key record).

(** Only records of [J] are registered. *)
Definition registers (J : ServiceRecord -> Prop) (s s' : state) : Prop :=
  BackendState.registry s' = BackendState.registry s
  \/ exists record, J record /\ BackendState.registry s' = (ServiceRegistry.register record (BackendState.registry s)).2.

Section Justified.
Context (J : ServiceRecord -> Prop).
Notation R := (rtc (registers J)).

Lemma kept_within {A} (m : io engine A) : keeps_registry m -> locally (N := N) (R := R) m (fun _ => True).
Proof. intros Hm e r e' He. split; [|by destruct r]. apply rtc_once. left. by eapply Hm. Qed.

Lemma within_register record upgrade planner : J record -> locally (N := N) (R := R) (register_locked record upgrade planner) (fun _ => True).
Proof.
  intros HJ. unfold register_locked. eapply locally_bind; [apply kept_within, kept_silent, silent_reads|intros [] _].
  eapply locally_bind.
  { apply locally_state. intros s. apply rtc_once. right. exists record. split; [done|]. unfold BackendState.register.
    destruct (ServiceRegistry.register record (BackendState.registry s)) as [[[]|e] r]; [by case_match|done]. }
  intros [] _. eapply locally_bind; [|intros [] _; eapply locally_bind; [|intros [] _; apply kept_within, kept_silent, silent_ret]].
  - apply kept_within, kept_state. intros s. apply planned_get.
  - apply kept_within, kept_state. intros s. unfold BackendState.persist_service. destruct (BackendState.database s); [|done].
    by destruct (BackendDatabase.persist_service _ _).
Qed.

Create HintDb within.
Hint Extern 0 (PreOrder _) => apply relations.rtc_po : within.
Hint Resolve guarantees_lifted guarantees_ensured guarantees_returned guarantees_net guarantees_loaded guarantees_require : within.
Ltac past := eapply guarantees_bind; [solve [eauto with within]|intros ? _].
Ltac goes := repeat first [progress intros | solve [eauto with within] | apply relations.rtc_po | apply guarantees_then | case_match].

(** A loaded program. *)
Lemma loaded {A} (f : PvmApplication.t -> result A BackendError) artifact :
  guarantees (R := R) (loader cfg f artifact) (fun b => exists n a n', PvmApplication.load_pvm artifact n = (Ok a, n') /\ f a = Ok b).
Proof.
  eapply guarantees_bind.
  { apply guarantees_caught, (guarantees_answer cfg (PvmApplication.load_pvm artifact)
      (fun a => exists n n', PvmApplication.load_pvm artifact n = (Ok a, n'))). eauto. }
  intros r Hr. eapply guarantees_weaken; [apply guarantees_lift|]. intros b Hb%map_err_Ok. destruct r as [a|]; [|done].
  destruct Hr as (n & n' & Hl). eauto.
Qed.

Context (Hchain : forall record, on_chain record -> J record).

Lemma within_discover params : guarantees (R := R) (discover_service cfg opts params) (fun _ => True).
Proof.
  unfold discover_service. past. past.
  eapply guarantees_bind; [apply guarantees_answer; [apply _|]; intros n c n'; apply finalized_is_final|intros context Hfinal]. past.
  eapply guarantees_bind; [apply guarantees_answer; [apply _|]; intros n i n'; apply info_answer|intros info Hinfo].
  eapply guarantees_bind; [apply guarantees_lift|intros chain Hc%ok_or_Ok]. subst info. past. past. past.
  eapply guarantees_bind with (Q := fun _ => True).
  { unfold stored_artifact, fetch_artifact. goes. }
  intros digest _. cbv zeta. eapply guarantees_bind; [apply loaded|intros hash (n & program & n' & Hload & [= Hhash])].
  eapply guarantees_bind; [apply guarantees_ensure|intros [] Heq%bool_decide_eq_true].
  eapply guarantees_bind; [apply loaded|intros metadata (n1 & program1 & n1' & Hload1 & Hmeta)].
  eapply guarantees_bind with (Q := fun _ => True); [goes|intros _ _]. past.
  apply guarantees_locked; [apply _|]. apply within_register, Hchain. split_and!; cbn [sr_service_id sr_code_hash sr_application_artifact sr_service_key].
  - by exists context, chain.
  - exists n, program, n'. split; [done|]. congruence.
  - by exists n1, program1, n1', metadata.
Qed.
(** The operator may register any record. *)
Lemma within_registration params : (admin opts params = true -> forall record, J record) ->
  guarantees (R := R) (register_service cfg opts params) (fun _ => True).
Proof.
  intros HJ. unfold register_service. past. case_match; [apply within_discover|].
  eapply guarantees_bind; [apply guarantees_ensure|intros [] Hadmin]. past.
  eapply guarantees_bind with (Q := fun _ => True); [goes|intros _ _]. past.
  apply guarantees_locked; [apply _|]. by apply within_register, HJ.
Qed.
End Justified.

(** C13: a request registers a service only as the chain and its program have it,
    unless it carries the control-plane token: beside threads that register
    nothing else, it changes the registry only by registering records that are
    on chain or that come with the token. *)
Theorem registrations_justified (name : bytes) (params : value) (w w' : world) r :
  let J := fun record => on_chain record \/ admin opts params = true in
  friendly (R := rtc (registers J)) w -> handle cfg opts name params w = (r, w') ->
  rtc (registers J) (backend w) (backend w').
Proof.
  intros J Hf Hr. assert (forall record, on_chain record -> J record) as HJ by (by left).
  enough (forall m, guarantees (R := rtc (registers J)) (perform_method cfg opts m params) (fun _ => True)) as Hm.
  { unfold handle in Hr. destruct (assoc methods name) as [m|]; [by destruct (Hm m w r w' Hr Hf) as (_ & ? & _)|].
    injection Hr as _ <-. reflexivity. }
  intros m. apply guarantees_methods; [apply _|..]; try (intros; apply kept_within).
  - apply kept_status.
  - apply kept_submit.
  - apply kept_work.
  - apply kept_query.
  - intros params'. by apply within_discover.
  - apply within_registration; [done|]. by right.
Qed.
End Registrations.
