(* ===== verification/HandlerToy.v ===== *)
(** * A daemon to ask

    A chain with one commitment, an artifact store with one program and a backend
    that has followed one piece of work: the requests of the daemon run on it
    beside another thread. *)

From S2P Require Import Prelude Ordering Reader Wire Fields ServiceKeys StateView StateDiff Records Witness RefineInput Dependencies RefineOutput Ownership Crypto Actions ActionsV2 GuestMemory State ModelTrie Overlays Provider BackendBase Registry Envelope Database BackendState Selection JsonValue Coordinator CoordinatorInvariant Engine EngineCorrect Dispatcher DispatcherCorrect Gateway Handler HandlerCorrect HandlerAnswers HandlerRegistry.

Module HandlerToy.
Import Coordinator Dispatcher.
#[global] Instance hash : Blake2 := Toy.blake2.

(** The work: it stores one byte. *)
Definition map1 : kv := {[ [x01] := [x05] ]}.
Definition output : RefineOutput.t :=
  match RefineOutput.from_diff EMPTY_STATE_ROOT_V1 (model_root map1) [] (StateDiff.mk [mkEntry [x01] (Some [x05])]) with
  | Ok o => o
  | Err _ => RefineOutput.mk x00 [] [] [] None [] [] []
  end.
Definition package : bytes := repeat x03 32.
Definition key : WorkKey := mkWorkKey 5 package.

(** The chain, on which the work is final. *)
Definition commitment : bytes := Commitment.encode (Commitment.new (model_root map1)).
Definition context : FinalizedContextV1 := EngineToy.context.
Definition code_hash : bytes := repeat x0b 32.
#[global] Instance chain : BackendNetwork unit := {|
  n_genesis_hash n := (Ok Toy.domain, n);
  n_finalized_context n := (Ok context, n);
  n_best_context n := (Ok context, n);
  n_context_at _ n := (Ok context, n);
  n_service_info _ id n := (Ok (Some (mkServiceInfo id code_hash)), n);
  n_service_storage_at _ _ _ n := (Ok (Some commitment), n);
  n_service_code _ _ _ n := (Ok None, n);
  n_submit_work _ n := (Ok (v_object [(bstr "packageHash", v_hash package)]), n);
  n_work_status _ n := (Ok (v_object [(bstr "status", v_string (bstr "imported")); (bstr "actionReceipts", v_array [])]), n)
|}.
#[global] Instance chain_typed : NetworkTyped (N := unit).
Proof. split; [by intros n h n' [= <- _]|by intros n c n' [= <- _]|by intros c id n info n' [= <- _]]. Qed.
#[global] Instance facts : ChainFacts (N := unit).
Proof.
  refine {| final c := c = context; best c := c = context; storage_of _ _ _ := Some commitment;
            service_of _ id := Some (mkServiceInfo id code_hash) |}.
  - by intros n c n' [= <- _].
  - by intros n c n' [= <- _].
  - by intros c id k n v n' [= <- _].
  - by intros c id n i n' [= <- _].
Defined.

#[global] Instance store : ArtifactStore unit := {|
  as_put_verified _ _ n := (Ok 0, n);
  as_get_verified _ n := (Ok [x01], n);
  as_contains _ n := (Ok true, n)
|}.
(** The one program, which only tells its metadata. *)
#[global] Instance machine : Polkavm := {|
  canonical_pvm_code_hash _ := Ok code_hash;
  pvm_invoke _ export _ _ _ :=
    if bool_decide (export = bstr "jamscript_backend_metadata_v1")
    then Ok (BackendMetadata.encode (BackendMetadata.mk (repeat x07 32) 1 1 1)) else Err BE_InvalidEnvelope
|}.
#[global] Instance scale : ScaleBytes := {| scale_encode b := b; scale_decode _ b := Ok (b, []) |}.

Notation state := (BackendState.t (P := PvmApplication.t)).
Notation engine := (BackendEngine.t (P := PvmApplication.t) (N := unit)).
Notation world := (Dispatcher.world (P := PvmApplication.t) (N := unit)).

(** The backend, before and after it has seen that the work is final. *)
Definition state0 : state := BackendState.set_database sample_database BackendState.default_.
Definition state1 : state := (BackendState.register sample_service_record state0).2.
Definition state2 : state := (BackendState.track_prediction 5 package output state1).2.
Definition state3 : state := (BackendState.materialize_if_canonical key (model_root map1) state2).2.

Lemma output_typed : RefineOutput.typed output.
Proof.
  assert (RefineOutput.external_dependencies output = [] /\ RefineOutput.receipts output = []
    /\ RefineOutput.transition_valid_until output = None) as (Hd & Hr & Hv) by (split_and!; vm_compute; reflexivity).
  unfold RefineOutput.typed. rewrite Hd, Hr, Hv. split_and!; try done; vm_compute; reflexivity.
Qed.
Lemma state2_ok : BackendState.ok state2.
Proof.
  eapply (BackendState.steps_ok state0); [|apply BackendState.fresh_ok, sample_fresh].
  eapply rtc_l; [apply BackendState.step_register, sample_record_ok|]. apply rtc_once, BackendState.step_track, output_typed.
Qed.
Lemma state3_ok : BackendState.ok state3.
Proof. eapply (BackendState.steps_ok state2), state2_ok. apply rtc_once, BackendState.step_canonical. Qed.

(** Another thread registers a service. *)
Definition other : engine -> engine := fun e =>
  BackendEngine.mk (BackendState.register (sample_record 6 x02) (BackendEngine.e_state e)).2 (BackendEngine.e_net e) (BackendEngine.e_answers e).
Lemma record6_ok : record_ok (sample_record 6 x02).
Proof. repeat split; try (vm_compute; discriminate); reflexivity. Qed.
Lemma other_steps e : rtc BackendState.step (BackendEngine.e_state e) (BackendEngine.e_state (other e)).
Proof. apply rtc_once, BackendState.step_register, record6_ok. Qed.

Definition cfg : Coordinator.config := (Coordinator.new (Some 2) (Some 50) None None).1.
Definition opts : Handler.options := Handler.mkOptions true (Some (bstr "token")) 1.
Definition time (n : nat) : Z := 100 * Z.of_nat n.
Definition world_of (s : state) (c : Coordinator.t) (schedule : list (list section)) : world :=
  mkWorld (BackendEngine.mk s tt []) c time 0 schedule [] [] [] true.
Definition busy : list (list (section (P := PvmApplication.t) (N := unit))) := [[]; [OnEngine other; ReadsClock]].

(** The transaction of the work. *)
Definition coordinator : Coordinator.t :=
  fold_left (fun s c => perform cfg c s)
    [Enqueue 5 (EngineToy.signed [x2a]) (v_object []) 0 0; TakeReadyBatch 5 {[ Toy.key := 0 ]} 3 1000 1000 1000;
     FinishBatch (bstr "batch-0") package output] default_.
Definition transaction_id : bytes := match map_to_list (transactions coordinator) with (id, _) :: _ => id | [] => [] end.
Definition typedb (x : LogicalTransaction) : bool :=
  (0 <=? lt_service_id x) && (lt_service_id x <=? U32_MAX)
  && match lt_package_hash x with Some h => blen h =? 32 | None => true end.
Lemma typed_spec x : typedb x = true -> typed_transaction x.
Proof.
  unfold typedb, typed_transaction, u32_ok. intros [[?%Z.leb_le ?%Z.leb_le]%andb_prop Hp]%andb_prop. split; [lia|].
  destruct (lt_package_hash x); [by apply Z.eqb_eq|done].
Qed.
Lemma typed_all s id x : forallb (fun e => typedb e.2) (map_to_list (transactions s)) = true -> transaction s id = Some x -> typed_transaction x.
Proof. unfold transaction. intros Hall Hx%elem_of_map_to_list%list_elem_of_In. apply typed_spec. rewrite forallb_forall in Hall. exact (Hall _ Hx). Qed.
Lemma transactions_typed : forallb (fun e => typedb e.2) (map_to_list (transactions coordinator)) = true.
Proof. vm_compute. reflexivity. Qed.

(** The requests, each beside the other thread. *)
Definition state_query : value := v_object [(bstr "serviceId", v_num 5); (bstr "keyBase64", v_string [x01])].
Definition status_query : value := v_object [(bstr "transactionId", v_string transaction_id)].
Definition registration : value := v_object [(bstr "serviceId", v_num 7); (bstr "artifactDigest", v_hash (repeat x0a 32))].
Definition followed : world := world_of state3 default_ busy.
Definition pending : world := world_of state2 coordinator busy.
Definition idle : world := world_of state2 coordinator [[Submits 5 (EngineToy.signed [x2b]) (v_object [])]].
Definition registered : result value BackendError * world :=
  Handler.handle cfg opts (bstr "jamscript_registerServiceV1") registration idle.

Lemma busy_friendly s c : friendly (R := rtc BackendState.step) (world_of s c busy).
Proof.
  repeat constructor. intros e. apply other_steps.
Qed.
Lemma busy_waits s c w : yield cfg (world_of s c busy) = (Ok tt, w) -> w_coordinator w = c.
Proof. by intros [= <-]. Qed.
End HandlerToy.

(** ** The theorems on these runs *)

Lemma requests_are_sections_witness :
  exists sections, same_shared HandlerToy.registered.2 (fold_left (Dispatcher.run_section HandlerToy.cfg) sections HandlerToy.idle).
Proof.
  eapply (requests_are_sections HandlerToy.cfg HandlerToy.opts (bstr "jamscript_registerServiceV1") HandlerToy.registration
    HandlerToy.idle HandlerToy.registered.2 HandlerToy.registered.1).
  unfold HandlerToy.registered. apply surjective_pairing.
Defined.

Lemma daemon_moves_by_steps_witness :
  let w' := (Dispatcher.dispatcher HandlerToy.cfg 1 0 0 HandlerToy.pending).2 in
  rtc BackendState.step (backend HandlerToy.pending) (backend w') /\ BackendState.ok (backend w').
Proof.
  destruct (daemon_moves_by_steps HandlerToy.cfg HandlerToy.opts HandlerToy.pending
    (Dispatcher.dispatcher HandlerToy.cfg 1 0 0 HandlerToy.pending).2) as (Hs & _ & Hok).
  - apply HandlerToy.busy_friendly.
  - right. exists 1%nat, 0, 0, (Dispatcher.dispatcher HandlerToy.cfg 1 0 0 HandlerToy.pending).1. apply surjective_pairing.
  - split; [exact Hs|]. apply Hok, HandlerToy.state2_ok.
Defined.

Lemma state_answer_exact_witness :
  exists v w', Handler.get_state HandlerToy.cfg HandlerToy.opts HandlerToy.state_query true HandlerToy.followed = (Ok v, w')
    /\ canonical_answer HandlerToy.state_query true v.
Proof.
  assert (is_ok (Handler.get_state HandlerToy.cfg HandlerToy.opts HandlerToy.state_query true HandlerToy.followed).1 = true) as Hok
    by (vm_compute; reflexivity).
  destruct (Handler.get_state _ _ _ _ _) as [[v|e] w'] eqn:Hv; [|discriminate Hok]. exists v, w'. split; [reflexivity|].
  eapply (state_answer_exact HandlerToy.cfg HandlerToy.opts HandlerToy.state_query true HandlerToy.followed w' v); [|reflexivity|exact Hv].
  split; [apply HandlerToy.busy_friendly|apply HandlerToy.state3_ok].
Defined.

(** Whether an answer shows the transaction as final. *)
Definition says_final (r : result value BackendError) : bool :=
  match r with Ok v => bool_decide (v_get v (bstr "finalized") ≫= v_as_bool = Some true) | Err _ => false end.

Lemma transaction_status_exact_witness :
  exists v w' x package, Handler.transaction_status HandlerToy.cfg HandlerToy.opts HandlerToy.status_query HandlerToy.pending = (Ok v, w')
    /\ says_final (Ok v) = true /\ shown_final (Dispatcher.w_engines w') x package v.
Proof.
  assert (says_final (Handler.transaction_status HandlerToy.cfg HandlerToy.opts HandlerToy.status_query HandlerToy.pending).1 = true) as Hok
    by (vm_compute; reflexivity).
  destruct (Handler.transaction_status _ _ _ _) as [[v|e] w'] eqn:Hv; [|discriminate Hok]. cbn [fst] in Hok.
  destruct (transaction_status_exact HandlerToy.cfg HandlerToy.opts HandlerToy.status_query HandlerToy.pending w' v)
    as (id & w1 & x & h & Hid & Hy & Hx & Hh & Hm); [split; [apply HandlerToy.busy_friendly|apply HandlerToy.state2_ok]|exact Hv|].
  destruct Hm as [Hm _].
  { rewrite (HandlerToy.busy_waits _ _ _ Hy) in Hx. eapply HandlerToy.typed_all; [exact HandlerToy.transactions_typed|exact Hx]. }
  destruct Hm as (package & _ & Hf); [left; eapply bool_decide_eq_true_1; exact Hok|]. exists v, w', x, package.
  split; [reflexivity|]. split; [exact Hok|]. rewrite Hh. exact Hf.
Defined.

Lemma registrations_justified_witness :
  is_ok HandlerToy.registered.1 = true /\ Handler.admin HandlerToy.opts HandlerToy.registration = false
  /\ rtc (registers (fun record => on_chain (N := unit) record \/ Handler.admin HandlerToy.opts HandlerToy.registration = true))
       (backend HandlerToy.idle) (backend HandlerToy.registered.2).
Proof.
  split; [vm_compute; reflexivity|]. split; [vm_compute; reflexivity|].
  eapply (registrations_justified HandlerToy.cfg HandlerToy.opts (bstr "jamscript_registerServiceV1") HandlerToy.registration
    HandlerToy.idle HandlerToy.registered.2 HandlerToy.registered.1).
  - repeat constructor.
  - unfold HandlerToy.registered. apply surjective_pairing.
Defined.
