(* ===== verification/DeploymentBackend.v ===== *)
(** * A deployed service at its backend

    The answers of the backend as the client reads them, and what registration
    of a deployed service leaves at the backend that answered it. *)

From S2P Require Import Prelude Ordering Reader Wire Fields ServiceKeys StateView StateDiff Records Witness RefineInput Dependencies RefineOutput Ownership Crypto Actions ActionsV2 GuestMemory State ModelTrie Overlays Provider BackendBase Registry Envelope Database BackendState Selection Codec Text JsonValue Coordinator CoordinatorInvariant Engine EngineCorrect Dispatcher DispatcherCorrect Gateway Handler HandlerCorrect Deployment DeploymentCorrect.

(** ** The answers of the backend, as its clients read them *)

Section Answers.
Context `{JsonLaws} `{ErrorText}.
Import Answers CurlTransport.

(** The message a client sees for an error of the backend. *)
Definition client_message (error : BackendError) : bytes :=
  default (bstr "JSON-RPC error") (v_get (rpc_error error) (bstr "message") ≫= v_as_str).

(** No error of the backend looks like a missing method. *)
Lemma error_code_reserved error :
  exists code, v_get (rpc_error error) (bstr "code") = Some (v_num code) /\ - 2 ^ 63 <= code < 2 ^ 63 /\ code <> -32601.
Proof.
  unfold rpc_error, coded, coded_with. destruct error; cbv zeta; eexists; (split; [field_of; reflexivity|lia]).
Qed.

(** A client reads back what the backend answered: the result as it is, and an
    error as a rejection, or an invalid response of a read, with its message. *)
Theorem rpc_answers_round_trip (id : value) (r : result value BackendError) (method : bytes) (mutating : bool) :
  parse_json_rpc_response (json_response id r) method mutating =
  match r with
  | Ok v => Ok v
  | Err error => Err (mkDeploymentError (if mutating then DeploymentRejected else RpcInvalidResponse) (client_message error))
  end.
Proof.
  unfold parse_json_rpc_response, json_response. destruct r as [v|error]; field_of; cbn [mbind option_bind]; rewrite string_is_str;
    rewrite bool_decide_eq_true_2 by done; cbn [negb]; [done|].
  destruct (error_code_reserved error) as (code & -> & Hrange & Hne). cbn [mbind option_bind]. rewrite num_is_i64 by done.
  rewrite bool_decide_eq_false_2 by congruence. done.
Qed.
End Answers.

(** ** Registration *)

Section Registration.
Context `{Blake2} `{Trie} `{RocksDb} `{SerdeJson} `{JsonLaws}.
Context {N : Type} `{!BackendNetwork N} `{ArtifactStore N} `{Polkavm} `{PayloadBase64} `{ErrorText} `{ScaleBytes}.
Context (cfg : Coordinator.config) (opts : Handler.options).
Import Coordinator BackendEngine Dispatcher Answers Handler.
Notation state := (BackendState.t (P := PvmApplication.t)).
Notation engine := (BackendEngine.t (P := PvmApplication.t) (N := N)).
Notation world := (Dispatcher.world (P := PvmApplication.t) (N := N)).

(** Takes apart a computation that succeeded. *)
Ltac go H :=
  let w := fresh "w" in let x := fresh "x" in let Hx := fresh "Hx" in
  apply io_bind_inv in H as [(x & w & Hx & H)|(? & _ & H)]; [|discriminate H].

Lemma registered_found (record : ServiceRecord) (s s' : state) :
  BackendState.register record s = (Ok tt, s') -> BackendState.get_service s' (sr_service_id record) = Ok record.
Proof.
  unfold BackendState.register. destruct (ServiceRegistry.register record (BackendState.registry s)) as [[[]|e] r] eqn:Hr; [|done].
  intros [= <-]. unfold BackendState.get_service.
  assert (ServiceRegistry.by_id r !! sr_service_id record = Some record) as Hid.
  { revert Hr. unfold ServiceRegistry.register. repeat case_match; intros [= <-]; cbn; by rewrite lookup_insert_eq. }
  replace (BackendState.registry _) with r by (by case_match). unfold ServiceRegistry.get. by rewrite Hid.
Qed.

Lemma register_locked_Ok record upgrade planner (e e' : engine) v :
  register_locked record upgrade planner e = (Ok v, e') ->
  BackendState.get_service (e_state e') (sr_service_id record) = Ok record /\ v = service_json record.
Proof.
  unfold register_locked. intros Hr. go Hr. go Hr. go Hr. go Hr. injection Hr as <- <-. split; [|done].
  unfold on_state in *. destruct (BackendState.register record (e_state w)) as [r1 s1] eqn:Hg1. injection Hx0 as -> <-. destruct x0.
  apply registered_found in Hg1. cbn [e_state] in Hx1.
  assert (BackendState.registry (e_state w1) = BackendState.registry s1) as Hreg1.
  { destruct (BackendState.register_planner (sr_service_id record) planner s1) as [r2 s2] eqn:Hg2. injection Hx1 as _ <-.
    cbn [e_state]. revert Hg2. unfold BackendState.register_planner. destruct (BackendState.get_service s1 _); [|by intros [= _ <-]].
    destruct (ApplicationRegistry.bind _ _ _) as [r3 a]. by intros [= _ <-]. }
  assert (BackendState.registry (e_state w2) = BackendState.registry (e_state w1)) as Hreg2.
  { revert Hx2. destruct (BackendState.persist_service record (e_state w1)) as [r3 s3] eqn:Hg3. intros [= _ <-]. cbn [e_state]. revert Hg3.
    unfold BackendState.persist_service. destruct (BackendState.database (e_state w1)); [|by intros [= _ <-]].
    destruct (BackendDatabase.persist_service _ _) as [r4 d]. by intros [= _ <-]. }
  unfold BackendState.get_service in *. by rewrite Hreg2, Hreg1.
Qed.

(** The service [id] is registered with the code [hash], and [v] says so. *)
Definition registered_as (s : state) (id : Z) (hash : bytes) (v : value) : Prop :=
  exists record, BackendState.get_service s id = Ok record /\ sr_service_id record = id /\ sr_code_hash record = hash /\ v = service_json record.

Lemma locked_register_Ok record upgrade planner (w w' : world) v :
  locked cfg (register_locked record upgrade planner) w = (Ok v, w') ->
  registered_as (backend w') (sr_service_id record) (sr_code_hash record) v.
Proof.
  unfold locked. intros Hl. go Hl. unfold on_engine in Hl. destruct (register_locked record upgrade planner (w_engine w0)) as [r e] eqn:Hr.
  injection Hl as -> <-. apply register_locked_Ok in Hr as [Hg ->]. exists record. by split_and!.
Qed.

Lemma discover_Ok params (w w' : world) v id hash :
  required_u32 params (bstr "serviceId") = Ok id -> optional_hash params (bstr "expectedCodeHash") = Ok (Some hash) ->
  discover_service cfg opts params w = (Ok v, w') -> registered_as (backend w') id hash v.
Proof.
  intros Hid Hhash Hd. unfold discover_service in Hd. go Hd. apply lift_Ok in Hx as [Hx ->]. rewrite Hid in Hx. injection Hx as <-.
  do 5 go Hd. go Hd. apply lift_Ok in Hx4 as [Hx4 ->]. rewrite Hhash in Hx4. injection Hx4 as <-. go Hd.
  injection Hx4 as Hc <-. case_bool_decide as Heq; [|done]. subst hash. do 7 go Hd. by apply locked_register_Ok in Hd.
Qed.

(** A registration of the client carries the number and the code of the service,
    and neither a record of its own nor a token. *)
Lemma registration_fields id (a : Artifact.t) digest domain :
  u32_ok id -> hash_ok (Artifact.sa_code_hash a) ->
  let params := Deploy.registration id a digest domain in
  v_is_object params = true /\ v_get params (bstr "serviceKey") = None /\ required_u32 params (bstr "serviceId") = Ok id
  /\ optional_hash params (bstr "expectedCodeHash") = Ok (Some (Artifact.sa_code_hash a)).
Proof.
  intros Hid Hh. unfold required_u32, optional_hash, Deploy.registration, u32_ok in *.
  destruct digest, domain; cbn [app]; (split; [is_object|]); field_of; cbn [mbind option_bind]; unfold as_u32, v_hash;
    rewrite num_is_u64 by (unfold u64_ok, U32_MAX, U64_MAX in *; lia); rewrite string_is_str; cbn [mbind option_bind]; unfold u32_try_from, try_from_max;
    rewrite (proj2 (Z.leb_le _ _)) by lia; cbn [ok_or]; rewrite parse_hash_hex by done; done.
Qed.

Lemma register_service_Ok id (a : Artifact.t) digest domain (w w' : world) v :
  u32_ok id -> hash_ok (Artifact.sa_code_hash a) ->
  handle cfg opts (bstr "jamscript_registerServiceV1") (Deploy.registration id a digest domain) w = (Ok v, w') ->
  registered_as (backend w') id (Artifact.sa_code_hash a) v.
Proof.
  intros Hid Hh Hr. destruct (registration_fields id a digest domain Hid Hh) as (_ & Hk & Hi & Hc).
  change (register_service cfg opts (Deploy.registration id a digest domain) w = (Ok v, w')) in Hr. unfold register_service in Hr.
  go Hr. rewrite Hk in Hr. injection Hx as _ <-. by eapply discover_Ok.
Qed.

(** *** The client *)

Context `{!JsonRpcTransport world}.

(** The transport reaches this backend: what it answers with a result is what the
    backend answered. Nothing is said of its errors. *)
Definition reaches_backend (endpoint : bytes) : Prop :=
  forall method params timeout mutating (w w' : world) v,
    rpc_call endpoint method params timeout mutating w = (Ok v, w') -> handle cfg opts method params w = (Ok v, w').

Lemma call_Ok endpoint method params timeout mutating (w w' : world) v :
  Deploy.call endpoint method params timeout mutating w = (Ok v, w') -> rpc_call endpoint method params timeout mutating w = (Ok v, w').
Proof. unfold Deploy.call. destruct (rpc_call _ _ _ _ _ w) as [[] ?]; intros [= -> ->]; done. Qed.
Lemma attempt_Ok {A} (m : eff world A) (w w' : world) a : attempt m w = (Ok (Ok a), w') -> m w = (Ok a, w').
Proof. unfold attempt. destruct (m w) as [[|[]] ?]; intros [= -> ->]; done. Qed.

(** C17: when the client says that a deployed service is registered, the backend has
    it under its number with the code hash of the artifact, whatever happened to
    the first attempt and whatever other requests run, and the answer is its
    record. *)
Theorem registration_reaches_backend (endpoint : bytes) (id : Z) (a : Artifact.t) (timeout : Z) (domain : option bytes)
    (w w' : world) (v : value) :
  reaches_backend endpoint -> u32_ok id -> hash_ok (Artifact.sa_code_hash a) ->
  Deploy.register_backend_service_with_network_domain endpoint id a timeout domain w = (Ok v, w') ->
  registered_as (backend w') id (Artifact.sa_code_hash a) v.
Proof.
  intros Hreach Hid Hh Hr. unfold Deploy.register_backend_service_with_network_domain in Hr. step Hr answer Hfirst. step Hr res Hresult.
  step Hr returned Hreturned. step Hr y Hy. injection Hr as <- <-.
  destruct answer as [result'|error].
  - injection Hresult as -> <-. apply attempt_Ok, call_Ok, Hreach in Hfirst. by eapply register_service_Ok.
  - destruct (Artifact.sa_pvm a) as [pvm|]; [|done]. unfold Deploy.upload_and_register in Hresult. step Hresult uploaded Hup. step Hresult u Hu.
    step Hresult reg Hreg. injection Hresult as Hresult <-. apply map_err_Ok in Hresult. subst reg.
    apply attempt_Ok, call_Ok, Hreach in Hreg. by eapply register_service_Ok.
Qed.
End Registration.
