(* ===== verification/DeploymentToy.v ===== *)
(** * A deployment to run

    A directory with a built service, a [curl] whose outcomes are a script, and the
    daemon of [HandlerToy] behind a transport: the theorems on deployments at
    concrete inputs. *)

From S2P Require Import Prelude Ordering Reader Wire Fields ServiceKeys StateView StateDiff Records Witness RefineInput Dependencies RefineOutput Ownership Crypto Actions ActionsV2 GuestMemory State ModelTrie Overlays Provider BackendBase Registry Envelope Database BackendState Selection Codec Text JsonValue Coordinator CoordinatorInvariant Engine EngineCorrect Dispatcher DispatcherCorrect Gateway Handler HandlerCorrect HandlerAnswers HandlerRegistry HandlerToy Deployment DeploymentCorrect DeploymentBackend.

Module DeploymentToy.
Import CurlTransport.
#[global] Instance hash : Blake2 := Toy.blake2.
#[global] Instance sha : Sha256 := fun b => take 32 (b ++ repeat x00 32).

(** Every text is an address of a host of its own. *)
#[global] Instance urls : Urls := {|
  url := bytes;
  url_parse text := Ok text;
  url_scheme _ := bstr "http";
  url_host text := Some text;
  url_set_username _ u := u;
  url_set_password _ u := u;
  url_set_query _ u := u;
  url_set_fragment _ u := u;
  url_text u := u
|}.

(** *** The directory *)

Definition blob : bytes := [x01; x02].
Definition metadata : value :=
  v_object [(bstr "code_hash", v_hash (blake2_256 blob)); (bstr "minItemGas", v_num 10); (bstr "minMemoGas", v_num 5)].
Definition contents (path : bytes) : result bytes bytes :=
  if bool_decide (path = bstr "/dist/service.blob") then Ok blob
  else if bool_decide (path = bstr "/dist/build.json") then Ok (bstr "BUILD")
  else if bool_decide (path = bstr "/dist/checksums.json") then Ok (bstr "SUMS")
  else Err (bstr "not found").

(** *** The script of curl, and the texts it writes *)

Definition script : Type := list CurlOutcome.
#[global] Instance files : Files script := {|
  fs_canonicalize path w := (Ok path, w);
  fs_read path w := (contents path, w);
  fs_create_dir_all _ w := (Ok tt, w);
  fs_write _ _ w := (Ok tt, w);
  fs_rename _ _ w := (Ok tt, w)
|}.
#[global] Instance curl : Curl script := fun _ _ w => match w with o :: w' => (o, w') | [] => (CurlNotRun [], []) end.

Definition genesis : bytes := repeat x09 32.
Definition reply (result : value) : value := v_object [(bstr "jsonrpc", v_string (bstr "2.0")); (bstr "result", result)].
Definition refusal : value :=
  v_object [(bstr "jsonrpc", v_string (bstr "2.0"));
            (bstr "error", v_object [(bstr "code", v_num (-32000)); (bstr "message", v_string (bstr "no capacity"))])].
#[global] Instance texts : JsonTexts := {|
  json_parse text :=
    if bool_decide (text = bstr "BUILD") then Ok metadata
    else if bool_decide (text = bstr "GENESIS") then Ok (reply (v_hash genesis))
    else if bool_decide (text = bstr "CREATED") then Ok (reply v_null)
    else if bool_decide (text = bstr "REFUSED") then Ok refusal
    else Err (bstr "expected value");
  json_print _ := [];
  parse_checksums _ := Ok (mkChecksums 1 (bstr "blake2b-256")
    [(bstr "build.json", hash_hex (blake2_256 (bstr "BUILD"))); (bstr "service.blob", hash_hex (blake2_256 blob))])
|}.
#[global] Instance deployment_texts : DeploymentTexts := {|
  parse_create_response _ := Ok (mkCreateResponse (bstr "0x0p") 7 (hash_hex (blake2_256 blob)) true
    (mkFinalizedBlock (hash_hex (repeat x11 32)) 12 None None));
  record_text _ := Ok []
|}.
Definition says (text status : bytes) : CurlOutcome := CurlExited (Some 0) (text ++ CurlTransport.MARKER ++ status) [].

Definition loaded : result Artifact.t stop * script := Artifact.load_service_artifact (bstr "/dist") [].
Definition artifact : Artifact.t :=
  match loaded.1 with Ok a => a | Err _ => Artifact.mk [] [] None [] None [] [] None 0 0 end.

(** *** The network *)

Definition local : Network.config := Network.mkConfig (bstr "minijam") (Some (bstr "deploy")) (Some (bstr "node")) None (Some (hash_hex genesis)).
Definition networks : list (bytes * Network.config) := [(bstr "local", local)].
Definition none : Network.overrides := Network.mkOverrides None None None None None.
Definition from_environment : Network.overrides := Network.mkOverrides (Some (bstr "local")) None None None (Some (bstr "backend")).
Definition resolution : result Network.resolved stop :=
  Network.resolve_network_with_environment networks None none from_environment None.
Definition network : Network.resolved :=
  match resolution with Ok r => r | Err _ => Network.mkResolved None Jam [] None None None false end.

Definition run : script := [says (bstr "GENESIS") (bstr "200"); says (bstr "CREATED") (bstr "200")].
Definition deployment : result DeploymentResult stop * script := Deploy.deploy network artifact 30000 run.

(** *** The gateway and the daemon *)

#[global] Instance service_info : JamServiceInfo := fun b => Ok (repeat x0b 32, []).
Definition gateway (w : script) : Gateway.t (T := script) := Gateway.new w (bstr "node") (bstr "formal").

Notation world := (Dispatcher.world (P := PvmApplication.t) (N := unit)).
#[global] Instance to_daemon : JsonRpcTransport world := fun _ method params _ mutating w =>
  let '(r, w') := Handler.handle HandlerToy.cfg HandlerToy.opts method params w in
  (CurlTransport.parse_json_rpc_response (Answers.json_response (v_num 1) r) method mutating, w').
Lemma daemon_reached endpoint : reaches_backend HandlerToy.cfg HandlerToy.opts endpoint.
Proof.
  intros method params timeout mutating w w' v. unfold rpc_call, to_daemon.
  destruct (Handler.handle HandlerToy.cfg HandlerToy.opts method params w) as [r w1]. unfold CurlTransport.parse_json_rpc_response, Answers.json_response.
  by destruct r; intros [= -> <-].
Qed.
(** The service of the daemon's chain, whose code is the daemon's program. *)
Definition service : Artifact.t := Artifact.mk [] [] None [] (Some [x01]) HandlerToy.code_hash [] None 1 1.
End DeploymentToy.

(** ** The theorems on this deployment *)

Import CurlTransport.

Lemma artifact_verified_witness :
  Artifact.sa_code_hash DeploymentToy.artifact = blake2_256 DeploymentToy.blob
  /\ checksums_hold (H := DeploymentToy.hash) DeploymentToy.contents (Artifact.sa_directory DeploymentToy.artifact).
Proof.
  assert (is_ok DeploymentToy.loaded.1 = true) as Hok by (vm_compute; reflexivity). unfold DeploymentToy.artifact.
  destruct DeploymentToy.loaded as [[a|e] w'] eqn:Hl; [|discriminate Hok]. cbn [fst].
  destruct (artifact_verified DeploymentToy.contents (bstr "/dist") [] w' (Ok a)) as [Ha _].
  - intros path w r w1 [= <- _]. reflexivity.
  - exact Hl.
  - destruct (Ha a) as [_ [Hb _ _ Hc _ Hs]]; [reflexivity|]. split; [|exact Hs]. rewrite Hc.
    assert (Artifact.sa_directory a = bstr "/dist") as Hd.
    { change a with (match (Ok a : result Artifact.t stop) with Ok a => a | Err _ => a end). change (Ok a) with ((Ok a : result Artifact.t stop, w').1).
      rewrite <- Hl. vm_compute. reflexivity. }
    rewrite Hd in Hb. injection Hb as <-. reflexivity.
Defined.

Lemma network_resolution_exact_witness :
  exists r, DeploymentToy.resolution = Ok r /\ Network.rn_kind r = MiniJam /\ Network.rn_name r = Some (bstr "local")
    /\ Network.rn_backend_rpc r = Some (bstr "backend") /\ Network.rn_genesis_pinned r = true.
Proof.
  assert (is_ok DeploymentToy.resolution = true) as Hok by (vm_compute; reflexivity).
  destruct DeploymentToy.resolution as [r|e] eqn:Hr; [|discriminate Hok]. exists r. split; [reflexivity|].
  destruct (network_resolution_exact DeploymentToy.networks None None DeploymentToy.none DeploymentToy.from_environment r Hr)
    as (Hk & Hn & _ & _ & _ & Hb & _ & _ & _ & hash & _ & _ & _ & Hp).
  split; [exact Hk|]. split; [exact Hn|]. split; [exact Hb|exact Hp].
Defined.

Lemma deployment_exact_witness :
  exists d observed w1 v, DeploymentToy.deployment.1 = Ok d /\ observed = Some (hash_hex DeploymentToy.genesis)
    /\ created DeploymentToy.network DeploymentToy.artifact 30000 w1 (Ok v) DeploymentToy.deployment.2
    /\ dr_code_hash d = hash_hex (Artifact.sa_code_hash DeploymentToy.artifact).
Proof.
  assert (is_ok DeploymentToy.deployment.1 = true) as Hok by (vm_compute; reflexivity).
  destruct (deployment_exact DeploymentToy.network DeploymentToy.artifact 30000 DeploymentToy.run DeploymentToy.deployment.2 DeploymentToy.deployment.1)
    as [[Hno _]|(_ & observed & w1 & answer & [_ Hid] & Hc & Hout)].
  - unfold DeploymentToy.deployment. apply surjective_pairing.
  - rewrite Hok in Hno. discriminate Hno.
  - destruct DeploymentToy.deployment as [[d|e] w']; [|discriminate Hok]. cbn [fst snd] in *. destruct Hout as (v & -> & response & _ & _ & _ & _ & Hcode & _).
    exists d, observed, w1, v. split; [reflexivity|]. split; [|split; [exact Hc|exact Hcode]].
    assert (Network.rn_genesis_hash DeploymentToy.network = Some (hash_hex DeploymentToy.genesis)) as Hg by (vm_compute; reflexivity).
    rewrite Hg in Hid. exact Hid.
Defined.

Lemma transport_outcomes_exact_witness :
  let w := [DeploymentToy.says (bstr "REFUSED") (bstr "200")] in
  let r := rpc_call (JsonRpcTransport := CurlTransport.curl_transport) (bstr "formal") (bstr "minijam_submitWorkV1") v_null 30000 true w in
  (exists error, r.1 = Err error /\ de_code error = DeploymentRejected) /\ exists outcome, known outcome r.1 /\ refused_by_server outcome.
Proof.
  intros w r. assert (exists error, r.1 = Err error /\ de_code error = DeploymentRejected) as (error & Hr & Hcode).
  { eexists. split; vm_compute; reflexivity. }
  split; [exists error; split; [exact Hr|exact Hcode]|].
  destruct (transport_outcomes_exact (bstr "formal") (bstr "minijam_submitWorkV1") v_null 30000 w r.2 r.1) as (outcome & _ & Hk).
  - unfold r. apply surjective_pairing.
  - exists outcome. split; [exact Hk|]. unfold known in Hk. rewrite Hr, Hcode in Hk. exact Hk.
Defined.

Lemma submission_refusal_definite_witness :
  let g := DeploymentToy.gateway [DeploymentToy.says (bstr "REFUSED") (bstr "200")] in
  may_be_accepted (Gateway.submit_work v_null g).1 = false /\ exists outcome, refused_by_server outcome.
Proof.
  intros g. assert (may_be_accepted (Gateway.submit_work v_null g).1 = false) as Hm by (vm_compute; reflexivity). split; [exact Hm|].
  destruct (submission_refusal_definite v_null g (Gateway.submit_work v_null g).2 (Gateway.submit_work v_null g).1) as (outcome & _ & Hr).
  - exact (surjective_pairing _).
  - exact Hm.
  - exists outcome. exact Hr.
Defined.

Lemma registration_reaches_backend_witness :
  exists v w', Deploy.register_backend_service_with_network_domain (bstr "backend") 7 DeploymentToy.service 30000 None HandlerToy.idle = (Ok v, w')
    /\ registered_as (backend w') 7 HandlerToy.code_hash v.
Proof.
  assert (is_ok (Deploy.register_backend_service_with_network_domain (bstr "backend") 7 DeploymentToy.service 30000 None HandlerToy.idle).1 = true)
    as Hok by (vm_compute; reflexivity).
  destruct (Deploy.register_backend_service_with_network_domain _ _ _ _ _ _) as [[v|e] w'] eqn:Hr; [|discriminate Hok].
  exists v, w'. split; [reflexivity|].
  refine (registration_reaches_backend HandlerToy.cfg HandlerToy.opts (bstr "backend") 7 DeploymentToy.service 30000 None HandlerToy.idle w' v
    (DeploymentToy.daemon_reached _) _ _ Hr); [|reflexivity].
  unfold u32_ok, U32_MAX. lia.
Defined.
