(* ===== verification/InMemory.v ===== *)
(** * [jamscript-runtime]: the in-memory runtime

    A runtime of one service held in maps: applied state, the next nonce of each
    wallet and each ownership, and the claims of who may control an ownership.
    The closure that commits an action is a program over the transaction it is
    given; it keeps a state of its own from call to call ([FnMut]). *)

From stdpp Require Import gmap.
From S2P Require Import Prelude Ordering Reader Wire ServiceKeys StateDiff Ownership Crypto Actions Protocol State.

(** ** Control claims *)

Module ControlClaims.
Record ControlClaim := mkClaim { subject : bytes; controller : bytes; version : Z; active : bool }.

Inductive ControlClaimError :=
| InvalidOwnership | InvalidBootstrap | Unauthorized | AlreadyExists | NotFound | AlreadyRevoked
| AlreadyInitialized.

(** [ControlClaimState]. *)
Record t := mk {
  claims : gmap (bytes * bytes) ControlClaim;
  initialized : gmap bytes bool
}.

Definition empty : t := mk ∅ ∅.

Section Claims.
Context `{Blake2}.

Definition key_of (o : Ownership.t) : result bytes ControlClaimError :=
  map_err (fun _ => InvalidOwnership) (Ownership.key o).

Definition is_initialized (s : t) (subject : Ownership.t) : bool :=
  match Ownership.key subject with
  | Ok key => default false (initialized s !! key)
  | Err _ => false
  end.

Definition is_active (s : t) (subject controller : Ownership.t) : bool :=
  match Ownership.key subject with
  | Err _ => false
  | Ok subject =>
      match Ownership.key controller with
      | Err _ => false
      | Ok controller =>
          match claims s !! (subject, controller) with Some claim => active claim | None => false end
      end
  end.

Definition add_controller (s : t) (subject controller effective_owner : Ownership.t) : result t ControlClaimError :=
  let? subject_key := key_of subject in
  let? controller_key := key_of controller in
  let? effective_key := key_of effective_owner in
  bail_if negb (bool_decide (effective_key = subject_key)) with Unauthorized ;;
  bail_if bool_decide (is_Some (claims s !! (subject_key, controller_key))) with AlreadyExists ;;
  Ok (mk (<[(subject_key, controller_key) := mkClaim subject_key controller_key 1 true]> (claims s))
        (initialized s)).

Definition bootstrap_controller (s : t) (subject controller effective_owner : Ownership.t)
    : result t ControlClaimError :=
  let? subject_key := key_of subject in
  bail_if default false (initialized s !! subject_key) with AlreadyInitialized ;;
  let? s := add_controller s subject controller effective_owner in
  Ok (mk (claims s) (<[subject_key := true]> (initialized s))).

Definition revoke_controller (s : t) (subject controller effective_owner : Ownership.t)
    : result t ControlClaimError :=
  let? subject_key := key_of subject in
  let? controller_key := key_of controller in
  let? effective_key := key_of effective_owner in
  bail_if negb (bool_decide (effective_key = subject_key)) with Unauthorized ;;
  let? claim := ok_or (claims s !! (subject_key, controller_key)) NotFound in
  bail_if negb (active claim) with AlreadyRevoked ;;
  Ok (mk (<[(subject_key, controller_key) :=
             mkClaim (ControlClaims.subject claim) (ControlClaims.controller claim) (version claim) false]> (claims s))
        (initialized s)).
End Claims.
End ControlClaims.

(** ** Transactions *)

Record StateTransaction := mkTx {
  tx_service_id : Z;
  tx_base : kv;
  tx_writes : gmap bytes (option bytes)
}.

Module MemoryTx.
Definition get (tx : StateTransaction) (schema_id key : bytes) : option (option bytes) :=
  key ← state_key (tx_service_id tx) schema_id key;
  Some match tx_writes tx !! key with
       | Some (Some value) => Some value
       | Some None => None
       | None => tx_base tx !! key
       end.

Definition set (tx : StateTransaction) (schema_id key value : bytes) : option StateTransaction :=
  key ← state_key (tx_service_id tx) schema_id key;
  Some (mkTx (tx_service_id tx) (tx_base tx) (<[key := Some value]> (tx_writes tx))).

Definition delete (tx : StateTransaction) (schema_id key : bytes) : option StateTransaction :=
  key ← state_key (tx_service_id tx) schema_id key;
  Some (mkTx (tx_service_id tx) (tx_base tx) (<[key := None]> (tx_writes tx))).
End MemoryTx.

(** What a closure does with its transaction, and the state it keeps. *)
Inductive commit_prog (C : Type) :=
| Finish (c : C) (r : result unit Z)
| ReadKey (schema_id key : bytes) (k : option bytes -> commit_prog C)
| WriteKey (schema_id key value : bytes) (k : commit_prog C)
| DeleteKey (schema_id key : bytes) (k : commit_prog C).
Arguments Finish {C} c r.
Arguments ReadKey {C} schema_id key k.
Arguments WriteKey {C} schema_id key value k.
Arguments DeleteKey {C} schema_id key k.

(** [None]: the program panics, on a schema name that is too long. *)
Fixpoint run_commit {C} (p : commit_prog C) (tx : StateTransaction)
    : option (StateTransaction * result unit Z * C) :=
  match p with
  | Finish c r => Some (tx, r, c)
  | ReadKey schema_id key k => v ← MemoryTx.get tx schema_id key; run_commit (k v) tx
  | WriteKey schema_id key value k => tx ← MemoryTx.set tx schema_id key value; run_commit k tx
  | DeleteKey schema_id key k => tx ← MemoryTx.delete tx schema_id key; run_commit k tx
  end.

(** [for (key, value) in transaction.into_writes()]. *)
Definition apply_write (key : bytes) (value : option bytes) (state : kv) : kv :=
  match value with Some value => <[key := value]> state | None => delete key state end.

Definition apply_writes (writes : gmap bytes (option bytes)) (state : kv) : kv :=
  map_fold apply_write state writes.

(** ** Receipts *)

Inductive MemStatus := MemApplied | MemFailed | MemRejected.

#[export] Instance MemStatus_eq_dec : EqDecision MemStatus.
Proof. solve_decision. Defined.

Record ActionReceipt := mkReceipt {
  r_action_hash : option bytes;
  r_sender : option bytes;
  r_nonce : option Z;
  r_status : MemStatus;
  r_error_code : option Z
}.

Record OwnershipActionReceipt := mkOwnReceipt {
  or_action_hash : bytes;
  or_owner : Ownership.t;
  or_controller : Ownership.t;
  or_nonce : Z;
  or_status : MemStatus;
  or_error_code : option Z
}.

Definition wallet_receipt (a : SignedActionV1.verified) (status : MemStatus) (error_code : option Z) : ActionReceipt :=
  mkReceipt (Some (SignedActionV1.v_action_hash a)) (Some (SignedActionV1.sender a))
    (Some (SignedActionV1.v_nonce a)) status error_code.
Definition receipt_applied a : ActionReceipt := wallet_receipt a MemApplied None.
Definition receipt_failed a error_code : ActionReceipt := wallet_receipt a MemFailed (Some error_code).
Definition receipt_rejected a error_code : ActionReceipt := wallet_receipt a MemRejected (Some error_code).
Definition receipt_invalid (error_code : Z) : ActionReceipt := mkReceipt None None None MemRejected (Some error_code).

Definition own_receipt (a : SignedActionV2.verified) (status : MemStatus) (error_code : option Z)
    : OwnershipActionReceipt :=
  mkOwnReceipt (SignedActionV2.v_action_hash a) (SignedActionV2.owner a) (SignedActionV2.v_controller a)
    (SignedActionV2.v_nonce a) status error_code.
Definition own_receipt_applied a : OwnershipActionReceipt := own_receipt a MemApplied None.
Definition own_receipt_failed a error_code : OwnershipActionReceipt := own_receipt a MemFailed (Some error_code).
Definition own_receipt_rejected a error_code : OwnershipActionReceipt := own_receipt a MemRejected (Some error_code).

(** [RuntimeError::NonceExhausted]. *)
Definition NONCE_EXHAUSTED : Z := 12.

(** ** [InMemoryRuntime] *)

Module InMemoryRuntime.
Record t := mk {
  service_id : Z;
  state : kv;
  next_nonces : gmap bytes Z;
  ownership_nonces : gmap bytes Z;
  control_claims : ControlClaims.t
}.

Definition new (service_id : Z) : t := mk service_id ∅ ∅ ∅ ControlClaims.empty.

Definition next_nonce (rt : t) (sender : bytes) : Z := default 0 (next_nonces rt !! sender).

Definition next_ownership_nonce `{Blake2} (rt : t) (owner : Ownership.t)
    : result Z ControlClaims.ControlClaimError :=
  let? key := ControlClaims.key_of owner in
  Ok (default 0 (ownership_nonces rt !! key)).

Definition read (rt : t) (schema_id key : bytes) : option (option bytes) :=
  key ← state_key (service_id rt) schema_id key; Some (state rt !! key).

Section Apply.
Context {C : Type}.

Definition transaction (rt : t) : StateTransaction := mkTx (service_id rt) (state rt) ∅.

Definition apply_action (rt : t) (action : SignedActionV1.verified)
    (commit : C -> SignedActionV1.verified -> commit_prog C) (c : C) : option (t * ActionReceipt * C) :=
  let expected := next_nonce rt (SignedActionV1.sender action) in
  if negb (SignedActionV1.v_nonce action =? expected) then
    Some (rt, receipt_rejected action (protocol_code (PE_NonceMismatch expected (SignedActionV1.v_nonce action))), c)
  else if expected =? U64_MAX then Some (rt, receipt_rejected action NONCE_EXHAUSTED, c)
  else
    '(tx, result, c) ← run_commit (commit c action) (transaction rt);
    let nonces := <[SignedActionV1.sender action := expected + 1]> (next_nonces rt) in
    match result with
    | Ok _ =>
        Some (mk (service_id rt) (apply_writes (tx_writes tx) (state rt)) nonces (ownership_nonces rt)
                (control_claims rt), receipt_applied action, c)
    | Err error_code =>
        Some (mk (service_id rt) (state rt) nonces (ownership_nonces rt) (control_claims rt),
              receipt_failed action error_code, c)
    end.

Definition apply_ownership_action `{Blake2} (rt : t) (action : SignedActionV2.verified)
    (commit : C -> SignedActionV2.verified -> commit_prog C) (c : C) : option (t * OwnershipActionReceipt * C) :=
  match Ownership.key (SignedActionV2.owner action) with
  | Err _ => Some (rt, own_receipt_rejected action 15, c)
  | Ok owner_key =>
      let expected := default 0 (ownership_nonces rt !! owner_key) in
      if negb (SignedActionV2.v_nonce action =? expected) then Some (rt, own_receipt_rejected action 17, c)
      else if expected =? U64_MAX then Some (rt, own_receipt_rejected action NONCE_EXHAUSTED, c)
      else
        '(tx, result, c) ← run_commit (commit c action) (transaction rt);
        let nonces := <[owner_key := expected + 1]> (ownership_nonces rt) in
        match result with
        | Ok _ =>
            Some (mk (service_id rt) (apply_writes (tx_writes tx) (state rt)) (next_nonces rt) nonces
                    (control_claims rt), own_receipt_applied action, c)
        | Err code =>
            Some (mk (service_id rt) (state rt) (next_nonces rt) nonces (control_claims rt),
                  own_receipt_failed action code, c)
        end
  end.

Fixpoint apply_batch (rt : t) (actions : list (result SignedActionV1.verified ProtocolError))
    (commit : C -> SignedActionV1.verified -> commit_prog C) (c : C) : option (t * list ActionReceipt * C) :=
  match actions with
  | [] => Some (rt, [], c)
  | action :: actions' =>
      '(rt, receipt, c) ← match action with
                          | Ok action => apply_action rt action commit c
                          | Err error => Some (rt, receipt_invalid (protocol_code error), c)
                          end;
      '(rt, receipts, c) ← apply_batch rt actions' commit c;
      Some (rt, receipt :: receipts, c)
  end.
End Apply.
End InMemoryRuntime.

(** ** The reference semantics of a commit: reads and writes of the map itself *)

Fixpoint run_direct {C} (service_id : Z) (p : commit_prog C) (m : kv) : option (kv * result unit Z * C) :=
  match p with
  | Finish c r => Some (m, r, c)
  | ReadKey schema_id key k => key ← state_key service_id schema_id key; run_direct service_id (k (m !! key)) m
  | WriteKey schema_id key value k =>
      key ← state_key service_id schema_id key; run_direct service_id k (<[key := value]> m)
  | DeleteKey schema_id key k => key ← state_key service_id schema_id key; run_direct service_id k (delete key m)
  end.

Lemma lookup_apply_write k v m k' :
  apply_write k v m !! k' = if decide (k = k') then v else m !! k'.
Proof.
  unfold apply_write. destruct v; destruct (decide (k = k')) as [<-|Hne].
  - apply lookup_insert_eq.
  - by apply lookup_insert_ne.
  - apply lookup_delete_eq.
  - by apply lookup_delete_ne.
Qed.

Lemma lookup_apply_writes w m k :
  apply_writes w m !! k = match w !! k with Some v => v | None => m !! k end.
Proof.
  unfold apply_writes.
  apply (map_fold_weak_ind (fun r w => r !! k = match w !! k with Some v => v | None => m !! k end)).
  - by rewrite lookup_empty.
  - intros i v w' r _ IH. rewrite lookup_apply_write, lookup_insert. by destruct (decide (i = k)).
Qed.

Lemma apply_writes_insert k v w m : apply_writes (<[k := v]> w) m = apply_write k v (apply_writes w m).
Proof.
  apply map_eq. intros i. rewrite lookup_apply_write, !lookup_apply_writes, lookup_insert.
  by destruct (decide (k = i)).
Qed.

(** The map a transaction shows. *)
Definition tx_view (tx : StateTransaction) : kv := apply_writes (tx_writes tx) (tx_base tx).

Lemma run_commit_direct {C} (p : commit_prog C) tx :
  run_direct (tx_service_id tx) p (tx_view tx) = (fun '(tx, r, c) => (tx_view tx, r, c)) <$> run_commit p tx
  /\ (forall tx' r c, run_commit p tx = Some (tx', r, c) -> tx_base tx' = tx_base tx).
Proof.
  revert tx. induction p as [c r|s k p IH|s k v p IH|s k p IH]; intros tx; cbn [run_direct run_commit].
  - split; [done|]. by intros tx' r' c' [= <- _ _].
  - unfold MemoryTx.get. destruct (state_key (tx_service_id tx) s k) as [key|]; [|done]. cbn [mbind option_bind].
    replace (tx_view tx !! key) with (match tx_writes tx !! key with
        | Some (Some value) => Some value | Some None => None | None => tx_base tx !! key end); [apply IH|].
    unfold tx_view. rewrite lookup_apply_writes. by destruct (tx_writes tx !! key) as [[]|].
  - unfold MemoryTx.set. destruct (state_key (tx_service_id tx) s k) as [key|]; [|done]. cbn [mbind option_bind].
    destruct (IH (mkTx (tx_service_id tx) (tx_base tx) (<[key := Some v]> (tx_writes tx)))) as [IH1 IH2].
    unfold tx_view in IH1 at 1. cbn [tx_writes tx_base tx_service_id] in *. rewrite apply_writes_insert in IH1. done.
  - unfold MemoryTx.delete. destruct (state_key (tx_service_id tx) s k) as [key|]; [|done]. cbn [mbind option_bind].
    destruct (IH (mkTx (tx_service_id tx) (tx_base tx) (<[key := None]> (tx_writes tx)))) as [IH1 IH2].
    unfold tx_view in IH1 at 1. cbn [tx_writes tx_base tx_service_id] in *. rewrite apply_writes_insert in IH1. done.
Qed.

(** A transaction that starts on the state of the runtime. *)
Lemma transaction_direct {C} (p : commit_prog C) rt :
  run_direct (InMemoryRuntime.service_id rt) p (InMemoryRuntime.state rt) =
  (fun '(tx, r, c) => (apply_writes (tx_writes tx) (InMemoryRuntime.state rt), r, c)) <$>
    run_commit p (InMemoryRuntime.transaction rt).
Proof.
  destruct (run_commit_direct p (InMemoryRuntime.transaction rt)) as [Hd Hb].
  unfold tx_view in Hd at 1. cbn [InMemoryRuntime.transaction tx_writes tx_base tx_service_id] in Hd.
  replace (apply_writes ∅ (InMemoryRuntime.state rt)) with (InMemoryRuntime.state rt) in Hd.
  2:{ apply map_eq. intros i. by rewrite lookup_apply_writes, lookup_empty. }
  rewrite Hd. destruct (run_commit p _) as [[[tx r] c]|] eqn:Hr; [|done]. cbn. unfold tx_view.
  by rewrite (Hb tx r c eq_refl).
Qed.

(** Programs that name their schemas in at most 65535 bytes. *)
Fixpoint short_names {C} (p : commit_prog C) : Prop :=
  match p with
  | Finish _ _ => True
  | ReadKey s _ k => blen s <= U16_MAX /\ forall v, short_names (k v)
  | WriteKey s _ _ k | DeleteKey s _ k => blen s <= U16_MAX /\ short_names k
  end.

Lemma state_key_short service_id s k : blen s <= U16_MAX -> is_Some (state_key service_id s k).
Proof.
  intros Hs. unfold state_key. destruct (Keys.application_key_v1 s k) as [key|e] eqn:Hk; [by eexists|].
  assert (Keys.application_key_v1 s k = Ok ([x01] ++ to_le_bytes 2 (blen s) ++ s ++ k)) as Hk'
    by (by apply Keys.application_key_v1_Ok). congruence.
Qed.

Lemma run_commit_total {C} (p : commit_prog C) tx : short_names p -> is_Some (run_commit p tx).
Proof.
  revert tx. induction p as [c r|s k p IH|s k v p IH|s k p IH]; intros tx; cbn [short_names run_commit]; [by eexists|..];
    unfold MemoryTx.get, MemoryTx.set, MemoryTx.delete; intros [Hs Hp];
    destruct (state_key_short (tx_service_id tx) s k Hs) as [key ->]; cbn [mbind option_bind]; auto.
Qed.

(** ** What a batch promises *)

Section Batch.
Context {C : Type} (service_id : Z) (commit : C -> SignedActionV1.verified -> commit_prog C).

Definition bump (sender : bytes) (n : bytes -> Z) : bytes -> Z :=
  fun s => if decide (s = sender) then n s + 1 else n s.

(** The actions of a batch, one after the other, over a map and the next nonce
    of each sender: an action at its sender's nonce is run on the map itself,
    whose changes are kept if it succeeds, and uses the nonce up either way; any
    other action changes nothing. *)
Inductive follows : list (result SignedActionV1.verified ProtocolError) -> list ActionReceipt ->
    kv -> (bytes -> Z) -> C -> kv -> (bytes -> Z) -> C -> Prop :=
| follows_nil m n n' c : (forall s, n' s = n s) -> follows [] [] m n c m n' c
| follows_applied a actions receipts m n c m1 c1 m' n' c' :
    SignedActionV1.v_nonce a = n (SignedActionV1.sender a) -> n (SignedActionV1.sender a) <> U64_MAX ->
    run_direct service_id (commit c a) m = Some (m1, Ok tt, c1) ->
    follows actions receipts m1 (bump (SignedActionV1.sender a) n) c1 m' n' c' ->
    follows (Ok a :: actions) (receipt_applied a :: receipts) m n c m' n' c'
| follows_failed a error_code actions receipts m n c m1 c1 m' n' c' :
    SignedActionV1.v_nonce a = n (SignedActionV1.sender a) -> n (SignedActionV1.sender a) <> U64_MAX ->
    run_direct service_id (commit c a) m = Some (m1, Err error_code, c1) ->
    follows actions receipts m (bump (SignedActionV1.sender a) n) c1 m' n' c' ->
    follows (Ok a :: actions) (receipt_failed a error_code :: receipts) m n c m' n' c'
| follows_stale a actions receipts m n c m' n' c' :
    SignedActionV1.v_nonce a <> n (SignedActionV1.sender a) ->
    follows actions receipts m n c m' n' c' ->
    follows (Ok a :: actions) (receipt_rejected a 10 :: receipts) m n c m' n' c'
| follows_exhausted a actions receipts m n c m' n' c' :
    SignedActionV1.v_nonce a = n (SignedActionV1.sender a) -> n (SignedActionV1.sender a) = U64_MAX ->
    follows actions receipts m n c m' n' c' ->
    follows (Ok a :: actions) (receipt_rejected a 12 :: receipts) m n c m' n' c'
| follows_invalid e actions receipts m n c m' n' c' :
    follows actions receipts m n c m' n' c' ->
    follows (Err e :: actions) (receipt_invalid (protocol_code e) :: receipts) m n c m' n' c'.

(** The nonces of a sender that the receipts say were used up, in order. *)
Definition used_by (s : bytes) (r : ActionReceipt) : option Z :=
  if decide (r_sender r = Some s /\ r_status r <> MemRejected) then r_nonce r else None.
Definition used (s : bytes) (receipts : list ActionReceipt) : list Z := omap (used_by s) receipts.

Lemma used_cons s r rs : used s (r :: rs) = match used_by s r with Some n => n :: used s rs | None => used s rs end.
Proof. done. Qed.

(** Consecutive numbers. *)
Fixpoint counted (n : Z) (l : list Z) : Prop :=
  match l with [] => True | x :: l' => x = n /\ counted (n + 1) l' end.

Lemma counted_nodup n l : counted n l -> NoDup l /\ forall x, x ∈ l -> n <= x < n + Z.of_nat (length l).
Proof.
  revert n. induction l as [|x l IH]; intros n; cbn [counted length].
  - intros _. split; [constructor|]. intros x Hx. by apply elem_of_nil in Hx.
  - intros [-> Hl]. destruct (IH _ Hl) as [Hnd Hin]. split.
    + apply NoDup_cons. split; [|done]. intros Hx%Hin. lia.
    + intros y Hy. apply elem_of_cons in Hy as [->|Hy%Hin]; lia.
Qed.

Lemma used_by_receipt s a status e :
  used_by s (wallet_receipt a status e) =
    if decide (SignedActionV1.sender a = s /\ status <> MemRejected) then Some (SignedActionV1.v_nonce a) else None.
Proof. unfold used_by. cbn. repeat case_decide; naive_solver. Qed.

Lemma follows_used actions receipts m n c m' n' c' :
  follows actions receipts m n c m' n' c' ->
  forall s, counted (n s) (used s receipts) /\ n' s = n s + Z.of_nat (length (used s receipts)).
Proof.
  induction 1 as [m n n' c Hn|a actions receipts m n c m1 c1 m' n' c' Hn Hx Hr _ IH|a code actions receipts m n c m1 c1 m' n' c' Hn Hx Hr _ IH
    |a actions receipts m n c m' n' c' Hn _ IH|a actions receipts m n c m' n' c' Hn Hx _ IH|e actions receipts m n c m' n' c' _ IH];
    intros s; [cbn; rewrite Hn; lia|..]; specialize (IH s); rewrite used_cons;
    unfold receipt_applied, receipt_failed, receipt_rejected, bump in *; rewrite ?used_by_receipt; try (cbn in *; done).
  - repeat case_decide; try naive_solver. cbn [counted length]. rewrite Nat2Z.inj_succ. destruct IH. subst s. split; [done|lia].
  - repeat case_decide; try naive_solver. cbn [counted length]. rewrite Nat2Z.inj_succ. destruct IH. subst s. split; [done|lia].
  - case_decide; naive_solver.
  - case_decide; naive_solver.
Qed.

Lemma follows_ext actions receipts m n1 n2 c m' n' c' :
  (forall s, n2 s = n1 s) -> follows actions receipts m n1 c m' n' c' -> follows actions receipts m n2 c m' n' c'.
Proof.
  intros Hext Hf. revert n2 Hext.
  induction Hf as [m n n' c Hn|a actions receipts m n c m1 c1 m' n' c' Hn Hx Hr _ IH|a code actions receipts m n c m1 c1 m' n' c' Hn Hx Hr _ IH
    |a actions receipts m n c m' n' c' Hn _ IH|a actions receipts m n c m' n' c' Hn Hx _ IH|e actions receipts m n c m' n' c' _ IH];
    intros n2 Hext.
  - apply follows_nil. intros s. by rewrite Hext.
  - eapply follows_applied; [by rewrite Hext|by rewrite Hext|done|]. apply IH. intros s. unfold bump. by rewrite Hext.
  - eapply follows_failed; [by rewrite Hext|by rewrite Hext|done|]. apply IH. intros s. unfold bump. by rewrite Hext.
  - apply follows_stale; [by rewrite Hext|]. by apply IH.
  - apply follows_exhausted; [by rewrite Hext|by rewrite Hext|]. by apply IH.
  - apply follows_invalid. by apply IH.
Qed.

Lemma next_nonce_insert rt s x state own claims service :
  InMemoryRuntime.next_nonce (InMemoryRuntime.mk service state
    (<[s := InMemoryRuntime.next_nonce rt s + 1]> (InMemoryRuntime.next_nonces rt)) own claims) x
  = bump s (InMemoryRuntime.next_nonce rt) x.
Proof.
  unfold InMemoryRuntime.next_nonce, bump. cbn [InMemoryRuntime.next_nonces]. rewrite lookup_insert.
  repeat case_decide; naive_solver.
Qed.

(** The rest of the runtime that a batch of wallet actions leaves alone. *)
Definition same_rest (rt rt' : InMemoryRuntime.t) : Prop :=
  InMemoryRuntime.service_id rt' = InMemoryRuntime.service_id rt
  /\ InMemoryRuntime.ownership_nonces rt' = InMemoryRuntime.ownership_nonces rt
  /\ InMemoryRuntime.control_claims rt' = InMemoryRuntime.control_claims rt.

Lemma apply_batch_follows rt actions c rt' receipts c' :
  InMemoryRuntime.service_id rt = service_id ->
  InMemoryRuntime.apply_batch rt actions commit c = Some (rt', receipts, c') ->
  same_rest rt rt' /\
  follows actions receipts (InMemoryRuntime.state rt) (InMemoryRuntime.next_nonce rt) c
    (InMemoryRuntime.state rt') (InMemoryRuntime.next_nonce rt') c'.
Proof.
  revert rt c receipts. induction actions as [|action actions IH]; intros rt c receipts Hs; cbn [InMemoryRuntime.apply_batch].
  { intros [= <- <- <-]. split; [done|]. by apply follows_nil. }
  intros Hb. apply bind_Some in Hb as ([[rt1 r1] c1] & H1 & Hb).
  apply bind_Some in Hb as ([[rt2 rs] c2] & H2 & [= <- <- <-]).
  destruct action as [a|e].
  2:{ injection H1 as <- <- <-. destruct (IH rt c rs Hs H2) as [Hr Hf]. split; [done|]. by apply follows_invalid. }
  unfold InMemoryRuntime.apply_action in H1.
  destruct (Z.eqb_spec (SignedActionV1.v_nonce a) (InMemoryRuntime.next_nonce rt (SignedActionV1.sender a))) as [Hn|Hn]; cbn [negb] in H1.
  2:{ injection H1 as <- <- <-. destruct (IH rt c rs Hs H2) as [Hr Hf]. split; [done|]. by apply follows_stale. }
  destruct (Z.eqb_spec (InMemoryRuntime.next_nonce rt (SignedActionV1.sender a)) U64_MAX) as [Hx|Hx].
  { injection H1 as <- <- <-. destruct (IH rt c rs Hs H2) as [Hr Hf]. split; [done|]. by apply follows_exhausted. }
  apply bind_Some in H1 as ([[tx r] c0] & Hrun & H1). pose proof (transaction_direct (commit c a) rt) as Hd.
  rewrite Hrun, Hs in Hd. cbn in Hd.
  destruct r as [[]|code]; injection H1 as <- <- <-; apply IH in H2 as [(? & ? & ?) Hf]; [|exact Hs|..|exact Hs]; (split; [done|]).
  - eapply follows_applied; [done|done|exact Hd|]. eapply follows_ext; [|exact Hf]. intros s. by rewrite next_nonce_insert.
  - eapply follows_failed; [done|done|exact Hd|]. eapply follows_ext; [|exact Hf]. intros s. by rewrite next_nonce_insert.
Qed.

Lemma apply_batch_total rt actions c :
  (forall c a, short_names (commit c a)) -> is_Some (InMemoryRuntime.apply_batch rt actions commit c).
Proof.
  intros Hsn. revert rt c. induction actions as [|action actions IH]; intros rt c; cbn [InMemoryRuntime.apply_batch]; [by eexists|].
  assert (is_Some match action with
    | Ok a => InMemoryRuntime.apply_action rt a commit c
    | Err e => Some (rt, receipt_invalid (protocol_code e), c) end) as [[[rt1 r1] c1] ->].
  { destruct action as [a|e]; [|by eexists]. unfold InMemoryRuntime.apply_action. repeat case_match; [by eexists..|].
    destruct (run_commit_total (commit c a) (InMemoryRuntime.transaction rt) (Hsn c a)) as [[[tx r] c0] ->]. cbn. by destruct r; eexists. }
  cbn. destruct (IH rt1 c1) as [[[rt2 rs] c2] ->]. by eexists.
Qed.
End Batch.

(** A batch is run action by action. For any commit closure whose schema
    names have at most 65535 bytes (a longer one panics) a batch returns; its
    receipts, the new state and the closure's state are those of running the
    actions one after the other on the map itself, keeping the changes of the
    successful ones; the nonces a sender used up are consecutive, start at the
    stored one, and the stored one moves past them, so no action is accepted
    twice; and the nonces of ownerships and the control claims stay. *)
Theorem memory_batch_exact {C} (commit : C -> SignedActionV1.verified -> commit_prog C) rt actions c :
  (forall c a, short_names (commit c a)) ->
  exists rt' receipts c',
    InMemoryRuntime.apply_batch rt actions commit c = Some (rt', receipts, c')
    /\ follows (InMemoryRuntime.service_id rt) commit actions receipts
         (InMemoryRuntime.state rt) (InMemoryRuntime.next_nonce rt) c
         (InMemoryRuntime.state rt') (InMemoryRuntime.next_nonce rt') c'
    /\ (forall s, counted (InMemoryRuntime.next_nonce rt s) (used s receipts)
          /\ InMemoryRuntime.next_nonce rt' s = InMemoryRuntime.next_nonce rt s + Z.of_nat (length (used s receipts)))
    /\ same_rest rt rt'.
Proof.
  intros Hsn. destruct (apply_batch_total commit rt actions c Hsn) as [[[rt' receipts] c'] Hb].
  destruct (apply_batch_follows _ commit rt actions c rt' receipts c' eq_refl Hb) as [Hr Hf].
  exists rt', receipts, c'. split; [done|]. split; [done|]. split; [|done]. by eapply follows_used.
Qed.

Module MemoryToy.
(** Every action counts up the closure's state and stores its payload; the
    third one then fails. *)
Definition commit (c : nat) (a : SignedActionV1.verified) : commit_prog nat :=
  WriteKey [x73] (SignedActionV1.sender a) (SignedActionV1.v_payload a)
    (Finish (S c) (if (c =? 2)%nat then Err 77 else Ok tt)).
Definition action (sender : byte) (nonce : Z) (payload : byte) : SignedActionV1.verified :=
  SignedActionV1.Verified [sender] [payload] nonce [payload].
Definition actions : list (result SignedActionV1.verified ProtocolError) :=
  [Ok (action x01 0 x0a); Err PE_PayloadHashMismatch; Ok (action x01 0 x0b); Ok (action x01 1 x0c);
   Ok (action x02 0 x0d)].
Definition summary (r : option (InMemoryRuntime.t * list ActionReceipt * nat)) : option (list MemStatus * nat * nat) :=
  match r with
  | Some (_, receipts, _) => Some (map r_status receipts, length (used [x01] receipts), length (used [x02] receipts))
  | None => None
  end.
Lemma summary_batch :
  summary (InMemoryRuntime.apply_batch (InMemoryRuntime.new 5) actions commit 0%nat)
  = Some ([MemApplied; MemRejected; MemRejected; MemApplied; MemFailed], 2%nat, 1%nat).
Proof. vm_compute. reflexivity. Qed.

Lemma commit_short c a : short_names (commit c a).
Proof. split; [vm_compute; discriminate|exact I]. Qed.
End MemoryToy.

Lemma memory_batch_exact_witness :
  exists rt' receipts c',
    InMemoryRuntime.apply_batch (InMemoryRuntime.new 5) MemoryToy.actions MemoryToy.commit 0%nat = Some (rt', receipts, c')
    /\ map r_status receipts = [MemApplied; MemRejected; MemRejected; MemApplied; MemFailed]
    /\ InMemoryRuntime.next_nonce rt' [x01] = 2 /\ InMemoryRuntime.next_nonce rt' [x02] = 1.
Proof.
  destruct (memory_batch_exact MemoryToy.commit (InMemoryRuntime.new 5) MemoryToy.actions 0%nat MemoryToy.commit_short)
    as (rt' & receipts & c' & Hb & _ & Hu & _).
  exists rt', receipts, c'. split; [exact Hb|].
  pose proof MemoryToy.summary_batch as Hs. rewrite Hb in Hs. injection Hs as Hst H1 H2.
  split; [exact Hst|]. destruct (Hu [x01]) as [_ ->]. destruct (Hu [x02]) as [_ ->]. rewrite H1, H2.
  split; vm_compute; reflexivity.
Defined.

(** ** Ownership actions *)

(** An ownership action at the nonce of its owner is run like a wallet action
    and uses up that nonce only; any other changes nothing. *)
Lemma apply_ownership_action_exact `{Blake2} {C} rt (a : SignedActionV2.verified)
    (commit : C -> SignedActionV2.verified -> commit_prog C) c rt' r c' :
  InMemoryRuntime.apply_ownership_action rt a commit c = Some (rt', r, c') ->
  InMemoryRuntime.next_nonces rt' = InMemoryRuntime.next_nonces rt
  /\ InMemoryRuntime.control_claims rt' = InMemoryRuntime.control_claims rt
  /\ match or_status r with
     | MemRejected => rt' = rt /\ c' = c
     | status =>
         exists key m result, Ownership.key (SignedActionV2.owner a) = Ok key
           /\ InMemoryRuntime.next_ownership_nonce rt (SignedActionV2.owner a) = Ok (SignedActionV2.v_nonce a)
           /\ InMemoryRuntime.ownership_nonces rt' = <[key := SignedActionV2.v_nonce a + 1]> (InMemoryRuntime.ownership_nonces rt)
           /\ run_direct (InMemoryRuntime.service_id rt) (commit c a) (InMemoryRuntime.state rt) = Some (m, result, c')
           /\ match result with
              | Ok _ => status = MemApplied /\ InMemoryRuntime.state rt' = m
              | Err code => status = MemFailed /\ or_error_code r = Some code
                  /\ InMemoryRuntime.state rt' = InMemoryRuntime.state rt
              end
     end.
Proof.
  unfold InMemoryRuntime.apply_ownership_action, InMemoryRuntime.next_ownership_nonce, ControlClaims.key_of.
  destruct (Ownership.key (SignedActionV2.owner a)) as [key|e]; [|by intros [= <- <- <-]].
  destruct (Z.eqb_spec (SignedActionV2.v_nonce a) (default 0 (InMemoryRuntime.ownership_nonces rt !! key))) as [Hn|Hn]; cbn [negb];
    [|by intros [= <- <- <-]].
  destruct (default 0 _ =? U64_MAX); [by intros [= <- <- <-]|].
  intros Hb. apply bind_Some in Hb as ([[tx result] c0] & Hrun & Hb). pose proof (transaction_direct (commit c a) rt) as Hd.
  rewrite Hrun in Hd. cbn in Hd.
  destruct result as [[]|code]; injection Hb as <- <- <-; cbn; (split; [done|]); (split; [done|]);
    eexists _, _, _; rewrite <- Hn; (split; [done|]); (split; [done|]); (split; [done|]); (split; [exact Hd|]); done.
Qed.

(** ** Control claims over any sequence of calls *)

Section ClaimHistory.
Context `{Blake2}.

Inductive claim_call :=
| Bootstrap (subject controller effective_owner : Ownership.t)
| AddController (subject controller effective_owner : Ownership.t)
| Revoke (subject controller effective_owner : Ownership.t).

Definition call (s : ControlClaims.t) (k : claim_call) : result ControlClaims.t ControlClaims.ControlClaimError :=
  match k with
  | Bootstrap subject controller e => ControlClaims.bootstrap_controller s subject controller e
  | AddController subject controller e => ControlClaims.add_controller s subject controller e
  | Revoke subject controller e => ControlClaims.revoke_controller s subject controller e
  end.

(** The calls that succeeded, the last one first. *)
Fixpoint run_calls (s : ControlClaims.t) (log calls : list claim_call) : ControlClaims.t * list claim_call :=
  match calls with
  | [] => (s, log)
  | k :: calls' =>
      match call s k with
      | Ok s' => run_calls s' (k :: log) calls'
      | Err _ => run_calls s log calls'
      end
  end.

Definition has_key (o : Ownership.t) (key : bytes) : bool :=
  match Ownership.key o with Ok k => bool_decide (k = key) | Err _ => false end.
Definition named (s c : Ownership.t) (pair : bytes * bytes) : bool := has_key s pair.1 && has_key c pair.2.

Definition grants (pair : bytes * bytes) (k : claim_call) : bool :=
  match k with Bootstrap s c _ | AddController s c _ => named s c pair | Revoke _ _ _ => false end.
Definition revokes (pair : bytes * bytes) (k : claim_call) : bool :=
  match k with Revoke s c _ => named s c pair | _ => false end.
Definition bootstraps (subject : bytes) (k : claim_call) : bool :=
  match k with Bootstrap s _ _ => has_key s subject | _ => false end.

(** Only the owner itself acts for a subject; a pair is granted once, revoked
    once and then never granted again; a subject is bootstrapped once. *)
Definition allowed (log : list claim_call) (k : claim_call) : Prop :=
  match k with
  | Bootstrap s c e | AddController s c e =>
      exists pair, named s c pair = true /\ Ownership.key e = Ok pair.1 /\ existsb (grants pair) log = false
        /\ match k with Bootstrap _ _ _ => existsb (bootstraps pair.1) log = false | _ => True end
  | Revoke s c e =>
      exists pair, named s c pair = true /\ Ownership.key e = Ok pair.1
        /\ existsb (grants pair) log = true /\ existsb (revokes pair) log = false
  end.

Inductive history : list claim_call -> Prop :=
| history_nil : history []
| history_cons k log : allowed log k -> history log -> history (k :: log).

(** The state a history leaves. *)
Definition recorded (s : ControlClaims.t) (log : list claim_call) : Prop :=
  (forall pair, ControlClaims.claims s !! pair =
     if existsb (grants pair) log
     then Some (ControlClaims.mkClaim pair.1 pair.2 1 (negb (existsb (revokes pair) log))) else None)
  /\ (forall key, ControlClaims.initialized s !! key = if existsb (bootstraps key) log then Some true else None).

Lemma has_key_iff o key : has_key o key = true <-> Ownership.key o = Ok key.
Proof. unfold has_key. destruct (Ownership.key o); [rewrite bool_decide_eq_true|]; naive_solver. Qed.

Lemma named_iff s c pair : named s c pair = true <-> Ownership.key s = Ok pair.1 /\ Ownership.key c = Ok pair.2.
Proof. unfold named. by rewrite andb_true_iff, !has_key_iff. Qed.

Lemma named_unique s c ks kc pair :
  Ownership.key s = Ok ks -> Ownership.key c = Ok kc -> named s c pair = bool_decide ((ks, kc) = pair).
Proof.
  intros Hs Hc. apply eq_true_iff_eq. rewrite named_iff, bool_decide_eq_true, Hs, Hc. destruct pair; cbn. naive_solver.
Qed.

(** A revoked pair was granted. *)
Lemma history_revoked_granted log pair :
  history log -> existsb (revokes pair) log = true -> existsb (grants pair) log = true.
Proof.
  induction 1 as [|k log Hk _ IH]; [done|]. cbn [existsb]. rewrite !orb_true_iff. intros [Hr|Hr]; [|by right; apply IH].
  destruct k as [s c e|s c e|s c e]; [done|done|]. cbn in Hr, Hk. right. destruct Hk as (p & Hp & _ & Hg & _).
  apply named_iff in Hr as [H1 H2]. apply named_iff in Hp as [H3 H4].
  assert (p = pair) as <- by (destruct p, pair; cbn in *; congruence). done.
Qed.

Lemma add_controller_Ok s subject controller e s' :
  ControlClaims.add_controller s subject controller e = Ok s' ->
  exists ks kc, Ownership.key subject = Ok ks /\ Ownership.key controller = Ok kc /\ Ownership.key e = Ok ks
    /\ ControlClaims.claims s !! (ks, kc) = None
    /\ s' = ControlClaims.mk (<[(ks, kc) := ControlClaims.mkClaim ks kc 1 true]> (ControlClaims.claims s))
              (ControlClaims.initialized s).
Proof.
  unfold ControlClaims.add_controller, ControlClaims.key_of. intros Ha.
  apply rbind_Ok in Ha as (ks & Hks%map_err_Ok & Ha). apply rbind_Ok in Ha as (kc & Hkc%map_err_Ok & Ha).
  apply rbind_Ok in Ha as (ke & Hke%map_err_Ok & Ha). apply bail_if_Ok in Ha as [He Ha].
  apply bail_if_Ok in Ha as [Hn [= <-]]. to_prop. subst ke. exists ks, kc. split_and!; try done.
  by apply eq_None_not_Some.
Qed.

Lemma existsb_grants_cons pair k log :
  existsb (grants pair) (k :: log) = grants pair k || existsb (grants pair) log.
Proof. done. Qed.

(** A granted pair that is new. *)
Lemma recorded_grant s log ks kc k :
  recorded s log -> history log -> (forall pair, grants pair k = bool_decide ((ks, kc) = pair)) ->
  (forall pair, revokes pair k = false) -> ControlClaims.claims s !! (ks, kc) = None ->
  existsb (grants (ks, kc)) log = false
  /\ forall pair, <[(ks, kc) := ControlClaims.mkClaim ks kc 1 true]> (ControlClaims.claims s) !! pair =
       if existsb (grants pair) (k :: log)
       then Some (ControlClaims.mkClaim pair.1 pair.2 1 (negb (existsb (revokes pair) (k :: log)))) else None.
Proof.
  intros [Hc _] Hh Hg Hr Hnone.
  assert (existsb (grants (ks, kc)) log = false) as Hnew by (rewrite Hc in Hnone; by destruct (existsb _ _)).
  split; [done|]. intros pair. cbn [existsb]. rewrite Hg, Hr. cbn [orb]. rewrite lookup_insert.
  destruct (decide ((ks, kc) = pair)) as [<-|Hne].
  - rewrite bool_decide_eq_true_2 by done. cbn [orb fst snd].
    destruct (existsb (revokes (ks, kc)) log) eqn:Hrev; [|done].
    apply (history_revoked_granted log) in Hrev; [congruence|done].
  - by rewrite bool_decide_eq_false_2.
Qed.

Lemma call_recorded s log k s' :
  recorded s log -> history log -> call s k = Ok s' -> recorded s' (k :: log) /\ allowed log k.
Proof.
  intros Hrec Hh Hk. pose proof Hrec as [Hc Hi]. destruct k as [su co e|su co e|su co e]; cbn [call] in Hk.
  - unfold ControlClaims.bootstrap_controller, ControlClaims.key_of in Hk.
    apply rbind_Ok in Hk as (ks & Hks%map_err_Ok & Hk). apply bail_if_Ok in Hk as [Hinit Hk].
    apply rbind_Ok in Hk as (s1 & (ks' & kc & Hks' & Hkc & Hke & Hn & ->)%add_controller_Ok & [= <-]).
    assert (ks' = ks) as -> by congruence.
    destruct (recorded_grant s log ks kc (Bootstrap su co e) Hrec Hh) as [Hnew Hcl]; [|done|done|].
    { intros pair. by apply named_unique. }
    split; [split; [exact Hcl|]|].
    + intros key. cbn. rewrite lookup_insert. unfold has_key. rewrite Hks. rewrite Hi.
      destruct (decide (ks = key)) as [<-|Hne]; [by rewrite bool_decide_eq_true_2|by rewrite bool_decide_eq_false_2].
    + exists (ks, kc). split; [by apply named_iff|]. split; [done|]. split; [done|].
      rewrite Hi in Hinit. cbn [fst]. by destruct (existsb (bootstraps ks) log).
  - apply add_controller_Ok in Hk as (ks & kc & Hks & Hkc & Hke & Hn & ->).
    destruct (recorded_grant s log ks kc (AddController su co e) Hrec Hh) as [Hnew Hcl]; [|done|done|].
    { intros pair. by apply named_unique. }
    split; [split; [exact Hcl|exact Hi]|]. exists (ks, kc). split; [by apply named_iff|]. done.
  - unfold ControlClaims.revoke_controller, ControlClaims.key_of in Hk.
    apply rbind_Ok in Hk as (ks & Hks%map_err_Ok & Hk). apply rbind_Ok in Hk as (kc & Hkc%map_err_Ok & Hk).
    apply rbind_Ok in Hk as (ke & Hke%map_err_Ok & Hk). apply bail_if_Ok in Hk as [He Hk]. to_prop. subst ke.
    apply rbind_Ok in Hk as (cl & Hcl & Hk). apply bail_if_Ok in Hk as [Hact [= <-]].
    destruct (ControlClaims.claims s !! (ks, kc)) as [cl'|] eqn:Hl; [|done]. injection Hcl as ->.
    rewrite Hc in Hl. destruct (existsb (grants (ks, kc)) log) eqn:Hg; [|done]. injection Hl as <-. cbn in Hact.
    to_prop. split; [split; [|exact Hi]|].
    + intros pair. cbn [existsb grants revokes ControlClaims.claims]. rewrite (named_unique su co ks kc pair Hks Hkc). cbn [orb].
      rewrite lookup_insert. destruct (decide ((ks, kc) = pair)) as [<-|Hne].
      * rewrite bool_decide_eq_true_2 by done. rewrite Hg. done.
      * rewrite bool_decide_eq_false_2 by done. apply Hc.
    + exists (ks, kc). split; [by apply named_iff|]. split; [done|]. split; [done|]. by rewrite negb_true_iff in Hact || destruct (existsb (revokes (ks, kc)) log).
Qed.

Lemma run_calls_recorded calls s log s' log' :
  recorded s log -> history log -> run_calls s log calls = (s', log') -> recorded s' log' /\ history log'.
Proof.
  revert s log. induction calls as [|k calls IH]; intros s log Hr Hh; cbn [run_calls]; [by intros [= <- <-]|].
  destruct (call s k) as [s1|e] eqn:Hk; [|by apply IH].
  destruct (call_recorded s log k s1 Hr Hh Hk) as [Hr1 Ha]. apply IH; [done|]. by constructor.
Qed.
End ClaimHistory.

(** Who controls an ownership is a matter of record. Make any calls on the
    empty state, errors included. The calls that succeeded form a history in
    which only the owner itself acts for a subject, every pair is granted at
    most once and revoked at most once, after it was granted, and every subject
    is bootstrapped at most once; a controller is active exactly when the history
    grants the pair and does not revoke it, so that a revocation is final, and a
    subject is initialized exactly when it was bootstrapped. *)
Theorem control_claims_history `{Blake2} calls s log subject controller ks kc :
  run_calls ControlClaims.empty [] calls = (s, log) ->
  Ownership.key subject = Ok ks -> Ownership.key controller = Ok kc ->
  history log /\ recorded s log
  /\ ControlClaims.is_active s subject controller
     = existsb (grants (ks, kc)) log && negb (existsb (revokes (ks, kc)) log)
  /\ ControlClaims.is_initialized s subject = existsb (bootstraps ks) log.
Proof.
  intros Hrun Hs Hc.
  assert (recorded s log /\ history log) as [Hr Hh].
  { eapply run_calls_recorded; [|constructor|exact Hrun]. done. }
  split; [done|]. split; [done|]. destruct Hr as [Hcl Hi]. unfold ControlClaims.is_active, ControlClaims.is_initialized.
  rewrite Hs, Hc, Hcl, Hi. cbn. by destruct (existsb (grants (ks, kc)) log), (existsb (bootstraps ks) log).
Qed.

Module ClaimsToy.
Definition person (b : byte) : Ownership.t := Ownership.mk x01 Ed25519Key (repeat b 32).
Definition key (b : byte) : bytes :=
  match Ownership.key (person b) with Ok k => k | Err _ => [] end.
Definition calls : list claim_call :=
  [Bootstrap (person x01) (person x02) (person x01); Bootstrap (person x01) (person x03) (person x01);
   AddController (person x01) (person x03) (person x02); AddController (person x01) (person x03) (person x01);
   Revoke (person x01) (person x02) (person x01); AddController (person x01) (person x02) (person x01)].
Definition final : ControlClaims.t * list claim_call := run_calls ControlClaims.empty [] calls.
End ClaimsToy.

Lemma control_claims_history_witness :
  ControlClaims.is_active ClaimsToy.final.1 (ClaimsToy.person x01) (ClaimsToy.person x03) = true
  /\ ControlClaims.is_active ClaimsToy.final.1 (ClaimsToy.person x01) (ClaimsToy.person x02) = false
  /\ length ClaimsToy.final.2 = 3%nat.
Proof.
  split; [|split; [|vm_compute; reflexivity]].
  - destruct (control_claims_history ClaimsToy.calls ClaimsToy.final.1 ClaimsToy.final.2 (ClaimsToy.person x01)
      (ClaimsToy.person x03) (ClaimsToy.key x01) (ClaimsToy.key x03)) as (_ & _ & -> & _); [|reflexivity|reflexivity|vm_compute; reflexivity].
    apply surjective_pairing.
  - destruct (control_claims_history ClaimsToy.calls ClaimsToy.final.1 ClaimsToy.final.2 (ClaimsToy.person x01)
      (ClaimsToy.person x02) (ClaimsToy.key x01) (ClaimsToy.key x02)) as (_ & _ & -> & _); [|reflexivity|reflexivity|vm_compute; reflexivity].
    apply surjective_pairing.
Defined.
