(* ===== verification/CAlloc.v ===== *)
(** * The C allocation functions of the guest

    [allocator_abi.rs] of [service-runtime-guest]: [malloc], [calloc],
    [realloc] and [free] over any Rust allocator, with a header before every
    block. The trait [GlobalAlloc] is a class; its contract, [GlobalAllocLaws],
    and blocks of 32-bit sizes, [SmallBlocks], are what this file needs of an
    allocator and what [Allocator] shows of the guest's. Memory is read and written through the state of the allocator,
    since an allocator keeps its own bookkeeping in the memory it has not given
    out. *)

From stdpp Require Import gmap.
From S2P Require Import Prelude Ordering Reader Wire GuestMemory.

(** ** [core::alloc::Layout] *)

Record Layout := mkLayout { l_size : Z; l_align : Z }.

#[export] Instance Layout_eq_dec : EqDecision Layout.
Proof. solve_decision. Defined.

(** [Layout::from_size_align]: the size rounded up to the alignment must fit
    [isize]. *)
Definition from_size_align (size align : Z) : option Layout :=
  if is_power_of_two align && (size <=? ISIZE_MAX - (align - 1)) then Some (mkLayout size align) else None.

(** ** The trait [GlobalAlloc] *)

(** Addresses are numbers, 0 is the null pointer. *)
Class GlobalAlloc (A : Type) := {
  ga_alloc : Layout -> A -> Z * A;
  ga_dealloc : Z -> Layout -> A -> A;
  ga_load : A -> Z -> byte;
  ga_store : Z -> byte -> A -> A
}.

Section Memory.
Context `{GlobalAlloc A}.

Definition load_bytes (s : A) (p : Z) (n : nat) : bytes := map (fun i => ga_load s (p + Z.of_nat i)) (seq 0 n).

Fixpoint store_bytes (p : Z) (b : bytes) (s : A) : A :=
  match b with
  | [] => s
  | c :: b' => store_bytes (p + 1) b' (ga_store p c s)
  end.
End Memory.

(** ** [allocator_abi] *)

Definition C_ALLOCATION_MAGIC : Z := 1246970708.
Definition C_MAX_ALIGNMENT : Z := 16.
(** [size_of::<CAllocationHeader>()]: two [u32]s, aligned to 16. *)
Definition C_HEADER_SIZE : Z := 16.

Inductive CAllocationError := SizeOverflow | InvalidPointer | OutOfMemory.

Definition calloc_size (count size : Z) : result Z CAllocationError :=
  ok_or (checked_mul USIZE_MAX count size) SizeOverflow.

Definition allocation_layout (size : Z) : result Layout CAllocationError :=
  let? total := ok_or (checked_add USIZE_MAX C_HEADER_SIZE (Z.max size 1)) SizeOverflow in
  ok_or (from_size_align total C_MAX_ALIGNMENT) SizeOverflow.

Module CAlloc.
Section CAlloc.
Context `{GlobalAlloc A}.

(** The fields of [CAllocationHeader], little-endian. *)
Definition header_magic (s : A) (base : Z) : Z := from_le_bytes (load_bytes s base 4).
Definition header_size (s : A) (base : Z) : Z := from_le_bytes (load_bytes s (base + 4) 4).
Definition write_magic (base magic : Z) (s : A) : A := store_bytes base (to_le_bytes 4 magic) s.
Definition write_header (base size : Z) (s : A) : A :=
  store_bytes (base + 4) (to_le_bytes 4 (Z.min size U32_MAX)) (write_magic base C_ALLOCATION_MAGIC s).

Definition malloc_from (size : Z) (s : A) : result Z CAllocationError * A :=
  match allocation_layout size with
  | Err e => (Err e, s)
  | Ok layout =>
      let '(base, s) := ga_alloc layout s in
      if base =? 0 then (Err OutOfMemory, s)
      else (Ok (base + C_HEADER_SIZE), write_header base size s)
  end.

Definition calloc_from (count size : Z) (s : A) : result Z CAllocationError * A :=
  match calloc_size count size with
  | Err e => (Err e, s)
  | Ok total =>
      let '(r, s) := malloc_from total s in
      match r with
      | Err e => (Err e, s)
      | Ok pointer => (Ok pointer, store_bytes pointer (repeat x00 (Z.to_nat total)) s)
      end
  end.

Definition realloc_preserving (pointer : Z) (old_layout new_layout : Layout) (s : A) : Z * A :=
  let '(replacement, s) := ga_alloc new_layout s in
  if replacement =? 0 then (0, s)
  else if negb (pointer =? 0) then
    let copied := load_bytes s pointer (Z.to_nat (Z.min (l_size old_layout) (l_size new_layout))) in
    (replacement, ga_dealloc pointer old_layout (store_bytes replacement copied s))
  else (replacement, s).

Definition free_from (pointer : Z) (s : A) : result unit CAllocationError * A :=
  if pointer =? 0 then (Ok tt, s)
  else
    let header := pointer - C_HEADER_SIZE in
    if negb (header_magic s header =? C_ALLOCATION_MAGIC) then (Err InvalidPointer, s)
    else
      match allocation_layout (header_size s header) with
      | Err e => (Err e, s)
      | Ok layout => (Ok tt, ga_dealloc header layout (write_magic header 0 s))
      end.

Definition realloc_from (pointer size : Z) (s : A) : result (option Z) CAllocationError * A :=
  if pointer =? 0 then
    if size =? 0 then (Ok None, s)
    else let '(r, s) := malloc_from size s in (let? p := r in Ok (Some p), s)
  else
    let header := pointer - C_HEADER_SIZE in
    if negb (header_magic s header =? C_ALLOCATION_MAGIC) then (Err InvalidPointer, s)
    else
      match allocation_layout (header_size s header) with
      | Err e => (Err e, s)
      | Ok old_layout =>
          if size =? 0 then
            let '(r, s) := free_from pointer s in (let? _ := r in Ok None, s)
          else
            match allocation_layout size with
            | Err e => (Err e, s)
            | Ok new_layout =>
                let '(new_base, s) := realloc_preserving header old_layout new_layout s in
                if new_base =? 0 then (Err OutOfMemory, s)
                else (Ok (Some (new_base + C_HEADER_SIZE)), write_header new_base size s)
            end
      end.
End CAlloc.
End CAlloc.

(** ** The contract of an allocator *)

Definition in_block (p : Z) (l : Layout) (a : Z) : Prop := p <= a < p + l_size l.

Class GlobalAllocLaws (A : Type) `{GlobalAlloc A} := {
  ga_ok : A -> Prop;
  (** the blocks that are given out *)
  ga_live : A -> gmap Z Layout;
  ga_live_nonnull : forall s p l, ga_ok s -> ga_live s !! p = Some l -> 0 < p;
  ga_live_disjoint : forall s p l p' l', ga_ok s -> ga_live s !! p = Some l -> ga_live s !! p' = Some l' -> p <> p' ->
    p + l_size l <= p' \/ p' + l_size l' <= p;
  ga_alloc_spec : forall s l p s', ga_ok s -> 0 < l_size l -> is_power_of_two (l_align l) = true ->
    ga_alloc l s = (p, s') ->
    ga_ok s'
    /\ (forall q k a, ga_live s !! q = Some k -> in_block q k a -> ga_load s' a = ga_load s a)
    /\ (p = 0 /\ ga_live s' = ga_live s
        \/ p <> 0 /\ ga_live s !! p = None /\ ga_live s' = <[p := l]> (ga_live s) /\ (l_align l | p));
  ga_dealloc_spec : forall s p l, ga_ok s -> ga_live s !! p = Some l ->
    let s' := ga_dealloc p l s in
    ga_ok s' /\ ga_live s' = delete p (ga_live s)
    /\ forall q k a, ga_live s' !! q = Some k -> in_block q k a -> ga_load s' a = ga_load s a;
  ga_store_spec : forall s p l a b, ga_ok s -> ga_live s !! p = Some l -> in_block p l a ->
    let s' := ga_store a b s in
    ga_ok s' /\ ga_live s' = ga_live s /\ forall a', ga_load s' a' = if decide (a' = a) then b else ga_load s a'
}.

(** What the functions need beside that contract: the size in the header has 32
    bits, so no block may be larger. The guest's allocator gives out none that is,
    its budget being at most 64 MiB. *)
Class SmallBlocks (A : Type) `{GlobalAllocLaws A} :=
  ga_small : forall s l p s', ga_ok s -> 0 < l_size l -> is_power_of_two (l_align l) = true -> ga_alloc l s = (p, s') -> p <> 0 ->
    l_size l <= U32_MAX.

(** ** What the C functions promise *)

Section Spec.
Context `{GlobalAllocLaws A} `{!SmallBlocks A}.
Import CAlloc.

(** The layout of a block of [n] bytes. *)
Definition c_layout (n : Z) : Layout := mkLayout (C_HEADER_SIZE + Z.max n 1) C_MAX_ALIGNMENT.

(** A block of the C functions: where it is, and its contents. *)
Definition c_block (s : A) (q : Z) (b : bytes) : Prop :=
  ga_live s !! (q - C_HEADER_SIZE) = Some (c_layout (blen b))
  /\ header_magic s (q - C_HEADER_SIZE) = C_ALLOCATION_MAGIC
  /\ header_size s (q - C_HEADER_SIZE) = blen b
  /\ load_bytes s q (length b) = b.

(** The heap as C sees it. *)
Definition represents (s : A) (h : gmap Z bytes) : Prop := forall q b, h !! q = Some b -> c_block s q b.

(** *** Layouts *)

Lemma allocation_layout_Ok n l :
  0 <= n -> allocation_layout n = Ok l -> l = c_layout n.
Proof.
  intros Hn Hl. unfold allocation_layout, from_size_align in Hl. apply rbind_Ok in Hl as (t & Ht & Hl).
  unfold checked_add in Ht. repeat case_match; by simplify_eq/=.
Qed.

Lemma allocation_layout_Err n e : allocation_layout n = Err e -> e = SizeOverflow.
Proof. unfold allocation_layout, checked_add, from_size_align. repeat (case_match; simplify_eq/=); naive_solver. Qed.

Lemma allocation_layout_small n : 0 <= n <= U32_MAX -> allocation_layout n = Ok (c_layout n).
Proof.
  intros Hn. unfold allocation_layout, from_size_align, checked_add, C_HEADER_SIZE, C_MAX_ALIGNMENT, U32_MAX in *.
  rewrite (proj2 (Z.leb_le _ _)) by (unfold USIZE_MAX, U64_MAX; lia). cbn [ok_or rbind].
  change (is_power_of_two 16) with true. cbn [andb].
  by rewrite (proj2 (Z.leb_le _ _)) by (unfold ISIZE_MAX; lia).
Qed.

Lemma c_layout_size n : 0 <= n -> C_HEADER_SIZE + n <= l_size (c_layout n) /\ C_HEADER_SIZE < l_size (c_layout n).
Proof. unfold c_layout. cbn. lia. Qed.

(** *** Reading and writing bytes *)

Lemma load_bytes_length s p n : length (load_bytes s p n) = n.
Proof. unfold load_bytes. by rewrite length_map, length_seq. Qed.

Lemma load_bytes_lookup s p n i : (i < n)%nat -> load_bytes s p n !! i = Some (ga_load s (p + Z.of_nat i)).
Proof. intros Hi. unfold load_bytes. rewrite list_lookup_fmap, lookup_seq_lt by done. done. Qed.

Lemma load_bytes_ext s s' p n :
  (forall i, (i < n)%nat -> ga_load s' (p + Z.of_nat i) = ga_load s (p + Z.of_nat i)) ->
  load_bytes s' p n = load_bytes s p n.
Proof.
  intros Hext. apply list_eq. intros i. destruct (decide (i < n)%nat) as [Hi|Hi].
  - rewrite !load_bytes_lookup by done. by rewrite Hext.
  - rewrite !lookup_ge_None_2; [done|rewrite load_bytes_length; lia..].
Qed.

(** Writing within a live block. *)
Lemma store_bytes_spec s p l a b :
  ga_ok s -> ga_live s !! p = Some l -> p <= a -> a + blen b <= p + l_size l ->
  let s' := store_bytes a b s in
  ga_ok s' /\ ga_live s' = ga_live s
  /\ (forall x, (x < a \/ a + blen b <= x) -> ga_load s' x = ga_load s x)
  /\ load_bytes s' a (length b) = b.
Proof.
  intros Hok Hl Ha Hb. revert s a Hok Hl Ha Hb. induction b as [|c b IH]; intros s a Hok Hl Ha Hb; cbn [store_bytes].
  { done. }
  rewrite blen_cons in Hb. pose proof (blen_nonneg b).
  destruct (ga_store_spec s p l a c Hok Hl) as (Hok1 & Hl1 & Hload); [unfold in_block; lia|].
  destruct (IH (ga_store a c s) (a + 1)) as (Hok2 & Hl2 & Hout & Hin); [done|by rewrite Hl1|lia|lia|].
  cbv zeta. split; [done|]. split; [by rewrite Hl2|]. split.
  - intros x Hx. rewrite blen_cons in Hx. rewrite Hout by lia. rewrite Hload. case_decide; [lia|done].
  - cbn [length]. unfold load_bytes. cbn [seq map]. f_equal.
    + rewrite Z.add_0_r, Hout by lia. rewrite Hload. by case_decide.
    + rewrite <- Hin at 2. unfold load_bytes. rewrite <- seq_shift, map_map. apply map_ext. intros i. f_equal. lia.
Qed.

(** *** What is left alone *)

(** Every live block but those of [P] stays, with its contents. *)
Definition frame (s s' : A) (P : Z -> Prop) : Prop :=
  forall q k, ga_live s !! q = Some k -> ~ P q ->
    ga_live s' !! q = Some k /\ forall a, in_block q k a -> ga_load s' a = ga_load s a.

Definition nothing : Z -> Prop := fun _ => False.

Lemma frame_refl s P : frame s s P.
Proof. done. Qed.

Lemma frame_trans s1 s2 s3 P : frame s1 s2 P -> frame s2 s3 P -> frame s1 s3 P.
Proof.
  intros H1 H2 q k Hq Hp. destruct (H1 q k Hq Hp) as [Hq2 Ha]. destruct (H2 q k Hq2 Hp) as [Hq3 Hb].
  split; [done|]. intros a Hin. by rewrite Hb, Ha.
Qed.

Lemma frame_mono s s' (P Q : Z -> Prop) : (forall q, P q -> Q q) -> frame s s' P -> frame s s' Q.
Proof. intros HPQ Hf q k Hq Hn. apply Hf; [done|]. intros Hp. by apply Hn, HPQ. Qed.

Lemma load_bytes_frame s s' P q k p n :
  frame s s' P -> ga_live s !! q = Some k -> ~ P q -> q <= p -> p + Z.of_nat n <= q + l_size k ->
  load_bytes s' p n = load_bytes s p n.
Proof.
  intros Hf Hq Hp Hlo Hhi. apply load_bytes_ext. intros i Hi. destruct (Hf q k Hq Hp) as [_ Ha]. apply Ha.
  unfold in_block. lia.
Qed.

Lemma c_block_frame s s' P q b : frame s s' P -> ~ P (q - C_HEADER_SIZE) -> c_block s q b -> c_block s' q b.
Proof.
  intros Hf Hp (Hl & Hm & Hs & Hb). pose proof (c_layout_size (blen b) (blen_nonneg b)).
  unfold C_HEADER_SIZE in *. unfold c_block, header_magic, header_size, C_HEADER_SIZE in *.
  rewrite (load_bytes_frame s s' P _ _ (q - 16) 4 Hf Hl Hp) by lia.
  rewrite (load_bytes_frame s s' P _ _ (q - 16 + 4) 4 Hf Hl Hp) by lia.
  rewrite (load_bytes_frame s s' P _ _ q (length b) Hf Hl Hp) by (unfold blen in *; lia).
  split; [|done]. by apply (Hf _ _ Hl Hp).
Qed.

Lemma represents_frame s s' P h :
  represents s h -> frame s s' P -> (forall q b, h !! q = Some b -> ~ P (q - C_HEADER_SIZE)) -> represents s' h.
Proof. intros Hr Hf Hp q b Hq. apply (c_block_frame s s' P); [done|by eapply Hp|by apply Hr]. Qed.

(** A write within one block. *)
Lemma store_bytes_frame s p l a b :
  ga_ok s -> ga_live s !! p = Some l -> p <= a -> a + blen b <= p + l_size l ->
  frame s (store_bytes a b s) (eq p).
Proof.
  intros Hok Hl Ha Hb. destruct (store_bytes_spec s p l a b Hok Hl Ha Hb) as (_ & Hl' & Hout & _).
  intros q k Hq Hne. split; [by rewrite Hl'|]. intros x Hx. apply Hout.
  destruct (ga_live_disjoint s p l q k Hok Hl Hq Hne); unfold in_block in Hx; lia.
Qed.

Lemma write_header_spec s base n :
  ga_ok s -> ga_live s !! base = Some (c_layout n) -> 0 <= n <= U32_MAX ->
  let s' := write_header base n s in
  ga_ok s' /\ ga_live s' = ga_live s /\ frame s s' (eq base)
  /\ header_magic s' base = C_ALLOCATION_MAGIC /\ header_size s' base = n
  /\ forall x, base + 8 <= x -> ga_load s' x = ga_load s x.
Proof.
  intros Hok Hl Hn. pose proof (c_layout_size n ltac:(lia)) as [_ Hsz]. unfold C_HEADER_SIZE in Hsz.
  unfold write_header, write_magic.
  destruct (store_bytes_spec s base _ base (to_le_bytes 4 C_ALLOCATION_MAGIC) Hok Hl) as (Hok1 & Hl1 & Hout1 & Hin1);
    [lia|rewrite blen_to_le_bytes; lia|].
  pose proof (store_bytes_frame s base _ base (to_le_bytes 4 C_ALLOCATION_MAGIC) Hok Hl) as Hf1.
  set (s1 := store_bytes base _ s) in *. rewrite blen_to_le_bytes in *.
  destruct (store_bytes_spec s1 base (c_layout n) (base + 4) (to_le_bytes 4 (Z.min n U32_MAX)) Hok1) as (Hok2 & Hl2 & Hout2 & Hin2);
    [by rewrite Hl1|lia|rewrite blen_to_le_bytes; lia|].
  pose proof (store_bytes_frame s1 base (c_layout n) (base + 4) (to_le_bytes 4 (Z.min n U32_MAX)) Hok1) as Hf2.
  rewrite Hl1, blen_to_le_bytes in Hf2. rewrite blen_to_le_bytes, to_le_bytes_length in *.
  cbv zeta. set (s2 := store_bytes (base + 4) _ s1) in *.
  split; [done|]. split; [by rewrite Hl2|]. split; [eapply frame_trans; [apply Hf1; lia|apply Hf2; [done|lia|lia]]|].
  split; [|split].
  - unfold header_magic. rewrite (load_bytes_ext s1 s2) by (intros i Hi; apply Hout2; lia). rewrite Hin1. reflexivity.
  - unfold header_size. rewrite Hin2. rewrite Z.min_l by lia. apply from_to_u32. unfold u32_ok. lia.
  - intros x Hx. rewrite Hout2 by lia. apply Hout1. lia.
Qed.

Lemma c_layout_allocates n : 0 < l_size (c_layout n) /\ is_power_of_two (l_align (c_layout n)) = true.
Proof. unfold c_layout, C_HEADER_SIZE. cbn [l_size l_align]. split; [lia|reflexivity]. Qed.

(** A fresh block of [n] bytes at [q]. *)
Definition fresh (s s' : A) (q n : Z) (b : bytes) : Prop :=
  ga_live s !! (q - C_HEADER_SIZE) = None /\ blen b = n /\ c_block s' q b /\ (C_MAX_ALIGNMENT | q).

Lemma alloc_frame s l p s' :
  ga_ok s -> 0 < l_size l -> is_power_of_two (l_align l) = true -> ga_alloc l s = (p, s') -> frame s s' nothing.
Proof.
  intros Hok Hs Ha Hal. destruct (ga_alloc_spec s l p s' Hok Hs Ha Hal) as (_ & Hk & Hr). intros q k Hq _.
  split; [|by intros a Hin; eapply Hk]. destruct Hr as [[_ ->]|(_ & Hn & -> & _)]; [done|].
  rewrite lookup_insert_ne; [done|]. intros ->. congruence.
Qed.

(** A block that was just allocated becomes a C block once it has a header. *)
Lemma header_block s base n :
  ga_ok s -> ga_live s !! base = Some (c_layout n) -> 0 <= n <= U32_MAX ->
  let s' := write_header base n s in
  c_block s' (base + C_HEADER_SIZE) (load_bytes s (base + C_HEADER_SIZE) (Z.to_nat n)).
Proof.
  intros Hok Hl Hn. destruct (write_header_spec s base n Hok Hl Hn) as (Hok' & Hl' & _ & Hm & Hz & Hout).
  cbv zeta. unfold c_block. rewrite load_bytes_length. unfold blen. rewrite load_bytes_length, Z2Nat.id by lia.
  replace (base + C_HEADER_SIZE - C_HEADER_SIZE) with base by lia. rewrite Hl'. split; [done|]. split; [done|].
  split; [done|]. apply load_bytes_ext. intros i Hi. apply Hout. unfold C_HEADER_SIZE. lia.
Qed.

Lemma malloc_spec s n r s' :
  ga_ok s -> 0 <= n -> malloc_from n s = (r, s') ->
  ga_ok s' /\ frame s s' nothing
  /\ match r with
     | Err _ => True
     | Ok q => exists b, fresh s s' q n b
     end.
Proof.
  intros Hok Hn. unfold malloc_from. destruct (allocation_layout n) as [l|e] eqn:Hlay; [|by intros [= <- <-]].
  apply allocation_layout_Ok in Hlay as ->; [|done]. destruct (c_layout_allocates n) as [Hpos Hal].
  destruct (ga_alloc (c_layout n) s) as [base s1] eqn:Halloc.
  pose proof (alloc_frame s _ base s1 Hok Hpos Hal Halloc) as Hf.
  destruct (ga_alloc_spec s _ base s1 Hok Hpos Hal Halloc) as (Hok1 & _ & Hr). pose proof (ga_small s _ base s1 Hok Hpos Hal Halloc) as Hsz.
  destruct (Z.eqb_spec base 0) as [->|Hb]; [by intros [= <- <-]|]. intros [= <- <-].
  specialize (Hsz Hb). destruct Hr as [[-> _]|(_ & Hnone & Hl1 & Hdiv)]; [done|].
  assert (ga_live s1 !! base = Some (c_layout n)) as Hl by (rewrite Hl1; apply lookup_insert_eq).
  assert (0 <= n <= U32_MAX) as Hn32 by (unfold c_layout, C_HEADER_SIZE in Hsz; cbn in Hsz; lia).
  destruct (write_header_spec s1 base n Hok1 Hl Hn32) as (Hok2 & _ & Hf2 & _).
  split; [done|]. split.
  - intros q k Hq Hnp. assert (q <> base) as Hne by (intros ->; congruence).
    destruct (Hf q k Hq Hnp) as [Hq1 Ha1]. destruct (Hf2 q k Hq1) as [Hq2 Ha2]; [by intros ->|].
    split; [done|]. intros a Ha. by rewrite Ha2, Ha1.
  - exists (load_bytes s1 (base + C_HEADER_SIZE) (Z.to_nat n)). unfold fresh.
    replace (base + C_HEADER_SIZE - C_HEADER_SIZE) with base by lia. split; [done|].
    split; [unfold blen; rewrite load_bytes_length; lia|]. split; [by apply header_block|].
    apply Z.divide_add_r; [done|]. by exists 1.
Qed.

(** Overwriting the contents of a C block. *)
Lemma store_c_block s q b b' :
  ga_ok s -> c_block s q b -> blen b' = blen b ->
  let s' := store_bytes q b' s in
  ga_ok s' /\ frame s s' (eq (q - C_HEADER_SIZE)) /\ ga_live s' = ga_live s /\ c_block s' q b'.
Proof.
  intros Hok (Hl & Hm & Hz & Hb) Hlen. pose proof (c_layout_size (blen b) (blen_nonneg b)).
  unfold C_HEADER_SIZE in *. unfold c_block, header_magic, header_size, C_HEADER_SIZE in *.
  destruct (store_bytes_spec s _ _ q b' Hok Hl) as (Hok' & Hl' & Hout & Hin); [lia|lia|].
  pose proof (store_bytes_frame s _ _ q b' Hok Hl ltac:(lia) ltac:(lia)) as Hf. cbv zeta.
  split; [done|]. split; [done|]. split; [done|]. rewrite Hl', Hlen. split; [done|].
  rewrite !(load_bytes_ext s (store_bytes q b' s)) by (intros i Hi; apply Hout; lia). done.
Qed.

Lemma free_spec s q b :
  ga_ok s -> c_block s q b -> q <> 0 -> blen b <= U32_MAX ->
  exists s', free_from q s = (Ok tt, s') /\ ga_ok s' /\ frame s s' (eq (q - C_HEADER_SIZE)).
Proof.
  intros Hok (Hl & Hm & Hz & Hb) Hq Hlen. pose proof (blen_nonneg b) as Hb0. pose proof (c_layout_size (blen b) Hb0).
  unfold free_from. destruct (Z.eqb_spec q 0); [done|]. rewrite Hm, Z.eqb_refl. cbn [negb]. rewrite Hz, allocation_layout_small by lia.
  eexists. split; [done|]. unfold C_HEADER_SIZE, write_magic in *.
  destruct (store_bytes_spec s (q - 16) _ (q - 16) (to_le_bytes 4 0) Hok Hl) as (Hok1 & Hl1 & _ & _); [lia|rewrite blen_to_le_bytes; lia|].
  pose proof (store_bytes_frame s (q - 16) _ (q - 16) (to_le_bytes 4 0) Hok Hl ltac:(lia)) as Hf1. rewrite blen_to_le_bytes in Hf1.
  set (s1 := store_bytes (q - 16) (to_le_bytes 4 0) s) in *.
  destruct (ga_dealloc_spec s1 (q - 16) (c_layout (blen b)) Hok1) as (Hok2 & Hl2 & Hk2); [by rewrite Hl1|].
  split; [done|]. intros p k Hp Hne. destruct (Hf1 ltac:(lia) p k Hp Hne) as [Hp1 Ha1].
  assert (ga_live (ga_dealloc (q - 16) (c_layout (blen b)) s1) !! p = Some k) as Hp2.
  { rewrite Hl2. by rewrite lookup_delete_ne. }
  split; [done|]. intros a Ha. rewrite (Hk2 p k a Hp2 Ha). by apply Ha1.
Qed.

Lemma load_bytes_app s p n m : load_bytes s p (n + m) = load_bytes s p n ++ load_bytes s (p + Z.of_nat n) m.
Proof.
  unfold load_bytes. rewrite seq_app, map_app. f_equal. rewrite Nat.add_0_l, <- (Nat.add_0_r n) at 1.
  rewrite <- fmap_add_seq. change (Nat.add n <$> seq 0 m) with (map (Nat.add n) (seq 0 m)).
  rewrite map_map. apply map_ext. intros i. f_equal. lia.
Qed.

Lemma load_bytes_take s p n m : (m <= n)%nat -> load_bytes s p m = take m (load_bytes s p n).
Proof.
  intros Hm. replace n with (m + (n - m))%nat by lia. rewrite load_bytes_app.
  rewrite take_app_length'; [done|]. by rewrite load_bytes_length.
Qed.

(** The block moves, with the bytes that fit both sizes. *)
Lemma realloc_preserving_spec s q b n p s' :
  ga_ok s -> c_block s q b -> 0 < q - C_HEADER_SIZE -> 0 <= n ->
  realloc_preserving (q - C_HEADER_SIZE) (c_layout (blen b)) (c_layout n) s = (p, s') ->
  ga_ok s'
  /\ (p = 0 /\ frame s s' nothing
      \/ p <> 0 /\ n <= U32_MAX /\ ga_live s !! p = None /\ ga_live s' !! p = Some (c_layout n) /\ (C_MAX_ALIGNMENT | p)
         /\ frame s s' (eq (q - C_HEADER_SIZE))
         /\ load_bytes s' (p + C_HEADER_SIZE) (Z.to_nat (Z.min (blen b) n)) = take (Z.to_nat (Z.min (blen b) n)) b).
Proof.
  intros Hok Hcb Hq Hn. pose proof Hcb as (Hl & _ & _ & Hb). unfold realloc_preserving.
  destruct (c_layout_allocates n) as [Hpos Hal]. destruct (ga_alloc (c_layout n) s) as [p1 s1] eqn:Halloc.
  pose proof (alloc_frame s _ p1 s1 Hok Hpos Hal Halloc) as Hf1.
  destruct (ga_alloc_spec s _ p1 s1 Hok Hpos Hal Halloc) as (Hok1 & _ & Hr). pose proof (ga_small s _ p1 s1 Hok Hpos Hal Halloc) as Hsz.
  destruct (Z.eqb_spec p1 0) as [->|Hp1]; [intros [= <- <-]; by auto|].
  specialize (Hsz Hp1). destruct Hr as [[-> _]|(_ & Hnone & Hl1 & Hdiv)]; [done|].
  destruct (Z.eqb_spec (q - C_HEADER_SIZE) 0) as [E0|_]; [lia|]. cbn [negb]. intros E. apply pair_equal_spec in E as [<- <-].
  assert (ga_live s1 !! p1 = Some (c_layout n)) as Hnew by (rewrite Hl1; apply lookup_insert_eq).
  assert (q - C_HEADER_SIZE <> p1) as Hne by (intros <-; congruence).
  assert (ga_live s1 !! (q - C_HEADER_SIZE) = Some (c_layout (blen b))) as Hold by (by rewrite Hl1, lookup_insert_ne).
  pose proof (blen_nonneg b) as Hb0. set (m := Z.to_nat (Z.min (l_size (c_layout (blen b))) (l_size (c_layout n)))).
  assert (Z.of_nat m <= l_size (c_layout n)) as Hm by (unfold m; lia).
  pose proof (load_bytes_length s1 (q - C_HEADER_SIZE) m) as Hclen. set (copied := load_bytes s1 (q - C_HEADER_SIZE) m) in *.
  assert (blen copied = Z.of_nat m) as Hcb' by (unfold blen; by rewrite Hclen).
  destruct (store_bytes_spec s1 p1 _ p1 copied Hok1 Hnew) as (Hok2 & Hl2 & _ & Hin2); [lia|lia|].
  pose proof (store_bytes_frame s1 p1 _ p1 copied Hok1 Hnew ltac:(lia) ltac:(lia)) as Hf2.
  set (s2 := store_bytes p1 copied s1) in *.
  destruct (ga_dealloc_spec s2 (q - C_HEADER_SIZE) (c_layout (blen b)) Hok2) as (Hok3 & Hl3 & Hk3); [by rewrite Hl2|].
  set (s3 := ga_dealloc _ _ s2) in *. split; [done|]. right. split; [done|].
  split; [unfold c_layout, C_HEADER_SIZE in Hsz; cbn in Hsz; lia|]. split; [done|].
  assert (ga_live s3 !! p1 = Some (c_layout n)) as Hlive3 by (by rewrite Hl3, lookup_delete_ne, Hl2).
  split; [done|]. split; [done|]. split.
  - intros r k Hrk Hrne. destruct (Hf1 r k Hrk (fun x => x)) as [Hr1 Ha1].
    destruct (Hf2 r k Hr1) as [Hr2 Ha2]; [intros ->; congruence|].
    assert (ga_live s3 !! r = Some k) as Hr3 by (by rewrite Hl3, lookup_delete_ne).
    split; [done|]. intros a Ha. rewrite (Hk3 r k a Hr3 Ha), Ha2 by done. by apply Ha1.
  - set (j := Z.to_nat (Z.min (blen b) n)).
    assert (C_HEADER_SIZE + Z.of_nat j <= Z.of_nat m) as Hj
      by (unfold j, m, c_layout, C_HEADER_SIZE in *; cbn [l_size]; lia).
    assert (load_bytes s3 p1 m = copied) as H3.
    { rewrite <- Hin2, Hclen. apply load_bytes_ext. intros i Hi. eapply Hk3; [exact Hlive3|]. unfold in_block. lia. }
    assert (load_bytes s3 p1 (16 + j) = load_bytes s1 (q - C_HEADER_SIZE) (16 + j)) as H4.
    { rewrite (load_bytes_take s3 p1 m), (load_bytes_take s1 _ m) by (unfold C_HEADER_SIZE in Hj; lia). by rewrite H3. }
    rewrite !load_bytes_app in H4. apply app_inj_1 in H4 as [_ H4]; [|by rewrite !load_bytes_length].
    change (Z.of_nat 16) with C_HEADER_SIZE in H4. rewrite H4.
    replace (q - C_HEADER_SIZE + C_HEADER_SIZE) with q by lia.
    rewrite (load_bytes_take s1 q (length b)) by (unfold j, blen; lia). f_equal. rewrite <- Hb at 2.
    apply (load_bytes_frame s s1 nothing (q - C_HEADER_SIZE) (c_layout (blen b))); [done|done|by intros []|unfold C_HEADER_SIZE; lia|].
    unfold c_layout, C_HEADER_SIZE, blen. cbn [l_size]. lia.
Qed.

(** *** The heap of a C program *)

(** What a C program does with the functions; [CWrite] is its own write. *)
Inductive c_call :=
| CMalloc (size : Z)
| CCalloc (count size : Z)
| CRealloc (pointer size : Z)
| CFree (pointer : Z)
| CWrite (pointer : Z) (b : bytes).

Definition c_step (k : c_call) (s : A) : result (option Z) CAllocationError * A :=
  match k with
  | CMalloc size => let '(r, s) := malloc_from size s in (let? p := r in Ok (Some p), s)
  | CCalloc count size => let '(r, s) := calloc_from count size s in (let? p := r in Ok (Some p), s)
  | CRealloc pointer size => realloc_from pointer size s
  | CFree pointer => let '(r, s) := free_from pointer s in (let? _ := r in Ok None, s)
  | CWrite pointer b => (Ok None, store_bytes pointer b s)
  end.

(** The calls C allows: sizes that exist, pointers of live blocks or null. *)
Definition valid_call (h : gmap Z bytes) (k : c_call) : Prop :=
  match k with
  | CMalloc size => 0 <= size
  | CCalloc count size => 0 <= count /\ 0 <= size
  | CRealloc pointer size => 0 <= size /\ (pointer = 0 \/ is_Some (h !! pointer))
  | CFree pointer => pointer = 0 \/ is_Some (h !! pointer)
  | CWrite pointer b => exists b0, h !! pointer = Some b0 /\ blen b = blen b0
  end.

(** A call of which the heap is left as it was when it fails. *)
Definition may_fail (k : c_call) : bool :=
  match k with CMalloc _ | CCalloc _ _ | CRealloc _ _ => true | _ => false end.

(** The abstract heap: a map from addresses to contents. *)
Inductive c_spec (h : gmap Z bytes) : c_call -> result (option Z) CAllocationError -> gmap Z bytes -> Prop :=
| spec_malloc n q b : h !! q = None -> blen b = n -> (C_MAX_ALIGNMENT | q) ->
    c_spec h (CMalloc n) (Ok (Some q)) (<[q := b]> h)
| spec_calloc c n q : h !! q = None -> (C_MAX_ALIGNMENT | q) ->
    c_spec h (CCalloc c n) (Ok (Some q)) (<[q := repeat x00 (Z.to_nat (c * n))]> h)
| spec_realloc_null n q b : n <> 0 -> h !! q = None -> blen b = n -> (C_MAX_ALIGNMENT | q) ->
    c_spec h (CRealloc 0 n) (Ok (Some q)) (<[q := b]> h)
| spec_realloc_nothing : c_spec h (CRealloc 0 0) (Ok None) h
| spec_realloc_free q b : h !! q = Some b -> c_spec h (CRealloc q 0) (Ok None) (delete q h)
| spec_realloc_move q b n q' b' : h !! q = Some b -> n <> 0 -> h !! q' = None -> blen b' = n -> (C_MAX_ALIGNMENT | q') ->
    take (Z.to_nat (Z.min (blen b) n)) b' = take (Z.to_nat (Z.min (blen b) n)) b ->
    c_spec h (CRealloc q n) (Ok (Some q')) (<[q' := b']> (delete q h))
| spec_free_null : c_spec h (CFree 0) (Ok None) h
| spec_free_block q b : h !! q = Some b -> c_spec h (CFree q) (Ok None) (delete q h)
| spec_write q b : c_spec h (CWrite q b) (Ok None) (<[q := b]> h)
| spec_fail k e : may_fail k = true -> e <> InvalidPointer -> c_spec h k (Err e) h.

Lemma c_block_bounds s q b : ga_ok s -> c_block s q b -> 0 < q - C_HEADER_SIZE /\ blen b <= U32_MAX.
Proof.
  intros Hok (Hl & _ & Hz & _). split; [by eapply ga_live_nonnull|]. rewrite <- Hz. unfold header_size.
  pose proof (from_le_bytes_range (load_bytes s (q - C_HEADER_SIZE + 4) 4)) as Hr. unfold blen in Hr; rewrite load_bytes_length in Hr.
  unfold U32_MAX. simpl in Hr. lia.
Qed.

Lemma fresh_not_in s h q : represents s h -> ga_live s !! (q - C_HEADER_SIZE) = None -> h !! q = None.
Proof. intros Hr Hn. destruct (h !! q) as [b|] eqn:Hq; [|done]. destruct (Hr q b Hq) as [Hl _]. congruence. Qed.

Lemma represents_insert s s' h q b :
  represents s h -> frame s s' nothing -> c_block s' q b -> represents s' (<[q := b]> h).
Proof.
  intros Hr Hf Hb p c Hp. apply lookup_insert_Some in Hp as [[<- <-]|[_ Hp]]; [done|].
  apply (c_block_frame s s' nothing); [done|by intros []|by apply Hr].
Qed.

Lemma represents_delete s s' h q :
  represents s h -> frame s s' (eq (q - C_HEADER_SIZE)) -> represents s' (delete q h).
Proof.
  intros Hr Hf p c Hp. apply lookup_delete_Some in Hp as [Hne Hp].
  apply (c_block_frame s s' (eq (q - C_HEADER_SIZE))); [done| |by apply Hr]. intros E. apply Hne. lia.
Qed.

(** Blocks that are not C's stay as they are. *)
Definition others_kept (s s' : A) (h : gmap Z bytes) : Prop :=
  frame s s' (fun p => exists q b, h !! q = Some b /\ p = q - C_HEADER_SIZE).

Lemma others_nothing s s' h : frame s s' nothing -> others_kept s s' h.
Proof. apply frame_mono. by intros q []. Qed.

Lemma others_block s s' h q b : h !! q = Some b -> frame s s' (eq (q - C_HEADER_SIZE)) -> others_kept s s' h.
Proof. intros Hq. apply frame_mono. intros p <-. eauto. Qed.

(** A pointer that is answered is not null. *)
Lemma answered_pointer s' h k q h' : c_spec h k (Ok (Some q)) h' -> represents s' h' -> ga_ok s' -> 0 < q.
Proof.
  intros Hs Hr Hok. assert (exists b, h' !! q = Some b) as [b Hb].
  { inversion Hs; subst; eexists; apply lookup_insert_eq. }
  destruct (c_block_bounds s' q b Hok (Hr q b Hb)). unfold C_HEADER_SIZE in *. lia.
Qed.

Lemma answered_error h k e h' : c_spec h k (Err e) h' -> e <> InvalidPointer.
Proof. by inversion 1. Qed.

Definition refines_call (s : A) (h : gmap Z bytes) (k : c_call) (r : result (option Z) CAllocationError) (s' : A) : Prop :=
  exists h', c_spec h k r h' /\ represents s' h' /\ ga_ok s' /\ others_kept s s' h.

Lemma malloc_refines s h n r s' k (wrap : forall q b, h !! q = None -> blen b = n -> (C_MAX_ALIGNMENT | q) ->
      c_spec h k (Ok (Some q)) (<[q := b]> h)) :
  ga_ok s -> represents s h -> 0 <= n -> may_fail k = true -> malloc_from n s = (r, s') ->
  refines_call s h k (let? p := r in Ok (Some p)) s'.
Proof.
  intros Hok Hr Hn Hk Hm. pose proof Hm as Hm'. apply malloc_spec in Hm as (Hok' & Hf & Hres); [|done..].
  destruct r as [q|e]; cbn [rbind].
  - destruct Hres as (b & Hnone & Hlen & Hb & Hd). exists (<[q := b]> h). split_and!; [|by eapply represents_insert|done|by apply others_nothing].
    apply wrap; [by eapply fresh_not_in|done|done].
  - exists h. split_and!; [|exact (represents_frame s s' nothing h Hr Hf (fun _ _ _ x => x))|done|by apply others_nothing].
    apply spec_fail; [done|]. unfold malloc_from in Hm'. destruct (allocation_layout n) as [l|e'] eqn:Hl.
    + destruct (ga_alloc l s) as [base s1]. destruct (base =? 0); by simplify_eq.
    + apply allocation_layout_Err in Hl. by simplify_eq.
Qed.

Lemma free_refines s h q r s' k : ga_ok s -> represents s h -> is_Some (h !! q) -> free_from q s = (r, s') ->
  (forall b, h !! q = Some b -> c_spec h k (Ok None) (delete q h)) ->
  refines_call s h k (let? _ := r in Ok None) s'.
Proof.
  intros Hok Hr [b Hq] Hfree Hspec. pose proof (Hr q b Hq) as Hcb. destruct (c_block_bounds s q b Hok Hcb) as [Hpos Hlen].
  destruct (free_spec s q b Hok Hcb) as (s1 & Hf1 & Hok1 & Hfr); [unfold C_HEADER_SIZE in Hpos; lia|done|].
  rewrite Hf1 in Hfree. injection Hfree as <- <-. exists (delete q h).
  split_and!; [by eapply Hspec|by eapply represents_delete|done|by eapply others_block].
Qed.

Lemma calloc_refines s h c n r s' :
  ga_ok s -> represents s h -> 0 <= c -> 0 <= n -> calloc_from c n s = (r, s') ->
  refines_call s h (CCalloc c n) (let? p := r in Ok (Some p)) s'.
Proof.
  intros Hok Hr Hc Hn. unfold calloc_from, calloc_size, checked_mul. assert (0 <= c * n) as Hcn by (by apply Z.mul_nonneg_nonneg).
  destruct (c * n <=? USIZE_MAX); cbn [ok_or].
  2:{ intros [= <- <-]. exists h. split_and!; [by apply spec_fail|done|done|apply others_nothing, frame_refl]. }
  destruct (malloc_from (c * n) s) as [r1 s1] eqn:Hm. pose proof Hm as Hm'.
  apply malloc_spec in Hm as (Hok1 & Hf1 & Hres); [|done..]. destruct r1 as [q|e].
  - intros [= <- <-]. destruct Hres as (b & Hnone & Hlen & Hb & Hd).
    destruct (store_c_block s1 q b (repeat x00 (Z.to_nat (c * n))) Hok1 Hb) as (Hok2 & Hf2 & _ & Hb2).
    { rewrite Hlen. unfold blen. rewrite repeat_length. lia. }
    assert (frame s (store_bytes q (repeat x00 (Z.to_nat (c * n))) s1) nothing) as Hf.
    { intros p k Hp Hnp. destruct (Hf1 p k Hp Hnp) as [Hp1 Ha1]. destruct (Hf2 p k Hp1) as [Hp2 Ha2]; [intros <-; congruence|].
      split; [done|]. intros a Ha. by rewrite Ha2, Ha1. }
    eexists. split_and!; [|by eapply represents_insert|done|by apply others_nothing].
    apply spec_calloc; [by eapply fresh_not_in|done].
  - intros [= <- <-]. exists h. split_and!; [|exact (represents_frame s s1 nothing h Hr Hf1 (fun _ _ _ x => x))|done|by apply others_nothing].
    apply spec_fail; [done|]. unfold malloc_from in Hm'. destruct (allocation_layout (c * n)) as [l|e'] eqn:Hl.
    + destruct (ga_alloc l s) as [base s2]. destruct (base =? 0); by simplify_eq.
    + apply allocation_layout_Err in Hl. by simplify_eq.
Qed.

Lemma realloc_refines s h q n r s' :
  ga_ok s -> represents s h -> 0 <= n -> q = 0 \/ is_Some (h !! q) -> realloc_from q n s = (r, s') ->
  refines_call s h (CRealloc q n) r s'.
Proof.
  intros Hok Hr Hn Hq. unfold realloc_from. destruct (Z.eqb_spec q 0) as [->|Hq0].
  { destruct (Z.eqb_spec n 0) as [->|Hn0].
    - intros [= <- <-]. exists h. split_and!; [apply spec_realloc_nothing|done|done|apply others_nothing, frame_refl].
    - destruct (malloc_from n s) as [r1 s1] eqn:Hm. intros [= <- <-].
      eapply malloc_refines; [|done..]. intros. by apply spec_realloc_null. }
  destruct Hq as [?|[b Hb]]; [done|]. pose proof (Hr q b Hb) as Hcb. destruct (c_block_bounds s q b Hok Hcb) as [Hpos Hlen].
  pose proof Hcb as (Hl & Hm & Hz & _). rewrite Hm, Z.eqb_refl. cbn [negb]. pose proof (blen_nonneg b).
  rewrite Hz, allocation_layout_small by lia. destruct (Z.eqb_spec n 0) as [->|Hn0].
  { destruct (free_from q s) as [r1 s1] eqn:Hf. intros [= <- <-]. eapply free_refines; [done|done|by eexists|exact Hf|].
    intros b' Hb'. by eapply spec_realloc_free. }
  destruct (allocation_layout n) as [l|e] eqn:Hlay.
  2:{ intros [= <- <-]. apply allocation_layout_Err in Hlay as ->. exists h.
      split_and!; [by apply spec_fail|done|done|apply others_nothing, frame_refl]. }
  apply allocation_layout_Ok in Hlay as ->; [|done].
  destruct (realloc_preserving _ _ _ s) as [p s1] eqn:Hre.
  destruct (realloc_preserving_spec s q b n p s1 Hok Hcb Hpos Hn Hre)
    as [Hok1 [(-> & Hf)|(Hp & Hn32 & Hnone & Hlive & Hdiv & Hf & Hcopy)]].
  { rewrite Z.eqb_refl. intros [= <- <-]. exists h.
    split_and!; [by apply spec_fail|exact (represents_frame s s1 nothing h Hr Hf (fun _ _ _ x => x))|done|by apply others_nothing]. }
  destruct (Z.eqb_spec p 0) as [?|_]; [done|]. intros [= <- <-].
  destruct (write_header_spec s1 p n Hok1 Hlive) as (Hok2 & _ & Hf2 & _ & _ & Hout); [lia|].
  set (b' := load_bytes s1 (p + C_HEADER_SIZE) (Z.to_nat n)).
  assert (blen b' = n) as Hlen' by (unfold blen, b'; rewrite load_bytes_length; lia).
  assert (frame s (write_header p n s1) (eq (q - C_HEADER_SIZE))) as Hff.
  { intros a k Ha Hne. destruct (Hf a k Ha Hne) as [Ha1 Hc1]. destruct (Hf2 a k Ha1) as [Ha2 Hc2]; [intros ->; congruence|].
    split; [done|]. intros x Hx. by rewrite Hc2, Hc1. }
  exists (<[p + C_HEADER_SIZE := b']> (delete q h)). split_and!; [| |done|by eapply others_block].
  - apply (spec_realloc_move h q b); [done|done| |done| |].
    + apply (fresh_not_in s); [done|]. by replace (p + C_HEADER_SIZE - C_HEADER_SIZE) with p by lia.
    + apply Z.divide_add_r; [done|by exists 1].
    + rewrite <- Hcopy. unfold b'. symmetry. apply load_bytes_take. lia.
  - intros x c Hx. apply lookup_insert_Some in Hx as [[<- <-]|[_ Hx]].
    + apply header_block; [done|done|lia].
    + by apply (represents_delete s _ h q Hr Hff).
Qed.
End Spec.

(** C30: the C functions keep the heap of a C program. Over any allocator that
    satisfies its contract and gives out no block beyond 32 bits, let the state represent a heap (a map from addresses
    to contents; other blocks, Rust's, may be live too), and make a call C
    allows. Then the answer is one the abstract heap allows, the new state
    represents the heap after it, and every other block stays: a new block is
    aligned and new, [calloc] zeroes it, [realloc] moves a block with the bytes
    that fit both sizes, a failed call leaves the heap as it was. Blocks of a
    represented heap never overlap. *)
Theorem c_heap_refines `{GlobalAllocLaws A} `{!SmallBlocks A} (s : A) (h : gmap Z bytes) (k : c_call) :
  ga_ok s -> represents s h ->
  (valid_call h k -> let '(r, s') := c_step k s in
     exists h', c_spec h k r h' /\ represents s' h' /\ ga_ok s' /\ others_kept s s' h)
  /\ (forall q b q' b', h !! q = Some b -> h !! q' = Some b' -> q <> q' -> q + blen b <= q' \/ q' + blen b' <= q).
Proof.
  intros Hok Hr. split.
  - intros Hv. destruct (c_step k s) as [r s'] eqn:Hstep. destruct k as [n|c n|q n|q|q b]; cbn [c_step valid_call] in *.
    + destruct (CAlloc.malloc_from n s) as [r1 s1] eqn:Hm. injection Hstep as <- <-. eapply malloc_refines; [|done..].
      intros. by apply spec_malloc.
    + destruct Hv. destruct (CAlloc.calloc_from c n s) as [r1 s1] eqn:Hm. injection Hstep as <- <-. by apply calloc_refines.
    + destruct Hv. by apply realloc_refines.
    + destruct (CAlloc.free_from q s) as [r1 s1] eqn:Hf. injection Hstep as <- <-. destruct Hv as [->|Hv].
      * injection Hf as <- <-. exists h. split_and!; [apply spec_free_null|done|done|apply others_nothing, frame_refl].
      * eapply free_refines; [done|done|done|exact Hf|]. intros b Hb. by eapply spec_free_block.
    + destruct Hv as (b0 & Hq & Hlen). injection Hstep as <- <-.
      destruct (store_c_block s q b0 b Hok (Hr q b0 Hq) Hlen) as (Hok' & Hf & _ & Hb).
      exists (<[q := b]> h). split_and!; [apply spec_write| |done|by eapply others_block].
      intros x c Hx. apply lookup_insert_Some in Hx as [[<- <-]|[Hne Hx]]; [done|].
      eapply c_block_frame; [exact Hf| |by apply Hr]. cbv beta. lia.
  - intros q b q' b' Hq Hq' Hne. destruct (Hr q b Hq) as [Hl _]. destruct (Hr q' b' Hq') as [Hl' _].
    pose proof (c_layout_size (blen b) (blen_nonneg b)) as [? _]. pose proof (c_layout_size (blen b') (blen_nonneg b')) as [? _].
    destruct (ga_live_disjoint s _ _ _ _ Hok Hl Hl') as [?|?]; [lia|unfold C_HEADER_SIZE in *; lia|unfold C_HEADER_SIZE in *; lia].
Qed.
