(* ===== verification/Allocator.v ===== *)
(** * The allocator of the guest

    [guest_allocator.rs] of [service-runtime-guest]: the static state of the
    allocator, the growth of its heap within the budget of the service, the
    fault record it leaves, and the C entry points. The buddy allocator is a
    parameter with its contract; the host's break is part of the state. *)

From stdpp Require Import gmap.
From S2P Require Import Prelude Ordering Reader Wire GuestMemory CAlloc.

(** Memory outside the map reads as zero. *)
Notation memory := (gmap Z byte).
Definition mem_load (m : memory) (a : Z) : byte := default x00 (m !! a).

(** [buddy_system_allocator::Heap]. It keeps its lists in the memory it manages;
    an allocation that fails changes nothing. *)
Class BuddyHeap := {
  heap : Type;
  heap_new : heap;
  heap_alloc : Layout -> heap -> memory -> option (Z * heap * memory);
  heap_dealloc : Z -> Layout -> heap -> memory -> heap * memory;
  heap_add : Z -> Z -> heap -> memory -> heap * memory
}.

(** [polkavm_derive::heap_base] and [sbrk]: what [sbrk(n)] returns at the given
    break. Zero is a failure, anything else means that the break moved by [n]. *)
Class GuestPlatform := {
  heap_base : Z;
  sbrk_result : Z -> Z -> Z
}.

Definition fault_code_u32 (code : GuestFaultCode) : Z :=
  match code with
  | HeapLimitExceeded => 1 | MemoryGrowFailed => 2 | MemoryAllocationFailed => 3 | Panic => 4
  | MemoryConfigInvalid => 5 | FaultAbort => 6
  end.
Definition fault_stage_u32 (stage : GuestFaultStage) : Z :=
  match stage with Invocation => 0 | Plan => 1 | Refine => 2 end.

Definition GROWTH_QUANTUM_BYTES : Z := GUEST_MEMORY_PAGE_BYTES.

(** [usize::checked_next_power_of_two]. *)
Definition checked_next_power_of_two (a : Z) : option Z :=
  let p := 2 ^ Z.log2_up a in if p <=? USIZE_MAX then Some p else None.

Module RuntimeAllocator.
Section RuntimeAllocator.
Context `{BuddyHeap} `{GuestPlatform}.

(** The statics, the host's break and the memory. *)
Record t := mk {
  memory_budget : Budget.t;
  heap_start : Z;                 (** [HEAP_BASE] *)
  heap_committed_bytes : Z;
  runtime_initialized : bool;
  live_bytes : Z;
  high_water_bytes : Z;
  cumulative_bytes : Z;
  record : FaultRecord.t;
  the_heap : heap;
  brk : Z;
  mem : memory
}.

Definition set_record (r : FaultRecord.t) (s : t) : t :=
  mk (memory_budget s) (heap_start s) (heap_committed_bytes s) (runtime_initialized s) (live_bytes s)
    (high_water_bytes s) (cumulative_bytes s) r (the_heap s) (brk s) (mem s).
Definition set_heap (hm : heap * memory) (s : t) : t :=
  mk (memory_budget s) (heap_start s) (heap_committed_bytes s) (runtime_initialized s) (live_bytes s)
    (high_water_bytes s) (cumulative_bytes s) (record s) hm.1 (brk s) hm.2.
Definition set_mem (m : memory) (s : t) : t := set_heap (the_heap s, m) s.
Definition set_initialized (b : bool) (s : t) : t :=
  mk (memory_budget s) (heap_start s) (heap_committed_bytes s) b (live_bytes s)
    (high_water_bytes s) (cumulative_bytes s) (record s) (the_heap s) (brk s) (mem s).
Definition set_metrics (live high cumulative : Z) (s : t) : t :=
  mk (memory_budget s) (heap_start s) (heap_committed_bytes s) (runtime_initialized s) live high cumulative
    (record s) (the_heap s) (brk s) (mem s).

(** *** The fault record *)

Definition update_fault_metrics (s : t) : t :=
  let r := record s in
  set_record (FaultRecord.mk (FaultRecord.magic r) (FaultRecord.version r) (FaultRecord.length r)
    (FaultRecord.code r) (FaultRecord.stage r) (FaultRecord.requested_bytes r) (FaultRecord.alignment r)
    (heap_committed_bytes s) (Budget.heap_max_bytes (memory_budget s)) (live_bytes s) (high_water_bytes s)
    (cumulative_bytes s)) s.

(** The record with another code and request. *)
Definition with_request (code requested_bytes alignment : Z) (r : FaultRecord.t) : FaultRecord.t :=
  FaultRecord.mk (FaultRecord.magic r) (FaultRecord.version r) (FaultRecord.length r) code
    (FaultRecord.stage r) (Z.min requested_bytes U32_MAX) (Z.min alignment U32_MAX)
    (FaultRecord.heap_committed_bytes r) (FaultRecord.heap_max_bytes r) (FaultRecord.live_requested_bytes r)
    (FaultRecord.high_water_requested_bytes r) (FaultRecord.cumulative_requested_bytes r).

Definition record_failure (code : GuestFaultCode) (requested_bytes alignment : Z) (s : t) : t :=
  update_fault_metrics
    (if FaultRecord.code (record s) =? 0
     then set_record (with_request (fault_code_u32 code) requested_bytes alignment (record s)) s else s).

Definition update_failure_request (requested_bytes alignment : Z) (s : t) : t :=
  update_fault_metrics
    (set_record (with_request (FaultRecord.code (record s)) requested_bytes alignment (record s)) s).

Definition record_allocation (requested : Z) (s : t) : t :=
  let requested := Z.min requested U32_MAX in
  let live := saturating_add U32_MAX (live_bytes s) requested in
  update_fault_metrics
    (set_metrics live (Z.max (high_water_bytes s) live) (saturating_add U32_MAX (cumulative_bytes s) requested) s).

Definition record_deallocation (released : Z) (s : t) : t :=
  let released := Z.min released U32_MAX in
  update_fault_metrics
    (set_metrics (saturating_sub (live_bytes s) released) (high_water_bytes s) (cumulative_bytes s) s).

Definition has_fault (s : t) : bool := negb (FaultRecord.code (record s) =? 0).

(** *** Growth *)

Definition classify_budget_exhaustion (s : t) (layout : option Layout) (heap_max_bytes : Z) : GuestFaultCode :=
  let request := match layout with Some layout => Z.min (l_size layout) U32_MAX | None => 0 end in
  if request >? heap_max_bytes then HeapLimitExceeded
  else if saturating_add U32_MAX (live_bytes s) request >? heap_max_bytes then HeapLimitExceeded
  else MemoryAllocationFailed.

(** The block a layout needs: [max(size, max(align, size_of::<usize>()))]. *)
Definition minimum_block (layout : Layout) : Z := Z.max (l_size layout) (Z.max (l_align layout) 8).

(** The bytes a growth must add. *)
Definition required_growth (s : t) (current minimum_growth_bytes : Z) (failed_layout : option Layout)
    : result Z GuestFaultCode :=
  match failed_layout with
  | Some layout =>
      let? block := ok_or (checked_next_power_of_two (minimum_block layout)) MemoryAllocationFailed in
      bail_if block >? Budget.heap_max_bytes (memory_budget s) with HeapLimitExceeded ;;
      let alignment_gap := (block - current mod block) mod block in
      ok_or (checked_add USIZE_MAX alignment_gap (Z.max block GROWTH_QUANTUM_BYTES)) MemoryGrowFailed
  | None => Ok minimum_growth_bytes
  end.

(** The state after [sbrk(growth)] and [add_to_heap]. *)
Definition commit_growth (current stop growth : Z) (s : t) : t :=
  let '(h, m) := heap_add current stop (the_heap s) (mem s) in
  update_fault_metrics
    (mk (memory_budget s) (heap_start s) (heap_committed_bytes s + growth) (runtime_initialized s) (live_bytes s)
       (high_water_bytes s) (cumulative_bytes s) (record s) h stop m).

Definition grow_heap (minimum_growth_bytes : Z) (failed_layout : option Layout) (s : t)
    : result unit GuestFaultCode * t :=
  let max := Budget.heap_max_bytes (memory_budget s) in
  let remaining := saturating_sub max (heap_committed_bytes s) in
  let current := brk s in
  let attempt :=
    bail_if remaining =? 0 with classify_budget_exhaustion s failed_layout max ;;
    let? required := required_growth s current minimum_growth_bytes failed_layout in
    let page := GUEST_MEMORY_PAGE_BYTES in
    let? padded := ok_or (checked_add USIZE_MAX required (page - 1)) MemoryAllocationFailed in
    let rounded := padded / page * page in
    let growth := Z.min rounded remaining in
    bail_if growth =? 0 with classify_budget_exhaustion s failed_layout max ;;
    let? expected := ok_or (checked_add USIZE_MAX (heap_start s) (heap_committed_bytes s)) MemoryGrowFailed in
    bail_if negb (current =? expected) with MemoryGrowFailed ;;
    let? stop := ok_or (checked_add USIZE_MAX current growth) MemoryGrowFailed in
    bail_if (stop >? U32_MAX) || (growth >? U32_MAX) with MemoryGrowFailed ;;
    bail_if sbrk_result current growth =? 0 with MemoryGrowFailed ;;
    Ok (growth, stop) in
  match attempt with
  | Err code => (Err code, s)
  | Ok (growth, stop) =>
      match checked_add U32_MAX (heap_committed_bytes s) growth with
      | Some _ => (Ok tt, commit_growth current stop growth s)
      | None =>
          (** the range is added, the counter is not *)
          let '(h, m) := heap_add current stop (the_heap s) (mem s) in
          (Err MemoryGrowFailed,
           mk (memory_budget s) (heap_start s) (heap_committed_bytes s) (runtime_initialized s) (live_bytes s)
             (high_water_bytes s) (cumulative_bytes s) (record s) h stop m)
      end
  end.

(** The [loop]: [None] is a loop that has not ended. *)
Fixpoint alloc_loop (fuel : nat) (layout : Layout) (s : t) : option (result Z GuestFaultCode * t) :=
  match fuel with
  | O => None
  | S fuel' =>
      match heap_alloc layout (the_heap s) (mem s) with
      | Some (pointer, h, m) => Some (Ok pointer, set_heap (h, m) s)
      | None =>
          let '(r, s) := grow_heap 0 (Some layout) s in
          match r with
          | Err code => Some (Err code, s)
          | Ok _ => alloc_loop fuel' layout s
          end
      end
  end.

(** Every growth commits a page or all that is left. *)
Definition growth_fuel (s : t) : nat :=
  Z.to_nat ((Budget.heap_max_bytes (memory_budget s) - heap_committed_bytes s) / GUEST_MEMORY_PAGE_BYTES + 3).

Definition allocate_with_growth (layout : Layout) (s : t) : result Z GuestFaultCode * t :=
  match checked_next_power_of_two (minimum_block layout) with
  | None => (Err HeapLimitExceeded, s)
  | Some requested_block =>
      if requested_block >? Budget.heap_max_bytes (memory_budget s) then (Err HeapLimitExceeded, s)
      else default (Err MemoryAllocationFailed, s) (alloc_loop (growth_fuel s) layout s)
  end.

(** *** [reset_runtime] *)

Definition reset_runtime (budget : Budget.t) (stage : GuestFaultStage) (s : t) : bool * t :=
  let e := FaultRecord.EMPTY in
  let s := mk budget 0 0 false 0 0 0
    (FaultRecord.mk (FaultRecord.magic e) (FaultRecord.version e) (FaultRecord.length e) (FaultRecord.code e)
       (fault_stage_u32 stage) (FaultRecord.requested_bytes e) (FaultRecord.alignment e)
       (FaultRecord.heap_committed_bytes e) (Budget.heap_max_bytes budget) (FaultRecord.live_requested_bytes e)
       (FaultRecord.high_water_requested_bytes e) (FaultRecord.cumulative_requested_bytes e))
    (the_heap s) (brk s) (mem s) in
  if negb (is_ok (Budget.validate budget)) || (Budget.heap_max_bytes budget >? GUEST_HEAP_PLATFORM_MAX_BYTES)
     || (Budget.heap_max_bytes budget >? U32_MAX)
  then (false, record_failure MemoryConfigInvalid 0 0 s)
  else
    let current := brk s in
    match checked_sub current heap_base with
    | None => (false, record_failure MemoryGrowFailed 0 0 s)
    | Some existing_bytes =>
        if existing_bytes >? U32_MAX then (false, record_failure MemoryGrowFailed 0 0 s)
        else if existing_bytes >? Budget.heap_max_bytes budget then
          (false, record_failure MemoryConfigInvalid existing_bytes GUEST_MEMORY_PAGE_BYTES s)
        else
          let s := mk budget heap_base existing_bytes true 0 0 0 (record s) heap_new (brk s) (mem s) in
          let s := if negb (existing_bytes =? 0) then set_heap (heap_add heap_base current (the_heap s) (mem s)) s else s in
          if existing_bytes >=? Budget.heap_initial_bytes budget then (true, s)
          else
            let '(r, s) := grow_heap (Budget.heap_initial_bytes budget) None s in
            match r with
            | Ok _ => (true, s)
            | Err _ =>
                (false, record_failure MemoryGrowFailed (Budget.heap_initial_bytes budget) 1 (set_initialized false s))
            end
    end.

(** *** [GlobalAlloc] *)

Definition lazy_budget : Budget.t := Budget.mk GUEST_MEMORY_PAGE_BYTES GUEST_MEMORY_PAGE_BYTES.

Definition alloc (layout : Layout) (s : t) : Z * t :=
  if l_size layout =? 0 then (l_align layout, s)
  else
    let '(ready, s) := if runtime_initialized s then (true, s) else reset_runtime lazy_budget Invocation s in
    if negb ready then (0, s)
    else
      let '(r, s) := allocate_with_growth layout s in
      match r with
      | Ok pointer => (pointer, record_allocation (l_size layout) s)
      | Err code => (0, record_failure code (l_size layout) (l_align layout) s)
      end.

Definition dealloc (pointer : Z) (layout : Layout) (s : t) : t :=
  if (pointer =? 0) || (l_size layout =? 0) then s
  else record_deallocation (l_size layout) (set_heap (heap_dealloc pointer layout (the_heap s) (mem s)) s).

#[global] Instance global_alloc : GlobalAlloc t := {|
  ga_alloc := alloc;
  ga_dealloc := dealloc;
  ga_load s a := mem_load (mem s) a;
  ga_store a b s := set_mem (<[a := b]> (mem s)) s
|}.

Definition realloc (pointer : Z) (old_layout : Layout) (new_size : Z) (s : t) : Z * t :=
  if pointer =? 0 then
    match from_size_align new_size (l_align old_layout) with
    | None => (0, record_failure MemoryAllocationFailed new_size (l_align old_layout) s)
    | Some layout => alloc layout s
    end
  else if new_size =? 0 then (0, dealloc pointer old_layout s)
  else
    match from_size_align new_size (l_align old_layout) with
    | None => (0, record_failure MemoryAllocationFailed new_size (l_align old_layout) s)
    | Some new_layout => CAlloc.realloc_preserving pointer old_layout new_layout s
    end.

(** *** The C entry points *)

Definition c_malloc (size : Z) (s : t) : Z * t :=
  let fault_before := has_fault s in
  let '(r, s) := CAlloc.malloc_from size s in
  match r with
  | Ok pointer => (pointer, s)
  | Err SizeOverflow | Err InvalidPointer => (0, record_failure MemoryAllocationFailed size C_MAX_ALIGNMENT s)
  | Err OutOfMemory => (0, if negb fault_before then update_failure_request size C_MAX_ALIGNMENT s else s)
  end.

Definition c_calloc (count size : Z) (s : t) : Z * t :=
  let fault_before := has_fault s in
  let '(r, s) := CAlloc.calloc_from count size s in
  match r with
  | Ok pointer => (pointer, s)
  | Err SizeOverflow => (0, record_failure MemoryAllocationFailed USIZE_MAX C_MAX_ALIGNMENT s)
  | Err OutOfMemory =>
      (0, if negb fault_before then update_failure_request (Z.min USIZE_MAX (count * size)) C_MAX_ALIGNMENT s else s)
  | Err InvalidPointer => (0, s)
  end.

Definition c_realloc (pointer size : Z) (s : t) : Z * t :=
  let fault_before := has_fault s in
  let '(r, s) := CAlloc.realloc_from pointer size s in
  match r with
  | Ok (Some pointer) => (pointer, s)
  | Ok None => (0, s)
  | Err InvalidPointer | Err SizeOverflow => (0, record_failure MemoryAllocationFailed size C_MAX_ALIGNMENT s)
  | Err OutOfMemory => (0, if negb fault_before then update_failure_request size C_MAX_ALIGNMENT s else s)
  end.

Definition c_free (pointer : Z) (s : t) : t := (CAlloc.free_from pointer s).2.

(** The message [emit_fault_record] logs, if there is a fault. *)
Definition TRUNCATED : bytes := bstr "JSGF;v=1;error=log-record-truncated".
Definition emit_fault_record (s : t) : option bytes :=
  if FaultRecord.code (record s) =? 0 then None
  else
    match FaultLog.write_log_message_v1 (record s) (repeat x00 (Z.to_nat GUEST_FAULT_LOG_MESSAGE_CAPACITY_V1)) with
    | Some (length, message) => Some (b_slice message 0 length)
    | None => Some TRUNCATED
    end.
End RuntimeAllocator.
End RuntimeAllocator.

(** ** The contract of the buddy allocator *)

Definition heap_in_block (live : gmap Z Layout) (a : Z) : Prop := exists p l, live !! p = Some l /\ in_block p l a.

Class BuddyHeapLaws `{BuddyHeap} := {
  heap_ok : heap -> memory -> Prop;
  heap_live : heap -> gmap Z Layout;
  heap_managed : heap -> Z -> Prop;
  (** only writes to the memory it manages and has not given out matter to it *)
  heap_ok_store : forall h m a b, heap_ok h m -> heap_in_block (heap_live h) a \/ ~ heap_managed h a -> heap_ok h (<[a := b]> m);
  heap_live_managed : forall h m p l a, heap_ok h m -> heap_live h !! p = Some l -> in_block p l a -> heap_managed h a;
  heap_live_positive : forall h m p l, heap_ok h m -> heap_live h !! p = Some l -> 0 < p /\ 0 < l_size l;
  heap_live_disjoint : forall h m p l p' l', heap_ok h m -> heap_live h !! p = Some l -> heap_live h !! p' = Some l' -> p <> p' ->
    p + l_size l <= p' \/ p' + l_size l' <= p;
  heap_new_spec : (forall m, heap_ok heap_new m) /\ heap_live heap_new = ∅ /\ forall a, ~ heap_managed heap_new a;
  heap_add_spec : forall start stop h m h' m', heap_ok h m -> 0 < start <= stop ->
    (forall a, start <= a < stop -> ~ heap_managed h a) ->
    heap_add start stop h m = (h', m') ->
    heap_ok h' m' /\ heap_live h' = heap_live h
    /\ (forall a, heap_managed h' a -> heap_managed h a \/ start <= a < stop)
    /\ (forall a, heap_in_block (heap_live h) a -> mem_load m' a = mem_load m a);
  heap_alloc_spec : forall l h m p h' m', heap_ok h m -> 0 < l_size l -> is_power_of_two (l_align l) = true ->
    heap_alloc l h m = Some (p, h', m') ->
    heap_ok h' m' /\ heap_live h !! p = None /\ heap_live h' = <[p := l]> (heap_live h) /\ (l_align l | p)
    /\ (forall a, heap_managed h' a <-> heap_managed h a)
    /\ (forall a, heap_in_block (heap_live h) a -> mem_load m' a = mem_load m a);
  heap_dealloc_spec : forall p l h m h' m', heap_ok h m -> heap_live h !! p = Some l ->
    heap_dealloc p l h m = (h', m') ->
    heap_ok h' m' /\ heap_live h' = delete p (heap_live h) /\ (forall a, heap_managed h' a <-> heap_managed h a)
    /\ (forall a, heap_in_block (heap_live h') a -> mem_load m' a = mem_load m a)
}.

(** The heap starts at a non-null address. *)
Class GuestPlatformLaws `{GuestPlatform} := heap_base_positive : 0 < heap_base.

Section Invariant.
Context `{BuddyHeapLaws} `{GuestPlatformLaws}.
Import RuntimeAllocator.

(** *** The invariant *)

Definition counters_ok (s : t) : Prop :=
  0 <= live_bytes s <= high_water_bytes s /\ high_water_bytes s <= cumulative_bytes s <= U32_MAX.

(** The heap of an initialized runtime lies below the break, within the budget. *)
Definition heap_within (s : t) : Prop :=
  heap_start s = heap_base /\ 0 <= heap_committed_bytes s <= Budget.heap_max_bytes (memory_budget s)
  /\ Budget.heap_max_bytes (memory_budget s) <= GUEST_HEAP_PLATFORM_MAX_BYTES
  /\ brk s = heap_base + heap_committed_bytes s
  /\ heap_ok (the_heap s) (mem s) /\ forall a, heap_managed (the_heap s) a -> heap_base <= a < brk s.

(** The record is one the host can read, but for the limits of its fields. *)
Definition record_ok (s : t) : Prop :=
  let r := record s in
  FaultRecord.magic r = GUEST_FAULT_MAGIC_V1 /\ FaultRecord.version r = GUEST_FAULT_RECORD_VERSION_V1
  /\ FaultRecord.length r = GUEST_FAULT_RECORD_V1_LEN /\ 0 <= FaultRecord.code r <= 6 /\ 0 <= FaultRecord.stage r <= 2
  /\ FaultRecord.heap_max_bytes r <= Budget.heap_max_bytes (memory_budget s)
  /\ FaultRecord.heap_committed_bytes r <= FaultRecord.heap_max_bytes r
  /\ FaultRecord.live_requested_bytes r <= FaultRecord.high_water_requested_bytes r
  /\ FaultRecord.high_water_requested_bytes r <= FaultRecord.cumulative_requested_bytes r
  /\ (FaultRecord.alignment r = 0 \/ is_power_of_two (FaultRecord.alignment r) = true \/ FaultRecord.alignment r = U32_MAX).

Definition runtime_ok (s : t) : Prop :=
  counters_ok s /\ 0 <= Budget.heap_max_bytes (memory_budget s)
  /\ 0 <= heap_committed_bytes s <= Budget.heap_max_bytes (memory_budget s)
  /\ record_ok s /\ (runtime_initialized s = true -> heap_within s).

Definition runtime_live (s : t) : gmap Z Layout := if runtime_initialized s then heap_live (the_heap s) else ∅.

(** What a step leaves of the live blocks. *)
Definition loads_kept (live : gmap Z Layout) (s s' : t) : Prop :=
  forall a, heap_in_block live a -> mem_load (mem s') a = mem_load (mem s) a.

Lemma loads_kept_trans live s1 s2 s3 : loads_kept live s1 s2 -> loads_kept live s2 s3 -> loads_kept live s1 s3.
Proof. intros H12 H23 a Ha. by rewrite H23, H12. Qed.

(** *** Bookkeeping *)

(** Two states that differ in the record and the counters only. *)
Definition same_heap (s s' : t) : Prop :=
  memory_budget s' = memory_budget s /\ heap_start s' = heap_start s
  /\ heap_committed_bytes s' = heap_committed_bytes s /\ runtime_initialized s' = runtime_initialized s
  /\ the_heap s' = the_heap s /\ brk s' = brk s /\ mem s' = mem s.

Lemma same_heap_within s s' : same_heap s s' -> heap_within s -> heap_within s'.
Proof. intros (Hb & Hst & Hc & _ & Hh & Hk & Hm). unfold heap_within. by rewrite Hb, Hst, Hc, Hh, Hk, Hm. Qed.

Lemma same_heap_live s s' : same_heap s s' -> runtime_live s' = runtime_live s.
Proof. intros (_ & _ & _ & Hi & Hh & _). unfold runtime_live. by rewrite Hi, Hh. Qed.

Lemma update_metrics_ok s :
  counters_ok s -> 0 <= Budget.heap_max_bytes (memory_budget s) ->
  heap_committed_bytes s <= Budget.heap_max_bytes (memory_budget s) ->
  FaultRecord.magic (record s) = GUEST_FAULT_MAGIC_V1 -> FaultRecord.version (record s) = GUEST_FAULT_RECORD_VERSION_V1 ->
  FaultRecord.length (record s) = GUEST_FAULT_RECORD_V1_LEN -> 0 <= FaultRecord.code (record s) <= 6 ->
  0 <= FaultRecord.stage (record s) <= 2 ->
  (FaultRecord.alignment (record s) = 0 \/ is_power_of_two (FaultRecord.alignment (record s)) = true \/ FaultRecord.alignment (record s) = U32_MAX) ->
  record_ok (update_fault_metrics s).
Proof. unfold counters_ok, record_ok. cbn. intros. split_and!; try done; lia. Qed.

Lemma fault_code_range c : 1 <= fault_code_u32 c <= 6.
Proof. destruct c; cbn; lia. Qed.

(** An alignment as the record keeps it. *)
Lemma saturated_alignment a :
  a = 0 \/ is_power_of_two a = true ->
  Z.min a U32_MAX = 0 \/ is_power_of_two (Z.min a U32_MAX) = true \/ Z.min a U32_MAX = U32_MAX.
Proof.
  intros Ha. destruct (Z.le_ge_cases a U32_MAX) as [Hle|Hge]; [rewrite Z.min_l by done; tauto|].
  right; right. by rewrite Z.min_r.
Qed.

Lemma runtime_ok_change s s' :
  runtime_ok s -> same_heap s s' -> counters_ok s' -> record_ok s' -> runtime_ok s'.
Proof.
  intros (_ & Hm & Hc & _ & Hw) Hs Hcs' Hr'. pose proof Hs as (Hb & _ & Hcm & Hi & _). unfold runtime_ok.
  rewrite Hb, Hcm, Hi. split_and!; try done; try lia. intros Hin. by apply (same_heap_within s); [|apply Hw].
Qed.

Lemma record_failure_spec code n a s :
  runtime_ok s -> a = 0 \/ is_power_of_two a = true ->
  let s' := record_failure code n a s in
  runtime_ok s' /\ same_heap s s' /\ has_fault s' = true
  /\ (has_fault s = true -> FaultRecord.code (record s') = FaultRecord.code (record s)
        /\ FaultRecord.requested_bytes (record s') = FaultRecord.requested_bytes (record s)
        /\ FaultRecord.alignment (record s') = FaultRecord.alignment (record s)).
Proof.
  intros Hok Ha. pose proof Hok as (Hcs & Hm & Hc & (Hr1 & Hr2 & Hr3 & Hr4 & Hr5 & _ & _ & _ & _ & Hr6) & Hw).
  pose proof (fault_code_range code). pose proof (saturated_alignment a Ha). unfold record_failure, has_fault.
  destruct (Z.eqb_spec (FaultRecord.code (record s)) 0) as [E|E]; cbv zeta.
  - split; [|split; [done|split; [|done]]].
    + eapply runtime_ok_change; [exact Hok|done|done|]. apply update_metrics_ok; cbn; try done; lia.
    + cbn. apply negb_true_iff, Z.eqb_neq. lia.
  - split; [|split; [done|split; [|done]]].
    + eapply runtime_ok_change; [exact Hok|done|done|]. apply update_metrics_ok; cbn; try done; lia.
    + cbn. by apply negb_true_iff, Z.eqb_neq.
Qed.

Lemma update_failure_request_spec n a s :
  runtime_ok s -> a = 0 \/ is_power_of_two a = true ->
  let s' := update_failure_request n a s in
  runtime_ok s' /\ same_heap s s' /\ has_fault s' = has_fault s.
Proof.
  intros Hok Ha. pose proof Hok as (Hcs & Hm & Hc & (Hr1 & Hr2 & Hr3 & Hr4 & Hr5 & _ & _ & _ & _ & Hr6) & Hw).
  pose proof (saturated_alignment a Ha). cbv zeta. split; [|done].
  eapply runtime_ok_change; [exact Hok|done|done|]. apply update_metrics_ok; cbn; try done; lia.
Qed.

Lemma record_counters_spec live high cumulative s :
  runtime_ok s -> 0 <= live <= high -> high <= cumulative <= U32_MAX ->
  let s' := update_fault_metrics (set_metrics live high cumulative s) in
  runtime_ok s' /\ same_heap s s' /\ has_fault s' = has_fault s.
Proof.
  intros Hok Hl Hh. pose proof Hok as (Hcs & Hm & Hc & (Hr1 & Hr2 & Hr3 & Hr4 & Hr5 & _ & _ & _ & _ & Hr6) & Hw).
  cbv zeta. split; [|done].
  eapply runtime_ok_change; [exact Hok|done|unfold counters_ok; cbn; lia|]. apply update_metrics_ok; unfold counters_ok; cbn; try done; lia.
Qed.

Lemma record_allocation_spec n s :
  runtime_ok s -> 0 <= n ->
  let s' := record_allocation n s in runtime_ok s' /\ same_heap s s' /\ has_fault s' = has_fault s.
Proof.
  intros Hok Hn. pose proof Hok as ((Hl & Hh) & _). unfold record_allocation. apply record_counters_spec; [done|..];
    unfold saturating_add; lia.
Qed.

Lemma record_deallocation_spec n s :
  runtime_ok s -> 0 <= n ->
  let s' := record_deallocation n s in runtime_ok s' /\ same_heap s s' /\ has_fault s' = has_fault s.
Proof.
  intros Hok Hn. pose proof Hok as ((Hl & Hh) & _). unfold record_deallocation. apply record_counters_spec; [done|..];
    unfold saturating_sub; lia.
Qed.

(** *** Growth *)

Definition same_fault (s s' : t) : Prop :=
  FaultRecord.code (record s') = FaultRecord.code (record s)
  /\ FaultRecord.requested_bytes (record s') = FaultRecord.requested_bytes (record s)
  /\ FaultRecord.alignment (record s') = FaultRecord.alignment (record s).

Lemma commit_growth_spec s growth :
  runtime_ok s -> runtime_initialized s = true -> 0 < growth ->
  heap_committed_bytes s + growth <= Budget.heap_max_bytes (memory_budget s) ->
  let s' := commit_growth (brk s) (brk s + growth) growth s in
  runtime_ok s' /\ runtime_initialized s' = true /\ memory_budget s' = memory_budget s
  /\ heap_committed_bytes s' = heap_committed_bytes s + growth
  /\ heap_live (the_heap s') = heap_live (the_heap s) /\ loads_kept (heap_live (the_heap s)) s s' /\ same_fault s s'.
Proof.
  intros (Hcs & Hm & Hc & (Hr1 & Hr2 & Hr3 & Hr4 & Hr5 & _ & _ & _ & _ & Hr6) & Hw) Hi Hg Hmax.
  destruct (Hw Hi) as (Hst & _ & Hp & Hb & Hhok & Hman). pose proof heap_base_positive as Hbase. unfold commit_growth.
  destruct (heap_add (brk s) (brk s + growth) (the_heap s) (mem s)) as [h m] eqn:Hadd.
  destruct (heap_add_spec (brk s) (brk s + growth) (the_heap s) (mem s) h m) as (Hok' & Hlive & Hman' & Hmem);
    [done|lia|intros a Ha Hma; apply Hman in Hma; lia|done|].
  cbv zeta. split; [|done]. unfold runtime_ok. cbn. split; [done|]. split; [done|]. split; [lia|].
  split; [apply (update_metrics_ok (mk _ _ (heap_committed_bytes s + growth) _ _ _ _ _ _ _ _)); cbn; try done; lia|].
  intros _. unfold heap_within. cbn. split_and!; try done; try lia. intros a [Ha|Ha]%Hman'; [apply Hman in Ha|]; lia.
Qed.

Lemma grow_heap_spec minimum layout s r s' :
  runtime_ok s -> runtime_initialized s = true -> 0 <= minimum -> grow_heap minimum layout s = (r, s') ->
  runtime_ok s' /\ runtime_initialized s' = true /\ memory_budget s' = memory_budget s
  /\ heap_live (the_heap s') = heap_live (the_heap s) /\ loads_kept (heap_live (the_heap s)) s s' /\ same_fault s s'
  /\ match r with
     | Err _ => s' = s
     | Ok _ => heap_committed_bytes s < Budget.heap_max_bytes (memory_budget s)
         /\ (is_Some layout -> heap_committed_bytes s' = Budget.heap_max_bytes (memory_budget s)
              \/ heap_committed_bytes s + GUEST_MEMORY_PAGE_BYTES <= heap_committed_bytes s')
     end.
Proof.
  intros Hok Hi Hmin. pose proof Hok as (Hcs & Hm & Hc & _ & Hw). destruct (Hw Hi) as (Hst & _ & Hp & Hb & _).
  unfold grow_heap. cbv zeta. lazymatch goal with |- match ?a with _ => _ end = _ -> _ => destruct a as [[growth0 stop]|code] eqn:Hatt end.
  2:{ intros [= <- <-]. done. }
  apply bail_if_Ok in Hatt as [Hrem Hatt]. apply rbind_Ok in Hatt as (required & Hreq & Hatt).
  apply rbind_Ok in Hatt as (padded & Hpad & Hatt). apply bail_if_Ok in Hatt as [Hg0 Hatt].
  apply rbind_Ok in Hatt as (expected & _ & Hatt). apply bail_if_Ok in Hatt as [_ Hatt].
  apply rbind_Ok in Hatt as (stop' & Hstop & Hatt). apply bail_if_Ok in Hatt as [_ Hatt].
  apply bail_if_Ok in Hatt as [_ [= <- <-]]. unfold checked_add, saturating_sub in *.
  destruct (Z.leb_spec (required + (GUEST_MEMORY_PAGE_BYTES - 1)) USIZE_MAX); [|discriminate Hpad]. injection Hpad as <-.
  destruct (brk s + _ <=? USIZE_MAX); [|discriminate Hstop]. injection Hstop as <-. to_prop.
  set (max := Budget.heap_max_bytes (memory_budget s)) in *. set (remaining := Z.max 0 (max - heap_committed_bytes s)) in *.
  set (rounded := (required + (GUEST_MEMORY_PAGE_BYTES - 1)) / GUEST_MEMORY_PAGE_BYTES * GUEST_MEMORY_PAGE_BYTES) in *.
  set (growth := Z.min rounded remaining) in *.
  assert (0 <= required /\ (is_Some layout -> GUEST_MEMORY_PAGE_BYTES <= required)) as [Hreq0 Hreqp].
  { destruct layout as [l|]; cbn [required_growth] in Hreq.
    - apply rbind_Ok in Hreq as (block & Hblock & Hreq). apply bail_if_Ok in Hreq as [_ Hreq]. unfold checked_add in Hreq.
      case_match; [|discriminate Hreq]. injection Hreq as <-. unfold GROWTH_QUANTUM_BYTES, GUEST_MEMORY_PAGE_BYTES.
      assert (0 < block) as Hpos.
      { unfold checked_next_power_of_two in Hblock. case_match; [|discriminate Hblock]. injection Hblock as <-.
        apply Z.pow_pos_nonneg; [lia|apply Z.log2_up_nonneg]. }
      pose proof (Z.mod_pos_bound (block - brk s mod block) block Hpos). lia.
    - injection Hreq as <-. split; [done|]. by intros [? ?]. }
  assert (required <= rounded /\ 0 <= rounded) as [Hround Hround0].
  { unfold rounded. pose proof (Z.div_mod (required + (GUEST_MEMORY_PAGE_BYTES - 1)) GUEST_MEMORY_PAGE_BYTES ltac:(done)) as Hdm.
    pose proof (Z.mod_pos_bound (required + (GUEST_MEMORY_PAGE_BYTES - 1)) GUEST_MEMORY_PAGE_BYTES ltac:(done)).
    unfold GUEST_MEMORY_PAGE_BYTES in *. lia. }
  assert (0 < growth) as Hgpos by (unfold growth in *; lia).
  assert (heap_committed_bytes s + growth <= max) as Hgmax by (unfold growth, remaining; lia).
  unfold GUEST_HEAP_PLATFORM_MAX_BYTES in Hp. rewrite (proj2 (Z.leb_le (heap_committed_bytes s + growth) U32_MAX)) by (unfold U32_MAX; lia).
  intros [= <- <-]. destruct (commit_growth_spec s growth Hok Hi Hgpos Hgmax) as (Hok' & Hi' & Hb' & Hc' & Hl' & Hk' & Hf').
  split_and!; try done; [lia|]. rewrite Hc'. intros Hlay. apply Hreqp in Hlay. unfold growth, remaining in *. lia.
Qed.

(** *** The allocation loop *)

(** Rounds the loop can take from a state: one more than the pages that are left. *)
Definition rounds_left (s : t) : Z :=
  let remaining := Budget.heap_max_bytes (memory_budget s) - heap_committed_bytes s in
  if remaining =? 0 then 1 else remaining / GUEST_MEMORY_PAGE_BYTES + 2.

Lemma rounds_left_decrease s s' :
  memory_budget s' = memory_budget s -> heap_committed_bytes s' <= Budget.heap_max_bytes (memory_budget s) ->
  heap_committed_bytes s < Budget.heap_max_bytes (memory_budget s) ->
  heap_committed_bytes s' = Budget.heap_max_bytes (memory_budget s)
    \/ heap_committed_bytes s + GUEST_MEMORY_PAGE_BYTES <= heap_committed_bytes s' ->
  1 <= rounds_left s' /\ rounds_left s' + 1 <= rounds_left s.
Proof.
  intros Hb Hmax Hlt Hprog. unfold rounds_left, GUEST_MEMORY_PAGE_BYTES in *. rewrite Hb.
  set (max := Budget.heap_max_bytes (memory_budget s)) in *.
  destruct (Z.eqb_spec (max - heap_committed_bytes s) 0); [lia|].
  pose proof (Z.div_pos (max - heap_committed_bytes s) 4096 ltac:(lia) ltac:(lia)).
  destruct (Z.eqb_spec (max - heap_committed_bytes s') 0); [lia|]. destruct Hprog as [?|Hprog]; [lia|].
  pose proof (Z.div_pos (max - heap_committed_bytes s') 4096 ltac:(lia) ltac:(lia)).
  pose proof (Z.div_le_mono (max - heap_committed_bytes s' + 1 * 4096) (max - heap_committed_bytes s) 4096 ltac:(lia) ltac:(lia)) as Hdiv.
  rewrite Z.div_add in Hdiv by lia. lia.
Qed.

(** What the loop leaves. *)
Definition loop_result (layout : Layout) (s : t) (r : result Z GuestFaultCode) (s' : t) : Prop :=
  runtime_ok s' /\ runtime_initialized s' = true /\ memory_budget s' = memory_budget s
  /\ loads_kept (heap_live (the_heap s)) s s' /\ same_fault s s'
  /\ match r with
     | Err _ => heap_live (the_heap s') = heap_live (the_heap s)
     | Ok p => heap_live (the_heap s) !! p = None /\ heap_live (the_heap s') = <[p := layout]> (heap_live (the_heap s))
         /\ (l_align layout | p)
     end.

Lemma alloc_loop_spec fuel layout s :
  runtime_ok s -> runtime_initialized s = true -> 0 < l_size layout -> is_power_of_two (l_align layout) = true ->
  rounds_left s <= Z.of_nat fuel ->
  exists r s', alloc_loop fuel layout s = Some (r, s') /\ loop_result layout s r s'.
Proof.
  intros Hok Hi Hsz Hal. revert s Hok Hi. induction fuel as [|fuel IH]; intros s Hok Hi Hfuel.
  { pose proof Hok as (_ & _ & Hc & _). unfold rounds_left in Hfuel. exfalso.
    destruct (Z.eqb_spec (Budget.heap_max_bytes (memory_budget s) - heap_committed_bytes s) 0); [lia|].
    pose proof (Z.div_pos (Budget.heap_max_bytes (memory_budget s) - heap_committed_bytes s) GUEST_MEMORY_PAGE_BYTES ltac:(lia) ltac:(done)). lia. }
  cbn [alloc_loop]. pose proof Hok as (Hcs & Hm & Hc & Hr & Hw). destruct (Hw Hi) as (Hst & _ & Hp & Hb & Hhok & Hman).
  destruct (heap_alloc layout (the_heap s) (mem s)) as [[[p h] m]|] eqn:Hha.
  - destruct (heap_alloc_spec layout (the_heap s) (mem s) p h m Hhok Hsz Hal Hha) as (Hok' & Hnone & Hlive & Hdiv & Hman' & Hmem).
    eexists _, _. split; [done|]. unfold loop_result. split; [|split_and!; first [done|exact Hmem]]. unfold runtime_ok.
    split; [done|]. split; [done|]. split; [done|]. split; [done|]. intros _. unfold heap_within. cbn. split_and!; try done; try lia. intros a Ha%Hman'. by apply Hman.
  - destruct (grow_heap 0 (Some layout) s) as [r1 s1] eqn:Hg.
    destruct (grow_heap_spec 0 (Some layout) s r1 s1 Hok Hi ltac:(lia) Hg) as (Hok1 & Hi1 & Hb1 & Hl1 & Hk1 & Hf1 & Hr1).
    destruct r1 as [[]|code].
    + destruct Hr1 as [Hlt Hprog]. specialize (Hprog (ex_intro _ layout eq_refl)). pose proof Hok1 as (_ & _ & Hc1 & _).
      rewrite Hb1 in Hc1. destruct (rounds_left_decrease s s1 Hb1 ltac:(lia) Hlt Hprog) as [_ Hdec].
      destruct (IH s1 Hok1 Hi1 ltac:(lia)) as (r & s' & Hloop & Hok' & Hi' & Hb' & Hk' & Hf' & Hres).
      exists r, s'. split; [done|]. unfold loop_result. rewrite Hl1 in *. split_and!; try done.
      * congruence.
      * by eapply loads_kept_trans.
      * destruct Hf1 as (? & ? & ?), Hf' as (? & ? & ?). unfold same_fault. split_and!; congruence.
    + subst s1. eexists _, _. split; [done|]. done.
Qed.

Lemma growth_fuel_enough s : runtime_ok s -> rounds_left s <= Z.of_nat (growth_fuel s).
Proof.
  intros (_ & _ & Hc & _). unfold rounds_left, growth_fuel.
  pose proof (Z.div_pos (Budget.heap_max_bytes (memory_budget s) - heap_committed_bytes s) GUEST_MEMORY_PAGE_BYTES ltac:(lia) ltac:(done)).
  rewrite Z2Nat.id by lia. destruct (_ =? 0); lia.
Qed.

(** More rounds change nothing once the loop has ended. *)
Lemma alloc_loop_stable fuel fuel' layout s r : (fuel <= fuel')%nat ->
  alloc_loop fuel layout s = Some r -> alloc_loop fuel' layout s = Some r.
Proof.
  revert fuel' s. induction fuel as [|fuel IH]; intros [|fuel'] s Hle; cbn [alloc_loop]; try done; try lia.
  destruct (heap_alloc layout (the_heap s) (mem s)) as [[[p h] m]|]; [done|].
  destruct (grow_heap 0 (Some layout) s) as [[[]|code] s1]; [|done]. apply IH. lia.
Qed.

Lemma allocate_with_growth_spec layout s r s' :
  runtime_ok s -> runtime_initialized s = true -> 0 < l_size layout -> is_power_of_two (l_align layout) = true ->
  allocate_with_growth layout s = (r, s') ->
  loop_result layout s r s' /\ match r with Ok _ => l_size layout <= GUEST_HEAP_PLATFORM_MAX_BYTES | Err _ => True end.
Proof.
  intros Hok Hi Hsz Hal. unfold allocate_with_growth.
  assert (forall code, loop_result layout s (Err code) s) as Hsame by (intros; done).
  destruct (checked_next_power_of_two (minimum_block layout)) as [block|] eqn:Hblock; [|intros [= <- <-]; by split].
  destruct (Z.gtb_spec block (Budget.heap_max_bytes (memory_budget s))) as [Hbig|Hfit]; [intros [= <- <-]; by split|].
  destruct (alloc_loop_spec (growth_fuel s) layout s Hok Hi Hsz Hal (growth_fuel_enough s Hok)) as (r1 & s1 & -> & Hres).
  intros [= <- <-]. split; [done|]. destruct r1; [|done].
  unfold checked_next_power_of_two in Hblock. case_match; [|done]. injection Hblock as <-.
  pose proof Hok as (_ & _ & _ & _ & Hw). destruct (Hw Hi) as (_ & _ & Hp & _).
  pose proof (Z.log2_up_spec (minimum_block layout)) as Hlog. unfold minimum_block in *. lia.
Qed.

(** *** [reset_runtime] *)

Lemma fault_stage_range stage : 0 <= fault_stage_u32 stage <= 2.
Proof. destruct stage; cbn; lia. Qed.

(** The statics [reset_runtime] starts from. *)
Lemma blank_ok budget stage h k m :
  0 <= Budget.heap_max_bytes budget ->
  runtime_ok (mk budget 0 0 false 0 0 0
    (FaultRecord.mk GUEST_FAULT_MAGIC_V1 GUEST_FAULT_RECORD_VERSION_V1 GUEST_FAULT_RECORD_V1_LEN 0 (fault_stage_u32 stage)
       0 0 0 (Budget.heap_max_bytes budget) 0 0 0) h k m).
Proof.
  intros Hm. pose proof (fault_stage_range stage). unfold runtime_ok, counters_ok, record_ok, U32_MAX. cbn.
  split_and!; try done; try lia.
Qed.

Lemma reset_runtime_spec budget stage s b s' :
  u32_ok (Budget.heap_initial_bytes budget) -> u32_ok (Budget.heap_max_bytes budget) ->
  reset_runtime budget stage s = (b, s') ->
  runtime_ok s' /\ memory_budget s' = budget /\ runtime_live s' = ∅ /\ runtime_initialized s' = b /\ has_fault s' = negb b.
Proof.
  intros Hi Hm. unfold reset_runtime. cbn [FaultRecord.EMPTY FaultRecord.magic FaultRecord.version FaultRecord.length FaultRecord.code
    FaultRecord.requested_bytes FaultRecord.alignment FaultRecord.heap_committed_bytes FaultRecord.live_requested_bytes
    FaultRecord.high_water_requested_bytes FaultRecord.cumulative_requested_bytes].
  pose proof (blank_ok budget stage (the_heap s) (brk s) (mem s) (proj1 Hm)) as Hblank.
  set (s0 := mk budget 0 0 false 0 0 0 _ (the_heap s) (brk s) (mem s)) in *. change (brk s0) with (brk s). change (mem s0) with (mem s).
  assert (forall code n a r, a = 0 \/ is_power_of_two a = true -> (false, record_failure code n a s0) = r -> r = (b, s') ->
    runtime_ok s' /\ memory_budget s' = budget /\ runtime_live s' = ∅ /\ runtime_initialized s' = b /\ has_fault s' = negb b) as Hfail.
  { intros code n a r Ha <- [= <- <-]. destruct (record_failure_spec code n a s0 Hblank Ha) as (Hok & Hsame & Hfault & _).
    pose proof Hsame as (Hb & _ & _ & Hini & _). split_and!; try done. }
  destruct (negb (is_ok (Budget.validate budget)) || _ || _) eqn:Hbad; [apply (Hfail MemoryConfigInvalid 0 0); [by left|done]|].
  destruct (checked_sub (brk s) heap_base) as [existing|] eqn:Hex; [|apply (Hfail MemoryGrowFailed 0 0); [by left|done]].
  destruct (Z.gtb_spec existing U32_MAX) as [?|Hex32]; [apply (Hfail MemoryGrowFailed 0 0); [by left|done]|].
  destruct (Z.gtb_spec existing (Budget.heap_max_bytes budget)) as [?|Hexm];
    [apply (Hfail MemoryConfigInvalid existing GUEST_MEMORY_PAGE_BYTES); [by right|done]|].
  unfold checked_sub in Hex. destruct (Z.leb_spec heap_base (brk s)); [|discriminate Hex]. injection Hex as <-.
  apply orb_false_iff in Hbad as [Hbad _]. apply orb_false_iff in Hbad as [_ Hplat]. rewrite Z.gtb_ltb, Z.ltb_ge in Hplat.
  pose proof heap_base_positive as Hbase. destruct heap_new_spec as (Hnok & Hnlive & Hnman).
  set (s1 := mk budget heap_base (brk s - heap_base) true 0 0 0 (record s0) heap_new (brk s) (mem s)).
  set (s2 := if negb (brk s - heap_base =? 0) then set_heap (heap_add heap_base (brk s) (the_heap s1) (mem s1)) s1 else s1).
  assert (runtime_ok s2 /\ heap_live (the_heap s2) = ∅ /\ runtime_initialized s2 = true /\ memory_budget s2 = budget /\ has_fault s2 = false) as (Hok2 & Hl2 & Hi2 & Hb2 & Hf2).
  { destruct Hblank as (Hcs0 & _ & _ & Hr0 & _). unfold s2. destruct (Z.eqb_spec (brk s - heap_base) 0) as [E|E]; cbn [negb].
    - split; [|done]. unfold runtime_ok. split; [done|]. split; [apply Hm|]. split; [cbn; lia|]. split; [done|].
      intros _. unfold heap_within. cbn. split_and!; try done; try lia. intros a Ha. by apply Hnman in Ha.
    - destruct (heap_add heap_base (brk s) (the_heap s1) (mem s1)) as [h m] eqn:Hadd.
      destruct (heap_add_spec heap_base (brk s) heap_new (mem s) h m (Hnok _)) as (Hok' & Hlive' & Hman' & _); [lia|intros a _; apply Hnman|done|].
      split; [|split; [cbn; by rewrite Hlive'|done]]. unfold runtime_ok. split; [done|]. split; [apply Hm|]. split; [cbn; lia|]. split; [done|].
      intros _. unfold heap_within. cbn. split_and!; try done; try lia. intros a [Ha|Ha]%Hman'; [by apply Hnman in Ha|lia]. }
  destruct (brk s - heap_base >=? Budget.heap_initial_bytes budget).
  { intros [= <- <-]. split_and!; try done. unfold runtime_live. by rewrite Hi2. }
  destruct (grow_heap (Budget.heap_initial_bytes budget) None s2) as [r s3] eqn:Hg.
  destruct (grow_heap_spec _ _ _ _ _ Hok2 Hi2 (proj1 Hi) Hg) as (Hok3 & Hi3 & Hb3 & Hl3 & _ & (Hc3 & _) & Hr3).
  destruct r as [[]|code].
  - intros [= <- <-]. split_and!; try done; [congruence|unfold runtime_live; rewrite Hi3; congruence|].
    unfold has_fault in *. by rewrite Hc3.
  - intros [= <- <-].
    assert (runtime_ok (set_initialized false s3)) as Hok4.
    { destruct Hok3 as (Hx1 & Hx2 & Hx3 & Hx4 & _). unfold runtime_ok. split; [exact Hx1|]. split; [exact Hx2|]. split; [exact Hx3|]. split; [exact Hx4|]. intros E. discriminate E. }
    destruct (record_failure_spec MemoryGrowFailed (Budget.heap_initial_bytes budget) 1 _ Hok4) as (Hok5 & Hsame & Hfault & _); [by right|].
    pose proof Hsame as (Hb5 & _ & _ & Hi5 & _). split_and!; try done; [rewrite Hb5; cbn; congruence|]. by rewrite (same_heap_live _ _ Hsame).
Qed.

(** *** The allocator meets the contract of [GlobalAlloc] *)

Lemma lazy_budget_ok : u32_ok (Budget.heap_initial_bytes lazy_budget) /\ u32_ok (Budget.heap_max_bytes lazy_budget).
Proof. unfold u32_ok, U32_MAX, lazy_budget, GUEST_MEMORY_PAGE_BYTES. cbn. lia. Qed.

Lemma live_positive s p l : runtime_ok s -> runtime_live s !! p = Some l -> 0 < p /\ 0 < l_size l.
Proof.
  intros (_ & _ & _ & _ & Hw). unfold runtime_live. destruct (runtime_initialized s); [|by rewrite lookup_empty].
  destruct (Hw eq_refl) as (_ & _ & _ & _ & Hok & _). by eapply heap_live_positive.
Qed.

(** Allocation on an initialized runtime. *)
Lemma alloc_ready_spec layout s r s1 p s' :
  runtime_ok s -> runtime_initialized s = true -> 0 < l_size layout -> is_power_of_two (l_align layout) = true ->
  allocate_with_growth layout s = (r, s1) ->
  (p, s') = match r with
            | Ok pointer => (pointer, record_allocation (l_size layout) s1)
            | Err code => (0, record_failure code (l_size layout) (l_align layout) s1)
            end ->
  runtime_ok s' /\ loads_kept (runtime_live s) s s' /\ runtime_initialized s' = true
  /\ (p = 0 /\ runtime_live s' = runtime_live s /\ has_fault s' = true
        /\ (has_fault s = true -> same_fault s s')
      \/ p <> 0 /\ runtime_live s !! p = None /\ runtime_live s' = <[p := layout]> (runtime_live s)
         /\ (l_align layout | p) /\ l_size layout <= U32_MAX /\ same_fault s s').
Proof.
  intros Hok Hi Hsz Hal Ha. destruct (allocate_with_growth_spec layout s r s1 Hok Hi Hsz Hal Ha)
    as ((Hok1 & Hi1 & Hb1 & Hk1 & Hf1 & Hres) & Hmax).
  assert (runtime_live s = heap_live (the_heap s)) as Hl by (unfold runtime_live; by rewrite Hi).
  assert (runtime_live s1 = heap_live (the_heap s1)) as Hl1 by (unfold runtime_live; by rewrite Hi1).
  destruct r as [q|code]; intros [= -> ->].
  - destruct Hres as (Hnone & Hlive & Hdiv). destruct (record_allocation_spec (l_size layout) s1 Hok1 ltac:(lia)) as (Hok2 & Hsame & _).
    split; [done|]. split; [by rewrite Hl|]. split; [done|]. right. rewrite (same_heap_live _ _ Hsame), Hl, Hl1.
    assert (0 < q) as Hq. { apply (live_positive s1 q layout); [done|]. rewrite Hl1, Hlive. apply lookup_insert_eq. }
    split; [lia|]. split; [done|]. split; [done|]. split; [done|]. split; [|exact Hf1].
    unfold GUEST_HEAP_PLATFORM_MAX_BYTES, U32_MAX in *. lia.
  - destruct (record_failure_spec code (l_size layout) (l_align layout) s1 Hok1 (or_intror Hal)) as (Hok2 & Hsame & Hfault & Hkeep).
    split; [done|]. split.
    + rewrite Hl. intros a Hin. destruct Hsame as (_ & _ & _ & _ & _ & _ & ->). by apply Hk1.
    + split; [by destruct Hsame as (_ & _ & _ & -> & _)|]. left. split; [done|]. rewrite (same_heap_live _ _ Hsame), Hl, Hl1. split; [done|]. split; [done|]. intros Hfs.
      destruct Hf1 as (Hc1 & Hr1 & Ha1). unfold has_fault in *. rewrite <- Hc1 in Hfs. destruct (Hkeep Hfs) as (? & ? & ?).
      unfold same_fault. split_and!; congruence.
Qed.

Lemma alloc_spec layout s p s' :
  runtime_ok s -> 0 < l_size layout -> is_power_of_two (l_align layout) = true -> alloc layout s = (p, s') ->
  runtime_ok s' /\ loads_kept (runtime_live s) s s' /\ (runtime_initialized s = true -> runtime_initialized s' = true)
  /\ (p = 0 /\ runtime_live s' = runtime_live s /\ has_fault s' = true
        /\ (runtime_initialized s = true -> has_fault s = true -> same_fault s s')
      \/ p <> 0 /\ runtime_live s !! p = None /\ runtime_live s' = <[p := layout]> (runtime_live s)
         /\ (l_align layout | p) /\ l_size layout <= U32_MAX /\ (runtime_initialized s = true -> same_fault s s')).
Proof.
  intros Hok Hsz Hal. unfold alloc. destruct (Z.eqb_spec (l_size layout) 0) as [?|_]; [lia|].
  destruct (runtime_initialized s) eqn:Hi; cbn [negb].
  - destruct (allocate_with_growth layout s) as [r s1] eqn:Ha. intros Hres.
    destruct (alloc_ready_spec layout s r s1 p s' Hok Hi Hsz Hal Ha) as (Hok' & Hk & Hi' & [(-> & ? & ? & ?)|(? & ? & ? & ? & ? & ?)]);
      [by destruct r|..]; split; try done; split; try done; split; try done; [left|right]; split_and!; try done; by intros.
  - destruct lazy_budget_ok as [Hb1 Hb2]. destruct (reset_runtime lazy_budget Invocation s) as [ready s0] eqn:Hreset.
    destruct (reset_runtime_spec _ _ _ _ _ Hb1 Hb2 Hreset) as (Hok0 & _ & Hl0 & Hi0 & Hf0).
    assert (runtime_live s = ∅) as Hl by (unfold runtime_live; by rewrite Hi).
    destruct ready; cbn [negb].
    + destruct (allocate_with_growth layout s0) as [r s1] eqn:Ha. intros Hres.
      destruct (alloc_ready_spec layout s0 r s1 p s' Hok0 Hi0 Hsz Hal Ha) as (Hok' & Hk & Hi' & Hcases); [by destruct r|].
      split; [done|]. rewrite Hl, Hl0 in *. split; [by intros a (q & k & Hq & _); rewrite lookup_empty in Hq|]. split; [done|].
      destruct Hcases as [(-> & ? & ? & ?)|(? & ? & ? & ? & ? & ?)]; [left|right]; split_and!; try done.
    + intros [= <- <-]. split; [done|]. rewrite Hl, Hl0. split; [by intros a (q & k & Hq & _); rewrite lookup_empty in Hq|]. split; [done|].
      left. split_and!; try done.
Qed.

Lemma dealloc_spec p layout s :
  runtime_ok s -> runtime_live s !! p = Some layout ->
  let s' := dealloc p layout s in
  runtime_ok s' /\ runtime_live s' = delete p (runtime_live s) /\ loads_kept (runtime_live s') s s' /\ same_fault s s'.
Proof.
  intros Hok Hp. destruct (live_positive s p layout Hok Hp) as [Hpos Hsz]. unfold dealloc.
  destruct (Z.eqb_spec p 0); [lia|]. destruct (Z.eqb_spec (l_size layout) 0); [lia|]. cbn [orb].
  destruct (runtime_initialized s) eqn:Hi; [|unfold runtime_live in Hp; by rewrite Hi, lookup_empty in Hp].
  assert (runtime_live s = heap_live (the_heap s)) as Hl by (unfold runtime_live; by rewrite Hi). rewrite Hl in *.
  destruct (heap_dealloc p layout (the_heap s) (mem s)) as [h m] eqn:Hd.
  pose proof Hok as (Hcs & Hm & Hc & Hr & Hw). destruct (Hw Hi) as (Hst & Hcm & Hpl & Hb & Hhok & Hman).
  destruct (heap_dealloc_spec p layout (the_heap s) (mem s) h m Hhok Hp Hd) as (Hok' & Hlive & Hman' & Hmem).
  assert (runtime_ok (set_heap (h, m) s)) as Hok1.
  { unfold runtime_ok. split; [done|]. split; [done|]. split; [done|]. split; [done|]. intros _. unfold heap_within. cbn.
    split_and!; try done; try lia. intros a Ha%Hman'. by apply Hman. }
  destruct (record_deallocation_spec (l_size layout) _ Hok1 ltac:(lia)) as (Hok2 & Hsame & _). cbv zeta.
  split; [done|]. rewrite (same_heap_live _ _ Hsame). unfold runtime_live. cbn [runtime_initialized set_heap the_heap fst]. rewrite Hi.
  split; [done|]. split; [|done]. intros a Ha. destruct Hsame as (_ & _ & _ & _ & _ & _ & ->). by apply Hmem.
Qed.

(** A write of the program: within a live block, or outside the heap. *)
Definition may_write (s : t) (a : Z) : Prop :=
  heap_in_block (runtime_live s) a \/ ~ heap_managed (the_heap s) a.

Lemma store_spec a b s :
  runtime_ok s -> may_write s a ->
  runtime_ok (set_mem (<[a := b]> (mem s)) s) /\ runtime_live (set_mem (<[a := b]> (mem s)) s) = runtime_live s.
Proof.
  intros (Hcs & Hm & Hc & Hr & Hw) Ha. split; [|done]. unfold runtime_ok. split; [done|]. split; [done|]. split; [done|]. split; [done|].
  intros Hi. cbn in Hi. destruct (Hw Hi) as (Hst & Hcm & Hpl & Hb & Hhok & Hman). unfold may_write, runtime_live in Ha. rewrite Hi in Ha.
  unfold heap_within. cbn. split_and!; try done; try lia. by apply heap_ok_store.
Qed.
End Invariant.

#[export] Program Instance runtime_allocator_laws `{BuddyHeapLaws} `{GuestPlatformLaws} : GlobalAllocLaws RuntimeAllocator.t := {|
  ga_ok := runtime_ok;
  ga_live := runtime_live
|}.
Next Obligation. intros ???? s p l Hok Hp. by apply (live_positive s p l). Qed.
Next Obligation.
  intros ???? s p l p' l' (_ & _ & _ & _ & Hw) Hp Hp' Hne. unfold runtime_live in *.
  destruct (RuntimeAllocator.runtime_initialized s); [|by rewrite lookup_empty in Hp].
  destruct (Hw eq_refl) as (_ & _ & _ & _ & Hok & _). by apply (heap_live_disjoint (RuntimeAllocator.the_heap s) (RuntimeAllocator.mem s)).
Qed.
Next Obligation.
  intros ???? s l p s' Hok Hsz Hal Ha. destruct (alloc_spec l s p s' Hok Hsz Hal Ha) as (Hok' & Hk & _ & Hcases).
  split; [done|]. split; [intros q k a Hq Hin; apply Hk; by exists q, k|]. naive_solver.
Qed.
Next Obligation.
  intros ???? s p l Hok Hp. destruct (dealloc_spec p l s Hok Hp) as (Hok' & Hl & Hk & _). split; [done|]. split; [done|].
  intros q k a Hq Hin. apply Hk. by exists q, k.
Qed.
Next Obligation.
  intros ???? s p l a b Hok Hp Hin. destruct (store_spec a b s Hok) as [Hok' Hl]; [left; by exists p, l|]. split; [done|]. split; [done|].
  intros a'. cbn. unfold mem_load. rewrite lookup_insert. destruct (decide (a = a')), (decide (a' = a)); naive_solver.
Qed.
#[export] Instance runtime_small_blocks `{BuddyHeapLaws} `{GuestPlatformLaws} : SmallBlocks RuntimeAllocator.t.
Proof.
  intros s l p s' Hok Hsz Hal Ha Hp. destruct (alloc_spec l s p s' Hok Hsz Hal Ha) as (_ & _ & _ & [[-> _]|(_ & _ & _ & _ & Hl & _)]); done.
Qed.

(** ** Everything the guest may do *)

Section Guest.
Context `{BuddyHeapLaws} `{GuestPlatformLaws}.
Import RuntimeAllocator.

(** The statics when the guest starts. *)
Definition start (k : Z) (m : memory) : t :=
  mk Budget.DEFAULT 0 0 false 0 0 0 FaultRecord.EMPTY heap_new k m.

Inductive guest_call :=
| GReset (budget : Budget.t) (stage : GuestFaultStage)
| GAlloc (layout : Layout)
| GDealloc (pointer : Z) (layout : Layout)
| GRealloc (pointer : Z) (old_layout : Layout) (new_size : Z)
| GMalloc (size : Z)
| GCalloc (count size : Z)
| GCRealloc (pointer size : Z)
| GCFree (pointer : Z).

Definition guest_step (k : guest_call) (s : t) : Z * t :=
  match k with
  | GReset budget stage => let '(b, s) := reset_runtime budget stage s in (Z.b2z b, s)
  | GAlloc layout => alloc layout s
  | GDealloc pointer layout => (0, dealloc pointer layout s)
  | GRealloc pointer old_layout new_size => realloc pointer old_layout new_size s
  | GMalloc size => c_malloc size s
  | GCalloc count size => c_calloc count size s
  | GCRealloc pointer size => c_realloc pointer size s
  | GCFree pointer => (0, c_free pointer s)
  end.

(** What Rust and C allow: layouts are layouts, pointers are null or live. *)
Definition guest_valid (k : guest_call) (s : t) : Prop :=
  match k with
  | GReset budget _ => u32_ok (Budget.heap_initial_bytes budget) /\ u32_ok (Budget.heap_max_bytes budget)
  | GAlloc layout => 0 <= l_size layout /\ is_power_of_two (l_align layout) = true
  | GDealloc pointer layout => runtime_live s !! pointer = Some layout
  | GRealloc pointer old_layout new_size => 0 < new_size /\ is_power_of_two (l_align old_layout) = true
      /\ (pointer = 0 \/ runtime_live s !! pointer = Some old_layout)
  | GMalloc size => 0 <= size
  | GCalloc count size => 0 <= count /\ 0 <= size
  | GCRealloc pointer size => 0 <= size /\ (pointer = 0 \/ exists b, c_block s pointer b)
  | GCFree pointer => pointer = 0 \/ exists b, c_block s pointer b
  end.

Inductive reachable : t -> Prop :=
| reachable_start k m : reachable (start k m)
| reachable_step s k : reachable s -> guest_valid k s -> reachable (guest_step k s).2
(** the program's own writes *)
| reachable_write s a b : reachable s -> may_write s a -> reachable (set_mem (<[a := b]> (mem s)) s).

Lemma start_ok k m : runtime_ok (start k m).
Proof. unfold runtime_ok, counters_ok, record_ok, U32_MAX. cbn. split_and!; try done; try lia. Qed.

Lemma one_block s q b : c_block s q b -> represents s {[ q := b ]}.
Proof. intros Hb p c [-> ->]%lookup_singleton_Some. done. Qed.

(** The bookkeeping of a C call that failed. *)
Lemma c_failure_ok code n s : runtime_ok s -> runtime_ok (record_failure code n C_MAX_ALIGNMENT s).
Proof. intros Hok. by apply (record_failure_spec code n C_MAX_ALIGNMENT s Hok (or_intror eq_refl)). Qed.

Lemma c_request_ok (fault : bool) n s :
  runtime_ok s -> runtime_ok (if negb fault then update_failure_request n C_MAX_ALIGNMENT s else s).
Proof. intros Hok. destruct fault; [done|]. by apply (update_failure_request_spec n C_MAX_ALIGNMENT s Hok (or_intror eq_refl)). Qed.

Lemma from_size_align_Some n a l : from_size_align n a = Some l -> l = mkLayout n a /\ is_power_of_two a = true.
Proof. unfold from_size_align. case_match eqn:Hg; [|done]. intros [= <-]. to_prop. done. Qed.

Lemma realloc_preserving_ok p old new s :
  runtime_ok s -> (runtime_live s !! p = Some old) -> 0 < l_size new -> is_power_of_two (l_align new) = true ->
  runtime_ok (CAlloc.realloc_preserving p old new s).2.
Proof.
  intros Hok Hp Hsz Hal. destruct (live_positive s p old Hok Hp) as [Hpos Hosz]. unfold CAlloc.realloc_preserving. cbn [ga_alloc global_alloc].
  destruct (alloc new s) as [q s1] eqn:Ha. destruct (alloc_spec new s q s1 Hok Hsz Hal Ha) as (Hok1 & _ & _ & Hcases).
  destruct (Z.eqb_spec q 0) as [->|Hq]; [done|]. destruct (Z.eqb_spec p 0); [lia|]. cbn [negb snd].
  destruct Hcases as [(-> & _)|(_ & Hnone & Hlive & _)]; [done|].
  set (copied := load_bytes s1 p _).
  assert (blen copied <= l_size new) as Hlen by (unfold copied, blen; rewrite load_bytes_length; lia).
  assert (ga_ok s1) as Hok1' by exact Hok1.
  destruct (store_bytes_spec s1 q new q copied Hok1') as (Hok2 & Hlive2 & _ & _); [cbn; rewrite Hlive; apply lookup_insert_eq|lia|lia|].
  apply dealloc_spec; [done|]. cbn in Hlive2. rewrite Hlive2, Hlive. rewrite lookup_insert_ne; [done|]. intros ->. congruence.
Qed.

Lemma guest_step_ok k s : runtime_ok s -> guest_valid k s -> runtime_ok (guest_step k s).2.
Proof.
  intros Hok Hv. destruct k as [budget stage|layout|p layout|p old n|n|c n|p n|p]; cbn [guest_step guest_valid] in *.
  - destruct Hv. destruct (reset_runtime budget stage s) as [b s'] eqn:Hr. by apply (reset_runtime_spec budget stage s b s').
  - destruct Hv as [Hsz Hal]. destruct (alloc layout s) as [p s'] eqn:Ha. destruct (decide (l_size layout = 0)) as [E|E].
    + unfold alloc in Ha. rewrite E in Ha. injection Ha as <- <-. done.
    + by apply (alloc_spec layout s p s' Hok ltac:(lia) Hal Ha).
  - by apply dealloc_spec.
  - destruct Hv as (Hn & Hal & Hp). unfold realloc. destruct (Z.eqb_spec p 0) as [->|Hp0].
    + destruct (from_size_align n (l_align old)) as [l|] eqn:Hl.
      * apply from_size_align_Some in Hl as [-> _]. destruct (alloc _ s) as [q s'] eqn:Ha. by apply (alloc_spec (mkLayout n (l_align old)) s q s' Hok Hn Hal Ha).
      * by apply (record_failure_spec MemoryAllocationFailed n (l_align old) s Hok (or_intror Hal)).
    + destruct Hp as [?|Hp]; [done|]. destruct (Z.eqb_spec n 0) as [->|Hn0]; [by apply dealloc_spec|].
      destruct (from_size_align n (l_align old)) as [l|] eqn:Hl.
      * apply from_size_align_Some in Hl as [-> _]. by apply realloc_preserving_ok.
      * by apply (record_failure_spec MemoryAllocationFailed n (l_align old) s Hok (or_intror Hal)).
  - unfold c_malloc. destruct (CAlloc.malloc_from n s) as [r s'] eqn:Hm. apply malloc_spec in Hm as (Hok' & _); [|done..].
    destruct r as [q|[]]; [done|by apply c_failure_ok..|by apply c_request_ok].
  - destruct Hv. unfold c_calloc. destruct (CAlloc.calloc_from c n s) as [r s'] eqn:Hm.
    apply (calloc_refines s ∅) in Hm as (h' & _ & _ & Hok' & _); [|done|by intros ?? ?%lookup_empty_Some|done..].
    destruct r as [q|[]]; [done|by apply c_failure_ok|done|by apply c_request_ok].
  - destruct Hv as [Hn Hp]. unfold c_realloc. destruct (CAlloc.realloc_from p n s) as [r s'] eqn:Hm.
    assert (runtime_ok s') as Hok'.
    { destruct Hp as [->|[b Hb]].
      - apply (realloc_refines s ∅) in Hm as (h' & _ & _ & Hok' & _); [done|done|by intros ?? ?%lookup_empty_Some|done|by left].
      - apply (realloc_refines s {[ p := b ]}) in Hm as (h' & _ & _ & Hok' & _); [done|done|by apply one_block|done|].
        right. by rewrite lookup_singleton_eq. }
    destruct r as [[q|]|[]]; [done|done|by apply c_failure_ok..|by apply c_request_ok].
  - unfold c_free. destruct Hv as [->|[b Hb]]; [done|]. assert (ga_ok s) as Hga by exact Hok. destruct (c_block_bounds s p b Hga Hb) as [Hpos Hlen].
    destruct (free_spec s p b Hga Hb) as (s1 & -> & Hok1 & _); [unfold C_HEADER_SIZE in Hpos; lia|done|done].
Qed.

Lemma reachable_ok s : reachable s -> runtime_ok s.
Proof.
  induction 1 as [k m|s k _ IH Hv|s a b _ IH Ha]; [apply start_ok|by apply guest_step_ok|by apply store_spec].
Qed.

(** *** Faults *)

(** A runtime that runs goes on, and keeps the first fault. *)
Definition fault_kept (s s' : t) : Prop :=
  runtime_initialized s = true -> runtime_initialized s' = true /\ (has_fault s = true -> same_fault s s').

Lemma same_fault_has s s' : same_fault s s' -> has_fault s' = has_fault s.
Proof. intros (Hc & _). unfold has_fault. by rewrite Hc. Qed.

Lemma fault_kept_trans s1 s2 s3 : fault_kept s1 s2 -> fault_kept s2 s3 -> fault_kept s1 s3.
Proof.
  intros H12 H23 Hi. destruct (H12 Hi) as [Hi2 Hf2]. destruct (H23 Hi2) as [Hi3 Hf3]. split; [done|].
  intros Hf. pose proof (Hf2 Hf) as Hs. rewrite <- (same_fault_has _ _ Hs) in Hf. apply Hf3 in Hf as (? & ? & ?).
  destruct Hs as (? & ? & ?). unfold same_fault. split_and!; congruence.
Qed.

Lemma store_bytes_static a b s :
  record (store_bytes a b s) = record s /\ runtime_initialized (store_bytes a b s) = runtime_initialized s.
Proof. revert a s. induction b as [|c b IH]; intros a s; [done|]. cbn [store_bytes]. by destruct (IH (a + 1) (ga_store a c s)) as [-> ->]. Qed.

Lemma fault_kept_store a b s : fault_kept s (store_bytes a b s).
Proof.
  intros Hi. destruct (store_bytes_static a b s) as [Hr Hini]. rewrite Hini. split; [done|]. intros _. unfold same_fault. by rewrite Hr.
Qed.

Lemma has_fault_store a b s : has_fault (store_bytes a b s) = has_fault s.
Proof. unfold has_fault. by destruct (store_bytes_static a b s) as [-> _]. Qed.

Lemma alloc_fault layout s p s' :
  runtime_ok s -> 0 < l_size layout -> is_power_of_two (l_align layout) = true -> alloc layout s = (p, s') ->
  fault_kept s s' /\ (p = 0 -> has_fault s' = true).
Proof.
  intros Hok Hsz Hal Ha. destruct (alloc_spec layout s p s' Hok Hsz Hal Ha) as (_ & _ & Hi & Hcases).
  split; [intros Hini; split; [by apply Hi|]|]; destruct Hcases as [(Hp & _ & Hf & Hs)|(Hp & _ & _ & _ & _ & Hs)]; try done; naive_solver.
Qed.

Lemma fault_kept_same s s' : same_heap s s' -> (has_fault s = true -> same_fault s s') -> fault_kept s s'.
Proof. intros (_ & _ & _ & Hi & _) Hf Hini. by rewrite Hi. Qed.

Lemma record_failure_fault code n a s :
  runtime_ok s -> a = 0 \/ is_power_of_two a = true ->
  fault_kept s (record_failure code n a s) /\ has_fault (record_failure code n a s) = true.
Proof.
  intros Hok Ha. destruct (record_failure_spec code n a s Hok Ha) as (_ & Hsame & Hf & Hk). split; [|done]. by apply fault_kept_same.
Qed.

Lemma dealloc_fault p l s : runtime_ok s -> runtime_live s !! p = Some l -> fault_kept s (dealloc p l s).
Proof.
  intros Hok Hp Hi. destruct (dealloc_spec p l s Hok Hp) as (_ & _ & _ & Hs). split; [|done].
  unfold dealloc. by destruct (_ || _).
Qed.

Lemma malloc_fault n s r s' :
  runtime_ok s -> CAlloc.malloc_from n s = (r, s') ->
  0 <= n -> fault_kept s s' /\ (r = Err OutOfMemory -> has_fault s' = true).
Proof.
  intros Hok Hm Hn. unfold CAlloc.malloc_from in Hm. destruct (allocation_layout n) as [l|e] eqn:Hl.
  2:{ injection Hm as <- <-. apply allocation_layout_Err in Hl as ->. split; [by intros Hi|done]. }
  apply allocation_layout_Ok in Hl as ->; [|done]. destruct (c_layout_allocates n) as [Hsz Hal]. cbn [ga_alloc global_alloc] in Hm.
  destruct (alloc (c_layout n) s) as [base s1] eqn:Ha. destruct (alloc_fault _ s base s1 Hok Hsz Hal Ha) as [Hk Hf].
  destruct (Z.eqb_spec base 0) as [->|Hb]; injection Hm as <- <-.
  - split; [done|]. intros _. by apply Hf.
  - split; [|done]. eapply fault_kept_trans; [exact Hk|]. unfold CAlloc.write_header, CAlloc.write_magic.
    eapply fault_kept_trans; apply fault_kept_store.
Qed.

Lemma realloc_preserving_fault p old new s :
  runtime_ok s -> runtime_live s !! p = Some old -> 0 < l_size new -> is_power_of_two (l_align new) = true ->
  let '(q, s') := CAlloc.realloc_preserving p old new s in fault_kept s s' /\ (q = 0 -> has_fault s' = true).
Proof.
  intros Hok Hp Hsz Hal. destruct (live_positive s p old Hok Hp) as [Hpos Hosz]. unfold CAlloc.realloc_preserving. cbn [ga_alloc global_alloc].
  destruct (alloc new s) as [q s1] eqn:Ha. destruct (alloc_fault new s q s1 Hok Hsz Hal Ha) as [Hk Hf].
  destruct (alloc_spec new s q s1 Hok Hsz Hal Ha) as (Hok1 & _ & _ & Hcases).
  destruct (Z.eqb_spec q 0) as [->|Hq]; [by auto|]. destruct (Z.eqb_spec p 0); [lia|]. cbn [negb].
  destruct Hcases as [(-> & _)|(_ & Hnone & Hlive & _)]; [done|].
  set (copied := load_bytes s1 p _).
  assert (blen copied <= l_size new) as Hlen by (unfold copied, blen; rewrite load_bytes_length; lia).
  assert (ga_ok s1) as Hok1' by exact Hok1.
  destruct (store_bytes_spec s1 q new q copied Hok1') as (Hok2 & Hlive2 & _ & _); [cbn; rewrite Hlive; apply lookup_insert_eq|lia|lia|].
  split; [|done]. eapply fault_kept_trans; [exact Hk|]. eapply fault_kept_trans; [apply fault_kept_store|].
  apply dealloc_fault; [done|]. cbn in Hlive2. rewrite Hlive2, Hlive. rewrite lookup_insert_ne; [done|]. intros ->. congruence.
Qed.

Lemma free_fault q b s r s' :
  runtime_ok s -> c_block s q b -> CAlloc.free_from q s = (r, s') -> fault_kept s s' /\ r = Ok tt.
Proof.
  intros Hok Hb Hf. assert (ga_ok s) as Hga by exact Hok. destruct (c_block_bounds s q b Hga Hb) as [Hpos Hlen].
  pose proof Hb as (Hl & Hm & Hz & _). pose proof (blen_nonneg b). unfold CAlloc.free_from in Hf. destruct (Z.eqb_spec q 0); [unfold C_HEADER_SIZE in Hpos; lia|].
  rewrite Hm, Z.eqb_refl in Hf. cbn [negb] in Hf. rewrite Hz, allocation_layout_small in Hf by lia. injection Hf as <- <-.
  split; [|done]. eapply fault_kept_trans; [apply fault_kept_store|]. unfold CAlloc.write_magic.
  pose proof (c_layout_size (blen b) (blen_nonneg b)) as [_ Hsz]. unfold C_HEADER_SIZE in *.
  destruct (store_bytes_spec s (q - 16) _ (q - 16) (to_le_bytes 4 0) Hga Hl) as (Hok1 & Hl1 & _ & _); [lia|rewrite blen_to_le_bytes; lia|].
  apply dealloc_fault; [done|]. cbn in Hl1, Hl. by rewrite Hl1.
Qed.

(** The C functions above the allocator: whether a null is reported. *)
Lemma c_realloc_fault q n s r s' :
  runtime_ok s -> 0 <= n -> q = 0 \/ (exists b, c_block s q b) -> CAlloc.realloc_from q n s = (r, s') ->
  fault_kept s s' /\ (r = Err OutOfMemory -> has_fault s' = true) /\ (r = Ok None -> n = 0).
Proof.
  intros Hok Hn Hq. unfold CAlloc.realloc_from. destruct (Z.eqb_spec q 0) as [->|Hq0].
  { destruct (Z.eqb_spec n 0) as [->|Hn0]; [intros [= <- <-]; by split_and!|].
    destruct (CAlloc.malloc_from n s) as [r1 s1] eqn:Hm. intros [= <- <-]. destruct (malloc_fault n s r1 s1 Hok Hm Hn) as [Hk Hf].
    split; [done|]. destruct r1; cbn; split; naive_solver. }
  destruct Hq as [?|[b Hb]]; [done|]. assert (ga_ok s) as Hga by exact Hok. destruct (c_block_bounds s q b Hga Hb) as [Hpos Hlen].
  pose proof Hb as (Hl & Hm & Hz & _). pose proof (blen_nonneg b). rewrite Hm, Z.eqb_refl. cbn [negb].
  rewrite Hz, allocation_layout_small by lia. destruct (Z.eqb_spec n 0) as [->|Hn0].
  { destruct (CAlloc.free_from q s) as [r1 s1] eqn:Hf. intros [= <- <-]. destruct (free_fault q b s r1 s1 Hok Hb Hf) as [Hk ->]. by split_and!. }
  destruct (allocation_layout n) as [l|e] eqn:Hlay.
  2:{ intros [= <- <-]. apply allocation_layout_Err in Hlay as ->. by split_and!. }
  apply allocation_layout_Ok in Hlay as ->; [|done]. destruct (c_layout_allocates n) as [Hsz Hal].
  pose proof (realloc_preserving_fault (q - C_HEADER_SIZE) (c_layout (blen b)) (c_layout n) s Hok Hl Hsz Hal) as Hre.
  destruct (CAlloc.realloc_preserving _ _ _ s) as [p s1]. destruct Hre as [Hk Hf].
  destruct (Z.eqb_spec p 0) as [->|Hp]; intros [= <- <-]; [by split_and!; auto|]. split; [|done].
  eapply fault_kept_trans; [exact Hk|]. unfold CAlloc.write_header, CAlloc.write_magic. eapply fault_kept_trans; apply fault_kept_store.
Qed.

(** Calls that ask for memory. *)
Definition asks (k : guest_call) : Prop :=
  match k with
  | GAlloc layout => l_size layout <> 0
  | GRealloc _ _ _ | GMalloc _ | GCalloc _ _ => True
  | GCRealloc _ size => size <> 0
  | _ => False
  end.

Lemma request_fault (before : bool) n s s' :
  runtime_ok s' -> fault_kept s s' -> before = has_fault s -> has_fault s' = true ->
  let s'' := if negb before then update_failure_request n C_MAX_ALIGNMENT s' else s' in
  fault_kept s s'' /\ has_fault s'' = true.
Proof.
  intros Hok Hk -> Hf. destruct (has_fault s) eqn:Hs; cbn [negb]; [done|].
  destruct (update_failure_request_spec n C_MAX_ALIGNMENT s' Hok (or_intror eq_refl)) as (_ & Hsame & Hhf). split; [|by rewrite Hhf].
  intros Hi. destruct (Hk Hi) as [Hi' _]. split; [by destruct Hsame as (_ & _ & _ & -> & _)|]. congruence.
Qed.

(** The record of a budget the platform allows is one the host reads, unless an
    alignment was beyond 32 bits. *)
Lemma record_ok_validates s :
  record_ok s -> FaultRecord.heap_max_bytes (record s) <= GUEST_HEAP_PLATFORM_MAX_BYTES ->
  FaultRecord.alignment (record s) <> U32_MAX -> FaultRecord.validate (record s) = Ok tt.
Proof.
  intros (Hm & Hv & Hl & Hc & Hs & _ & Hcm & Hlive & Hhigh & Hal) Hp Hna. unfold FaultRecord.validate.
  rewrite Hm, Hv, Hl, bool_decide_eq_true_2, !Z.eqb_refl by done. cbn [negb].
  assert (negb (FaultRecord.code (record s) =? 0) && bool_decide (fault_code_from_u32 (FaultRecord.code (record s)) = None) = false) as ->.
  { assert (exists n, (n <= 6)%nat /\ FaultRecord.code (record s) = Z.of_nat n) as (n & Hn & ->)
      by (exists (Z.to_nat (FaultRecord.code (record s))); lia). do 7 (destruct n as [|n]; [done|]). lia. }
  assert (bool_decide (fault_stage_from_u32 (FaultRecord.stage (record s)) = None) = false) as ->.
  { assert (exists n, (n <= 2)%nat /\ FaultRecord.stage (record s) = Z.of_nat n) as (n & Hn & ->)
      by (exists (Z.to_nat (FaultRecord.stage (record s))); lia). do 3 (destruct n as [|n]; [done|]). lia. }
  rewrite !Z.gtb_ltb, !(proj2 (Z.ltb_ge _ _)) by lia. cbn [orb].
  destruct Hal as [->|[->|?]]; [done| |done]. cbn [negb]. by rewrite andb_false_r.
Qed.

(** And such a record only. *)
Lemma validates_within s :
  FaultRecord.validate (record s) = Ok tt ->
  FaultRecord.heap_max_bytes (record s) <= GUEST_HEAP_PLATFORM_MAX_BYTES /\ FaultRecord.alignment (record s) <> U32_MAX.
Proof.
  unfold FaultRecord.validate. intros Hv. do 5 (apply bail_if_Ok in Hv as [_ Hv]).
  apply bail_if_Ok in Hv as [[[[_ Hp]%orb_false_iff _]%orb_false_iff _]%orb_false_iff Hv].
  rewrite Z.gtb_ltb, Z.ltb_ge in Hp. split; [done|]. intros Heq. rewrite Heq in Hv. vm_compute in Hv. discriminate Hv.
Qed.

Lemma no_blocks s : represents s ∅.
Proof. by intros ?? ?%lookup_empty_Some. Qed.

Lemma calloc_fault c n s r s' :
  runtime_ok s -> CAlloc.calloc_from c n s = (r, s') -> 0 <= c -> 0 <= n ->
  fault_kept s s' /\ (r = Err OutOfMemory -> has_fault s' = true).
Proof.
  intros Hok Hm Hc Hn. unfold CAlloc.calloc_from in Hm. destruct (calloc_size c n) as [total|e] eqn:Hsz.
  2:{ injection Hm as <- <-. split; [by intros Hi|]. intros [= ->]. unfold calloc_size in Hsz. by destruct (checked_mul _ _ _). }
  assert (0 <= total) as Ht.
  { unfold calloc_size, checked_mul in Hsz. destruct (_ <=? _); [|done]. injection Hsz as <-. by apply Z.mul_nonneg_nonneg. }
  destruct (CAlloc.malloc_from total s) as [r1 s1] eqn:Hmal. destruct (malloc_fault total s r1 s1 Hok Hmal Ht) as [Hk Hf].
  destruct r1; injection Hm as <- <-; [|by naive_solver]. split; [|done]. eapply fault_kept_trans; [exact Hk|apply fault_kept_store].
Qed.

(** How the C functions answer a failure. *)
Definition c_answer (e : CAllocationError) (n : Z) (s s1 : t) : Z * t :=
  match e with
  | SizeOverflow | InvalidPointer => (0, record_failure MemoryAllocationFailed n C_MAX_ALIGNMENT s1)
  | OutOfMemory => (0, if negb (has_fault s) then update_failure_request n C_MAX_ALIGNMENT s1 else s1)
  end.

Lemma c_answer_fault e n s s1 r s' :
  runtime_ok s1 -> fault_kept s s1 -> (e = OutOfMemory -> has_fault s1 = true) ->
  c_answer e n s s1 = (r, s') -> fault_kept s s' /\ has_fault s' = true.
Proof.
  intros Hok1 Hk Hf. destruct (record_failure_fault MemoryAllocationFailed n C_MAX_ALIGNMENT s1 Hok1 (or_intror eq_refl)) as [Hk1 Hf1].
  destruct e; intros [= <- <-]; try (split; [by eapply fault_kept_trans|done]).
  apply (request_fault (has_fault s) n s s1); [done|done|done|by apply Hf].
Qed.

Lemma guest_call_fault k s r s' :
  runtime_ok s -> guest_valid k s -> (forall budget stage, k <> GReset budget stage) -> guest_step k s = (r, s') ->
  fault_kept s s' /\ (asks k -> r = 0 -> has_fault s' = true).
Proof.
  intros Hok Hv Hk. destruct k as [budget stage|layout|p layout|p old n|n|c n|p n|p]; cbn [guest_step guest_valid asks] in *.
  - by destruct (Hk budget stage).
  - destruct Hv as [Hsz Hal]. intros Ha. destruct (decide (l_size layout = 0)) as [E|E].
    + unfold alloc in Ha. rewrite E in Ha. injection Ha as <- <-. split; [by intros Hi|]. by intros ?.
    + destruct (alloc_fault layout s r s' Hok ltac:(lia) Hal Ha). split; naive_solver.
  - intros [= <- <-]. split; [by apply dealloc_fault|]. by intros [].
  - destruct Hv as (Hn & Hal & Hp). unfold realloc. destruct (Z.eqb_spec p 0) as [->|Hp0].
    + destruct (from_size_align n (l_align old)) as [l|] eqn:Hl.
      * apply from_size_align_Some in Hl as [-> _]. intros Ha. destruct (alloc_fault (mkLayout n (l_align old)) s r s' Hok Hn Hal Ha). naive_solver.
      * intros [= <- <-]. destruct (record_failure_fault MemoryAllocationFailed n (l_align old) s Hok (or_intror Hal)). naive_solver.
    + destruct Hp as [?|Hp]; [done|]. destruct (Z.eqb_spec n 0) as [?|Hn0]; [lia|].
      destruct (from_size_align n (l_align old)) as [l|] eqn:Hl.
      * apply from_size_align_Some in Hl as [-> _]. pose proof (realloc_preserving_fault p old (mkLayout n (l_align old)) s Hok Hp Hn Hal) as Hre.
        intros E. rewrite E in Hre. naive_solver.
      * intros [= <- <-]. destruct (record_failure_fault MemoryAllocationFailed n (l_align old) s Hok (or_intror Hal)). naive_solver.
  - unfold c_malloc. destruct (CAlloc.malloc_from n s) as [r1 s1] eqn:Hm. destruct (malloc_fault n s r1 s1 Hok Hm Hv) as [Hk1 Hf].
    pose proof (malloc_refines s ∅ n r1 s1 (CMalloc n) (fun q b => spec_malloc ∅ n q b) Hok (no_blocks s) Hv eq_refl Hm) as (h' & Hspec & Hr & Hok1 & _).
    destruct r1 as [q|e]; [intros [= <- <-]; pose proof (answered_pointer _ _ _ _ _ Hspec Hr Hok1); naive_solver lia|].
    intros Ha. destruct (c_answer_fault e n s s1 r s'); [done|done|naive_solver|by destruct e|done].
  - destruct Hv as [Hc Hn]. unfold c_calloc. destruct (CAlloc.calloc_from c n s) as [r1 s1] eqn:Hm.
    destruct (calloc_fault c n s r1 s1 Hok Hm Hc Hn) as [Hk1 Hf].
    pose proof (calloc_refines s ∅ c n r1 s1 Hok (no_blocks s) Hc Hn Hm) as (h' & Hspec & Hr & Hok1 & _).
    destruct r1 as [q|e]; [intros [= <- <-]; pose proof (answered_pointer _ _ _ _ _ Hspec Hr Hok1); naive_solver lia|].
    pose proof (answered_error _ _ _ _ Hspec). intros Ha. destruct e; [|done|].
    + destruct (c_answer_fault SizeOverflow USIZE_MAX s s1 r s'); naive_solver.
    + destruct (c_answer_fault OutOfMemory (Z.min USIZE_MAX (c * n)) s s1 r s'); naive_solver.
  - destruct Hv as [Hn Hp]. unfold c_realloc. destruct (CAlloc.realloc_from p n s) as [r1 s1] eqn:Hm.
    destruct (c_realloc_fault p n s r1 s1 Hok Hn Hp Hm) as (Hk1 & Hf & Hnone).
    assert (exists h h', c_spec h (CRealloc p n) r1 h' /\ represents s1 h' /\ ga_ok s1) as (h & h' & Hspec & Hr & Hok1).
    { assert (ga_ok s) as Hga by exact Hok. destruct Hp as [->|[b Hb]].
      - destruct (realloc_refines s ∅ 0 n r1 s1 Hga (no_blocks s) Hn (or_introl eq_refl) Hm) as (h' & ? & ? & ? & _). by exists ∅, h'.
      - destruct (realloc_refines s {[p := b]} p n r1 s1 Hga (one_block s p b Hb) Hn) as (h' & ? & ? & ? & _);
          [right; by rewrite lookup_singleton_eq|done|by exists {[p := b]}, h']. }
    destruct r1 as [[q|]|e]; [intros [= <- <-]; pose proof (answered_pointer _ _ _ _ _ Hspec Hr Hok1); naive_solver lia|naive_solver|].
    intros Ha. destruct (c_answer_fault e n s s1 r s'); [done|done|naive_solver|by destruct e|done].
  - intros [= <- <-]. split; [|by intros []]. unfold c_free. destruct Hv as [->|[b Hb]]; [by intros Hi|].
    destruct (CAlloc.free_from p s) as [r1 s1] eqn:Hfree. by apply (free_fault p b s r1 s1).
Qed.
End Guest.

(** C29: the heap of the guest stays within its budget. Whatever the program
    calls (resets, the Rust allocator, the C functions) and writes to the memory
    it owns, an initialized allocator has moved the break exactly by the bytes it
    counts, these are within the budget and the budget within the platform's
    64 MiB; the blocks it gave out lie between the heap's base and the break and
    never overlap; live <= high water <= cumulative <= u32::MAX; and the fault
    record is one the host accepts exactly when the budget on record is within the
    platform's limit and the recorded alignment is not [u32::MAX], to which larger
    ones are cut. *)
Theorem guest_heap_within_budget `{BuddyHeapLaws} `{GuestPlatformLaws} (s : RuntimeAllocator.t) :
  reachable s ->
  (RuntimeAllocator.runtime_initialized s = true ->
     RuntimeAllocator.brk s = heap_base + RuntimeAllocator.heap_committed_bytes s
     /\ 0 <= RuntimeAllocator.heap_committed_bytes s <= Budget.heap_max_bytes (RuntimeAllocator.memory_budget s)
     /\ Budget.heap_max_bytes (RuntimeAllocator.memory_budget s) <= GUEST_HEAP_PLATFORM_MAX_BYTES
     /\ forall p l, runtime_live s !! p = Some l ->
          heap_base <= p /\ p + l_size l <= RuntimeAllocator.brk s
          /\ forall p' l', runtime_live s !! p' = Some l' -> p <> p' -> p + l_size l <= p' \/ p' + l_size l' <= p)
  /\ (0 <= RuntimeAllocator.live_bytes s <= RuntimeAllocator.high_water_bytes s
      /\ RuntimeAllocator.high_water_bytes s <= RuntimeAllocator.cumulative_bytes s <= U32_MAX)
  /\ (FaultRecord.validate (RuntimeAllocator.record s) = Ok tt <->
      FaultRecord.heap_max_bytes (RuntimeAllocator.record s) <= GUEST_HEAP_PLATFORM_MAX_BYTES
      /\ FaultRecord.alignment (RuntimeAllocator.record s) <> U32_MAX).
Proof.
  intros Hs%reachable_ok. pose proof Hs as (Hcs & _ & _ & Hr & Hw). split; [|split; [exact Hcs|split; [apply validates_within|intros [? ?]; by apply record_ok_validates]]].
  intros Hi. destruct (Hw Hi) as (_ & Hc & Hp & Hb & Hhok & Hman). do 3 (split; [done|]). unfold runtime_live. rewrite Hi.
  intros p l Hl. destruct (heap_live_positive _ _ _ _ Hhok Hl) as [_ Hsz].
  pose proof (Hman p (heap_live_managed _ _ _ _ p Hhok Hl ltac:(unfold in_block; lia))).
  pose proof (Hman (p + l_size l - 1) (heap_live_managed _ _ _ _ (p + l_size l - 1) Hhok Hl ltac:(unfold in_block; lia))).
  split; [lia|]. split; [lia|]. intros p' l' Hl' Hne. by apply (heap_live_disjoint _ _ p l p' l' Hhok).
Qed.

(** The allocation loop ends. From every state the guest can reach, the loop
    that grows the heap and tries again ends within one round for every page
    that is left in the budget and three more, with a pointer or with an error,
    and more rounds change nothing: every growth takes at least a page, or all
    that is left. *)
Theorem allocation_loop_ends `{BuddyHeapLaws} `{GuestPlatformLaws} (s : RuntimeAllocator.t) (layout : Layout) :
  reachable s -> RuntimeAllocator.runtime_initialized s = true ->
  0 < l_size layout -> is_power_of_two (l_align layout) = true ->
  exists r, forall fuel, (RuntimeAllocator.growth_fuel s <= fuel)%nat -> RuntimeAllocator.alloc_loop fuel layout s = Some r.
Proof.
  intros Hs%reachable_ok Hi Hsz Hal.
  destruct (alloc_loop_spec (RuntimeAllocator.growth_fuel s) layout s Hs Hi Hsz Hal (growth_fuel_enough s Hs)) as (r & s' & Hloop & _).
  exists (r, s'). intros fuel Hle. by apply (alloc_loop_stable (RuntimeAllocator.growth_fuel s)).
Qed.

(** A null pointer is never silent, and the first fault stays. Let the guest
    make any call but a reset. If the call asks for memory and answers null, the
    fault record says so; and once the runtime runs, it goes on running, and a
    fault on record keeps its code, its size and its alignment. *)
Theorem null_means_fault `{BuddyHeapLaws} `{GuestPlatformLaws} (s : RuntimeAllocator.t) (k : guest_call) :
  reachable s -> guest_valid k s -> (forall budget stage, k <> GReset budget stage) ->
  let '(p, s') := guest_step k s in
  (asks k -> p = 0 -> RuntimeAllocator.has_fault s' = true)
  /\ (RuntimeAllocator.runtime_initialized s = true -> RuntimeAllocator.runtime_initialized s' = true
       /\ (RuntimeAllocator.has_fault s = true -> same_fault s s')).
Proof.
  intros Hs%reachable_ok Hv Hk. destruct (guest_step k s) as [p s'] eqn:Hstep.
  destruct (guest_call_fault k s p s' Hs Hv Hk Hstep) as [Hkept Hf]. by split.
Qed.

(** ** An instance *)

(** A heap that hands out the last range it was given from low to high, and
    keeps what it manages outside the memory. *)
Module BumpHeap.
Record t := mk { ranges : list (Z * Z); next : Z; limit : Z; blocks : gmap Z Layout }.

Definition align_up (n a : Z) : Z := (n + (a - 1)) / a * a.

Definition bump_alloc (l : Layout) (h : t) (m : memory) : option (Z * t * memory) :=
  let p := align_up (next h) (l_align l) in
  if p + l_size l <=? limit h
  then Some (p, mk (ranges h) (p + l_size l) (limit h) (<[p := l]> (blocks h)), m) else None.

Definition bump_add (start stop : Z) (h : t) (m : memory) : t * memory :=
  (if start <? stop then mk ((start, stop) :: ranges h) start stop (blocks h) else h, m).

Definition managed (h : t) (a : Z) : Prop := Exists (fun r => r.1 <= a < r.2) (ranges h).

Definition bump_ok (h : t) : Prop :=
  0 <= next h /\ (next h < limit h -> 0 < next h) /\ (forall a, next h <= a < limit h -> managed h a)
  /\ (forall p l, blocks h !! p = Some l -> 0 < p /\ 0 < l_size l /\ (p + l_size l <= next h \/ limit h <= p)
        /\ forall a, in_block p l a -> managed h a)
  /\ (forall p l p' l', blocks h !! p = Some l -> blocks h !! p' = Some l' -> p <> p' ->
        p + l_size l <= p' \/ p' + l_size l' <= p).

#[export] Instance bump_heap : BuddyHeap := {|
  heap := t;
  heap_new := mk [] 0 0 ∅;
  heap_alloc := bump_alloc;
  heap_dealloc p l h m := (mk (ranges h) (next h) (limit h) (delete p (blocks h)), m);
  heap_add := bump_add
|}.

(** The heap starts at 64 KiB, the break always moves. *)
#[export] Instance platform : GuestPlatform := {| heap_base := 65536; sbrk_result _ _ := 65536 |}.
#[export] Instance platform_laws : GuestPlatformLaws.
Proof. unfold GuestPlatformLaws. cbn. lia. Qed.

Lemma align_up_spec n a : 0 < a -> n <= align_up n a /\ (a | align_up n a).
Proof.
  intros Ha. unfold align_up. split; [|by exists ((n + (a - 1)) / a)].
  pose proof (Z.div_mod (n + (a - 1)) a ltac:(lia)). pose proof (Z.mod_pos_bound (n + (a - 1)) a Ha). lia.
Qed.

Lemma bump_alloc_spec l h m p h' m' :
  bump_ok h -> 0 < l_size l -> is_power_of_two (l_align l) = true -> bump_alloc l h m = Some (p, h', m') ->
  bump_ok h' /\ blocks h !! p = None /\ blocks h' = <[p := l]> (blocks h) /\ (l_align l | p)
  /\ (forall a, managed h' a <-> managed h a) /\ m' = m.
Proof.
  intros (Hn & Hpos & Hfree & Hbl & Hdis) Hsz Hal. unfold bump_alloc.
  assert (0 < l_align l) as Ha by (unfold is_power_of_two in Hal; lia).
  destruct (align_up_spec (next h) (l_align l) Ha) as [Hup Hdiv]. set (q := align_up _ _) in *.
  destruct (Z.leb_spec (q + l_size l) (limit h)) as [Hfit|]; [|done]. intros [= <- <- <-]. cbn.
  assert (blocks h !! q = None) as Hnone.
  { destruct (blocks h !! q) as [k|] eqn:Hq; [|done]. destruct (Hbl q k Hq) as (_ & ? & ? & _). lia. }
  split; [|done]. unfold bump_ok. cbn. split; [lia|]. split; [lia|]. split; [intros a Hin; apply (Hfree a); lia|]. split.
  - intros p k [[<- <-]|[Hne Hp]]%lookup_insert_Some.
    + split; [lia|]. split; [lia|]. split; [lia|]. intros a Hin. apply (Hfree a). unfold in_block in Hin. lia.
    + destruct (Hbl p k Hp) as (? & ? & ? & Hin). split_and!; [lia|lia|lia|exact Hin].
  - intros p k p' k' [[<- <-]|[Hne Hp]]%lookup_insert_Some [[<- <-]|[Hne' Hp']]%lookup_insert_Some Hpp; [done|..].
    + destruct (Hbl p' k' Hp') as (? & ? & ? & _). lia.
    + destruct (Hbl p k Hp) as (? & ? & ? & _). lia.
    + by eapply Hdis.
Qed.

Lemma bump_add_spec start stop h m h' m' :
  bump_ok h -> 0 < start <= stop -> (forall a, start <= a < stop -> ~ managed h a) -> bump_add start stop h m = (h', m') ->
  bump_ok h' /\ blocks h' = blocks h /\ (forall a, managed h' a -> managed h a \/ start <= a < stop) /\ m' = m.
Proof.
  intros (Hn & Hpos & Hfree & Hbl & Hdis) Hr Hnew. unfold bump_add. destruct (Z.ltb_spec start stop) as [Hlt|]; intros [= <- <-].
  2:{ split; [done|]. split; [done|]. split; [by left|done]. }
  assert (forall a, managed (mk ((start, stop) :: ranges h) start stop (blocks h)) a <-> managed h a \/ start <= a < stop) as Hman.
  { intros a. unfold managed. cbn [ranges]. rewrite Exists_cons. cbn. tauto. }
  split; [|split; [done|split; [apply Hman|done]]]. unfold bump_ok. cbn [next limit blocks]. split; [lia|]. split; [lia|].
  split; [intros a Hin; apply Hman; by right|]. split; [|done]. intros p k Hp. destruct (Hbl p k Hp) as (? & ? & ? & Hin).
  split; [done|]. split; [done|]. split; [|intros a Ha; apply Hman; left; by apply Hin].
  destruct (Z.le_gt_cases (p + l_size k) start); [by left|]. right. apply Z.le_ngt. intros Hov.
  apply (Hnew (Z.max p start)); [lia|]. apply Hin. unfold in_block. lia.
Qed.

#[export] Program Instance bump_laws : BuddyHeapLaws := {|
  heap_ok h _ := bump_ok h;
  heap_live := blocks;
  heap_managed := managed
|}.
Next Obligation. done. Qed.
Next Obligation. cbn. intros h _ p l a (_ & _ & _ & Hbl & _) Hp Hin. by apply (Hbl p l Hp). Qed.
Next Obligation. cbn. intros h _ p l (_ & _ & _ & Hbl & _) Hp. destruct (Hbl p l Hp) as (? & ? & _). done. Qed.
Next Obligation. cbn. intros h _ p l p' l' (_ & _ & _ & _ & Hdis). apply Hdis. Qed.
Next Obligation.
  split; [|split; [done|by intros a ?%Exists_nil]]. intros _. unfold bump_ok. cbn. split; [lia|]. split; [lia|]. split; [lia|].
  split; [by intros ?? ?%lookup_empty_Some|by intros ???? ?%lookup_empty_Some].
Qed.
Next Obligation.
  cbn. intros start stop h m h' m' Hok Hr Hnew Hadd. destruct (bump_add_spec _ _ _ _ _ _ Hok Hr Hnew Hadd) as (? & ? & ? & ->). done.
Qed.
Next Obligation.
  cbn. intros l h m p h' m' Hok Hsz Hal Ha. destruct (bump_alloc_spec _ _ _ _ _ _ Hok Hsz Hal Ha) as (? & ? & ? & ? & ? & ->). done.
Qed.
Next Obligation.
  cbn. intros p l h m h' m' (Hn & Hpos & Hfree & Hbl & Hdis) Hp [= <- <-]. split; [|done]. unfold bump_ok. cbn. split_and!; try done.
  - intros q k [_ Hq]%lookup_delete_Some. by apply Hbl.
  - intros q k q' k' [_ Hq]%lookup_delete_Some [_ Hq']%lookup_delete_Some. by apply Hdis.
Qed.
End BumpHeap.

(** ** Examples *)

Section Examples.
Import BumpHeap.

(** A service with one page and at most four. It asks C for ten bytes, Rust for
    two pages (the heap grows) and for five (it may not). *)
Definition demo_start : RuntimeAllocator.t := start 65536 ∅.
Definition demo_run : RuntimeAllocator.t := (guest_step (GReset (Budget.mk 4096 16384) Refine) demo_start).2.
Definition demo_c : RuntimeAllocator.t := (guest_step (GMalloc 10) demo_run).2.
Definition demo_grown : RuntimeAllocator.t := (guest_step (GAlloc (mkLayout 8192 8)) demo_c).2.
Definition demo_full : RuntimeAllocator.t := (guest_step (GAlloc (mkLayout 20480 8)) demo_grown).2.

Lemma demo_run_reachable : reachable demo_run.
Proof. apply reachable_step; [apply reachable_start|]. cbn. unfold u32_ok, U32_MAX. lia. Qed.

Lemma demo_grown_reachable : reachable demo_grown.
Proof. do 2 (apply reachable_step; [|done]). apply demo_run_reachable. Qed.

Lemma guest_heap_within_budget_witness :
  reachable demo_grown /\ runtime_live demo_grown !! 69632 = Some (mkLayout 8192 8)
  /\ 69632 + 8192 <= RuntimeAllocator.brk demo_grown /\ RuntimeAllocator.brk demo_grown <= 65536 + 16384.
Proof.
  assert (runtime_live demo_grown !! 69632 = Some (mkLayout 8192 8)) as Hl by (vm_compute; reflexivity).
  destruct (guest_heap_within_budget demo_grown demo_grown_reachable) as [Hheap _].
  destruct Hheap as (Hb & Hc & _ & Hbl); [vm_compute; reflexivity|]. destruct (Hbl _ _ Hl) as (_ & Hend & _).
  split; [exact demo_grown_reachable|]. split; [exact Hl|]. split; [exact Hend|]. rewrite Hb.
  change (Budget.heap_max_bytes (RuntimeAllocator.memory_budget demo_grown)) with 16384 in Hc. cbn [heap_base platform]. lia.
Defined.

Lemma allocation_loop_ends_witness :
  reachable demo_run /\ exists r, RuntimeAllocator.alloc_loop 100 (mkLayout 8192 8) demo_run = Some r.
Proof.
  destruct (allocation_loop_ends demo_run (mkLayout 8192 8) demo_run_reachable) as [r Hr];
    [vm_compute; reflexivity|cbn; lia|vm_compute; reflexivity|].
  split; [exact demo_run_reachable|]. exists r. apply Hr. apply Nat.leb_le. vm_compute. reflexivity.
Defined.

Lemma null_means_fault_witness :
  (guest_step (GAlloc (mkLayout 20480 8)) demo_grown).1 = 0 /\ RuntimeAllocator.has_fault demo_full = true.
Proof.
  assert ((guest_step (GAlloc (mkLayout 20480 8)) demo_grown).1 = 0) as Hnull by (vm_compute; reflexivity).
  pose proof (null_means_fault demo_grown (GAlloc (mkLayout 20480 8)) demo_grown_reachable) as Hf.
  split; [exact Hnull|]. unfold demo_full. destruct (guest_step (GAlloc (mkLayout 20480 8)) demo_grown) as [p s'].
  apply Hf; [split; [cbn; lia|vm_compute; reflexivity]|done|done|exact Hnull].
Defined.

(** The ten bytes are a heap of C. *)
Definition demo_heap : gmap Z bytes := {[ 65552 := repeat x00 10 ]}.

Lemma demo_represents : represents demo_c demo_heap.
Proof.
  intros q b Hq. unfold demo_heap in Hq. apply lookup_singleton_Some in Hq as [<- <-]. unfold c_block. repeat split; vm_compute; reflexivity.
Qed.

Lemma c_heap_refines_witness :
  valid_call demo_heap (CRealloc 65552 40)
  /\ let '(r, s') := c_step (CRealloc 65552 40) demo_c in
     exists h', c_spec demo_heap (CRealloc 65552 40) r h' /\ represents s' h' /\ ga_ok s' /\ others_kept demo_c s' demo_heap.
Proof.
  assert (valid_call demo_heap (CRealloc 65552 40)) as Hv by (split; [lia|right; vm_compute; eexists; reflexivity]).
  assert (ga_ok demo_c) as Hok.
  { apply reachable_ok. apply reachable_step; [apply demo_run_reachable|done]. }
  split; [exact Hv|]. exact (proj1 (c_heap_refines demo_c demo_heap (CRealloc 65552 40) Hok demo_represents) Hv).
Defined.

(** A budget beyond the platform's limit leaves a record the host does not read. *)
Lemma oversized_budget_record :
  let s := (guest_step (GReset (Budget.mk 4096 67112960) Refine) demo_start).2 in
  FaultRecord.code (RuntimeAllocator.record s) = fault_code_u32 MemoryConfigInvalid
  /\ FaultRecord.validate (RuntimeAllocator.record s) = Err InconsistentFields.
Proof. vm_compute. by split. Qed.
End Examples.
